(* ===== verification/_CoqProject ===== *)
-Q . S2P
Prelude.v
GoStrings.v
Effects.v
GoPath.v
GoTime.v
GoBase64.v
LimitedIO.v
Lifecycle.v
BackupSchedule.v
BackupEvidence.v
BackupState.v
BackupRetention.v
SchedulerTime.v
JobsResource.v
JobsLocks.v
Store.v
Scheduler.v
BackupProtection.v
BackupPolicy.v
BackupAlerts.v
StoreRetention.v
StoreAuth.v
StoreAudit.v
AuditService.v
JobsService.v
BackupPlans.v
BackupLeases.v
BackupDestinations.v
BackupSystem.v
BackupTransfer.v
JobsConcurrency.v
SessionHub.v
Terminal.v
FileSystem.v
WorkspaceFiles.v
StackWorkspace.v
ConfigWorkspace.v
Stacks.v
StackReader.v
Notifications.v
HostLogs.v
NotificationMonitors.v
ImageUpdates.v
Maintenance.v
MaintenancePlan.v
MaintenanceJobs.v
MaintenanceOutcome.v
AuthPassword.v
AuthService.v
