(* ===== verification/Prelude.v ===== *)
(** * Stacklab verification library (root file)

    Stacklab is a Go server that administers Docker Compose stacks on one host:
    it updates and prunes stacks, edits their files, backs their data up, and lets
    authenticated users watch and run commands.  This library models the services
    that decide who may do what, and when.  The Go sources are under
    src/internal/; a file name below without a directory prefix is relative to it.

    ** Parts and how they interact

    A mutating request starts a _job_.  The job service (jobs/service.go)
    normalizes the requested resources, locks them in memory, writes the job with
    its first event to the store, and publishes events to subscribers; the terminal
    transition releases the locks.  The store (store/store.go) keeps jobs, events,
    the audit log, settings, the password, sessions and image states in SQLite.
    The maintenance services plan and execute updates and prunes as such jobs, over
    stacks that stacks/service.go reads from the file system and from Docker; the
    scheduler starts them at their times.  The backup service has jobs of its own,
    with reservations of repositories, retention, evidence of integrity, and a
    policy that raises alerts and reports a heartbeat.  Authentication throttles
    logins and ends sessions through the lifecycle hub, which ends the terminal
    sessions of their owners.  Notifications report finished jobs and what the
    background monitors find.  A second process, the self-update helper, writes the
    jobs table beside the server.

    ** Files and the code they model

    Foundations, which model the Go standard library and idioms and have no entry
    in the source map:
    - Prelude (this file): results, strings, maps, sorting, automation; the classes
      [MapRange] and [DocText].
    - GoStrings, GoPath, GoTime, GoBase64: the parts of strings, path, time and
      encoding/base64 in use.  Effects: the monad of operations on a world.
    - FileSystem: directories, files and symbolic links, with atomicfile/write.go.

    Jobs and the store:
    - JobsResource (jobs/resource.go); JobsLocks (the fields of [jobs.Service] under
      [s.mu], with an abstract lock manager); JobsService (the handlers of
      jobs/service.go); JobsConcurrency (the same handlers cut into critical
      sections, [conc_step], and beside them the writes of the self-update helper of
      cmd/stacklab-self-update-helper/main.go, [host_step]).
    - Store, StoreRetention, StoreAuth, StoreAudit: store/store.go on the tables of
      store/migrations.go as the record [DB], and retention/service.go.
    - AuditService: audit/service.go.

    Sessions:
    - AuthPassword, AuthService (auth/service.go), SessionHub
      (auth/session_lifecycle.go), Terminal (terminal/service.go).

    Stacks and maintenance:
    - Stacks (stacks/types.go, lint.go and the pure part of service.go),
      StackReader (discovery, the Compose command, actions, maintenance steps,
      resolved configurations and baselines of stacks/service.go).
    - Maintenance (maintenance/service.go), MaintenancePlan and MaintenanceJobs
      (maintenancejobs/service.go), MaintenanceOutcome (theorems about them).
    - ImageUpdates (imageupdates/service.go), SchedulerTime and Scheduler
      (scheduler/service.go), Lifecycle (lifecycle/manager.go), LimitedIO
      (limitedio/limitedio.go).
    - WorkspaceFiles, StackWorkspace, ConfigWorkspace: workspacefiles,
      stackworkspace/service.go and configworkspace/service.go.
    - Notifications, NotificationMonitors: notifications/*.go; HostLogs: the journal
      reader of hostinfo/service.go that the monitors poll.

    Backup (backup/*.go):
    - BackupSchedule (schedule.go), BackupEvidence (check_evidence.go), BackupState
      (the persisted state, snapshot_evidence.go, health.go), BackupRetention
      (retention.go, snapshot_verification.go), BackupProtection (health.go,
      inventory.go), BackupPolicy and BackupAlerts (operational_policy.go),
      BackupPlans and BackupDestinations (service.go, repository.go), BackupLeases
      (leases.go, the starts of service.go), BackupSystem (all of these
      interleaved), BackupTransfer (transfers.go and the end of a run).

    ** What the theorems show

    - Jobs: in every interleaving two active jobs hold no conflicting resources and
      the lock table is that of the active jobs; a job that has ended never becomes
      active again in the server.  Both hold beside the self-update helper except
      for the jobs that it writes: [self_update_lock_leaks] exhibits the lock that
      stays behind.  The lock table refines an abstract manager.
    - Store and audit: an audit listing that follows cursors shows every entry once,
      in the order of [audit_desc], which is chronological to the second; retention
      respects age to the second; a job is the last action of its stacks.
    - Authentication: only the right password opens a session, under lockout and at
      the current password version; a request is accepted only with a usable
      session; logging out and changing the password are final; stored hashes have
      bounded cost.
    - Terminals: slots, sessions and timers are accounted for in every interleaving;
      no owner reaches the terminal of another; closing an owner ends all of its
      sessions and returns.
    - Maintenance: an update locks what it works on, ends in every case, keeps a
      failure local to its stack, does not touch excluded services nor start
      inactive stacks; nothing in use is removed; the preview predicts the prune;
      an action reaches one stack, with the command that its state allows.
    - Images: a lookup connects to public addresses only (or to the address of a
      registry that was configured as local), and the recorded states say what the
      registry answered.
    - Scheduler and lifecycle: an occurrence is triggered once; shutdown completes.
    - Files: what the workspaces read, write, list and repair stays inside their
      directory, whatever links there are; a saved file is read back.
    - Backup: repositories are used exclusively; retention deletes nothing that is
      needed; a copy settles with verified evidence or a failure; bad evidence
      persists until a good check of the same scope; health and heartbeat are
      claimed only when the data is protected; a corrupt policy is never
      overwritten; an accepted plan is canonical.
    - Notifications: a finished job is announced exactly as its table says; no error
      that the journal reader hands out is passed over silently.

    ** Conventions and bounds

    A Go [(value, error)] is [res]; a map is a [gmap]; iteration over a Go map,
    whose order is unspecified, goes through the class [MapRange], so theorems
    hold for every order.  A time is a number of nanoseconds since 1970 in Z;
    theorems that depend on printing assume years 0 to 9999 ([rfc_range]).
    Clock readings, random tokens and the outcome of each SQL call ([IO]: the
    driver may report an error, and then the statement had no effect) are
    arguments, and so are the answers of Docker, Compose, restic, journalctl,
    registries and name servers, at every moment they are asked; the commands they
    receive are recorded in order.  A JSON document of the settings is read back as
    it was written ([DocText]).  Other parameters: argon2, SHA-256, SQLite's
    julianday, [strings.ToLower], YAML, net/url, the zone database.

    Concurrent services are cut where the code releases a mutex, and a step
    relation interleaves the sections: [conc_step] and [host_step], [step] in
    Terminal and in Lifecycle, [sys_step] in Scheduler, BackupSystem.  Two
    simplifications: in Terminal the creation of the idle timer is one step with
    the registration of the session, which follows it ([registerSession]); the file
    systems of the workspaces and of the stack reader change only by the operation
    that is modelled.

    Functions with fuel, and why it is enough: the decimal printer has 20 digits,
    which an int64 has at most; authentication retries twice, the monitors read
    five batches, a request of a lookup follows nine redirects and a step is tried as often
    as the code does; [follow], the client of the audit cursors, needs one page more
    than there are rows ([follow_rows]); [forgetAll] and [evictOldest] run once per
    element ([forgetAll_spec], [evictOldest_spec]); [replace_from] once per byte.

    ** What is not modelled

    SQLite itself and the migration DDL; logging; reading the configuration; the
    inspection of [net/http] requests (client address, origin); the HTTP and
    WebSocket interface; capture, restore and the recovery library of the backup
    module, its catalogue and repository access; host metrics; Docker
    administration; git and permission repair; the privileged helpers, apart from
    the writes of the self-update helper to the database.

    ** Plan

    Next: saving, creating and deleting stack definitions (stacks/service.go) on
    StackReader; the repository jobs and the capture of ExecuteRun; templates and
    progress of stacks; the background loops around retention and the monitors. *)

From stdpp Require Import gmap strings list sorting fin_maps sets.

#[global] Set Default Proof Using "Type".

(** ** Results: the [(value, error)] pairs of the Go code *)

Inductive res (E A : Type) : Type :=
| Ok (a : A)
| Err (e : E).
Arguments Ok {E A} a.
Arguments Err {E A} e.

Declare Scope go_scope.
Delimit Scope go_scope with go.
Open Scope go_scope.

Definition res_bind {E A B} (r : res E A) (k : A → res E B) : res E B :=
  match r with Ok a => k a | Err e => Err e end.

Definition is_ok {E A} (r : res E A) : bool :=
  match r with Ok _ => true | Err _ => false end.

Notation "'let?' x ':=' c 'in' k" := (res_bind c (λ x, k))
  (at level 10, x pattern, c at level 200, k at level 200) : go_scope.

(** [if err := check; err != nil { return err }]: the guard idiom. *)
Definition guard_err {E} (fails : bool) (e : E) : res E unit :=
  if fails then Err e else Ok tt.

(** ** Iteration over Go maps

    A [for k, v := range m] loop visits the entries in an unspecified order.
    Definitions that range over a map take an instance of this class; the
    theorems hold for every instance, hence for every iteration order. *)

Class MapRange (K V : Type) `{Countable K} := {
  range_list : gmap K V → list (K * V);
  range_perm : ∀ m, range_list m ≡ₚ map_to_list m
}.

(** The iteration order used to run the model on concrete inputs. *)
Definition default_range K V `{Countable K} : MapRange K V :=
  {| range_list := map_to_list; range_perm := λ m, reflexivity _ |}.

(** ** Documents in the settings table

    The promise of [encoding/json] to its callers: the text of a document is read
    back as that document. *)

Class DocText (D : Type) := {
  doc_text : D → string;
  doc_parse : string → option D;
  doc_parse_text : ∀ d, doc_parse (doc_text d) = Some d }.

(** ** Byte strings *)

Definition str_eqb (s t : string) : bool := bool_decide (s = t).
Definition str_empty (s : string) : bool := str_eqb s "".
(** Go's [s < t] on strings: byte-wise lexicographic order. *)
Definition str_ltb (s t : string) : bool := negb (bool_decide (String.le t s)).
Definition str_in (s : string) (l : list string) : bool := bool_decide (s ∈ l).

(** [sort.Strings], and [sort.Slice] with a less function that compares keys.
    [sort.Slice] is not stable; the model is only used where the keys of the
    sorted elements are pairwise distinct, so that the result is unique
    ([sort_by_unique] below). *)
Definition key_le {A} (key : A → string) : relation A := λ x y, String.le (key x) (key y).
Definition sort_by {A} (key : A → string) (l : list A) : list A :=
  merge_sort (key_le key) l.
Definition sort_strings (l : list string) : list string := sort_by (λ s, s) l.

(** The first element satisfying a test, as the [for ... if ... break] loops. *)
Fixpoint find_index_from {A} (f : A → bool) (i : nat) (l : list A) : option nat :=
  match l with
  | [] => None
  | x :: l' => if f x then Some i else find_index_from f (S i) l'
  end.

(** ** Tactics of the development *)

(** Case analysis on the scrutinee of the first match or if of the goal or of
    a hypothesis, keeping the equation. *)
Ltac case_scrut :=
  match goal with
  | |- context [match ?x with _ => _ end] => destruct x eqn:?
  | |- context [if ?x then _ else _] => destruct x eqn:?
  end.
Ltac case_scrut_in H :=
  match type of H with
  | context [match ?x with _ => _ end] => destruct x eqn:?
  | context [if ?x then _ else _] => destruct x eqn:?
  end.

(** Turn boolean facts into propositions. *)
Ltac boolify_once :=
  match goal with
  | H : bool_decide _ = true |- _ => apply bool_decide_eq_true in H
  | H : bool_decide _ = false |- _ => apply bool_decide_eq_false in H
  | H : str_eqb _ _ = true |- _ => apply bool_decide_eq_true in H
  | H : str_eqb _ _ = false |- _ => apply bool_decide_eq_false in H
  | H : str_empty _ = true |- _ => apply bool_decide_eq_true in H
  | H : str_empty _ = false |- _ => apply bool_decide_eq_false in H
  | H : str_in _ _ = true |- _ => apply bool_decide_eq_true in H
  | H : str_in _ _ = false |- _ => apply bool_decide_eq_false in H
  | H : negb _ = true |- _ => apply negb_true_iff in H
  | H : negb _ = false |- _ => apply negb_false_iff in H
  | H : andb _ _ = true |- _ => apply andb_true_iff in H as [? ?]
  | H : orb _ _ = false |- _ => apply orb_false_iff in H as [? ?]
  | H : andb _ _ = false |- _ => apply andb_false_iff in H
  | H : orb _ _ = true |- _ => apply orb_true_iff in H
  end.
Ltac boolify := repeat boolify_once.

(** Invert a hypothesis [H : e = Ok v] made of binds and guards; the
    equations of the steps are named [E], [E0], ... in order. *)
Ltac res_inv H :=
  repeat match type of H with
  | res_bind ?c _ = Ok _ =>
    let E := fresh "E" in destruct c as [?|?] eqn:E; [cbn [res_bind] in H|discriminate H]
  | guard_err ?b _ = Ok _ =>
    let E := fresh "E" in destruct b eqn:E; [discriminate H|clear H]
  | (let '(_, _) := ?p in _) = Ok _ => is_var p; destruct p
  | Ok _ = Ok _ => injection H as H
  end.

Lemma guard_err_Ok {E} (fails : bool) (e : E) u : guard_err fails e = Ok u → fails = false.
Proof. by destruct fails. Qed.

(** Case analysis on membership in an explicit list. *)
Ltac list_cases :=
  repeat match goal with
  | H : _ ∈ _ :: _ |- _ => apply elem_of_cons in H as [H|H]
  | H : _ ∈ [] |- _ => by apply elem_of_nil in H
  end.

(** Division and modulo by constants are in the scope of [lia]. *)
Ltac Zify.zify_post_hook ::= Z.to_euclidean_division_equations.

Create HintDb stacklab.

(** ** Lemmas shared by the components *)

Section keyed_sort.
Context {A : Type} (key : A → string).

#[global] Instance key_le_dec : RelDecision (key_le key).
Proof. intros x y. unfold key_le. apply _. Defined.

#[global] Instance key_le_trans : Transitive (key_le key).
Proof. intros x y z. unfold key_le. intros ? ?. by etrans. Qed.

#[global] Instance key_le_total : Total (key_le key).
Proof. intros x y. unfold key_le. apply (total String.le). Qed.

Lemma sort_by_perm l : sort_by key l ≡ₚ l.
Proof. apply merge_sort_Permutation. Qed.

Lemma sort_by_sorted l : Sorted (key_le key) (sort_by key l).
Proof. apply Sorted_merge_sort, _. Qed.

Lemma sort_by_elem l x : x ∈ sort_by key l ↔ x ∈ l.
Proof. by rewrite sort_by_perm. Qed.

(** Any sorted rearrangement of a list whose elements have distinct keys is the
    one [sort_by] returns: the unspecified order of equal elements in
    [sort.Slice] and the unspecified order of the input cannot be observed. *)
Lemma sort_by_unique l k :
  (∀ x y, x ∈ l → y ∈ l → key x = key y → x = y) →
  k ≡ₚ l → Sorted (key_le key) k → k = sort_by key l.
Proof.
  intros Hinj Hp Hs.
  eapply Sorted_unique_strong; [apply key_le_trans| |exact Hs|apply sort_by_sorted|].
  - intros x1 x2 H1 H2 Hle Hge. rewrite Hp in H1. rewrite sort_by_elem in H2.
    apply Hinj; [done..|]. by apply (anti_symm String.le).
  - by rewrite sort_by_perm.
Qed.
End keyed_sort.

Lemma Ok_inj {E A} (a b : A) : @Ok E A a = Ok b → a = b.
Proof. by intros [= ->]. Qed.

Lemma str_ltb_lt s t : str_ltb s t = true ↔ String.le s t ∧ s ≠ t.
Proof.
  unfold str_ltb. rewrite negb_true_iff, bool_decide_eq_false.
  destruct (total String.le s t) as [Hl|Hl]; split.
  - intros Hn. split; [done|]. intros ->. done.
  - intros [_ Hne] Hge. apply Hne. by apply (anti_symm String.le).
  - done.
  - intros [Hle Hne]. exfalso. apply Hne. by apply (anti_symm String.le).
Qed.

Lemma str_ltb_irrefl s : str_ltb s s = false.
Proof. unfold str_ltb. rewrite bool_decide_true; done. Qed.

Lemma str_app_cons c s t : String c s +:+ t = String c (s +:+ t).
Proof. done. Qed.

Lemma str_app_assoc (s t u : string) : (s +:+ t) +:+ u = s +:+ (t +:+ u).
Proof. induction s as [|c s IH]; [done|]. rewrite !str_app_cons. by f_equal. Qed.

Lemma str_app_nil_l (s : string) : "" +:+ s = s.
Proof. done. Qed.

Lemma str_app_nil_r (s : string) : s +:+ "" = s.
Proof. induction s as [|c s IH]; [done|]. rewrite str_app_cons. by f_equal. Qed.

Lemma str_app_length s t : String.length (s +:+ t) = String.length s + String.length t.
Proof. induction s as [|c s IH]; [done|]. rewrite str_app_cons. cbn. by rewrite IH. Qed.

Lemma str_append_inj s t u : s +:+ t = s +:+ u → t = u.
Proof. induction s as [|c s IH]; cbn; [done|]. intros [= H]. by apply IH. Qed.

Lemma range_list_elem {K V} `{Countable K} `{!MapRange K V} (m : gmap K V) k v :
  (k, v) ∈ range_list m ↔ m !! k = Some v.
Proof. rewrite range_perm. apply elem_of_map_to_list. Qed.

Lemma find_index_from_Some {A} (f : A → bool) l i j :
  find_index_from f i l = Some j →
  ∃ x, i ≤ j ∧ l !! (j - i) = Some x ∧ f x = true.
Proof.
  revert i. induction l as [|x l IH]; cbn; intros i; [done|].
  destruct (f x) eqn:E.
  - intros [= <-]. exists x. rewrite Nat.sub_diag. done.
  - intros (y & ? & Hl & Hy)%IH. exists y. split; [lia|].
    replace (j - i) with (S (j - S i)) by lia. done.
Qed.

Lemma find_index_from_None {A} (f : A → bool) l i x :
  find_index_from f i l = None → x ∈ l → f x = false.
Proof.
  revert i. induction l as [|y l IH]; cbn; intros i; [set_solver|].
  destruct (f y) eqn:E; [done|]. intros Hn [->|Hx]%elem_of_cons; eauto.
Qed.

Lemma find_index_first {A} (f : A → bool) l i :
  find_index_from f 0 l = Some i →
  ∃ x, l !! i = Some x ∧ f x = true ∧ ∀ k y, k < i → l !! k = Some y → f y = false.
Proof.
  assert (∀ n, find_index_from f n l = Some i → n ≤ i ∧
    ∃ x, l !! (i - n) = Some x ∧ f x = true ∧ ∀ k y, k < i - n → l !! k = Some y → f y = false) as H.
  2:{ intros Hi. destruct (H 0 Hi) as [_ Hx]. by rewrite Nat.sub_0_r in Hx. }
  induction l as [|x l IH]; cbn; intros n; [done|]. destruct (f x) eqn:E.
  - intros [= <-]. split; [done|]. exists x. rewrite Nat.sub_diag. split_and!; try done. lia.
  - intros (Hn & y & Hy & Hf & Hm)%IH. split; [lia|].
    replace (i - n) with (S (i - S n)) by lia. exists y. split_and!; try done.
    intros [|k] z Hk; cbn; [by intros [= <-]|]. apply Hm. lia.
Qed.

Lemma existsb_false_iff {A} (f : A → bool) l : existsb f l = false ↔ ∀ x, x ∈ l → f x = false.
Proof.
  induction l as [|x l IH]; cbn; [split; [set_solver|done]|]. rewrite orb_false_iff, IH. set_solver.
Qed.

(** [alter] at a present index is an insertion. *)
Lemma list_alter_insert {A} (f : A → A) (l : list A) (i : nat) x : l !! i = Some x → alter f i l = <[i := f x]> l.
Proof.
  revert i. induction l as [|y l IH]; intros [|i] H; cbn in *; simplify_eq; [done|]. f_equal. by apply IH.
Qed.

(** ** A concrete text of documents, to run the model: any injective encoding *)

Fixpoint bits_text (p : positive) : string :=
  match p with xH => "" | xO p => String Ascii.zero (bits_text p) | xI p => String Ascii.one (bits_text p) end.
Fixpoint text_bits (s : string) : positive :=
  match s with EmptyString => xH | String c s => if Ascii.eqb c Ascii.zero then xO (text_bits s) else xI (text_bits s) end.

Lemma text_bits_text p : text_bits (bits_text p) = p.
Proof. induction p as [p IH|p IH|]; cbn; by rewrite ?IH. Qed.

Program Definition countable_text D `{Countable D} : DocText D :=
  {| doc_text d := bits_text (encode d); doc_parse s := decode (text_bits s) |}.
Next Obligation. intros D ?? d. cbn. by rewrite text_bits_text, decode_encode. Qed.
