(* ===== verification/GoStrings.v ===== *)
(** * Go string operations used by the modelled packages

    Byte strings and the parts of [strings] and [strconv] the code calls:
    [strings.TrimSpace], [strings.Split] on a one-byte separator,
    [strings.HasPrefix], [strconv.Atoi], [strconv.ParseUint] in base 10 and the
    zero-padded decimal printing of [fmt] and [time].  These model the Go
    standard library, so they have no entry in the source map. *)

From stdpp Require Import gmap strings list.
From Stdlib Require Import Ascii ZArith.
From S2P Require Import Prelude.

Local Open Scope Z_scope.

Definition byte_of (c : ascii) : Z := Z.of_N (N_of_ascii c).
Definition chr (z : Z) : ascii := ascii_of_N (Z.to_N z).
Definition str1 (c : ascii) : string := String c EmptyString.

(** [len(s)]. *)
Definition slen (s : string) : Z := Z.of_nat (String.length s).

(** [s[:n]]; Go panics when [n] is negative or above [len(s)]. *)
Definition str_take (n : Z) (s : string) : string := String.substring 0 (Z.to_nat n) s.

(** ** [strings.TrimSpace]

    [unicode.IsSpace] on the UTF-8 encoding: the ASCII blanks, U+0085, U+00A0,
    U+1680, U+2000 to U+200A, U+2028, U+2029, U+202F, U+205F and U+3000. *)
Definition ascii_space (c : ascii) : bool :=
  let b := byte_of c in ((9 <=? b) && (b <=? 13)) || (b =? 32).
Definition space2 (c d : ascii) : bool :=
  (byte_of c =? 194) && ((byte_of d =? 133) || (byte_of d =? 160)).
Definition space3 (c d e : ascii) : bool :=
  let '(a, b, z) := (byte_of c, byte_of d, byte_of e) in
  ((a =? 225) && (b =? 154) && (z =? 128)) ||
  ((a =? 226) && (b =? 128) && (((128 <=? z) && (z <=? 138)) || (z =? 168) || (z =? 169) || (z =? 175))) ||
  ((a =? 226) && (b =? 129) && (z =? 159)) ||
  ((a =? 227) && (b =? 128) && (z =? 128)).

(** Drop leading blanks; with [back] the string is given reversed, so that the
    multi-byte blanks are matched in reverse order. *)
Fixpoint trim_front (back : bool) (s : string) : string :=
  match s with
  | EmptyString => EmptyString
  | String c s1 =>
    if ascii_space c then trim_front back s1 else
    match s1 with
    | EmptyString => s
    | String d s2 =>
      if (if back then space2 d c else space2 c d) then trim_front back s2 else
      match s2 with
      | EmptyString => s
      | String e s3 =>
        if (if back then space3 e d c else space3 c d e) then trim_front back s3 else s
      end
    end
  end.
Definition trim_space (s : string) : string :=
  String.rev (trim_front true (String.rev (trim_front false s))).

(** ** [strings.Split], [strings.HasPrefix], slicing *)
Fixpoint split_at (sep : ascii) (acc : string) (s : string) : list string :=
  match s with
  | EmptyString => [String.rev acc]
  | String c s' =>
    if Ascii.eqb c sep then String.rev acc :: split_at sep EmptyString s'
    else split_at sep (String c acc) s'
  end.
Definition split (s : string) (sep : ascii) : list string := split_at sep EmptyString s.

(** [strings.Cut] at the first occurrence of a byte. *)
Fixpoint cut_at (sep : ascii) (acc s : string) : option (string * string) :=
  match s with EmptyString => None | String c r => if Ascii.eqb c sep then Some (String.rev acc, r) else cut_at sep (String c acc) r end.
Definition Cut (s : string) (sep : ascii) : option (string * string) := cut_at sep "" s.

(** [strings.Trim(s, q)] for one character. *)
Fixpoint trim_left (q : ascii) (s : string) : string := match s with String c r => if Ascii.eqb c q then trim_left q r else s | EmptyString => s end.
Definition Trim (q : ascii) (s : string) : string := String.rev (trim_left q (String.rev (trim_left q s))).
Definition quote : ascii := chr 34.

Fixpoint strip_prefix (p s : string) : option string :=
  match p, s with
  | EmptyString, _ => Some s
  | String a p', String b s' => if Ascii.eqb a b then strip_prefix p' s' else None
  | String _ _, EmptyString => None
  end.
Definition has_prefix (s p : string) : bool := match strip_prefix p s with Some _ => true | None => false end.

(** [strings.HasSuffix] and [strings.Contains]. *)
Fixpoint has_suffix (s p : string) : bool :=
  str_eqb s p || match s with EmptyString => false | String _ s' => has_suffix s' p end.
Fixpoint contains (s p : string) : bool :=
  has_prefix s p || match s with EmptyString => false | String _ s' => contains s' p end.

(** [strings.Fields]. *)
Definition flush (acc : string) : list string := if str_empty acc then [] else [String.rev acc].
Fixpoint fields_at (acc s : string) : list string :=
  match s with
  | EmptyString => flush acc
  | String a r =>
    if ascii_space a then flush acc ++ fields_at "" r
    else match r with
    | EmptyString => flush (String a acc)
    | String b r2 =>
      if space2 a b then flush acc ++ fields_at "" r2
      else match r2 with
      | EmptyString => fields_at (String a acc) r
      | String c r3 => if space3 a b c then flush acc ++ fields_at "" r3 else fields_at (String a acc) r
      end
    end
  end.
Definition Fields (s : string) : list string := fields_at "" s.

(** [strings.ReplaceAll] with a pattern that is not empty; the fuel is the length. *)
Fixpoint replace_from (fuel : nat) (old new s : string) : string :=
  match fuel with
  | O => s
  | S k =>
    match strip_prefix old s with
    | Some r => new +:+ replace_from k old new r
    | None => match s with EmptyString => EmptyString | String c r => String c (replace_from k old new r) end
    end
  end.
Definition ReplaceAll (s old new : string) : string := replace_from (String.length s) old new s.

(** The longest line [bufio.Scanner] delivers is one byte shorter. *)
Definition MaxScanTokenSize : Z := 65536.

(** ** UTF-8 *)
Definition between (lo hi : Z) (c : ascii) : bool := (lo <=? byte_of c) && (byte_of c <=? hi).
Definition cont (c : ascii) : bool := between 128 191 c.

(** [[]rune(s)], each rune by its encoding; a byte that starts no rune becomes
    U+FFFD. *)
Definition RuneError : string := String (chr 239) (String (chr 191) (str1 (chr 189))).
Fixpoint runes (s : string) : list string :=
  match s with
  | EmptyString => []
  | String a r =>
    if byte_of a <? 128 then str1 a :: runes r
    else match r with
    | EmptyString => [RuneError]
    | String b r2 =>
      if between 194 223 a && cont b then String a (str1 b) :: runes r2
      else match r2 with
      | EmptyString => RuneError :: runes r
      | String c r3 =>
        if between 224 239 a && (if byte_of a =? 224 then between 160 191 b else if byte_of a =? 237 then between 128 159 b else cont b) && cont c
        then String a (String b (str1 c)) :: runes r3
        else match r3 with
        | EmptyString => RuneError :: runes r
        | String d r4 =>
          if between 240 244 a && (if byte_of a =? 240 then between 144 191 b else if byte_of a =? 244 then between 128 143 b else cont b) && cont c && cont d
          then String a (String b (String c (str1 d))) :: runes r4
          else RuneError :: runes r
        end
      end
    end
  end.

(** ** Decimal numbers *)
Definition is_digit (c : ascii) : bool := (48 <=? byte_of c) && (byte_of c <=? 57).
Fixpoint all_chars (f : ascii → bool) (s : string) : bool :=
  match s with EmptyString => true | String c s' => f c && all_chars f s' end.
Definition alnum (c : ascii) : bool := is_digit c || ((65 <=? byte_of c) && (byte_of c <=? 90)) || ((97 <=? byte_of c) && (byte_of c <=? 122)).
Definition digit_val (c : ascii) : Z := byte_of c - 48.

(** The value of a digit string, [None] when a byte is not a digit. *)
Fixpoint digits_val (acc : Z) (s : string) : option Z :=
  match s with
  | EmptyString => Some acc
  | String c s' => if is_digit c then digits_val (acc * 10 + digit_val c) s' else None
  end.

Definition max_int64 : Z := 2 ^ 63 - 1.
Definition min_int64 : Z := - 2 ^ 63.
(** Wrap-around of an int64 result. *)
Definition wrap64 (z : Z) : Z := (z + 2 ^ 63) mod 2 ^ 64 - 2 ^ 63.

(** [strconv.Atoi]: an optional sign and at least one digit; out of range is an
    error. *)
Definition atoi (s : string) : option Z :=
  let body neg s :=
    match s with
    | EmptyString => None
    | _ => match digits_val 0 s with
           | None => None
           | Some v => let v := if (neg : bool) then - v else v in
                       if (min_int64 <=? v) && (v <=? max_int64) then Some v else None
           end
    end in
  match s with
  | String c s' =>
    if Ascii.eqb c "-"%char then body true s'
    else if Ascii.eqb c "+"%char then body false s' else body false s
  | EmptyString => None
  end.

(** [strconv.ParseUint(s, 10, bits)]. *)
Definition parse_uint (s : string) (bits : Z) : option Z :=
  match s with
  | EmptyString => None
  | _ => match digits_val 0 s with
         | None => None
         | Some v => if v <? 2 ^ bits then Some v else None
         end
  end.

(** Zero-padded decimal of width [w], as [%0wd] prints a value below [10^w]. *)
Definition digit_chr (d : Z) : ascii := chr (48 + d).
Fixpoint zpad (w : nat) (v : Z) : string :=
  match w with
  | O => EmptyString
  | S w' => zpad w' (v / 10) +:+ str1 (digit_chr (v mod 10))
  end.

(** ** Lemmas *)

Lemma slen_app s t : slen (s +:+ t) = slen s + slen t.
Proof. unfold slen. rewrite str_app_length. lia. Qed.

Lemma slen_nonneg s : 0 <= slen s.
Proof. unfold slen. lia. Qed.

Lemma str_take_nonpos n s : n <= 0 → str_take n s = "".
Proof. intros. unfold str_take. replace (Z.to_nat n) with 0%nat by lia. by destruct s. Qed.

Lemma substring_app n s t :
  String.substring 0 n (s +:+ t) = String.substring 0 n s +:+ String.substring 0 (n - String.length s) t.
Proof.
  revert n. induction s as [|c s IH]; intros [|n]; rewrite ?str_app_cons; cbn; [by destruct t..|by destruct t|].
  by rewrite IH.
Qed.

Lemma str_take_all n s : slen s <= n → str_take n s = s.
Proof.
  unfold str_take, slen. intros H. assert (String.length s ≤ Z.to_nat n)%nat as Hl by lia. clear H. revert Hl.
  generalize (Z.to_nat n). clear n. induction s as [|c s IH]; intros [|n]; cbn; intros; [done..|lia|]. f_equal. apply IH. lia.
Qed.

Lemma str_take_app n s t : 0 <= n → str_take n (s +:+ t) = str_take n s +:+ str_take (n - slen s) t.
Proof. intros. unfold str_take, slen. rewrite substring_app. do 2 f_equal. lia. Qed.

Lemma str_take_length n s : 0 <= n → slen (str_take n s) = Z.min n (slen s).
Proof.
  unfold str_take, slen. intros H. enough (String.length (String.substring 0 (Z.to_nat n) s) = Nat.min (Z.to_nat n) (String.length s)) by lia.
  generalize (Z.to_nat n). clear. induction s as [|c s IH]; intros [|n]; cbn; [done..|]. by rewrite IH.
Qed.

Lemma wrap64_id z : min_int64 <= z <= max_int64 → wrap64 z = z.
Proof. unfold wrap64, min_int64, max_int64. intros. rewrite Z.mod_small; lia. Qed.

Lemma byte_of_range c : 0 <= byte_of c < 256.
Proof.
  unfold byte_of. pose proof (N_ascii_bounded c). lia.
Qed.

Lemma byte_of_chr z : 0 <= z < 256 → byte_of (chr z) = z.
Proof. intros Hz. unfold byte_of, chr. rewrite N_ascii_embedding; lia. Qed.

Lemma chr_byte_of c : chr (byte_of c) = c.
Proof. unfold byte_of, chr. rewrite N2Z.id. apply ascii_N_embedding. Qed.

Lemma is_digit_chr d : 0 <= d < 10 → is_digit (digit_chr d) = true.
Proof. intros. unfold is_digit, digit_chr. rewrite byte_of_chr by lia. lia. Qed.

Lemma digit_val_chr d : 0 <= d < 10 → digit_val (digit_chr d) = d.
Proof. intros. unfold digit_val, digit_chr. rewrite byte_of_chr; lia. Qed.

Lemma digits_val_app acc s t :
  digits_val acc (s +:+ t) = match digits_val acc s with Some a => digits_val a t | None => None end.
Proof. revert acc. induction s as [|c s IH]; intros acc; [done|].
  rewrite str_app_cons. cbn. destruct (is_digit c); [apply IH|done]. Qed.

(** Reading back a zero-padded number. *)
Lemma digits_val_zpad w v acc :
  0 <= v < 10 ^ Z.of_nat w →
  digits_val acc (zpad w v) = Some (acc * 10 ^ Z.of_nat w + v).
Proof.
  revert v acc. induction w as [|w IH]; intros v acc Hv.
  - cbn in *. f_equal. lia.
  - rewrite Nat2Z.inj_succ, Z.pow_succ_r in * by lia.
    cbn [zpad]. rewrite digits_val_app, IH by (split; [apply Z.div_pos|apply Z.div_lt_upper_bound]; lia).
    pose proof (Z.mod_pos_bound v 10 ltac:(lia)) as Hm.
    cbn. rewrite is_digit_chr, digit_val_chr by lia. f_equal.
    rewrite (Z.div_mod v 10) at 3 by lia. ring.
Qed.

(** ** Splitting *)

Fixpoint free_of (sep : ascii) (s : string) : bool :=
  match s with EmptyString => true | String c rest => negb (Ascii.eqb c sep) && free_of sep rest end.

Lemma rev_app_rev (s t : string) : String.rev_app s t = String.rev s +:+ t.
Proof.
  unfold String.rev. revert t. induction s as [|a s IH]; intros t; cbn; [done|].
  rewrite IH, (IH (String a "")). by rewrite str_app_assoc.
Qed.

Lemma rev_cons c s : String.rev (String c s) = String.rev s +:+ str1 c.
Proof. unfold String.rev at 1. cbn. apply rev_app_rev. Qed.

Lemma split_at_free sep acc s rest :
  free_of sep s = true →
  split_at sep acc (s +:+ String sep rest) = (String.rev acc +:+ s) :: split_at sep EmptyString rest.
Proof.
  revert acc. induction s as [|c s IH]; intros acc H.
  - rewrite str_app_nil_l, str_app_nil_r. cbn. by rewrite Ascii.eqb_refl.
  - cbn in H. apply andb_true_iff in H as [Hc H]. apply negb_true_iff in Hc. rewrite str_app_cons. cbn. rewrite Hc, IH by done.
    f_equal. rewrite rev_cons, str_app_assoc. done.
Qed.

Lemma split_free sep s rest :
  free_of sep s = true → split (s +:+ String sep rest) sep = s :: split rest sep.
Proof. intros H. unfold split. by rewrite split_at_free. Qed.

Lemma split_at_last sep acc s : free_of sep s = true → split_at sep acc s = [String.rev acc +:+ s].
Proof.
  revert acc. induction s as [|c s IH]; intros acc H; cbn; [by rewrite str_app_nil_r|].
  cbn in H. apply andb_true_iff in H as [Hc H]. apply negb_true_iff in Hc. rewrite Hc, IH by done.
  by rewrite rev_cons, str_app_assoc.
Qed.

Lemma split_last sep s : free_of sep s = true → split s sep = [s].
Proof. intros H. unfold split. by rewrite split_at_last. Qed.

(** ** Reversal and trimming *)

Lemma rev_app (s t : string) : String.rev (s +:+ t) = String.rev t +:+ String.rev s.
Proof.
  induction s as [|c s IH]; [by rewrite str_app_nil_l, str_app_nil_r|].
  rewrite str_app_cons, !rev_cons, IH. by rewrite str_app_assoc.
Qed.

Lemma rev_involutive (s : string) : String.rev (String.rev s) = s.
Proof. induction s as [|c s IH]; [done|]. by rewrite rev_cons, rev_app, IH. Qed.

Lemma trim_front_suffix back n s : (String.length s ≤ n)%nat → ∃ p, s = p +:+ trim_front back s.
Proof.
  revert s. induction n as [|n IH]; intros s Hn; [destruct s; cbn in Hn; [by exists ""|lia]|].
  assert (∀ p r, (String.length r ≤ n)%nat → ∃ q, p +:+ r = q +:+ trim_front back r) as Hrec.
  { intros p r [q Hq]%IH. exists (p +:+ q). rewrite str_app_assoc. by rewrite <- Hq. }
  destruct s as [|c [|d [|e s]]]; cbn [trim_front String.length] in *.
  - by exists "".
  - destruct (ascii_space c); [by exists (str1 c)|by exists ""].
  - destruct (ascii_space c); [apply (Hrec (str1 c) (str1 d)); cbn; lia|].
    destruct (if back then _ else _); [by exists (String c (str1 d))|by exists ""].
  - destruct (ascii_space c); [apply (Hrec (str1 c) (String d (String e s))); cbn; lia|].
    destruct (if back then _ else _); [apply (Hrec (String c (str1 d)) (String e s)); cbn; lia|].
    destruct (if back then _ else _); [apply (Hrec (String c (String d (str1 e))) s); lia|by exists ""].
Qed.

Lemma trim_front_length back s : (String.length (trim_front back s) ≤ String.length s)%nat.
Proof. destruct (trim_front_suffix back _ s (le_n _)) as [p Hp]. rewrite Hp at 2. rewrite str_app_length. lia. Qed.

(** The string starts with a blank. *)
Definition starts_blank (back : bool) (s : string) : bool :=
  match s with
  | EmptyString => false
  | String c s1 => ascii_space c ||
    match s1 with
    | EmptyString => false
    | String d s2 => (if back then space2 d c else space2 c d) ||
      match s2 with EmptyString => false | String e _ => if back then space3 e d c else space3 c d e end
    end
  end.

Lemma trim_front_eq back s : trim_front back s =
  match s with
  | EmptyString => EmptyString
  | String c s1 =>
    if ascii_space c then trim_front back s1 else
    match s1 with
    | EmptyString => s
    | String d s2 =>
      if (if back then space2 d c else space2 c d) then trim_front back s2 else
      match s2 with
      | EmptyString => s
      | String e s3 => if (if back then space3 e d c else space3 c d e) then trim_front back s3 else s
      end
    end
  end.
Proof. by destruct s. Qed.

Lemma trim_front_fixed back s : trim_front back s = s ↔ starts_blank back s = false.
Proof.
  assert (∀ r, (String.length r < String.length s)%nat → trim_front back r ≠ s) as Hlen.
  { intros r Hr E. pose proof (trim_front_length back r). rewrite E in *. lia. }
  rewrite trim_front_eq. destruct s as [|c s1]; [done|]. cbn [starts_blank].
  destruct (ascii_space c); cbn [orb]; [split; [|done]; intros []%Hlen; cbn; lia|].
  destruct s1 as [|d s2]; [done|].
  destruct (if back then space2 d c else space2 c d); cbn [orb]; [split; [|done]; intros []%Hlen; cbn; lia|].
  destruct s2 as [|e s3]; [done|].
  destruct (if back then _ else _); [split; [|done]; intros []%Hlen; cbn; lia|done].
Qed.

(** A string without leading blanks, and all its prefixes. *)
Lemma trim_front_prefix back s t : trim_front back (s +:+ t) = s +:+ t → trim_front back s = s.
Proof.
  rewrite !trim_front_fixed. destruct s as [|c s1]; [done|]. rewrite str_app_cons. cbn [starts_blank].
  destruct (ascii_space c); [done|]. destruct s1 as [|d s2]; [done|]. rewrite str_app_cons. cbn [orb].
  destruct (if back then space2 d c else space2 c d); [done|]. by destruct s2.
Qed.

Lemma trim_front_idem_n back n s : (String.length s ≤ n)%nat → trim_front back (trim_front back s) = trim_front back s.
Proof.
  revert s. induction n as [|n IH]; intros s Hn; [destruct s; cbn in Hn; [done|lia]|].
  destruct s as [|c s1]; [done|]. cbn [String.length] in Hn. cbn [trim_front].
  destruct (ascii_space c) eqn:E1; [apply IH; lia|].
  destruct s1 as [|d s2]; [cbn [trim_front]; by rewrite E1|]. cbn [String.length] in Hn.
  destruct (if back then space2 d c else space2 c d) eqn:E2; [apply IH; lia|].
  destruct s2 as [|e s3]; [cbn [trim_front]; by rewrite E1, E2|]. cbn [String.length] in Hn.
  destruct (if back then space3 e d c else space3 c d e) eqn:E3; [apply IH; lia|].
  cbn [trim_front]. by rewrite E1, E2, E3.
Qed.

Lemma trim_front_idem back s : trim_front back (trim_front back s) = trim_front back s.
Proof. by eapply trim_front_idem_n. Qed.

Lemma trim_space_idem s : trim_space (trim_space s) = trim_space s.
Proof.
  unfold trim_space. set (t := trim_front false s).
  assert (trim_front false (String.rev (trim_front true (String.rev t))) = String.rev (trim_front true (String.rev t))) as ->.
  { destruct (trim_front_suffix true _ (String.rev t) (le_n _)) as [p Hp].
    apply (trim_front_prefix _ _ (String.rev p)). rewrite <- rev_app, <- Hp, rev_involutive. apply trim_front_idem. }
  by rewrite rev_involutive, trim_front_idem.
Qed.

Lemma free_of_app c s t : free_of c (s +:+ t) = free_of c s && free_of c t.
Proof. induction s as [|d s IH]; [done|]. rewrite str_app_cons. cbn. by rewrite IH, andb_assoc. Qed.

Lemma free_of_rev c s : free_of c (String.rev s) = free_of c s.
Proof.
  induction s as [|d s IH]; [done|]. rewrite rev_cons, free_of_app, IH. cbn. rewrite andb_true_r. apply andb_comm.
Qed.

(** Trimming adds no byte. *)
Lemma free_of_trim c s : free_of c s = true → free_of c (trim_space s) = true.
Proof.
  intros H. unfold trim_space. rewrite free_of_rev.
  destruct (trim_front_suffix true _ (String.rev (trim_front false s)) (le_n _)) as [p Hp].
  destruct (trim_front_suffix false _ s (le_n _)) as [q Hq].
  rewrite Hq, free_of_app in H. apply andb_true_iff in H as [_ H].
  rewrite <- free_of_rev, Hp, free_of_app in H. by apply andb_true_iff in H as [_ H].
Qed.
