(* ===== verification/Effects.v ===== *)
(** * Effectful operations

    An operation that changes a world [W] and may report an error of type [E]:
    state passing with the world kept on the error path, as a Go method that
    returns early keeps what it did before.  The files of the maintenance
    components share it. *)

From stdpp Require Import tactics.
From S2P Require Import Prelude.

Definition eff (W E A : Type) : Type := W → res E A * W.

Section eff.
Context {W E : Type}.

Definition returns {A} (a : A) : eff W E A := λ w, (Ok a, w).
Definition throws {A} (e : E) : eff W E A := λ w, (Err e, w).
Definition andThen {A B} (c : eff W E A) (k : A → eff W E B) : eff W E B :=
  λ w, match c w with (Ok a, w) => k a w | (Err e, w) => (Err e, w) end.
Definition liftRes {A} (r : res E A) : eff W E A := λ w, (r, w).
(** The result as a value: [x, err := f()] without an early return. *)
Definition attempts {A} (c : eff W E A) : eff W E (res E A) := λ w, let '(r, w) := c w in (Ok r, w).

Lemma andThen_inv {A B} (c : eff W E A) (k : A → eff W E B) w r w' : andThen c k w = (r, w') →
  (∃ e, c w = (Err e, w') ∧ r = Err e) ∨ (∃ a w1, c w = (Ok a, w1) ∧ k a w1 = (r, w')).
Proof using. unfold andThen. destruct (c w) as [[a|e] w1]; intros H; [right; eauto|left]. injection H as <- <-. eauto. Qed.

(** [c] makes [R] hold between the world before and the one after, for a
    reflexive and transitive [R]. *)
Definition keeps {A} (R : W → W → Prop) (c : eff W E A) : Prop := ∀ w r w', c w = (r, w') → R w w'.

Lemma keeps_returns {A} (R : W → W → Prop) `{!Reflexive R} (a : A) : keeps R (returns a).
Proof using. intros w r w' [= _ <-]. reflexivity. Qed.
Lemma keeps_throws {A} (R : W → W → Prop) `{!Reflexive R} (e : E) : keeps R (@throws A e).
Proof using. intros w r w' [= _ <-]. reflexivity. Qed.
Lemma keeps_liftRes {A} (R : W → W → Prop) `{!Reflexive R} (x : res E A) : keeps R (liftRes x).
Proof using. intros w r w' [= _ <-]. reflexivity. Qed.
Lemma keeps_andThen {A B} (R : W → W → Prop) `{!Transitive R} (c : eff W E A) (k : A → eff W E B) :
  keeps R c → (∀ a, keeps R (k a)) → keeps R (andThen c k).
Proof using.
  intros Hc Hk w r w' H. apply andThen_inv in H as [(e & H & _)|(a & w1 & H1 & H2)]; [by eapply Hc|].
  etransitivity; [by eapply Hc|by eapply Hk].
Qed.
Lemma keeps_attempts {A} (R : W → W → Prop) (c : eff W E A) : keeps R c → keeps R (attempts c).
Proof using. intros Hc w r w'. unfold attempts. destruct (c w) as [x w1] eqn:Ec. intros [= _ <-]. by eapply Hc. Qed.
End eff.

Notation "'do!' x := c 'in' k" := (andThen c (λ x, k)) (at level 10, x pattern, c at level 200, k at level 200) : go_scope.

Create HintDb effects.
#[export] Hint Resolve keeps_returns keeps_throws keeps_liftRes keeps_andThen keeps_attempts : effects.
