(* ===== verification/GoPath.v ===== *)
(** * Paths: [path/filepath.Clean], [Dir] and [Base] on Unix, and [strings.Join]

    These model the Go standard library, so they have no entry in the source map. *)

From stdpp Require Import gmap strings list.
From Stdlib Require Import Ascii ZArith.
From S2P Require Import Prelude GoStrings.

Fixpoint join (sep : string) (l : list string) : string :=
  match l with [] => "" | [s] => s | s :: l' => s +:+ sep +:+ join sep l' end.

(** The components so far, last first: [..] takes the last one back, and is kept
    only in front of a relative path. *)
Fixpoint clean_parts (rooted : bool) (acc : list string) (parts : list string) : list string :=
  match parts with
  | [] => rev acc
  | p :: rest =>
    if str_in p [""; "."] then clean_parts rooted acc rest
    else if str_eqb p ".." then
      match acc with
      | q :: acc' => if str_eqb q ".." then clean_parts rooted (p :: acc) rest else clean_parts rooted acc' rest
      | [] => if rooted then clean_parts rooted [] rest else clean_parts rooted [p] rest
      end
    else clean_parts rooted (p :: acc) rest
  end.

Definition is_abs (p : string) : bool := has_prefix p "/".
Definition path_parts (p : string) : list string := clean_parts (is_abs p) [] (split p "/").

Definition Clean (p : string) : string :=
  if is_abs p then "/" +:+ join "/" (path_parts p)
  else match path_parts p with [] => "." | parts => join "/" parts end.

Fixpoint after_slash (s : string) : string :=
  match s with EmptyString => "" | String c r => if Ascii.eqb c "/" then s else after_slash r end.
Fixpoint until_slash (s : string) : string :=
  match s with EmptyString => "" | String c r => if Ascii.eqb c "/" then "" else String c (until_slash r) end.
Fixpoint trim_slashes (s : string) : string :=
  match s with String c r => if Ascii.eqb c "/" then trim_slashes r else s | EmptyString => "" end.

Definition Dir (p : string) : string := Clean (String.rev (after_slash (String.rev p))).
Definition Base (p : string) : string :=
  if str_empty p then "."
  else let b := String.rev (until_slash (trim_slashes (String.rev p))) in if str_empty b then "/" else b.

(** ** Lemmas *)

Definition component (s : string) : Prop := s ≠ "" ∧ free_of "/" s = true.

Lemma split_at_parts sep acc s : free_of sep acc = true → Forall (λ p, free_of sep p = true) (split_at sep acc s).
Proof.
  revert acc. induction s as [|c s IH]; intros acc Ha; cbn.
  - constructor; [by rewrite free_of_rev|constructor].
  - destruct (Ascii.eqb c sep) eqn:E; [constructor; [by rewrite free_of_rev|by apply IH]|]. apply IH. cbn. by rewrite E, Ha.
Qed.

Lemma clean_parts_components rooted acc parts : Forall component acc → Forall (λ p, free_of "/" p = true) parts →
  Forall component (clean_parts rooted acc parts).
Proof.
  revert acc. induction parts as [|p parts IH]; intros acc Ha Hp; cbn; [by apply Forall_rev|].
  apply Forall_cons in Hp as [Hf Hp]. destruct (str_in p [""; "."]) eqn:E; [by apply IH|].
  assert (component p) as Hc. { split; [|done]. intros ->. by apply bool_decide_eq_false in E; apply E; left. }
  assert (Forall component (p :: acc)) as Hpa by by constructor.
  destruct (str_eqb p ".."); [|by apply IH]. destruct acc as [|q acc']; [destruct rooted; by apply IH|].
  destruct (str_eqb q ".."); [by apply IH|]. apply Forall_cons in Ha as [_ Ha]. by apply IH.
Qed.

Lemma path_parts_components p : Forall component (path_parts p).
Proof. unfold path_parts. apply clean_parts_components; [constructor|]. by apply split_at_parts. Qed.

(** A clean absolute path never points upwards. *)
Lemma clean_parts_down acc parts : Forall (λ p, p ≠ "..") acc → Forall (λ p, p ≠ "..") (clean_parts true acc parts).
Proof.
  revert acc. induction parts as [|p parts IH]; intros acc Ha; cbn; [by apply Forall_rev|].
  destruct (str_in p [""; "."]); [by apply IH|]. destruct (str_eqb p "..") eqn:E.
  - destruct acc as [|q acc]; [by apply IH|]. apply Forall_cons in Ha as [Hq Ha]. unfold str_eqb. rewrite (bool_decide_false _ Hq). by apply IH.
  - apply IH. constructor; [|done]. unfold str_eqb in E. by apply bool_decide_eq_false in E.
Qed.

Lemma split_at_app sep acc s t : split_at sep acc (s +:+ String sep t) = split_at sep acc s ++ split t sep.
Proof.
  revert acc. induction s as [|c s IH]; intros acc.
  - rewrite str_app_nil_l. cbn. by rewrite Ascii.eqb_refl.
  - rewrite str_app_cons. cbn. destruct (Ascii.eqb c sep); [cbn; by rewrite IH|apply IH].
Qed.

Lemma split_app sep s t : split (s +:+ String sep t) sep = split s sep ++ split t sep.
Proof. apply split_at_app. Qed.

Lemma split_join l : l ≠ [] → Forall component l → split (join "/" l) "/" = l.
Proof.
  induction l as [|p l IH]; [done|]. intros _ [[_ Hp] Hl]%Forall_cons. destruct l as [|q l]; [by apply split_last|].
  transitivity (split (p +:+ String "/" (join "/" (q :: l))) "/"); [done|]. rewrite split_free by done. f_equal. by apply IH.
Qed.

Lemma join_app l1 l2 : l1 ≠ [] → l2 ≠ [] → join "/" (l1 ++ l2) = join "/" l1 +:+ "/" +:+ join "/" l2.
Proof.
  intros H1 H2. induction l1 as [|p l1 IH]; [done|]. destruct l1 as [|q l1]; [by destruct l2|].
  cbn [app join] in *. rewrite IH by done. by rewrite !str_app_assoc.
Qed.

Lemma strip_prefix_app p s r : strip_prefix p s = Some r ↔ s = p +:+ r.
Proof.
  revert s. induction p as [|a p IH]; intros s; [rewrite str_app_nil_l; cbn; split; [by intros [= ->]|by intros ->]|].
  rewrite str_app_cons. destruct s as [|b s]; cbn; [done|]. destruct (Ascii.eqb_spec a b) as [->|Hne].
  - rewrite IH. split; [by intros ->|by intros [= ->]].
  - split; [done|]. intros [= E _]. congruence.
Qed.

Lemma has_prefix_iff s p : has_prefix s p = true ↔ ∃ r, s = p +:+ r.
Proof.
  unfold has_prefix. destruct (strip_prefix p s) as [r|] eqn:E.
  - split; [|done]. intros _. exists r. by apply strip_prefix_app.
  - split; [done|]. intros [r Hr]. apply strip_prefix_app in Hr. congruence.
Qed.

(** A path is below another one exactly when its components start with the other's. *)
Lemma below_iff l1 l2 : l1 ≠ [] → l2 ≠ [] → Forall component l1 → Forall component l2 →
  (join "/" l1 = join "/" l2 ∨ has_prefix (join "/" l1) (join "/" l2 +:+ "/") = true) ↔ l2 `prefix_of` l1.
Proof.
  intros N1 N2 C1 C2. rewrite has_prefix_iff. split.
  - intros [E|[r E]].
    + rewrite <- (split_join l1), <- (split_join l2) by done. by rewrite E.
    + exists (split r "/"). rewrite <- (split_join l1), <- (split_join l2) at 1 by done. rewrite E, str_app_assoc. apply split_app.
  - intros [k ->]. destruct k as [|p k]; [left; by rewrite app_nil_r|right]. exists (join "/" (p :: k)).
    rewrite join_app by done. by rewrite str_app_assoc.
Qed.
