(* ===== verification/GoTime.v ===== *)
(** * Go times, calendars and time zones

    The parts of package [time] the modelled code uses.  An instant is a number
    of nanoseconds since 1970-01-01T00:00:00Z.  The file models the proleptic
    Gregorian calendar, [Weekday], [ISOWeek], zone lookup and [time.Date] in a
    zone, [AddDate(0, 0, n)], and printing and parsing in the layout
    [time.RFC3339Nano], which is how every timestamp is stored.  These model the
    Go standard library, so they have no entry in the source map. *)

From stdpp Require Import gmap strings list.
From Stdlib Require Import Ascii ZArith.
From S2P Require Import Prelude GoStrings.

Local Open Scope Z_scope.

Definition Time := Z.
Definition Duration := Z.

Definition Nanosecond : Z := 1.
Definition Second : Z := 1000000000.
Definition Minute : Z := 60 * Second.
Definition Hour : Z := 60 * Minute.
Definition Day : Z := 24 * Hour.

(** [time.Time{}]: January 1, year 1, UTC. *)
Definition zero_time : Time := -62135596800 * Second.
Definition is_zero (t : Time) : bool := t =? zero_time.
Definition after (t u : Time) : bool := u <? t.
Definition before (t u : Time) : bool := t <? u.
(** [t.Sub(u)], which saturates, and [Duration.Milliseconds]. *)
Definition Sub (t u : Time) : Duration := Z.max min_int64 (Z.min max_int64 (t - u)).
Definition Milliseconds (d : Duration) : Z := Z.quot d 1000000.
Definition unix (t : Time) : Z := t / Second.

(** ** The calendar: a day number and its year, month and day *)

Definition leap (y : Z) : bool :=
  (y mod 4 =? 0) && (negb (y mod 100 =? 0) || (y mod 400 =? 0)).

Definition days_of_year (y : Z) : Z := if leap y then 366 else 365.

(** Days from January 1 of year 1 to January 1 of year [y]. *)
Definition days_before_year (y : Z) : Z :=
  365 * (y - 1) + (y - 1) / 4 - (y - 1) / 100 + (y - 1) / 400.

(** Day number of 1970-01-01 counted from January 1 of year 1. *)
Definition epoch_day : Z := 719162.

Definition month_lengths (lp : bool) : list Z :=
  [31; if lp then 29 else 28; 31; 30; 31; 30; 31; 31; 30; 31; 30; 31].

Fixpoint days_before_month_in (lens : list Z) (m : Z) : Z :=
  match lens with
  | [] => 0
  | n :: rest => if m <=? 1 then 0 else n + days_before_month_in rest (m - 1)
  end.
Definition days_before_month (lp : bool) (m : Z) : Z := days_before_month_in (month_lengths lp) m.

Definition days_in_month (lp : bool) (m : Z) : Z := nth (Z.to_nat (m - 1)) (month_lengths lp) 0.

(** The day number (from the Unix epoch) of a calendar date; the day may be out
    of the month's range, as in [time.Date]. *)
Definition days_from_civil (y m d : Z) : Z :=
  days_before_year y + days_before_month (leap y) m + (d - 1) - epoch_day.

(** The year and the day of the year (from 0) of a day number: the cycles of
    400, 100, 4 and 1 years are split off one after the other. *)
Definition year_yday (days : Z) : Z * Z :=
  let a := days + epoch_day in
  let n400 := a / 146097 in
  let d400 := a mod 146097 in
  let q100 := d400 / 36524 in
  let n100 := q100 - q100 / 4 in
  let d100 := d400 - 36524 * n100 in
  let n4 := d100 / 1461 in
  let d4 := d100 mod 1461 in
  let q1 := d4 / 365 in
  let n1 := q1 - q1 / 4 in
  (400 * n400 + 100 * n100 + 4 * n4 + n1 + 1, d4 - 365 * n1).

Fixpoint month_day_in (lens : list Z) (m yday : Z) : Z * Z :=
  match lens with
  | [] => (m, yday + 1)
  | n :: rest => if yday <? n then (m, yday + 1) else month_day_in rest (m + 1) (yday - n)
  end.
Definition month_day (lp : bool) (yday : Z) : Z * Z := month_day_in (month_lengths lp) 1 yday.

Definition civil (days : Z) : Z * Z * Z :=
  let '(y, yd) := year_yday days in
  let '(m, d) := month_day (leap y) yd in (y, m, d).

(** [Weekday], Sunday is 0. *)
Definition weekday_of (days : Z) : Z := (days + 4) mod 7.

(** [ISOWeek]: the year and week of the Thursday of the same week. *)
Definition iso_week (days : Z) : Z * Z :=
  let thursday := days + 3 - (days + 3) mod 7 in
  let '(y, yd) := year_yday thursday in (y, yd / 7 + 1).

(** The UTC day of an instant. *)
Definition utc_day (t : Time) : Z := t / Day.

(** ** Zones *)

(** A zone is its offset before the first transition and the list of
    transitions (instant in Unix seconds, offset in seconds east of UTC), in
    increasing order. *)
Record Location := mkLocation { loc_first : Z; loc_tx : list (Z * Z) }.

Definition UTC : Location := mkLocation 0 [].

(** [Location.lookup]: the offset in use and the interval it is in use for. *)
Fixpoint lookup_from (off start : Z) (tx : list (Z * Z)) (sec : Z) : Z * Z * Z :=
  match tx with
  | [] => (off, start, max_int64)
  | (w, o) :: rest => if sec <? w then (off, start, w) else lookup_from o w rest sec
  end.
Definition lookup (l : Location) (sec : Z) : Z * Z * Z :=
  lookup_from (loc_first l) min_int64 (loc_tx l) sec.
Definition offset_at (l : Location) (sec : Z) : Z := fst (fst (lookup l sec)).

(** [time.Date] for a day number and a time of day in nanoseconds: guess the
    offset from the wall clock read as UTC and look again when the guess is not
    in use at the resulting instant. *)
Definition date (l : Location) (day tod : Z) : Time :=
  let wall := day * 86400 + tod / Second in
  let '(off, start, stop) := lookup l wall in
  let off :=
    if off =? 0 then 0 else
      let utc := wall - off in
      if (utc <? start) || (stop <=? utc) then offset_at l utc else off in
  (wall - off) * Second + tod mod Second.

(** The wall clock of an instant: day number and nanoseconds of the day. *)
Definition wall_of (l : Location) (t : Time) : Time := t + offset_at l (unix t) * Second.
Definition local_day (l : Location) (t : Time) : Z := wall_of l t / Day.
Definition local_tod (l : Location) (t : Time) : Z := wall_of l t mod Day.

(** [t.AddDate(0, 0, n)]. *)
Definition add_days (l : Location) (t : Time) (n : Z) : Time :=
  date l (local_day l t + n) (local_tod l t).

Definition time_of_day (hour minute : Z) : Z := hour * Hour + minute * Minute.

(** ** [time.RFC3339Nano] *)

Fixpoint strip_zeros (s : string) : string :=
  match s with
  | EmptyString => EmptyString
  | String c s' =>
    let r := strip_zeros s' in
    match r with
    | EmptyString => if Ascii.eqb c "0"%char then EmptyString else String c EmptyString
    | _ => String c r
    end
  end.

Definition fmt_date (days : Z) : string :=
  let '(y, m, d) := civil days in zpad 4 y +:+ "-" +:+ zpad 2 m +:+ "-" +:+ zpad 2 d.

Definition fmt_clock (sod : Z) : string :=
  zpad 2 (sod / 3600) +:+ ":" +:+ zpad 2 (sod / 60 mod 60) +:+ ":" +:+ zpad 2 (sod mod 60).

Definition fmt_frac (ns : Z) : string :=
  match strip_zeros (zpad 9 ns) with
  | EmptyString => EmptyString
  | f => "." +:+ f
  end.

(** [t.UTC().Format(time.RFC3339Nano)], for years 0 to 9999. *)
Definition rfc3339nano (t : Time) : string :=
  let sec := unix t in
  fmt_date (sec / 86400) +:+ "T" +:+ fmt_clock (sec mod 86400) +:+ fmt_frac (t mod Second) +:+ "Z".

(** The instants whose year has four digits. *)
Definition rfc_range (t : Time) : Prop := 0 <= (year_yday (utc_day t)).1 <= 9999.

(** [time.Parse(time.RFC3339Nano, s)]. *)
Fixpoint take_num (n : nat) (acc : Z) (s : string) : option (Z * string) :=
  match n with
  | O => Some (acc, s)
  | S n' => match s with
            | String c s' => if is_digit c then take_num n' (acc * 10 + digit_val c) s' else None
            | EmptyString => None
            end
  end.

(** [getnum] without fixed width: one or two digits. *)
Definition take_num12 (s : string) : option (Z * string) :=
  match take_num 2 0 s with Some r => Some r | None => take_num 1 0 s end.

Definition take_byte (c : ascii) (s : string) : option string :=
  match s with
  | String c' s' => if Ascii.eqb c c' then Some s' else None
  | EmptyString => None
  end.

Fixpoint span_digits (s : string) : string * string :=
  match s with
  | String c s' => if is_digit c then let '(a, b) := span_digits s' in (String c a, b) else (EmptyString, s)
  | EmptyString => (EmptyString, EmptyString)
  end.

(** The optional fraction; digits after the ninth are ignored. *)
Definition take_frac (s : string) : Z * string :=
  match s with
  | String c s' =>
    if Ascii.eqb c "."%char || Ascii.eqb c ","%char then
      let '(ds, rest) := span_digits s' in
      match ds with
      | EmptyString => (0, s)
      | _ => let kept := String.substring 0 9 ds in
             match digits_val 0 kept with
             | Some v => (v * 10 ^ (9 - Z.of_nat (String.length kept)), rest)
             | None => (0, s)
             end
      end
    else (0, s)
  | EmptyString => (0, s)
  end.

(** [Z] or a numeric offset, then the end of the text. *)
Definition parse_zone (s : string) : option Z :=
  match s with
  | String c s' =>
    if Ascii.eqb c "Z"%char then (if str_empty s' then Some 0 else None)
    else if Ascii.eqb c "+"%char || Ascii.eqb c "-"%char then
      match take_num 2 0 s' with
      | Some (h, s1) =>
        match take_byte ":"%char s1 with
        | Some s2 =>
          match take_num 2 0 s2 with
          | Some (m, s3) =>
            if str_empty s3 && (h <=? 24) && (m <=? 60) then
              let off := h * 3600 + m * 60 in
              Some (if Ascii.eqb c "-"%char then - off else off)
            else None
          | None => None
          end
        | None => None
        end
      | None => None
      end
    else None
  | EmptyString => None
  end.

Definition parse_date (s : string) : option (Z * string) :=
  match take_num 4 0 s with
  | Some (y, s) =>
    match take_byte "-"%char s with
    | Some s =>
      match take_num 2 0 s with
      | Some (m, s) =>
        match take_byte "-"%char s with
        | Some s =>
          match take_num 2 0 s with
          | Some (d, s) =>
            if (1 <=? m) && (m <=? 12) && (1 <=? d) && (d <=? days_in_month (leap y) m)
            then Some (days_from_civil y m d, s) else None
          | None => None
          end
        | None => None
        end
      | None => None
      end
    | None => None
    end
  | None => None
  end.

Definition parse_clock (s : string) : option (Z * string) :=
  match take_num12 s with
  | Some (h, s) =>
    match take_byte ":"%char s with
    | Some s =>
      match take_num 2 0 s with
      | Some (mi, s) =>
        match take_byte ":"%char s with
        | Some s =>
          match take_num 2 0 s with
          | Some (sec, s) =>
            if (h <=? 23) && (mi <=? 59) && (sec <=? 59)
            then Some (h * 3600 + mi * 60 + sec, s) else None
          | None => None
          end
        | None => None
        end
      | None => None
      end
    | None => None
    end
  | None => None
  end.

Definition parse_rfc3339nano (s : string) : option Time :=
  match parse_date s with
  | Some (days, s) =>
    match take_byte "T"%char s with
    | Some s =>
      match parse_clock s with
      | Some (sod, s) =>
        let '(ns, s) := take_frac s in
        match parse_zone s with
        | Some off => Some ((days * 86400 + sod - off) * Second + ns)
        | None => None
        end
      | None => None
      end
    | None => None
    end
  | None => None
  end.

(** [time.Parse("15:04", s)]: hour and minute. *)
Definition parse_hhmm (s : string) : option (Z * Z) :=
  match take_num12 s with
  | Some (h, s1) =>
    if 24 <=? h then None else
    match take_byte ":"%char s1 with
    | Some s2 =>
      match take_num 2 0 s2 with
      | Some (m, s3) => if (60 <=? m) || negb (str_empty s3) then None else Some (h, m)
      | None => None
      end
    | None => None
    end
  | None => None
  end.

(** [ORDER BY] and the comparisons on a timestamp column compare the texts. *)
Definition text_lt (t u : Time) : bool := str_ltb (rfc3339nano t) (rfc3339nano u).

(** ** Calendar lemmas *)

Lemma leap_spec y :
  leap y = true ↔ y mod 4 = 0 ∧ (y mod 100 ≠ 0 ∨ y mod 400 = 0).
Proof.
  unfold leap. rewrite andb_true_iff, orb_true_iff, negb_true_iff, !Z.eqb_eq, Z.eqb_neq. tauto.
Qed.

(** The cycles that make up a day number, and the year they give. *)
Lemma year_yday_cycles days :
  ∃ n400 n100 n4 n1 yd,
    year_yday days = (400 * n400 + 100 * n100 + 4 * n4 + n1 + 1, yd) ∧
    days + epoch_day = 146097 * n400 + 36524 * n100 + 1461 * n4 + 365 * n1 + yd ∧
    0 <= n100 <= 3 ∧ 0 <= n4 <= 24 ∧ 0 <= n1 <= 3 ∧ 0 <= yd <= 365 ∧
    (yd = 365 → n1 = 3 ∧ (n4 = 24 → n100 = 3)).
Proof.
  unfold year_yday. set (a := days + epoch_day). do 5 eexists. split; [reflexivity|].
  pose proof (Z.div_mod a 146097 ltac:(lia)). pose proof (Z.mod_pos_bound a 146097 ltac:(lia)).
  set (d400 := a mod 146097) in *. set (q100 := d400 / 36524).
  assert (0 <= q100 <= 4) by (subst q100; split; [apply Z.div_pos; lia|]; lia).
  set (n100 := q100 - q100 / 4). set (d100 := d400 - 36524 * n100).
  assert (0 <= n100 <= 3 ∧ 0 <= d100 <= 36524 ∧ (d100 = 36524 → n100 = 3)) as (? & ? & ?) by (subst d100 n100 q100; lia).
  set (d4 := d100 mod 1461). set (n4 := d100 / 1461).
  assert (0 <= n4 <= 24 ∧ 0 <= d4 <= 1460 ∧ d100 = 1461 * n4 + d4) as (? & ? & ?) by (subst d4 n4; lia).
  set (q1 := d4 / 365). set (n1 := q1 - q1 / 4).
  assert (0 <= n1 <= 3 ∧ 0 <= d4 - 365 * n1 <= 365 ∧ (d4 - 365 * n1 = 365 → n1 = 3)) as (? & ? & ?)
    by (subst n1 q1; lia).
  lia.
Qed.

Lemma leap_cycles n400 n100 n4 n1 :
  0 <= n100 <= 3 → 0 <= n4 <= 24 → 0 <= n1 <= 3 →
  leap (400 * n400 + 100 * n100 + 4 * n4 + n1 + 1) = true ↔ n1 = 3 ∧ (n4 = 24 → n100 = 3).
Proof. intros. rewrite leap_spec. lia. Qed.

Lemma days_before_year_cycles n400 n100 n4 n1 :
  0 <= n100 <= 3 → 0 <= n4 <= 24 → 0 <= n1 <= 3 →
  days_before_year (400 * n400 + 100 * n100 + 4 * n4 + n1 + 1)
  = 146097 * n400 + 36524 * n100 + 1461 * n4 + 365 * n1.
Proof. intros. unfold days_before_year. lia. Qed.

Lemma year_yday_spec days y yd :
  year_yday days = (y, yd) →
  days = days_before_year y + yd - epoch_day ∧ 0 <= yd < days_of_year y.
Proof.
  intros H. destruct (year_yday_cycles days) as (a & b & c & d & e & E & Hs & ? & ? & ? & ? & Hl).
  rewrite E in H. injection H as <- <-.
  rewrite days_before_year_cycles by done. split; [lia|].
  unfold days_of_year. destruct (leap _) eqn:L; [lia|].
  split; [lia|]. assert (e ≠ 365); [|lia]. intros He.
  apply not_true_iff_false in L. apply L. apply leap_cycles; auto.
Qed.

Lemma days_before_year_step y : days_before_year (y + 1) = days_before_year y + days_of_year y.
Proof.
  unfold days_of_year. destruct (leap y) eqn:L.
  - apply leap_spec in L. unfold days_before_year. lia.
  - assert (~ (y mod 4 = 0 ∧ (y mod 100 ≠ 0 ∨ y mod 400 = 0))).
    { rewrite <- leap_spec. by rewrite L. }
    unfold days_before_year. lia.
Qed.

Lemma days_before_year_mono y z : y <= z → days_before_year y + 365 * (z - y) <= days_before_year z.
Proof. intros. unfold days_before_year. lia. Qed.

Lemma days_of_year_bound y : 365 <= days_of_year y <= 366.
Proof. unfold days_of_year. by destruct (leap y). Qed.

(** A year and a day of that year determine the day number back. *)
Lemma year_yday_unique days y yd :
  days = days_before_year y + yd - epoch_day → 0 <= yd < days_of_year y →
  year_yday days = (y, yd).
Proof.
  intros H Hyd. destruct (year_yday days) as [y' yd'] eqn:E.
  destruct (year_yday_spec _ _ _ E) as [H' Hyd'].
  assert (y = y'); [|by subst; f_equal; lia].
  pose proof (days_before_year_step y). pose proof (days_before_year_step y').
  destruct (Z.lt_trichotomy y y') as [Hl|[?|Hl]]; [|done|]; exfalso.
  - pose proof (days_before_year_mono (y + 1) y' ltac:(lia)). lia.
  - pose proof (days_before_year_mono (y' + 1) y ltac:(lia)). lia.
Qed.

(** Later days have later years, or a later day of the same year. *)
Lemma year_yday_mono d1 d2 y1 yd1 y2 yd2 :
  d1 < d2 → year_yday d1 = (y1, yd1) → year_yday d2 = (y2, yd2) →
  y1 < y2 ∨ (y1 = y2 ∧ yd1 < yd2).
Proof.
  intros Hlt [H1 ?]%year_yday_spec [H2 ?]%year_yday_spec.
  destruct (Z.lt_trichotomy y1 y2) as [Hl|[->|Hl]]; [by left|right; lia|].
  pose proof (days_before_year_step y2).
  pose proof (days_before_year_mono (y2 + 1) y1 ltac:(lia)). lia.
Qed.

(** The twelve months of the two kinds of year, checked day by day. *)
Definition month_ok (lp : bool) (yd : Z) : bool :=
  let '(m, d) := month_day lp yd in
  (1 <=? m) && (m <=? 12) && (1 <=? d) && (d <=? days_in_month lp m) && (d <=? 31) &&
  (days_before_month lp m + (d - 1) =? yd).
Definition month_step_ok (lp : bool) (yd : Z) : bool :=
  let '(m, d) := month_day lp yd in let '(m', d') := month_day lp (yd + 1) in
  (m <? m') || ((m =? m') && (d <? d')).
Definition year_days (lp : bool) : list Z := Z.of_nat <$> seq 0 (if lp then 366 else 365).

Lemma month_table (lp : bool) :
  forallb (λ yd, month_ok lp yd && ((yd =? (if lp then 365 else 364)) || month_step_ok lp yd)) (year_days lp) = true.
Proof. by destruct lp; vm_compute. Qed.

Lemma month_table_at (lp : bool) yd : 0 <= yd < (if lp then 366 else 365) →
  month_ok lp yd = true ∧ (yd = (if lp then 365 else 364) ∨ month_step_ok lp yd = true).
Proof.
  intros H. pose proof (month_table lp) as T. rewrite forallb_forall in T.
  assert (In yd (year_days lp)) as Hin.
  { apply in_map_iff. exists (Z.to_nat yd). split; [lia|]. apply in_seq. destruct lp; lia. }
  apply T in Hin. apply andb_true_iff in Hin as [? Ho]. split; [done|].
  apply orb_true_iff in Ho as [?%Z.eqb_eq|?]; auto.
Qed.

Lemma civil_spec days y m d :
  civil days = (y, m, d) →
  days_from_civil y m d = days ∧ 1 <= m <= 12 ∧ 1 <= d <= days_in_month (leap y) m ∧ d <= 31.
Proof.
  unfold civil. destruct (year_yday days) as [y' yd] eqn:E.
  destruct (month_day (leap y') yd) as [m' d'] eqn:Em. intros [= <- <- <-].
  destruct (year_yday_spec _ _ _ E) as [H Hyd].
  destruct (month_table_at (leap y') yd) as [Hok _].
  { unfold days_of_year in Hyd. by destruct (leap y'). }
  unfold month_ok in Hok. rewrite Em in Hok. boolify.
  unfold days_from_civil. lia.
Qed.

Definition date_lt (a b : Z * Z * Z) : Prop :=
  let '(y1, m1, d1) := a in let '(y2, m2, d2) := b in
  y1 < y2 ∨ (y1 = y2 ∧ (m1 < m2 ∨ (m1 = m2 ∧ d1 < d2))).

Lemma month_day_mono (lp : bool) yd n m1 d1 m2 d2 :
  0 <= yd → yd + Z.of_nat n + 1 < (if lp then 366 else 365) →
  month_day lp yd = (m1, d1) → month_day lp (yd + Z.of_nat n + 1) = (m2, d2) →
  m1 < m2 ∨ (m1 = m2 ∧ d1 < d2).
Proof.
  intros H0. revert m2 d2. induction n as [|n IH]; intros m2 d2 Hb E1 E2.
  - destruct (month_table_at lp yd) as [_ [He|Hs]]; [destruct lp; lia|destruct lp; lia|].
    unfold month_step_ok in Hs. replace (yd + Z.of_nat 0 + 1) with (yd + 1) in E2 by lia.
    rewrite E1, E2 in Hs. lia.
  - destruct (month_day lp (yd + Z.of_nat n + 1)) as [m d] eqn:E.
    specialize (IH m d ltac:(lia) E1 eq_refl).
    destruct (month_table_at lp (yd + Z.of_nat n + 1)) as [_ [He|Hs]]; [destruct lp; lia|destruct lp; lia|].
    unfold month_step_ok in Hs. rewrite E in Hs.
    replace (yd + Z.of_nat (S n) + 1) with (yd + Z.of_nat n + 1 + 1) in E2 by lia.
    rewrite E2 in Hs. lia.
Qed.

Lemma civil_mono d1 d2 : d1 < d2 → date_lt (civil d1) (civil d2).
Proof.
  intros Hlt. unfold civil, date_lt.
  destruct (year_yday d1) as [y1 yd1] eqn:E1. destruct (year_yday d2) as [y2 yd2] eqn:E2.
  destruct (month_day (leap y1) yd1) as [m1 a1] eqn:M1.
  destruct (month_day (leap y2) yd2) as [m2 a2] eqn:M2.
  destruct (year_yday_mono _ _ _ _ _ _ Hlt E1 E2) as [?|[-> Hyd]]; [by left|right].
  split; [done|]. destruct (year_yday_spec _ _ _ E1) as [_ ?]. destruct (year_yday_spec _ _ _ E2) as [_ H2].
  eapply (month_day_mono (leap y2) yd1 (Z.to_nat (yd2 - yd1 - 1))); [lia| |done|].
  - unfold days_of_year in H2. destruct (leap y2); lia.
  - by replace (yd1 + Z.of_nat (Z.to_nat (yd2 - yd1 - 1)) + 1) with yd2 by lia.
Qed.

(** Two months that differ start at least 28 days apart. *)
Lemma month_starts (lp : bool) m1 m2 : 1 <= m1 < m2 → m2 <= 12 →
  28 <= days_before_month lp m2 - days_before_month lp m1 ∧ days_before_month lp m2 <= (if lp then 335 else 334).
Proof.
  intros. assert (forallb (λ a, forallb (λ b, negb (a <? b) ||
      ((28 <=? days_before_month lp b - days_before_month lp a) && (days_before_month lp b <=? (if lp then 335 else 334))))
    (Z.of_nat <$> List.seq 1 12)) (Z.of_nat <$> List.seq 1 12) = true) as T by (destruct lp; by vm_compute).
  rewrite forallb_forall in T. specialize (T m1). rewrite forallb_forall in T.
  assert (∀ m, 1 <= m <= 12 → In m (Z.of_nat <$> List.seq 1 12)) as Hin.
  { intros m Hm. apply in_map_iff. exists (Z.to_nat m). split; [lia|]. apply in_seq. lia. }
  specialize (T (Hin m1 ltac:(lia)) m2 (Hin m2 ltac:(lia))). lia.
Qed.

Lemma days_before_month_bounds (lp : bool) m : 1 <= m <= 12 → 0 <= days_before_month lp m <= (if lp then 335 else 334).
Proof.
  intros. destruct (decide (m = 1)) as [->|]; [by destruct lp; vm_compute|].
  pose proof (month_starts lp 1 m ltac:(lia) ltac:(lia)) as [? ?].
  replace (days_before_month lp 1) with 0 in * by (by destruct lp). lia.
Qed.

(** Days less than 28 apart are the same day when they have the same day of the month. *)
Lemma civil_day_unique d1 d2 : (civil d1).2 = (civil d2).2 → d1 <= d2 <= d1 + 27 → d1 = d2.
Proof.
  destruct (civil d1) as [[y1 m1] k] eqn:E1, (civil d2) as [[y2 m2] k2] eqn:E2. cbn. intros <- [Hle Hd].
  destruct (decide (d1 = d2)) as [|Hne]; [done|exfalso].
  pose proof (civil_mono d1 d2 ltac:(lia)) as Hlt. rewrite E1, E2 in Hlt. cbn in Hlt.
  apply civil_spec in E1 as (D1 & ? & _), E2 as (D2 & ? & _). unfold days_from_civil in *.
  destruct Hlt as [Hy|[<- [Hm|[<- ?]]]]; [| |lia].
  - pose proof (days_before_month_bounds (leap y1) m1 ltac:(lia)). pose proof (days_before_month_bounds (leap y2) m2 ltac:(lia)).
    pose proof (days_before_year_step y1) as Hs. pose proof (days_before_year_mono (y1 + 1) y2 ltac:(lia)).
    unfold days_of_year in Hs. destruct (leap y1); lia.
  - pose proof (month_starts (leap y1) m1 m2 ltac:(lia) ltac:(lia)). lia.
Qed.

(** ** Printing and parsing *)

Lemma take_num_app n m acc s :
  take_num (n + m) acc s = match take_num n acc s with Some (a, r) => take_num m a r | None => None end.
Proof.
  revert acc s. induction n as [|n IH]; intros acc s; [done|]. cbn.
  destruct s as [|c s]; [done|]. by destruct (is_digit c).
Qed.

Lemma take_num_zpad w v acc rest :
  0 <= v < 10 ^ Z.of_nat w →
  take_num w acc (zpad w v +:+ rest) = Some (acc * 10 ^ Z.of_nat w + v, rest).
Proof.
  revert v acc rest. induction w as [|w IH]; intros v acc rest Hv.
  - cbn in *. do 2 f_equal. lia.
  - rewrite Nat2Z.inj_succ, Z.pow_succ_r in * by lia.
    cbn [zpad]. rewrite str_app_assoc, <- Nat.add_1_r, take_num_app, IH by lia.
    pose proof (Z.mod_pos_bound v 10 ltac:(lia)). cbn.
    change (take_num 1 (acc * 10 ^ Z.of_nat w + v / 10) (String (digit_chr (v mod 10)) rest)
            = Some (acc * (10 * 10 ^ Z.of_nat w) + v, rest)).
    cbn. rewrite is_digit_chr, digit_val_chr by lia. do 2 f_equal. lia.
Qed.

Lemma take_byte_app c rest : take_byte c (String c EmptyString +:+ rest) = Some rest.
Proof. rewrite str_app_cons. unfold take_byte. by rewrite Ascii.eqb_refl. Qed.

Lemma parse_fmt_date days rest :
  0 <= (year_yday days).1 <= 9999 → parse_date (fmt_date days +:+ rest) = Some (days, rest).
Proof.
  intros Hy. unfold fmt_date. destruct (civil days) as [[y m] d] eqn:E.
  assert (y = (year_yday days).1) as ->.
  { unfold civil in E. destruct (year_yday days) as [y' ?]. destruct (month_day _ _). by simplify_eq. }
  destruct (civil_spec _ _ _ _ E) as (Hd & Hm & Hdd & ?).
  unfold parse_date. rewrite !str_app_assoc, take_num_zpad by lia.
  rewrite take_byte_app, take_num_zpad, take_byte_app, take_num_zpad by lia.
  rewrite !Z.mul_0_l, !Z.add_0_l.
  rewrite Hd. by replace ((1 <=? m) && (m <=? 12) && (1 <=? d) && (d <=? days_in_month (leap (year_yday days).1) m)) with true by lia.
Qed.

Lemma parse_fmt_clock sod rest :
  0 <= sod < 86400 → parse_clock (fmt_clock sod +:+ rest) = Some (sod, rest).
Proof.
  intros H. unfold fmt_clock, parse_clock, take_num12. rewrite !str_app_assoc, take_num_zpad by lia.
  rewrite take_byte_app, take_num_zpad, take_byte_app, take_num_zpad by lia.
  rewrite !Z.mul_0_l, !Z.add_0_l.
  replace (_ && _ && _) with true by lia. do 2 f_equal. lia.
Qed.

Lemma strip_zeros_val s acc v :
  digits_val acc s = Some v →
  ∃ w, digits_val acc (strip_zeros s) = Some w ∧
       v = w * 10 ^ (Z.of_nat (String.length s) - Z.of_nat (String.length (strip_zeros s))) ∧
       (String.length (strip_zeros s) ≤ String.length s)%nat.
Proof.
  revert acc v. induction s as [|c s IH]; intros acc v H; cbn in *.
  { exists acc. simplify_eq. cbn. split; [done|]. lia. }
  destruct (is_digit c) eqn:Ed; [|done]. destruct (IH _ _ H) as (w & Hw & -> & Hlen).
  destruct (strip_zeros s) as [|c' s'] eqn:Es; cbn in *; [|].
  - simplify_eq. destruct (Ascii.eqb c "0") eqn:E0.
    + apply Ascii.eqb_eq in E0 as ->. exists acc. cbn. split; [done|]. split; [|lia].
      change (digit_val "0") with 0. rewrite Z.add_0_r, Z.sub_0_r, Z.sub_0_r.
      rewrite Nat2Z.inj_succ, Z.pow_succ_r by lia. ring.
    + exists (acc * 10 + digit_val c). cbn. rewrite Ed. split; [done|]. split; [|lia].
      do 2 f_equal. lia.
  - exists w. cbn. rewrite Ed. split; [done|]. split; [|lia]. do 2 f_equal. lia.
Qed.

Lemma zpad_length w v : String.length (zpad w v) = w.
Proof.
  revert v. induction w as [|w IH]; intros v; [done|]. cbn [zpad].
  rewrite str_app_length, IH. cbn. lia.
Qed.

Lemma span_digits_all s acc v rest :
  digits_val acc s = Some v → span_digits (s +:+ String "Z" rest) = (s, String "Z" rest).
Proof.
  revert acc. induction s as [|c s IH]; intros acc; cbn; [done|].
  destruct (is_digit c) eqn:E; [|done]. intros H. 
  change ((if is_digit c then let '(a, b) := span_digits (s +:+ String "Z" rest) in (String c a, b)
           else (EmptyString, String c (s +:+ String "Z" rest))) = (String c s, String "Z" rest)).
  by rewrite E, (IH _ H).
Qed.

Lemma substring_short n s : (String.length s ≤ n)%nat → String.substring 0 n s = s.
Proof.
  revert n. induction s as [|c s IH]; intros [|n] H; cbn in *; try done; [lia|]. f_equal. apply IH. lia.
Qed.

Lemma take_fmt_frac ns rest :
  0 <= ns < Second → take_frac (fmt_frac ns +:+ String "Z" rest) = (ns, String "Z" rest).
Proof.
  intros H. unfold fmt_frac.
  destruct (strip_zeros_val (zpad 9 ns) 0 ns) as (w & Hw & Hv & Hl).
  { rewrite digits_val_zpad; [done|]. unfold Second in H. lia. }
  rewrite zpad_length in *. destruct (strip_zeros (zpad 9 ns)) as [|c s] eqn:Es.
  - cbn in *. simplify_eq. done.
  - change (take_frac (String "." (String c s +:+ String "Z" rest)) = (ns, String "Z" rest)).
    unfold take_frac. cbn [Ascii.eqb Bool.eqb orb]. rewrite (span_digits_all _ _ _ _ Hw).
    rewrite substring_short by lia. rewrite Hw. f_equal. rewrite Hv. do 2 f_equal; lia.
Qed.

Lemma sod_range sec : 0 <= sec mod 86400 < 86400.
Proof. apply Z.mod_pos_bound. lia. Qed.

Lemma utc_day_unix t : unix t / 86400 = utc_day t.
Proof. unfold unix, utc_day, Day, Hour, Minute, Second. lia. Qed.

(** Parsing a stored timestamp gives back the instant. *)
Lemma parse_rfc3339nano_fmt t : rfc_range t → parse_rfc3339nano (rfc3339nano t) = Some t.
Proof.
  intros Hr. unfold rfc_range in Hr. rewrite <- utc_day_unix in Hr.
  unfold rfc3339nano, parse_rfc3339nano. rewrite parse_fmt_date by done.
  rewrite take_byte_app, parse_fmt_clock by apply sod_range.
  change "Z" with (String "Z" ""). rewrite take_fmt_frac by (apply Z.mod_pos_bound; done).
  cbn. f_equal. pose proof (Z.div_mod (unix t) 86400 ltac:(lia)).
  pose proof (Z.div_mod t Second ltac:(unfold Second; lia)). unfold unix in *. lia.
Qed.

Lemma rfc3339nano_inj t u : rfc_range t → rfc_range u → rfc3339nano t = rfc3339nano u → t = u.
Proof. intros Ht%parse_rfc3339nano_fmt Hu%parse_rfc3339nano_fmt E. congruence. Qed.

(** ** The order of stored timestamps *)

Lemma str_ltb_compare s t : str_ltb s t = true ↔ String.compare s t = Lt.
Proof.
  unfold str_ltb, String.le, String.leb. rewrite String.compare_antisym.
  destruct (String.compare s t); cbn; split; done.
Qed.

Lemma compare_app s1 s2 t1 t2 :
  String.length s1 = String.length s2 →
  String.compare (s1 +:+ t1) (s2 +:+ t2) =
    match String.compare s1 s2 with Eq => String.compare t1 t2 | c => c end.
Proof.
  revert s2. induction s1 as [|c s1 IH]; intros [|d s2] H; try done.
  rewrite !str_app_cons. cbn. destruct (Ascii.compare c d); [|done|done]. apply IH. by injection H.
Qed.

Lemma compare_refl s : String.compare s s = Eq.
Proof.
  induction s as [|c s IH]; [done|]. cbn. unfold Ascii.compare. by rewrite N.compare_refl.
Qed.

Lemma compare_digit a b : 0 <= a → a < b → b < 10 → String.compare (str1 (digit_chr a)) (str1 (digit_chr b)) = Lt.
Proof.
  intros. cbn. unfold Ascii.compare.
  assert (N.compare (N_of_ascii (digit_chr a)) (N_of_ascii (digit_chr b)) = Lt) as ->; [|done].
  apply N.compare_lt_iff. pose proof (byte_of_chr (48 + a) ltac:(lia)).
  pose proof (byte_of_chr (48 + b) ltac:(lia)). unfold byte_of, digit_chr in *. lia.
Qed.

Lemma compare_zpad w a b :
  0 <= a → a < b → b < 10 ^ Z.of_nat w → String.compare (zpad w a) (zpad w b) = Lt.
Proof.
  revert a b. induction w as [|w IH]; intros a b Ha Hab Hb; [cbn in *; lia|].
  rewrite Nat2Z.inj_succ, Z.pow_succ_r in Hb by lia.
  cbn [zpad]. rewrite compare_app by by rewrite !zpad_length.
  destruct (Z.lt_trichotomy (a / 10) (b / 10)) as [Hl|[He|Hl]]; [|rewrite He, compare_refl|lia].
  - rewrite IH; [done|lia|done|lia].
  - apply compare_digit; lia.
Qed.

Lemma fmt_date_length d : 0 <= (year_yday d).1 <= 9999 → String.length (fmt_date d) = 10%nat.
Proof.
  intros _. unfold fmt_date. destruct (civil d) as [[y m] a].
  rewrite !str_app_length, !zpad_length. done.
Qed.

Lemma fmt_clock_length s : String.length (fmt_clock s) = 8%nat.
Proof.
  unfold fmt_clock.
  rewrite !str_app_length, !zpad_length. done.
Qed.

(** Two fixed-width groups with the same separator. *)
Lemma compare_group w a b sep x y :
  0 <= a < 10 ^ Z.of_nat w → 0 <= b < 10 ^ Z.of_nat w →
  a < b ∨ (a = b ∧ String.compare x y = Lt) →
  String.compare (zpad w a +:+ String sep EmptyString +:+ x) (zpad w b +:+ String sep EmptyString +:+ y) = Lt.
Proof.
  intros Ha Hb H. rewrite compare_app by by rewrite !zpad_length.
  destruct H as [H|[-> H]]; [rewrite compare_zpad; [done|lia..]|].
  rewrite compare_refl, compare_app by done. by rewrite compare_refl.
Qed.

Lemma compare_fmt_date d1 d2 :
  0 <= (year_yday d1).1 <= 9999 → 0 <= (year_yday d2).1 <= 9999 → d1 < d2 →
  String.compare (fmt_date d1) (fmt_date d2) = Lt.
Proof.
  intros H1 H2 Hlt. pose proof (civil_mono _ _ Hlt) as Hm. unfold fmt_date.
  destruct (civil d1) as [[y1 m1] a1] eqn:E1, (civil d2) as [[y2 m2] a2] eqn:E2.
  destruct (civil_spec _ _ _ _ E1) as (_ & ? & ? & ?), (civil_spec _ _ _ _ E2) as (_ & ? & ? & ?).
  assert (y1 = (year_yday d1).1 ∧ y2 = (year_yday d2).1) as [-> ->].
  { unfold civil in E1, E2. destruct (year_yday d1), (year_yday d2), (month_day _ _), (month_day _ _).
    by simplify_eq. }
  unfold date_lt in Hm. apply compare_group; [lia..|]. destruct Hm as [?|[? Hm]]; [by left|right].
  split; [done|]. apply compare_group; [lia..|]. destruct Hm as [?|[? ?]]; [by left|right].
  split; [done|]. apply compare_zpad; lia.
Qed.

Lemma compare_fmt_clock s1 s2 :
  0 <= s1 → s1 < s2 → s2 < 86400 → String.compare (fmt_clock s1) (fmt_clock s2) = Lt.
Proof.
  intros. unfold fmt_clock. apply compare_group; [lia..|].
  destruct (Z.lt_ge_cases (s1 / 3600) (s2 / 3600)); [by left|right]. split; [lia|].
  apply compare_group; [lia..|].
  destruct (Z.lt_ge_cases (s1 / 60 mod 60) (s2 / 60 mod 60)); [by left|right]. split; [lia|].
  apply compare_zpad; lia.
Qed.

(** Instants in different seconds are stored in chronological order. *)
Lemma text_lt_seconds t u :
  rfc_range t → rfc_range u → unix t < unix u → text_lt t u = true.
Proof.
  intros Ht Hu Hlt. apply str_ltb_compare. unfold rfc_range in *. rewrite <- utc_day_unix in *.
  unfold rfc3339nano. rewrite compare_app by by rewrite !fmt_date_length.
  destruct (Z.lt_ge_cases (unix t / 86400) (unix u / 86400)) as [Hd|Hd].
  { by rewrite compare_fmt_date. }
  assert (unix t / 86400 = unix u / 86400) as -> by lia.
  rewrite compare_refl, compare_app by done. rewrite compare_refl.
  rewrite compare_app by by rewrite !fmt_clock_length.
  rewrite compare_fmt_clock; [done|lia..].
Qed.

Lemma text_lt_unix t u : rfc_range t → rfc_range u → text_lt t u = true → unix t <= unix u.
Proof.
  intros Ht Hu H. destruct (Z.lt_ge_cases (unix u) (unix t)) as [Hl|]; [|lia].
  pose proof (text_lt_seconds _ _ Hu Ht Hl) as H'. unfold text_lt in *.
  apply str_ltb_lt in H as [H Hne], H' as [H' _]. exfalso. apply Hne.
  by apply (anti_symm String.le).
Qed.
(** ** [time.Date] in a zone *)

(** Offsets are whole minutes and less than a day apart, as in every current zone. *)
Class SaneZone (l : Location) : Prop := {
  zone_minutes : ∀ sec, offset_at l sec mod 60 = 0;
  zone_close : ∀ a b, offset_at l a - offset_at l b < 86400 }.

(** A zone whose transitions do not cross midnight: [time.Date] stays on the
    requested day, and days only move forward. *)
Class CalendarZone (l : Location) : Prop := {
  calendar_sane :: SaneZone l;
  zone_date_day : ∀ day tod, 0 <= tod < Day → local_day l (date l day tod) = day;
  zone_day_mono : ∀ t u, t <= u → local_day l t <= local_day l u }.

Lemma date_offset l day tod : ∃ sec, date l day tod = day * Day + tod - offset_at l sec * Second.
Proof.
  unfold date. set (wall := day * 86400 + tod / Second).
  assert (∀ off, (wall - off) * Second + tod mod Second = day * Day + tod - off * Second) as E.
  { intros off. unfold wall, Day, Hour, Minute, Second. lia. }
  destruct (lookup l wall) as [[off start] stop] eqn:El. rewrite E.
  assert (off = offset_at l wall) as -> by (unfold offset_at; by rewrite El).
  destruct (offset_at l wall =? 0) eqn:Ez; [exists wall; lia|].
  repeat case_match; eauto.
Qed.

(** The wall clock of a date is the requested one up to a change of the offset. *)
Lemma date_wall l day tod : SaneZone l → ∃ shift, -86400 < shift < 86400 ∧ shift mod 60 = 0 ∧
  wall_of l (date l day tod) = day * Day + tod + shift * Second.
Proof.
  intros [Hm Hc]. destruct (date_offset l day tod) as [sec ->]. unfold wall_of.
  set (u := unix _). exists (offset_at l u - offset_at l sec).
  pose proof (Hc u sec). pose proof (Hc sec u). pose proof (Hm u). pose proof (Hm sec).
  split; [lia|]. split; [lia|]. unfold Second. lia.
Qed.

Lemma local_tod_range l t : 0 <= local_tod l t < Day.
Proof. unfold local_tod. apply Z.mod_pos_bound. by vm_compute. Qed.

(** Instants on later days are later. *)
Lemma wall_lt_instant l t u : SaneZone l →
  local_day l t < local_day l u → local_tod l t <= local_tod l u → t < u.
Proof.
  intros [_ Hc]. unfold local_day, local_tod, wall_of.
  pose proof (Hc (unix u) (unix t)). revert H. generalize (offset_at l (unix t)), (offset_at l (unix u)).
  unfold Day, Hour, Minute, Second. intros. lia.
Qed.

Lemma add_days_day l t n : CalendarZone l → local_day l (add_days l t n) = local_day l t + n.
Proof. intros C. apply zone_date_day, local_tod_range. Qed.

#[export] Instance fixed_calendar off : off mod 60 = 0 → CalendarZone (mkLocation off []).
Proof.
  intros H. split; [split|..]; unfold offset_at, lookup; cbn; [done|lia| |].
  - intros day tod Ht. unfold local_day, wall_of, date, offset_at, lookup. cbn.
    assert ((if off =? 0 then 0 else if (day * 86400 + tod / Second - off <? min_int64)
      || (max_int64 <=? day * 86400 + tod / Second - off) then off else off) = off) as ->.
    { destruct (Z.eqb_spec off 0) as [->|]; [done|]. by destruct (_ || _). }
    unfold Day, Hour, Minute, Second in *. lia.
  - intros t u Htu. unfold local_day, wall_of, offset_at, lookup. cbn. unfold Day, Hour, Minute, Second. lia.
Qed.

#[export] Instance UTC_calendar : CalendarZone UTC.
Proof. by apply fixed_calendar. Qed.

Lemma take_num_nonneg n acc t v r : 0 <= acc → take_num n acc t = Some (v, r) → 0 <= v.
Proof.
  revert acc t. induction n as [|n IH]; cbn; intros acc t Ha; [by intros [= <- <-]|].
  destruct t as [|c t]; [done|]. destruct (is_digit c) eqn:E; [|done]. apply IH.
  unfold is_digit, digit_val in *. boolify. lia.
Qed.

Lemma parse_hhmm_range v h m : parse_hhmm v = Some (h, m) → 0 <= h < 24 ∧ 0 <= m < 60.
Proof.
  unfold parse_hhmm. destruct (take_num12 v) as [[h' s1]|] eqn:Eh; [|done].
  destruct (24 <=? h') eqn:E1; [done|]. destruct (take_byte ":" s1) as [s2|]; [|done].
  destruct (take_num 2 0 s2) as [[m' s3]|] eqn:Em; [|done]. case_match eqn:E2; [done|]. intros [= <- <-]. boolify.
  assert (0 <= h') by (unfold take_num12 in Eh; case_match eqn:E; [simplify_eq|]; by eapply (take_num_nonneg _ 0)).
  assert (0 <= m') by (by eapply (take_num_nonneg _ 0)). lia.
Qed.

Lemma time_of_day_range h m : 0 <= h < 24 → 0 <= m < 60 → 0 <= time_of_day h m < Day.
Proof. unfold time_of_day, Day, Hour, Minute, Second. lia. Qed.

#[export] Hint Resolve parse_rfc3339nano_fmt : stacklab.

(** ** Concrete zones *)

(** Central European time in 2024: summer time from March 31 to October 27. *)
Definition demoEurope : Location := mkLocation 3600 [(1711846800, 7200); (1729990800, 3600)].
(** Chile in 2024: on September 8 the clock moves from 24:00 to 01:00. *)
Definition demoChile : Location := mkLocation (-14400) [(1725768000, -10800)].

Lemma demoEurope_offset sec : offset_at demoEurope sec =
  if sec <? 1711846800 then 3600 else if sec <? 1729990800 then 7200 else 3600.
Proof. unfold offset_at, lookup, demoEurope. cbn. by repeat case_match. Qed.

Lemma demoEurope_date day tod :
  let wall := day * 86400 + tod / Second in
  date demoEurope day tod =
    (wall - (if wall <? 1711854000 then 3600 else if wall <? 1729994400 then 7200 else 3600)) * Second + tod mod Second.
Proof.
  cbn zeta. unfold date. set (wall := day * 86400 + tod / Second). clearbody wall.
  unfold lookup. cbn [demoEurope loc_first loc_tx lookup_from].
  unfold min_int64, max_int64.
  repeat (case_match; simplify_eq; boolify; rewrite ?demoEurope_offset; try lia).
Qed.

(** Both clock changes are at night, so no date moves to another day. *)
#[export] Instance demoEurope_calendar : CalendarZone demoEurope.
Proof.
  split; [split|..].
  - intros sec. rewrite demoEurope_offset. by repeat case_match.
  - intros a b. rewrite !demoEurope_offset. repeat case_match; lia.
  - intros day tod Ht. unfold local_day, wall_of. rewrite demoEurope_date, demoEurope_offset. cbn zeta.
    unfold unix, Day, Hour, Minute, Second in *. repeat case_match; boolify; lia.
  - intros t u Htu. unfold local_day, wall_of. rewrite !demoEurope_offset.
    unfold unix, Day, Hour, Minute, Second. repeat case_match; boolify; lia.
Qed.
