(* ===== verification/GoBase64.v ===== *)
(** * encoding/base64

    The unpadded encodings the program uses ([RawURLEncoding] for cursors and
    tokens, [RawStdEncoding] and its strict form for password hashes) on byte
    strings.  The decoder skips carriage returns and line feeds, rejects every
    other byte outside the alphabet and a group of a single symbol, and, when
    strict, nonzero trailing bits. *)

From stdpp Require Import base list strings.
From Stdlib Require Import Ascii ZArith.
From S2P Require Import Prelude GoStrings.

Local Open Scope Z_scope.

(** The symbol of a six-bit value; [c62] and [c63] differ between the alphabets. *)
Record alphabet := mkAlphabet { c62 : ascii; c63 : ascii }.
Definition stdAlphabet : alphabet := mkAlphabet "+" "/".
Definition urlAlphabet : alphabet := mkAlphabet "-" "_".

Definition symbol (a : alphabet) (v : Z) : ascii :=
  if v <? 26 then chr (65 + v)
  else if v <? 52 then chr (97 + (v - 26))
  else if v <? 62 then chr (48 + (v - 52))
  else if v =? 62 then c62 a else c63 a.

Definition value (a : alphabet) (c : ascii) : option Z :=
  let b := byte_of c in
  if (65 <=? b) && (b <=? 90) then Some (b - 65)
  else if (97 <=? b) && (b <=? 122) then Some (b - 97 + 26)
  else if (48 <=? b) && (b <=? 57) then Some (b - 48 + 52)
  else if Ascii.eqb c (c62 a) then Some 62
  else if Ascii.eqb c (c63 a) then Some 63
  else None.

Definition encode2 (a : alphabet) (n : Z) : string :=
  String (symbol a (n / 262144 mod 64)) (str1 (symbol a (n / 4096 mod 64))).
Definition encode3 (a : alphabet) (n : Z) : string :=
  encode2 a n +:+ str1 (symbol a (n / 64 mod 64)).
Definition encode4 (a : alphabet) (n : Z) : string :=
  encode3 a n +:+ str1 (symbol a (n mod 64)).

(** [EncodeToString]: three bytes to four symbols, the rest to two or three. *)
Fixpoint EncodeToString (a : alphabet) (s : string) : string :=
  match s with
  | EmptyString => EmptyString
  | String x EmptyString => encode2 a (byte_of x * 65536)
  | String x (String y EmptyString) => encode3 a (byte_of x * 65536 + byte_of y * 256)
  | String x (String y (String z rest)) =>
    encode4 a (byte_of x * 65536 + byte_of y * 256 + byte_of z) +:+ EncodeToString a rest
  end.

Definition is_newline (c : ascii) : bool := (byte_of c =? 10) || (byte_of c =? 13).

Fixpoint symbols_of (a : alphabet) (s : string) : option (list Z) :=
  match s with
  | EmptyString => Some []
  | String c rest =>
    if is_newline c then symbols_of a rest
    else match value a c, symbols_of a rest with
         | Some v, Some vs => Some (v :: vs)
         | _, _ => None
         end
  end.

Fixpoint bytes_of_symbols (strict : bool) (vs : list Z) : option string :=
  match vs with
  | [] => Some EmptyString
  | [_] => None
  | [v1; v2] =>
    if strict && negb (v2 mod 16 =? 0) then None
    else Some (str1 (chr (v1 * 4 + v2 / 16)))
  | [v1; v2; v3] =>
    if strict && negb (v3 mod 4 =? 0) then None
    else Some (String (chr (v1 * 4 + v2 / 16)) (str1 (chr (v2 mod 16 * 16 + v3 / 4))))
  | v1 :: v2 :: v3 :: v4 :: rest =>
    match bytes_of_symbols strict rest with
    | Some s =>
      Some (String (chr (v1 * 4 + v2 / 16)) (String (chr (v2 mod 16 * 16 + v3 / 4)) (String (chr (v3 mod 4 * 64 + v4)) s)))
    | None => None
    end
  end.

Definition DecodeString (a : alphabet) (strict : bool) (s : string) : option string :=
  match symbols_of a s with Some vs => bytes_of_symbols strict vs | None => None end.

(** [RawStdEncoding.EncodedLen]. *)
Definition EncodedLen (n : Z) : Z := n / 3 * 4 + (n mod 3 * 8 + 5) / 6.

(** ** The round trip *)

Definition alphabet_ok (a : alphabet) : bool :=
  forallb (λ n, match value a (symbol a (Z.of_nat n)) with Some v => v =? Z.of_nat n | None => false end
                && negb (is_newline (symbol a (Z.of_nat n)))) (seq 0 64).

Lemma std_ok : alphabet_ok stdAlphabet = true.
Proof. by vm_compute. Qed.
Lemma url_ok : alphabet_ok urlAlphabet = true.
Proof. by vm_compute. Qed.

Section roundtrip.
Context (a : alphabet) (Ha : alphabet_ok a = true).

Lemma value_symbol v : 0 <= v < 64 → value a (symbol a v) = Some v ∧ is_newline (symbol a v) = false.
Proof using Ha.
  intros Hv. unfold alphabet_ok in Ha. rewrite forallb_forall in Ha.
  specialize (Ha (Z.to_nat v)). rewrite Z2Nat.id in Ha by lia.
  destruct (value a (symbol a v)) as [w|] eqn:E.
  - assert ((w =? v) && negb (is_newline (symbol a v)) = true) as H by (apply Ha, in_seq; lia).
    apply andb_true_iff in H as [Hw Hn]. apply Z.eqb_eq in Hw as ->. split; [done|].
    by destruct (is_newline _).
  - assert (false && negb (is_newline (symbol a v)) = true) as H by (apply Ha, in_seq; lia). done.
Qed.

Lemma symbols_cons v s : 0 <= v < 64 →
  symbols_of a (String (symbol a v) s) = match symbols_of a s with Some vs => Some (v :: vs) | None => None end.
Proof using Ha. intros Hv. cbn. destruct (value_symbol v Hv) as [-> ->]. done. Qed.

Lemma chr_byte c n : n = byte_of c → chr n = c.
Proof. intros ->. apply chr_byte_of. Qed.

(** Unpadded base64 decodes what it encodes, for every byte string. *)
Lemma base64_roundtrip strict s : DecodeString a strict (EncodeToString a s) = Some s.
Proof using Ha.
  unfold DecodeString.
  enough (∃ vs, symbols_of a (EncodeToString a s) = Some vs ∧ bytes_of_symbols strict vs = Some s)
    as (vs & -> & ?) by done.
  assert (∀ n s, (String.length s ≤ n)%nat → ∃ vs, symbols_of a (EncodeToString a s) = Some vs ∧
    bytes_of_symbols strict vs = Some s) as H; [|by eapply H].
  clear s. induction n as [|n IH]; intros [|x [|y [|z s]]] Hl; try (cbn in Hl; lia); try (by exists []);
    cbn [EncodeToString]; unfold encode4, encode3, encode2, str1; repeat first [rewrite str_app_cons | rewrite str_app_nil_l];
    pose proof (byte_of_range x) as Hx.
  - rewrite !symbols_cons by lia. eexists. split; [done|]. cbn [bytes_of_symbols].
    rewrite (proj2 (Z.eqb_eq _ 0)) by lia. rewrite andb_false_r. unfold str1. do 2 f_equal. apply chr_byte. lia.
  - pose proof (byte_of_range y) as Hy. rewrite !symbols_cons by lia. eexists. split; [done|]. cbn [bytes_of_symbols].
    rewrite (proj2 (Z.eqb_eq _ 0)) by lia. rewrite andb_false_r.
    unfold str1. do 2 f_equal; [apply chr_byte; lia|]. f_equal. apply chr_byte. lia.
  - pose proof (byte_of_range y) as Hy. pose proof (byte_of_range z) as Hz.
    destruct (IH s) as (vs & Hvs & Hb); [cbn in Hl; lia|].
    rewrite !symbols_cons by lia. rewrite Hvs. eexists. split; [done|]. cbn [bytes_of_symbols]. rewrite Hb.
    do 2 f_equal; [apply chr_byte; lia|]. f_equal; [apply chr_byte; lia|]. f_equal. apply chr_byte. lia.
Qed.
End roundtrip.


Lemma encoded_length a s : Z.of_nat (String.length (EncodeToString a s)) = EncodedLen (Z.of_nat (String.length s)).
Proof.
  assert (∀ n s, (String.length s ≤ n)%nat →
    Z.of_nat (String.length (EncodeToString a s)) = EncodedLen (Z.of_nat (String.length s))) as H; [|by eapply H].
  clear s. induction n as [|n IH]; intros [|x [|y [|z s]]] Hl; try done; try (cbn in Hl; lia).
  cbn [EncodeToString String.length]. rewrite str_app_length, Nat2Z.inj_add, IH by (cbn in Hl; lia).
  unfold encode4, encode3, encode2, str1. rewrite !str_app_length. cbn [String.length]. unfold EncodedLen. lia.
Qed.

(** The encoding uses only symbols of the alphabet. *)
Fixpoint str_forall (P : ascii → bool) (s : string) : bool :=
  match s with EmptyString => true | String c rest => P c && str_forall P rest end.

Lemma str_forall_app P s t : str_forall P (s +:+ t) = str_forall P s && str_forall P t.
Proof. induction s as [|c s IH]; [done|]. rewrite str_app_cons. cbn. rewrite IH. apply andb_assoc. Qed.

Lemma encoded_forall a P s :
  (∀ v, 0 <= v < 64 → P (symbol a v) = true) → str_forall P (EncodeToString a s) = true.
Proof.
  intros HP. assert (∀ n s, (String.length s ≤ n)%nat → str_forall P (EncodeToString a s) = true) as H; [|by eapply H].
  clear s. induction n as [|n IH]; intros [|x [|y [|z s]]] Hl; try done; try (cbn in Hl; lia);
    cbn [EncodeToString]; unfold encode4, encode3, encode2, str1; rewrite ?str_forall_app; cbn;
    rewrite ?HP by (apply Z.mod_pos_bound; lia); try done.
  apply IH. cbn in Hl. lia.
Qed.
