(* ===== verification/LimitedIO.v ===== *)
(** * internal/limitedio/limitedio.go: bounded input and output

    [ReadFile] refuses files above a limit even when they grow while they are
    read; [Buffer] keeps at most the limit and drains the rest.  Lengths and
    limits are int64 and wrap around.  A file is what the system calls report:
    [None] for a failed [Open] or [Stat], and its bytes, which may end in a read
    error, independently of the size [Stat] reported. *)

From stdpp Require Import gmap strings list.
From Stdlib Require Import ZArith.
From S2P Require Import Prelude GoStrings.

Local Open Scope Z_scope.

(** ** Errors *)

(** A Go error: a [*LimitError], an error that wraps another one, or any other. *)
Inductive go_error : Type :=
| LimitError (limit : Z)
| WrapError (message : string) (inner : go_error)
| OtherError (message : string).

#[global] Instance go_error_eq_dec : EqDecision go_error.
Proof. solve_decision. Defined.

Definition NewLimitError (maxBytes : Z) : go_error := LimitError maxBytes.

(** [errors.As(err, &limitErr)] follows the chain of wrapped errors. *)
Fixpoint MaxBytes (err : go_error) : Z * bool :=
  match err with
  | LimitError limit => (limit, true)
  | WrapError _ inner => MaxBytes inner
  | OtherError _ => (0, false)
  end.

Definition CheckString (content : string) (maxBytes : Z) : res go_error unit :=
  guard_err (maxBytes <? slen content) (NewLimitError maxBytes).

(** ** Reading a file *)

Record file := mkFile {
  open_error : option string; stat : res string Z;
  bytes : string; read_error : option string }.

(** [io.ReadAll(io.LimitReader(file, n))]: the end of the limit hides what follows. *)
Definition readLimited (f : file) (n : Z) : res go_error string :=
  if n <=? 0 then Ok ""
  else if n <=? slen (bytes f) then Ok (str_take n (bytes f))
  else match read_error f with Some msg => Err (OtherError msg) | None => Ok (bytes f) end.

Definition ReadFile (f : file) (maxBytes : Z) : res go_error string :=
  match open_error f with
  | Some msg => Err (OtherError msg)
  | None =>
    match stat f with
    | Err msg => Err (OtherError msg)
    | Ok size =>
      let? _ := guard_err (maxBytes <? size) (NewLimitError maxBytes) in
      let? content := readLimited f (wrap64 (maxBytes + 1)) in
      let? _ := guard_err (maxBytes <? slen content) (NewLimitError maxBytes) in
      Ok content
    end
  end.

(** ** The bounded buffer *)

Record Buffer := mkBuffer { content : string; maxBytes : Z; exceeded : bool }.

Definition NewBuffer (limit : Z) : Buffer := mkBuffer "" limit false.

(** The number of bytes reported as written, and the new buffer. *)
Definition Write (b : Buffer) (c : string) : Z * Buffer :=
  let written := slen c in
  let remaining := wrap64 (maxBytes b - slen (content b)) in
  if remaining <=? 0 then
    (written, mkBuffer (content b) (maxBytes b) (exceeded b || (0 <? slen c)))
  else if remaining <? slen c then
    (written, mkBuffer (content b +:+ str_take remaining c) (maxBytes b) true)
  else (written, mkBuffer (content b +:+ c) (maxBytes b) (exceeded b)).

Definition WriteString (b : Buffer) (c : string) : Z * Buffer := Write b c.
Definition Bytes (b : Buffer) : string := content b.
Definition BufferString (b : Buffer) : string := content b.
Definition BufferErr (b : Buffer) : option go_error :=
  if exceeded b then Some (NewLimitError (maxBytes b)) else None.

(** The writes of a producer, and what each of them reported. *)
Fixpoint write_all (b : Buffer) (cs : list string) : list Z * Buffer :=
  match cs with
  | [] => ([], b)
  | c :: cs' => let '(n, b') := Write b c in let '(ns, b'') := write_all b' cs' in (n :: ns, b'')
  end.

(** ** Properties *)

(** What a buffer holds after the text [t] was written to it. *)
Definition holds_text (limit : Z) (t : string) (b : Buffer) : Prop :=
  maxBytes b = limit ∧ content b = str_take (Z.max 0 limit) t ∧ exceeded b = (Z.max 0 limit <? slen t).

Lemma Write_holds limit t b c :
  min_int64 <= limit <= max_int64 → holds_text limit t b →
  (Write b c).1 = slen c ∧ holds_text limit (t +:+ c) (Write b c).2.
Proof.
  intros Hl (Hm & Hc & He). pose proof (slen_nonneg t). pose proof (slen_nonneg c).
  destruct b as [k m x]. cbn in Hm, Hc, He. subst m k x. unfold Write. cbn [content maxBytes exceeded].
  rewrite str_take_length by lia.
  rewrite wrap64_id by (unfold min_int64, max_int64 in *; lia).
  unfold holds_text. rewrite slen_app, str_take_app by lia.
  case_match eqn:E1; [|case_match eqn:E2]; cbn; (split; [done|]); (split; [done|]).
  - apply Z.leb_le in E1. split.
    + rewrite (str_take_nonpos (_ - _)) by lia. by rewrite str_app_nil_r.
    + destruct (Z.ltb_spec (Z.max 0 limit) (slen t)), (Z.ltb_spec 0 (slen c)), (Z.ltb_spec (Z.max 0 limit) (slen t + slen c)); cbn; lia || done.
  - apply Z.leb_gt in E1. apply Z.ltb_lt in E2. split; [do 2 f_equal; lia|]. symmetry. apply Z.ltb_lt. lia.
  - apply Z.leb_gt in E1. apply Z.ltb_ge in E2. split.
    + by rewrite (str_take_all (_ - _) c) by lia.
    + destruct (Z.ltb_spec (Z.max 0 limit) (slen t)), (Z.ltb_spec (Z.max 0 limit) (slen t + slen c)); lia || done.
Qed.

Lemma write_all_holds limit cs : min_int64 <= limit <= max_int64 → ∀ t b, holds_text limit t b →
  (write_all b cs).1 = slen <$> cs ∧ holds_text limit (t +:+ String.concat "" cs) (write_all b cs).2.
Proof.
  intros Hl. induction cs as [|c cs IH]; intros t b H; cbn [write_all]; [by rewrite str_app_nil_r|].
  destruct (Write_holds limit t b c Hl H) as [H1 H2]. destruct (Write b c) as [n b']. cbn [fst snd] in *.
  destruct (IH _ _ H2) as [H3 H4]. destruct (write_all b' cs) as [ns b'']. cbn [fst snd] in *.
  rewrite H1, H3. split; [done|]. replace (String.concat "" (c :: cs)) with (c +:+ String.concat "" cs).
  { by rewrite <- str_app_assoc. }
  destruct cs; cbn; [by rewrite str_app_nil_r|done].
Qed.

(** the buffer keeps exactly the first [maxBytes] bytes of everything that
    was written, in whatever pieces; it reports every piece as written in full, so
    the producer never stalls; and its error says exactly whether anything was
    dropped.  A negative limit keeps nothing. *)
Theorem Buffer_keeps_prefix limit cs :
  min_int64 <= limit <= max_int64 →
  let '(ns, b) := write_all (NewBuffer limit) cs in
  let total := String.concat "" cs in
  ns = slen <$> cs ∧ Bytes b = str_take (Z.max 0 limit) total ∧
  slen (Bytes b) <= Z.max 0 limit ∧
  BufferErr b = (if Z.max 0 limit <? slen total then Some (NewLimitError limit) else None).
Proof.
  intros Hl. destruct (write_all_holds limit cs Hl "" (NewBuffer limit)) as [H1 H2].
  { split; [done|]. split; [symmetry; apply str_take_all; unfold slen; cbn; lia|]. symmetry. apply Z.ltb_ge. unfold slen. cbn. lia. }
  destruct (write_all (NewBuffer limit) cs) as [ns b]. cbn [fst snd] in *. rewrite str_app_nil_l in H2.
  destruct H2 as (Hm & Hc & He). unfold Bytes, BufferErr. rewrite Hc, Hm, He, str_take_length by lia.
  split_and!; [done|done|lia|done].
Qed.

Lemma Buffer_keeps_prefix_witness :
  let '(ns, b) := write_all (NewBuffer 4) ["123"; "456"] in
  let total := String.concat "" ["123"; "456"] in
  ns = slen <$> ["123"; "456"] ∧ Bytes b = str_take (Z.max 0 4) total ∧
  slen (Bytes b) <= Z.max 0 4 ∧
  BufferErr b = (if Z.max 0 4 <? slen total then Some (NewLimitError 4) else None).
Proof. apply (Buffer_keeps_prefix 4 ["123"; "456"]). by vm_compute. Defined.

Example Buffer_drains : (write_all (NewBuffer 4) ["123"; "456"]).2 = mkBuffer "1234" 4 true.
Proof. by vm_compute. Qed.

(** [ReadFile] returns the whole file or an error, never a truncated text and
    never more than the limit, even when the file grows between [Stat] and the
    read; a file within the limit that can be read is returned. *)
Theorem ReadFile_whole_or_error f limit :
  0 <= limit < max_int64 →
  (∀ c, ReadFile f limit = Ok c → c = bytes f ∧ slen c <= limit ∧ read_error f = None) ∧
  (limit < slen (bytes f) → is_ok (ReadFile f limit) = false) ∧
  (∀ size, open_error f = None → stat f = Ok size → size <= limit → read_error f = None →
     slen (bytes f) <= limit → ReadFile f limit = Ok (bytes f)).
Proof.
  intros Hl. assert (wrap64 (limit + 1) = limit + 1) as Hw by (apply wrap64_id; unfold min_int64; lia).
  assert (∀ c, ReadFile f limit = Ok c → c = bytes f ∧ slen c <= limit ∧ read_error f = None) as Hok.
  { intros c. unfold ReadFile. destruct (open_error f); [done|]. destruct (stat f) as [size|]; [|done].
    rewrite Hw. intros H. res_inv H. subst. unfold readLimited in E0.
    unfold guard_err in E1. destruct (limit <? slen c) eqn:E2; [done|]. apply Z.ltb_ge in E2. repeat case_scrut_in E0; simplify_eq; [lia| |done].
    exfalso. rewrite str_take_length in E2 by lia. lia. }
  split; [done|]. split.
  - intros Hlen. destruct (ReadFile f limit) as [c|] eqn:E; [|done]. destruct (Hok c eq_refl) as (-> & ? & ?). lia.
  - intros size Ho Hs Hsz Hr Hb. unfold ReadFile. rewrite Ho, Hs, Hw. unfold guard_err, readLimited.
    rewrite (proj2 (Z.ltb_ge _ _)) by lia. cbn [res_bind]. rewrite (proj2 (Z.leb_gt _ _)), (proj2 (Z.leb_gt _ _)), Hr by lia.
    cbn [res_bind]. by rewrite (proj2 (Z.ltb_ge _ _)) by lia.
Qed.

(** A file that grew after [Stat] is refused. *)
Definition demoGrown : file := mkFile None (Ok 3) "12345" None.

Lemma ReadFile_whole_or_error_witness : is_ok (ReadFile demoGrown 4) = false.
Proof.
  apply (ReadFile_whole_or_error demoGrown 4).
  - split; by vm_compute.
  - by vm_compute.
Defined.

(** With the largest int64 as the limit [maxBytes+1] wraps around, and every
    file is read as empty. *)
Lemma ReadFile_max_limit_wraps :
  ReadFile (mkFile None (Ok 5) "12345" None) max_int64 = Ok "".
Proof. by vm_compute. Qed.
