(* ===== verification/Lifecycle.v ===== *)
(** * internal/lifecycle/manager.go: the goroutine manager

    [Manager] admits goroutines until it is stopped, and closes [done] when all
    of them have returned.  The critical sections of its methods are functions on
    the state; [step] interleaves them.  A wait group counts; [close] on a closed
    channel and [Done] below zero panic, which is [None]. *)

From stdpp Require Import gmap strings list relations.
From Stdlib Require Import ZArith.
From S2P Require Import Prelude.

(** ** The manager *)

(** [ctxErr] is [ctx.Err()]: the cause once the context is cancelled.  [once] is
    whether [doneOnce] has fired, [waiter] whether its goroutine is waiting. *)
Record Manager := mkManager {
  ctxErr : option string; stopping : bool; wg : nat; done : bool; once : bool; waiter : bool }.

(** [New(parent)]: a parent may be cancelled already; [nil] is the background context. *)
Definition New (parent : option (option string)) : Manager :=
  mkManager (default None parent) false 0 false false false.

Definition Context (m : Manager) : option string := ctxErr m.

(** [Go]: the guard on [fn], then the critical section. *)
Definition GoAdmit (m : Manager) (fn_nil : bool) : bool * Manager :=
  if fn_nil then (false, m)
  else if stopping m then (false, m)
  else (true, mkManager (ctxErr m) (stopping m) (S (wg m)) (done m) (once m) (waiter m)).

(** The deferred [wg.Done()]. *)
Definition taskDone (m : Manager) : option Manager :=
  match wg m with
  | O => None
  | S n => Some (mkManager (ctxErr m) (stopping m) n (done m) (once m) (waiter m))
  end.

(** The critical section of [Stop]; the result is whether the caller goes on to
    [doneOnce.Do].  Cancelling a cancelled context keeps its cause. *)
Definition StopLocked (m : Manager) : bool * Manager :=
  if stopping m then (false, m)
  else (true, mkManager (Some (default "context canceled" (ctxErr m))) true (wg m) (done m) (once m) (waiter m)).

(** [doneOnce.Do]: starts the goroutine that waits for the group. *)
Definition StopOnce (m : Manager) : Manager :=
  if once m then m else mkManager (ctxErr m) (stopping m) (wg m) (done m) true true.

(** [m.wg.Wait()] returns when the counter is zero; then [close(m.done)]. *)
Definition waiterReady (m : Manager) : bool := waiter m && (wg m =? 0)%nat.
Definition closeDone (m : Manager) : option Manager :=
  if done m then None
  else Some (mkManager (ctxErr m) (stopping m) (wg m) true (once m) false).

Inductive wait_error : Type := ErrShutdownTimedOut (ctxErr : string).

(** The [select] of [Wait]: the results that are possible, none while it blocks.
    [ctx] is the error of the caller's context once it is done. *)
Definition waitSelect (m : Manager) (ctx : option string) : list (res wait_error unit) :=
  (if done m then [Ok tt] else []) ++
  match ctx with Some e => [Err (ErrShutdownTimedOut e)] | None => [] end.

(** ** Interleavings *)

(** [tasks]: the admitted goroutines that have not returned.  [stoppers]: callers
    of [Stop] (also through [Wait] and [Shutdown]) before their [doneOnce.Do]. *)
Record Conf := mkConf { man : Manager; tasks : gset nat; stoppers : nat }.

Definition initConf (parent : option (option string)) : Conf := mkConf (New parent) ∅ 0.

(** What callers do: [Go] and the first half of [Stop]; a parent context may be
    cancelled at any time. *)
Inductive call_step : Conf → Conf → Prop :=
| c_go m ts st id m' : id ∉ ts → GoAdmit m false = (true, m') → call_step (mkConf m ts st) (mkConf m' ({[id]} ∪ ts) st)
| c_go_refused m ts st fn_nil m' : GoAdmit m fn_nil = (false, m') → call_step (mkConf m ts st) (mkConf m' ts st)
| c_stop m ts st m' : StopLocked m = (true, m') → call_step (mkConf m ts st) (mkConf m' ts (S st))
| c_stop_again m ts st m' : StopLocked m = (false, m') → call_step (mkConf m ts st) (mkConf m' ts st)
| c_parent m ts st e : call_step (mkConf m ts st)
    (mkConf (mkManager (Some (default e (ctxErr m))) (stopping m) (wg m) (done m) (once m) (waiter m)) ts st).

(** What the manager and its goroutines do by themselves. *)
Inductive internal_step : Conf → Conf → Prop :=
| i_return m ts st id m' : id ∈ ts → taskDone m = Some m' → internal_step (mkConf m ts st) (mkConf m' (ts ∖ {[id]}) st)
| i_once m ts st : internal_step (mkConf m ts (S st)) (mkConf (StopOnce m) ts st)
| i_close m ts st m' : waiterReady m = true → closeDone m = Some m' → internal_step (mkConf m ts st) (mkConf m' ts st).

Definition step (c c' : Conf) : Prop := call_step c c' ∨ internal_step c c'.

(** ** The invariant *)

Record conf_inv (c : Conf) : Prop := {
  ci_wg : wg (man c) = size (tasks c);
  ci_started : stoppers c ≠ 0 ∨ once (man c) = true → stopping (man c) = true;
  ci_stopping : stopping (man c) = true → once (man c) = true ∨ stoppers c ≠ 0;
  ci_once : once (man c) = true → waiter (man c) = negb (done (man c)) ∧ stoppers c = 0;
  ci_not_once : once (man c) = false → waiter (man c) = false ∧ done (man c) = false ∧ stoppers c ≤ 1;
  ci_done : done (man c) = true → tasks c = ∅;
  ci_ctx : stopping (man c) = true → is_Some (ctxErr (man c)) }.

Lemma init_inv parent : conf_inv (initConf parent).
Proof. split; cbn; try naive_solver; lia. Qed.

Lemma size_diff_elem (ts : gset nat) id n : id ∈ ts → S n = size ts → n = size (ts ∖ {[id]}).
Proof. intros Hin Hs. rewrite size_difference by set_solver. rewrite size_singleton. lia. Qed.

(** Case analysis on the flags of a manager. *)
Ltac flags m :=
  destruct m as [? [] ? [] [] []]; cbn in *; try done;
  split; cbn in *; try done; intuition (discriminate || lia || eauto).

Lemma call_step_inv c c' : conf_inv c → call_step c c' → conf_inv c'.
Proof.
  intros [Hwg Hst Hsp Ho Hn Hd Hc] H. destruct H as
    [m ts st id m' Hid E|m ts st b m' E|m ts st m' E|m ts st m' E|m ts st e]; cbn in *.
  - assert (size ({[id]} ∪ ts) = S (size ts)) as Hsz.
    { rewrite size_union by set_solver. by rewrite size_singleton. }
    unfold GoAdmit in E. destruct (stopping m) eqn:Es; [done|]. injection E as <-. flags m.
  - assert (m' = m) as -> by (unfold GoAdmit in E; repeat case_match; by simplify_eq). by split.
  - unfold StopLocked in E. destruct (stopping m) eqn:Es; [done|]. injection E as <-. flags m.
  - assert (m' = m) as -> by (unfold StopLocked in E; repeat case_match; by simplify_eq). by split.
  - flags m.
Qed.

Lemma internal_step_inv c c' : conf_inv c → internal_step c c' → conf_inv c'.
Proof.
  intros [Hwg Hst Hsp Ho Hn Hd Hc] H. destruct H as [m ts st id m' Hid E|m ts st|m ts st m' Hr E]; cbn in *.
  - unfold taskDone in E. destruct (wg m) as [|n] eqn:En; [done|]. injection E as <-.
    pose proof (size_diff_elem ts id n Hid Hwg) as Hsz.
    assert (ts ≠ ∅) by set_solver. flags m.
  - unfold StopOnce. destruct (once m) eqn:Eo; flags m.
  - unfold waiterReady in Hr. apply andb_true_iff in Hr as [Hw Hz]. apply Nat.eqb_eq in Hz.
    assert (ts = ∅) as -> by (apply leibniz_equiv, size_empty_inv; lia).
    unfold closeDone in E. destruct (done m) eqn:Em; [done|]. injection E as <-. flags m.
Qed.

Lemma step_inv c c' : conf_inv c → step c c' → conf_inv c'.
Proof. intros I [H|H]; [by eapply call_step_inv|by eapply internal_step_inv]. Qed.

Lemma conf_reachable_inv parent c : rtc step (initConf parent) c → conf_inv c.
Proof.
  intros H. pose proof (init_inv parent) as I. induction H as [|x y z Hxy _ IH]; [done|].
  apply IH. by eapply step_inv.
Qed.

(** A closed [done] stays closed. *)
Lemma step_done c c' : step c c' → done (man c) = true → done (man c') = true.
Proof.
  intros [H|H] Hd; destruct H as [] || destruct H as []; cbn in *; try done;
    unfold GoAdmit, StopLocked, taskDone, StopOnce, closeDone in *; repeat case_match; simplify_eq/=; done.
Qed.

Lemma step_never_panics c id : conf_inv c →
  (id ∈ tasks c → is_Some (taskDone (man c))) ∧ (waiterReady (man c) = true → is_Some (closeDone (man c))).
Proof.
  intros [Hwg _ _ Ho Hn _ _]. split.
  - intros Hin. unfold taskDone. rewrite Hwg. destruct (size (tasks c)) eqn:E; [|eauto].
    apply size_empty_inv in E. set_solver.
  - unfold waiterReady, closeDone. intros [Hw _]%andb_true_iff. destruct (once (man c)).
    + destruct (Ho eq_refl) as [Hx _]. rewrite Hw in Hx. destruct (done (man c)); [done|eauto].
    + destruct (Hn eq_refl). congruence.
Qed.

(** What is left to do before [done] is closed. *)
Definition pending (c : Conf) : nat :=
  size (tasks c) + 2 * stoppers c + (if waiter (man c) then 1 else 0).

Lemma internal_pending c c' : conf_inv c → internal_step c c' → pending c' < pending c.
Proof.
  intros I H. unfold pending. destruct I as [Hwg _ _ _ _ _ _]. destruct H as [m ts st id m' Hid E|m ts st|m ts st m' Hr E]; cbn in *.
  - unfold taskDone in E. destruct (wg m) eqn:En; [done|]. injection E as <-. cbn.
    rewrite <- (size_diff_elem ts id n) by done. lia.
  - unfold StopOnce. destruct (once m); cbn; [destruct (waiter m); lia|]. destruct (waiter m); lia.
  - unfold waiterReady in Hr. apply andb_true_iff in Hr as [Hw _]. unfold closeDone in E.
    destruct (done m); [done|]. injection E as <-. cbn. rewrite Hw. lia.
Qed.

(** ** Properties *)

(** [Wait] and [Shutdown] return [nil] only when every admitted goroutine has
    returned, and from then on none is admitted: in every continuation no task
    runs, [Go] refuses, and a further [Wait] can return [nil] too. *)
Theorem Wait_nil_means_quiescent parent c ctx c' :
  rtc step (initConf parent) c → Ok tt ∈ waitSelect (man c) ctx → rtc step c c' →
  tasks c' = ∅ ∧ (∀ fn_nil, (GoAdmit (man c') fn_nil).1 = false) ∧ Ok tt ∈ waitSelect (man c') ctx.
Proof.
  intros Hr Hw Hc.
  assert (done (man c) = true) as Hd by (unfold waitSelect in Hw; destruct (done (man c)), ctx; set_solver).
  apply conf_reachable_inv in Hr.
  assert (conf_inv c' ∧ done (man c') = true) as [I' Hd'].
  { clear Hw. induction Hc as [|x y z Hxy _ IH]; [done|].
    apply IH; [by eapply step_inv|by eapply step_done]. }
  split; [by apply ci_done|]. split.
  - intros b. assert (stopping (man c') = true) as Hs.
    { apply (ci_started _ I'). right. destruct (once (man c')) eqn:E; [done|].
      destruct (ci_not_once _ I' E) as (_ & ? & _). congruence. }
    unfold GoAdmit. rewrite Hs. by destruct b.
  - unfold waitSelect. rewrite Hd'. set_solver.
Qed.

(** C36: shutdown completes: once [Stop] was called, the manager's own steps and
    the returns of the admitted goroutines are finitely many, none of them panics,
    and when none is left [done] is closed, so [Wait] returns [nil]. *)
Theorem shutdown_completes parent c ctx :
  rtc step (initConf parent) c → stopping (man c) = true →
  (∀ c', internal_step c c' → pending c' < pending c ∧ stopping (man c') = true) ∧
  ((∀ c', ¬ internal_step c c') → Ok tt ∈ waitSelect (man c) ctx ∧ tasks c = ∅) ∧
  is_Some (Context (man c)).
Proof.
  intros I%conf_reachable_inv Hs. split; [|split; [|by apply ci_ctx]].
  - intros c' H. split; [by apply internal_pending|].
    apply (internal_step_inv _ _ I) in H as I'.
    destruct H as [m ts st id m' Hid E|m ts st|m ts st m' Hr E]; cbn in *.
    + unfold taskDone in E. destruct (wg m); [done|]. by injection E as <-.
    + unfold StopOnce. by destruct (once m).
    + unfold closeDone in E. destruct (done m); [done|]. by injection E as <-.
  - intros Hno. destruct c as [m ts st].
    assert (ts = ∅) as ->.
    { apply set_eq. intros id. split; [|set_solver]. intros Hin. exfalso.
      destruct (proj1 (step_never_panics _ id I) Hin) as [m' Hm]. by eapply Hno, i_return. }
    split; [|done]. assert (st = 0) as -> by (destruct st; [done|]; exfalso; by eapply Hno, i_once).
    destruct (ci_stopping _ I Hs) as [Ho|]; [|done]. cbn in *.
    destruct (ci_once _ I Ho) as [Hw _]. cbn in Hw. unfold waitSelect. destruct (done m) eqn:Ed; [set_solver|].
    exfalso. assert (waiterReady m = true) as Hr.
    { unfold waiterReady. rewrite Hw. pose proof (ci_wg _ I) as Hz. cbn in Hz. rewrite Hz. done. }
    destruct (proj2 (step_never_panics _ 0 I) Hr) as [m' Hm]. by eapply Hno, i_close.
Qed.

(** ** Concrete runs *)

(** A task is admitted, [Stop] runs, the task returns, the waiter closes [done]. *)
Definition demoManager (wg : nat) (done once waiter : bool) : Manager :=
  mkManager (Some "context canceled") true wg done once waiter.

Lemma demo_stopping : rtc step (initConf None) (mkConf (demoManager 1 false true true) ({[ 7 ]} ∪ ∅) 0).
Proof.
  eapply rtc_l; [left; by apply (c_go _ _ _ 7)|].
  eapply rtc_l; [left; by apply c_stop|]. eapply rtc_l; [right; apply i_once|]. apply rtc_refl.
Qed.

Lemma demo_done : rtc step (initConf None) (mkConf (demoManager 0 true true false) ∅ 0).
Proof.
  etrans; [apply demo_stopping|].
  eapply rtc_l; [right; by eapply (i_return _ _ _ 7); [set_solver|]|].
  eapply rtc_l; [right; by eapply i_close|].
  replace (({[ 7 ]} ∪ ∅) ∖ {[ 7 ]} : gset nat) with (∅ : gset nat) by set_solver. apply rtc_refl.
Qed.

Lemma Wait_nil_means_quiescent_witness :
  tasks (mkConf (demoManager 0 true true false) ∅ 0) = ∅ ∧
  (∀ fn_nil, (GoAdmit (demoManager 0 true true false) fn_nil).1 = false) ∧
  Ok tt ∈ waitSelect (demoManager 0 true true false) None.
Proof.
  apply (Wait_nil_means_quiescent None (mkConf (demoManager 0 true true false) ∅ 0) None
    (mkConf (demoManager 0 true true false) ∅ 0)).
  - apply demo_done.
  - cbn. left.
  - apply rtc_refl.
Defined.

Lemma shutdown_completes_witness : is_Some (Context (demoManager 1 false true true)).
Proof.
  apply (shutdown_completes None (mkConf (demoManager 1 false true true) ({[ 7 ]} ∪ ∅) 0) None).
  - apply demo_stopping.
  - done.
Defined.
