(* ===== verification/BackupSchedule.v ===== *)
(** * internal/backup/schedule.go: backup schedules

    Validation, the occurrences of a schedule in its time zone, the latest due
    occurrence, the preview of the next ones, and the first outstanding one.  The
    zone database and the host's zone are parameters. *)

From stdpp Require Import gmap strings list sorting.
From Stdlib Require Import ZArith.
From S2P Require Import Prelude GoStrings GoTime.

Local Open Scope Z_scope.

(** ** Data (internal/backup/types.go) *)

Record Schedule := mkSchedule {
  Frequency : string; ScheduleTime : string; Weekday : Z; Timezone : string; IntervalHours : Z }.

Record Retention := mkRetention { Daily : Z; Weekly : Z; Monthly : Z }.

Record Assignment := mkAssignment {
  DestinationID : string; AssignmentEnabled : bool; AssignmentSchedule : Schedule; AssignmentRetention : Retention;
  LastScheduledAt : option Time; ScheduleActivatedAt : option Time }.

Inductive backup_error : Type :=
| ErrNotFound | ErrInvalid (reason : string) | ErrBusy (reason : string) | ErrExpired | ErrOther (reason : string).

Record SchedulePreview := mkPreview { NextOccurrences : list Time; PreviewTimezone : string }.

(** A [*time.Location]: what [String] returns, and its offsets. *)
Record Zone := mkZone { zone_name : string; zone_loc : Location }.

Section schedule.
(** The zone files by name, and the zone of the host. *)
Context (zoneinfo : string → option Location) (Local : Location).

(** [time.LoadLocation]. *)
Definition LoadLocation (name : string) : option Zone :=
  if str_empty name || str_eqb name "UTC" then Some (mkZone "UTC" UTC)
  else if str_eqb name "Local" then Some (mkZone "Local" Local)
  else mkZone name <$> zoneinfo name.

(** ** Operations *)

Definition validateSchedule (s : Schedule) : res backup_error unit :=
  if str_in (Frequency s) [""; "manual"] then Ok tt
  else if str_eqb (Frequency s) "interval" then
    guard_err ((IntervalHours s <? 1) || (168 <? IntervalHours s)) (ErrInvalid "interval_hours must be 1 to 168")
  else
    let? _ := guard_err (negb (str_in (Frequency s) ["daily"; "weekly"]))
      (ErrInvalid "schedule frequency must be manual, interval, daily, or weekly") in
    let? _ := match parse_hhmm (ScheduleTime s) with
              | Some _ => Ok tt | None => Err (ErrInvalid "schedule time must be HH:MM") end in
    let? _ := guard_err ((Weekday s <? 0) || (6 <? Weekday s)) (ErrInvalid "schedule weekday must be 0 to 6") in
    if str_empty (Timezone s) then Ok tt
    else match LoadLocation (Timezone s) with
         | Some _ => Ok tt | None => Err (ErrInvalid "unknown schedule timezone") end.

Definition scheduleLocation (s : Schedule) : Zone :=
  if str_eqb (Frequency s) "interval" then mkZone "UTC" UTC
  else if str_empty (Timezone s) then mkZone "Local" Local
  else match LoadLocation (Timezone s) with Some z => z | None => mkZone "Local" Local end.

Definition location (s : Schedule) : Location := zone_loc (scheduleLocation s).

(** [t.Hour()], [t.Minute()] and [t.Day()] of an instant in a zone. *)
Definition hour (l : Location) (t : Time) : Z := local_tod l t / Hour.
Definition minute (l : Location) (t : Time) : Z := local_tod l t mod Hour / Minute.
Definition day_of_month (l : Location) (t : Time) : Z := (civil (local_day l t)).2.

(** [day] is the calendar date of [date], in the zone of the schedule. *)
Definition calendarOccurrence (s : Schedule) (date : Time) : option Time :=
  match parse_hhmm (ScheduleTime s) with
  | None => None
  | Some (h, m) =>
    let l := location s in
    let candidate := GoTime.date l (local_day l date) (time_of_day h m) in
    if negb (hour l candidate =? h) || negb (minute l candidate =? m)
       || negb (day_of_month l candidate =? day_of_month l date) then None
    else if str_eqb (Frequency s) "weekly" && negb (weekday_of (local_day l candidate) =? Weekday s) then None
    else Some candidate
  end.

(** The loop of [latestDue] from [days] on, [n] rounds. *)
Fixpoint latestFrom (s : Schedule) (now : Time) (n : nat) (days : Z) : option Time :=
  match n with
  | O => None
  | S n' =>
    match calendarOccurrence s (add_days (location s) now (- days)) with
    | Some candidate => if after candidate now then latestFrom s now n' (days + 1) else Some candidate
    | None => latestFrom s now n' (days + 1)
    end
  end.

Definition latestDue (s : Schedule) (now : Time) : option Time :=
  if negb (is_ok (validateSchedule s)) || str_in (Frequency s) ["manual"; ""] then None
  else if str_eqb (Frequency s) "interval" then
    let seconds := IntervalHours s * 3600 in
    Some (Z.quot (unix now) seconds * seconds * Second)
  else latestFrom s now 15 0.

(** The loop of [PreviewSchedule] from [days] on; [count] results are missing. *)
Fixpoint previewFrom (s : Schedule) (from : Time) (count : nat) (n : nat) (days : Z) : list Time :=
  match n, count with
  | O, _ | _, O => []
  | S n', S count' =>
    match calendarOccurrence s (add_days (location s) from days) with
    | Some candidate =>
      if after candidate from then candidate :: previewFrom s from count' n' (days + 1)
      else previewFrom s from count n' (days + 1)
    | None => previewFrom s from count n' (days + 1)
    end
  end.

Definition PreviewSchedule (s : Schedule) (from : Time) (count : Z) : res backup_error (list Time) :=
  let? _ := validateSchedule s in
  let? _ := guard_err ((count <? 1) || (10 <? count)) (ErrInvalid "schedule preview count must be 1 to 10") in
  if str_in (Frequency s) ["manual"; ""] then Ok []
  else if str_eqb (Frequency s) "interval" then
    let due := default zero_time (latestDue s from) in
    Ok ((λ i, due + Z.of_nat i * (IntervalHours s * Hour)) <$> List.seq 1 (Z.to_nat count))
  else Ok (previewFrom s from (Z.to_nat count) 100 0).

(** [Service.SchedulePreview]: the preview and the error; [counts] is the
    optional argument.  Converting to UTC does not change an instant. *)
Definition ServiceSchedulePreview (now : Time) (s : Schedule) (counts : list Z) : SchedulePreview * option backup_error :=
  let count := match counts with c :: _ => if c =? 0 then 5 else c | [] => 5 end in
  let zone := zone_name (scheduleLocation s) in
  let zone := if str_eqb zone "Local" then "UTC" else zone in
  match PreviewSchedule s now count with
  | Ok occurrences => (mkPreview occurrences zone, None)
  | Err e => (mkPreview [] zone, Some e)
  end.

Definition clockSkewTolerance : Duration := 5 * Minute.

Definition occurrencePending (last : option Time) (due now : Time) : bool :=
  match last with
  | None => true
  | Some t => after t (now + clockSkewTolerance) || before t due
  end.

(** The instant after which an occurrence is outstanding, [zero_time] for none. *)
Definition outstandingFrom (a : Assignment) (captured : option Time) (now : Time) : Time :=
  let from := match captured with
              | Some c => if after c (now + clockSkewTolerance) then zero_time else c
              | None => zero_time
              end in
  match ScheduleActivatedAt a with
  | Some activated =>
    if after activated (now + clockSkewTolerance) then from
    else let activation := activated - Nanosecond in
         if is_zero from || after activation from then activation else from
  | None => from
  end.

Definition firstOutstandingDue (a : Assignment) (captured : option Time) (now : Time) (grace : Duration) : option Time :=
  let from := outstandingFrom a captured now in
  if is_zero from then latestDue (AssignmentSchedule a) (now - grace - Nanosecond)
  else match PreviewSchedule (AssignmentSchedule a) from 1 with
       | Ok (next :: _) => if after next now then None else Some next
       | _ => None
       end.

(** ** Occurrences *)

(** The occurrences of a schedule: the multiples of an interval, or the instant
    [time.Date] gives for a day and the time of day, when it shows that time of
    day, on the weekday of a weekly schedule. *)
Definition occurrence (s : Schedule) (t : Time) : Prop :=
  if str_eqb (Frequency s) "interval" then ∃ k, t = k * (IntervalHours s * Hour)
  else ∃ h m, parse_hhmm (ScheduleTime s) = Some (h, m) ∧
    t = GoTime.date (location s) (local_day (location s) t) (time_of_day h m) ∧
    local_tod (location s) t = time_of_day h m ∧
    (Frequency s = "weekly" → weekday_of (local_day (location s) t) = Weekday s).

Definition calendar (s : Schedule) : Prop := Frequency s = "daily" ∨ Frequency s = "weekly".

Lemma calendar_not_interval s : calendar s → str_eqb (Frequency s) "interval" = false.
Proof. by intros [H|H]; unfold str_eqb; rewrite H. Qed.

(** Hour and minute determine a time of day up to the minute. *)
Lemma tod_of_hour_minute tod h m : 0 <= tod < Day → tod mod Minute = 0 → 0 <= m < 60 →
  tod / Hour = h → tod mod Hour / Minute = m → tod = time_of_day h m.
Proof. unfold time_of_day, Day, Hour, Minute, Second. lia. Qed.

Lemma hour_minute_of_tod h m : 0 <= h < 24 → 0 <= m < 60 →
  time_of_day h m / Hour = h ∧ time_of_day h m mod Hour / Minute = m.
Proof. unfold time_of_day, Hour, Minute, Second. lia. Qed.

Section zone.
Context (s : Schedule) {sane : SaneZone (location s)}.
Local Abbreviation l := (location s).

Lemma date_tod_minutes day h m : local_tod l (GoTime.date l day (time_of_day h m)) mod Minute = 0.
Proof using sane.
  unfold local_tod. destruct (date_wall l day (time_of_day h m) sane) as (sh & _ & Hm & ->).
  unfold time_of_day, Day, Hour, Minute, Second. lia.
Qed.

Lemma date_day_near day h m : 0 <= h < 24 → 0 <= m < 60 →
  day - 1 <= local_day l (GoTime.date l day (time_of_day h m)) <= day + 1.
Proof using sane.
  intros Hh Hm. unfold local_day. destruct (date_wall l day (time_of_day h m) sane) as (sh & Hb & _ & ->).
  unfold time_of_day, Day, Hour, Minute, Second. lia.
Qed.

#[local] Opaque GoTime.date civil local_day local_tod weekday_of.

(** [calendarOccurrence] computes the occurrence on the day of its argument. *)
Lemma calendarOccurrence_iff date c : calendar s →
  calendarOccurrence s date = Some c ↔ occurrence s c ∧ local_day l c = local_day l date.
Proof using sane.
  intros Hc. unfold calendarOccurrence, occurrence. rewrite (calendar_not_interval s Hc).
  destruct (parse_hhmm (ScheduleTime s)) as [[h m]|] eqn:Ep; [|naive_solver].
  destruct (parse_hhmm_range _ _ _ Ep) as [Hh Hm]. set (k := GoTime.date l (local_day l date) (time_of_day h m)).
  split.
  - intros H. destruct (_ || _ || _) eqn:E1; [done|]. destruct (_ && _) eqn:E2; [done|]. injection H as <-.
    apply orb_false_iff in E1 as [[E1 E3]%orb_false_iff E4].
    apply negb_false_iff, Z.eqb_eq in E1, E3, E4.
    assert (local_day l k = local_day l date) as Hd.
    { unfold day_of_month in E4. pose proof (date_day_near (local_day l date) h m Hh Hm) as Hn. fold k in Hn.
      destruct (Z.le_gt_cases (local_day l k) (local_day l date)).
      - apply civil_day_unique; [done|lia].
      - symmetry. apply civil_day_unique; [done|lia]. }
    split; [|done]. exists h, m. split; [done|]. split; [by rewrite Hd|]. split.
    + apply tod_of_hour_minute; [apply local_tod_range|apply date_tod_minutes|done..].
    + intros Hw. unfold str_eqb in E2. rewrite bool_decide_true in E2 by done.
      by apply negb_false_iff, Z.eqb_eq in E2.
  - intros [(h' & m' & [= <- <-] & Hk & Ht & Hw) Hd]. rewrite Hd in Hk. fold k in Hk. subst c.
    destruct (hour_minute_of_tod h m Hh Hm) as [E1 E2]. unfold hour, minute. rewrite Ht, E1, E2, !Z.eqb_refl.
    unfold day_of_month. rewrite Hd, Z.eqb_refl. cbn. unfold str_eqb. case_bool_decide as E; [|done].
    by rewrite <- Hd, Hw, Z.eqb_refl.
Qed.

Lemma occurrence_tod c : calendar s → occurrence s c → ∃ h m,
  parse_hhmm (ScheduleTime s) = Some (h, m) ∧ local_tod l c = time_of_day h m ∧
  c = GoTime.date l (local_day l c) (time_of_day h m).
Proof using.
  unfold occurrence. intros Hc. rewrite (calendar_not_interval s Hc). naive_solver.
Qed.

(** A day has at most one occurrence, and occurrences are ordered as their days. *)
Lemma occurrence_day_unique c1 c2 : calendar s → occurrence s c1 → occurrence s c2 →
  local_day l c1 = local_day l c2 → c1 = c2.
Proof using.
  intros Hc (h & m & Hp & _ & H1)%(occurrence_tod _ Hc) (h' & m' & Hp' & _ & H2)%(occurrence_tod _ Hc) Hd.
  rewrite Hp in Hp'. injection Hp' as <- <-. etrans; [exact H1|]. rewrite Hd. by symmetry.
Qed.

Lemma occurrence_day_lt c1 c2 : calendar s → occurrence s c1 → occurrence s c2 →
  local_day l c1 < local_day l c2 → c1 < c2.
Proof using sane.
  intros Hc (h & m & Hp & T1 & _)%(occurrence_tod _ Hc) (h' & m' & Hp' & T2 & _)%(occurrence_tod _ Hc) Hd.
  rewrite Hp in Hp'. injection Hp' as <- <-. apply (wall_lt_instant l); [done|done|]. by rewrite T1, T2.
Qed.

(** An occurrence is found on its own day, and is due when it occurs. *)
Lemma latestFrom_now t n : calendar s → occurrence s t → latestFrom s t (S n) 0 = Some t.
Proof using sane.
  intros Hc Ho. destruct (occurrence_tod t Hc Ho) as (h & m & Hp & Ht & Hd). cbn [latestFrom].
  assert (add_days l t (- 0) = t) as ->.
  { unfold add_days. rewrite Ht. replace (local_day l t + - 0) with (local_day l t) by lia. symmetry. exact Hd. }
  rewrite (proj2 (calendarOccurrence_iff t t Hc)) by done. unfold after. by rewrite Z.ltb_irrefl.
Qed.

#[local] Opaque latestFrom.

Lemma latestDue_at_occurrence t : calendar s → validateSchedule s = Ok tt → occurrence s t → latestDue s t = Some t.
Proof using sane.
  intros Hc Hv Ho. unfold latestDue. rewrite Hv, (calendar_not_interval s Hc).
  assert (str_in (Frequency s) ["manual"; ""] = false) as ->.
  { unfold str_in. apply bool_decide_eq_false. destruct Hc as [->| ->]; set_solver. }
  cbn [negb is_ok orb]. exact (latestFrom_now t 14 Hc Ho).
Qed.

#[local] Transparent latestFrom.

(** ** The loops *)

Section loops.
Context {cal : CalendarZone (location s)} (Hcal : calendar s).

Lemma latestFrom_spec now n d :
  match latestFrom s now n d with
  | Some c => occurrence s c ∧ c <= now ∧
      ∀ u, occurrence s u → u <= now → local_day l u <= local_day l now - d → local_day l u <= local_day l c
  | None => ∀ u, occurrence s u → u <= now → local_day l u <= local_day l now - d → local_day l u <= local_day l now - d - Z.of_nat n
  end.
Proof using sane cal Hcal.
  revert d. induction n as [|n IH]; cbn [latestFrom]; intros d; [intros; lia|].
  set (date := add_days l now (- d)). assert (local_day l date = local_day l now - d) as Hd by (unfold date; by rewrite add_days_day).
  (* an occurrence of that day that is not after [now] would be the candidate *)
  assert (∀ u, occurrence s u → u <= now → local_day l u = local_day l date →
    calendarOccurrence s date = Some u) as Hu by (intros u ???; by apply calendarOccurrence_iff).
  specialize (IH (d + 1)). destruct (calendarOccurrence s date) as [c|] eqn:E.
  - pose proof E as [Ho Hday]%calendarOccurrence_iff; [|done]. unfold after. destruct (Z.ltb_spec now c).
    + destruct (latestFrom s now n (d + 1)); [destruct IH as (? & ? & IH); split_and!; [done|done|]|];
        intros u Hou Hun Hud; destruct (decide (local_day l u = local_day l date)) as [Eq|];
        try (specialize (Hu u Hou Hun Eq); simplify_eq; lia); specialize (IH u Hou Hun); lia.
    + split_and!; [done|done|]. intros. lia.
  - destruct (latestFrom s now n (d + 1)); [destruct IH as (? & ? & IH); split_and!; [done|done|]|];
      intros u Hou Hun Hud; destruct (decide (local_day l u = local_day l date)) as [Eq|];
      try (by specialize (Hu u Hou Hun Eq)); specialize (IH u Hou Hun); lia.
Qed.

Lemma previewFrom_spec from count n d :
  let occs := previewFrom s from count n d in
  StronglySorted Z.lt occs ∧ (length occs ≤ count)%nat ∧
  (∀ t, t ∈ occs → occurrence s t ∧ from < t ∧ local_day l from + d <= local_day l t) ∧
  (∀ t, occurrence s t → from < t → local_day l from + d <= local_day l t < local_day l from + d + Z.of_nat n →
     t ∈ occs ∨ (length occs = count ∧ ∀ u, u ∈ occs → u < t)).
Proof using sane cal Hcal.
  revert count d. induction n as [|n IH]; intros count d.
  - cbn. split_and!; [constructor|lia|set_solver|intros; lia].
  - destruct count as [|count]; [cbn; split_and!; [constructor|lia|set_solver|]; intros; right; split; [done|set_solver]|].
    cbn [previewFrom]. set (date := add_days l from d).
    assert (local_day l date = local_day l from + d) as Hd by (unfold date; by rewrite add_days_day).
    assert (∀ u, occurrence s u → local_day l u = local_day l date →
      calendarOccurrence s date = Some u) as Hu by (intros u ??; by apply calendarOccurrence_iff).
    assert (∀ count, let occs := previewFrom s from count n (d + 1) in
      (∀ t, t ∈ occs → occurrence s t ∧ from < t ∧ local_day l from + d + 1 <= local_day l t)) as Hlater.
    { intros k occs t Ht. destruct (IH k (d + 1)) as (_ & _ & H & _). specialize (H t Ht). naive_solver lia. }
    destruct (calendarOccurrence s date) as [c|] eqn:E.
    + pose proof E as [Ho Hday]%calendarOccurrence_iff; [|done]. unfold after. destruct (Z.ltb_spec from c) as [Hlt|Hge].
      * destruct (IH count (d + 1)) as (H1 & H2 & H3 & H4). specialize (Hlater count).
        set (occs := previewFrom s from count n (d + 1)) in *.
        assert (Forall (Z.lt c) occs) as Hf.
        { apply Forall_forall. intros u Hin%Hlater. apply occurrence_day_lt; [done..| |]; [apply Hin|lia]. }
        split_and!; [by constructor|cbn; lia| |].
        -- intros t [->|Ht]%elem_of_cons; [split_and!; [done|done|lia]|]. destruct (Hlater t Ht) as (? & ? & ?). split_and!; [done|done|lia].
        -- intros t Hot Hft Hdt. destruct (decide (local_day l t = local_day l date)) as [Eq|].
           ++ specialize (Hu t Hot Eq). simplify_eq. left. by left.
           ++ destruct (H4 t Hot Hft ltac:(lia)) as [|[Hl Hall]]; [left; by right|right].
              split; [cbn; by rewrite Hl|]. intros u [->|Hin]%elem_of_cons; [|by apply Hall].
              apply occurrence_day_lt; [done..|lia].
      * destruct (IH (S count) (d + 1)) as (H1 & H2 & H3 & H4). specialize (Hlater (S count)).
        split_and!; [done|done| |].
        -- intros t Ht. destruct (Hlater t Ht) as (? & ? & ?). split_and!; [done|done|lia].
        -- intros t Hot Hft Hdt. apply H4; [done|done|]. destruct (decide (local_day l t = local_day l date)) as [Eq|]; [|lia].
           specialize (Hu t Hot Eq). simplify_eq. lia.
    + destruct (IH (S count) (d + 1)) as (H1 & H2 & H3 & H4). specialize (Hlater (S count)).
      split_and!; [done|done| |].
      * intros t Ht. destruct (Hlater t Ht) as (? & ? & ?). split_and!; [done|done|lia].
      * intros t Hot Hft Hdt. apply H4; [done|done|]. destruct (decide (local_day l t = local_day l date)) as [Eq|]; [|lia].
        by specialize (Hu t Hot Eq).
Qed.
End loops.
End zone.

#[local] Opaque latestFrom previewFrom.

(** ** Intervals *)

Lemma interval_valid s : Frequency s = "interval" → validateSchedule s = Ok tt → 1 <= IntervalHours s <= 168.
Proof using.
  intros Hf. unfold validateSchedule, str_in, str_eqb. rewrite Hf.
  rewrite bool_decide_false by set_solver. rewrite bool_decide_true by done.
  unfold guard_err. destruct (_ || _) eqn:E; [done|]. boolify. lia.
Qed.

Lemma interval_latest ih now k : 1 <= ih → 0 <= now →
  let due := Z.quot (unix now) (ih * 3600) * (ih * 3600) * Second in
  due <= now ∧ due = Z.quot (unix now) (ih * 3600) * (ih * Hour) ∧
  (k * (ih * Hour) <= now → k * (ih * Hour) <= due).
Proof using.
  intros Hi Hn. assert (0 <= unix now) by (unfold unix, Second; lia).
  rewrite Z.quot_div_nonneg by lia. set (q := unix now / (ih * 3600)).
  assert (q * (ih * 3600) <= unix now < (q + 1) * (ih * 3600)) as Hq.
  { unfold q. pose proof (Z.mod_pos_bound (unix now) (ih * 3600) ltac:(lia)).
    pose proof (Z.div_mod (unix now) (ih * 3600) ltac:(lia)). lia. }
  assert (unix now * Second <= now < (unix now + 1) * Second) as Hu by (unfold unix, Second; lia).
  cbn zeta. split; [unfold Second in *; lia|]. split; [unfold Hour, Minute, Second; lia|].
  intros Hk. assert (k <= q); [|unfold Hour, Minute, Second in *; nia].
  apply Z.nlt_ge. intros Hlt. assert ((q + 1) * (ih * 3600) <= k * (ih * 3600)) by (apply Z.mul_le_mono_nonneg_r; lia).
  unfold Hour, Minute, Second in *. lia.
Qed.

Lemma schedule_kinds s : validateSchedule s = Ok tt →
  Frequency s ∈ ["manual"; ""] ∨ (Frequency s = "interval" ∧ 1 <= IntervalHours s <= 168) ∨
  (calendar s ∧ str_in (Frequency s) ["manual"; ""] = false).
Proof using.
  intros Hv. destruct (decide (Frequency s ∈ ["manual"; ""])) as [|Hm]; [by left|right].
  destruct (decide (Frequency s = "interval")) as [Hi|Hi]; [left; split; [done|by apply interval_valid]|right].
  split; [|by apply bool_decide_eq_false]. unfold validateSchedule, str_in, str_eqb in Hv.
  rewrite bool_decide_false in Hv by set_solver. rewrite bool_decide_false in Hv by done.
  unfold calendar. destruct (bool_decide (Frequency s ∈ ["daily"; "weekly"])) eqn:Hd; [apply bool_decide_eq_true in Hd; set_solver|done].
Qed.

Lemma latestDue_cases s now : validateSchedule s = Ok tt →
  latestDue s now = if str_in (Frequency s) ["manual"; ""] then None
    else if str_eqb (Frequency s) "interval" then
      Some (Z.quot (unix now) (IntervalHours s * 3600) * (IntervalHours s * 3600) * Second)
    else latestFrom s now 15 0.
Proof using. intros Hv. unfold latestDue. rewrite Hv. cbn. by destruct (str_in _ _). Qed.

Lemma interval_occurrence s t : Frequency s = "interval" → occurrence s t ↔ ∃ k, t = k * (IntervalHours s * Hour).
Proof using. intros Hi. unfold occurrence, str_eqb. rewrite Hi. by rewrite bool_decide_true. Qed.

Lemma floor_mul_max w k j n : 0 < w → k * w <= n < (k + 1) * w → j * w <= n → j <= k.
Proof using. intros Hw Hk Hj. assert (j < k + 1); [|lia]. apply (Z.mul_lt_mono_pos_r w); lia. Qed.

(** The due occurrence of an interval is the last multiple. *)
Lemma interval_due s now : Frequency s = "interval" → validateSchedule s = Ok tt → 0 <= now →
  ∃ k, let w := IntervalHours s * Hour in
    0 < w ∧ latestDue s now = Some (k * w) ∧ k * w <= now < (k + 1) * w.
Proof using.
  intros Hi Hv Hn. pose proof (interval_valid s Hi Hv). rewrite latestDue_cases by done.
  unfold str_in, str_eqb. rewrite Hi. rewrite (bool_decide_false (_ ∈ _)), bool_decide_true by set_solver.
  set (k := Z.quot (unix now) (IntervalHours s * 3600)). exists k.
  destruct (interval_latest (IntervalHours s) now (k + 1) ltac:(lia) Hn) as (H1 & H2 & H3).
  fold k in H1, H2, H3. cbn zeta. rewrite H2 in *. set (w := IntervalHours s * Hour) in *.
  assert (0 < w) by (unfold w, Hour, Minute, Second; lia). split_and!; [done|done|done|nia].
Qed.

(** ** Properties *)

(** [latestDue] is the latest occurrence that is not in the future; when it
    returns none, the schedule is manual or has had no occurrence for 15 days.
    The zone may change its offset, but not across midnight. *)
Theorem latestDue_latest s now : CalendarZone (location s) → validateSchedule s = Ok tt → 0 <= now →
  match latestDue s now with
  | Some due => occurrence s due ∧ due <= now ∧ ∀ t, occurrence s t → t <= now → t <= due
  | None => Frequency s ∈ ["manual"; ""] ∨
      ∀ t, occurrence s t → t <= now → local_day (location s) t <= local_day (location s) now - 15
  end.
Proof.
  intros C Hv Hn. rewrite latestDue_cases by done.
  destruct (schedule_kinds s Hv) as [Hm|[[Hi Hb]|[Hc ->]]].
  - unfold str_in. rewrite bool_decide_true by done. by left.
  - rewrite <- latestDue_cases by done. destruct (interval_due s now Hi Hv Hn) as (k & Hw & -> & Hk).
    split; [apply interval_occurrence; eauto|]. split; [lia|]. intros t [j ->]%(interval_occurrence _ _ Hi) Hj.
    apply Z.mul_le_mono_nonneg_r; [lia|]. by eapply floor_mul_max.
  - rewrite (calendar_not_interval s Hc). pose proof (latestFrom_spec s Hc now 15 0) as H.
    destruct (latestFrom s now 15 0) as [due|].
    + destruct H as (Ho & Hd & Hl). split_and!; [done|done|]. intros t Hot Ht.
      pose proof (zone_day_mono t now Ht) as Hm. specialize (Hl t Hot Ht ltac:(lia)).
      destruct (decide (local_day (location s) t = local_day (location s) due)) as [E|].
      * by rewrite (occurrence_day_unique s t due Hc Hot Ho E).
      * pose proof (occurrence_day_lt s t due Hc Hot Ho). lia.
    + right. intros t Hot Ht. pose proof (zone_day_mono t now Ht). specialize (H t Hot Ht). lia.
Qed.

(** The preview without the argument checks. *)
Lemma PreviewSchedule_Ok s from count occs : PreviewSchedule s from count = Ok occs →
  validateSchedule s = Ok tt ∧ 1 <= count <= 10 ∧
  ((Frequency s ∈ ["manual"; ""] ∧ occs = []) ∨
   (Frequency s = "interval" ∧ 1 <= IntervalHours s <= 168 ∧ ∃ due, latestDue s from = Some due ∧
      occs = (λ i, due + Z.of_nat i * (IntervalHours s * Hour)) <$> List.seq 1 (Z.to_nat count)) ∨
   (calendar s ∧ occs = previewFrom s from (Z.to_nat count) 100 0)).
Proof using.
  unfold PreviewSchedule. intros H. res_inv H. destruct a. split; [done|].
  unfold guard_err in E0. destruct (_ || _) eqn:Eb in E0; [done|]. boolify. split; [lia|].
  destruct (schedule_kinds s E) as [Hm|[[Hi Hb]|[Hc Hm]]].
  - left. split; [done|]. unfold str_in in H. rewrite bool_decide_true in H by done. by injection H as <-.
  - right. left. split; [done|]. split; [done|]. rewrite latestDue_cases in * by done.
    unfold str_in, str_eqb in *. rewrite Hi in H |- *. rewrite (bool_decide_false (_ ∈ _)) in H |- * by set_solver.
    rewrite bool_decide_true in H |- * by done. injection H as <-. eexists. split; [done|]. done.
  - right. right. rewrite Hm, (calendar_not_interval s Hc) in H. split; [exact Hc|exact (eq_sym (Ok_inj _ _ H))].
Qed.

(** [n] consecutive multiples of [w] after [k * w]. *)
Lemma multiples_sorted due w n j : 0 < w →
  StronglySorted Z.lt ((λ i, due + Z.of_nat i * w) <$> List.seq j n).
Proof using.
  intros Hw. revert j. induction n as [|n IH]; intros j; cbn; constructor; [apply IH|].
  apply Forall_forall. intros x (i & -> & Hi)%list_elem_of_fmap. apply list_elem_of_In, in_seq in Hi. nia.
Qed.

Lemma interval_preview k w n from t : 0 < w → k * w <= from < (k + 1) * w →
  let occs := (λ i, k * w + Z.of_nat i * w) <$> List.seq 1 n in
  (∀ u, u ∈ occs → from < u ∧ ∃ j, u = j * w) ∧
  ((∃ j, t = j * w) → from < t → t ∈ occs ∨ (length occs = n ∧ ∀ u, u ∈ occs → u < t)).
Proof using.
  intros Hw Hk occs. split.
  - intros u (i & -> & Hi)%list_elem_of_fmap. apply list_elem_of_In, in_seq in Hi.
    split; [nia|]. exists (k + Z.of_nat i). lia.
  - intros [j ->] Hj. assert (k < j) as Hlt by nia. destruct (decide (j <= k + Z.of_nat n)) as [Hle|Hgt]; [left|right].
    + apply list_elem_of_fmap. exists (Z.to_nat (j - k)). split; [rewrite Z2Nat.id by lia; lia|].
      apply list_elem_of_In, in_seq. lia.
    + split; [unfold occs; by rewrite length_fmap, length_seq|].
      intros u (i & -> & Hi)%list_elem_of_fmap. apply list_elem_of_In, in_seq in Hi. nia.
Qed.

(** the preview lists the next occurrences: they are in order, after [from],
    and none is left out (within the hundred days that are searched); and the
    preview agrees with the scheduler: at every listed instant, that occurrence is
    the one that is due. *)
Theorem PreviewSchedule_next s from count occs :
  CalendarZone (location s) → 0 <= from → PreviewSchedule s from count = Ok occs →
  StronglySorted Z.lt occs ∧ Z.of_nat (length occs) <= count ∧
  (∀ t, t ∈ occs → occurrence s t ∧ from < t ∧ latestDue s t = Some t) ∧
  (Frequency s ∉ ["manual"; ""] → ∀ t, occurrence s t → from < t →
     (calendar s → local_day (location s) t < local_day (location s) from + 100) →
     t ∈ occs ∨ (Z.of_nat (length occs) = count ∧ ∀ u, u ∈ occs → u < t)).
Proof.
  intros C Hf (Hv & Hn & [[Hm ->]|[(Hi & Hb & due & Hd & ->)|[Hc ->]]])%PreviewSchedule_Ok.
  - split_and!; [constructor|cbn; lia|set_solver|done].
  - destruct (interval_due s from Hi Hv Hf) as (k & Hw & Hd' & Hk). rewrite Hd in Hd'. injection Hd' as ->.
    set (w := IntervalHours s * Hour) in *.
    pose proof (λ t, interval_preview k w (Z.to_nat count) from t Hw Hk) as Hp. cbn zeta in Hp.
    split_and!; [by apply multiples_sorted|rewrite length_fmap, length_seq; lia| |].
    + intros t [Ht [j ->]]%(proj1 (Hp 0)). split; [by apply interval_occurrence; eauto|]. split; [done|].
      destruct (interval_due s (j * w) Hi Hv ltac:(lia)) as (k' & _ & -> & Hk'). fold w in Hk' |- *. do 2 f_equal.
      pose proof (floor_mul_max w k' j (j * w) Hw Hk' ltac:(lia)). destruct Hk'. assert (k' <= j); [|lia].
      by apply (Z.mul_le_mono_pos_r _ _ w).
    + intros _ t [j ->]%(interval_occurrence _ _ Hi) Ht _.
      destruct (proj2 (Hp (j * w)) ltac:(eauto) Ht) as [|[Hl Hall]]; [by left|right].
      split; [rewrite length_fmap, length_seq; lia|exact Hall].
  - destruct (previewFrom_spec s Hc from (Z.to_nat count) 100 0) as (H1 & H2 & H3 & H4).
    split_and!; [done|lia| |].
    + intros t Ht. destruct (H3 t Ht) as (Ho & Hlt & _). split_and!; [done|done|]. by apply latestDue_at_occurrence; [apply _|..].
    + intros _ t Ho Ht Hday. pose proof (zone_day_mono from t ltac:(lia)). specialize (Hday Hc).
      destruct (H4 t Ho Ht ltac:(lia)) as [|[Hl Hall]]; [by left|right]. split; [lia|done].
Qed.
(** A watermark is trusted when it is not beyond the clock skew. *)
Definition trusted (now : Time) (t : option Time) : Prop := ∀ u, t = Some u → u <= now + clockSkewTolerance.

Lemma outstandingFrom_trusted a captured now now' : now <= now' →
  trusted now captured → trusted now (ScheduleActivatedAt a) →
  outstandingFrom a captured now' = outstandingFrom a captured now.
Proof using.
  intros Hn Hc Ha. assert (∀ o m u, trusted now o → o = Some u → now <= m → after u (m + clockSkewTolerance) = false) as Hs.
  { intros o m u Ho Eu Hm. apply Z.ltb_ge. specialize (Ho u Eu). lia. }
  unfold outstandingFrom. destruct captured as [c|], (ScheduleActivatedAt a) as [x|] eqn:E;
    rewrite ?(Hs (Some c) now c), ?(Hs (Some c) now' c), ?(Hs (Some x) now x), ?(Hs (Some x) now' x) by (done || lia); done.
Qed.

Lemma outstandingFrom_bounds a captured now :
  let from := outstandingFrom a captured now in
  trusted now captured → trusted now (ScheduleActivatedAt a) → 0 <= from →
  (∀ c, captured = Some c → c <= from) ∧ (∀ x, ScheduleActivatedAt a = Some x → x <= from + 1).
Proof using.
  unfold outstandingFrom, trusted, after, is_zero, zero_time, Nanosecond, Second. cbn zeta. intros Hc Ha.
  destruct captured as [c|]; [specialize (Hc c eq_refl); rewrite (proj2 (Z.ltb_ge _ c)) by done|];
    (destruct (ScheduleActivatedAt a) as [x|]; [specialize (Ha x eq_refl); rewrite (proj2 (Z.ltb_ge _ x)) by done|]);
    intros Hf; split; intros ? [= <-]; repeat case_match; boolify; lia.
Qed.

(** the first outstanding occurrence is the first one after the last capture
    (and not before the activation) that has come; a capture at or after it
    satisfies it; and while nothing is captured, the passing of time never moves
    the deadline forward. *)
Theorem firstOutstandingDue_first a captured now grace t :
  let s := AssignmentSchedule a in
  let from := outstandingFrom a captured now in
  CalendarZone (location s) → 0 <= from →
  trusted now captured → trusted now (ScheduleActivatedAt a) →
  firstOutstandingDue a captured now grace = Some t →
  occurrence s t ∧ t <= now ∧ from < t ∧
  (∀ c, captured = Some c → c < t) ∧ (∀ x, ScheduleActivatedAt a = Some x → x <= t) ∧
  (∀ u, occurrence s u → from < u → (calendar s → local_day (location s) u < local_day (location s) from + 100) → t <= u) ∧
  (∀ now', now <= now' → firstOutstandingDue a captured now' grace = Some t).
Proof.
  intros s from C Hf Hc Ha. unfold firstOutstandingDue at 1. fold s from.
  assert (is_zero from = false) as Hz by (apply Z.eqb_neq; unfold zero_time, Second; lia). rewrite Hz.
  destruct (PreviewSchedule s from 1) as [[|next rest]|] eqn:Ep; [done| |done].
  unfold after. destruct (Z.ltb_spec now next) as [|Hle]; [done|]. intros [= ->].
  destruct (PreviewSchedule_next s from 1 _ C Hf Ep) as (_ & Hlen & Hin & Hall).
  destruct (Hin t ltac:(by left)) as (Ho & Hlt & _).
  assert (rest = []) as -> by (destruct rest; [done|cbn in Hlen; lia]).
  assert (Frequency s ∉ ["manual"; ""]) as Hm.
  { intros Hm. unfold PreviewSchedule in Ep. res_inv Ep. unfold str_in in Ep. by rewrite bool_decide_true in Ep. }
  split_and!; [done|done|done| | | |].
  - intros c Ec. pose proof (outstandingFrom_bounds a captured now Hc Ha Hf) as [H _]. specialize (H c Ec). fold from in H. lia.
  - intros x Ex. pose proof (outstandingFrom_bounds a captured now Hc Ha Hf) as [_ H]. specialize (H x Ex). fold from in H. lia.
  - intros u Hou Hfu Hd. destruct (Hall Hm u Hou Hfu Hd) as [->%list_elem_of_singleton|[_ Hu]]; [lia|].
    specialize (Hu t ltac:(by left)). lia.
  - intros now' Hn. unfold firstOutstandingDue. rewrite (outstandingFrom_trusted a captured now now') by done.
    fold s from. rewrite Hz, Ep. unfold after. by rewrite (proj2 (Z.ltb_ge _ _)) by lia.
Qed.
End schedule.

(** ** Concrete runs *)

Definition demoZones (name : string) : option Location :=
  if str_eqb name "Europe/Warsaw" then Some demoEurope
  else if str_eqb name "America/Santiago" then Some demoChile else None.

Definition demoDaily : Schedule := mkSchedule "daily" "02:30" 0 "Europe/Warsaw" 0.
(** Half an hour before the clock change of March 31, 2024, 01:30 local time. *)
Definition demoNow : Time := 1711846800 * Second - 30 * Minute.

(** 02:30 does not exist on March 31: the due occurrence is the one of March 30,
    and the preview goes on with April 1. *)
Example demo_gap_skipped :
  latestDue demoZones UTC demoDaily (demoNow + 12 * Hour) = Some (1711846800 * Second - 30 * Minute - 23 * Hour) ∧
  PreviewSchedule demoZones UTC demoDaily demoNow 2
    = Ok [1711846800 * Second + 23 * Hour + 30 * Minute; 1711846800 * Second + 47 * Hour + 30 * Minute].
Proof. by vm_compute. Qed.

Lemma latestDue_latest_witness : ∃ due, latestDue demoZones UTC demoDaily demoNow = Some due ∧
  occurrence demoZones UTC demoDaily due ∧ due <= demoNow.
Proof.
  pose proof (latestDue_latest demoZones UTC demoDaily demoNow demoEurope_calendar ltac:(by vm_compute) ltac:(by vm_compute)) as H.
  destruct (latestDue demoZones UTC demoDaily demoNow) as [due|] eqn:E; [|by vm_compute in E].
  destruct H as (Ho & Hd & _). exists due. split_and!; [reflexivity|exact Ho|exact Hd].
Defined.

Lemma PreviewSchedule_next_witness : ∃ occs, PreviewSchedule demoZones UTC demoDaily demoNow 2 = Ok occs ∧
  StronglySorted Z.lt occs.
Proof.
  destruct (PreviewSchedule demoZones UTC demoDaily demoNow 2) as [occs|] eqn:E; [|by vm_compute in E].
  exists occs. split; [reflexivity|].
  apply (PreviewSchedule_next demoZones UTC demoDaily demoNow 2 occs demoEurope_calendar); [by vm_compute|exact E].
Defined.

Definition demoAssignment : Assignment :=
  mkAssignment "dest_1" true demoDaily (mkRetention 7 4 6) None (Some (demoNow - 48 * Hour)).

Lemma firstOutstandingDue_first_witness :
  ∃ t, firstOutstandingDue demoZones UTC demoAssignment (Some (demoNow - 30 * Hour)) demoNow Hour = Some t ∧
    ∀ now', demoNow <= now' →
      firstOutstandingDue demoZones UTC demoAssignment (Some (demoNow - 30 * Hour)) now' Hour = Some t.
Proof.
  destruct (firstOutstandingDue demoZones UTC demoAssignment (Some (demoNow - 30 * Hour)) demoNow Hour) as [t|] eqn:E;
    [|by vm_compute in E].
  exists t. split; [reflexivity|].
  apply (firstOutstandingDue_first demoZones UTC demoAssignment (Some (demoNow - 30 * Hour)) demoNow Hour t demoEurope_calendar).
  - by vm_compute.
  - intros u [= <-]. by vm_compute.
  - intros u [= <-]. by vm_compute.
  - exact E.
Defined.

(** Where the clock changes at midnight, [AddDate] can land on the day before.
    In Chile on September 7, 2024 at 00:30 the preview of a daily schedule lists
    noon of September 7 twice and leaves out September 8; and on September 9 at
    00:30 the occurrence of September 7 is due, not the one of September 8. *)
Lemma midnight_change_repeats :
  let s := mkSchedule "daily" "12:00" 0 "America/Santiago" 0 in
  let noon7 := 1725724800 * Second in
  let noon8 := 1725807600 * Second in
  let noon9 := 1725894000 * Second in
  occurrence demoZones UTC s noon8 ∧
  PreviewSchedule demoZones UTC s (1725683400 * Second) 3 = Ok [noon7; noon7; noon9] ∧
  latestDue demoZones UTC s (1725852600 * Second) = Some noon7.
Proof.
  cbn zeta. split; [|by vm_compute]. unfold occurrence. cbn. exists 12, 0. split; [by vm_compute|]. split; [by vm_compute|].
  split; [by vm_compute|done].
Qed.
