(* ===== verification/BackupEvidence.v ===== *)
(** * internal/backup/check_evidence.go: durable evidence of repository checks

    What is known about the integrity of a repository: the last complete
    metadata and data evidence, an unresolved hold, the latest attempt, and the
    token an operator must present to prune a repository whose evidence is bad.
    [fingerprint] stands for the hexadecimal SHA-256 of the JSON text of the
    unresolved condition. *)

From stdpp Require Import gmap strings list relations countable.
From Stdlib Require Import ZArith.
From S2P Require Import Prelude GoStrings GoTime BackupSchedule.

Local Open Scope Z_scope.

(** ** Data (internal/backup/types.go) *)

Record CheckEvidence := mkEvidence {
  ev_status : string; ev_scope : string; ev_checked_at : option Time; ev_message : string }.
Definition zeroEvidence : CheckEvidence := mkEvidence "" "" None "".

Record CheckHold := mkHold { hold_scope : string; hold_checked_at : option Time; hold_error : string }.

(** The fields of [Destination] that the modelled operations read or write. *)
Record Destination := mkDestination {
  d_id : string; d_name : string; d_kind : string; d_repository : string;
  MetadataCheck : CheckEvidence; DataCheck : CheckEvidence; CheckHolds : option CheckHold;
  MaintenanceReviewToken : string;
  LastCheckAttemptAt : option Time; LastCheckAttemptPolicy : string;
  LastCheckAttemptStatus : string; LastCheckAttemptError : string;
  LastCheckAt : option Time; LastCheckPolicy : string;
  CheckStatus : string; CheckError : string;
  CheckSchedule : Schedule; PruneSchedule : Schedule; CheckReadData : string;
  LastCheckScheduledAt : option Time; LastPruneScheduledAt : option Time;
  LastRestoreTestAt : option Time; LastRestoreTestSnapshotID : string;
  d_status : string; d_error : string; InventoryError : string;
  LastInventoryAt : option Time; LastInventoryAttemptAt : option Time;
  LastSuccessAt : option Time; ExpectedFilesystem : string; Region : string; CredentialsConfigured : bool }.

Definition zeroDestination : Destination :=
  mkDestination "" "" "" "" zeroEvidence zeroEvidence None "" None "" "" "" None "" "" ""
    (mkSchedule "" "" 0 "" 0) (mkSchedule "" "" 0 "" 0) "" None None None "" "" "" "" None None None "" "" false.

Definition with_checks (d : Destination) (metadata data : CheckEvidence) (hold : option CheckHold) : Destination :=
  mkDestination (d_id d) (d_name d) (d_kind d) (d_repository d) metadata data hold (MaintenanceReviewToken d)
    (LastCheckAttemptAt d) (LastCheckAttemptPolicy d) (LastCheckAttemptStatus d) (LastCheckAttemptError d)
    (LastCheckAt d) (LastCheckPolicy d) (CheckStatus d) (CheckError d) (CheckSchedule d) (PruneSchedule d)
    (CheckReadData d) (LastCheckScheduledAt d) (LastPruneScheduledAt d) (LastRestoreTestAt d)
    (LastRestoreTestSnapshotID d) (d_status d) (d_error d) (InventoryError d)
    (LastInventoryAt d) (LastInventoryAttemptAt d) (LastSuccessAt d) (ExpectedFilesystem d) (Region d) (CredentialsConfigured d).

Definition with_attempt (d : Destination) (at_ : option Time) (policy status error : string) : Destination :=
  mkDestination (d_id d) (d_name d) (d_kind d) (d_repository d) (MetadataCheck d) (DataCheck d) (CheckHolds d)
    (MaintenanceReviewToken d) at_ policy status error
    (LastCheckAt d) (LastCheckPolicy d) (CheckStatus d) (CheckError d) (CheckSchedule d) (PruneSchedule d)
    (CheckReadData d) (LastCheckScheduledAt d) (LastPruneScheduledAt d) (LastRestoreTestAt d)
    (LastRestoreTestSnapshotID d) (d_status d) (d_error d) (InventoryError d)
    (LastInventoryAt d) (LastInventoryAttemptAt d) (LastSuccessAt d) (ExpectedFilesystem d) (Region d) (CredentialsConfigured d).

Definition with_last_check (d : Destination) (at_ : option Time) (policy : string) : Destination :=
  mkDestination (d_id d) (d_name d) (d_kind d) (d_repository d) (MetadataCheck d) (DataCheck d) (CheckHolds d)
    (MaintenanceReviewToken d) (LastCheckAttemptAt d) (LastCheckAttemptPolicy d) (LastCheckAttemptStatus d)
    (LastCheckAttemptError d) at_ policy (CheckStatus d) (CheckError d) (CheckSchedule d) (PruneSchedule d)
    (CheckReadData d) (LastCheckScheduledAt d) (LastPruneScheduledAt d) (LastRestoreTestAt d)
    (LastRestoreTestSnapshotID d) (d_status d) (d_error d) (InventoryError d)
    (LastInventoryAt d) (LastInventoryAttemptAt d) (LastSuccessAt d) (ExpectedFilesystem d) (Region d) (CredentialsConfigured d).

Definition with_aggregate (d : Destination) (status error token : string) : Destination :=
  mkDestination (d_id d) (d_name d) (d_kind d) (d_repository d) (MetadataCheck d) (DataCheck d) (CheckHolds d)
    token (LastCheckAttemptAt d) (LastCheckAttemptPolicy d) (LastCheckAttemptStatus d)
    (LastCheckAttemptError d) (LastCheckAt d) (LastCheckPolicy d) status error (CheckSchedule d) (PruneSchedule d)
    (CheckReadData d) (LastCheckScheduledAt d) (LastPruneScheduledAt d) (LastRestoreTestAt d)
    (LastRestoreTestSnapshotID d) (d_status d) (d_error d) (InventoryError d)
    (LastInventoryAt d) (LastInventoryAttemptAt d) (LastSuccessAt d) (ExpectedFilesystem d) (Region d) (CredentialsConfigured d).

(** The unresolved condition that the review token is computed from. *)
Record condition := mkCondition { cond_scope : string; cond_checked_at : string; cond_error : string }.
Record review := mkReview {
  review_version : Z; review_destination : string;
  review_metadata : option condition; review_data : option condition; review_hold : option condition }.

#[global] Instance condition_eq_dec : EqDecision condition.
Proof. solve_decision. Defined.
#[global] Instance review_eq_dec : EqDecision review.
Proof. solve_decision. Defined.

(** A check that failed: its text, and the code of the [repositoryCommandError]
    in its chain, if there is one. *)
Record check_error := mkCheckError { err_text : string; err_code : option string }.

(** ** Evidence *)

Definition knownNonIntegrityFailure (message : string) : bool :=
  let message := trim_space message in
  existsb (λ code, has_suffix message ("(" +:+ code +:+ ")"))
    ["unavailable"; "timeout"; "cancelled"; "repository_locked"; "repository_missing";
     "credentials_rejected"; "permission_denied"; "storage_full"].

Definition requiredCheckScope (policy : string) : string := if str_eqb policy "metadata" then "metadata" else "all".

Definition laterCheckResolves (successAt : option Time) (successPolicy : string) (failedAt : option Time)
    (requiredScope : string) : bool :=
  match successAt, failedAt with
  | Some s, Some f =>
    if negb (after s f) then false
    else str_eqb successPolicy "all" ||
         (str_eqb requiredScope "metadata" && (str_eqb successPolicy "metadata" || str_eqb successPolicy "subset"))
  | _, _ => false
  end.

Definition failed (e : CheckEvidence) : bool := str_eqb (ev_status e) "failed".

Definition repositoryMaintenanceBlocked (d : Destination) : bool :=
  match CheckHolds d with Some _ => true | None => false end
  || failed (MetadataCheck d) || failed (DataCheck d) || str_eqb (CheckStatus d) "failed".

Section evidence.
Context (fingerprint : review → string).

Definition makeCondition (scope : string) (at_ : option Time) (message : string) : condition :=
  mkCondition scope (match at_ with Some t => rfc3339nano t | None => "" end) message.

Definition reviewOf (d : Destination) : review :=
  let metadata := if failed (MetadataCheck d) then
    Some (makeCondition (ev_scope (MetadataCheck d)) (ev_checked_at (MetadataCheck d)) (ev_message (MetadataCheck d))) else None in
  let data := if failed (DataCheck d) then
    Some (makeCondition (ev_scope (DataCheck d)) (ev_checked_at (DataCheck d)) (ev_message (DataCheck d))) else None in
  let hold := (λ h, makeCondition (hold_scope h) (hold_checked_at h) (hold_error h)) <$> CheckHolds d in
  let data := match metadata, data, hold with
              | None, None, None => Some (makeCondition "unknown" (LastCheckAttemptAt d) (CheckError d))
              | _, _, _ => data
              end in
  mkReview 1 (d_id d) metadata data hold.

Definition repositoryReviewFingerprint (d : Destination) : string :=
  if repositoryMaintenanceBlocked d then fingerprint (reviewOf d) else "".

(** The status and error of the aggregate, then the deferred token. *)
Definition aggregate (d : Destination) : string * string :=
  if failed (DataCheck d) then ("failed", ev_message (DataCheck d))
  else if failed (MetadataCheck d) then ("failed", ev_message (MetadataCheck d))
  else match CheckHolds d with
       | Some h => ("unverified", hold_error h)
       | None =>
         if str_eqb (ev_status (MetadataCheck d)) "verified" || str_eqb (ev_status (DataCheck d)) "verified"
            || str_eqb (ev_status (DataCheck d)) "sampled" then ("verified", "") else ("unknown", "")
       end.

Definition updateAggregateCheckEvidence (d : Destination) : Destination :=
  let d := with_aggregate d (aggregate d).1 (aggregate d).2 (MaintenanceReviewToken d) in
  with_aggregate d (CheckStatus d) (CheckError d) (repositoryReviewFingerprint d).

(** The loops over both pieces of evidence. *)
Definition repairable (e : CheckEvidence) : bool :=
  failed e && str_eqb (ev_scope e) "unknown" && knownNonIntegrityFailure (ev_message e).
Definition repair (e : CheckEvidence) : CheckEvidence := if repairable e then zeroEvidence else e.
Definition orUnknown (s : string) : string := if str_empty s then "unknown" else s.
Definition fillUnknown (e : CheckEvidence) : CheckEvidence :=
  mkEvidence (orUnknown (ev_status e)) (orUnknown (ev_scope e)) (ev_checked_at e) (ev_message e).
Definition missing (e : CheckEvidence) : bool := str_in (ev_status e) [""; "unknown"].

(** The migration of a hold from the historical diagnostic. *)
Definition historicalHold (d : Destination) : bool :=
  match CheckHolds d with Some _ => false | None => true end &&
  str_eqb (LastCheckAttemptStatus d) "failed" &&
  contains (LastCheckAttemptError d) "repository check was inconclusive" &&
  has_suffix (LastCheckAttemptError d) "(operation_failed)" &&
  negb (laterCheckResolves (LastCheckAt d) (LastCheckPolicy d) (LastCheckAttemptAt d)
          (requiredCheckScope (LastCheckAttemptPolicy d))).

(** The steps of [normalizeCheckEvidence], in their order. *)
Definition repairEvidence (d : Destination) : Destination :=
  with_checks d (repair (MetadataCheck d)) (repair (DataCheck d)) (CheckHolds d).

Definition unattributed (d : Destination) : bool :=
  str_eqb (CheckStatus d) "failed" && negb (failed (MetadataCheck d)) && negb (failed (DataCheck d)).

Definition attributeFailure (d : Destination) : Destination :=
  if unattributed d && negb (knownNonIntegrityFailure (CheckError d))
  then with_checks d (MetadataCheck d) (mkEvidence "failed" "unknown" (LastCheckAttemptAt d) (CheckError d)) (CheckHolds d)
  else d.

Definition migrateAttempt (legacyStatus legacyError : string) (d : Destination) : Destination :=
  if str_eqb legacyStatus "failed" && str_empty (LastCheckAttemptStatus d)
  then with_attempt d (LastCheckAttemptAt d) (orUnknown (LastCheckAttemptPolicy d)) "failed" legacyError
  else d.

Definition migrateHold (d : Destination) : Destination :=
  if historicalHold d
  then with_checks d (MetadataCheck d) (DataCheck d)
         (Some (mkHold (requiredCheckScope (LastCheckAttemptPolicy d)) (LastCheckAttemptAt d) (LastCheckAttemptError d)))
  else d.

Definition scopeHold (d : Destination) : Destination :=
  with_checks d (MetadataCheck d) (DataCheck d)
    ((λ h, mkHold (requiredCheckScope (hold_scope h)) (hold_checked_at h) (hold_error h)) <$> CheckHolds d).

Definition migrateSuccess (succeeded : bool) (d : Destination) : Destination :=
  let metadata := if succeeded && missing (MetadataCheck d)
                  then mkEvidence "verified" "metadata" (LastCheckAt d) "" else MetadataCheck d in
  let data := if succeeded && missing (DataCheck d) then
                if str_eqb (LastCheckPolicy d) "all" then mkEvidence "verified" "all" (LastCheckAt d) ""
                else if str_eqb (LastCheckPolicy d) "subset" then mkEvidence "sampled" "subset" (LastCheckAt d) ""
                else DataCheck d
              else DataCheck d in
  with_checks d metadata data (CheckHolds d).

Definition fillEvidence (d : Destination) : Destination :=
  with_checks d (fillUnknown (MetadataCheck d)) (fillUnknown (DataCheck d)) (CheckHolds d).

(** [repairedNonIntegrity] at the end of the loops. *)
Definition repairedNonIntegrity (d : Destination) : bool :=
  repairable (MetadataCheck d) || repairable (DataCheck d)
  || (unattributed (repairEvidence d) && knownNonIntegrityFailure (CheckError d)).

Definition succeededBefore (d : Destination) : bool :=
  str_eqb (CheckStatus d) "verified"
  || (repairedNonIntegrity d && match LastCheckAt d with Some _ => true | None => false end).

Definition normalizeCheckEvidence (d : Destination) : Destination :=
  updateAggregateCheckEvidence (fillEvidence (migrateSuccess (succeededBefore d)
    (scopeHold (migrateHold (migrateAttempt (CheckStatus d) (CheckError d) (attributeFailure (repairEvidence d))))))).

(** A failed check: integrity failures become evidence, inconclusive checks a
    hold, and everything else is only an attempt. *)
Definition recordFailure (d : Destination) (policy : string) (at_ : Time) (err : check_error) : Destination :=
  match err_code err with
  | Some code =>
    if str_eqb code "integrity_failed" then
      let evidence := mkEvidence "failed" policy (Some at_) (err_text err) in
      if str_eqb policy "metadata" then with_checks d evidence (DataCheck d) (CheckHolds d)
      else with_checks d (MetadataCheck d) evidence (CheckHolds d)
    else if str_eqb code "check_inconclusive" then
      let hold := mkHold (requiredCheckScope policy) (Some at_) (err_text err) in
      match CheckHolds d with
      | Some h => if str_eqb (hold_scope h) "metadata" || str_eqb (hold_scope hold) "all"
                  then with_checks d (MetadataCheck d) (DataCheck d) (Some hold) else d
      | None => with_checks d (MetadataCheck d) (DataCheck d) (Some hold)
      end
    else d
  | None => d
  end.

Definition recordSuccess (d : Destination) (policy : string) (at_ : Time) : Destination :=
  let hold := match CheckHolds d with
              | Some h => if str_eqb policy "all" || str_eqb (hold_scope h) "metadata" then None else Some h
              | None => None
              end in
  let data := if str_eqb policy "all" then mkEvidence "verified" "all" (Some at_) ""
              else if str_eqb policy "subset" && negb (failed (DataCheck d)) && negb (str_eqb (ev_status (DataCheck d)) "verified")
              then mkEvidence "sampled" "subset" (Some at_) "" else DataCheck d in
  with_last_check (with_checks d (mkEvidence "verified" "metadata" (Some at_) "") data hold) (Some at_) policy.

Definition recordCheckAttempt (d : Destination) (policy : string) (at_ : Time) (err : option check_error) : Destination :=
  let d := normalizeCheckEvidence d in
  let policy := if str_empty policy then "metadata" else policy in
  updateAggregateCheckEvidence
    match err with
    | Some e => recordFailure (with_attempt d (Some at_) policy "failed" (err_text e)) policy at_ e
    | None => recordSuccess (with_attempt d (Some at_) policy "succeeded" "") policy at_
    end.

(** ** The acknowledgement of a prune (internal/backup/operations.go) *)

Record PruneRequest := mkPruneRequest { AcknowledgeIntegrityFailure : bool; AcknowledgementReviewToken : string }.

Inductive prune_error : Type := PruneBusy | ErrMaintenanceAcknowledgement.

Definition validatePruneAcknowledgement (d : Destination) (requestedBy : string) (options : list PruneRequest) : res prune_error unit :=
  let d := normalizeCheckEvidence d in
  if negb (repositoryMaintenanceBlocked d) then Ok tt
  else if str_eqb requestedBy "scheduler" then Err PruneBusy
  else match options with
       | [o] => if negb (AcknowledgeIntegrityFailure o) || str_empty (AcknowledgementReviewToken o)
                   || negb (str_eqb (AcknowledgementReviewToken o) (repositoryReviewFingerprint d))
                then Err ErrMaintenanceAcknowledgement else Ok tt
       | _ => Err ErrMaintenanceAcknowledgement
       end.

(** ** Lemmas *)

(** Computing the aggregate changes nothing else. *)
Lemma update_frame d : let d' := updateAggregateCheckEvidence d in
  MetadataCheck d' = MetadataCheck d ∧ DataCheck d' = DataCheck d ∧ CheckHolds d' = CheckHolds d ∧
  LastCheckAttemptStatus d' = LastCheckAttemptStatus d ∧ LastCheckAttemptError d' = LastCheckAttemptError d ∧
  LastCheckAttemptPolicy d' = LastCheckAttemptPolicy d ∧ LastCheckAttemptAt d' = LastCheckAttemptAt d ∧
  LastCheckAt d' = LastCheckAt d ∧ LastCheckPolicy d' = LastCheckPolicy d ∧ d_id d' = d_id d ∧
  (CheckStatus d', CheckError d') = aggregate d.
Proof using. cbn. split_and!; try done. by destruct (aggregate d). Qed.

Lemma blocked_update d : repositoryMaintenanceBlocked (updateAggregateCheckEvidence d) =
  match CheckHolds d with Some _ => true | None => false end || failed (MetadataCheck d) || failed (DataCheck d).
Proof using.
  unfold repositoryMaintenanceBlocked. cbn. unfold aggregate, failed.
  destruct (CheckHolds d), (str_eqb (ev_status (MetadataCheck d)) "failed"), (str_eqb (ev_status (DataCheck d)) "failed"); cbn; try done.
  by destruct (_ || _).
Qed.

Lemma blocked_update_iff d : let d' := updateAggregateCheckEvidence d in
  repositoryMaintenanceBlocked d' = true ↔
  CheckHolds d' ≠ None ∨ failed (MetadataCheck d') = true ∨ failed (DataCheck d') = true.
Proof using.
  cbn zeta. rewrite blocked_update. destruct (update_frame d) as (-> & -> & -> & _).
  destruct (CheckHolds d), (failed (MetadataCheck d)), (failed (DataCheck d)); cbn; naive_solver.
Qed.

Lemma update_token d : MaintenanceReviewToken (updateAggregateCheckEvidence d) =
  repositoryReviewFingerprint (updateAggregateCheckEvidence d).
Proof using. done. Qed.

(** What an attempt does to the evidence of a normalized destination. *)
Definition attempted (d : Destination) (policy : string) (at_ : Time) (err : option check_error) : Destination :=
  match err with Some e => recordFailure d policy at_ e | None => recordSuccess d policy at_ end.

(** [recordCheckAttempt] after the normalization. *)
Definition recordNormalized (d : Destination) (policy : string) (at_ : Time) (err : option check_error) : Destination :=
  updateAggregateCheckEvidence
    match err with
    | Some e => recordFailure (with_attempt d (Some at_) policy "failed" (err_text e)) policy at_ e
    | None => recordSuccess (with_attempt d (Some at_) policy "succeeded" "") policy at_
    end.

Lemma recordCheckAttempt_eq d policy at_ err : recordCheckAttempt d policy at_ err =
  recordNormalized (normalizeCheckEvidence d) (if str_empty policy then "metadata" else policy) at_ err.
Proof using. reflexivity. Qed.

Lemma recordFailure_attempt d at_ p text e :
  let d' := recordFailure (with_attempt d (Some at_) p "failed" text) p at_ e in
  let n := recordFailure d p at_ e in
  MetadataCheck d' = MetadataCheck n ∧ DataCheck d' = DataCheck n ∧ CheckHolds d' = CheckHolds n.
Proof using.
  destruct e as [t [code|]]; unfold recordFailure; cbn [err_code CheckHolds with_attempt]; [|done].
  by repeat case_match.
Qed.

Lemma record_checks d p at_ err :
  let n := attempted d p at_ err in
  let d' := recordNormalized d p at_ err in
  MetadataCheck d' = MetadataCheck n ∧ DataCheck d' = DataCheck n ∧ CheckHolds d' = CheckHolds n.
Proof using.
  cbn zeta. unfold recordNormalized. match goal with |- context [updateAggregateCheckEvidence ?x] => destruct (update_frame x) as (-> & -> & -> & _) end.
  unfold attempted. destruct err as [e|]; [apply recordFailure_attempt|]. done.
Qed.

Lemma recordFailure_attempt_fields d p at_ e : let d' := recordFailure d p at_ e in
  LastCheckAttemptStatus d' = LastCheckAttemptStatus d ∧ LastCheckAttemptError d' = LastCheckAttemptError d.
Proof using. cbn zeta. unfold recordFailure. by repeat case_match. Qed.

(** A failed attempt never clears anything. *)
Lemma recordFailure_keeps d p at_ e : let d' := recordFailure d p at_ e in
  (failed (MetadataCheck d) = true → failed (MetadataCheck d') = true) ∧
  (failed (DataCheck d) = true → failed (DataCheck d') = true) ∧
  (∀ h, CheckHolds d = Some h → CheckHolds d' ≠ None ∧ (hold_scope h = "all" →
     ∃ h', CheckHolds d' = Some h' ∧ hold_scope h' = "all")).
Proof using.
  cbn zeta. unfold recordFailure. destruct e as [t [code|]]; cbn [err_code]; [|naive_solver].
  destruct (str_eqb code "integrity_failed"); [destruct (str_eqb p "metadata"); cbn; naive_solver|].
  destruct (str_eqb code "check_inconclusive"); [|naive_solver].
  destruct (CheckHolds d) as [h|] eqn:Eh; [|cbn; split_and!; naive_solver].
  destruct (_ || _) eqn:E; cbn; split_and!; try done; [|naive_solver].
  intros h' [= <-]. split; [done|]. intros Hs. eexists. split; [done|]. cbn.
  apply orb_true_iff in E as [E|E]; boolify; [congruence|done].
Qed.

Lemma normalize_update d : ∃ m, normalizeCheckEvidence d = updateAggregateCheckEvidence m.
Proof using. eexists. reflexivity. Qed.

(** ** Settled evidence *)

(** What every destination looks like after checks: its evidence is attributed
    and complete, so that the migrations of a restart find nothing to do. *)
Record settled (d : Destination) : Prop := {
  es_aggregate : (CheckStatus d, CheckError d) = aggregate d;
  es_token : MaintenanceReviewToken d = repositoryReviewFingerprint d;
  es_metadata : ev_status (MetadataCheck d) ∈ ["unknown"; "verified"; "failed"] ∧ ev_scope (MetadataCheck d) ≠ "" ∧
    (failed (MetadataCheck d) = true → ev_scope (MetadataCheck d) ≠ "unknown");
  es_data : ev_status (DataCheck d) ∈ ["unknown"; "verified"; "sampled"; "failed"] ∧ ev_scope (DataCheck d) ≠ "" ∧
    (failed (DataCheck d) = true → ev_scope (DataCheck d) ≠ "unknown");
  es_known : ev_status (DataCheck d) ∈ ["verified"; "sampled"] → ev_status (MetadataCheck d) ≠ "unknown";
  es_policy : ev_status (DataCheck d) = "unknown" → LastCheckPolicy d ∉ ["all"; "subset"];
  es_attempt : LastCheckAttemptStatus d = "" → failed (MetadataCheck d) = false ∧ failed (DataCheck d) = false;
  es_history : historicalHold d = false;
  es_hold : ∀ h, CheckHolds d = Some h → hold_scope h ∈ ["metadata"; "all"] }.

Lemma with_checks_id d : with_checks d (MetadataCheck d) (DataCheck d) (CheckHolds d) = d.
Proof using. by destruct d. Qed.

Lemma failed_status e : failed e = true ↔ ev_status e = "failed".
Proof using. unfold failed, str_eqb. apply bool_decide_eq_true. Qed.

Lemma not_repairable e : (failed e = true → ev_scope e ≠ "unknown") → repairable e = false.
Proof using.
  intros H. unfold repairable. destruct (failed e); [|done]. unfold str_eqb. by rewrite bool_decide_false by auto.
Qed.

Lemma settled_attributed d : settled d → unattributed d = false.
Proof using.
  intros [Ha _ _ _ _ _ _ _ _]. unfold unattributed.
  assert (CheckStatus d = (aggregate d).1) as -> by (by rewrite <- Ha). unfold aggregate.
  destruct (failed (DataCheck d)), (failed (MetadataCheck d)); cbn; try (by rewrite ?andb_false_r).
  destruct (CheckHolds d); [done|]. by case_match.
Qed.

Lemma settled_unrepaired d : settled d → repairEvidence d = d ∧ repairedNonIntegrity d = false.
Proof using.
  intros I. pose proof (es_metadata d I) as (_ & _ & Hm). pose proof (es_data d I) as (_ & _ & Hd).
  apply not_repairable in Hm, Hd.
  assert (repairEvidence d = d) as E by (unfold repairEvidence, repair; rewrite Hm, Hd; apply with_checks_id).
  split; [done|]. unfold repairedNonIntegrity. by rewrite Hm, Hd, E, settled_attributed.
Qed.

Lemma settled_attempt d : settled d → migrateAttempt (CheckStatus d) (CheckError d) d = d.
Proof using.
  intros I. unfold migrateAttempt. destruct (str_eqb (CheckStatus d) "failed") eqn:E; [|done].
  destruct (str_empty (LastCheckAttemptStatus d)) eqn:Ea; [|done]. exfalso. boolify.
  destruct (es_attempt d I Ea) as [Hm Hd]. pose proof (settled_attributed d I) as H.
  unfold unattributed in H. rewrite E, Hm, Hd in H. done.
Qed.

Lemma settled_success d : settled d → migrateSuccess (succeededBefore d) d = d.
Proof using.
  intros I. unfold succeededBefore. rewrite (proj2 (settled_unrepaired d I)), orb_false_r.
  destruct (str_eqb (CheckStatus d) "verified") eqn:E; unfold migrateSuccess; cbn [andb]; [|apply with_checks_id].
  boolify. pose proof (es_aggregate d I) as Ha. rewrite E in Ha. unfold aggregate in Ha.
  destruct (failed (DataCheck d)) eqn:Fd; [done|]. destruct (failed (MetadataCheck d)) eqn:Fm; [done|].
  destruct (CheckHolds d) eqn:Eh; [done|].
  assert (missing (MetadataCheck d) = false) as ->.
  { destruct (_ || _ || _) eqn:Ev; [|done]. apply bool_decide_eq_false. intros Hin.
    pose proof (es_known d I) as Hk. pose proof (es_metadata d I) as (Hs & _).
    apply orb_true_iff in Ev as [[Ev|Ev]%orb_true_iff|Ev]; apply bool_decide_eq_true in Ev; list_cases; try congruence; apply Hk; by rewrite ?Ev; repeat constructor. }
  destruct (missing (DataCheck d)) eqn:Ed; [|etrans; [|apply with_checks_id]; by rewrite Eh].
  pose proof (es_data d I) as (Hs & _). apply bool_decide_eq_true in Ed.
  assert (ev_status (DataCheck d) = "unknown") as Hu by (list_cases; congruence).
  pose proof (es_policy d I Hu) as [H1 [H2 _]%not_elem_of_cons]%not_elem_of_cons.
  unfold str_eqb. rewrite !bool_decide_false by done.
  etrans; [|apply with_checks_id]. by rewrite Eh.
Qed.

Lemma settled_scope d : settled d → scopeHold d = d.
Proof using.
  intros I. unfold scopeHold. assert ((λ h, mkHold (requiredCheckScope (hold_scope h)) (hold_checked_at h) (hold_error h))
    <$> CheckHolds d = CheckHolds d) as ->; [|apply with_checks_id].
  destruct (CheckHolds d) as [h|] eqn:E; [|done]. cbn. f_equal. pose proof (es_hold d I h E) as Hs.
  destruct h as [sc a e]. cbn in *. f_equal. unfold requiredCheckScope, str_eqb. case_bool_decide; [done|]. list_cases; congruence.
Qed.

Lemma settled_fill d : settled d → fillEvidence d = d.
Proof using.
  intros I. pose proof (es_metadata d I) as (Hm & Hm' & _). pose proof (es_data d I) as (Hd & Hd' & _).
  assert (∀ e, ev_status e ≠ "" → ev_scope e ≠ "" → fillUnknown e = e) as Hf.
  { intros [st sc a msg] H1 H2. cbn in *. unfold fillUnknown, orUnknown, str_empty, str_eqb. cbn. by rewrite !bool_decide_false. }
  unfold fillEvidence. rewrite !Hf by (done || (intros ?; list_cases; congruence)). apply with_checks_id.
Qed.

Lemma settled_update d : settled d → updateAggregateCheckEvidence d = d.
Proof using.
  intros I. unfold updateAggregateCheckEvidence. rewrite <- (es_aggregate d I). cbn [fst snd].
  assert (with_aggregate d (CheckStatus d) (CheckError d) (MaintenanceReviewToken d) = d) as -> by (by destruct d).
  rewrite <- (es_token d I). by destruct d.
Qed.

(** The migrations of a restart leave settled evidence alone. *)
Lemma settled_normal d : settled d → normalizeCheckEvidence d = d.
Proof using.
  intros I. unfold normalizeCheckEvidence. destruct (settled_unrepaired d I) as [-> _].
  unfold attributeFailure. rewrite (settled_attributed d I). cbn [andb].
  rewrite settled_attempt by done. unfold migrateHold. rewrite (es_history d I).
  by rewrite settled_scope, settled_success, settled_fill, settled_update.
Qed.

(** A text of the historical diagnostic, which only old versions wrote. *)
Definition historicalText (text : string) : bool :=
  contains text "repository check was inconclusive" && has_suffix text "(operation_failed)".

(** The policies of [CheckRequest]; the empty one means [metadata]. *)
Definition checkPolicies : list string := ["metadata"; "subset"; "all"].

Record checks_ok (d : Destination) : Prop := {
  co_metadata : ev_status (MetadataCheck d) ∈ ["unknown"; "verified"; "failed"] ∧ ev_scope (MetadataCheck d) ≠ "" ∧
    (failed (MetadataCheck d) = true → ev_scope (MetadataCheck d) ≠ "unknown");
  co_data : ev_status (DataCheck d) ∈ ["unknown"; "verified"; "sampled"; "failed"] ∧ ev_scope (DataCheck d) ≠ "" ∧
    (failed (DataCheck d) = true → ev_scope (DataCheck d) ≠ "unknown");
  co_known : ev_status (DataCheck d) ∈ ["verified"; "sampled"] → ev_status (MetadataCheck d) ≠ "unknown";
  co_policy : ev_status (DataCheck d) = "unknown" → LastCheckPolicy d ∉ ["all"; "subset"];
  co_hold : ∀ h, CheckHolds d = Some h → hold_scope h ∈ ["metadata"; "all"] }.

Lemma settled_checks d : settled d → checks_ok d.
Proof using. by intros []. Qed.

(** Evidence that is in order becomes settled when the aggregate is computed. *)
Lemma update_settled d : checks_ok d → LastCheckAttemptStatus d ≠ "" → historicalHold d = false →
  settled (updateAggregateCheckEvidence d).
Proof using.
  intros [Hm Hd Hk Hp Hh] Ha Hx. destruct (update_frame d) as (E1 & E2 & E3 & E4 & E5 & E6 & E7 & E8 & E9 & _ & E10).
  split; rewrite ?E1, ?E2, ?E3, ?E4, ?E9; done.
Qed.

Lemma in_policies p : p ∈ checkPolicies → p ≠ "" ∧ p ≠ "unknown".
Proof using. intros H. unfold checkPolicies in H. list_cases; by subst. Qed.

Lemma requiredScope_in p : requiredCheckScope p ∈ ["metadata"; "all"].
Proof using. unfold requiredCheckScope. case_match; repeat constructor. Qed.

Lemma recordFailure_ok d p at_ e : checks_ok d → p ∈ checkPolicies → checks_ok (recordFailure d p at_ e).
Proof using.
  intros [Hm Hd Hk Hp Hh] [Hp1 Hp2]%in_policies. unfold recordFailure. destruct e as [t [code|]]; cbn [err_code err_text]; [|by split].
  destruct (str_eqb code "integrity_failed"); [destruct (str_eqb p "metadata")|].
  - split; cbn; try done. by split_and!; [repeat constructor|..].
  - split; cbn; try done; [by split_and!; [repeat constructor|..]|]. intros ?; list_cases; congruence.
  - destruct (str_eqb code "check_inconclusive"); [|by split].
    assert (checks_ok (with_checks d (MetadataCheck d) (DataCheck d) (Some (mkHold (requiredCheckScope p) (Some at_) t)))) as Hok.
    { split; cbn; try done. intros h [= <-]. apply requiredScope_in. }
    destruct (CheckHolds d) as [h|] eqn:E; [|done]. destruct (_ || _); [done|]. by split; rewrite ?E.
Qed.

Lemma recordSuccess_ok d p at_ : checks_ok d → p ∈ checkPolicies → checks_ok (recordSuccess d p at_).
Proof using.
  intros [Hm Hd Hk Hp Hh] Hin. unfold recordSuccess.
  destruct (str_eqb p "all") eqn:Ea; [|destruct (str_eqb p "subset" && _ && _) eqn:Es].
  - split; cbn; try done; [by split_and!; [repeat constructor|..]| |].
    + by split_and!; [repeat constructor|..].
    + intros h Eh. repeat case_match; simplify_eq; by apply Hh.
  - split; cbn; try done; [by split_and!; [repeat constructor|..]| |].
    + by split_and!; [repeat constructor|..].
    + intros h Eh. repeat case_match; simplify_eq; by apply Hh.
  - split; cbn; try done; [by split_and!; [repeat constructor|..]| |].
    + intros Hu [H|[H|H%not_elem_of_nil]%elem_of_cons]%elem_of_cons; [|..]; try done.
      * rewrite H in Ea. done.
      * rewrite H in Es. unfold failed, str_eqb in Es. rewrite Hu in Es. done.
    + intros h Eh. repeat case_match; simplify_eq; by apply Hh.
Qed.

Lemma record_settled d policy at_ err :
  settled d → policy ∈ "" :: checkPolicies → (∀ e, err = Some e → historicalText (err_text e) = false) →
  settled (recordCheckAttempt d policy at_ err).
Proof using.
  intros I Hp Ht. unfold recordCheckAttempt. rewrite (settled_normal d I).
  set (p := if str_empty policy then "metadata" else policy).
  assert (p ∈ checkPolicies) as Hin.
  { unfold p, checkPolicies in *. destruct (str_empty policy) eqn:E; [repeat constructor|]. boolify. set_solver. }
  clearbody p. apply settled_checks in I. destruct err as [e|].
  - specialize (Ht e eq_refl). apply update_settled.
    + apply recordFailure_ok; [|done]. destruct I as []. by split.
    + by destruct (recordFailure_attempt_fields (with_attempt d (Some at_) p "failed" (err_text e)) p at_ e) as (-> & _).
    + destruct (recordFailure_attempt_fields (with_attempt d (Some at_) p "failed" (err_text e)) p at_ e) as (E1 & E2).
      unfold historicalHold. rewrite E2. cbn. unfold historicalText in Ht.
      destruct (CheckHolds _); [done|]. destruct (str_eqb _ _); [|done]. cbn. by rewrite Ht.
  - apply update_settled; [|done|].
    + apply recordSuccess_ok; [|done]. destruct I as []. by split.
    + unfold historicalHold. cbn. destruct (CheckHolds d); [|done]. by destruct (_ || _).
Qed.

(** ** Runs *)

(** A destination that was never checked, as [SaveDestination] creates it. *)
Definition unchecked (d : Destination) : Prop :=
  MetadataCheck d = zeroEvidence ∧ DataCheck d = zeroEvidence ∧ CheckHolds d = None ∧
  LastCheckAttemptStatus d = "" ∧ LastCheckPolicy d = "" ∧ CheckStatus d = "" ∧ LastCheckAt d = None.

Lemma unchecked_settled d : unchecked d → settled (normalizeCheckEvidence d).
Proof using.
  destruct d; unfold unchecked; cbn. intros (-> & -> & -> & -> & -> & -> & ->).
  split; cbn; try done; try (split; [repeat constructor|done]).
  - intros H. list_cases; done.
  - intros _ H. list_cases; done.
Qed.

(** One attempt to check the repository, with any outcome. *)
Inductive check_step : Destination → Destination → Prop :=
| check_attempt d policy at_ err :
    policy ∈ "" :: checkPolicies → (∀ e, err = Some e → historicalText (err_text e) = false) →
    check_step d (recordCheckAttempt d policy at_ err).

Lemma checks_settled d d' : settled d → rtc check_step d d' → settled d'.
Proof using.
  intros I H. induction H as [|x y z Hxy _ IH]; [done|]. apply IH. destruct Hxy. by apply record_settled.
Qed.

(** Only a failure of the repository itself changes the unresolved condition. *)
Lemma attempt_keeps_review d policy at_ e : settled d →
  err_code e ≠ Some "integrity_failed" → err_code e ≠ Some "check_inconclusive" →
  repositoryReviewFingerprint (recordCheckAttempt d policy at_ (Some e)) = repositoryReviewFingerprint d.
Proof using.
  intros I H1 H2. unfold recordCheckAttempt. rewrite (settled_normal d I). set (p := if str_empty policy then _ else _). clearbody p.
  set (a := with_attempt d (Some at_) p "failed" (err_text e)).
  assert (recordFailure a p at_ e = a) as ->.
  { unfold recordFailure. destruct (err_code e) as [code|]; [|done]. unfold str_eqb. rewrite !bool_decide_false by congruence. done. }
  assert (updateAggregateCheckEvidence d = d) as Ed by (by apply settled_update).
  pose proof (blocked_update d) as Hb. rewrite Ed in Hb. unfold repositoryReviewFingerprint. rewrite blocked_update, Hb.
  cbn [a with_attempt CheckHolds MetadataCheck DataCheck]. destruct (_ || _ || _) eqn:Eb; [|done].
  f_equal. unfold reviewOf. cbn.
  destruct (failed (MetadataCheck d)), (failed (DataCheck d)), (CheckHolds d); try done.
Qed.
End evidence.

#[global] Opaque normalizeCheckEvidence updateAggregateCheckEvidence.

(** ** Properties *)

(** C14: bad evidence is only resolved by the check that can resolve it.  A data
    failure, or a hold on the data, survives every attempt except a successful
    full read; a metadata failure survives every failed attempt; and after any
    failed attempt a blocked repository is still blocked. *)
Theorem bad_evidence_persists fingerprint d policy at_ err :
  let n := normalizeCheckEvidence fingerprint d in
  let d' := recordCheckAttempt fingerprint d policy at_ err in
  (failed (DataCheck n) = true → failed (DataCheck d') = true ∨ (err = None ∧ policy = "all")) ∧
  (∀ h, CheckHolds n = Some h → hold_scope h = "all" →
     (∃ h', CheckHolds d' = Some h' ∧ hold_scope h' = "all") ∨ (err = None ∧ policy = "all")) ∧
  (failed (MetadataCheck n) = true → failed (MetadataCheck d') = true ∨ err = None) ∧
  (repositoryMaintenanceBlocked n = true → err ≠ None → repositoryMaintenanceBlocked d' = true).
Proof.
  intros n d'. unfold d'. rewrite recordCheckAttempt_eq. fold n. clear d'.
  set (p := if str_empty policy then "metadata" else policy).
  assert (p = "all" → policy = "all") as Hp.
  { unfold p. destruct (str_empty policy) eqn:E; [done|auto]. }
  destruct (record_checks fingerprint n p at_ err) as (Hm & Hd & Hh). cbn zeta in Hm, Hd, Hh.
  destruct err as [e|]; unfold attempted in *.
  - pose proof (recordFailure_keeps n p at_ e) as (K1 & K2 & K3).
    rewrite Hm, Hd, Hh.
    split_and!; [intros Hf; left; exact (K2 Hf)|intros h Eh Es; left; exact (proj2 (K3 h Eh) Es)|intros Hf; left; exact (K1 Hf)|].
    intros Hb _.
    destruct (normalize_update fingerprint d) as [m Em]. fold n in Em.
    rewrite Em in Hb. apply blocked_update_iff in Hb. rewrite <- Em in Hb. clearbody n p.
    unfold recordNormalized in *. apply blocked_update_iff. rewrite Hm, Hd, Hh.
    destruct Hb as [Hb|[Hb|Hb]]; [left|right; left; exact (K1 Hb)|right; right; exact (K2 Hb)].
    destruct (CheckHolds n) as [h|]; [exact (proj1 (K3 h eq_refl))|done].
  - rewrite Hm, Hd, Hh. clear Hm Hd Hh. clearbody n p. cbn. split_and!; [| |by right|done].
    + intros Hf. destruct (str_eqb p "all") eqn:E; [boolify; right; auto|left]. by rewrite Hf, andb_false_r.
    + intros h -> Hs. destruct (str_eqb p "all") eqn:E; [boolify; right; auto|left]. cbn.
      unfold str_eqb. rewrite bool_decide_false by (by rewrite Hs). eauto.
Qed.

(** evidence survives a restart, and an operator's review survives transport
    failures.  Whatever checks a repository went through, loading its state again
    changes nothing; and a further attempt that fails without a verdict on the
    repository keeps the review token valid. *)
Theorem evidence_survives_restart fingerprint d d' :
  unchecked d → rtc (check_step fingerprint) (normalizeCheckEvidence fingerprint d) d' →
  normalizeCheckEvidence fingerprint d' = d' ∧
  (∀ policy at_ e, err_code e ≠ Some "integrity_failed" → err_code e ≠ Some "check_inconclusive" →
     repositoryReviewFingerprint fingerprint (recordCheckAttempt fingerprint d' policy at_ (Some e))
     = MaintenanceReviewToken d').
Proof.
  intros Hu Hs. pose proof (checks_settled _ _ _ (unchecked_settled fingerprint d Hu) Hs) as I.
  split; [by apply settled_normal|]. intros policy at_ e H1 H2.
  rewrite attempt_keeps_review by done. symmetry. apply (es_token _ _ I).
Qed.

(** a repository with unresolved bad evidence is pruned only on purpose: never
    by the scheduler, and by an operator only with the token of the condition that
    is unresolved now, so that a review of an earlier condition does not count.
    The hypothesis is the collision resistance of the digest. *)
Theorem prune_needs_current_review fingerprint d requestedBy options :
  (∀ r1 r2, fingerprint r1 = fingerprint r2 → r1 = r2) →
  validatePruneAcknowledgement fingerprint d requestedBy options = Ok tt →
  let n := normalizeCheckEvidence fingerprint d in
  repositoryMaintenanceBlocked n = true →
  requestedBy ≠ "scheduler" ∧ ∃ o, options = [o] ∧ AcknowledgeIntegrityFailure o = true ∧
    ∀ d0, repositoryMaintenanceBlocked d0 = true →
      AcknowledgementReviewToken o = repositoryReviewFingerprint fingerprint d0 → reviewOf d0 = reviewOf n.
Proof.
  intros Hinj H n Hb. unfold validatePruneAcknowledgement in H. fold n in H. rewrite Hb in H. cbn [negb] in H.
  destruct (str_eqb requestedBy "scheduler") eqn:Es; [done|]. destruct options as [|o [|]]; [done| |done].
  destruct (_ || _ || _) eqn:E in H; [done|]. apply orb_false_iff in E as [[E1 E2]%orb_false_iff E3]. boolify.
  split; [done|]. exists o. split_and!; [done|done|]. intros d0 Hd0 Ht. apply Hinj.
  unfold repositoryReviewFingerprint in *. rewrite Hd0 in Ht. rewrite Hb in E3. congruence.
Qed.

(** ** Concrete runs *)

#[global] Instance condition_countable : Countable condition.
Proof.
  apply (inj_countable' (λ c, (cond_scope c, cond_checked_at c, cond_error c)) (λ '(a, b, c), mkCondition a b c)).
  by intros [].
Defined.
#[global] Instance review_countable : Countable review.
Proof.
  apply (inj_countable' (λ r, (review_version r, review_destination r, review_metadata r, review_data r, review_hold r))
    (λ '(a, b, c, d, e), mkReview a b c d e)).
  by intros [].
Defined.

(** An injective digest: the binary digits of an encoding. *)
Fixpoint binary (p : positive) : string :=
  match p with xH => "" | xO p => "0" +:+ binary p | xI p => "1" +:+ binary p end.

Lemma binary_inj p q : binary p = binary q → p = q.
Proof. revert q. induction p as [p IH|p IH|]; intros [q|q|]; cbn; intros [=]; f_equal; auto. Qed.

Definition demoDigest (r : review) : string := binary (encode r).

Lemma demoDigest_inj r1 r2 : demoDigest r1 = demoDigest r2 → r1 = r2.
Proof. unfold demoDigest. intros H%binary_inj. by apply (inj encode). Qed.

Definition demoManual : Schedule := mkSchedule "manual" "" 0 "" 0.
Definition demoDestination : Destination :=
  mkDestination "dst_1" "Off-site" "s3" "s3:https://example.org/backup" zeroEvidence zeroEvidence None "" None "" "" "" None "" "" ""
    demoManual demoManual "metadata" None None None "" "untested" "" "" None None None "" "" true.

Definition demoCorrupt : check_error := mkCheckError "repository contains errors (integrity_failed)" (Some "integrity_failed").
Definition demoTimeout : check_error := mkCheckError "timed out (timeout)" (Some "timeout").

Definition demoFailedCheck (fp : review → string) : Destination :=
  recordCheckAttempt fp (recordCheckAttempt fp (normalizeCheckEvidence fp demoDestination) "" 1000 None) "all" 2000 (Some demoCorrupt).

Lemma demoFailedCheck_reached fp :
  rtc (check_step fp) (normalizeCheckEvidence fp demoDestination) (demoFailedCheck fp).
Proof.
  eapply rtc_l; [apply (check_attempt fp _ "" 1000 None); [left|done]|].
  eapply rtc_l; [apply (check_attempt fp _ "all" 2000 (Some demoCorrupt)); [unfold checkPolicies; repeat constructor|]|apply rtc_refl].
  intros e [= <-]. by vm_compute.
Qed.

Lemma demoDestination_unchecked : unchecked demoDestination.
Proof. by unfold unchecked. Qed.

Lemma evidence_survives_restart_witness :
  normalizeCheckEvidence demoDigest (demoFailedCheck demoDigest) = demoFailedCheck demoDigest.
Proof.
  apply (evidence_survives_restart demoDigest demoDestination (demoFailedCheck demoDigest)).
  - apply demoDestination_unchecked.
  - apply demoFailedCheck_reached.
Defined.

Definition demoToken : string := MaintenanceReviewToken (demoFailedCheck demoDigest).

Lemma prune_needs_current_review_witness : "admin" ≠ "scheduler" ∧ ∃ o, [mkPruneRequest true demoToken] = [o] ∧
  AcknowledgeIntegrityFailure o = true ∧
  ∀ d0, repositoryMaintenanceBlocked d0 = true → AcknowledgementReviewToken o = repositoryReviewFingerprint demoDigest d0 →
    reviewOf d0 = reviewOf (normalizeCheckEvidence demoDigest (demoFailedCheck demoDigest)).
Proof.
  apply (prune_needs_current_review demoDigest (demoFailedCheck demoDigest) "admin" [mkPruneRequest true demoToken]).
  - apply demoDigest_inj.
  - by vm_compute.
  - by vm_compute.
Defined.

(** A full data failure is not resolved by a later metadata check. *)
Example demo_metadata_does_not_resolve :
  CheckStatus (recordCheckAttempt demoDigest (demoFailedCheck demoDigest) "metadata" 3000 None) = "failed" ∧
  CheckStatus (recordCheckAttempt demoDigest (demoFailedCheck demoDigest) "all" 3000 None) = "verified".
Proof. by vm_compute. Qed.
