(* ===== verification/BackupState.v ===== *)
(** * internal/backup: the state of the backup service

    The persisted state (service.go) with the bounded cache of snapshot
    classifications (snapshot_evidence.go), the latest copy and maintenance
    attempts, and the recovery checkpoints (health.go).  Operations run with the
    service mutex held and use one clock reading, the argument [now].  The digest
    of a plan's selection is a parameter. *)

From stdpp Require Import gmap strings list sorting.
From Stdlib Require Import Ascii ZArith.
From S2P Require Import Prelude GoStrings GoTime BackupSchedule BackupEvidence.

Local Open Scope Z_scope.

(** ** Data *)

Record Source := mkSource {
  src_id : string; src_kind : string; src_stack : string; src_service : string; src_mount : string;
  src_path : string; src_excludes : list string }.

(** The fields of [Plan], [CopyResult] and [Run] that the modelled operations use. *)
Record Plan := mkPlan {
  p_id : string; p_name : string; p_enabled : bool; p_consistency : string;
  p_sources : list Source; p_destinations : list Assignment;
  p_staging_max : Z; p_staging_ttl : Z; p_stop_timeout : Z }.

Record CopyResult := mkCopy {
  c_destination : string; c_state : string; c_snapshot : string; c_uploaded_at : option Time;
  c_verification : string; c_verified_at : option Time;
  c_retention : string; c_retention_error : string; c_retention_completed_at : option Time;
  c_error : string; c_completed_at : option Time;
  c_retention_started_at : option Time }.

Record Run := mkRun {
  run_id : string; run_job : string; run_plan : string; run_state : string; run_capture_state : string;
  run_phase : string; run_completed_at : option Time; run_captured_at : option Time; run_created_at : Time;
  run_expires_at : Time; run_copies : list CopyResult; run_error : string;
  run_plan_name : string; run_manifest : bool  (* whether there is one *) }.

Record copyCheckpoint := mkCheckpoint {
  cp_captured_at : Time; cp_uploaded_at : option Time; cp_snapshot : string; cp_run : string;
  cp_selection : string; cp_verification : string; cp_status : string; cp_checked_at : option Time }.

Record copyAttempt := mkAttempt { at_run : string; at_completed_at : Time; at_error : string }.

Record snapshotClassification := mkClass { sc_version : Z; sc_status : string; sc_at : Time }.

(** [persistedRun] is a run with its plan. *)
Record state := mkState {
  SnapshotClassifications : gmap string snapshotClassification; RetentionCursors : gmap string string;
  CopyAttempts : gmap string copyAttempt; MaintenanceAttempts : gmap string copyAttempt;
  VerifiedSnapshots : gmap string Time; RestoreTests : gmap string Time;
  CopyCheckpoints : gmap string copyCheckpoint; InstanceID : string;
  Destinations : gmap string Destination; Plans : gmap string Plan; Runs : gmap string (Run * Plan) }.

Definition with_classifications (s : state) m := mkState m (RetentionCursors s) (CopyAttempts s) (MaintenanceAttempts s)
  (VerifiedSnapshots s) (RestoreTests s) (CopyCheckpoints s) (InstanceID s) (Destinations s) (Plans s) (Runs s).
Definition with_cursors (s : state) m := mkState (SnapshotClassifications s) m (CopyAttempts s) (MaintenanceAttempts s)
  (VerifiedSnapshots s) (RestoreTests s) (CopyCheckpoints s) (InstanceID s) (Destinations s) (Plans s) (Runs s).
Definition with_attempts (s : state) copies maintenance := mkState (SnapshotClassifications s) (RetentionCursors s) copies maintenance
  (VerifiedSnapshots s) (RestoreTests s) (CopyCheckpoints s) (InstanceID s) (Destinations s) (Plans s) (Runs s).
Definition with_checkpoints (s : state) m := mkState (SnapshotClassifications s) (RetentionCursors s) (CopyAttempts s)
  (MaintenanceAttempts s) (VerifiedSnapshots s) (RestoreTests s) m (InstanceID s) (Destinations s) (Plans s) (Runs s).

(** ** The bounded caches *)

Definition maxSnapshotEvidence : nat := 4096.
Definition snapshotClassificationVersion : Z := 1.

Section evict.
Context {V : Type} (at_of : V → Time) `{!MapRange string V}.

(** One round of the scan for the oldest entry; the empty key means none yet. *)
Definition older (m : gmap string V) (oldest : string) (e : string * V) : string :=
  if str_empty oldest then e.1
  else match m !! oldest with
       | Some other => if before (at_of e.2) (at_of other) || ((at_of e.2 =? at_of other) && str_ltb e.1 oldest)
                       then e.1 else oldest
       | None => oldest
       end.

Definition oldestKey (m : gmap string V) : string := fold_left (older m) (range_list m) "".

(** [for len(m) > max]: at most one round per entry. *)
Fixpoint evictOldest (fuel : nat) (m : gmap string V) : gmap string V :=
  match fuel with
  | O => m
  | S fuel => if (maxSnapshotEvidence <? size m)%nat then evictOldest fuel (delete (oldestKey m) m) else m
  end.

Definition rememberBounded (m : gmap string V) (key : string) (v : V) : gmap string V :=
  let m := <[key := v]> m in evictOldest (size m) m.
End evict.

Definition snapshotEvidenceKey (destinationID snapshotID : string) : string := destinationID +:+ "/" +:+ snapshotID.
Definition checkpointKey (planID destinationID : string) : string := planID +:+ "/" +:+ destinationID.

Section service.
Context `{!MapRange string snapshotClassification, !MapRange string Time}.

Definition rememberSnapshotEvidence (values : gmap string Time) (key : string) (at_ : Time) : gmap string Time :=
  rememberBounded (λ t, t) values key at_.

Definition rememberSnapshotClassificationLocked (s : state) (destinationID id status : string) (at_ : Time) : state :=
  with_classifications s (rememberBounded sc_at (SnapshotClassifications s) (snapshotEvidenceKey destinationID id)
    (mkClass snapshotClassificationVersion status at_)).

Definition snapshotClassificationLocked (s : state) (destinationID id : string) : option snapshotClassification :=
  let key := snapshotEvidenceKey destinationID id in
  let old := (λ t, mkClass snapshotClassificationVersion "complete" t) <$> VerifiedSnapshots s !! key in
  match SnapshotClassifications s !! key with
  | Some e =>
    if (sc_version e =? snapshotClassificationVersion) && negb (is_zero (sc_at e))
       && str_in (sc_status e) ["complete"; "incomplete"; "legacy"; "unsupported"; "invalid"]
    then Some e else old
  | None => old
  end.

(** [strings.SplitN(key, "/", 2)] into exactly two parts. *)
Fixpoint cutSlash (s : string) : option (string * string) :=
  match s with
  | EmptyString => None
  | String c s' => if Ascii.eqb c "/"%char then Some (EmptyString, s')
                   else match cutSlash s' with Some (a, b) => Some (String c a, b) | None => None end
  end.

Definition configuredPair (s : state) (key : string) : bool :=
  match cutSlash key with
  | Some (plan, destination) => bool_decide (is_Some (Plans s !! plan)) && bool_decide (is_Some (Destinations s !! destination))
  | None => false
  end.

Definition rememberRetentionCursorLocked (s : state) (planID destinationID id : string) : state :=
  with_cursors s (<[checkpointKey planID destinationID := id]>
    (filter (λ p : string * string, configuredPair s p.1 = true) (RetentionCursors s))).

Definition restoreTestedAtLocked (s : state) (d : Destination) (id : string) : option Time :=
  match RestoreTests s !! snapshotEvidenceKey (d_id d) id with
  | Some tested => Some tested
  | None => if str_eqb (LastRestoreTestSnapshotID d) id then LastRestoreTestAt d else None
  end.

(** ** Attempts and checkpoints *)

Definition recoveryObjectsVerified : string := "recovery_objects_verified".

Definition is_some {A} (o : option A) : bool := match o with Some _ => true | None => false end.

Definition verifiedCopy (c : CopyResult) : bool :=
  str_eqb (c_state c) "succeeded" && str_eqb (c_verification c) recoveryObjectsVerified
  && is_some (c_verified_at c) && negb (str_empty (c_snapshot c)).

Definition copyWorkPending (c : CopyResult) : bool :=
  str_eqb (c_state c) "pending" || (verifiedCopy c && str_eqb (c_retention c) "pending").

Definition runNeedsStaging (r : Run) : bool := existsb (λ c, negb (str_eqb (c_state c) "succeeded")) (run_copies r).

(** The first time that is set. *)
Fixpoint first_time (l : list (option Time)) (d : Time) : Time :=
  match l with Some t :: _ => t | None :: l' => first_time l' d | [] => d end.
Definition when (b : bool) (t : option Time) : option Time := if b then t else None.

Definition completedCopyAttempt (r : Run) (c : CopyResult) : option copyAttempt :=
  let captureFailed := str_eqb (run_capture_state r) "failed" && negb (str_in (run_state r) ["running"; "queued"]) in
  if negb (str_in (c_state c) ["succeeded"; "failed"]) && negb captureFailed then None
  else
    let succeeded := str_eqb (c_state c) "succeeded" in
    let at_ := first_time [c_completed_at c; when succeeded (c_verified_at c); when succeeded (c_uploaded_at c);
                           run_completed_at r] (run_created_at r) in
    Some (mkAttempt (run_id r) at_ (if captureFailed then run_error r else c_error c)).

Definition completedMaintenanceAttempt (r : Run) (c : CopyResult) : option copyAttempt :=
  if negb (verifiedCopy c) || negb (str_in (c_retention c) ["succeeded"; "failed"]) then None
  else
    let at_ := first_time [c_retention_completed_at c; c_completed_at c; c_verified_at c] (run_created_at r) in
    Some (mkAttempt (run_id r) at_ (if str_eqb (c_retention c) "failed" then c_retention_error c else "")).

Definition future (now t : Time) : bool := after t (now + clockSkewTolerance).

Definition newerCopyAttempt (candidate previous : copyAttempt) (now : Time) : bool :=
  let candidateFuture := future now (at_completed_at candidate) in
  let previousFuture := future now (at_completed_at previous) in
  if negb (Bool.eqb candidateFuture previousFuture) then negb candidateFuture
  else if at_completed_at candidate =? at_completed_at previous then negb (str_ltb (at_run candidate) (at_run previous))
  else after (at_completed_at candidate) (at_completed_at previous).

Definition newerRun (candidate previous : Run) (now : Time) : bool :=
  let candidateFuture := future now (run_created_at candidate) in
  let previousFuture := future now (run_created_at previous) in
  if negb (Bool.eqb candidateFuture previousFuture) then negb candidateFuture
  else if run_created_at candidate =? run_created_at previous then str_ltb (run_id previous) (run_id candidate)
  else after (run_created_at candidate) (run_created_at previous).

Definition recordAttempt (now : Time) (m : gmap string copyAttempt) (key : string) (a : option copyAttempt) : gmap string copyAttempt :=
  match a with
  | None => m
  | Some attempt =>
    match m !! key with
    | Some previous => if newerCopyAttempt attempt previous now then <[key := attempt]> m else m
    | None => <[key := attempt]> m
    end
  end.

Definition configured (s : state) (plan destination : string) : bool :=
  is_some (Plans s !! plan) && is_some (Destinations s !! destination).

Definition recordCopyAttempt (now : Time) (r : Run) (s : state) (c : CopyResult) : state :=
  if negb (configured s (run_plan r) (c_destination c)) then s
  else
    let key := checkpointKey (run_plan r) (c_destination c) in
    with_attempts s (recordAttempt now (CopyAttempts s) key (completedCopyAttempt r c))
                    (recordAttempt now (MaintenanceAttempts s) key (completedMaintenanceAttempt r c)).

Definition recordCopyAttemptsLocked (now : Time) (s : state) (r : Run) : state :=
  fold_left (recordCopyAttempt now r) (run_copies r) s.

Context (selectionDigest : string * list Source → string).

(** [sort.Slice] by the unique id, then the digest of the JSON text. *)
Definition selectionFingerprint (p : Plan) : string := selectionDigest (p_consistency p, sort_by src_id (p_sources p)).

Definition checkpointOf (captured : Time) (r : Run) (p : Plan) (c : CopyResult) : copyCheckpoint :=
  let present := str_eqb (c_verification c) recoveryObjectsVerified && is_some (c_verified_at c) in
  mkCheckpoint captured (c_uploaded_at c) (c_snapshot c) (run_id r) (selectionFingerprint p) (c_verification c)
    (if present then "present" else "unknown") (if present then c_verified_at c else None).

(** The two reasons to keep an existing checkpoint. *)
Definition keepsCheckpoint (now captured : Time) (r : Run) (c : CopyResult) (old : copyCheckpoint) : bool :=
  let oldFuture := future now (cp_captured_at old) in
  let candidateFuture := future now captured in
  (negb oldFuture && candidateFuture) || (Bool.eqb oldFuture candidateFuture && after (cp_captured_at old) captured)
  || (str_eqb (cp_snapshot old) (c_snapshot c) && str_eqb (cp_run old) (run_id r) &&
      match c_verified_at c with
      | None => true
      | Some v => match cp_checked_at old with Some k => negb (after v k) | None => false end
      end).

Definition recordCheckpoint (now captured : Time) (r : Run) (p : Plan) (s : state) (c : CopyResult) : state :=
  if negb (configured s (run_plan r) (c_destination c)) then s
  else if str_empty (c_snapshot c) || negb (str_in (c_verification c) [recoveryObjectsVerified; "snapshot_metadata_verified"]) then s
  else
    let key := checkpointKey (run_plan r) (c_destination c) in
    if match CopyCheckpoints s !! key with Some old => keepsCheckpoint now captured r c old | None => false end then s
    else
      let s := with_checkpoints s (<[key := checkpointOf captured r p c]> (CopyCheckpoints s)) in
      if str_eqb (c_verification c) recoveryObjectsVerified
      then rememberSnapshotClassificationLocked s (c_destination c) (c_snapshot c) "complete" now else s.

Definition recordCheckpointsLocked (now : Time) (s : state) (r : Run) (p : Plan) : state :=
  let s := recordCopyAttemptsLocked now s r in
  match run_captured_at r with
  | None => s
  | Some captured => fold_left (recordCheckpoint now captured r p) (run_copies r) s
  end.
End service.

(** ** The caches: lemmas *)

Section cache.
Context {V : Type} (at_of : V → Time) `{!MapRange string V}.

(** The eviction order: by time, then by key. *)
Definition entry_le (a b : string * V) : Prop :=
  at_of a.2 < at_of b.2 ∨ (at_of a.2 = at_of b.2 ∧ String.le a.1 b.1).

Lemma entry_le_refl a : entry_le a a.
Proof using. right. by split. Qed.

Lemma entry_le_trans a b c : entry_le a b → entry_le b c → entry_le a c.
Proof using. unfold entry_le. intros [?|[E1 ?]] [?|[E2 ?]]; [left; lia..|]. right. split; [lia|by etrans]. Qed.

(** A round of the scan keeps the smaller of the two entries. *)
Lemma older_min m oldest v e : oldest ≠ "" → m !! oldest = Some v →
  (older at_of m oldest e = e.1 ∧ entry_le e (oldest, v)) ∨ (older at_of m oldest e = oldest ∧ entry_le (oldest, v) e).
Proof using.
  intros Hne Hm. unfold older, str_empty, str_eqb. rewrite bool_decide_false, Hm by done. unfold before.
  destruct (Z.ltb_spec (at_of e.2) (at_of v)); cbn [orb]; [left; split; [done|by left]|].
  destruct (Z.eqb_spec (at_of e.2) (at_of v)) as [Ht|]; cbn [andb]; [|right; split; [done|left; cbn; lia]].
  destruct (str_ltb e.1 oldest) eqn:El.
  - left. split; [done|]. right. split; [done|]. by apply str_ltb_lt in El as [? _].
  - right. split; [done|]. right. split; [cbn; lia|]. unfold str_ltb in El. by boolify.
Qed.

Lemma scan_min m l oldest v : oldest ≠ "" → m !! oldest = Some v →
  Forall (λ e, e.1 ≠ "" ∧ m !! e.1 = Some e.2) l →
  ∃ k w, fold_left (older at_of m) l oldest = k ∧ k ≠ "" ∧ m !! k = Some w ∧
    entry_le (k, w) (oldest, v) ∧ Forall (entry_le (k, w)) l.
Proof using.
  revert oldest v. induction l as [|e l IH]; intros oldest v Hne Hm Hl; cbn [fold_left].
  - exists oldest, v. split_and!; [done..|apply entry_le_refl|done].
  - apply Forall_cons in Hl as [[He1 He2] Hl].
    destruct (older_min m oldest v e Hne Hm) as [[-> Hle]|[-> Hle]].
    + destruct (IH e.1 e.2 He1 He2 Hl) as (k & w & <- & ? & ? & Hk & Hf). rewrite <- surjective_pairing in Hk.
      eexists _, w. split_and!; [reflexivity|done..|exact (entry_le_trans _ _ _ Hk Hle)|by constructor].
    + destruct (IH oldest v Hne Hm Hl) as (k & w & <- & ? & ? & Hk & Hf).
      eexists _, w. split_and!; [reflexivity|done..|]. constructor; [exact (entry_le_trans _ _ _ Hk Hle)|done].
Qed.

(** The scan finds the oldest entry, whatever the order of the map. *)
Lemma oldestKey_min m : m !! "" = None → m ≠ ∅ →
  ∃ v, m !! oldestKey at_of m = Some v ∧ ∀ k w, m !! k = Some w → entry_le (oldestKey at_of m, v) (k, w).
Proof using.
  intros He Hne. unfold oldestKey.
  assert (Forall (λ e : string * V, e.1 ≠ "" ∧ m !! e.1 = Some e.2) (range_list m)) as Hl.
  { apply Forall_forall. intros [k v] Hin%range_list_elem. cbn. split; [|done]. intros ->. congruence. }
  destruct (range_list m) as [|[k0 v0] l] eqn:El.
  { exfalso. apply Hne. apply map_empty. intros k. destruct (m !! k) as [v|] eqn:E; [|done].
    apply range_list_elem in E. rewrite El in E. by apply elem_of_nil in E. }
  apply Forall_cons in Hl as [[H1 H2] Hl]. cbn [fst snd] in *. cbn [fold_left].
  assert (older at_of m "" (k0, v0) = k0) as -> by done.
  destruct (scan_min m l k0 v0 H1 H2 Hl) as (k & w & -> & Hk & Hm & H0 & Hf).
  exists w. split; [done|]. intros k' w' H. apply range_list_elem in H. rewrite El in H.
  apply elem_of_cons in H as [[= -> ->]|H]; [done|]. by apply (proj1 (Forall_forall _ _) Hf).
Qed.

Lemma evictOldest_subseteq fuel m : evictOldest at_of fuel m ⊆ m.
Proof using.
  revert m. induction fuel as [|fuel IH]; intros m; cbn [evictOldest]; [done|].
  destruct (_ <? _)%nat; [|done]. etrans; [apply IH|apply delete_subseteq].
Qed.

(** A bounded cache answers only what was recorded. *)
Lemma rememberBounded_lookup m key v k w : rememberBounded at_of m key v !! k = Some w → (k = key ∧ w = v) ∨ m !! k = Some w.
Proof using.
  unfold rememberBounded. intros H. eapply lookup_weaken in H; [|apply evictOldest_subseteq].
  apply lookup_insert_Some in H as [[<- <-]|[? ?]]; [by left|by right].
Qed.

Definition evicted_spec (m m' : gmap string V) : Prop :=
  m' ⊆ m ∧ ∀ k v k' v', m !! k = Some v → m' !! k = None → m' !! k' = Some v' → entry_le (k, v) (k', v').

Lemma evictOldest_spec fuel m : m !! "" = None → (size m ≤ fuel)%nat →
  (size (evictOldest at_of fuel m) ≤ maxSnapshotEvidence)%nat ∧ evicted_spec m (evictOldest at_of fuel m).
Proof using.
  revert m. induction fuel as [|fuel IH]; intros m He Hs; cbn [evictOldest].
  - assert (size m = 0)%nat as E by lia. rewrite E. split; [lia|]. split; [done|congruence].
  - destruct (Nat.ltb_spec maxSnapshotEvidence (size m)) as [Hlt|]; [|split; [lia|split; [done|congruence]]].
    assert (m ≠ ∅) as Hne by (intros ->; rewrite map_size_empty in Hlt; lia).
    destruct (oldestKey_min m He Hne) as (v0 & Hv0 & Hmin). set (o := oldestKey at_of m) in *.
    destruct (IH (delete o m)) as [Hsz [Hsub Hev]].
    + by rewrite lookup_delete_None; right.
    + rewrite map_size_delete_Some by eauto. lia.
    + split; [done|]. split; [etrans; [exact Hsub|apply delete_subseteq]|].
      intros k v k' v' Hk Hk' Hin. destruct (decide (k = o)) as [->|Hko].
      * rewrite Hv0 in Hk. injection Hk as <-. apply Hmin.
        apply (lookup_weaken _ _ _ _ Hin) in Hsub. by apply lookup_delete_Some in Hsub as [_ ?].
      * eapply Hev; [by rewrite lookup_delete_ne|done..].
Qed.
End cache.
#[global] Opaque maxSnapshotEvidence.

(** ** Checkpoints: lemmas *)

Section checkpoints.
Context `{!MapRange string snapshotClassification} (digest : string * list Source → string).

Lemma attempts_keep_checkpoints now s r : CopyCheckpoints (recordCopyAttemptsLocked now s r) = CopyCheckpoints s.
Proof using.
  unfold recordCopyAttemptsLocked. revert s. induction (run_copies r) as [|c cs IH]; intros s; [done|].
  cbn [fold_left]. rewrite IH. unfold recordCopyAttempt. by destruct (negb _).
Qed.

(** A checkpoint that establishes protection at the time [now]. *)
Definition checkpoint_from (r : Run) (new : copyCheckpoint) : Prop :=
  run_captured_at r = Some (cp_captured_at new) ∧ cp_run new = run_id r ∧ cp_snapshot new ≠ "" ∧
  cp_verification new ∈ [recoveryObjectsVerified; "snapshot_metadata_verified"].

Definition succeeds (now : Time) (r : Run) (old new : copyCheckpoint) : Prop :=
  cp_captured_at old <= cp_captured_at new ∧ future now (cp_captured_at new) = false ∧ (new = old ∨ checkpoint_from r new).

Lemma recordCheckpoint_succeeds now captured r p s c key old cur :
  run_captured_at r = Some captured → CopyCheckpoints s !! key = Some cur → succeeds now r old cur →
  ∃ new, CopyCheckpoints (recordCheckpoint digest now captured r p s c) !! key = Some new ∧ succeeds now r old new.
Proof using.
  intros Hr Hk Hs. unfold recordCheckpoint. destruct (negb (configured _ _ _)); [by exists cur|].
  destruct (_ || _) eqn:E; [by exists cur|]. apply orb_false_iff in E as [E1 E2]. boolify.
  set (key' := checkpointKey _ _). destruct (decide (key' = key)) as [->|Hne].
  - rewrite Hk. destruct (keepsCheckpoint now captured r c cur) eqn:Ek; [by exists cur|].
    exists (checkpointOf digest captured r p c).
    split; [by destruct (str_eqb _ _); cbn; rewrite lookup_insert_eq|].
    destruct Hs as (Hle & Hf & _). unfold keepsCheckpoint in Ek. rewrite Hf in Ek. cbn in Ek.
    apply orb_false_iff in Ek as [[Ek1 Ek2]%orb_false_iff _]. rewrite Ek1 in Ek2. cbn in Ek2. unfold after in Ek2.
    apply Z.ltb_ge in Ek2. split_and!; cbn; [lia|done|right]. by split_and!; cbn.
  - exists cur. split; [|done]. destruct (match CopyCheckpoints s !! key' with Some _ => _ | None => _ end); [done|].
    destruct (str_eqb _ _); cbn; by rewrite lookup_insert_ne.
Qed.
End checkpoints.

(** ** Properties *)

(** the cache of snapshot classifications is bounded and sound: it never
    exceeds its limit, whatever it answers was recorded (eviction cannot make an
    unverified snapshot eligible), and only the oldest entries are evicted, in an
    order that does not depend on map iteration. *)
Theorem classification_cache_sound `{!MapRange string snapshotClassification} s destinationID id status at_ :
  SnapshotClassifications s !! "" = None →
  let recorded := <[snapshotEvidenceKey destinationID id := mkClass snapshotClassificationVersion status at_]> (SnapshotClassifications s) in
  let s' := rememberSnapshotClassificationLocked s destinationID id status at_ in
  (size (SnapshotClassifications s') ≤ maxSnapshotEvidence)%nat ∧
  SnapshotClassifications s' ⊆ recorded ∧
  (∀ k v k' v', recorded !! k = Some v → SnapshotClassifications s' !! k = None → SnapshotClassifications s' !! k' = Some v' →
     sc_at v < sc_at v' ∨ (sc_at v = sc_at v' ∧ String.le k k')).
Proof.
  intros He recorded s'. destruct (evictOldest_spec sc_at (size recorded) recorded) as [H1 [H2 H3]]; [|lia|].
  { unfold recorded. rewrite lookup_insert_ne; [done|]. unfold snapshotEvidenceKey. by destruct destinationID. }
  split_and!; [exact H1|exact H2|]. intros k v k' v' Hk Hk' Hin. exact (H3 k v k' v' Hk Hk' Hin).
Qed.

(** protection never goes backwards: recording a run (a retry of an old
    capture, or one whose capture time is in the future, included) never replaces
    a copy's checkpoint by an older capture; a replacement names a snapshot of
    that run whose verification succeeded. *)
Theorem checkpoint_never_regresses `{!MapRange string snapshotClassification} digest now s r p key old :
  CopyCheckpoints s !! key = Some old → future now (cp_captured_at old) = false →
  ∃ new, CopyCheckpoints (recordCheckpointsLocked digest now s r p) !! key = Some new ∧
    cp_captured_at old <= cp_captured_at new ∧ future now (cp_captured_at new) = false ∧
    (new = old ∨ checkpoint_from r new).
Proof.
  intros Hk Hf. unfold recordCheckpointsLocked. rewrite <- (attempts_keep_checkpoints now s r) in Hk.
  destruct (run_captured_at r) as [captured|] eqn:Hr; [|exists old; split_and!; [done|lia|done|by left]].
  generalize dependent (recordCopyAttemptsLocked now s r). clear s. intros s Hk.
  assert (succeeds now r old old) as Hs by (split_and!; [lia|done|by left]).
  enough (∀ cs s cur, CopyCheckpoints s !! key = Some cur → succeeds now r old cur →
    ∃ new, CopyCheckpoints (fold_left (recordCheckpoint digest now captured r p) cs s) !! key = Some new ∧ succeeds now r old new)
    as H by (by eapply H).
  clear s Hk Hs. induction cs as [|c cs IH]; intros s cur Hk Hs; [by exists cur|]. cbn [fold_left].
  destruct (recordCheckpoint_succeeds digest now captured r p s c key old cur Hr Hk Hs) as (new & Hn & Hs').
  by eapply IH.
Qed.

(** ** Concrete runs *)

#[local] Instance demoClassRange : MapRange string snapshotClassification := default_range string snapshotClassification.

Definition demoPlan : Plan := mkPlan "plan_1" "Nightly" true "stop" []
  [mkAssignment "dst_1" true demoManual (mkRetention 7 4 6) None None] 0 0 0.
Definition demoCopy (snapshot : string) (at_ : Time) : CopyResult :=
  mkCopy "dst_1" "succeeded" snapshot (Some at_) recoveryObjectsVerified (Some at_) "succeeded" "" (Some at_) "" (Some at_) (Some at_).
Definition demoRun (id snapshot : string) (captured at_ : Time) : Run :=
  mkRun id "job_1" "plan_1" "succeeded" "succeeded" "finished" (Some at_) (Some captured) captured (captured + Day)
    [demoCopy snapshot at_] "" "Nightly" true.
Definition demoBackup : state :=
  mkState ∅ ∅ ∅ ∅ ∅ ∅ ∅ "instance_1" {[ "dst_1" := demoDestination ]} {[ "plan_1" := demoPlan ]} ∅.
Definition demoDigestOf (s : string * list Source) : string := s.1.

(** The second run is recorded, then a retry of the first run. *)
Definition demoRecorded : state :=
  recordCheckpointsLocked demoDigestOf (10 * Hour) demoBackup (demoRun "run_2" "bbbbbbbb" (9 * Hour) (10 * Hour)) demoPlan.

Definition demoReclassified : state :=
  rememberSnapshotClassificationLocked demoRecorded "dst_1" "cccccccc" "incomplete" (11 * Hour).

Lemma demoRecorded_no_empty_key : SnapshotClassifications demoRecorded !! "" = None.
Proof. vm_compute. reflexivity. Qed.

Lemma classification_cache_sound_witness :
  (size (SnapshotClassifications demoReclassified) ≤ maxSnapshotEvidence)%nat.
Proof.
  unfold demoReclassified. generalize demoRecorded_no_empty_key. generalize demoRecorded. intros s He.
  exact (proj1 (classification_cache_sound s "dst_1" "cccccccc" "incomplete" (11 * Hour) He)).
Defined.

Lemma checkpoint_never_regresses_witness :
  ∃ old new, CopyCheckpoints demoRecorded !! "plan_1/dst_1" = Some old ∧
    CopyCheckpoints (recordCheckpointsLocked demoDigestOf (11 * Hour) demoRecorded
      (demoRun "run_1" "aaaaaaaa" (8 * Hour) (11 * Hour)) demoPlan) !! "plan_1/dst_1" = Some new ∧
    cp_captured_at old <= cp_captured_at new.
Proof.
  destruct (CopyCheckpoints demoRecorded !! "plan_1/dst_1") as [old|] eqn:E; [|by vm_compute in E].
  destruct (checkpoint_never_regresses demoDigestOf (11 * Hour) demoRecorded
    (demoRun "run_1" "aaaaaaaa" (8 * Hour) (11 * Hour)) demoPlan "plan_1/dst_1" old E) as (new & Hn & Hle & _).
  - vm_compute in E. injection E as <-. by vm_compute.
  - exists old, new. split_and!; [reflexivity|exact Hn|exact Hle].
Defined.
