(* ===== verification/BackupRetention.v ===== *)
(** * internal/backup/retention.go, snapshot_verification.go: which snapshots are deleted

    The keep rules, the classification of saved snapshots, and the whole
    [retain] operation with its effects: the state kept in memory, the state
    written to the settings, and the restic commands in order.  restic itself is
    a parameter: what it listed, what the verification of a snapshot found and
    whether a command failed are fields of [retainEnv]. *)

From stdpp Require Import gmap strings list sorting sets.
From Stdlib Require Import Ascii ZArith.
From S2P Require Import Prelude GoStrings GoTime BackupSchedule BackupEvidence BackupState.

Local Open Scope Z_scope.

(** ** Data *)

(** The fields of [Snapshot] that retention reads. *)
Record Snapshot := mkSnapshot { sn_id : string; sn_time : Time }.

#[global] Instance Snapshot_eq_dec : EqDecision Snapshot.
Proof. solve_decision. Defined.

Definition hex_char (c : ascii) : bool :=
  is_digit c || ((97 <=? byte_of c) && (byte_of c <=? 102)).

(** The pattern [^[a-f0-9]{8,64}$]. *)
Definition snapshotID (s : string) : bool := all_chars hex_char s && (8 <=? slen s) && (slen s <=? 64).

(** ** Keep rules *)

Definition keepAllSnapshots (policy : Retention) : bool :=
  (Daily policy =? 0) && (Weekly policy =? 0) && (Monthly policy =? 0).

(** The newest first; equal times in the order of the ids. *)
Definition snap_le (a b : Snapshot) : Prop :=
  sn_time b < sn_time a ∨ (sn_time a = sn_time b ∧ String.le (sn_id a) (sn_id b)).

#[global] Instance snap_le_dec : RelDecision snap_le.
Proof. intros a b. unfold snap_le. apply _. Defined.

Definition orderSnapshots (l : list Snapshot) : list Snapshot := merge_sort snap_le l.

Record bucket := mkBucket { b_count : Z; b_key : Time → string }.

(** [%04d] for a year that may be the one before year 0. *)
Definition fmt_year (y : Z) : string := if y <? 0 then "-" +:+ zpad 3 (- y) else zpad 4 y.

Definition day_key (t : Time) : string := fmt_date (utc_day t).
Definition week_key (t : Time) : string :=
  let '(y, w) := iso_week (utc_day t) in fmt_year y +:+ "-" +:+ zpad 2 w.
Definition month_key (t : Time) : string :=
  let '(y, m, _) := civil (utc_day t) in zpad 4 y +:+ "-" +:+ zpad 2 m.

Definition buckets (policy : Retention) : list bucket :=
  [mkBucket (Daily policy) day_key; mkBucket (Weekly policy) week_key; mkBucket (Monthly policy) month_key].

(** The loop over the ordered snapshots: the periods seen and the ids kept. *)
Fixpoint bucketScan (count : Z) (key : Time → string) (l : list Snapshot) (periods keep : gset string) : gset string * gset string :=
  match l with
  | [] => (periods, keep)
  | s :: l' =>
    let period := key (sn_time s) in
    if bool_decide (period ∈ periods) then bucketScan count key l' periods keep
    else if count <=? Z.of_nat (size periods) then (periods, keep)
    else bucketScan count key l' ({[period]} ∪ periods) ({[sn_id s]} ∪ keep)
  end.

Definition keepBucket (ordered : list Snapshot) (keep : gset string) (b : bucket) : gset string :=
  if b_count b <=? 0 then keep
  else
    let '(periods, keep) := bucketScan (b_count b) (b_key b) ordered ∅ keep in
    match last ordered with
    | Some oldest => if Z.of_nat (size periods) <? b_count b then {[sn_id oldest]} ∪ keep else keep
    | None => keep
    end.

Definition retainedSnapshotIDs (snapshots : list Snapshot) (policy : Retention) : gset string :=
  fold_left (keepBucket (orderSnapshots snapshots)) (buckets policy) ∅.

(** ** Keep rules: the order of snapshots *)

#[global] Instance snap_le_trans : Transitive snap_le.
Proof. intros a b c. unfold snap_le. intros [?|[? ?]] [?|[? ?]]; [left; lia..|]. right. split; [lia|by etrans]. Qed.

#[global] Instance snap_le_total : Total snap_le.
Proof.
  intros [i t] [j u]. unfold snap_le. cbn.
  destruct (Z.lt_trichotomy t u) as [?|[->|?]]; [right; by left| |left; by left].
  destruct (total String.le i j); [left|right]; by right.
Qed.

#[global] Instance snap_le_antisym : AntiSymm (=) snap_le.
Proof.
  intros [i t] [j u]. unfold snap_le. cbn. intros [?|[-> ?]] [?|[? ?]]; [lia..|]. f_equal. by apply (anti_symm String.le).
Qed.

Lemma orderSnapshots_elem l s : s ∈ orderSnapshots l ↔ s ∈ l.
Proof. unfold orderSnapshots. by rewrite merge_sort_Permutation. Qed.

Lemma orderSnapshots_sorted l : StronglySorted snap_le (orderSnapshots l).
Proof. apply Sorted_StronglySorted; [apply _|]. apply Sorted_merge_sort, _. Qed.

Lemma orderSnapshots_perm l k : l ≡ₚ k → orderSnapshots l = orderSnapshots k.
Proof.
  intros Hp. eapply (Sorted_unique snap_le); [apply Sorted_merge_sort, _..|].
  unfold orderSnapshots. by rewrite !merge_sort_Permutation.
Qed.

(** [a] was taken before [b] in the order of retention: it is strictly newer. *)
Definition newer (a b : Snapshot) : Prop := snap_le a b ∧ a ≠ b.

#[global] Instance newer_dec : RelDecision newer.
Proof. intros a b. unfold newer. apply _. Defined.

(** The elements before the first occurrence of [s] are the newer ones. *)
Lemma sorted_prefix_newer l1 s l2 s' : StronglySorted snap_le (l1 ++ s :: l2) → s ∉ l1 →
  s' ∈ l1 ↔ s' ∈ l1 ++ s :: l2 ∧ newer s' s.
Proof.
  intros Hs Hn. split.
  - intros Hin. split; [set_solver|]. split; [|by intros ->].
    induction l1 as [|x l1 IH]; [set_solver|]. apply StronglySorted_inv in Hs as [Hs Hf].
    apply elem_of_cons in Hin as [->|Hin]; [|apply IH; [done|set_solver|done]].
    rewrite Forall_forall in Hf. apply Hf. set_solver.
  - intros [[Hin|[->|Hin]%elem_of_cons]%elem_of_app [Hle Hne]]; [done..|]. exfalso. apply Hne.
    apply (anti_symm snap_le); [done|]. clear Hn Hne Hle.
    induction l1 as [|x l1 IH]; cbn in Hs; apply StronglySorted_inv in Hs as [Hs Hf]; [|by apply IH].
    rewrite Forall_forall in Hf. by apply Hf.
Qed.

Lemma last_oldest l s : last (orderSnapshots l) = Some s → s ∈ l ∧ ∀ s', s' ∈ l → s' = s ∨ newer s' s.
Proof.
  intros [l1 E]%last_Some. split; [rewrite <- orderSnapshots_elem, E; set_solver|].
  intros s' Hin. rewrite <- orderSnapshots_elem, E in Hin.
  destruct (decide (s' = s)) as [->|Hne]; [by left|right]. split; [|done].
  pose proof (orderSnapshots_sorted l) as Hs. rewrite E in Hs. apply elem_of_app in Hin as [Hin|Hin]; [|set_solver].
  clear E Hne. induction l1 as [|x l1 IH]; [set_solver|]. apply StronglySorted_inv in Hs as [Hs Hf].
  apply elem_of_cons in Hin as [->|Hin]; [|by apply IH]. rewrite Forall_forall in Hf. apply Hf. set_solver.
Qed.

(** ** Keep rules: the loop over one bucket *)

Section bucket.
Context (count : Z) (key : Time → string).

Definition periodsOf (l : list Snapshot) : gset string := list_to_set ((λ s, key (sn_time s)) <$> l).

Lemma periodsOf_elem l p : p ∈ periodsOf l ↔ ∃ s, s ∈ l ∧ key (sn_time s) = p.
Proof using. unfold periodsOf. rewrite elem_of_list_to_set, list_elem_of_fmap. naive_solver. Qed.

Lemma periodsOf_cons s l : periodsOf (s :: l) = {[key (sn_time s)]} ∪ periodsOf l.
Proof using. done. Qed.

Lemma periodsOf_size_mono (P Q : gset string) : P ⊆ Q → (size P ≤ size Q)%nat.
Proof using. apply subseteq_size. Qed.

(** What the loop keeps, by position, and when it runs out of periods. *)
Lemma bucketScan_spec l periods keep :
  let r := (bucketScan count key l periods keep) in
  (∀ id, id ∈ r.2 ↔ id ∈ keep ∨ ∃ l1 s l2, l = l1 ++ s :: l2 ∧ sn_id s = id ∧
     (key (sn_time s) ∉ periods ∪ periodsOf l1) ∧ Z.of_nat (size (periods ∪ periodsOf l1)) < count) ∧
  (Z.of_nat (size r.1) < count ↔ Z.of_nat (size (periods ∪ periodsOf l)) < count).
Proof using.
  revert periods keep. induction l as [|x l IH]; intros periods keep; cbn [bucketScan].
  { cbn [fst snd]. change (periodsOf []) with (∅ : gset string). split; [|by rewrite (right_id_L ∅ (∪))]. intros id. split; [by left|]. intros [?|([|] & ? & ? & ? & _)]; done. }
  case_bool_decide as Hin; [|destruct (Z.leb_spec count (Z.of_nat (size periods))) as [Hc|Hc]].
  - destruct (IH periods keep) as [H1 H2]. rewrite periodsOf_cons.
    assert (∀ Q : gset string, periods ∪ ({[key (sn_time x)]} ∪ Q) = periods ∪ Q) as HQ by set_solver.
    split; [|by rewrite HQ]. intros id. rewrite (H1 id). apply or_iff_compat_l. split.
    + intros (l1 & s & l2 & -> & ? & ? & ?). exists (x :: l1), s, l2. rewrite periodsOf_cons, HQ. done.
    + intros ([|y l1] & s & l2 & [= <- ->] & ? & Hn & ?); [set_solver|].
      rewrite periodsOf_cons, HQ in *. by exists l1, s, l2.
  - cbn [fst snd]. split.
    + intros id. split; [by left|]. intros [?|(l1 & s & l2 & _ & _ & _ & Hs)]; [done|].
      pose proof (periodsOf_size_mono periods (periods ∪ periodsOf l1) ltac:(set_solver)). lia.
    + pose proof (periodsOf_size_mono periods (periods ∪ periodsOf (x :: l)) ltac:(set_solver)). split; lia.
  - destruct (IH ({[key (sn_time x)]} ∪ periods) ({[sn_id x]} ∪ keep)) as [H1 H2].
    assert (∀ Q : gset string, periods ∪ ({[key (sn_time x)]} ∪ Q) = ({[key (sn_time x)]} ∪ periods) ∪ Q) as HQ by set_solver.
    rewrite periodsOf_cons, HQ. split; [|done]. intros id. rewrite (H1 id), elem_of_union, elem_of_singleton. split.
    + intros [[->|?]|(l1 & s & l2 & -> & ? & ? & ?)]; [|by left|]; right.
      * exists [], x, l. change (periodsOf []) with (∅ : gset string). rewrite (right_id_L ∅ (∪)). done.
      * exists (x :: l1), s, l2. rewrite periodsOf_cons, HQ. done.
    + intros [?|([|y l1] & s & l2 & [= <- ->] & <- & Hn & ?)]; [by left; right|by left; left|].
      rewrite periodsOf_cons, HQ in *. right. by exists l1, s, l2.
Qed.

Lemma bucketScan_sizes l periods keep : let r := bucketScan count key l periods keep in
  (size r.2 + size periods ≤ size keep + size r.1)%nat ∧ Z.of_nat (size r.1) <= Z.max (Z.of_nat (size periods)) count.
Proof using.
  revert periods keep. induction l as [|x l IH]; intros periods keep; cbn [bucketScan]; [cbn; lia|].
  case_bool_decide as Hin; [apply IH|]. destruct (Z.leb_spec count (Z.of_nat (size periods))); [cbn; lia|].
  destruct (IH ({[key (sn_time x)]} ∪ periods) ({[sn_id x]} ∪ keep)) as [H1 H2]. cbn zeta.
  rewrite (size_union _ periods), size_singleton in H1, H2 by set_solver.
  assert (size ({[sn_id x]} ∪ keep) ≤ 1 + size keep)%nat.
  { rewrite size_union_alt, size_singleton. pose proof (subseteq_size (keep ∖ {[sn_id x]}) keep ltac:(set_solver)). lia. }
  split; lia.
Qed.

(** The declarative rule: [s] is the newest snapshot of its period and one of
    the [count] newest periods, or the oldest snapshot when there are fewer
    periods than that. *)
Definition newestOfPeriod (l : list Snapshot) (s : Snapshot) : Prop :=
  (∀ s', s' ∈ l → newer s' s → key (sn_time s') ≠ key (sn_time s)) ∧
  Z.of_nat (size (periodsOf (filter (λ s', newer s' s) l))) < count.
Definition oldestOfFew (l : list Snapshot) (s : Snapshot) : Prop :=
  (∀ s', s' ∈ l → s' = s ∨ newer s' s) ∧ Z.of_nat (size (periodsOf l)) < count.

Lemma periods_before l l1 s l2 : orderSnapshots l = l1 ++ s :: l2 → s ∉ l1 →
  periodsOf l1 = periodsOf (filter (λ s', newer s' s) l).
Proof using.
  intros E Hn. pose proof (orderSnapshots_sorted l) as Hs. rewrite E in Hs.
  apply set_eq. intros p. rewrite !periodsOf_elem. apply exist_proper. intros s'.
  rewrite list_elem_of_filter, <- (orderSnapshots_elem l), E, (sorted_prefix_newer l1 s l2 s' Hs Hn).
  tauto.
Qed.

Lemma scan_newest l id :
  (∃ l1 s l2, orderSnapshots l = l1 ++ s :: l2 ∧ sn_id s = id ∧
     (key (sn_time s) ∉ ∅ ∪ periodsOf l1) ∧ Z.of_nat (size (∅ ∪ periodsOf l1)) < count) ↔
  ∃ s, s ∈ l ∧ sn_id s = id ∧ newestOfPeriod l s.
Proof using.
  split.
  - intros (l1 & s & l2 & E & Hid & Hn & Hc). rewrite (left_id_L ∅ (∪)) in *. exists s.
    assert (s ∉ l1) as Hs1 by (intros ?; apply Hn, periodsOf_elem; eauto).
    pose proof (periods_before l l1 s l2 E Hs1) as HP.
    split_and!; [rewrite <- orderSnapshots_elem, E; set_solver|done|]. split; [|by rewrite <- HP].
    intros s' Hin Hnew Hk. apply Hn. rewrite HP, <- Hk. apply periodsOf_elem. exists s'. by rewrite list_elem_of_filter.
  - intros (s & Hin & Hid & Hnew & Hc). rewrite <- orderSnapshots_elem in Hin.
    apply list_elem_of_split_l in Hin as (l1 & l2 & E & Hs1). exists l1, s, l2.
    rewrite (left_id_L ∅ (∪)), (periods_before l l1 s l2 E Hs1). split_and!; [done..| |done].
    rewrite periodsOf_elem. intros (s' & [? ?]%list_elem_of_filter & Hk). by eapply Hnew.
Qed.
End bucket.

(** The rule of the whole policy. *)
Definition retainedBy (l : list Snapshot) (policy : Retention) (s : Snapshot) : Prop :=
  ∃ b, b ∈ buckets policy ∧ 0 < b_count b ∧
    (newestOfPeriod (b_count b) (b_key b) l s ∨ oldestOfFew (b_count b) (b_key b) l s).

Lemma keepBucket_spec l keep b id : id ∈ keepBucket (orderSnapshots l) keep b ↔
  id ∈ keep ∨ (0 < b_count b ∧ ∃ s, s ∈ l ∧ sn_id s = id ∧
    (newestOfPeriod (b_count b) (b_key b) l s ∨ oldestOfFew (b_count b) (b_key b) l s)).
Proof.
  unfold keepBucket. destruct (Z.leb_spec (b_count b) 0) as [|Hc]; [intuition lia|].
  destruct (bucketScan_spec (b_count b) (b_key b) (orderSnapshots l) ∅ keep) as [H1 H2].
  destruct (bucketScan _ _ _ _ _) as [periods keep']. cbn [fst snd] in *.
  specialize (H1 id). rewrite scan_newest in H1.
  assert (periodsOf (b_key b) (orderSnapshots l) = periodsOf (b_key b) l) as HP.
  { apply set_eq. intros p. rewrite !periodsOf_elem. by setoid_rewrite orderSnapshots_elem. }
  rewrite (left_id_L ∅ (∪)), HP in H2. clear HP.
  destruct (last (orderSnapshots l)) as [o|] eqn:Ho.
  2:{ apply last_None in Ho. assert (∀ s, s ∉ l) as Hl by (intros s; rewrite <- orderSnapshots_elem, Ho; apply not_elem_of_nil).
      rewrite H1. naive_solver. }
  apply last_oldest in Ho as [Ho Hmin].
  destruct (Z.ltb_spec (Z.of_nat (size periods)) (b_count b)) as [Hf|Hf].
  - rewrite elem_of_union, elem_of_singleton, H1. apply H2 in Hf. split.
    + intros [->|[?|(s & ? & ? & ?)]]; [right|by left|right]; split; [done| |done|eauto 6].
      exists o. split_and!; [done..|]. right. by split.
    + intros [?|(_ & s & Hs & <- & [?|[Hs2 _]])]; [by right; left|right; right; by exists s|].
      left. destruct (Hs2 o Ho) as [->|[Hso Hne]]; [done|]. destruct (Hmin s Hs) as [->|[Hos _]]; [done|].
      by rewrite (anti_symm snap_le o s).
  - rewrite H1. apply or_iff_compat_l. split.
    + intros (s & ? & ? & ?). split; [done|]. eauto 6.
    + intros (_ & s & ? & ? & [?|[_ Hx]]); [eauto|]. apply H2 in Hx. lia.
Qed.

Lemma retained_rule l policy id : id ∈ retainedSnapshotIDs l policy ↔ ∃ s, s ∈ l ∧ sn_id s = id ∧ retainedBy l policy s.
Proof.
  unfold retainedSnapshotIDs, retainedBy. generalize (buckets policy). intros bs.
  assert (∀ keep : gset string, id ∈ fold_left (keepBucket (orderSnapshots l)) bs keep ↔ id ∈ keep ∨
    ∃ s, s ∈ l ∧ sn_id s = id ∧ ∃ b, b ∈ bs ∧ 0 < b_count b ∧
      (newestOfPeriod (b_count b) (b_key b) l s ∨ oldestOfFew (b_count b) (b_key b) l s)) as H.
  { induction bs as [|b bs IH]; intros keep; cbn [fold_left].
    - split; [by left|]. intros [?|(? & _ & _ & ? & []%elem_of_nil & _)]; done.
    - rewrite IH, keepBucket_spec. setoid_rewrite elem_of_cons. naive_solver. }
  rewrite H. set_solver.
Qed.

(** ** Verification of a saved snapshot (snapshot_verification.go) *)

Inductive verify_error : Type :=
| errIncompleteSnapshot | errLegacySnapshot | errUnsupportedSnapshot | errInvalidSnapshot
| Unavailable (message : string).

Definition savedSnapshotClassification (err : option verify_error) : option string :=
  match err with
  | None => Some "complete"
  | Some errIncompleteSnapshot => Some "incomplete"
  | Some errLegacySnapshot => Some "legacy"
  | Some errUnsupportedSnapshot => Some "unsupported"
  | Some errInvalidSnapshot => Some "invalid"
  | Some (Unavailable _) => None
  end.

Record node := mkNode { node_path : string; node_type : string; node_size : Z }.

(** The lines of [restic ls] as [encoding/json] reads them: [None] for a line
    that is not a JSON object of the expected types; blank lines are skipped. *)
Definition listing_lines := list (option node).

(** One line of the listing against the objects still expected. *)
Definition checkNode (expected : gmap string Z) (line : option node) : res verify_error (gmap string Z) :=
  match line with
  | None => Err (Unavailable "invalid repository file listing")
  | Some n =>
    match expected !! node_path n with
    | None => Ok expected
    | Some size =>
      if negb (str_eqb (node_type n) "file") || (node_size n <? 0) || ((0 <=? size) && negb (node_size n =? size))
      then Err errIncompleteSnapshot
      else Ok (delete (node_path n) expected)
    end
  end.

Fixpoint checkNodes (expected : gmap string Z) (ls : listing_lines) : res verify_error (gmap string Z) :=
  match ls with
  | [] => Ok expected
  | line :: ls' => let? expected := checkNode expected line in checkNodes expected ls'
  end.

Definition verifySnapshotObjects (output : res string listing_lines) (expected : gmap string Z) : option verify_error :=
  match output with
  | Err message => Some (Unavailable message)
  | Ok ls =>
    match checkNodes expected ls with
    | Err e => Some e
    | Ok rest => if bool_decide (size rest = 0%nat) then None else Some errIncompleteSnapshot
    end
  end.

(** The fields of a manifest source that the verification reads. *)
Record manifestSource := mkManifestSource {
  ms_archive : bool; ms_saved_path : string; ms_index_path : string; ms_size : Z }.

Definition trim_slash (s : string) : string := match strip_prefix "/" s with Some r => r | None => s end.

(** [None] when a source has no archive. *)
Fixpoint expectedObjects (expected : gmap string Z) (sources : list manifestSource) : option (gmap string Z) :=
  match sources with
  | [] => Some expected
  | s :: rest =>
    if negb (ms_archive s) then None
    else
      let expected := <["/" +:+ trim_slash (ms_saved_path s) := ms_size s]> expected in
      let expected := if str_empty (ms_index_path s) then expected else <["/" +:+ ms_index_path s := -1]> expected in
      expectedObjects expected rest
  end.

Definition manifestOnly : gmap string Z := {["/manifest.json" := -1]}.

(** The two listings and the manifest read between them. *)
Definition verifySavedSnapshot (first : res string listing_lines) (manifest : res verify_error (list manifestSource))
    (second : res string listing_lines) : option verify_error :=
  match verifySnapshotObjects first manifestOnly with
  | Some e => Some e
  | None =>
    match manifest with
    | Err e => Some e
    | Ok sources =>
      match expectedObjects manifestOnly sources with
      | None => Some errLegacySnapshot
      | Some expected => verifySnapshotObjects second expected
      end
    end
  end.

(** ** retain *)

(** The errors, in the order [errors.Join] lists them. *)
Definition errors := list backup_error.

Definition retentionScope (d : Destination) : string :=
  if failed (DataCheck d)
     || match CheckHolds d with Some h => negb (str_eqb (hold_scope h) "metadata") | None => false end
     || (str_eqb (CheckStatus d) "failed" && negb (failed (MetadataCheck d)))
  then "full data" else "metadata".

Definition retentionBlockedError (d : Destination) : option backup_error :=
  if negb (repositoryMaintenanceBlocked d) then None
  else if str_eqb (CheckStatus d) "failed" || failed (MetadataCheck d) || failed (DataCheck d)
  then Some (ErrBusy ("retention is blocked by unresolved repository integrity failure; preserve existing snapshots and run a successful "
                      +:+ retentionScope d +:+ " check after repair"))
  else Some (ErrBusy ("retention is blocked by an unresolved repository check; run a successful "
                      +:+ retentionScope d +:+ " check before destructive maintenance")).

Definition currentRetentionLocked (s : state) (planID destinationID : string) : res backup_error (Destination * Retention) :=
  match Plans s !! planID with
  | None => Err (ErrInvalid "retention requires an existing enabled plan")
  | Some plan =>
    if negb (p_enabled plan) then Err (ErrInvalid "retention requires an existing enabled plan")
    else match find (λ a, str_eqb (DestinationID a) destinationID) (p_destinations plan) with
         | None => Err (ErrInvalid "retention destination is no longer assigned to this plan")
         | Some a =>
           if negb (AssignmentEnabled a) then Err (ErrInvalid "retention requires an enabled destination assignment")
           else match Destinations s !! destinationID with
                | None => Err (ErrInvalid "retention destination no longer exists")
                | Some d =>
                  match (if keepAllSnapshots (AssignmentRetention a) then None else retentionBlockedError d) with
                  | Some e => Err e
                  | None => Ok (d, AssignmentRetention a)
                  end
                end
         end
  end.

(** restic, the file system and the clock during one retention. *)
Record retainEnv := mkRetainEnv {
  env_listing : res string (option (list Snapshot));  (* [None]: not a JSON inventory *)
  env_verify : string → option verify_error;
  env_forget : nat → option string;  (* by command *)
  env_prune : option string;
  env_init_error : option string;
  env_write : nat → option string;  (* the settings write, by attempt *)
  env_remove_staging : string → bool;
  env_now : nat → Time  (* by reading *)
}.

Inductive command : Type := Forget (ids : list string) | PruneRepository.

Section retain.
Context `{!MapRange string snapshotClassification, !MapRange string (Run * Plan)}.

(** The pattern [^[a-zA-Z0-9_-]{1,100}$]. *)
Definition safeID (s : string) : bool :=
  all_chars (λ c, is_digit c || ((65 <=? byte_of c) && (byte_of c <=? 90)) || ((97 <=? byte_of c) && (byte_of c <=? 122))
                  || (byte_of c =? 95) || (byte_of c =? 45)) s && (1 <=? slen s) && (slen s <=? 100).

Definition with_runs (s : state) m := mkState (SnapshotClassifications s) (RetentionCursors s) (CopyAttempts s)
  (MaintenanceAttempts s) (VerifiedSnapshots s) (RestoreTests s) (CopyCheckpoints s) (InstanceID s) (Destinations s) (Plans s) m.

Definition run_expired (now : Time) (e : string * (Run * Plan)) : bool :=
  negb (str_in (run_state e.2.1) ["running"; "queued"]) && negb (before now (run_expires_at e.2.1)).

Definition newest_run_le (a b : string * (Run * Plan)) : Prop := run_created_at b.2.1 <= run_created_at a.2.1.

#[global] Instance newest_run_le_dec : RelDecision newest_run_le.
Proof using. intros a b. unfold newest_run_le. apply _. Defined.

Definition dropRun (removable : string → bool) (m : gmap string (Run * Plan)) (e : string * (Run * Plan)) : gmap string (Run * Plan) :=
  let id := run_id e.2.1 in
  if safeID id && negb (removable id) then m else delete id m.

Definition pruneMetadataLocked (removable : string → bool) (now : Time) (s : state) : state :=
  let expired := merge_sort newest_run_le (List.filter (run_expired now) (range_list (Runs s))) in
  with_runs s (fold_left (dropRun removable) (drop 200 expired) (Runs s)).

(** The new state, and the state that reached the settings or an error. *)
Definition persist (env : retainEnv) (attempt : nat) (now : Time) (s : state) : state * res backup_error state :=
  match env_init_error env with
  | Some message => (s, Err (ErrOther message))
  | None =>
    let s := pruneMetadataLocked (env_remove_staging env) now s in
    (s, match env_write env attempt with Some message => Err (ErrOther message) | None => Ok s end)
  end.

(** The walk over the inventory: the state, the verified snapshots so far and
    the verifications left. *)
Record walk := mkWalk { w_state : state; w_verified : list Snapshot; w_remaining : nat }.

Definition considered (now : Time) (sn : Snapshot) : bool :=
  snapshotID (sn_id sn) && negb (is_zero (sn_time sn)) && negb (future now (sn_time sn)).

Definition add_if_complete (status : string) (sn : Snapshot) (l : list Snapshot) : list Snapshot :=
  if str_eqb status "complete" then l ++ [sn] else l.

Definition inspect (env : retainEnv) (planID dID : string) (offset : nat) (w : walk) (sn : Snapshot) : res (state * backup_error) walk :=
  if negb (considered (env_now env (2 * offset)) sn) then Ok w
  else
    match snapshotClassificationLocked (w_state w) dID (sn_id sn) with
    | Some c => Ok (mkWalk (w_state w) (add_if_complete (sc_status c) sn (w_verified w)) (w_remaining w))
    | None =>
      match w_remaining w with
      | O => Ok w
      | S remaining =>
        let verificationErr := env_verify env (sn_id sn) in
        let s := rememberRetentionCursorLocked (w_state w) planID dID (sn_id sn) in
        match savedSnapshotClassification verificationErr with
        | None => Err (s, ErrOther "retention verification unavailable")
        | Some status =>
          Ok (mkWalk (rememberSnapshotClassificationLocked s dID (sn_id sn) status (env_now env (2 * offset + 1)))
                (add_if_complete status sn (w_verified w)) remaining)
        end
      end
    end.

Fixpoint walkFrom (env : retainEnv) (planID dID : string) (offset : nat) (w : walk) (l : list Snapshot) : res (state * backup_error) walk :=
  match l with
  | [] => Ok w
  | sn :: l' => let? w := inspect env planID dID offset w sn in walkFrom env planID dID (S offset) w l'
  end.

(** The inventory by id, from the first id after the cursor, around the end. *)
Definition walkOrder (cursor : string) (snapshots : list Snapshot) : list Snapshot :=
  let l := sort_by sn_id snapshots in
  match find_index_from (λ sn, str_ltb cursor (sn_id sn)) 0 l with
  | Some start => drop start l ++ take start l
  | None => l
  end.

(** [forget] in commands of at most 128 ids, until one fails. *)
Fixpoint forgetAll (fuel : nat) (env : retainEnv) (i : nat) (remove : list string) : list command * option backup_error :=
  match fuel, remove with
  | S fuel, _ :: _ =>
    match env_forget env i with
    | Some message => ([Forget (take 128 remove)], Some (ErrOther message))
    | None => let '(cs, e) := forgetAll fuel env (S i) (drop 128 remove) in (Forget (take 128 remove) :: cs, e)
    end
  | _, _ => ([], None)
  end.

Record outcome := mkOutcome {
  o_state : state; o_durable : option state; o_commands : list command; o_errors : errors }.

(** The deferred write when the evidence was not persisted. *)
Definition deferred (env : retainEnv) (s : state) (errs : errors) (attempt : nat) (reading : nat) : outcome :=
  match persist env attempt (env_now env reading) s with
  | (s, Ok durable) => mkOutcome s (Some durable) [] errs
  | (s, Err e) => mkOutcome s None [] (errs ++ [e])
  end.

Definition manualPrune (d : Destination) : bool := str_in (Frequency (PruneSchedule d)) [""; "manual"].

Definition protectCheckpoint (s : state) (planID dID : string) (keep : gset string) : gset string :=
  match CopyCheckpoints s !! checkpointKey planID dID with
  | Some cp => {[cp_snapshot cp]} ∪ keep
  | None => keep
  end.

(** The ids to delete, in the order of the walk. *)
Definition removeIDs (s : state) (planID dID : string) (policy : Retention) (verified : list Snapshot) : list string :=
  let keep := protectCheckpoint s planID dID (retainedSnapshotIDs verified policy) in
  List.filter (λ id, negb (bool_decide (id ∈ keep))) (sn_id <$> verified).

Definition destroy (env : retainEnv) (d : Destination) (remove : list string) : list command * option backup_error :=
  match forgetAll (length remove) env 0 remove with
  | (cs, Some e) => (cs, Some e)
  | (cs, None) =>
    match remove with
    | [] => (cs, None)
    | _ :: _ => if manualPrune d then (cs ++ [PruneRepository], ErrOther <$> env_prune env) else (cs, None)
    end
  end.

Definition retain (env : retainEnv) (s : state) (d : Destination) (planID : string) (policy : Retention) : outcome :=
  if keepAllSnapshots policy then mkOutcome s None [] []
  else match retentionBlockedError d with
  | Some e => mkOutcome s None [] [e]
  | None =>
    match env_listing env with
    | Err message => mkOutcome s None [] [ErrOther message]
    | Ok None => mkOutcome s None [] [ErrOther "invalid retention snapshot inventory"]
    | Ok (Some snapshots) =>
      let n := length snapshots in
      let cursor := default "" (RetentionCursors s !! checkpointKey planID (d_id d)) in
      match walkFrom env planID (d_id d) 0 (mkWalk s [] 64) (walkOrder cursor snapshots) with
      | Err (s, e) => deferred env s [e] 0 (2 * n)
      | Ok w =>
        let remove := removeIDs (w_state w) planID (d_id d) policy (w_verified w) in
        match persist env 0 (env_now env (2 * n)) (w_state w) with
        | (s, Err e) => deferred env s [e] 1 (2 * n + 1)
        | (s, Ok durable) =>
          let '(cs, e) := destroy env d remove in
          mkOutcome s (Some durable) cs (option_list e)
        end
      end
    end
  end.
End retain.

(** ** Keep rules: properties *)

(** C34: the retention policy keeps exactly the newest verified snapshot of each
    of the last N populated days, ISO weeks and months, and the oldest snapshot
    when there are fewer periods than that; the answer depends only on which
    snapshots there are, not on the order restic listed them in. *)
Theorem retained_spec l policy :
  (∀ id, id ∈ retainedSnapshotIDs l policy ↔ ∃ s, s ∈ l ∧ sn_id s = id ∧ retainedBy l policy s) ∧
  ∀ l', l' ≡ₚ l → retainedSnapshotIDs l' policy = retainedSnapshotIDs l policy.
Proof.
  split; [intros id; apply retained_rule|]. intros l' Hp. unfold retainedSnapshotIDs. by rewrite (orderSnapshots_perm l' l Hp).
Qed.

Lemma keepBucket_size ordered keep b :
  Z.of_nat (size (keepBucket ordered keep b)) <= Z.of_nat (size keep) + Z.max 0 (b_count b).
Proof.
  unfold keepBucket. destruct (Z.leb_spec (b_count b) 0); [lia|].
  destruct (bucketScan_sizes (b_count b) (b_key b) ordered ∅ keep) as [H1 H2].
  destruct (bucketScan _ _ _ _ _) as [periods keep']. cbn [fst snd] in *. rewrite size_empty in *.
  destruct (last ordered) as [o|]; [|lia]. destruct (Z.ltb_spec (Z.of_nat (size periods)) (b_count b)); [|lia].
  rewrite size_union_alt, size_singleton. pose proof (subseteq_size (keep' ∖ {[sn_id o]}) keep' ltac:(set_solver)). lia.
Qed.

Lemma newest_exists l : l ≠ [] → ∃ s, s ∈ l ∧ ∀ s', s' ∈ l → s' = s ∨ newer s s'.
Proof.
  intros Hne. destruct (orderSnapshots l) as [|s rest] eqn:E.
  { destruct l as [|x l]; [done|]. exfalso. apply (not_elem_of_nil x). rewrite <- E, orderSnapshots_elem. by left. }
  exists s. split; [rewrite <- orderSnapshots_elem, E; by left|]. intros s' Hin.
  rewrite <- orderSnapshots_elem, E in Hin. destruct (decide (s' = s)) as [->|Hn]; [by left|right].
  pose proof (orderSnapshots_sorted l) as Hs. rewrite E in Hs. apply StronglySorted_inv in Hs as [_ Hf].
  split; [|done]. rewrite Forall_forall in Hf. apply Hf. set_solver.
Qed.

Lemma newest_retained l policy s : s ∈ l → (∀ s', s' ∈ l → s' = s ∨ newer s s') →
  0 < Daily policy ∨ 0 < Weekly policy ∨ 0 < Monthly policy → sn_id s ∈ retainedSnapshotIDs l policy.
Proof.
  intros Hin Hmin Hc. apply retained_rule. exists s. split_and!; [done..|].
  assert (∀ b, 0 < b_count b → newestOfPeriod (b_count b) (b_key b) l s) as H.
  { intros b Hb. assert (∀ s', s' ∈ l → ¬ newer s' s) as Hno.
    { intros s' Hs' [Hle Hne]. destruct (Hmin s' Hs') as [?|[Hle' _]]; [done|]. apply Hne. by apply (anti_symm snap_le). }
    assert (filter (λ s', newer s' s) l = []) as Hf.
    { apply elem_of_nil_inv. intros s' [? ?]%list_elem_of_filter. by apply (Hno s'). }
    split; [|rewrite Hf; change (periodsOf (b_key b) []) with (∅ : gset string); rewrite size_empty; lia]. intros s' Hs' Hnew. by destruct (Hno s'). }
  unfold buckets. destruct Hc as [Hc|[Hc|Hc]];
    [exists (mkBucket (Daily policy) day_key)|exists (mkBucket (Weekly policy) week_key)|exists (mkBucket (Monthly policy) month_key)];
    (split; [set_solver|split; [exact Hc|left; by apply H]]).
Qed.

(** bounds of the policy: only ids of the given snapshots are kept, at most
    one per requested day, week and month, and the newest snapshot always is. *)
Theorem retained_bounds l policy :
  (∀ id, id ∈ retainedSnapshotIDs l policy → id ∈ sn_id <$> l) ∧
  Z.of_nat (size (retainedSnapshotIDs l policy)) <= Z.max 0 (Daily policy) + Z.max 0 (Weekly policy) + Z.max 0 (Monthly policy) ∧
  (l ≠ [] → 0 < Daily policy ∨ 0 < Weekly policy ∨ 0 < Monthly policy →
   ∃ s, s ∈ l ∧ (∀ s', s' ∈ l → s' = s ∨ newer s s') ∧ sn_id s ∈ retainedSnapshotIDs l policy).
Proof.
  split_and!.
  - intros id (s & Hs & <- & _)%retained_rule. by apply list_elem_of_fmap_2.
  - unfold retainedSnapshotIDs, buckets. cbn [fold_left].
    pose proof (keepBucket_size (orderSnapshots l) ∅ (mkBucket (Daily policy) day_key)) as H1.
    set (k1 := keepBucket _ _ _) in *.
    pose proof (keepBucket_size (orderSnapshots l) k1 (mkBucket (Weekly policy) week_key)) as H2.
    set (k2 := keepBucket _ k1 _) in *.
    pose proof (keepBucket_size (orderSnapshots l) k2 (mkBucket (Monthly policy) month_key)) as H3.
    rewrite size_empty in H1. cbn [b_count] in *. lia.
  - intros Hne Hc. destruct (newest_exists l Hne) as (s & Hs & Hmin). exists s. split_and!; [done..|].
    by apply newest_retained.
Qed.

(** ** Verification: properties *)

(** A listed node that satisfies an expectation. *)
Definition satisfies (ls : listing_lines) (path : string) (size : Z) : Prop :=
  ∃ n, Some n ∈ ls ∧ node_path n = path ∧ node_type n = "file" ∧ 0 <= node_size n ∧ (0 <= size → node_size n = size).

Lemma checkNodes_sound ls expected rest : checkNodes expected ls = Ok rest →
  ∀ path size, expected !! path = Some size → rest !! path = Some size ∨ satisfies ls path size.
Proof.
  revert expected. induction ls as [|line ls IH]; intros expected H path size Hp; cbn in H; [injection H as <-; by left|].
  res_inv H. assert (∀ path size, satisfies ls path size → satisfies (line :: ls) path size) as Hweak.
  { intros p z (n & ? & ?). exists n. split; [by right|done]. }
  destruct line as [n|]; [|done]. cbn in E. destruct (expected !! node_path n) as [z|] eqn:Hz.
  - destruct (negb _ || _ || _) eqn:Hb in E; [done|]. injection E as <-. boolify.
    destruct (decide (node_path n = path)) as [<-|Hne].
    + right. exists n. assert (z = size) as -> by congruence. split_and!; [by left|done|done|lia|lia].
    + destruct (IH _ H path size) as [?|?]; [by rewrite lookup_delete_ne|by left|right; by apply Hweak].
  - injection E as <-. destruct (IH _ H path size Hp) as [?|?]; [by left|right; by apply Hweak].
Qed.

Lemma verifySnapshotObjects_nil output expected : verifySnapshotObjects output expected = None →
  ∃ ls, output = Ok ls ∧ ∀ path size, expected !! path = Some size → satisfies ls path size.
Proof.
  unfold verifySnapshotObjects. destruct output as [ls|]; [|done]. destruct (checkNodes expected ls) as [rest|] eqn:E; [|done].
  case_bool_decide as Hs; [|done]. intros _. exists ls. split; [done|]. intros path size Hp.
  destruct (checkNodes_sound ls expected rest E path size Hp) as [Hr|?]; [|done].
  apply map_size_empty_inv in Hs. subst rest. done.
Qed.

Lemma expectedObjects_lookup sources expected result : expectedObjects expected sources = Some result →
  (∀ path, is_Some (expected !! path) → is_Some (result !! path)) ∧
  Forall (λ m, ms_archive m = true ∧ is_Some (result !! ("/" +:+ trim_slash (ms_saved_path m)))) sources.
Proof.
  revert expected. induction sources as [|m rest IH]; intros expected H; cbn in H; [by injection H as <-|].
  destruct (ms_archive m) eqn:Ha; [|done]. apply IH in H as [H1 H2].
  assert (∀ path, is_Some (<["/" +:+ trim_slash (ms_saved_path m) := ms_size m]> expected !! path) → is_Some (result !! path)) as Hm.
  { intros path Hp. apply H1. case_match; [done|]. rewrite lookup_insert_is_Some'. by right. }
  split.
  - intros path Hp. apply Hm. rewrite lookup_insert_is_Some'. by right.
  - constructor; [split; [done|]|done]. apply Hm. rewrite lookup_insert_eq. by eexists.
Qed.

(** a snapshot is classified as complete only when its manifest could be
    read, every source has an archive, and the manifest and every archive are in
    the listing as regular files; a restic command that failed is never evidence
    about a snapshot. *)
Theorem verifySavedSnapshot_sound first manifest second status :
  savedSnapshotClassification (verifySavedSnapshot first manifest second) = Some status →
  (status = "complete" → ∃ ls1 ls2 sources, first = Ok ls1 ∧ manifest = Ok sources ∧ second = Ok ls2 ∧
     satisfies ls1 "/manifest.json" (-1) ∧
     Forall (λ m, ms_archive m = true ∧ ∃ size, satisfies ls2 ("/" +:+ trim_slash (ms_saved_path m)) size) sources) ∧
  (∀ message, first ≠ Err message) ∧
  (verifySnapshotObjects first manifestOnly = None → (∀ message, manifest ≠ Err (Unavailable message)) ∧
     ∀ expected sources message, manifest = Ok sources → expectedObjects manifestOnly sources = Some expected → second ≠ Err message).
Proof.
  unfold verifySavedSnapshot. intros Hs.
  destruct (verifySnapshotObjects first manifestOnly) as [e|] eqn:E1.
  { split_and!; [intros ->; by destruct e|intros m ->; cbn in E1; by simplify_eq|done]. }
  apply verifySnapshotObjects_nil in E1 as (ls1 & -> & H1).
  destruct manifest as [sources|e]; [|split_and!; [intros ->; by destruct e|done|intros _; split; [intros m [= ->]|]; done]].
  destruct (expectedObjects manifestOnly sources) as [expected|] eqn:E2; [|injection Hs as <-; naive_solver].
  pose proof E2 as Hexp. apply expectedObjects_lookup in E2 as [_ Hall]. split_and!; [|done|].
  - intros ->. destruct (verifySnapshotObjects second expected) as [e|] eqn:E3; [by destruct e|].
    apply verifySnapshotObjects_nil in E3 as (ls2 & -> & H2). exists ls1, ls2, sources. split_and!; [done..|by apply H1|].
    eapply Forall_impl; [exact Hall|]. intros m [Ha [size Hz]]. split; [done|]. exists size. by apply H2.
  - intros _. split; [done|]. intros ? ? m [= <-] _ ->. done.
Qed.

(** ** retain: properties *)

(** The state records the snapshot as complete, in either form of evidence. *)
Definition recordedComplete (s : state) (dID id : string) : Prop :=
  (∃ c, SnapshotClassifications s !! snapshotEvidenceKey dID id = Some c ∧ sc_status c = "complete")
  ∨ is_Some (VerifiedSnapshots s !! snapshotEvidenceKey dID id).

Lemma snapshotEvidenceKey_inj dID id id' : snapshotEvidenceKey dID id = snapshotEvidenceKey dID id' → id = id'.
Proof. unfold snapshotEvidenceKey. intros H%str_append_inj. by apply str_append_inj in H. Qed.

Section retain_properties.
Context `{!MapRange string snapshotClassification, !MapRange string (Run * Plan)}.
Context (env : retainEnv) (s0 : state) (planID dID : string) (inventory : list Snapshot).

Definition trusted (id : string) : Prop := env_verify env id = None ∨ recordedComplete s0 dID id.

(** What is known of a snapshot that competes for the policy. *)
Definition usable (sn : Snapshot) : Prop :=
  sn ∈ inventory ∧ (∃ n, considered (env_now env n) sn = true) ∧ trusted (sn_id sn).

Record walk_ok (w : walk) : Prop := {
  wo_checkpoints : CopyCheckpoints (w_state w) = CopyCheckpoints s0;
  wo_trust id : recordedComplete (w_state w) dID id → trusted id;
  wo_verified : Forall usable (w_verified w) }.

Lemma classified_complete s id c : snapshotClassificationLocked s dID id = Some c → sc_status c = "complete" → recordedComplete s dID id.
Proof using.
  unfold snapshotClassificationLocked. intros H Hc.
  destruct (SnapshotClassifications s !! _) as [e|] eqn:Hk; [destruct (_ && _ && _)|].
  - left. exists e. split; [done|]. by simplify_eq.
  - right. destruct (VerifiedSnapshots s !! _); [by eexists|done].
  - right. destruct (VerifiedSnapshots s !! _); [by eexists|done].
Qed.

Lemma remember_trust s id status at_ id' :
  recordedComplete (rememberSnapshotClassificationLocked s dID id status at_) dID id' →
  (id' = id ∧ status = "complete") ∨ recordedComplete s dID id'.
Proof using.
  intros [(c & Hk & Hc)|Hv]; [|by right; right]. cbn in Hk.
  apply rememberBounded_lookup in Hk as [[Hk ->]|Hk]; [|right; left; eauto].
  left. split; [by apply snapshotEvidenceKey_inj in Hk|exact Hc].
Qed.

Lemma classified_nil err : savedSnapshotClassification err = Some "complete" → err = None.
Proof using. by destruct err as [[]|]. Qed.

Lemma inspect_ok offset w sn w' : walk_ok w → sn ∈ inventory → inspect env planID dID offset w sn = Ok w' → walk_ok w'.
Proof using.
  intros [H1 H2 H3] Hin. unfold inspect. destruct (considered _ sn) eqn:Hc; [|by intros [= <-]].
  assert (∀ status, trusted (sn_id sn) ∨ status ≠ "complete" → Forall usable (add_if_complete status sn (w_verified w))) as Hadd.
  { intros status Ht. unfold add_if_complete, str_eqb. case_bool_decide; [|done]. apply Forall_app_2; [done|].
    constructor; [|done]. split_and!; [done|by eexists|]. by destruct Ht. }
  cbn [negb]. destruct (snapshotClassificationLocked _ _ _) as [c|] eqn:Hk.
  - intros [= <-]. split; [done|exact H2|]. apply Hadd.
    destruct (decide (sc_status c = "complete")) as [Hs|]; [left|by right]. by eapply H2, classified_complete.
  - destruct (w_remaining w) as [|remaining]; [by intros [= <-]|].
    destruct (savedSnapshotClassification _) as [status|] eqn:Hs; [|done]. intros [= <-].
    assert (trusted (sn_id sn) ∨ status ≠ "complete") as Ht.
    { destruct (decide (status = "complete")) as [->|]; [left; left; by apply classified_nil|by right]. }
    split; [exact H1| |by apply Hadd]. intros id [[-> Hst]|Hr]%remember_trust; [by destruct Ht|].
    apply H2. exact Hr.
Qed.

Lemma inspect_err offset w sn s e : walk_ok w → inspect env planID dID offset w sn = Err (s, e) →
  CopyCheckpoints s = CopyCheckpoints s0 ∧ ∃ message, env_verify env (sn_id sn) = Some (Unavailable message).
Proof using.
  intros [H1 _ _]. unfold inspect. repeat case_scrut; try done. intros [= <- _]. split; [exact H1|].
  destruct (env_verify env (sn_id sn)) as [[]|]; try done. by eexists.
Qed.

Lemma walkFrom_ok l offset w w' : walk_ok w → (∀ sn, sn ∈ l → sn ∈ inventory) →
  walkFrom env planID dID offset w l = Ok w' → walk_ok w'.
Proof using.
  revert offset w. induction l as [|sn l IH]; intros offset w Hw Hl H; cbn in H; [by injection H as <-|].
  destruct (inspect env planID dID offset w sn) as [w1|] eqn:E; [|done].
  eapply IH; [|intros; apply Hl; by right|exact H]. eapply inspect_ok; [exact Hw|apply Hl; by left|exact E].
Qed.

(** Every snapshot is visited exactly once. *)
Lemma walkOrder_perm cursor : walkOrder cursor inventory ≡ₚ inventory.
Proof using.
  unfold walkOrder. rewrite <- (sort_by_perm sn_id inventory) at 2. case_match; [|done].
  rewrite Permutation_app_comm. by rewrite take_drop.
Qed.
End retain_properties.

(** The ids in the [forget] commands, in order. *)
Definition forgotten (cs : list command) : list string :=
  concat ((λ c, match c with Forget ids => ids | PruneRepository => [] end) <$> cs).

Lemma forgotten_cons ids cs : forgotten (Forget ids :: cs) = ids ++ forgotten cs.
Proof. done. Qed.

Lemma forgetAll_spec fuel env i remove cs e : (length remove ≤ fuel)%nat → forgetAll fuel env i remove = (cs, e) →
  (∀ c, c ∈ cs → ∃ ids, c = Forget ids ∧ ids ≠ [] ∧ (length ids ≤ 128)%nat) ∧
  (∃ rest, remove = forgotten cs ++ rest ∧ (e = None → rest = [])).
Proof.
  revert i remove cs e. induction fuel as [|fuel IH]; intros i remove cs e Hl; cbn [forgetAll].
  - intros [= <- <-]. destruct remove; cbn in Hl; [|lia]. split; [intros c []%elem_of_nil|by exists []].
  - destruct remove as [|id remove]; [intros [= <- <-]; split; [intros c []%elem_of_nil|by exists []]|].
    assert (take 128 (id :: remove) ≠ [] ∧ (length (take 128 (id :: remove)) ≤ 128)%nat) as Ht by (split; [done|rewrite length_take; lia]).
    assert (length (drop 128 (id :: remove)) ≤ fuel)%nat as Hd by (rewrite length_drop; cbn [length] in *; lia).
    pose proof (take_drop 128 (id :: remove)) as Htd. revert Ht Hd Htd.
    generalize (take 128 (id :: remove)) (drop 128 (id :: remove)). intros now later Ht Hd <-.
    destruct (env_forget env i) as [message|].
    + intros [= <- <-]. split; [intros c ->%list_elem_of_singleton; by eexists|].
      exists later. by rewrite forgotten_cons, app_nil_r.
    + destruct (forgetAll fuel env (S i) later) as [cs' e'] eqn:E. intros [= <- <-].
      apply IH in E as [H1 (rest & -> & H3)]; [|done].
      split; [intros c [->|Hc]%elem_of_cons; [by eexists|by apply H1]|].
      exists rest. by rewrite forgotten_cons, <- app_assoc.
Qed.

Lemma destroy_spec env d remove cs e : destroy env d remove = (cs, e) →
  (∀ ids, Forget ids ∈ cs → ids ≠ [] ∧ (length ids ≤ 128)%nat) ∧
  (∃ rest, remove = forgotten cs ++ rest ∧ (e = None → rest = [])) ∧
  (PruneRepository ∈ cs → remove ≠ [] ∧ manualPrune d = true).
Proof.
  unfold destroy. destruct (forgetAll _ env 0 remove) as [cs' e'] eqn:E. apply forgetAll_spec in E as [H1 H2]; [|done].
  assert (∀ ids, Forget ids ∈ cs' → ids ≠ [] ∧ (length ids ≤ 128)%nat) as Hf by (intros ids (? & [= <-] & ?)%H1; done).
  assert (PruneRepository ∉ cs') as Hp by (by intros (? & [=] & _)%H1).
  destruct e' as [e'|]; [intros [= <- <-]; by split_and!|].
  destruct remove as [|id remove]; [intros [= <- <-]; by split_and!|].
  destruct (manualPrune d); intros [= <- <-]; [|by split_and!].
  split_and!; [intros ids [?|H%elem_of_cons]%elem_of_app; [by apply Hf|destruct H as [?|[]%elem_of_nil]; done]| |done].
  destruct H2 as (rest & H2 & H3). exists rest. split; [|intros _; by apply H3].
  unfold forgotten. rewrite fmap_app, concat_app. cbn. rewrite app_nil_r. exact H2.
Qed.

Section retain_safe.
Context `{!MapRange string snapshotClassification, !MapRange string (Run * Plan)}.

Lemma deferred_commands env s errs attempt reading : o_commands (deferred env s errs attempt reading) = [].
Proof. unfold deferred. by destruct (persist _ _ _ _) as [? []]. Qed.

(** A retention that issued a command went through every step before it. *)
Lemma retain_commands env s d planID policy : o_commands (retain env s d planID policy) ≠ [] →
  keepAllSnapshots policy = false ∧ retentionBlockedError d = None ∧
  ∃ inventory w, env_listing env = Ok (Some inventory) ∧ walk_ok env s (d_id d) inventory w ∧
    is_Some (o_durable (retain env s d planID policy)) ∧
    destroy env d (removeIDs (w_state w) planID (d_id d) policy (w_verified w)) =
      (o_commands (retain env s d planID policy), head (o_errors (retain env s d planID policy))).
Proof.
  unfold retain. destruct (keepAllSnapshots policy); [done|]. destruct (retentionBlockedError d); [done|].
  destruct (env_listing env) as [[inventory|]|]; [|done..].
  destruct (walkFrom _ _ _ _ _ _) as [w|[s' e]] eqn:Ew; [|by rewrite deferred_commands].
  destruct (persist _ _ _ (w_state w)) as [s' [durable|e]]; [|by rewrite deferred_commands].
  destruct (destroy env d _) as [cs e] eqn:Ed. intros _. split_and!; [done..|]. exists inventory, w.
  split_and!; [done| |by eexists|cbn; rewrite Ed; by destruct e].
  eapply (walkFrom_ok _ _ _ _ inventory); [| |exact Ew]; [split; [done|by right|done]|].
  intros sn. by rewrite walkOrder_perm.
Qed.

(** C3: retention deletes only what it may: an id in a [forget] command is one
    of the listed snapshots, well formed and not in the future, verified as
    complete in this retention or recorded as complete before it; it is not the
    recovery checkpoint; a newer usable snapshot is not deleted; and the
    evidence was written to the settings first.  Nothing is deleted while the
    repository has an unresolved check, or when the policy keeps everything. *)
Theorem retain_safe env s d planID policy id :
  0 <= Daily policy → 0 <= Weekly policy → 0 <= Monthly policy →
  let r := retain env s d planID policy in
  id ∈ forgotten (o_commands r) →
  keepAllSnapshots policy = false ∧ repositoryMaintenanceBlocked d = false ∧ is_Some (o_durable r) ∧
  ∃ inventory sn, env_listing env = Ok (Some inventory) ∧ sn_id sn = id ∧ usable env s (d_id d) inventory sn ∧
    (∀ cp, CopyCheckpoints s !! checkpointKey planID (d_id d) = Some cp → cp_snapshot cp ≠ id) ∧
    ∃ kept, newer kept sn ∧ usable env s (d_id d) inventory kept ∧ sn_id kept ∉ forgotten (o_commands r).
Proof.
  intros H1 H2 H3 r Hid. destruct (retain_commands env s d planID policy) as (Hk & Hb & inventory & w & Hl & Hw & Hd & He).
  { intros E. unfold r in Hid. rewrite E in Hid. by apply elem_of_nil in Hid. }
  fold r in Hd, He. apply destroy_spec in He as (_ & (rest & Hrest & _) & _).
  assert (∀ x, x ∈ forgotten (o_commands r) → x ∈ sn_id <$> w_verified w ∧
    x ∉ protectCheckpoint (w_state w) planID (d_id d) (retainedSnapshotIDs (w_verified w) policy)) as Hf.
  { intros x Hx. assert (x ∈ removeIDs (w_state w) planID (d_id d) policy (w_verified w)) as Hr by (rewrite Hrest; set_solver).
    unfold removeIDs in Hr. apply list_elem_of_In, filter_In in Hr as [Hr Hn]. rewrite <- list_elem_of_In in Hr. by boolify. }
  assert (∀ x, x ∈ retainedSnapshotIDs (w_verified w) policy → x ∉ forgotten (o_commands r)) as Hkeep.
  { intros x Hx Hfx%Hf. destruct Hfx as [_ Hn]. apply Hn. unfold protectCheckpoint. case_match; set_solver. }
  pose proof (Hf id Hid) as [Hin Hn]. apply list_elem_of_fmap in Hin as (sn & -> & Hsn).
  pose proof (wo_verified _ _ _ _ _ Hw) as Hu. rewrite Forall_forall in Hu.
  split_and!; [done|unfold retentionBlockedError in Hb; by repeat case_scrut_in Hb; boolify|done|].
  exists inventory, sn. split_and!; [done..|by apply Hu| |].
  - intros cp Hcp E. apply Hn. rewrite <- E. unfold protectCheckpoint. rewrite (wo_checkpoints _ _ _ _ _ Hw), Hcp. set_solver.
  - destruct (newest_exists (w_verified w)) as (kept & Hkin & Hmin); [by intros E; rewrite E in Hsn; apply elem_of_nil in Hsn|].
    assert (0 < Daily policy ∨ 0 < Weekly policy ∨ 0 < Monthly policy) as Hpos.
    { unfold keepAllSnapshots in Hk. boolify. destruct Hk as [Hk|Hk]; boolify; lia. }
    pose proof (newest_retained _ policy kept Hkin Hmin Hpos) as Hret. exists kept.
    split_and!; [|by apply Hu|by apply Hkeep]. destruct (Hmin sn Hsn) as [->|?]; [|done]. by apply Hkeep in Hret.
Qed.
End retain_safe.

(** ** Concrete runs *)

#[local] Instance demoClassRange : MapRange string snapshotClassification := default_range string snapshotClassification.
#[local] Instance demoRunRange : MapRange string (Run * Plan) := default_range string (Run * Plan).

(** Three snapshots, two of them of the same day; the clock is at the third day. *)
Definition demoSnapshots : list Snapshot :=
  [mkSnapshot "aaaaaaaa" (20000 * Day); mkSnapshot "bbbbbbbb" (20000 * Day + 5 * Hour); mkSnapshot "cccccccc" (20001 * Day)].
Definition demoDaily : Retention := mkRetention 2 0 0.
Definition demoRetainEnv : retainEnv :=
  mkRetainEnv (Ok (Some demoSnapshots)) (λ _, None) (λ _, None) None None (λ _, None) (λ _, true) (λ _, 20001 * Day + 6 * Hour).
Definition demoKept : gset string := retainedSnapshotIDs demoSnapshots demoDaily.

Definition demoRetained : outcome := retain demoRetainEnv demoBackup demoDestination "plan_1" demoDaily.

Lemma demoRetained_commands : o_commands demoRetained = [Forget ["aaaaaaaa"]; PruneRepository].
Proof. vm_compute. reflexivity. Qed.

Lemma retained_spec_witness :
  demoKept = {["bbbbbbbb"; "cccccccc"]} ∧ retainedSnapshotIDs (reverse demoSnapshots) demoDaily = demoKept.
Proof.
  split; [vm_compute; reflexivity|].
  exact (proj2 (retained_spec demoSnapshots demoDaily) (reverse demoSnapshots) (reverse_Permutation demoSnapshots)).
Defined.

Lemma retained_bounds_witness : ∃ s, s ∈ demoSnapshots ∧ sn_id s ∈ demoKept.
Proof.
  destruct (proj2 (proj2 (retained_bounds demoSnapshots demoDaily))) as (s & H1 & _ & H2); [discriminate|left; reflexivity|].
  exact (ex_intro _ s (conj H1 H2)).
Defined.

Definition demoManifest : list manifestSource := [mkManifestSource true "data/a.tar.zst" "" 10].
Definition demoLines1 : listing_lines := [Some (mkNode "/manifest.json" "file" 300)].
Definition demoLines2 : listing_lines := [Some (mkNode "/data" "dir" 0); Some (mkNode "/data/a.tar.zst" "file" 10); Some (mkNode "/manifest.json" "file" 300)].

Lemma verifySavedSnapshot_sound_witness :
  savedSnapshotClassification (verifySavedSnapshot (Ok demoLines1) (Ok demoManifest) (Ok demoLines2)) = Some "complete" ∧
  ∃ ls1 ls2 sources, Ok demoLines1 = @Ok string _ ls1 ∧ Ok demoManifest = @Ok verify_error _ sources ∧ Ok demoLines2 = @Ok string _ ls2 ∧
    satisfies ls1 "/manifest.json" (-1).
Proof.
  assert (savedSnapshotClassification (verifySavedSnapshot (Ok demoLines1) (Ok demoManifest) (Ok demoLines2)) = Some "complete") as H
    by (vm_compute; reflexivity).
  split; [exact H|].
  destruct (proj1 (verifySavedSnapshot_sound _ _ _ _ H) eq_refl) as (ls1 & ls2 & ms & E1 & E2 & E3 & Hs & _).
  exists ls1, ls2, ms. exact (conj E1 (conj E2 (conj E3 Hs))).
Defined.

Lemma demoForgotten : "aaaaaaaa" ∈ forgotten (o_commands demoRetained).
Proof. rewrite demoRetained_commands. by left. Qed.

Lemma retain_safe_witness :
  is_Some (o_durable demoRetained) ∧ repositoryMaintenanceBlocked demoDestination = false.
Proof.
  destruct (retain_safe demoRetainEnv demoBackup demoDestination "plan_1" demoDaily "aaaaaaaa") as (_ & H1 & H2 & _);
    [discriminate..|exact demoForgotten|exact (conj H2 H1)].
Defined.
