(* ===== verification/SchedulerTime.v ===== *)
(** * internal/scheduler/service.go: schedules in the zone of the host

    The arithmetic of maintenance schedules (daily or on given weekdays, at a
    time of day): the most recent and the next occurrence, when a run is due, and
    the validation and normalization of the configuration.  Frequencies and
    weekdays are the strings of the settings document; [time.Location] is the
    zone of GoTime. *)

From stdpp Require Import gmap strings list sorting.
From Stdlib Require Import Ascii ZArith.
From S2P Require Import Prelude GoStrings GoTime.

Local Open Scope Z_scope.

(** ** Data (internal/scheduler/types.go, internal/maintenancejobs/types.go) *)

Definition FrequencyDaily : string := "daily".
Definition FrequencyWeekly : string := "weekly".

Record UpdateTarget := mkTarget { Mode : string; StackIDs : list string; ExcludedServices : gmap string (list string) }.
Record UpdateOptions := mkOptions {
  PullImages : bool; BuildImages : bool; RemoveOrphans : bool; PreserveInactive : bool; PruneAfter : bool; IncludeVolumes : bool }.
Record PruneScope := mkScope { Images : bool; BuildCache : bool; StoppedContainers : bool; Volumes : bool }.

(** The fields common to both schedule configurations. *)
Record baseSchedule := mkBase { Enabled : bool; Freq : string; TimeOfDay : string; Weekdays : list string }.
Record UpdateScheduleConfig := mkUpdate { u_base : baseSchedule; Target : UpdateTarget; Options : UpdateOptions }.
Record PruneScheduleConfig := mkPruneConfig { pr_base : baseSchedule; Scope : PruneScope }.
Record Settings := mkSettings { Update : UpdateScheduleConfig; Prune : PruneScheduleConfig }.

Definition catchUpWindow : Duration := 6 * Hour.

(** ** Occurrences *)

Definition weekdayToTime (day : string) : option Z :=
  if str_eqb day "mon" then Some 1 else if str_eqb day "tue" then Some 2 else if str_eqb day "wed" then Some 3
  else if str_eqb day "thu" then Some 4 else if str_eqb day "fri" then Some 5 else if str_eqb day "sat" then Some 6
  else if str_eqb day "sun" then Some 0 else None.

Definition weekdaySet (days : list string) : gset Z := list_to_set (omap weekdayToTime days).

Definition in_range (lo hi : Z) (v : option Z) : option Z :=
  match v with Some n => if (n <? lo) || (hi <? n) then None else Some n | None => None end.

Definition parseTimeOfDay (value : string) : option (Z * Z) :=
  match split (trim_space value) ":" with
  | [h; m] =>
    match in_range 0 23 (atoi h) with
    | None => None
    | Some hour => match in_range 0 59 (atoi m) with None => None | Some minute => Some (hour, minute) end
    end
  | _ => None
  end.

(** The loops over the days before and after [now]: [step] is -1 or 1. *)
Fixpoint weeklyFrom (l : Location) (allowed : gset Z) (tod : Z) (now : Time) (past : bool) (n : nat) (offset : Z) : option Time :=
  match n with
  | O => None
  | S n' =>
    let candidateDay := local_day l (add_days l now (if past then - offset else offset)) in
    if negb (bool_decide (weekday_of candidateDay ∈ allowed)) then weeklyFrom l allowed tod now past n' (offset + 1)
    else
      let candidate := date l candidateDay tod in
      if Bool.eqb (after candidate now) past then weeklyFrom l allowed tod now past n' (offset + 1)
      else Some candidate
  end.

Definition mostRecentScheduledAt (l : Location) (frequency timeOfDay : string) (weekdays : list string) (now : Time) : option Time :=
  match parseTimeOfDay timeOfDay with
  | None => None
  | Some (h, m) =>
    if str_eqb frequency FrequencyDaily then
      let candidate := date l (local_day l now) (time_of_day h m) in
      Some (if after candidate now then add_days l candidate (-1) else candidate)
    else if str_eqb frequency FrequencyWeekly then weeklyFrom l (weekdaySet weekdays) (time_of_day h m) now true 8 0
    else None
  end.

Definition nextScheduledAt (l : Location) (frequency timeOfDay : string) (weekdays : list string) (now : Time) : option Time :=
  match parseTimeOfDay timeOfDay with
  | None => None
  | Some (h, m) =>
    if str_eqb frequency FrequencyDaily then
      let candidate := date l (local_day l now) (time_of_day h m) in
      Some (if negb (after candidate now) then add_days l candidate 1 else candidate)
    else if str_eqb frequency FrequencyWeekly then weeklyFrom l (weekdaySet weekdays) (time_of_day h m) now false 8 0
    else None
  end.

Definition nextRun := nextScheduledAt.

Definition dueSchedule (l : Location) (b : baseSchedule) (lastScheduledFor : option Time) (now : Time) : option Time :=
  if negb (Enabled b) then None
  else match mostRecentScheduledAt l (Freq b) (TimeOfDay b) (Weekdays b) now with
       | None => None
       | Some dueAt =>
         if match lastScheduledFor with Some last => dueAt =? last | None => false end then None
         else if catchUpWindow <? now - dueAt then None
         else Some dueAt
       end.

(** ** Configuration *)

Inductive scheduler_error : Type :=
| ErrConfig (message : string)  (* a rejected configuration *)
| ErrDependency (message : string)  (* from the runner, the stack lister or the store *)
| ErrParse (message : string).

Definition validateBaseSchedule (b : baseSchedule) : res scheduler_error unit :=
  match parseTimeOfDay (TimeOfDay b) with
  | None => Err (ErrConfig "time must be in HH:MM format")
  | Some _ =>
    if str_eqb (Freq b) FrequencyDaily then Ok tt
    else if str_eqb (Freq b) FrequencyWeekly then
      let? _ := guard_err (match Weekdays b with [] => true | _ => false end) (ErrConfig "weekly schedules require at least one weekday") in
      guard_err (existsb (λ d, match weekdayToTime d with None => true | Some _ => false end) (Weekdays b)) (ErrConfig "unsupported weekday")
    else Err (ErrConfig "frequency must be one of: daily, weekly")
  end.

(** The loop of [dedupeStackIDs] before the sort. *)
Fixpoint dedupeLoop (seen : gset string) (stackIDs : list string) : list string :=
  match stackIDs with
  | [] => []
  | stackID :: rest =>
    let stackID := trim_space stackID in
    if str_empty stackID || bool_decide (stackID ∈ seen) then dedupeLoop seen rest
    else stackID :: dedupeLoop ({[stackID]} ∪ seen) rest
  end.

Definition dedupeStackIDs (stackIDs : list string) : list string := sort_strings (dedupeLoop ∅ stackIDs).

Definition hasExcludedServices (excluded : gmap string (list string)) : bool :=
  existsb (λ e : string * list string, match e.2 with [] => false | _ => true end) (map_to_list excluded).

(** The runner and the stack lister, interfaces of the scheduler. *)
Record backend := mkBackend {
  ResolveTargetStacks : string → list string → res string (list string);
  StackServices : string → res string (list string);
  ManagedStacks : res string (list string) }.

Definition dependency {A} (r : res string A) : res scheduler_error A :=
  match r with Ok a => Ok a | Err message => Err (ErrDependency message) end.

Definition validateUpdateConfig (b : backend) (config : UpdateScheduleConfig) : res scheduler_error unit :=
  let? _ := validateBaseSchedule (u_base config) in
  let mode := if str_empty (Mode (Target config)) then "all" else Mode (Target config) in
  let? _ :=
    if str_eqb mode "all" then Ok tt
    else if str_eqb mode "selected" then
      let? _ := guard_err (match StackIDs (Target config) with [] => true | _ => false end)
                  (ErrConfig "update.target.stack_ids must be non-empty when mode = selected") in
      let? _ := dependency (ResolveTargetStacks b mode (StackIDs (Target config))) in Ok tt
    else Err (ErrConfig "update.target.mode must be one of: selected, all") in
  let? _ := guard_err (IncludeVolumes (Options config) && negb (PruneAfter (Options config)))
              (ErrConfig "update.options.include_volumes requires prune_after = true") in
  guard_err (RemoveOrphans (Options config) && hasExcludedServices (ExcludedServices (Target config)))
    (ErrConfig "update.options.remove_orphans cannot be enabled when service exclusions are configured").

Definition validatePruneConfig (config : PruneScheduleConfig) : res scheduler_error unit :=
  let? _ := validateBaseSchedule (pr_base config) in
  let sc := Scope config in
  guard_err (negb (Images sc) && negb (BuildCache sc) && negb (StoppedContainers sc) && negb (Volumes sc))
    (ErrConfig "prune.scope must enable at least one category").

Section excluded.
Context `{!MapRange string (list string)}.

(** One round of the loop over the exclusions. *)
Definition normalizeExclusion (result : gmap string (list string)) (e : string * list string) : gmap string (list string) :=
  let stackID := trim_space e.1 in
  if str_empty stackID then result
  else match dedupeStackIDs e.2 with
       | [] => result
       | normalized => <[stackID := normalized]> result
       end.

(** [nil] and the empty map are both the empty map. *)
Definition normalizeExcludedServices (excluded : gmap string (list string)) : gmap string (list string) :=
  fold_left normalizeExclusion (range_list excluded) ∅.

Definition normalizeUpdateConfig (config : UpdateScheduleConfig) : UpdateScheduleConfig :=
  let t := Target config in
  mkUpdate (u_base config)
    (mkTarget (trim_space (Mode t)) (dedupeStackIDs (StackIDs t)) (normalizeExcludedServices (ExcludedServices t)))
    (Options config).

Definition normalizePruneConfig (config : PruneScheduleConfig) : PruneScheduleConfig := config.

Fixpoint validateExclusions (b : backend) (targeted : list string) (excluded : list (string * list string)) : res scheduler_error unit :=
  match excluded with
  | [] => Ok tt
  | (stackID, serviceNames) :: rest =>
    let? _ :=
      match serviceNames with
      | [] => Ok tt
      | _ =>
        let? _ := guard_err (negb (str_in stackID targeted)) (ErrConfig "update.target.excluded_services includes non-target stack") in
        let? known := dependency (StackServices b stackID) in
        guard_err (existsb (λ name, negb (str_in name known)) serviceNames)
          (ErrConfig "update.target.excluded_services includes unknown service")
      end in
    validateExclusions b targeted rest
  end.

Definition validateUpdateServiceExclusions (b : backend) (config : UpdateScheduleConfig) : res scheduler_error unit :=
  if negb (hasExcludedServices (ExcludedServices (Target config))) then Ok tt
  else
    let? targeted := dependency (ResolveTargetStacks b (Mode (Target config)) (StackIDs (Target config))) in
    validateExclusions b targeted (range_list (ExcludedServices (Target config))).

Definition validateSettings (b : backend) (settings : Settings) : res scheduler_error unit :=
  let? _ := validateUpdateConfig b (Update settings) in
  let? _ := validateUpdateServiceExclusions b (Update settings) in
  validatePruneConfig (Prune settings).
End excluded.

(** ** Occurrences: lemmas *)

Lemma atoi_range lo hi v n : in_range lo hi v = Some n → lo <= n <= hi.
Proof. unfold in_range. destruct v as [k|]; [|done]. destruct (_ || _) eqn:E; [done|]. intros [= <-]. boolify. lia. Qed.

Lemma parseTimeOfDay_range value h m : parseTimeOfDay value = Some (h, m) → 0 <= h < 24 ∧ 0 <= m < 60.
Proof.
  unfold parseTimeOfDay. destruct (split _ _) as [|a [|b [|]]]; [done..| |done].
  destruct (in_range 0 23 (atoi a)) as [h'|] eqn:E1; [|done]. destruct (in_range 0 59 (atoi b)) as [m'|] eqn:E2; [|done].
  intros [= <- <-]. apply atoi_range in E1, E2. lia.
Qed.

Lemma weekday_of_shift day k : 0 <= k → ∃ j, 0 <= j < 7 ∧ weekday_of (day + j) = k mod 7.
Proof. intros Hk. exists ((k - weekday_of day) mod 7). unfold weekday_of. lia. Qed.

(** The time of day exists on every day, as 03:30 does where the clock changes
    between 02:00 and 03:00. *)
Definition unaffected (l : Location) (tod : Z) : Prop := 0 <= tod < Day ∧ ∀ day, local_tod l (date l day tod) = tod.

Lemma weekly_day_exists wd from : existsb (λ d, match weekdayToTime d with None => true | Some _ => false end) wd = false → wd ≠ [] →
  ∃ day, from <= day < from + 7 ∧ weekday_of day ∈ weekdaySet wd.
Proof.
  destruct wd as [|w wd]; [done|]. intros Hv _. cbn in Hv. apply orb_false_iff in Hv as [Hv _].
  destruct (weekdayToTime w) as [k|] eqn:Hk; [|done].
  assert (0 <= k < 7) as Hr by (unfold weekdayToTime in Hk; repeat case_match; simplify_eq; lia).
  destruct (weekday_of_shift from k ltac:(lia)) as (j & Hj & Hw). exists (from + j). split; [lia|].
  rewrite Hw, Z.mod_small by lia. unfold weekdaySet. cbn [omap list_omap]. rewrite Hk. set_solver.
Qed.

Lemma validBase_cases b : validateBaseSchedule b = Ok tt →
  Freq b = FrequencyDaily ∨ (Freq b = FrequencyWeekly ∧ ∀ from, ∃ day, from <= day < from + 7 ∧ weekday_of day ∈ weekdaySet (Weekdays b)).
Proof.
  unfold validateBaseSchedule. destruct (parseTimeOfDay _); [|done]. unfold str_eqb.
  case_bool_decide; [by left|]. case_bool_decide; [|done]. intros H1. right. split; [done|]. intros from.
  res_inv H1. apply weekly_day_exists; [done|]. by destruct (Weekdays b).
Qed.

Section zone.
Context (l : Location) `{!CalendarZone l} (tod : Z) (Htod : unaffected l tod).

#[local] Opaque date local_day local_tod weekday_of.

Lemma date_day day : local_day l (date l day tod) = day.
Proof using All. apply zone_date_day, Htod. Qed.

Lemma date_mono d1 d2 : d1 < d2 → date l d1 tod < date l d2 tod.
Proof using All. intros H. apply (wall_lt_instant l); [apply _|by rewrite !date_day|]. by rewrite !(proj2 Htod). Qed.

Lemma date_mono_iff d1 d2 : date l d1 tod < date l d2 tod ↔ d1 < d2.
Proof using All.
  split; [|apply date_mono]. intros H. destruct (Z.lt_trichotomy d1 d2) as [?|[->|Hd%date_mono]]; lia.
Qed.

(** An earlier day is over, a later day has not begun. *)
Lemma earlier_day day now : day < local_day l now → date l day tod < now.
Proof using All.
  intros H. apply Z.nle_gt. intros Hle%(zone_day_mono (l:=l)). rewrite date_day in Hle. lia.
Qed.

Lemma later_day day now : local_day l now < day → now < date l day tod.
Proof using All.
  intros H. apply Z.nle_gt. intros Hle%(zone_day_mono (l:=l)). rewrite date_day in Hle. lia.
Qed.

Lemma shift_candidate day n : add_days l (date l day tod) n = date l (day + n) tod.
Proof using All. unfold add_days. by rewrite date_day, (proj2 Htod). Qed.

Definition allowed_day (allowed : option (gset Z)) (day : Z) : Prop :=
  match allowed with None => True | Some s => weekday_of day ∈ s end.

Lemma weekly_past allowed now n d : 0 <= d →
  match weeklyFrom l allowed tod now true n d with
  | Some c => ∃ day, c = date l day tod ∧ weekday_of day ∈ allowed ∧ c <= now ∧ local_day l now - d - Z.of_nat n < day <= local_day l now - d ∧
      ∀ day', weekday_of day' ∈ allowed → date l day' tod <= now → day' <= local_day l now - d → day' <= day
  | None => ∀ day, weekday_of day ∈ allowed → local_day l now - d - Z.of_nat n < day <= local_day l now - d → now < date l day tod
  end.
Proof using All.
  revert d. induction n as [|n IH]; intros d Hd; cbn [weeklyFrom]; [intros; lia|].
  rewrite add_days_day by apply _. set (D := local_day l now + - d). specialize (IH (d + 1) ltac:(lia)).
  assert (∀ P : Prop, (∀ day, weekday_of day ∈ allowed → date l day tod <= now → day = D → P) →
    ∀ day, weekday_of day ∈ allowed → date l day tod <= now → day <= D → P ∨ day <= local_day l now - (d + 1)) as Hstep.
  { intros P HP day H1 H2 H3. destruct (decide (day = D)); [left; by eapply HP|right; lia]. }
  assert ((∀ day, weekday_of day ∈ allowed → date l day tod <= now → day ≠ D) →
    match weeklyFrom l allowed tod now true n (d + 1) with
    | Some c => ∃ day, c = date l day tod ∧ weekday_of day ∈ allowed ∧ c <= now ∧ local_day l now - d - Z.of_nat (S n) < day <= local_day l now - d ∧
        ∀ day', weekday_of day' ∈ allowed → date l day' tod <= now → day' <= local_day l now - d → day' <= day
    | None => ∀ day, weekday_of day ∈ allowed → local_day l now - d - Z.of_nat (S n) < day <= local_day l now - d → now < date l day tod
    end) as Hskip.
  { intros Hno. destruct (weeklyFrom l allowed tod now true n (d + 1)) as [c|].
    - destruct IH as (day & -> & Hw & Hc & Hr & Hmax). exists day. split_and!; [done|done|done|lia|lia|].
      intros day' H1 H2 H3. destruct (Hstep False (λ x a b c, Hno x a b c) day' H1 H2) as [[]|Hle]; [lia|by apply Hmax].
    - intros day H1 H2. destruct (decide (day = D)) as [->|]; [|apply IH; [done|lia]].
      apply Z.nle_gt. intros Hle. by apply (Hno D H1 Hle). }
  case_bool_decide as Hin; cbn [negb]; [|apply Hskip; intros day H1 _ ->; done].
  unfold after. destruct (Z.ltb_spec now (date l D tod)) as [Hlt|Hge]; cbn [Bool.eqb].
  - apply Hskip. intros day _ H2 ->. lia.
  - exists D. split_and!; [done|done|done|lia|lia|]. intros. lia.
Qed.

Lemma weekly_next allowed now n d : 0 <= d →
  match weeklyFrom l allowed tod now false n d with
  | Some c => ∃ day, c = date l day tod ∧ weekday_of day ∈ allowed ∧ now < c ∧ local_day l now + d <= day < local_day l now + d + Z.of_nat n ∧
      ∀ day', weekday_of day' ∈ allowed → now < date l day' tod → local_day l now + d <= day' → day <= day'
  | None => ∀ day, weekday_of day ∈ allowed → local_day l now + d <= day < local_day l now + d + Z.of_nat n → date l day tod <= now
  end.
Proof using All.
  revert d. induction n as [|n IH]; intros d Hd; cbn [weeklyFrom]; [intros; lia|].
  rewrite add_days_day by apply _. set (D := local_day l now + d). specialize (IH (d + 1) ltac:(lia)).
  assert ((∀ day, weekday_of day ∈ allowed → now < date l day tod → day ≠ D) →
    match weeklyFrom l allowed tod now false n (d + 1) with
    | Some c => ∃ day, c = date l day tod ∧ weekday_of day ∈ allowed ∧ now < c ∧ D <= day < D + Z.of_nat (S n) ∧
        ∀ day', weekday_of day' ∈ allowed → now < date l day' tod → D <= day' → day <= day'
    | None => ∀ day, weekday_of day ∈ allowed → D <= day < D + Z.of_nat (S n) → date l day tod <= now
    end) as Hskip.
  { intros Hno. destruct (weeklyFrom l allowed tod now false n (d + 1)) as [c|].
    - destruct IH as (day & -> & Hw & Hc & Hr & Hmin). exists day. split_and!; [done|done|done|lia|lia|].
      intros day' H1 H2 H3. pose proof (Hno day' H1 H2). apply Hmin; [done|done|lia].
    - intros day H1 H2. destruct (decide (day = D)) as [->|]; [|apply IH; [done|lia]].
      apply Z.nlt_ge. intros Hlt. by apply (Hno D H1 Hlt). }
  case_bool_decide as Hin; cbn [negb]; [|apply Hskip; intros day H1 _ ->; done].
  unfold after. destruct (Z.ltb_spec now (date l D tod)) as [Hlt|Hge]; cbn [Bool.eqb].
  - exists D. split_and!; [done|done|done|lia|lia|]. intros. lia.
  - apply Hskip. intros day _ H2 ->. lia.
Qed.

(** The occurrences of a schedule at this time of day. *)
Definition occurs (b : baseSchedule) (t : Time) : Prop :=
  ∃ day, t = date l day tod ∧ (Freq b = FrequencyWeekly → weekday_of day ∈ weekdaySet (Weekdays b)).

Definition consecutive (b : baseSchedule) (now recent next : Time) : Prop :=
  occurs b recent ∧ occurs b next ∧ recent <= now < next ∧ ∀ t, occurs b t → t <= recent ∨ next <= t.

(** Two allowed days around [now] with no allowed day between them. *)
Lemma consecutive_days b now d1 d2 : (Freq b = FrequencyWeekly → weekday_of d1 ∈ weekdaySet (Weekdays b)) →
  (Freq b = FrequencyWeekly → weekday_of d2 ∈ weekdaySet (Weekdays b)) →
  date l d1 tod <= now < date l d2 tod →
  (∀ day, (Freq b = FrequencyWeekly → weekday_of day ∈ weekdaySet (Weekdays b)) → day <= d1 ∨ d2 <= day) →
  consecutive b now (date l d1 tod) (date l d2 tod).
Proof using All.
  intros H1 H2 Hn Hd. split_and!; [by exists d1|by exists d2|lia|lia|]. intros t (day & -> & Hw).
  destruct (Hd day Hw) as [Hle|Hle]; [left|right]; destruct (decide (day = d1)), (decide (day = d2)); subst; try lia;
    apply Z.lt_le_incl, date_mono; lia.
Qed.

Lemma schedule_consecutive b now h m : validateBaseSchedule b = Ok tt → parseTimeOfDay (TimeOfDay b) = Some (h, m) → time_of_day h m = tod →
  ∃ recent next, mostRecentScheduledAt l (Freq b) (TimeOfDay b) (Weekdays b) now = Some recent ∧
    nextScheduledAt l (Freq b) (TimeOfDay b) (Weekdays b) now = Some next ∧ consecutive b now recent next.
Proof using All.
  intros Hv Hp Ht. unfold mostRecentScheduledAt, nextScheduledAt. rewrite Hp, Ht.
  destruct (validBase_cases b Hv) as [Hf|[Hf Hdays]].
  - unfold str_eqb. rewrite Hf, bool_decide_true by done. unfold after. rewrite !shift_candidate.
    set (D := local_day l now). destruct (Z.ltb_spec now (date l D tod)) as [Hlt|Hge]; cbn [negb].
    + exists (date l (D + -1) tod), (date l D tod). split_and!; [done..|]. apply consecutive_days; rewrite ?Hf; try done.
      * split; [|done]. apply Z.lt_le_incl, earlier_day. lia.
      * intros day _. lia.
    + exists (date l D tod), (date l (D + 1) tod). split_and!; [done..|]. apply consecutive_days; rewrite ?Hf; try done.
      * split; [done|]. apply later_day. lia.
      * intros day _. lia.
  - unfold str_eqb. rewrite Hf, bool_decide_false, bool_decide_true by done. set (allowed := weekdaySet (Weekdays b)) in *.
    pose proof (weekly_past allowed now 8 0 ltac:(lia)) as Hpast. pose proof (weekly_next allowed now 8 0 ltac:(lia)) as Hnext.
    destruct (weeklyFrom l allowed tod now true 8 0) as [recent|].
    2:{ exfalso. destruct (Hdays (local_day l now - 7)) as (day & Hr & Hw). specialize (Hpast day Hw ltac:(lia)).
        pose proof (earlier_day day now ltac:(lia)). lia. }
    destruct (weeklyFrom l allowed tod now false 8 0) as [next|].
    2:{ exfalso. destruct (Hdays (local_day l now + 1)) as (day & Hr & Hw). specialize (Hnext day Hw ltac:(lia)).
        pose proof (later_day day now ltac:(lia)). lia. }
    destruct Hpast as (d1 & -> & Hw1 & Hle & _ & Hmax), Hnext as (d2 & -> & Hw2 & Hlt & _ & Hmin).
    exists (date l d1 tod), (date l d2 tod). split_and!; [done..|]. apply consecutive_days; [done|done|done|].
    intros day Hw. specialize (Hw Hf). destruct (Z.le_gt_cases (date l day tod) now) as [Hd|Hd].
    + left. apply Hmax; [done|done|]. apply Z.nlt_ge. intros Hl. pose proof (later_day day now ltac:(lia)). lia.
    + right. apply Hmin; [done|lia|]. apply Z.nlt_ge. intros Hl. pose proof (earlier_day day now ltac:(lia)). lia.
Qed.
End zone.

(** Time moves the most recent occurrence forward only. *)
Lemma mostRecent_mono (l : Location) `{!CalendarZone l} b now1 now2 h m t1 t2 : validateBaseSchedule b = Ok tt →
  parseTimeOfDay (TimeOfDay b) = Some (h, m) → unaffected l (time_of_day h m) → now1 <= now2 →
  mostRecentScheduledAt l (Freq b) (TimeOfDay b) (Weekdays b) now1 = Some t1 →
  mostRecentScheduledAt l (Freq b) (TimeOfDay b) (Weekdays b) now2 = Some t2 → t1 <= t2.
Proof.
  intros Hv Hp Hu Hn H1 H2.
  destruct (schedule_consecutive l _ Hu b now1 h m Hv Hp eq_refl) as (r1 & n1 & E1 & _ & Ho1 & _ & Hb1 & _).
  destruct (schedule_consecutive l _ Hu b now2 h m Hv Hp eq_refl) as (r2 & n2 & E2 & _ & _ & _ & Hb2 & Hc2).
  simplify_eq. destruct (Hc2 t1 Ho1); lia.
Qed.

(** A daily schedule ignores its weekdays. *)
Lemma daily_weekdays l tod wd1 wd2 now : mostRecentScheduledAt l FrequencyDaily tod wd1 now = mostRecentScheduledAt l FrequencyDaily tod wd2 now.
Proof. unfold mostRecentScheduledAt. by destruct (parseTimeOfDay tod) as [[h m]|]. Qed.

(** ** Stack lists: lemmas *)

(** The ids a raw list stands for. *)
Definition denotes (stackIDs : list string) (id : string) : Prop := id ≠ "" ∧ ∃ raw, raw ∈ stackIDs ∧ trim_space raw = id.

Lemma dedupeLoop_elem seen l id : id ∈ dedupeLoop seen l ↔ denotes l id ∧ id ∉ seen.
Proof.
  revert seen. induction l as [|x l IH]; intros seen; cbn [dedupeLoop].
  - split; [intros []%elem_of_nil|intros [[_ (? & []%elem_of_nil & _)] _]].
  - assert (∀ P : Prop, denotes (x :: l) id ↔ (id = trim_space x ∧ trim_space x ≠ "") ∨ denotes l id) as Hd.
    { intros _. unfold denotes. split.
      - intros [Hne (raw & [->|Hr]%elem_of_cons & <-)]; [by left|right; eauto].
      - intros [[-> Hne]|[Hne (raw & Hr & <-)]]; (split; [done|]); [exists x|exists raw]; (split; [|done]); [by left|by right]. }
    rewrite (Hd True). destruct (str_empty (trim_space x)) eqn:He; cbn [orb]; [rewrite IH; boolify; naive_solver|].
    case_bool_decide as Hs; [rewrite IH; naive_solver|]. rewrite elem_of_cons, IH, not_elem_of_union, not_elem_of_singleton. boolify.
    destruct (decide (id = trim_space x)); naive_solver.
Qed.

Lemma dedupeLoop_NoDup seen l : NoDup (dedupeLoop seen l).
Proof.
  revert seen. induction l as [|x l IH]; intros seen; cbn [dedupeLoop]; [constructor|].
  destruct (_ || _); [apply IH|]. constructor; [|apply IH]. rewrite dedupeLoop_elem. set_solver.
Qed.

Lemma dedupe_elem l id : id ∈ dedupeStackIDs l ↔ denotes l id.
Proof. unfold dedupeStackIDs, sort_strings. rewrite sort_by_elem, dedupeLoop_elem. set_solver. Qed.

Lemma dedupe_NoDup l : NoDup (dedupeStackIDs l).
Proof. unfold dedupeStackIDs, sort_strings. rewrite sort_by_perm. apply dedupeLoop_NoDup. Qed.

(** Lists that stand for the same ids have the same normal form. *)
Lemma dedupe_canonical l k : (∀ id, denotes l id ↔ denotes k id) → dedupeStackIDs l = dedupeStackIDs k.
Proof.
  intros H. unfold dedupeStackIDs at 2. apply sort_by_unique; [done| |apply sort_by_sorted].
  apply NoDup_Permutation; [apply dedupe_NoDup|apply dedupeLoop_NoDup|]. intros id.
  rewrite dedupe_elem, dedupeLoop_elem, H. split; [intros ?; split; [done|apply not_elem_of_empty]|by intros [? _]].
Qed.

Lemma dedupe_denotes l id : denotes (dedupeStackIDs l) id ↔ denotes l id.
Proof.
  split.
  - intros [Hne (raw & [Hr (x & Hx & <-)]%dedupe_elem & <-)]. rewrite trim_space_idem. split; [done|eauto].
  - intros H. pose proof H as [Hne (raw & Hr & <-)]. split; [done|]. exists (trim_space raw).
    rewrite dedupe_elem, trim_space_idem. done.
Qed.

Lemma dedupe_idem l : dedupeStackIDs (dedupeStackIDs l) = dedupeStackIDs l.
Proof. apply dedupe_canonical, dedupe_denotes. Qed.

(** A list without ids. *)
Lemma dedupe_nil l : dedupeStackIDs l = [] ↔ ∀ id, ¬ denotes l id.
Proof.
  split; [intros E id Hd%dedupe_elem; rewrite E in Hd; by apply elem_of_nil in Hd|].
  intros H. apply elem_of_nil_inv. intros id ?%dedupe_elem. by apply (H id).
Qed.

(** ** Exclusions: lemmas *)

(** Exclusions in normal form: trimmed stack ids with non-empty normal lists. *)
Definition normal_exclusions (m : gmap string (list string)) : Prop :=
  ∀ k v, m !! k = Some v → k ≠ "" ∧ trim_space k = k ∧ v ≠ [] ∧ dedupeStackIDs v = v.

Section exclusions.
Context `{!MapRange string (list string)}.

Lemma normalizeExclusion_fold l m : normal_exclusions m → normal_exclusions (fold_left normalizeExclusion l m).
Proof using.
  revert m. induction l as [|[k v] l IH]; intros m Hm; cbn [fold_left]; [done|]. apply IH.
  unfold normalizeExclusion. cbn [fst snd]. destruct (str_empty (trim_space k)) eqn:Ek; [done|].
  destruct (dedupeStackIDs v) as [|x r] eqn:Ev; [done|]. intros k' v' [[<- <-]|[_ H]]%lookup_insert_Some; [|by apply Hm].
  boolify. split_and!; [done|apply trim_space_idem|done|]. rewrite <- Ev. apply dedupe_idem.
Qed.

Lemma normalizeExcludedServices_normal m : normal_exclusions (normalizeExcludedServices m).
Proof using. apply normalizeExclusion_fold. intros k v. by rewrite lookup_empty. Qed.

(** Normal exclusions are left as they are, whatever the order of the map. *)
Lemma normalizeExcludedServices_id m : normal_exclusions m → normalizeExcludedServices m = m.
Proof using.
  intros Hm. unfold normalizeExcludedServices.
  assert (∀ l (acc : gmap string (list string)), (∀ e, e ∈ l → m !! e.1 = Some e.2) →
    fold_left normalizeExclusion l acc = fold_left (λ acc e, <[e.1 := e.2]> acc) l acc) as Hfold.
  { induction l as [|[k v] l IH]; intros acc Hl; cbn [fold_left]; [done|].
    destruct (Hm k v (Hl _ (list_elem_of_here _ _))) as (H1 & H2 & H3 & H4).
    unfold normalizeExclusion at 2. cbn [fst snd]. rewrite H2, H4. unfold str_empty, str_eqb. rewrite bool_decide_false by done.
    destruct v as [|x v]; [done|]. apply IH. intros e He. apply Hl. by right. }
  rewrite Hfold by (intros [k v]; apply range_list_elem).
  assert (∀ l (acc : gmap string (list string)), fold_left (λ acc e, <[e.1 := e.2]> acc) l acc = list_to_map (reverse l) ∪ acc) as Hmap.
  { induction l as [|[k v] l IH]; intros acc; cbn [fold_left]; [by rewrite reverse_nil, list_to_map_nil, (left_id_L ∅ (∪))|].
    rewrite IH, reverse_cons, list_to_map_app. cbn. rewrite <- (assoc_L (∪)). f_equal. by rewrite insert_empty, insert_union_singleton_l. }
  rewrite Hmap, (right_id_L ∅ (∪)). rewrite <- (list_to_map_to_list m) at 2.
  assert (NoDup ((range_list m).*1)) as Hnd by (rewrite range_perm; apply NoDup_fst_map_to_list).
  etrans; [|apply list_to_map_proper; [exact Hnd|apply range_perm]].
  apply list_to_map_proper; [by rewrite fmap_reverse, reverse_Permutation|apply reverse_Permutation].
Qed.
End exclusions.

(** ** Properties *)

(** for a valid configuration and a time of day that exists on every day,
    the most recent and the next occurrence are found, lie on the two sides of
    the clock, and no occurrence lies between them. *)
Theorem schedule_brackets (l : Location) `{!CalendarZone l} b now h m :
  validateBaseSchedule b = Ok tt → parseTimeOfDay (TimeOfDay b) = Some (h, m) → unaffected l (time_of_day h m) →
  ∃ recent next, mostRecentScheduledAt l (Freq b) (TimeOfDay b) (Weekdays b) now = Some recent ∧
    nextScheduledAt l (Freq b) (TimeOfDay b) (Weekdays b) now = Some next ∧
    consecutive l (time_of_day h m) b now recent next.
Proof. intros Hv Hp Hu. by eapply (schedule_consecutive l _ Hu). Qed.

(** a run is due exactly when the schedule is enabled, and its most recent
    occurrence was not yet scheduled and is at most six hours old. *)
Theorem dueSchedule_spec (l : Location) `{!CalendarZone l} b last now h m due :
  validateBaseSchedule b = Ok tt → parseTimeOfDay (TimeOfDay b) = Some (h, m) → unaffected l (time_of_day h m) →
  dueSchedule l b last now = Some due ↔
    Enabled b = true ∧ occurs l (time_of_day h m) b due ∧ now - catchUpWindow <= due <= now ∧ last ≠ Some due ∧
    ∀ t, occurs l (time_of_day h m) b t → t <= now → t <= due.
Proof.
  intros Hv Hp Hu. destruct (schedule_consecutive l _ Hu b now h m Hv Hp eq_refl) as (recent & next & Hr & _ & Ho & Hon & Hb & Hc).
  unfold dueSchedule. rewrite Hr. destruct (Enabled b); cbn [negb]; [|naive_solver].
  assert ((match last with Some t => recent =? t | None => false end) = true ↔ last = Some recent) as Hl.
  { destruct last as [t|]; [|done]. rewrite Z.eqb_eq. naive_solver. }
  destruct (match last with Some t => _ | None => _ end); [|destruct (Z.ltb_spec catchUpWindow (now - recent)) as [Hw|Hw]]; split.
  - done.
  - intros (_ & Hod & Hd & Hne & Hmax). exfalso. apply Hne. rewrite (proj1 Hl eq_refl). f_equal.
    specialize (Hmax recent Ho ltac:(lia)). destruct (Hc due Hod); lia.
  - done.
  - intros (_ & Hod & Hd & _). destruct (Hc due Hod); lia.
  - intros [= <-]. split_and!; [done|done|lia|lia| |].
    + intros E. by apply Hl in E.
    + intros t Hot Ht. destruct (Hc t Hot); lia.
  - intros (_ & Hod & Hd & _ & Hmax). f_equal. specialize (Hmax recent Ho ltac:(lia)). destruct (Hc due Hod); lia.
Qed.

(** the normal form of a list of stack ids is sorted, without duplicates and
    blanks, and depends only on which ids the list stands for; normalizing the
    exclusions of a saved configuration again changes nothing. *)
Theorem normalization_canonical `{!MapRange string (list string)} :
  (∀ l id, id ∈ dedupeStackIDs l ↔ denotes l id) ∧
  (∀ l, NoDup (dedupeStackIDs l) ∧ Sorted String.le (dedupeStackIDs l)) ∧
  (∀ l k, (∀ id, denotes l id ↔ denotes k id) → dedupeStackIDs l = dedupeStackIDs k) ∧
  (∀ config, normalizeUpdateConfig (normalizeUpdateConfig config) = normalizeUpdateConfig config).
Proof.
  split_and!; [apply dedupe_elem| |apply dedupe_canonical|].
  - intros l. split; [apply dedupe_NoDup|]. exact (sort_by_sorted (λ s, s) (dedupeLoop ∅ l)).
  - intros [b [mode ids ex] o]. unfold normalizeUpdateConfig. cbn [Target u_base Options Mode StackIDs ExcludedServices].
    by rewrite trim_space_idem, dedupe_idem, (normalizeExcludedServices_id _ (normalizeExcludedServices_normal ex)).
Qed.

(** ** Concrete runs *)

(** Sundays and Wednesdays at 03:30, in Central Europe. *)
Definition demoWeekly : baseSchedule := mkBase true "weekly" "03:30" ["sun"; "wed"].

Lemma demoEurope_unaffected : unaffected demoEurope (time_of_day 3 30).
Proof.
  split; [by vm_compute|]. intros day. unfold local_tod, wall_of. rewrite demoEurope_date, demoEurope_offset. cbn zeta.
  unfold unix, time_of_day, Day, Hour, Minute, Second. repeat case_match; boolify; lia.
Qed.

(** Saturday, March 30, 2024, noon. *)
Definition demoSaturday : Time := 1711796400 * Second.

Lemma schedule_brackets_witness : ∃ recent next,
  mostRecentScheduledAt demoEurope "weekly" "03:30" ["sun"; "wed"] demoSaturday = Some recent ∧
  nextScheduledAt demoEurope "weekly" "03:30" ["sun"; "wed"] demoSaturday = Some next ∧ recent <= demoSaturday < next.
Proof.
  destruct (schedule_brackets demoEurope demoWeekly demoSaturday 3 30) as (recent & next & H1 & H2 & (_ & _ & H3 & _));
    [by vm_compute|by vm_compute|exact demoEurope_unaffected|].
  exact (ex_intro _ recent (ex_intro _ next (conj H1 (conj H2 H3)))).
Defined.

(** Sunday 05:00: the occurrence of 03:30 is one and a half hours old. *)
Definition demoSunday : Time := 1711854000 * Second.

Lemma dueSchedule_spec_witness : ∃ due, dueSchedule demoEurope demoWeekly None demoSunday = Some due ∧ demoSunday - catchUpWindow <= due.
Proof.
  destruct (dueSchedule demoEurope demoWeekly None demoSunday) as [due|] eqn:E; [|by vm_compute in E].
  exists due. split; [reflexivity|].
  pose proof (proj1 (dueSchedule_spec demoEurope demoWeekly None demoSunday 3 30 due ltac:(by vm_compute) ltac:(by vm_compute) demoEurope_unaffected) E)
    as (_ & _ & H & _).
  exact (proj1 H).
Defined.

Lemma normalization_canonical_witness :
  dedupeStackIDs [" web "; "db"; "web"; ""] = dedupeStackIDs ["db"; "web"].
Proof.
  refine (proj1 (proj2 (proj2 (normalization_canonical (MapRange0 := default_range string (list string))))) _ _ _).
  intros id. unfold denotes. split; intros [Hne (raw & Hr & <-)]; (split; [exact Hne|]);
    repeat (apply elem_of_cons in Hr as [->|Hr]); try (by apply elem_of_nil in Hr); try (by destruct Hne).
  - exists "web". split; [right; left|by vm_compute].
  - exists "db". split; [left|by vm_compute].
  - exists "web". split; [right; left|by vm_compute].
  - exists "db". split; [right; left|by vm_compute].
  - exists "web". split; [do 2 right; left|by vm_compute].
Defined.

(** On the day the clock is set forward over the time of day, the daily
    occurrence is moved by an hour, and the next occurrence is computed from the
    moved one: on March 31, 2024 at 05:00 the next run of a schedule at 02:30 is
    announced for April 1, 03:30, but it becomes due at 02:30. *)
Lemma next_run_after_gap :
  let apr1_0230 := 1711931400 * Second in
  let b := mkBase true "daily" "02:30" [] in
  nextScheduledAt demoEurope "daily" "02:30" [] demoSunday = Some (apr1_0230 + Hour) ∧
  dueSchedule demoEurope b None apr1_0230 = Some apr1_0230.
Proof. by vm_compute. Qed.

(** Two stack names that differ only in blanks: which exclusions are kept
    depends on the iteration order of the map. *)
Definition demoReversed : MapRange string (list string) :=
  {| range_list := λ m, reverse (map_to_list m); range_perm := λ m, reverse_Permutation (map_to_list m) |}.

Lemma exclusions_depend_on_order :
  let excluded : gmap string (list string) := {["web" := ["api"]; " web" := ["db"]]} in
  @normalizeExcludedServices (default_range string (list string)) excluded ≠ @normalizeExcludedServices demoReversed excluded.
Proof. by vm_compute. Qed.
