(* ===== verification/JobsResource.v ===== *)
(** * internal/jobs/resource.go: typed job resources and their conflicts

    The resources a mutating job can hold, the pairwise conflict matrix
    [ResourcesConflict], and [normalizeResources], which turns a request into
    the sorted list of resources a job locks. *)

From stdpp Require Import gmap strings list sorting.
From S2P Require Import Prelude GoStrings.

(** [ResourceKind]; [ResourceKindInvalid] is the zero value of the uint8, the
    kind of [Resource{}]. *)
Inductive ResourceKind :=
| ResourceKindInvalid
| ResourceKindGlobal
| ResourceKindDockerDaemon
| ResourceKindDockerRegistry
| ResourceKindSelfUpdate
| ResourceKindImageUpdates
| ResourceKindStack
| ResourceKindBackupRepository.

#[global] Instance ResourceKind_eq_dec : EqDecision ResourceKind.
Proof. solve_decision. Defined.

Definition kind_code (k : ResourceKind) : nat :=
  match k with
  | ResourceKindInvalid => 0
  | ResourceKindGlobal => 1
  | ResourceKindDockerDaemon => 2
  | ResourceKindDockerRegistry => 3
  | ResourceKindSelfUpdate => 4
  | ResourceKindImageUpdates => 5
  | ResourceKindStack => 6
  | ResourceKindBackupRepository => 7
  end.
Definition kind_of_code (n : nat) : ResourceKind :=
  match n with
  | 1 => ResourceKindGlobal
  | 2 => ResourceKindDockerDaemon
  | 3 => ResourceKindDockerRegistry
  | 4 => ResourceKindSelfUpdate
  | 5 => ResourceKindImageUpdates
  | 6 => ResourceKindStack
  | 7 => ResourceKindBackupRepository
  | _ => ResourceKindInvalid
  end.

Record Resource := mkResource { kind : ResourceKind; id : string }.

#[global] Instance Resource_eq_dec : EqDecision Resource.
Proof. solve_decision. Defined.
#[global] Instance Resource_countable : Countable Resource.
Proof.
  apply (inj_countable' (λ r, (kind_code (kind r), id r))
                        (λ p, mkResource (kind_of_code p.1) p.2)).
  by intros [[] i].
Defined.

Definition zeroResource : Resource := mkResource ResourceKindInvalid "".
Definition GlobalResource : Resource := mkResource ResourceKindGlobal "".
Definition DockerDaemonResource : Resource := mkResource ResourceKindDockerDaemon "".
Definition DockerRegistryResource : Resource := mkResource ResourceKindDockerRegistry "".
Definition SelfUpdateResource : Resource := mkResource ResourceKindSelfUpdate "".
Definition ImageUpdatesResource : Resource := mkResource ResourceKindImageUpdates "".
Definition StackResource (stackID : string) : Resource :=
  mkResource ResourceKindStack (trim_space stackID).
Definition BackupRepositoryResource (key : string) : Resource :=
  mkResource ResourceKindBackupRepository (trim_space key).

Definition StackResources (stackIDs : list string) : list Resource :=
  filter (λ r, id r ≠ "") (StackResource <$> stackIDs).

Definition StackID (r : Resource) : string :=
  if decide (kind r = ResourceKindStack) then id r else "".

(** [Resource.String]. *)
Definition resource_string (r : Resource) : string :=
  match kind r with
  | ResourceKindGlobal => "global"
  | ResourceKindDockerDaemon => "docker-daemon"
  | ResourceKindDockerRegistry => "docker-registry"
  | ResourceKindSelfUpdate => "self-update"
  | ResourceKindImageUpdates => "image-updates"
  | ResourceKindStack => "stack:" +:+ id r
  | ResourceKindBackupRepository => "backup-repository:" +:+ id r
  | ResourceKindInvalid => "invalid"
  end.

Inductive resource_error :=
| ErrResourcesRequired
| ErrInvalidResource (message : string).

(** [Resource.validate]. *)
Definition resource_validate (r : Resource) : res resource_error unit :=
  match kind r with
  | ResourceKindGlobal | ResourceKindDockerDaemon | ResourceKindDockerRegistry
  | ResourceKindSelfUpdate | ResourceKindImageUpdates =>
    guard_err (negb (str_empty (id r)))
      (ErrInvalidResource (resource_string r +:+ " resource cannot have an id"))
  | ResourceKindStack | ResourceKindBackupRepository =>
    guard_err (str_empty (id r)) (ErrInvalidResource "stack resource requires an id")
  | ResourceKindInvalid => Err (ErrInvalidResource "unknown resource kind 0")
  end.

Definition kind_is (k : ResourceKind) (r : Resource) : bool := bool_decide (kind r = k).

(** The conflict matrix, in the order of the code's early returns. *)
Definition ResourcesConflict (left right : Resource) : bool :=
  if bool_decide (left = right) then true
  else if kind_is ResourceKindBackupRepository left || kind_is ResourceKindBackupRepository right then false
  else if kind_is ResourceKindGlobal left || kind_is ResourceKindGlobal right then true
  else if kind_is ResourceKindDockerDaemon left || kind_is ResourceKindDockerDaemon right then
    let other := if negb (kind_is ResourceKindDockerDaemon left) then left else right in
    kind_is ResourceKindStack other || kind_is ResourceKindDockerRegistry other
  else if kind_is ResourceKindDockerRegistry left || kind_is ResourceKindDockerRegistry right then
    let other := if negb (kind_is ResourceKindDockerRegistry left) then left else right in
    kind_is ResourceKindStack other
  else false.

(** [normalizeResources].  [unique] is the Go map used as a set.  The
    validation loop and the insertions are interleaved in the code; a failed
    validation discards the map, so the two loops are separated here. *)
Fixpoint validate_all (requested : list Resource) : res resource_error unit :=
  match requested with
  | [] => Ok tt
  | r :: rest => let? _ := resource_validate r in validate_all rest
  end.

Definition uniqueResources (stackID : string) (requested : list Resource) : gset Resource :=
  (if str_empty (trim_space stackID) then ∅ else {[ StackResource stackID ]})
  ∪ list_to_set requested.

(** What the global lock subsumes is deleted: everything but the global
    resource itself and the backup repositories. *)
Definition dropSubsumed (unique : gset Resource) : gset Resource :=
  if decide (GlobalResource ∈ unique)
  then filter (λ r, r = GlobalResource ∨ kind r = ResourceKindBackupRepository) unique
  else unique.

Definition normalizeResources (stackID : string) (requested : list Resource)
  : res resource_error (list Resource) :=
  let? _ := validate_all requested in
  let unique := uniqueResources stackID requested in
  if decide (unique = ∅) then Err ErrResourcesRequired
  else Ok (sort_by resource_string (elements (dropSubsumed unique))).

(** ** Lemmas *)

Lemma validate_all_ok requested :
  validate_all requested = Ok tt ↔ Forall (λ r, resource_validate r = Ok tt) requested.
Proof.
  induction requested as [|r rest IH]; cbn; [done|].
  rewrite Forall_cons, <- IH. destruct (resource_validate r) as [[]|]; cbn; split; [by auto|by intros [_ ?]|done|by intros [? _]].
Qed.

(** The printed form of valid resources identifies them, so that sorting by it
    is deterministic. *)
Lemma resource_string_inj r1 r2 :
  resource_validate r1 = Ok tt → resource_validate r2 = Ok tt →
  resource_string r1 = resource_string r2 → r1 = r2.
Proof.
  destruct r1 as [k1 i1], r2 as [k2 i2].
  destruct k1, k2; cbn; unfold guard_err; intros H1 H2 H;
    try discriminate; repeat case_match; boolify; simplify_eq; try done.
Qed.

Lemma StackResource_valid stackID :
  str_empty (trim_space stackID) = false → resource_validate (StackResource stackID) = Ok tt.
Proof. intros H. cbn. unfold guard_err. by rewrite H. Qed.

Lemma uniqueResources_valid stackID requested r :
  validate_all requested = Ok tt → r ∈ uniqueResources stackID requested → resource_validate r = Ok tt.
Proof.
  intros Hv%validate_all_ok Hr. unfold uniqueResources in Hr.
  apply elem_of_union in Hr as [Hr|Hr].
  - destruct (str_empty (trim_space stackID)) eqn:E; [set_solver|].
    apply elem_of_singleton in Hr as ->. by apply StackResource_valid.
  - rewrite Forall_forall in Hv. apply Hv. set_solver.
Qed.

Lemma dropSubsumed_subset u : dropSubsumed u ⊆ u.
Proof. unfold dropSubsumed. case_decide; set_solver. Qed.

Lemma dropSubsumed_nonempty u : u ≠ ∅ → dropSubsumed u ≠ ∅.
Proof.
  unfold dropSubsumed. case_decide as Hg; [|done]. intros _ He.
  assert (GlobalResource ∈ (∅ : gset Resource)); [|set_solver].
  rewrite <- He. apply elem_of_filter. auto.
Qed.

Lemma conflict_refl r : ResourcesConflict r r = true.
Proof. unfold ResourcesConflict. by rewrite bool_decide_true. Qed.

Lemma conflict_sym_le l r : ResourcesConflict l r = true → ResourcesConflict r l = true.
Proof.
  destruct (decide (l = r)) as [->|Hne]; [done|].
  unfold ResourcesConflict, kind_is. rewrite (bool_decide_false (l = r)), (bool_decide_false (r = l)) by congruence.
  destruct l as [kl il], r as [kr ir]. cbn [kind]. clear Hne.
  destruct kl, kr; by vm_compute.
Qed.

(** What the result of [normalizeResources] is made of. *)
Lemma normalize_Ok stackID requested rs :
  normalizeResources stackID requested = Ok rs →
  validate_all requested = Ok tt ∧ uniqueResources stackID requested ≠ ∅ ∧
  rs = sort_by resource_string (elements (dropSubsumed (uniqueResources stackID requested))).
Proof.
  unfold normalizeResources. intros H.
  destruct (validate_all requested) as [[]|]; cbn in H; [|done].
  case_decide; [done|]. by injection H as <-.
Qed.

Lemma normalize_elem stackID requested rs r :
  normalizeResources stackID requested = Ok rs →
  r ∈ rs ↔ r ∈ dropSubsumed (uniqueResources stackID requested).
Proof. intros (_ & _ & ->)%normalize_Ok. rewrite sort_by_elem. set_solver. Qed.

Lemma normalize_valid stackID requested rs r :
  normalizeResources stackID requested = Ok rs → r ∈ rs → resource_validate r = Ok tt.
Proof.
  intros H Hr. rewrite (normalize_elem _ _ _ _ H) in Hr.
  apply normalize_Ok in H as (Hv & _ & _).
  eapply uniqueResources_valid; [done|]. by apply dropSubsumed_subset.
Qed.

Lemma normalize_nonempty stackID requested rs :
  normalizeResources stackID requested = Ok rs → rs ≠ [].
Proof.
  intros H Hn.
  destruct (set_choose_L (dropSubsumed (uniqueResources stackID requested))) as [r Hr].
  { apply dropSubsumed_nonempty. by apply normalize_Ok in H as (_ & ? & _). }
  rewrite <- (normalize_elem _ _ _ _ H), Hn in Hr. set_solver.
Qed.
#[export] Hint Resolve normalize_nonempty normalize_valid conflict_refl : stacklab.

(** Dropping what the global lock subsumes never weakens exclusion: whatever
    conflicts with a requested resource conflicts with a normalized one. *)
Lemma dropSubsumed_conflicts u r other :
  r ∈ u → ResourcesConflict r other = true →
  ∃ r', r' ∈ dropSubsumed u ∧ ResourcesConflict r' other = true.
Proof.
  unfold dropSubsumed. case_decide as Hg; [|by eauto]. intros Hr Hc.
  destruct (decide (r = GlobalResource ∨ kind r = ResourceKindBackupRepository)) as [Hk|Hk].
  { exists r. rewrite elem_of_filter. auto. }
  exists GlobalResource. rewrite elem_of_filter. split; [auto|].
  unfold ResourcesConflict, kind_is in *.
  destruct (decide (GlobalResource = other)) as [He|He]; [by rewrite bool_decide_true|].
  rewrite (bool_decide_false (GlobalResource = other)) by done. cbn.
  destruct (decide (r = other)) as [->|].
  - rewrite (bool_decide_false (kind other = _)) by tauto. done.
  - rewrite (bool_decide_false (r = other)) in Hc by done.
    rewrite (bool_decide_false (kind r = ResourceKindBackupRepository)) in Hc by tauto. cbn in Hc.
    by case_bool_decide.
Qed.

(** The requests and the normalized list cover the same conflicts. *)
Lemma requested_unique stackID requested r :
  r ∈ requested → r ∈ uniqueResources stackID requested.
Proof. unfold uniqueResources. set_solver. Qed.

(** [normalizeResources] is a function of the set of requested resources:
    whatever order the Go map yields them in and however the unstable
    [sort.Slice] places them, a sorted rearrangement of the surviving resources
    is the list returned. *)
Theorem normalizeResources_deterministic stackID requested rs iterated sorted :
  normalizeResources stackID requested = Ok rs →
  iterated ≡ₚ elements (dropSubsumed (uniqueResources stackID requested)) →
  sorted ≡ₚ iterated → Sorted (key_le resource_string) sorted →
  sorted = rs.
Proof.
  intros H Hi Hs Hsort. pose proof (normalize_Ok _ _ _ H) as (_ & _ & ->).
  apply sort_by_unique; [|by rewrite Hs, Hi|done].
  intros x y Hx Hy. rewrite <- (sort_by_elem resource_string) in Hx, Hy.
  apply resource_string_inj; eauto with stacklab.
Qed.

Lemma normalizeResources_deterministic_witness :
  [DockerDaemonResource; StackResource "web"] =
  [DockerDaemonResource; StackResource "web"].
Proof.
  apply (normalizeResources_deterministic " web " [DockerDaemonResource]
    [DockerDaemonResource; StackResource "web"] [StackResource "web"; DockerDaemonResource]).
  - by vm_compute.
  - vm_compute. reflexivity.
  - vm_compute. apply perm_swap.
  - repeat constructor.
Defined.

(** normalization never weakens exclusion: any resource that conflicts with
    a requested resource, or with the job's stack, conflicts with one of the
    resources the job locks, although the ones subsumed by the global lock are
    dropped. *)
Theorem normalizeResources_keeps_conflicts stackID requested rs r other :
  normalizeResources stackID requested = Ok rs →
  r ∈ requested ∨ (r = StackResource stackID ∧ trim_space stackID ≠ "") →
  ResourcesConflict r other = true →
  ∃ r', r' ∈ rs ∧ ResourcesConflict r' other = true.
Proof.
  intros H Hr Hc. destruct (dropSubsumed_conflicts (uniqueResources stackID requested) r other) as (r' & ? & ?).
  - destruct Hr as [Hr|[-> Hne]]; [by apply requested_unique|].
    unfold uniqueResources, str_empty, str_eqb. rewrite bool_decide_false by done. set_solver.
  - done.
  - exists r'. by rewrite (normalize_elem _ _ _ _ H).
Qed.

Lemma normalizeResources_keeps_conflicts_witness :
  ∃ r', r' ∈ [BackupRepositoryResource "k"; GlobalResource] ∧
        ResourcesConflict r' (StackResource "web") = true.
Proof.
  apply (normalizeResources_keeps_conflicts "web"
    [DockerDaemonResource; GlobalResource; BackupRepositoryResource "k"]
    _ (StackResource "web")).
  - by vm_compute.
  - right. split; [done|by vm_compute].
  - by vm_compute.
Defined.
