(* ===== verification/JobsLocks.v ===== *)
(** * internal/jobs/service.go: the in-memory resource locks

    The part of [jobs.Service] guarded by [s.mu]: which job holds which
    resource, the resources of each job, and the drain barrier.  Operations
    [lockMany], [ReplaceResources], [unlockAll]; the invariant they maintain; an
    abstract lock manager (a map from jobs to the set of resources they hold)
    and the proof that the operations implement it. *)

From stdpp Require Import gmap strings list sorting relations.
From S2P Require Import Prelude GoStrings JobsResource.

Inductive ConflictReason :=
| ConflictReasonResourceHeld
| ConflictReasonDrainActive
| ConflictReasonDrainBlocked.

Record ResourceConflictError := mkConflict {
  Reason : ConflictReason;
  Requested : Resource;
  Conflicting : Resource;
  ConflictingJobID : string
}.

Inductive lock_error :=
| ErrResourceConflict (c : ResourceConflictError)
| ErrNormalize (e : resource_error)
| ErrLeaseInactive.

Record Locks := mkLocks {
  lockedByResource : gmap Resource string;
  resourcesByJob : gmap string (list Resource);
  drainingJobID : string;
  drainingResource : Resource
}.

Definition emptyLocks : Locks := mkLocks ∅ ∅ "" zeroResource.

(** [resources[0]]: every caller passes a result of [normalizeResources],
    which is never empty ([normalize_nonempty]). *)
Definition firstResource (resources : list Resource) : Resource :=
  match resources with r :: _ => r | [] => zeroResource end.

Section operations.
Context `{!MapRange Resource string}.

(** The lock held by another job that conflicts with a requested resource: the
    two nested loops of [lockMany] and [ReplaceResources]. *)
Definition holderConflict (skipEmpty : bool) (jobID : string) (requested : Resource)
    (entry : Resource * string) : bool :=
  (if skipEmpty then negb (str_empty entry.2) else true)
  && negb (str_eqb entry.2 jobID) && ResourcesConflict requested entry.1.

Fixpoint findConflict (skipEmpty : bool) (jobID : string) (resources : list Resource)
    (held : gmap Resource string) : option ResourceConflictError :=
  match resources with
  | [] => None
  | requested :: rest =>
    match find (holderConflict skipEmpty jobID requested) (range_list held) with
    | Some (conflicting, holder) =>
      Some (mkConflict ConflictReasonResourceHeld requested conflicting holder)
    | None => findConflict skipEmpty jobID rest held
    end
  end.

(** [firstLockedResourceLocked]: the held resource with the least printed form. *)
Fixpoint firstLockedFrom (found : option (Resource * string)) (l : list (Resource * string))
    : option (Resource * string) :=
  match l with
  | [] => found
  | (resource, jobID) :: rest =>
    firstLockedFrom
      (match found with
       | None => Some (resource, jobID)
       | Some (selected, _) =>
         if str_ltb (resource_string resource) (resource_string selected)
         then Some (resource, jobID) else found
       end) rest
  end.
Definition firstLockedResourceLocked (s : Locks) : option (Resource * string) :=
  firstLockedFrom None (range_list (lockedByResource s)).

(** The loop [for _, r := range resources { locked[r] = jobID }]. *)
Definition lockEach (jobID : string) (resources : list Resource) (m : gmap Resource string)
    : gmap Resource string :=
  foldl (λ m r, <[r := jobID]> m) m resources.

(** The loop that deletes each resource still held by the job. *)
Definition releaseEach (jobID : string) (resources : list Resource) (m : gmap Resource string)
    : gmap Resource string :=
  foldl (λ m r, if decide (m !! r = Some jobID) then delete r m else m) m resources.

Definition drainBlocks (s : Locks) (jobID : string) : bool :=
  negb (str_empty (drainingJobID s)) && negb (str_eqb (drainingJobID s) jobID).

Definition lockMany (s : Locks) (jobID : string) (resources : list Resource) (draining : bool)
    : res lock_error Locks :=
  if drainBlocks s jobID then
    Err (ErrResourceConflict (mkConflict ConflictReasonDrainActive (firstResource resources)
           (drainingResource s) (drainingJobID s)))
  else
  match (if draining then firstLockedResourceLocked s else None) with
  | Some (conflicting, conflictingJobID) =>
    Err (ErrResourceConflict (mkConflict ConflictReasonDrainBlocked (firstResource resources)
           conflicting conflictingJobID))
  | None =>
    match findConflict true jobID resources (lockedByResource s) with
    | Some c => Err (ErrResourceConflict c)
    | None =>
      Ok (mkLocks (lockEach jobID resources (lockedByResource s))
                  (<[jobID := resources]> (resourcesByJob s))
                  (if draining then jobID else drainingJobID s)
                  (if draining then firstResource resources else drainingResource s))
    end
  end.

Definition ReplaceResources (s : Locks) (jobID : string) (requested : list Resource)
    : res lock_error Locks :=
  match normalizeResources "" requested with
  | Err e => Err (ErrNormalize e)
  | Ok resources =>
    match resourcesByJob s !! jobID with
    | None => Err ErrLeaseInactive
    | Some old =>
      if drainBlocks s jobID then
        Err (ErrResourceConflict (mkConflict ConflictReasonDrainActive (firstResource resources)
               (drainingResource s) (drainingJobID s)))
      else
      match findConflict false jobID resources (lockedByResource s) with
      | Some c => Err (ErrResourceConflict c)
      | None =>
        let mine := str_eqb (drainingJobID s) jobID in
        Ok (mkLocks (lockEach jobID resources (releaseEach jobID old (lockedByResource s)))
                    (<[jobID := resources]> (resourcesByJob s))
                    (if mine then "" else drainingJobID s)
                    (if mine then zeroResource else drainingResource s))
      end
    end
  end.
End operations.

Definition unlockAll (s : Locks) (jobID : string) : Locks :=
  let mine := str_eqb (drainingJobID s) jobID in
  let s := mkLocks (lockedByResource s) (resourcesByJob s)
             (if mine then "" else drainingJobID s)
             (if mine then zeroResource else drainingResource s) in
  match resourcesByJob s !! jobID with
  | None => s
  | Some resources =>
    mkLocks (releaseEach jobID resources (lockedByResource s))
            (delete jobID (resourcesByJob s)) (drainingJobID s) (drainingResource s)
  end.

(** ** The invariant of the lock table *)

Record lock_inv (s : Locks) : Prop := {
  (** a held resource is in the list of its holder *)
  inv_held : ∀ r j, lockedByResource s !! r = Some j →
    ∃ rs, resourcesByJob s !! j = Some rs ∧ r ∈ rs;
  (** every resource in a job's list is held by that job *)
  inv_list : ∀ j rs r, resourcesByJob s !! j = Some rs → r ∈ rs →
    lockedByResource s !! r = Some j;
  (** jobs have a name and hold at least one resource *)
  inv_named : ∀ j rs, resourcesByJob s !! j = Some rs → j ≠ "" ∧ rs ≠ [];
  (** mutual exclusion: two jobs never hold conflicting resources *)
  inv_exclusive : ∀ r1 r2 j1 j2,
    lockedByResource s !! r1 = Some j1 → lockedByResource s !! r2 = Some j2 →
    ResourcesConflict r1 r2 = true → j1 = j2;
  (** while a drain is installed its job is the only holder *)
  inv_drain : drainingJobID s ≠ "" →
    is_Some (resourcesByJob s !! drainingJobID s) ∧
    ∀ j, is_Some (resourcesByJob s !! j) → j = drainingJobID s;
  (** without a drain the barrier resource is the zero value *)
  inv_idle : drainingJobID s = "" → drainingResource s = zeroResource
}.

(** ** The abstract lock manager

    An abstract state maps each job to the set of resources it holds, with the
    job that drains, if any. *)
Record AbsLocks := mkAbs { holds : gmap string (gset Resource); drain : option string }.

Definition abs (s : Locks) : AbsLocks :=
  mkAbs (list_to_set <$> resourcesByJob s)
        (if str_empty (drainingJobID s) then None else Some (drainingJobID s)).

(** A job may acquire a set of resources when no other job drains and no other
    job holds a conflicting resource; a drain needs an idle manager. *)
Definition can_acquire (a : AbsLocks) (jobID : string) (rs : gset Resource) (draining : bool) : Prop :=
  (∀ d, drain a = Some d → d = jobID) ∧
  (draining = true → holds a = ∅) ∧
  (∀ j held r r', holds a !! j = Some held → j ≠ jobID → r ∈ rs → r' ∈ held →
     ResourcesConflict r r' = false).

Definition acquire (a : AbsLocks) (jobID : string) (rs : gset Resource) (draining : bool) : AbsLocks :=
  mkAbs (<[jobID := rs]> (holds a)) (if draining then Some jobID else drain a).

Definition release (a : AbsLocks) (jobID : string) : AbsLocks :=
  mkAbs (delete jobID (holds a))
        (if decide (drain a = Some jobID) then None else drain a).

(** ** Lemmas on the loops *)

Lemma lockEach_lookup jobID rs m r :
  lockEach jobID rs m !! r = if decide (r ∈ rs) then Some jobID else m !! r.
Proof.
  revert m. induction rs as [|x rs IH]; intros m; cbn.
  { by rewrite decide_False by set_solver. }
  change (lockEach jobID rs (<[x:=jobID]> m) !! r = if decide (r ∈ x :: rs) then Some jobID else m !! r).
  rewrite IH. destruct (decide (r ∈ rs)); [by rewrite decide_True by set_solver|].
  destruct (decide (r = x)) as [->|].
  - rewrite decide_True by set_solver. apply lookup_insert_eq.
  - rewrite decide_False by set_solver. by apply lookup_insert_ne.
Qed.

Lemma releaseEach_lookup jobID rs m r :
  releaseEach jobID rs m !! r = if decide (r ∈ rs ∧ m !! r = Some jobID) then None else m !! r.
Proof.
  revert m. induction rs as [|x rs IH]; intros m; cbn.
  { by rewrite decide_False by set_solver. }
  change (releaseEach jobID rs (if decide (m !! x = Some jobID) then delete x m else m) !! r
          = if decide (r ∈ x :: rs ∧ m !! r = Some jobID) then None else m !! r).
  rewrite IH. destruct (decide (r = x)) as [->|Hne].
  - destruct (decide (m !! x = Some jobID)) as [E|E].
    + rewrite lookup_delete_eq, decide_False by (intros [_ ?]; done).
      by rewrite decide_True by set_solver.
    + rewrite !decide_False by tauto. done.
  - assert ((if decide (m !! x = Some jobID) then delete x m else m) !! r = m !! r) as ->.
    { destruct (decide (m !! x = Some jobID)); [by apply lookup_delete_ne|done]. }
    destruct (decide (r ∈ rs ∧ m !! r = Some jobID)).
    + by rewrite decide_True by set_solver.
    + by rewrite decide_False by set_solver.
Qed.

Section loop_lemmas.
Context `{!MapRange Resource string}.

Lemma findConflict_None skipEmpty jobID rs held :
  findConflict skipEmpty jobID rs held = None ↔
  ∀ r r' j, r ∈ rs → held !! r' = Some j → holderConflict skipEmpty jobID r (r', j) = false.
Proof.
  induction rs as [|x rs IH]; cbn; [set_solver|].
  destruct (find _ (range_list held)) as [[c h]|] eqn:Hf.
  - split; [done|]. intros Hall. apply find_some in Hf as [Hin Ht].
    apply list_elem_of_In, range_list_elem in Hin. rewrite (Hall x c h) in Ht; set_solver.
  - rewrite IH. split; [|set_solver].
    intros Hall r r' j [->|Hr]%elem_of_cons Hl; [|eauto].
    apply (find_none _ _ Hf (r', j)). by apply list_elem_of_In, range_list_elem.
Qed.

Lemma findConflict_Some skipEmpty jobID rs held c :
  findConflict skipEmpty jobID rs held = Some c →
  Reason c = ConflictReasonResourceHeld ∧ Requested c ∈ rs ∧
  held !! Conflicting c = Some (ConflictingJobID c) ∧ ConflictingJobID c ≠ jobID ∧
  ResourcesConflict (Requested c) (Conflicting c) = true.
Proof.
  induction rs as [|x rs IH]; cbn; [done|].
  destruct (find _ (range_list held)) as [[r h]|] eqn:Hf; [|set_solver].
  intros [= <-]. cbn. apply find_some in Hf as [Hin Ht].
  apply list_elem_of_In, range_list_elem in Hin.
  unfold holderConflict in Ht. boolify. cbn in *. set_solver.
Qed.

Lemma firstLockedFrom_None found l : firstLockedFrom found l = None ↔ found = None ∧ l = [].
Proof.
  revert found. induction l as [|[r j] l IH]; intros found; cbn; [naive_solver|].
  rewrite IH. destruct found as [[s ?]|]; [case_match|]; naive_solver.
Qed.

Lemma firstLocked_None s : firstLockedResourceLocked s = None ↔ lockedByResource s = ∅.
Proof.
  unfold firstLockedResourceLocked. rewrite firstLockedFrom_None. split.
  - intros [_ Hl]. apply map_to_list_empty_iff, Permutation_nil. by rewrite <- Hl, range_perm.
  - intros ->. split; [done|]. apply Permutation_nil. by rewrite range_perm, map_to_list_empty.
Qed.
End loop_lemmas.

Lemma drainBlocks_false s jobID :
  drainBlocks s jobID = false ↔ drainingJobID s = "" ∨ drainingJobID s = jobID.
Proof.
  unfold drainBlocks. rewrite andb_false_iff, !negb_false_iff. unfold str_empty, str_eqb.
  by rewrite !bool_decide_eq_true.
Qed.

(** The conflict test ignores the job's own locks. *)
Lemma holderConflict_other skipEmpty jobID r r' j :
  j ≠ jobID → j ≠ "" →
  holderConflict skipEmpty jobID r (r', j) = ResourcesConflict r r'.
Proof.
  intros Hj He. unfold holderConflict, str_empty, str_eqb. cbn.
  rewrite !bool_decide_false by done. by destruct skipEmpty.
Qed.

Lemma lock_inv_empty : lock_inv emptyLocks.
Proof. split; cbn; try set_solver; intros *; rewrite ?lookup_empty; naive_solver. Qed.

(** ** The operations and the invariant *)

Section preservation.
Context `{!MapRange Resource string}.

(** [lockMany] fails without touching the state, so only success matters. *)
Lemma lockMany_Ok s jobID rs draining s' :
  lockMany s jobID rs draining = Ok s' →
  drainBlocks s jobID = false ∧
  (draining = true → lockedByResource s = ∅) ∧
  findConflict true jobID rs (lockedByResource s) = None ∧
  s' = mkLocks (lockEach jobID rs (lockedByResource s)) (<[jobID := rs]> (resourcesByJob s))
         (if draining then jobID else drainingJobID s)
         (if draining then firstResource rs else drainingResource s).
Proof.
  unfold lockMany. destruct (drainBlocks s jobID); [done|].
  destruct draining.
  - destruct (firstLockedResourceLocked s) as [[]|] eqn:Hf; [done|].
    apply firstLocked_None in Hf.
    destruct (findConflict _ _ _ _); naive_solver.
  - destruct (findConflict _ _ _ _); naive_solver.
Qed.

(** A job that holds nothing yet shares no lock with another job. *)
Lemma lock_inv_byJob_empty s : lock_inv s → lockedByResource s = ∅ → resourcesByJob s = ∅.
Proof.
  intros I He. apply map_empty. intros j. destruct (resourcesByJob s !! j) as [rs|] eqn:E; [|done].
  destruct (inv_named s I _ _ E) as [_ Hne]. destruct rs as [|r rs]; [done|].
  pose proof (inv_list s I j (r :: rs) r E ltac:(set_solver)) as Hl.
  by rewrite He, lookup_empty in Hl.
Qed.

Lemma findConflict_free s skipEmpty jobID rs r r' j :
  lock_inv s → findConflict skipEmpty jobID rs (lockedByResource s) = None →
  r ∈ rs → lockedByResource s !! r' = Some j → j ≠ jobID → ResourcesConflict r r' = false.
Proof.
  intros I Hf Hr Hl Hj. rewrite <- (holderConflict_other skipEmpty jobID r r' j Hj).
  - by eapply (proj1 (findConflict_None _ _ _ _)).
  - destruct (inv_held s I _ _ Hl) as (? & Hb & _). by apply (inv_named s I) in Hb as [].
Qed.

Lemma lockMany_inv s jobID rs draining s' :
  lock_inv s → resourcesByJob s !! jobID = None → jobID ≠ "" → rs ≠ [] →
  lockMany s jobID rs draining = Ok s' → lock_inv s'.
Proof.
  intros I Hfresh Hid Hrs (Hd & Hdr & Hf & ->)%lockMany_Ok.
  assert (Hnot : ∀ r, lockedByResource s !! r ≠ Some jobID).
  { intros r Hl. destruct (inv_held s I _ _ Hl) as (? & Hb & _). congruence. }
  assert (Hother : ∀ r r' j, r ∈ rs → lockedByResource s !! r' = Some j → ResourcesConflict r r' = false).
  { intros r r' j Hr Hl. eapply findConflict_free; eauto. intros ->. by eapply Hnot. }
  split; cbn.
  - intros r j. rewrite lockEach_lookup. case_decide as Hr.
    + intros [= <-]. exists rs. by rewrite lookup_insert_eq.
    + intros Hl. destruct (inv_held s I _ _ Hl) as (rs' & Hb & ?). exists rs'.
      rewrite lookup_insert_ne by (intros ->; congruence). done.
  - intros j rs' r Hb Hr. rewrite lockEach_lookup.
    destruct (decide (j = jobID)) as [->|Hj].
    + rewrite lookup_insert_eq in Hb. simplify_eq. by rewrite decide_True.
    + rewrite lookup_insert_ne in Hb by done. pose proof (inv_list s I _ _ _ Hb Hr) as Hl.
      rewrite decide_False; [done|]. intros Hin.
      pose proof (Hother r r j Hin Hl) as Hc. by rewrite conflict_refl in Hc.
  - intros j rs' [[<- <-]|[? Hb]]%lookup_insert_Some; [done|]. by eapply inv_named.
  - intros r1 r2 j1 j2. rewrite !lockEach_lookup.
    case_decide as H1; case_decide as H2; intros Hl1 Hl2 Hc; simplify_eq; [done| | |].
    + by rewrite (Hother _ _ _ H1 Hl2) in Hc.
    + apply conflict_sym_le in Hc. by rewrite (Hother _ _ _ H2 Hl1) in Hc.
    + by eapply inv_exclusive.
  - intros Hdj. destruct draining.
    + split; [by rewrite lookup_insert_eq|].
      intros j [rs' [[<- <-]|[? Hb]]%lookup_insert_Some]; [done|].
      rewrite (lock_inv_byJob_empty s I) in Hb by auto. by rewrite lookup_empty in Hb.
    + apply drainBlocks_false in Hd as [Hd|Hd]; [done|]. exfalso.
      destruct (inv_drain s I Hdj) as [[? Hb] _]. rewrite Hd in Hb. congruence.
  - destruct draining; [done|]. apply (inv_idle s I).
Qed.

Lemma ReplaceResources_Ok s jobID requested s' :
  ReplaceResources s jobID requested = Ok s' →
  ∃ rs old, normalizeResources "" requested = Ok rs ∧ resourcesByJob s !! jobID = Some old ∧
    drainBlocks s jobID = false ∧ findConflict false jobID rs (lockedByResource s) = None ∧
    s' = mkLocks (lockEach jobID rs (releaseEach jobID old (lockedByResource s)))
           (<[jobID := rs]> (resourcesByJob s))
           (if str_eqb (drainingJobID s) jobID then "" else drainingJobID s)
           (if str_eqb (drainingJobID s) jobID then zeroResource else drainingResource s).
Proof.
  unfold ReplaceResources. destruct (normalizeResources _ _) as [rs|]; [|done].
  destruct (resourcesByJob s !! jobID) as [old|]; [|done].
  destruct (drainBlocks s jobID); [done|].
  destruct (findConflict _ _ _ _) eqn:Hf; [done|]. intros [= <-].
  exists rs, old. by repeat split.
Qed.

(** The locks of the other jobs after a job gave up its old resources. *)
Lemma release_own s jobID old r :
  lock_inv s → resourcesByJob s !! jobID = Some old →
  releaseEach jobID old (lockedByResource s) !! r =
    if decide (lockedByResource s !! r = Some jobID) then None else lockedByResource s !! r.
Proof.
  intros I Hb. rewrite releaseEach_lookup. destruct (decide (lockedByResource s !! r = Some jobID)) as [E|E].
  - rewrite decide_True; [done|]. split; [|done].
    destruct (inv_held s I _ _ E) as (rs & Hb' & ?). congruence.
  - by rewrite decide_False by tauto.
Qed.

Lemma ReplaceResources_inv s jobID requested s' :
  lock_inv s → ReplaceResources s jobID requested = Ok s' → lock_inv s'.
Proof.
  intros I (rs & old & Hn & Hb & Hd & Hf & ->)%ReplaceResources_Ok.
  assert (Hother : ∀ r r' j, r ∈ rs → lockedByResource s !! r' = Some j → j ≠ jobID →
            ResourcesConflict r r' = false) by eauto using findConflict_free.
  split; cbn.
  - intros r j. rewrite lockEach_lookup, (release_own _ _ _ _ I Hb). case_decide as Hr.
    + intros [= <-]. exists rs. by rewrite lookup_insert_eq.
    + case_decide; [done|]. intros Hl. destruct (inv_held s I _ _ Hl) as (rs' & Hb' & ?).
      exists rs'. rewrite lookup_insert_ne by congruence. done.
  - intros j rs' r Hb' Hr. rewrite lockEach_lookup, (release_own _ _ _ _ I Hb).
    destruct (decide (j = jobID)) as [->|Hj].
    + rewrite lookup_insert_eq in Hb'. simplify_eq. by rewrite decide_True.
    + rewrite lookup_insert_ne in Hb' by done. pose proof (inv_list s I _ _ _ Hb' Hr) as Hl.
      rewrite decide_False, decide_False; [done|congruence|]. intros Hin.
      pose proof (Hother r r j Hin Hl Hj) as Hc. by rewrite conflict_refl in Hc.
  - intros j rs' [[<- <-]|[? Hb']]%lookup_insert_Some; [|by eapply inv_named].
    split; [by apply (inv_named s I) in Hb as []|eauto with stacklab].
  - intros r1 r2 j1 j2. rewrite !lockEach_lookup, !(release_own _ _ _ _ I Hb).
    repeat case_decide; intros Hl1 Hl2 Hc; simplify_eq; try done.
    + rewrite (Hother r1 r2 j2) in Hc; congruence.
    + apply conflict_sym_le in Hc. rewrite (Hother r2 r1 j1) in Hc; congruence.
    + by eapply inv_exclusive.
  - intros Hdj. apply drainBlocks_false in Hd as [Hd|Hd].
    + rewrite Hd in Hdj. by case_match.
    + rewrite Hd in Hdj. unfold str_eqb in Hdj. by rewrite bool_decide_true in Hdj.
  - unfold str_eqb. case_bool_decide as E; [done|]. apply (inv_idle s I).
Qed.
End preservation.

Lemma unlockAll_lookup s jobID r :
  lock_inv s → lockedByResource (unlockAll s jobID) !! r =
    if decide (lockedByResource s !! r = Some jobID) then None else lockedByResource s !! r.
Proof.
  intros I. unfold unlockAll. cbn. destruct (resourcesByJob s !! jobID) as [rs|] eqn:Hb; cbn.
  - by rewrite (release_own _ _ _ _ I Hb).
  - case_decide as Hl; [|done]. destruct (inv_held s I _ _ Hl) as (? & ? & _). congruence.
Qed.

Lemma unlockAll_byJob s jobID : resourcesByJob (unlockAll s jobID) = delete jobID (resourcesByJob s).
Proof.
  unfold unlockAll. cbn. destruct (resourcesByJob s !! jobID) eqn:E; cbn; [done|].
  by rewrite delete_id.
Qed.

Lemma unlockAll_drain s jobID :
  drainingJobID (unlockAll s jobID) = if str_eqb (drainingJobID s) jobID then "" else drainingJobID s.
Proof. unfold unlockAll. cbn. by destruct (resourcesByJob s !! jobID). Qed.

Lemma unlockAll_barrier s jobID :
  drainingResource (unlockAll s jobID) =
    if str_eqb (drainingJobID s) jobID then zeroResource else drainingResource s.
Proof. unfold unlockAll. cbn. by destruct (resourcesByJob s !! jobID). Qed.

Lemma unlockAll_inv s jobID : lock_inv s → lock_inv (unlockAll s jobID).
Proof.
  intros I. split; intros *; rewrite ?unlockAll_byJob, ?unlockAll_drain, ?unlockAll_barrier; rewrite ?unlockAll_lookup by done.
  - case_decide; [done|]. intros Hl. destruct (inv_held s I _ _ Hl) as (rs & ? & ?).
    exists rs. rewrite lookup_delete_ne by congruence. done.
  - intros [? Hb]%lookup_delete_Some Hr. pose proof (inv_list s I _ _ _ Hb Hr).
    by rewrite decide_False by congruence.
  - intros [? Hb]%lookup_delete_Some. by eapply inv_named.
  - repeat case_decide; try done. apply (inv_exclusive s I).
  - unfold str_eqb. case_bool_decide as Hd; [done|]. intros Hdj.
    destruct (inv_drain s I Hdj) as [? Hall]. split; [by rewrite lookup_delete_ne|].
    intros j [? [? ?]%lookup_delete_Some]. apply Hall. eauto.
  - unfold str_eqb. case_bool_decide; [done|]. apply (inv_idle s I).
Qed.

(** Locking for a new job and releasing it again restores the table. *)
Lemma lockMany_unlockAll `{!MapRange Resource string} s jobID rs draining s' :
  lock_inv s → resourcesByJob s !! jobID = None → jobID ≠ "" → rs ≠ [] →
  lockMany s jobID rs draining = Ok s' → unlockAll s' jobID = s.
Proof.
  intros I Hn Hid Hrs H. pose proof (lockMany_inv _ _ _ _ _ I Hn Hid Hrs H) as I'.
  assert (Hnot : ∀ r, lockedByResource s !! r ≠ Some jobID).
  { intros r Hl. destruct (inv_held s I _ _ Hl) as (? & ? & _). congruence. }
  assert (drainingJobID s ≠ jobID) as Hdj.
  { intros Hd. destruct (inv_drain s I) as [[? Hb] _]; [congruence|]. rewrite Hd in Hb. congruence. }
  apply lockMany_Ok in H as (Hd & _ & Hf & Hs').
  assert (resourcesByJob (unlockAll s' jobID) = resourcesByJob s) as HB.
  { rewrite unlockAll_byJob, Hs'. cbn. by apply delete_insert_id. }
  assert (lockedByResource (unlockAll s' jobID) = lockedByResource s) as HL.
  { apply map_eq. intros r. rewrite (unlockAll_lookup _ _ _ I'), Hs'. cbn. rewrite lockEach_lookup.
    destruct (decide (r ∈ rs)) as [Hr|Hr].
    - rewrite decide_True by done. destruct (lockedByResource s !! r) as [j|] eqn:E; [|done].
      pose proof (findConflict_free s true jobID rs r r j I Hf Hr E
                    ltac:(intros ->; by apply (Hnot r))) as Hc.
      by rewrite conflict_refl in Hc.
    - by rewrite decide_False. }
  assert (drainingJobID (unlockAll s' jobID) = drainingJobID s ∧
          drainingResource (unlockAll s' jobID) = drainingResource s) as [H1 H2].
  { rewrite unlockAll_drain, unlockAll_barrier, Hs'. cbn. unfold str_eqb.
    destruct draining; [|by rewrite bool_decide_false].
    rewrite bool_decide_true by done.
    apply drainBlocks_false in Hd as [Hd|?]; [|done]. rewrite Hd. by rewrite (inv_idle s I Hd). }
  destruct (unlockAll s' jobID), s; cbn in *. congruence.
Qed.
#[export] Hint Resolve lock_inv_empty unlockAll_inv : stacklab.

(** ** Reachable states *)

Section reachability.
Context `{!MapRange Resource string}.

(** The atomic actions on the lock table: what [start] does under the mutex for
    a new job, [ReplaceResources] of a running one and the release of a job's
    locks. *)
Inductive lock_step : Locks → Locks → Prop :=
| step_lock s s' jobID stackID requested rs draining :
    resourcesByJob s !! jobID = None → jobID ≠ "" →
    normalizeResources stackID requested = Ok rs →
    lockMany s jobID rs draining = Ok s' → lock_step s s'
| step_replace s s' jobID requested :
    ReplaceResources s jobID requested = Ok s' → lock_step s s'
| step_unlock s jobID : lock_step s (unlockAll s jobID).

Lemma lock_step_inv s s' : lock_step s s' → lock_inv s → lock_inv s'.
Proof.
  destruct 1; intros I; [|by eapply ReplaceResources_inv|by apply unlockAll_inv].
  eapply lockMany_inv; eauto with stacklab.
Qed.

Lemma reachable_lock_inv s : rtc lock_step emptyLocks s → lock_inv s.
Proof.
  intros Hr. pose proof lock_inv_empty as I. revert I. induction Hr; eauto using lock_step_inv.
Qed.
End reachability.

(** ** Refinement of the abstract lock manager *)

Section refinement.
Context `{!MapRange Resource string}.

Lemma abs_holds s j : holds (abs s) !! j = list_to_set <$> resourcesByJob s !! j.
Proof. cbn. apply lookup_fmap. Qed.

Lemma abs_drain_Some s d : drain (abs s) = Some d ↔ drainingJobID s = d ∧ d ≠ "".
Proof.
  cbn. unfold str_empty, str_eqb. case_bool_decide as E; [|naive_solver].
  split; [done|]. rewrite E. naive_solver.
Qed.

Lemma can_acquire_no_conflict s skipEmpty jobID rs draining :
  lock_inv s → can_acquire (abs s) jobID (list_to_set rs) draining →
  findConflict skipEmpty jobID rs (lockedByResource s) = None.
Proof.
  intros I (_ & _ & Hc). apply findConflict_None. intros r r' j Hr Hl.
  destruct (inv_held s I _ _ Hl) as (held & Hb & Hin).
  destruct (decide (j = jobID)) as [->|Hj].
  { unfold holderConflict, str_eqb. cbn. rewrite (bool_decide_true (jobID = jobID)) by done.
    by rewrite andb_false_r. }
  rewrite holderConflict_other; [|done|by apply (inv_named s I) in Hb as []].
  apply (Hc j (list_to_set held)); [|done|set_solver..]. by rewrite abs_holds, Hb.
Qed.

(** A successful [lockMany] was allowed by the abstract manager. *)
Lemma lockMany_can_acquire s jobID rs draining s' :
  lock_inv s → lockMany s jobID rs draining = Ok s' →
  can_acquire (abs s) jobID (list_to_set rs) draining.
Proof.
  intros I (Hd & Hdr & Hf & _)%lockMany_Ok. split_and!.
  - intros d [<- Hne]%abs_drain_Some. by apply drainBlocks_false in Hd as [?|?].
  - intros ->. cbn. rewrite (lock_inv_byJob_empty s I); [apply fmap_empty|auto].
  - intros j held r r' Hh Hj Hr Hin. rewrite abs_holds in Hh.
    destruct (resourcesByJob s !! j) as [l|] eqn:Hb; simplify_option_eq.
    assert (r' ∈ l) by set_solver.
    eapply (findConflict_free s); eauto using inv_list. set_solver.
Qed.

Lemma lockMany_abs s jobID rs draining s' :
  lockMany s jobID rs draining = Ok s' → jobID ≠ "" →
  abs s' = acquire (abs s) jobID (list_to_set rs) draining.
Proof.
  intros (_ & _ & _ & ->)%lockMany_Ok Hid. unfold abs, acquire. cbn.
  rewrite fmap_insert. destruct draining; [|done].
  unfold str_empty, str_eqb. by rewrite bool_decide_false.
Qed.

(** C35: [lockMany] implements the abstract lock manager: from a well-formed
    table it succeeds exactly when the abstract manager lets the job acquire the
    set of resources, and then the new table represents the abstract result. *)
Theorem lockMany_refines_acquire s jobID rs draining :
  lock_inv s → jobID ≠ "" →
  (∃ s', lockMany s jobID rs draining = Ok s' ∧
         abs s' = acquire (abs s) jobID (list_to_set rs) draining)
  ↔ can_acquire (abs s) jobID (list_to_set rs) draining.
Proof.
  intros I Hid. split; [intros (? & ? & _); by eapply lockMany_can_acquire|]. intros Hc.
  assert (Hf := can_acquire_no_conflict _ true _ _ _ I Hc).
  destruct Hc as (Hd & Hdr & _).
  assert (drainBlocks s jobID = false) as HdB.
  { apply drainBlocks_false. destruct (decide (drainingJobID s = "")) as [|Hne]; [by left|right].
    apply Hd. by apply abs_drain_Some. }
  assert ((if draining then firstLockedResourceLocked s else None) = None) as Hfirst.
  { destruct draining; [|done]. apply firstLocked_None, map_empty. intros r.
    destruct (lockedByResource s !! r) as [j|] eqn:Hl; [|done].
    destruct (inv_held s I _ _ Hl) as (l & Hb & _). specialize (Hdr eq_refl).
    assert (holds (abs s) !! j = Some (list_to_set l)) as Hh by by rewrite abs_holds, Hb.
    by rewrite Hdr, lookup_empty in Hh. }
  assert (∃ s', lockMany s jobID rs draining = Ok s') as [s' Hs'].
  { unfold lockMany. rewrite HdB, Hfirst, Hf. eauto. }
  exists s'. split; [done|by apply lockMany_abs].
Qed.

(** [unlockAll] implements the abstract release: the job's resources and its
    drain disappear and no other job is affected. *)
Theorem unlockAll_refines_release s jobID :
  jobID ≠ "" → abs (unlockAll s jobID) = release (abs s) jobID.
Proof.
  intros Hid. unfold abs, release. rewrite unlockAll_byJob, unlockAll_drain, fmap_delete. f_equal.
  cbn. unfold str_empty, str_eqb. repeat case_bool_decide; repeat case_decide; naive_solver.
Qed.

(** mutual exclusion in every reachable state: two jobs never hold
    conflicting resources, and while a drain is installed its job is the only
    one that holds anything. *)
Theorem reachable_mutual_exclusion s :
  rtc lock_step emptyLocks s →
  (∀ r1 r2 j1 j2, lockedByResource s !! r1 = Some j1 → lockedByResource s !! r2 = Some j2 →
     ResourcesConflict r1 r2 = true → j1 = j2) ∧
  (drainingJobID s ≠ "" → ∀ r j, lockedByResource s !! r = Some j → j = drainingJobID s).
Proof.
  intros I%reachable_lock_inv. split; [apply (inv_exclusive s I)|].
  intros Hd r j Hl. destruct (inv_held s I _ _ Hl) as (rs & Hb & _).
  apply (inv_drain s I Hd). eauto.
Qed.

(** a job can always shrink to a subset of what it holds (how a backup
    releases a finished destination), unless another job drains. *)
Theorem ReplaceResources_shrink s jobID requested old :
  lock_inv s → resourcesByJob s !! jobID = Some old →
  requested ≠ [] → validate_all requested = Ok tt → requested ⊆ old →
  drainingJobID s = "" →
  is_ok (ReplaceResources s jobID requested) = true.
Proof.
  intros I Hb Hne Hv Hsub Hd. unfold ReplaceResources.
  destruct (normalizeResources "" requested) as [rs|e] eqn:Hn; cycle 1.
  { unfold normalizeResources in Hn. rewrite Hv in Hn. cbn in Hn. case_decide as He; [|done].
    destruct requested as [|r ?]; [done|].
    exfalso. assert (r ∈ (∅ : gset Resource)); [|set_solver].
    rewrite <- He. apply requested_unique. set_solver. }
  rewrite Hb. assert (drainBlocks s jobID = false) as -> by (apply drainBlocks_false; auto).
  assert (findConflict false jobID rs (lockedByResource s) = None) as ->; [|done].
  apply findConflict_None. intros r r' j Hr Hl.
  rewrite (normalize_elem _ _ _ _ Hn) in Hr. apply dropSubsumed_subset in Hr.
  assert (r ∈ old) as Hin. { apply Hsub. unfold uniqueResources in Hr. cbn in Hr. set_solver. }
  pose proof (inv_list s I _ _ _ Hb Hin) as Hr'.
  unfold holderConflict, str_eqb. cbn. destruct (decide (j = jobID)) as [->|Hj].
  { by rewrite bool_decide_true. }
  rewrite bool_decide_false by done. cbn.
  apply not_true_is_false. intros Hc. apply Hj. symmetry. by eapply (inv_exclusive s I).
Qed.
End refinement.

(** ** The theorems on concrete tables *)

Definition demoRange : MapRange Resource string := default_range Resource string.

(** The table after a job locked the stack "web" and a backup repository. *)
Definition demoLocks : Locks :=
  mkLocks {[ StackResource "web" := "job_a"; BackupRepositoryResource "repo" := "job_a" ]}
          {[ "job_a" := [BackupRepositoryResource "repo"; StackResource "web"] ]} "" zeroResource.

Lemma demoLocks_reached :
  @lockMany demoRange emptyLocks "job_a" [BackupRepositoryResource "repo"; StackResource "web"] false
  = Ok demoLocks.
Proof. by vm_compute. Qed.

Lemma demoLocks_inv : lock_inv demoLocks.
Proof.
  apply (lockMany_inv (MapRange0 := demoRange) emptyLocks "job_a"
    [BackupRepositoryResource "repo"; StackResource "web"] false); try done; auto with stacklab.
Qed.

Lemma reachable_mutual_exclusion_witness :
  lockedByResource demoLocks !! StackResource "web" = Some "job_a" ∧
  ((∀ r1 r2 j1 j2, lockedByResource demoLocks !! r1 = Some j1 →
      lockedByResource demoLocks !! r2 = Some j2 → ResourcesConflict r1 r2 = true → j1 = j2) ∧
   (drainingJobID demoLocks ≠ "" →
      ∀ r j, lockedByResource demoLocks !! r = Some j → j = drainingJobID demoLocks)).
Proof.
  split; [by vm_compute|].
  apply (@reachable_mutual_exclusion demoRange).
  apply rtc_once.
  eapply (step_lock (MapRange0 := demoRange) _ _ "job_a" "web" [BackupRepositoryResource "repo"] _ false);
    [done|done|by vm_compute|apply demoLocks_reached].
Defined.

Lemma lockMany_refines_acquire_witness :
  (∃ s', @lockMany demoRange demoLocks "job_b" [StackResource "db"] false = Ok s' ∧
         abs s' = acquire (abs demoLocks) "job_b" (list_to_set [StackResource "db"]) false)
  ↔ can_acquire (abs demoLocks) "job_b" (list_to_set [StackResource "db"]) false.
Proof. apply (@lockMany_refines_acquire demoRange); [apply demoLocks_inv|done]. Defined.

Lemma unlockAll_refines_release_witness :
  abs (unlockAll demoLocks "job_a") = release (abs demoLocks) "job_a".
Proof. apply unlockAll_refines_release. done. Defined.

Lemma ReplaceResources_shrink_witness :
  is_ok (@ReplaceResources demoRange demoLocks "job_a" [BackupRepositoryResource "repo"]) = true.
Proof.
  apply (@ReplaceResources_shrink demoRange _ _ _ [BackupRepositoryResource "repo"; StackResource "web"]).
  - apply demoLocks_inv.
  - by vm_compute.
  - done.
  - by vm_compute.
  - set_solver.
  - done.
Defined.
