(* ===== verification/Store.v ===== *)
(** * internal/store/store.go: the tables, and the jobs half of the store

    The SQLite database as a record of tables keyed by their primary keys.  A
    timestamp column holds the RFC3339Nano text, an optional column is an
    [option]; a JSON column holds the value the code marshals into it (writing
    and reading [encoding/json] is the identity on these records).

    Every operation takes an [IO] outcome, [Some msg] when the SQL driver
    reports a failure in the call.  A failed statement or transaction leaves the
    tables as they were (SQLite rolls back), so mutating operations return the
    new tables on success only. *)

From stdpp Require Import gmap strings list sorting.
From Stdlib Require Import ZArith.
From S2P Require Import Prelude GoStrings GoTime.

Local Open Scope Z_scope.

(** ** Go-level records *)

Record JobWorkflowStep := mkStep {
  step_action : string; step_state : string; step_target : string; step_services : list string }.

Record JobWorkflow := mkWorkflow { Steps : list JobWorkflowStep }.

Record Job := mkJob {
  job_id : string; job_stack : string; job_action : string; job_state : string;
  job_requested_by : string; job_request_id : string;
  job_requested_at : Time; job_started_at : option Time; job_finished_at : option Time;
  job_workflow : option JobWorkflow; job_error_code : string; job_error_message : string }.

Record JobProgress := mkProgress {
  Phase : string; Completed : Z; Total : Z; ProgressUnit : string; Detail : string }.

Record JobEventStep := mkEventStep {
  es_index : Z; es_total : Z; es_action : string; es_state : string;
  es_target : string; es_services : list string }.

Record JobEvent := mkEvent {
  ev_job : string; ev_sequence : Z; ev_event : string; ev_state : string;
  ev_message : string; ev_data : string; ev_step : option JobEventStep;
  ev_progress : option JobProgress; ev_timestamp : Time }.

Record Session := mkSession {
  s_id : string; s_user : string; s_created_at : Time; s_last_seen_at : Time; s_expires_at : Time;
  s_user_agent : string; s_ip : string; s_revoked_at : option Time; s_password_version : Z }.

Record PasswordCredentials := mkCredentials { Hash : string; Version : Z }.

Record AuditEntry := mkAudit {
  ae_id : string; ae_stack : option string; ae_job : option string; ae_action : string;
  ae_requested_by : string; ae_result : string; ae_requested_at : Time;
  ae_finished_at : option Time; ae_duration_ms : option Z; ae_target_type : string;
  ae_target : option string; ae_detail : option string }.

(** ** Table rows *)

Record JobRow := mkJobRow {
  r_stack : string; r_action : string; r_state : string; r_requested_by : string;
  r_request_id : option string; r_requested_at : string; r_started_at : option string;
  r_finished_at : option string; r_workflow_json : option JobWorkflow;
  r_error_code : option string; r_error_message : option string; r_event_sequence : Z }.

Record EventRow := mkEventRow {
  e_event : string; e_state : string; e_message : option string; e_data : option string;
  e_step_json : option JobEventStep; e_progress_json : option JobProgress; e_timestamp : string }.

Record SessionRow := mkSessionRow {
  x_user : string; x_created_at : string; x_last_seen_at : string; x_expires_at : string;
  x_user_agent : string; x_ip : string; x_revoked_at : option string; x_password_version : Z }.

Record PasswordRow := mkPasswordRow { p_hash : string; p_updated_at : string; p_version : Z }.

Record SettingRow := mkSettingRow { set_value : string; set_updated_at : string }.

Record AuditRow := mkAuditRow {
  a_stack : option string; a_job : option string; a_action : string; a_requested_by : string;
  a_requested_at : string; a_finished_at : option string; a_result : string;
  a_duration_ms : option Z; a_target_type : string; a_target : option string; a_detail : option string }.

Record ImageUpdateRow := mkImageUpdateRow {
  i_local_digest : option string; i_remote_digest : option string; i_state : string; i_checked_at : string }.

Record BaselineRow := mkBaselineRow {
  b_compose_sha256 : string; b_env_sha256 : string; b_compose_yaml : string; b_env : string;
  b_env_exists : Z; b_last_deployed_at : string; b_last_job_id : option string }.

(** The tables; [auth_password] has at most the row with id 1. *)
Record DB := mkDB {
  auth_password : option PasswordRow;
  auth_sessions : gmap string SessionRow;
  app_settings : gmap string SettingRow;
  jobs : gmap string JobRow;
  job_events : gmap (string * Z) EventRow;
  audit_entries : gmap string AuditRow;
  image_update_status : gmap string ImageUpdateRow;
  stack_deploy_baselines : gmap string BaselineRow }.

Definition emptyDB : DB := mkDB None ∅ ∅ ∅ ∅ ∅ ∅ ∅.

Definition with_jobs (db : DB) (t : gmap string JobRow) : DB :=
  mkDB (auth_password db) (auth_sessions db) (app_settings db) t (job_events db)
    (audit_entries db) (image_update_status db) (stack_deploy_baselines db).
Definition with_events (db : DB) (t : gmap (string * Z) EventRow) : DB :=
  mkDB (auth_password db) (auth_sessions db) (app_settings db) (jobs db) t
    (audit_entries db) (image_update_status db) (stack_deploy_baselines db).
Definition with_sessions (db : DB) (t : gmap string SessionRow) : DB :=
  mkDB (auth_password db) t (app_settings db) (jobs db) (job_events db)
    (audit_entries db) (image_update_status db) (stack_deploy_baselines db).
Definition with_password (db : DB) (p : option PasswordRow) : DB :=
  mkDB p (auth_sessions db) (app_settings db) (jobs db) (job_events db)
    (audit_entries db) (image_update_status db) (stack_deploy_baselines db).
Definition with_settings (db : DB) (t : gmap string SettingRow) : DB :=
  mkDB (auth_password db) (auth_sessions db) t (jobs db) (job_events db)
    (audit_entries db) (image_update_status db) (stack_deploy_baselines db).
Definition with_audit (db : DB) (t : gmap string AuditRow) : DB :=
  mkDB (auth_password db) (auth_sessions db) (app_settings db) (jobs db) (job_events db) t
    (image_update_status db) (stack_deploy_baselines db).
Definition with_image_updates (db : DB) (t : gmap string ImageUpdateRow) : DB :=
  mkDB (auth_password db) (auth_sessions db) (app_settings db) (jobs db) (job_events db)
    (audit_entries db) t (stack_deploy_baselines db).
Definition with_baselines (db : DB) (t : gmap string BaselineRow) : DB :=
  mkDB (auth_password db) (auth_sessions db) (app_settings db) (jobs db) (job_events db)
    (audit_entries db) (image_update_status db) t.

Inductive store_error :=
| ErrNotFound
| ErrPasswordVersionChanged
| ErrSessionChanged
| ErrStore (message : string).

Definition IO := option string.
Definition driver {A} (io : IO) (k : res store_error A) : res store_error A :=
  match io with Some msg => Err (ErrStore msg) | None => k end.

(** ** NULL handling and row decoding *)

Definition nullIfEmpty (value : string) : option string := if str_empty value then None else Some value.
Definition nullIfPtr (value : option string) : option string :=
  match value with Some v => nullIfEmpty v | None => None end.
Definition orEmpty (c : option string) : string := match c with Some s => s | None => "" end.

Definition parse_time (what text : string) : res store_error Time :=
  match parse_rfc3339nano text with Some t => Ok t | None => Err (ErrStore ("parse " +:+ what)) end.
Definition parse_opt_time (what : string) (text : option string) : res store_error (option Time) :=
  match text with
  | None => Ok None
  | Some s => let? t := parse_time what s in Ok (Some t)
  end.

Definition scanJob (id : string) (r : JobRow) : res store_error Job :=
  let? requested_at := parse_time "requested_at" (r_requested_at r) in
  let? started_at := parse_opt_time "started_at" (r_started_at r) in
  let? finished_at := parse_opt_time "finished_at" (r_finished_at r) in
  Ok (mkJob id (r_stack r) (r_action r) (r_state r) (r_requested_by r) (orEmpty (r_request_id r))
        requested_at started_at finished_at (r_workflow_json r)
        (orEmpty (r_error_code r)) (orEmpty (r_error_message r))).

Definition scanJobEvent (key : string * Z) (r : EventRow) : res store_error JobEvent :=
  let? timestamp := parse_time "job event timestamp" (e_timestamp r) in
  Ok (mkEvent key.1 key.2 (e_event r) (e_state r) (orEmpty (e_message r)) (orEmpty (e_data r))
        (e_step_json r) (e_progress_json r) timestamp).

(** ** Jobs *)

Definition createJob (db : DB) (j : Job) : res store_error DB :=
  match jobs db !! job_id j with
  | Some _ => Err (ErrStore "create job: UNIQUE constraint failed: jobs.id")
  | None =>
    Ok (with_jobs db (<[job_id j :=
      mkJobRow (job_stack j) (job_action j) (job_state j) (job_requested_by j)
        (nullIfEmpty (job_request_id j)) (rfc3339nano (job_requested_at j))
        (rfc3339nano <$> job_started_at j) (rfc3339nano <$> job_finished_at j) (job_workflow j)
        (nullIfEmpty (job_error_code j)) (nullIfEmpty (job_error_message j)) 0]> (jobs db)))
  end.

Definition CreateJob (io : IO) (db : DB) (j : Job) : res store_error DB := driver io (createJob db j).

Definition event_row (e : JobEvent) : EventRow :=
  mkEventRow (ev_event e) (ev_state e) (nullIfEmpty (ev_message e)) (nullIfEmpty (ev_data e))
    (ev_step e) (ev_progress e) (rfc3339nano (ev_timestamp e)).

Definition createJobEvent (db : DB) (e : JobEvent) : res store_error DB :=
  match job_events db !! (ev_job e, ev_sequence e) with
  | Some _ => Err (ErrStore "create job event: UNIQUE constraint failed: job_events.job_id, job_events.sequence")
  | None => Ok (with_events db (<[(ev_job e, ev_sequence e) := event_row e]> (job_events db)))
  end.

Definition set_sequence (n : Z) (r : JobRow) : JobRow :=
  mkJobRow (r_stack r) (r_action r) (r_state r) (r_requested_by r) (r_request_id r) (r_requested_at r)
    (r_started_at r) (r_finished_at r) (r_workflow_json r) (r_error_code r) (r_error_message r) n.

Definition CreateJobWithInitialEvent (io : IO) (db : DB) (j : Job) (e : JobEvent) : res store_error DB :=
  if negb (str_eqb (ev_job e) (job_id j)) || negb (ev_sequence e =? 1)
  then Err (ErrStore "initial job event must use the job id and sequence 1")
  else driver io (
    let? db1 := createJob db j in
    let db2 := with_jobs db1 (alter (set_sequence 1) (job_id j) (jobs db1)) in
    createJobEvent db2 e).

(** The columns an update of a job writes. *)
Definition update_row (j : Job) (n : Z) (r : JobRow) : JobRow :=
  mkJobRow (r_stack r) (r_action r) (job_state j) (r_requested_by r) (r_request_id r) (r_requested_at r)
    (rfc3339nano <$> job_started_at j) (rfc3339nano <$> job_finished_at j) (job_workflow j)
    (nullIfEmpty (job_error_code j)) (nullIfEmpty (job_error_message j)) n.

(** [updateJob]: [UPDATE jobs ... WHERE id = ?] with an optional state filter;
    the result is whether a row was updated. *)
Definition updateJob (io : IO) (db : DB) (j : Job) (states : option (list string))
  : res store_error (bool * DB) :=
  driver io (
    match jobs db !! job_id j with
    | None => Ok (false, db)
    | Some r =>
      if match states with None => true | Some ss => str_in (r_state r) ss end
      then Ok (true, with_jobs db (<[job_id j := update_row j (r_event_sequence r) r]> (jobs db)))
      else Ok (false, db)
    end).

Definition UpdateJob (io : IO) (db : DB) (j : Job) : res store_error DB :=
  let? (updated, db') := updateJob io db j None in
  if (updated : bool) then Ok db' else Err ErrNotFound.

Definition UpdateJobIfStateIn (io : IO) (db : DB) (j : Job) (states : list string)
  : res store_error (bool * DB) :=
  match states with
  | [] => Ok (false, db)
  | _ => updateJob io db j (Some states)
  end.

Definition set_workflow (w : option JobWorkflow) (r : JobRow) : JobRow :=
  mkJobRow (r_stack r) (r_action r) (r_state r) (r_requested_by r) (r_request_id r) (r_requested_at r)
    (r_started_at r) (r_finished_at r) w (r_error_code r) (r_error_message r) (r_event_sequence r).

Definition UpdateJobWorkflow (io : IO) (db : DB) (id : string) (w : option JobWorkflow)
  : res store_error DB :=
  driver io (
    match jobs db !! id with
    | None => Err ErrNotFound
    | Some r => Ok (with_jobs db (<[id := set_workflow w r]> (jobs db)))
    end).

Definition set_ev_sequence (n : Z) (e : JobEvent) : JobEvent :=
  mkEvent (ev_job e) n (ev_event e) (ev_state e) (ev_message e) (ev_data e) (ev_step e) (ev_progress e)
    (ev_timestamp e).

(** The loop that numbers and inserts the events of a transition. *)
Fixpoint insertEvents (db : DB) (first : Z) (events : list JobEvent)
  : res store_error (DB * list JobEvent) :=
  match events with
  | [] => Ok (db, [])
  | e :: rest =>
    let e := set_ev_sequence first e in
    let? db1 := createJobEvent db e in
    let? (db2, committed) := insertEvents db1 (first + 1) rest in
    Ok (db2, e :: committed)
  end.

Definition transition_event_ok (j : Job) (e : JobEvent) : bool :=
  str_eqb (ev_job e) (job_id j) && str_eqb (ev_state e) (job_state j).

(** [TransitionJobWithEvents]: whether the job was in an allowed state, the
    committed events and the tables. *)
Definition TransitionJobWithEvents (io : IO) (db : DB) (j : Job) (allowedStates : list string)
    (events : list JobEvent) : res store_error (bool * list JobEvent * DB) :=
  if bool_decide (allowedStates = []) || match events with [] => true | _ => false end then
    Err (ErrStore "job transition requires allowed states and events")
  else if negb (forallb (transition_event_ok j) events) then
    Err (ErrStore "job transition event must match job id and state")
  else driver io (
    match jobs db !! job_id j with
    | None => Ok (false, [], db)
    | Some r =>
      if negb (str_in (r_state r) allowedStates) then Ok (false, [], db)
      else
        let lastSequence := r_event_sequence r + Z.of_nat (length events) in
        let db1 := with_jobs db (<[job_id j := update_row j lastSequence r]> (jobs db)) in
        let firstSequence := lastSequence - Z.of_nat (length events) + 1 in
        let? (db2, committed) := insertEvents db1 firstSequence events in
        Ok (true, committed, db2)
    end).

Definition JobByID (io : IO) (db : DB) (id : string) : res store_error Job :=
  driver io (match jobs db !! id with None => Err ErrNotFound | Some r => scanJob id r end).

Definition activeStates : list string := ["queued"; "running"; "cancel_requested"].
Definition active_row (r : JobRow) : bool := str_in (r_state r) activeStates.

(** [ORDER BY k1 DESC, k2 DESC] on text columns. *)
Definition desc2 {A} (k1 k2 : A → string) : relation A :=
  λ a b, String.le (k1 b) (k1 a) ∧ (k1 a = k1 b → String.le (k2 b) (k2 a)).
#[global] Instance desc2_dec {A} (k1 k2 : A → string) : RelDecision (desc2 k1 k2).
Proof. intros a b. unfold desc2. apply _. Defined.

Definition coalesce (a : option string) (b : string) : string := match a with Some s => s | None => b end.

Fixpoint scan_all {A B} (scan : A → res store_error B) (l : list A) : res store_error (list B) :=
  match l with
  | [] => Ok []
  | x :: rest => let? b := scan x in let? bs := scan_all scan rest in Ok (b :: bs)
  end.

Definition ListActiveJobs (io : IO) (db : DB) : res store_error (list Job) :=
  driver io (
    scan_all (λ p, scanJob p.1 p.2)
      (merge_sort (desc2 (λ p : string * JobRow, coalesce (r_started_at p.2) (r_requested_at p.2))
                         (λ p, r_requested_at p.2))
        (map_to_list (filter (λ p, active_row p.2 = true) (jobs db))))).

(** ** Job events *)

(** The sequence numbers retained for a job, and their rows. *)
Definition events_of (db : DB) (id : string) : list (string * Z * EventRow) :=
  map_to_list (filter (λ p, p.1.1 = id) (job_events db)).

Definition max_sequence (db : DB) (id : string) : Z :=
  foldr Z.max 0 ((λ p, p.1.2) <$> events_of db id).

Definition NextJobEventSequence (io : IO) (db : DB) (id : string) : res store_error Z :=
  driver io (Ok (max_sequence db id + 1)).

Definition AppendJobEvent (io : IO) (db : DB) (e : JobEvent) : res store_error (JobEvent * DB) :=
  driver io (
    match jobs db !! ev_job e with
    | None => Err ErrNotFound
    | Some r =>
      let n := r_event_sequence r + 1 in
      let db1 := with_jobs db (<[ev_job e := set_sequence n r]> (jobs db)) in
      let e := mkEvent (ev_job e) n (ev_event e) (r_state r) (ev_message e) (ev_data e) (ev_step e)
                 (ev_progress e) (ev_timestamp e) in
      let? db2 := createJobEvent db1 e in Ok (e, db2)
    end).

Definition CreateJobEvent (io : IO) (db : DB) (e : JobEvent) : res store_error DB :=
  driver io (
    let? db1 := createJobEvent db e in
    Ok (with_jobs db1 (alter (λ r, set_sequence (Z.max (r_event_sequence r) (ev_sequence e)) r)
                             (ev_job e) (jobs db1)))).

Definition seq_le : relation (string * Z * EventRow) := λ a b, a.1.2 <= b.1.2.
#[global] Instance seq_le_dec : RelDecision seq_le.
Proof. intros a b. unfold seq_le. apply _. Defined.

Definition ListJobEvents (io : IO) (db : DB) (id : string) : res store_error (list JobEvent) :=
  driver io (scan_all (λ p, scanJobEvent p.1 p.2) (merge_sort seq_le (events_of db id))).

Definition LatestJobEvent (io : IO) (db : DB) (id : string) : res store_error (option JobEvent) :=
  driver io (
    match last (merge_sort seq_le (events_of db id)) with
    | None => Ok None
    | Some p => let? e := scanJobEvent p.1 p.2 in Ok (Some e)
    end).

(** ** Settings *)

Definition AppSetting (io : IO) (db : DB) (key : string) : res store_error (option string) :=
  driver io (Ok (set_value <$> app_settings db !! key)).

Definition SetAppSetting (io : IO) (db : DB) (key value : string) (updatedAt : Time) : res store_error DB :=
  driver io (Ok (with_settings db (<[key := mkSettingRow value (rfc3339nano updatedAt)]> (app_settings db)))).

Lemma scan_all_Forall2 {A B} (scan : A → res store_error B) l bs : scan_all scan l = Ok bs → Forall2 (λ a b, scan a = Ok b) l bs.
Proof.
  revert bs. induction l as [|a l IH]; cbn; intros bs H; [by injection H as <-|]. destruct (scan a) as [b|] eqn:E; cbn in H; [|done].
  destruct (scan_all scan l) as [r|]; cbn in H; [|done]. injection H as <-. constructor; [done|by apply IH].
Qed.

(** ** Lemmas: the event counter of a job *)

(** Retained events belong to an existing job and are numbered between 1 and
    the job's counter. *)
Record events_inv (db : DB) : Prop := {
  inv_event : ∀ id n row, job_events db !! (id, n) = Some row →
    ∃ r, jobs db !! id = Some r ∧ 1 <= n <= r_event_sequence r;
  inv_counter : ∀ id r, jobs db !! id = Some r → 0 <= r_event_sequence r
}.

Lemma driver_Ok {A} io (k : res store_error A) v : driver io k = Ok v ↔ io = None ∧ k = Ok v.
Proof. destruct io; naive_solver. Qed.

Lemma createJobEvent_Ok db e db' :
  createJobEvent db e = Ok db' →
  job_events db !! (ev_job e, ev_sequence e) = None ∧
  db' = with_events db (<[(ev_job e, ev_sequence e) := event_row e]> (job_events db)).
Proof. unfold createJobEvent. case_match; naive_solver. Qed.

(** The rows a numbered list of events adds to a job. *)
Fixpoint numbered (first : Z) (events : list JobEvent) : list JobEvent :=
  match events with
  | [] => []
  | e :: rest => set_ev_sequence first e :: numbered (first + 1) rest
  end.

Fixpoint add_rows (first : Z) (events : list JobEvent) (t : gmap (string * Z) EventRow)
  : gmap (string * Z) EventRow :=
  match events with
  | [] => t
  | e :: rest => add_rows (first + 1) rest (<[(ev_job e, first) := event_row (set_ev_sequence first e)]> t)
  end.

Lemma insertEvents_Ok db first events db' committed :
  insertEvents db first events = Ok (db', committed) →
  committed = numbered first events ∧ db' = with_events db (add_rows first events (job_events db)).
Proof.
  revert db first db' committed. induction events as [|e events IH]; intros db first db' committed H; cbn in H.
  { simplify_eq. by destruct db'. }
  res_inv H. apply createJobEvent_Ok in E as [_ ->].
  apply IH in E0 as [-> ->]. by simplify_eq.
Qed.

(** Numbering above every retained event never collides. *)
Lemma insertEvents_total db first events id :
  (∀ n, first <= n → job_events db !! (id, n) = None) →
  Forall (λ e, ev_job e = id) events →
  insertEvents db first events = Ok (with_events db (add_rows first events (job_events db)), numbered first events).
Proof.
  revert db first. induction events as [|e events IH]; intros db first Hf Hj; cbn.
  { by destruct db. }
  apply Forall_cons in Hj as [He Hj]. unfold createJobEvent. cbn. rewrite He, Hf by lia. cbn.
  rewrite IH; [by destruct db|cbn|done]. intros n Hn. rewrite lookup_insert_ne; [apply Hf; lia|].
  intros [=]. lia.
Qed.

Lemma add_rows_lookup first events id t id' n :
  Forall (λ e, ev_job e = id) events →
  id' ≠ id ∨ n < first ∨ first + Z.of_nat (length events) <= n →
  add_rows first events t !! (id', n) = t !! (id', n).
Proof.
  revert first t. induction events as [|e events IH]; intros first t Hj Hn; cbn; [done|].
  apply Forall_cons in Hj as [He Hj]. rewrite IH; [|done|].
  - apply lookup_insert_ne. intros [= <- <-]. destruct Hn as [?|Hn]; [congruence|]. cbn in Hn. lia.
  - destruct Hn as [?|Hn]; [by left|right]. cbn in Hn. lia.
Qed.

Lemma add_rows_inv first events id t id' n row :
  Forall (λ e, ev_job e = id) events →
  add_rows first events t !! (id', n) = Some row →
  t !! (id', n) = Some row ∨ (id' = id ∧ first <= n < first + Z.of_nat (length events)).
Proof.
  intros Hj H. destruct (decide (id' ≠ id ∨ n < first ∨ first + Z.of_nat (length events) <= n)) as [Hd|Hd].
  - left. by rewrite (add_rows_lookup _ _ id) in H.
  - right. split; [destruct (decide (id' = id)); tauto|lia].
Qed.

Lemma transition_events_job j events :
  forallb (transition_event_ok j) events = true → Forall (λ e, ev_job e = job_id j) events.
Proof.
  intros H. apply Forall_forall. intros e He. rewrite forallb_forall in H.
  apply list_elem_of_In, H in He. unfold transition_event_ok in He. by boolify.
Qed.

(** What a committed transition did. *)
Lemma Transition_Ok io db j allowed events u committed db' :
  TransitionJobWithEvents io db j allowed events = Ok (u, committed, db') →
  Forall (λ e, ev_job e = job_id j) events ∧
  ((u = false ∧ db' = db ∧ committed = [] ∧
    ∀ r, jobs db !! job_id j = Some r → r_state r ∉ allowed) ∨
   (u = true ∧ ∃ r, jobs db !! job_id j = Some r ∧ r_state r ∈ allowed ∧
     let n := r_event_sequence r + Z.of_nat (length events) in
     committed = numbered (r_event_sequence r + 1) events ∧
     jobs db' = <[job_id j := update_row j n r]> (jobs db) ∧
     job_events db' = add_rows (r_event_sequence r + 1) events (job_events db) ∧
     db' = with_events (with_jobs db (jobs db')) (job_events db'))).
Proof.
  unfold TransitionJobWithEvents. destruct (_ || _); [done|].
  destruct (forallb _ _) eqn:Hev; cbn; [|done]. apply transition_events_job in Hev.
  intros [-> H]%driver_Ok. split; [done|].
  destruct (jobs db !! job_id j) as [r|] eqn:Hr; [|left; naive_solver].
  destruct (str_in (r_state r) allowed) eqn:Hs; cbn in H; boolify; cycle 1.
  { left. simplify_eq. split_and!; try done. intros r' [= <-]. done. }
  right. res_inv H. simplify_eq.
  apply insertEvents_Ok in E as [-> ->].
  replace (r_event_sequence r + Z.of_nat (length events) - Z.of_nat (length events) + 1)
    with (r_event_sequence r + 1) by lia.
  split; [done|]. exists r. by cbn.
Qed.

(** Under the counter invariant a transition in an allowed state commits. *)
Lemma Transition_total db j allowed events r :
  events_inv db → jobs db !! job_id j = Some r → r_state r ∈ allowed →
  events ≠ [] → forallb (transition_event_ok j) events = true →
  ∃ db', TransitionJobWithEvents None db j allowed events
         = Ok (true, numbered (r_event_sequence r + 1) events, db').
Proof.
  intros I Hr Hs Hne Hev. pose proof (transition_events_job _ _ Hev) as Hj.
  unfold TransitionJobWithEvents. rewrite bool_decide_false
    by (intros ->; by apply not_elem_of_nil in Hs).
  destruct events as [|e events]; [done|]. cbn [orb]. rewrite Hev. cbn [negb].
  rewrite Hr. unfold str_in. rewrite bool_decide_true by done. cbn [negb driver].
  erewrite (insertEvents_total _ _ _ (job_id j)); [|cbn|done].
  - cbn. replace (_ + 1) with (r_event_sequence r + 1) by lia. eauto.
  - intros n Hn. destruct (job_events db !! (job_id j, n)) as [row|] eqn:E; [|done].
    destruct (inv_event db I _ _ _ E) as (r' & Hr' & ?). simplify_eq. lia.
Qed.

Lemma Transition_events_inv io db j allowed events u committed db' :
  events_inv db → TransitionJobWithEvents io db j allowed events = Ok (u, committed, db') → events_inv db'.
Proof.
  intros I [Hj [(-> & -> & _)|(-> & r & Hr & _ & _ & Hjobs & Hevs & _)]]%Transition_Ok; [done|].
  pose proof (inv_counter db I _ _ Hr) as Hc. split.
  - intros id n row. rewrite Hjobs, Hevs. intros Hrow.
    destruct (add_rows_inv _ _ _ _ _ _ _ Hj Hrow) as [H|[-> Hn]].
    + destruct (inv_event db I _ _ _ H) as (r0 & Hr0 & ?).
      destruct (decide (id = job_id j)) as [->|Hne].
      * simplify_eq. rewrite lookup_insert_eq. eexists. split; [done|]. cbn. lia.
      * rewrite lookup_insert_ne by done. eauto.
    + rewrite lookup_insert_eq. eexists. split; [done|]. cbn. lia.
  - intros id r0. rewrite Hjobs. intros [[<- <-]|[_ H]]%lookup_insert_Some; [cbn; lia|].
    by apply (inv_counter db I id).
Qed.

Lemma Append_Ok io db e e' db' :
  AppendJobEvent io db e = Ok (e', db') →
  ∃ r, jobs db !! ev_job e = Some r ∧
    ev_job e' = ev_job e ∧ ev_sequence e' = r_event_sequence r + 1 ∧ ev_state e' = r_state r ∧
    jobs db' = <[ev_job e := set_sequence (r_event_sequence r + 1) r]> (jobs db) ∧
    job_events db' = <[(ev_job e, r_event_sequence r + 1) := event_row e']> (job_events db).
Proof.
  unfold AppendJobEvent. intros [-> H]%driver_Ok.
  destruct (jobs db !! ev_job e) as [r|] eqn:Hr; [|done].
  res_inv H. apply createJobEvent_Ok in E as [_ ->]. simplify_eq. exists r. by cbn.
Qed.

Lemma Append_total db e r :
  events_inv db → jobs db !! ev_job e = Some r →
  ∃ e' db', AppendJobEvent None db e = Ok (e', db').
Proof.
  intros I Hr. unfold AppendJobEvent, createJobEvent. rewrite Hr. cbn.
  destruct (job_events db !! _) eqn:E; [|eauto].
  destruct (inv_event db I _ _ _ E) as (r' & ? & ?). simplify_eq. lia.
Qed.

Lemma Append_events_inv io db e e' db' :
  events_inv db → AppendJobEvent io db e = Ok (e', db') → events_inv db'.
Proof.
  intros I (r & Hr & _ & _ & _ & Hj & He)%Append_Ok. pose proof (inv_counter db I _ _ Hr). split.
  - intros id n row. rewrite Hj, He. intros [[[= <- <-] _]|[_ H']]%lookup_insert_Some.
    + rewrite lookup_insert_eq. eexists. split; [done|]. cbn. lia.
    + destruct (inv_event db I _ _ _ H') as (r0 & Hr0 & ?).
      destruct (decide (id = ev_job e)) as [->|].
      * simplify_eq. rewrite lookup_insert_eq. eexists. split; [done|]. cbn. lia.
      * rewrite lookup_insert_ne by done. eauto.
  - intros id r0. rewrite Hj. intros [[<- <-]|[_ ?]]%lookup_insert_Some; [cbn; lia|].
    by apply (inv_counter db I id).
Qed.

(** The row a created job gets. *)
Definition created_row (j : Job) (n : Z) : JobRow :=
  mkJobRow (job_stack j) (job_action j) (job_state j) (job_requested_by j)
    (nullIfEmpty (job_request_id j)) (rfc3339nano (job_requested_at j))
    (rfc3339nano <$> job_started_at j) (rfc3339nano <$> job_finished_at j) (job_workflow j)
    (nullIfEmpty (job_error_code j)) (nullIfEmpty (job_error_message j)) n.

Lemma CreateInitial_Ok io db j e db' :
  CreateJobWithInitialEvent io db j e = Ok db' →
  jobs db !! job_id j = None ∧ ev_job e = job_id j ∧ ev_sequence e = 1 ∧
  jobs db' = <[job_id j := created_row j 1]> (jobs db) ∧
  job_events db' = <[(job_id j, 1) := event_row e]> (job_events db).
Proof.
  unfold CreateJobWithInitialEvent. destruct (_ || _) eqn:Hg; [done|]. boolify.
  rewrite Z.eqb_eq in *. intros [-> H']%driver_Ok. unfold createJob in H'.
  destruct (jobs db !! job_id j) eqn:Hn; [done|]. cbn in H'.
  apply createJobEvent_Ok in H' as [_ ->]. cbn in *. simplify_eq.
  split_and!; try done; [|congruence].
  by rewrite alter_insert_eq.
Qed.

Lemma CreateInitial_events_inv io db j e db' :
  events_inv db → CreateJobWithInitialEvent io db j e = Ok db' → events_inv db'.
Proof.
  intros I (Hn & _ & _ & Hj & He)%CreateInitial_Ok. split.
  - intros id n row. rewrite Hj, He. intros [[[= <- <-] _]|[_ H']]%lookup_insert_Some.
    + rewrite lookup_insert_eq. eexists. split; [done|]. cbn. lia.
    + destruct (inv_event db I _ _ _ H') as (r0 & Hr0 & ?).
      rewrite lookup_insert_ne by congruence. eauto.
  - intros id r0. rewrite Hj. intros [[<- <-]|[_ ?]]%lookup_insert_Some; [cbn; lia|].
    by apply (inv_counter db I id).
Qed.

Lemma UpdateWorkflow_Ok io db id w db' :
  UpdateJobWorkflow io db id w = Ok db' →
  ∃ r, jobs db !! id = Some r ∧ jobs db' = <[id := set_workflow w r]> (jobs db) ∧
       job_events db' = job_events db.
Proof.
  unfold UpdateJobWorkflow. intros [-> H']%driver_Ok. destruct (jobs db !! id) as [r|]; [|done].
  simplify_eq. exists r. by cbn.
Qed.

Lemma UpdateWorkflow_events_inv io db id w db' :
  events_inv db → UpdateJobWorkflow io db id w = Ok db' → events_inv db'.
Proof.
  intros I (r & Hr & Hj & He)%UpdateWorkflow_Ok. split.
  - intros i n row. rewrite Hj, He. intros H'. destruct (inv_event db I _ _ _ H') as (r0 & Hr0 & ?).
    destruct (decide (i = id)) as [->|]; [|rewrite lookup_insert_ne by done; eauto].
    simplify_eq. rewrite lookup_insert_eq. eexists. by split; [done|].
  - intros i r0. rewrite Hj. intros [[<- <-]|[_ ?]]%lookup_insert_Some; [|by apply (inv_counter db I i)].
    by apply (inv_counter db I id r).
Qed.

Lemma UpdateJob_Ok io db j db' :
  UpdateJob io db j = Ok db' →
  ∃ r, jobs db !! job_id j = Some r ∧ jobs db' = <[job_id j := update_row j (r_event_sequence r) r]> (jobs db) ∧
       job_events db' = job_events db.
Proof.
  unfold UpdateJob, updateJob. destruct io; cbn; [done|]. destruct (jobs db !! job_id j) as [r|]; cbn; [|done].
  intros [= <-]. exists r. by cbn.
Qed.

(** Rows replaced in place without lowering their counter. *)
Lemma events_inv_mono db db' :
  events_inv db → job_events db' = job_events db →
  (∀ id r, jobs db !! id = Some r → ∃ r', jobs db' !! id = Some r' ∧ r_event_sequence r <= r_event_sequence r') →
  (∀ id r', jobs db' !! id = Some r' → ∃ r, jobs db !! id = Some r ∧ r_event_sequence r <= r_event_sequence r') →
  events_inv db'.
Proof.
  intros I He Hup Hdown. split.
  - intros id n row. rewrite He. intros H. destruct (inv_event db I _ _ _ H) as (r & Hr & ?).
    destruct (Hup _ _ Hr) as (r' & ? & ?). exists r'. split; [done|lia].
  - intros id r' H. destruct (Hdown _ _ H) as (r & Hr & ?). pose proof (inv_counter db I _ _ Hr). lia.
Qed.

Lemma UpdateJob_events_inv io db j db' : events_inv db → UpdateJob io db j = Ok db' → events_inv db'.
Proof.
  intros I (r & Hr & Hj & He)%UpdateJob_Ok. apply (events_inv_mono db); [done|done|..]; rewrite Hj; intros id x Hx;
    (destruct (decide (id = job_id j)) as [->|]; [rewrite lookup_insert_eq in *|rewrite lookup_insert_ne in * by done]).
  - simplify_eq. eexists. split; [done|]. cbn. lia.
  - eexists. by split; [done|].
  - simplify_eq. eexists. split; [done|]. cbn. lia.
  - eexists. by split; [done|].
Qed.

Lemma CreateJobEvent_Ok io db e db' :
  CreateJobEvent io db e = Ok db' →
  job_events db !! (ev_job e, ev_sequence e) = None ∧
  jobs db' = alter (λ r, set_sequence (Z.max (r_event_sequence r) (ev_sequence e)) r) (ev_job e) (jobs db) ∧
  job_events db' = <[(ev_job e, ev_sequence e) := event_row e]> (job_events db).
Proof.
  unfold CreateJobEvent. intros [-> H]%driver_Ok. res_inv H. apply createJobEvent_Ok in E as [? ->]. simplify_eq. by cbn.
Qed.

(** The event the helper adds belongs to a stored job. *)
Lemma CreateJobEvent_events_inv io db e db' :
  events_inv db → is_Some (jobs db !! ev_job e) → 1 <= ev_sequence e → CreateJobEvent io db e = Ok db' → events_inv db'.
Proof.
  intros I [r0 Hr0] H1 (_ & Hj & He)%CreateJobEvent_Ok. split.
  - intros id n row. rewrite Hj, He. intros [[[= <- <-] _]|[_ H']]%lookup_insert_Some.
    + rewrite lookup_alter_eq, Hr0. eexists. split; [done|]. cbn. lia.
    + destruct (inv_event db I _ _ _ H') as (r & Hr & ?).
      destruct (decide (id = ev_job e)) as [->|]; [rewrite lookup_alter_eq, Hr|rewrite lookup_alter_ne by done; eauto].
      eexists. split; [done|]. cbn. lia.
  - intros id r. rewrite Hj. destruct (decide (id = ev_job e)) as [->|];
      [rewrite lookup_alter_eq|rewrite lookup_alter_ne by done; apply (inv_counter db I)].
    intros (x & Hx & ->)%fmap_Some. pose proof (inv_counter db I _ _ Hx). cbn. lia.
Qed.

Lemma emptyDB_events_inv : events_inv emptyDB.
Proof. split; cbn; intros *; by rewrite lookup_empty. Qed.

(** ** Reading a job back *)

Definition opt_range (t : option Time) : Prop := match t with Some t => rfc_range t | None => True end.

(** The timestamps of a job have a four-digit year. *)
Definition job_times_ok (j : Job) : Prop :=
  rfc_range (job_requested_at j) ∧ opt_range (job_started_at j) ∧ opt_range (job_finished_at j).

Lemma orEmpty_nullIfEmpty s : orEmpty (nullIfEmpty s) = s.
Proof. unfold nullIfEmpty. destruct (str_empty s) eqn:E; [|done]. by boolify. Qed.

Lemma parse_time_fmt what t : rfc_range t → parse_time what (rfc3339nano t) = Ok t.
Proof. intros H. unfold parse_time. by rewrite parse_rfc3339nano_fmt. Qed.

Lemma parse_opt_time_fmt what t : opt_range t → parse_opt_time what (rfc3339nano <$> t) = Ok t.
Proof. destruct t as [t|]; cbn; [|done]. intros H. by rewrite parse_time_fmt. Qed.

Lemma scanJob_created j n : job_times_ok j → scanJob (job_id j) (created_row j n) = Ok j.
Proof.
  intros (H1 & H2 & H3). unfold scanJob. cbn. rewrite parse_time_fmt by done. cbn.
  rewrite !parse_opt_time_fmt by done. cbn. rewrite !orEmpty_nullIfEmpty. by destruct j.
Qed.

(** the round trip through the jobs table: a job created with its first
    event is read back field by field by [JobByID], whatever was stored before. *)
Theorem job_create_read_roundtrip db j e db' :
  job_times_ok j → CreateJobWithInitialEvent None db j e = Ok db' →
  JobByID None db' (job_id j) = Ok j.
Proof.
  intros Ht (_ & _ & _ & Hj & _)%CreateInitial_Ok. unfold JobByID. cbn.
  rewrite Hj, lookup_insert_eq. by apply scanJob_created.
Qed.

(** appending an event always succeeds for an existing job of a well-formed
    store; the event gets the number after every retained event of the job and
    the persisted state of the job, not the caller's. *)
Theorem AppendJobEvent_correct db e r :
  events_inv db → jobs db !! ev_job e = Some r →
  ∃ e' db', AppendJobEvent None db e = Ok (e', db') ∧ events_inv db' ∧
    ev_state e' = r_state r ∧
    (∀ n row, job_events db !! (ev_job e, n) = Some row → n < ev_sequence e') ∧
    job_events db' = <[(ev_job e, ev_sequence e') := event_row e']> (job_events db).
Proof.
  intros I Hr. destruct (Append_total db e r I Hr) as (e' & db' & H). exists e', db'.
  split; [done|]. split; [by eapply Append_events_inv|].
  apply Append_Ok in H as (r' & Hr' & _ & Hs & Hst & _ & He). simplify_eq. split_and!; [done| |congruence].
  intros n row Hn. destruct (inv_event db I _ _ _ Hn) as (r0 & ? & ?). simplify_eq. lia.
Qed.

(** a transition is a compare-and-swap on the job's state: it updates the
    row exactly when the stored state is allowed, and then commits all its
    events, numbered contiguously after the job's counter; otherwise it leaves
    the database unchanged. *)
Theorem TransitionJobWithEvents_cas db j allowed events :
  events_inv db → events ≠ [] → allowed ≠ [] → forallb (transition_event_ok j) events = true →
  ∃ db', 
    (∃ r, jobs db !! job_id j = Some r ∧ r_state r ∈ allowed ∧
      TransitionJobWithEvents None db j allowed events
        = Ok (true, numbered (r_event_sequence r + 1) events, db') ∧
      jobs db' = <[job_id j := update_row j (r_event_sequence r + Z.of_nat (length events)) r]> (jobs db) ∧
      events_inv db') ∨
    ((∀ r, jobs db !! job_id j = Some r → r_state r ∉ allowed) ∧
      TransitionJobWithEvents None db j allowed events = Ok (false, [], db)).
Proof.
  intros I Hne Ha Hev.
  destruct (jobs db !! job_id j) as [r|] eqn:Hr; [destruct (decide (r_state r ∈ allowed)) as [Hs|Hs]|].
  - destruct (Transition_total db j allowed events r I Hr Hs Hne Hev) as [db' H].
    exists db'. left. exists r. split_and!; try done; [|by eapply Transition_events_inv].
    apply Transition_Ok in H as [_ [(? & _)|(_ & r' & ? & _ & _ & ? & _)]]; [done|]. by simplify_eq.
  - exists db. right. split; [naive_solver|]. unfold TransitionJobWithEvents.
    rewrite bool_decide_false by done. destruct events; [done|]. cbn [orb]. rewrite Hev. cbn [negb driver].
    rewrite Hr. unfold str_in. by rewrite bool_decide_false.
  - exists db. right. split; [naive_solver|]. unfold TransitionJobWithEvents.
    rewrite bool_decide_false by done. destruct events; [done|]. cbn [orb]. rewrite Hev. cbn [negb driver].
    by rewrite Hr.
Qed.

(** ** Concrete instances *)

Definition demoTime : Time := 1731907443 * Second + 500000000.
Definition demoJob : Job :=
  mkJob "job_1" "web" "update_stack" "running" "local" "req_1" demoTime (Some demoTime) None
    (Some (mkWorkflow [mkStep "pull" "queued" "web" []])) "" "".
Definition demoEvent (n : Z) (event state : string) : JobEvent :=
  mkEvent "job_1" n event state "" "" None None demoTime.
Definition demoDB : DB :=
  match CreateJobWithInitialEvent None emptyDB demoJob (demoEvent 1 "job_started" "running") with
  | Ok db => db | Err _ => emptyDB end.
Definition demoRow : JobRow := created_row demoJob 1.

Lemma demoDB_created :
  CreateJobWithInitialEvent None emptyDB demoJob (demoEvent 1 "job_started" "running") = Ok demoDB.
Proof. by vm_compute. Qed.

Lemma demoDB_events_inv : events_inv demoDB.
Proof. eapply CreateInitial_events_inv; [apply emptyDB_events_inv|apply demoDB_created]. Qed.

Lemma demoDB_row : jobs demoDB !! "job_1" = Some demoRow.
Proof. by vm_compute. Qed.

Lemma demoTime_range : rfc_range demoTime.
Proof. split; by vm_compute. Qed.

Lemma job_create_read_roundtrip_witness : JobByID None demoDB "job_1" = Ok demoJob.
Proof.
  apply (job_create_read_roundtrip emptyDB demoJob (demoEvent 1 "job_started" "running")).
  - split; [apply demoTime_range|]. split; [apply demoTime_range|exact I].
  - apply demoDB_created.
Defined.

Lemma AppendJobEvent_correct_witness :
  ∃ e' db', AppendJobEvent None demoDB (demoEvent 0 "job_log" "queued") = Ok (e', db') ∧ events_inv db' ∧
    ev_state e' = r_state demoRow ∧
    (∀ n row, job_events demoDB !! ("job_1", n) = Some row → n < ev_sequence e') ∧
    job_events db' = <[("job_1", ev_sequence e') := event_row e']> (job_events demoDB).
Proof.
  apply (AppendJobEvent_correct demoDB (demoEvent 0 "job_log" "queued") demoRow).
  - apply demoDB_events_inv.
  - apply demoDB_row.
Defined.

Definition demoFinished : Job :=
  mkJob "job_1" "web" "update_stack" "succeeded" "local" "req_1" demoTime (Some demoTime) (Some demoTime)
    None "" "".

Lemma TransitionJobWithEvents_cas_witness :
  ∃ db',
    (∃ r, jobs demoDB !! "job_1" = Some r ∧ r_state r ∈ activeStates ∧
      TransitionJobWithEvents None demoDB demoFinished activeStates [demoEvent 0 "job_finished" "succeeded"]
        = Ok (true, numbered (r_event_sequence r + 1) [demoEvent 0 "job_finished" "succeeded"], db') ∧
      jobs db' = <["job_1" := update_row demoFinished (r_event_sequence r + Z.of_nat 1) r]> (jobs demoDB) ∧
      events_inv db') ∨
    ((∀ r, jobs demoDB !! "job_1" = Some r → r_state r ∉ activeStates) ∧
      TransitionJobWithEvents None demoDB demoFinished activeStates [demoEvent 0 "job_finished" "succeeded"]
        = Ok (false, [], demoDB)).
Proof.
  apply (TransitionJobWithEvents_cas demoDB demoFinished activeStates [demoEvent 0 "job_finished" "succeeded"]).
  - apply demoDB_events_inv.
  - done.
  - done.
  - by vm_compute.
Defined.
