(* ===== verification/Scheduler.v ===== *)
(** * internal/scheduler/service.go: the maintenance scheduler

    The settings and the runtime state, persisted as JSON documents in
    app_settings; the background loop that triggers due runs; the workers that
    run and finalize them; and their interleavings as a step relation.  The runner
    and the stack lister are the record [backend] of SchedulerTime.

    A JSON document is the record of the fields that are present; [DocText] is
    the promise that [encoding/json] reads back the document it wrote. *)

From stdpp Require Import gmap strings list relations countable sorting.
From Stdlib Require Import Ascii ZArith.
From S2P Require Import Prelude GoStrings GoTime SchedulerTime Store.

Local Open Scope Z_scope.

(** ** Documents *)

Record baseDoc := mkBaseDoc {
  bd_enabled : option bool; bd_frequency : option string; bd_time : option string; bd_weekdays : option (list string) }.
Record targetDoc := mkTargetDoc {
  td_mode : option string; td_stack_ids : option (list string); td_excluded : option (gmap string (list string)) }.
Record optionsDoc := mkOptionsDoc {
  od_pull : option bool; od_build : option bool; od_orphans : option bool;
  od_inactive : option bool; od_prune : option bool; od_volumes : option bool }.
Record scopeDoc := mkScopeDoc { sd_images : option bool; sd_cache : option bool; sd_containers : option bool; sd_volumes : option bool }.
Record settingsDoc := mkSettingsDoc {
  doc_update : baseDoc * targetDoc * optionsDoc; doc_prune : baseDoc * scopeDoc }.

(** [omitempty] of a list or a map. *)
Definition omit_list {A} (l : list A) : option (list A) := match l with [] => None | _ => Some l end.
Definition omit_map (m : gmap string (list string)) : option (gmap string (list string)) :=
  if bool_decide (m = ∅) then None else Some m.

Definition encode_base (b : baseSchedule) : baseDoc :=
  mkBaseDoc (Some (Enabled b)) (Some (Freq b)) (Some (TimeOfDay b)) (omit_list (Weekdays b)).
Definition encode_settings (s : Settings) : settingsDoc :=
  let t := Target (Update s) in
  let o := Options (Update s) in
  let sc := Scope (Prune s) in
  mkSettingsDoc
    (encode_base (u_base (Update s)),
     mkTargetDoc (Some (Mode t)) (omit_list (StackIDs t)) (omit_map (ExcludedServices t)),
     mkOptionsDoc (Some (PullImages o)) (Some (BuildImages o)) (Some (RemoveOrphans o)) (Some (PreserveInactive o))
       (Some (PruneAfter o)) (Some (IncludeVolumes o)))
    (encode_base (pr_base (Prune s)),
     mkScopeDoc (Some (Images sc)) (Some (BuildCache sc)) (Some (StoppedContainers sc)) (Some (Volumes sc))).

(** [json.Unmarshal] into a value: fields that are absent keep their value. *)
Definition decode_base (b : baseSchedule) (d : baseDoc) : baseSchedule :=
  mkBase (default (Enabled b) (bd_enabled d)) (default (Freq b) (bd_frequency d)) (default (TimeOfDay b) (bd_time d))
    (default (Weekdays b) (bd_weekdays d)).
Definition decode_settings (s : Settings) (d : settingsDoc) : Settings :=
  let '(ub, ut, uo) := doc_update d in
  let '(pb, ps) := doc_prune d in
  let t := Target (Update s) in
  let o := Options (Update s) in
  let sc := Scope (Prune s) in
  mkSettings
    (mkUpdate (decode_base (u_base (Update s)) ub)
       (mkTarget (default (Mode t) (td_mode ut)) (default (StackIDs t) (td_stack_ids ut)) (default (ExcludedServices t) (td_excluded ut)))
       (mkOptions (default (PullImages o) (od_pull uo)) (default (BuildImages o) (od_build uo)) (default (RemoveOrphans o) (od_orphans uo))
          (default (PreserveInactive o) (od_inactive uo)) (default (PruneAfter o) (od_prune uo)) (default (IncludeVolumes o) (od_volumes uo))))
    (mkPruneConfig (decode_base (pr_base (Prune s)) pb)
       (mkScope (default (Images sc) (sd_images ps)) (default (BuildCache sc) (sd_cache ps))
          (default (StoppedContainers sc) (sd_containers ps)) (default (Volumes sc) (sd_volumes ps)))).

Definition defaultSettings : Settings :=
  mkSettings
    (mkUpdate (mkBase false FrequencyWeekly "03:30" ["sat"]) (mkTarget "all" [] ∅) (mkOptions true true true false false false))
    (mkPruneConfig (mkBase false FrequencyWeekly "04:30" ["sun"]) (mkScope true true true false)).

(** The runtime of one schedule; every field is [omitempty], so the document has
    the same fields as the record. *)
Record scheduleRuntimeState := mkRuntime {
  LastTriggeredAt : option Time; LastScheduledFor : option Time;
  LastResult : string; LastMessage : string; LastJobID : string }.
Definition zeroRuntime : scheduleRuntimeState := mkRuntime None None "" "" "".
Record runtimeState := mkRuntimeState { rt_update : scheduleRuntimeState; rt_prune : scheduleRuntimeState }.
Definition zeroRuntimeState : runtimeState := mkRuntimeState zeroRuntime zeroRuntime.

#[global] Instance scheduleRuntimeState_eq_dec : EqDecision scheduleRuntimeState.
Proof. solve_decision. Defined.

(** ** Persistence *)

Definition settingsKey : string := "maintenance_schedules_v1".
Definition runtimeKey : string := "maintenance_schedules_runtime_v1".

Definition from_store {A} (r : res store_error A) : res scheduler_error A :=
  match r with Ok a => Ok a | Err _ => Err (ErrDependency "settings store") end.

Section service.
Context `{!DocText settingsDoc, !DocText runtimeState, !MapRange string (list string)} (l : Location).

Definition loadSettings (io : IO) (db : DB) : res scheduler_error Settings :=
  let? raw := from_store (AppSetting io db settingsKey) in
  match raw with
  | None => Ok defaultSettings
  | Some text =>
    match doc_parse text with
    | None => Err (ErrParse "parse maintenance schedules")
    | Some d =>
      let s := decode_settings defaultSettings d in
      Ok (mkSettings (normalizeUpdateConfig (Update s)) (normalizePruneConfig (Prune s)))
    end
  end.

Definition saveSettings (io : IO) (db : DB) (now : Time) (settings : Settings) : res scheduler_error DB :=
  from_store (SetAppSetting io db settingsKey (doc_text (encode_settings settings)) now).

Definition loadRuntimeState (io : IO) (db : DB) : res scheduler_error runtimeState :=
  let? raw := from_store (AppSetting io db runtimeKey) in
  match raw with
  | None => Ok zeroRuntimeState
  | Some text => match doc_parse text with None => Err (ErrParse "parse maintenance schedule runtime") | Some st => Ok st end
  end.

Definition seededScheduleRuntimeState (b : baseSchedule) (now : Time) : scheduleRuntimeState :=
  if negb (Enabled b) then zeroRuntime
  else match mostRecentScheduledAt l (Freq b) (TimeOfDay b) (Weekdays b) now with
       | None => zeroRuntime
       | Some recent => mkRuntime None (Some recent) "" "" ""
       end.

Definition resetRuntimeState (io : IO) (db : DB) (settings : Settings) (now written : Time) : res scheduler_error DB :=
  let st := mkRuntimeState (seededScheduleRuntimeState (u_base (Update settings)) now)
                           (seededScheduleRuntimeState (pr_base (Prune settings)) now) in
  from_store (SetAppSetting io db runtimeKey (doc_text st) written).

Definition entry (key : string) (st : runtimeState) : scheduleRuntimeState :=
  if str_eqb key "update" then rt_update st else rt_prune st.

(** The [switch] on the schedule key. *)
Definition mutate_entry (key : string) (f : scheduleRuntimeState → scheduleRuntimeState) (st : runtimeState) : option runtimeState :=
  if str_eqb key "update" then Some (mkRuntimeState (f (rt_update st)) (rt_prune st))
  else if str_eqb key "prune" then Some (mkRuntimeState (rt_update st) (f (rt_prune st)))
  else None.

(** The two statements run under [persistMu]. *)
Definition updateRuntime (ios : IO * IO) (db : DB) (now : Time) (key : string) (mutate : scheduleRuntimeState → scheduleRuntimeState)
    : res scheduler_error DB :=
  let? st := loadRuntimeState ios.1 db in
  match mutate_entry key mutate st with
  | None => Err (ErrConfig "unknown schedule key")
  | Some st => from_store (SetAppSetting ios.2 db runtimeKey (doc_text st) now)
  end.

(** ** Settings *)

Record ScheduleStatus := mkStatus {
  NextRunAt : option Time; st_triggered : option Time; st_scheduled : option Time;
  st_result : string; st_message : string; st_job : option string }.

Definition buildStatus (b : baseSchedule) (r : scheduleRuntimeState) (now : Time) : ScheduleStatus :=
  mkStatus (if Enabled b then nextRun l (Freq b) (TimeOfDay b) (Weekdays b) now else None)
    (LastTriggeredAt r) (LastScheduledFor r) (LastResult r) (LastMessage r) (nullIfEmpty (LastJobID r)).

Record SettingsResponse := mkResponse {
  resp_update : UpdateScheduleConfig * ScheduleStatus; resp_prune : PruneScheduleConfig * ScheduleStatus }.

Definition GetSettings (ios : IO * IO) (db : DB) (now : Time) : res scheduler_error SettingsResponse :=
  let? settings := loadSettings ios.1 db in
  let? st := loadRuntimeState ios.2 db in
  Ok (mkResponse (Update settings, buildStatus (u_base (Update settings)) (rt_update st) now)
                 (Prune settings, buildStatus (pr_base (Prune settings)) (rt_prune st) now)).

(** The statements in their order: save, reset, and the two reads; the database
    is what was written, also when a later statement fails. *)
Definition UpdateSettings (b : backend) (ios : IO * IO * (IO * IO)) (db : DB) (now : Time) (request : Settings)
    : DB * res scheduler_error SettingsResponse :=
  let settings := mkSettings (normalizeUpdateConfig (Update request)) (normalizePruneConfig (Prune request)) in
  match validateSettings b settings with
  | Err e => (db, Err e)
  | Ok _ =>
    match saveSettings ios.1.1 db now settings with
    | Err e => (db, Err e)
    | Ok db =>
      match resetRuntimeState ios.1.2 db settings now now with
      | Err e => (db, Err e)
      | Ok db => (db, GetSettings ios.2 db now)
      end
    end
  end.

(** ** Triggering *)

Definition tryStart (running : gmap string bool) (key : string) : bool * gmap string bool :=
  if default false (running !! key) then (false, running) else (true, <[key := true]> running).
Definition finish (running : gmap string bool) (key : string) : gmap string bool := <[key := false]> running.

Definition trigger (now dueAt : Time) (r : scheduleRuntimeState) : scheduleRuntimeState :=
  mkRuntime (Some now) (Some dueAt) "running" "" "".

(** [evaluateUpdate] and [evaluatePrune]: the occurrence of a new worker. *)
Definition evaluate (ios : IO * IO) (key : string) (b : baseSchedule) (r : scheduleRuntimeState) (now : Time)
    (db : DB) (running : gmap string bool) : DB * gmap string bool * option Time :=
  match dueSchedule l b (LastScheduledFor r) now with
  | None => (db, running, None)
  | Some dueAt =>
    match tryStart running key with
    | (false, running) => (db, running, None)
    | (true, running) =>
      match updateRuntime ios db now key (trigger now dueAt) with
      | Err _ => (db, finish running key, None)
      | Ok db => (db, running, Some dueAt)
      end
    end
  end.

(** ** Finalization *)

(** What [RunUpdate] or [RunPrune] returned: a job (with an empty id for none)
    and an error. *)
Record runJob := mkRunJob { rj_id : string; rj_state : string; rj_error : string }.
Inductive run_error : Type := ResourceConflict | RunFailed (message : string).

(** The audit entry of a run that did not become a job of its own. *)
Record auditCall := mkAuditCall { ac_result : string; ac_scheduled_for : Time; ac_finished_at : Time; ac_message : string }.

Definition run_outcome (job : runJob) (runErr : option run_error) : string * string * string * option run_error :=
  let '(result, message, jobID) :=
    if str_empty (rj_id job) then ("succeeded", "", "") else (rj_state job, rj_error job, rj_id job) in
  let runErr := match runErr with
                | None => if str_empty (rj_id job) then Some (RunFailed "maintenance runner did not return a job") else None
                | e => e end in
  match runErr with
  | None => (result, message, jobID, None)
  | Some ResourceConflict => ("skipped", "Another maintenance job was already running.", jobID, runErr)
  | Some (RunFailed m) => ("failed", m, jobID, runErr)
  end.

Definition record_result (result message jobID : string) (r : scheduleRuntimeState) : scheduleRuntimeState :=
  mkRuntime (LastTriggeredAt r) (LastScheduledFor r) result message jobID.

(** A failed write is logged and forgotten. *)
Definition written (db : DB) (r : res scheduler_error DB) : DB := match r with Ok db => db | Err _ => db end.

Definition finalizeScheduledRun (ios : IO * IO) (db : DB) (now : Time) (key : string) (scheduledFor : Time) (job : runJob) (runErr : option run_error)
    : DB * list auditCall :=
  let '(result, message, jobID, err) := run_outcome job runErr in
  (written db (updateRuntime ios db now key (record_result result message jobID)),
   match err with Some _ => [mkAuditCall result scheduledFor now message] | None => [] end).

Definition recordScheduleFailure (ios : IO * IO) (db : DB) (now : Time) (key : string) (scheduledFor : Time) (message : string)
    : DB * list auditCall :=
  (written db (updateRuntime ios db now key (record_result "failed" message "")), [mkAuditCall "failed" scheduledFor now message]).

(** How a worker ends: the prune worker may fail to list the stacks first. *)
Inductive workerEnd : Type :=
| Ran (job : runJob) (err : option run_error)
| ListFailed (message : string).

Definition listManagedStackIDs (b : backend) : res string (list string) :=
  match ManagedStacks b with Ok ids => Ok (sort_strings ids) | Err message => Err message end.

Definition endWorker (ios : IO * IO) (db : DB) (now : Time) (key : string) (due : Time) (e : workerEnd) : DB * list auditCall :=
  match e with
  | Ran job err => finalizeScheduledRun ios db now key due job err
  | ListFailed message => recordScheduleFailure ios db now key due message
  end.

(** ** The running service *)

Record worker := mkWorker { wk_key : string; wk_due : Time; wk_recorded : bool }.

(** The loop between two schedules: what it loaded, and the reading of the clock. *)
Inductive loopState : Type :=
| Idle
| Loaded (settings : Settings) (st : runtimeState) (now : Time)
| UpdateDone (settings : Settings) (st : runtimeState) (now : Time).

(** [sys_log] lists the triggered occurrences, the last one first. *)
Record system := mkSystem {
  sys_db : DB; sys_running : gmap string bool; sys_workers : list worker;
  sys_loop : loopState; sys_clock : Time; sys_log : list (string * Time) }.

Definition newSystem (db : DB) (now : Time) : system :=
  mkSystem db {["update" := false; "prune" := false]} [] Idle now [].

(** [runDueSchedules] up to the first evaluation. *)
Definition loadDue (ios : IO * IO) (db : DB) (now : Time) : loopState :=
  match loadSettings ios.1 db with
  | Err _ => Idle
  | Ok settings => match loadRuntimeState ios.2 db with Err _ => Idle | Ok st => Loaded settings st now end
  end.

Definition evaluated (ios : IO * IO) (key : string) (b : baseSchedule) (r : scheduleRuntimeState) (now : Time) (next : loopState) (s : system) : system :=
  let '(db, running, started) := evaluate ios key b r now (sys_db s) (sys_running s) in
  let '(ws, log) := match started with
                    | Some due => ([mkWorker key due false], [(key, due)])
                    | None => ([], [])
                    end in
  mkSystem db running (ws ++ sys_workers s) next (sys_clock s) (log ++ sys_log s).

Definition evaluateUpdate (ios : IO * IO) (settings : Settings) (st : runtimeState) (now : Time) (s : system) : system :=
  evaluated ios "update" (u_base (Update settings)) (rt_update st) now (UpdateDone settings st now) s.
Definition evaluatePrune (ios : IO * IO) (settings : Settings) (st : runtimeState) (now : Time) (s : system) : system :=
  evaluated ios "prune" (pr_base (Prune settings)) (rt_prune st) now Idle s.

Inductive sys_step : system → system → Prop :=
| step_load s ios now : sys_loop s = Idle → sys_clock s <= now →
    sys_step s (mkSystem (sys_db s) (sys_running s) (sys_workers s) (loadDue ios (sys_db s) now) now (sys_log s))
| step_update s ios settings st now : sys_loop s = Loaded settings st now → sys_step s (evaluateUpdate ios settings st now s)
| step_prune s ios settings st now : sys_loop s = UpdateDone settings st now → sys_step s (evaluatePrune ios settings st now s)
| step_record s ios now key due e ws1 ws2 : sys_workers s = ws1 ++ mkWorker key due false :: ws2 →
    sys_step s (mkSystem (endWorker ios (sys_db s) now key due e).1 (sys_running s) (ws1 ++ mkWorker key due true :: ws2)
                  (sys_loop s) (sys_clock s) (sys_log s))
| step_finish s key due ws1 ws2 : sys_workers s = ws1 ++ mkWorker key due true :: ws2 →
    sys_step s (mkSystem (sys_db s) (finish (sys_running s) key) (ws1 ++ ws2) (sys_loop s) (sys_clock s) (sys_log s)).

(** A request that changes the settings. *)
Inductive settings_step : system → system → Prop :=
| step_settings s b ios now request :
    settings_step s (mkSystem (UpdateSettings b ios (sys_db s) now request).1 (sys_running s) (sys_workers s)
                       (sys_loop s) (sys_clock s) (sys_log s)).

Definition any_step (s s' : system) : Prop := sys_step s s' ∨ settings_step s s'.

(** ** Exclusive runs *)

(** A running flag is set exactly for the keys that have a worker, one each. *)
Record exclusive (s : system) : Prop := {
  ex_nodup : NoDup (wk_key <$> sys_workers s);
  ex_flag key : default false (sys_running s !! key) = true ↔ key ∈ wk_key <$> sys_workers s }.

Lemma flag_insert (running : gmap string bool) key b key' : default false (<[key := b]> running !! key') = if decide (key' = key) then b else default false (running !! key').
Proof using. destruct (decide (key' = key)) as [->|]; [by rewrite lookup_insert_eq|by rewrite lookup_insert_ne]. Qed.

Lemma evaluate_cases ios key b r now db running :
  let '(db', running', started) := evaluate ios key b r now db running in
  match started with
  | None => db' = db ∧ ∀ k, default false (running' !! k) = default false (running !! k)
  | Some due => dueSchedule l b (LastScheduledFor r) now = Some due ∧ default false (running !! key) = false ∧
      running' = <[key := true]> running ∧ updateRuntime ios db now key (trigger now due) = Ok db'
  end.
Proof using.
  unfold evaluate, tryStart. destruct (dueSchedule _ _ _ _) as [due|]; [|done].
  destruct (default false (running !! key)) eqn:Hf; [done|].
  destruct (updateRuntime _ _ _ _ _) as [db'|e] eqn:E; [by split_and!|]. split; [done|]. intros k. unfold finish.
  rewrite !flag_insert. destruct (decide (k = key)) as [->|]; congruence.
Qed.

Lemma evaluated_exclusive ios key b r now next s : exclusive s → exclusive (evaluated ios key b r now next s).
Proof using.
  intros [H1 H2]. unfold evaluated. pose proof (evaluate_cases ios key b r now (sys_db s) (sys_running s)) as He.
  destruct (evaluate _ _ _ _ _ _ _) as [[db' running'] [due|]].
  - destruct He as (_ & Hf & -> & _). assert (key ∉ wk_key <$> sys_workers s) as Hn.
    { intros Hin%H2. congruence. }
    split; cbn; [by constructor|]. intros k. rewrite flag_insert, elem_of_cons, <- H2.
    destruct (decide (k = key)); naive_solver.
  - destruct He as [_ Hr]. split; cbn; [done|]. intros k. by rewrite Hr.
Qed.

Lemma any_step_exclusive s s' : any_step s s' → exclusive s → exclusive s'.
Proof using.
  intros [[s0 ios now _ _|s0 ios settings st now _|s0 ios settings st now _|s0 ios now key due e ws1 ws2 Hw|s0 key due ws1 ws2 Hw]|[s0 b ios now request]] He;
    try (by apply evaluated_exclusive); destruct He as [H1 H2]; try (by split).
  - rewrite Hw, fmap_app in *. split; cbn; by rewrite fmap_app.
  - rewrite Hw, fmap_app in *. cbn in *. apply NoDup_app in H1 as (Ha & Hb & Hc). apply NoDup_cons in Hc as [Hn Hc].
    split; cbn; rewrite fmap_app; [apply NoDup_app; split_and!; [done|intros x Hx Hx2; by apply (Hb x Hx); right|done]|].
    intros k. unfold finish. rewrite flag_insert. destruct (decide (k = key)) as [->|Hk].
    + split; [done|]. rewrite elem_of_app. intros [Hin|?]; [|done]. exfalso. apply (Hb key Hin). by left.
    + rewrite (H2 k), !elem_of_app, elem_of_cons. naive_solver.
Qed.

(** ** Persistence: lemmas *)

Lemma settings_keys_differ : settingsKey ≠ runtimeKey.
Proof using. done. Qed.

Lemma loadRuntimeState_set st db now :
  loadRuntimeState None (with_settings db (<[runtimeKey := mkSettingRow (doc_text st) now]> (app_settings db))) = Ok st.
Proof using. unfold loadRuntimeState, AppSetting, driver, from_store. cbn. by rewrite lookup_insert_eq; cbn; rewrite doc_parse_text. Qed.

Lemma loadSettings_frame io db db' : app_settings db' !! settingsKey = app_settings db !! settingsKey →
  loadSettings io db' = loadSettings io db.
Proof using. intros E. unfold loadSettings, AppSetting. by rewrite E. Qed.

Lemma loadRuntimeState_frame io db db' : app_settings db' !! runtimeKey = app_settings db !! runtimeKey →
  loadRuntimeState io db' = loadRuntimeState io db.
Proof using. intros E. unfold loadRuntimeState, AppSetting. by rewrite E. Qed.

Lemma loadRuntimeState_Ok io db st : loadRuntimeState io db = Ok st → io = None ∧ loadRuntimeState None db = Ok st.
Proof using. by destruct io. Qed.

Lemma loadSettings_Ok io db st : loadSettings io db = Ok st → io = None ∧ loadSettings None db = Ok st.
Proof using. by destruct io. Qed.

(** A runtime update is a read-modify-write of the runtime document alone. *)
Lemma updateRuntime_Ok ios db now key f db' : updateRuntime ios db now key f = Ok db' →
  ∃ st st', loadRuntimeState None db = Ok st ∧ mutate_entry key f st = Some st' ∧ loadRuntimeState None db' = Ok st' ∧
    app_settings db' !! settingsKey = app_settings db !! settingsKey.
Proof using.
  unfold updateRuntime. intros H. res_inv H. apply loadRuntimeState_Ok in E as [_ E].
  destruct (mutate_entry key f a) as [st'|] eqn:Em; [|done]. exists a, st'. split_and!; [done|done|..];
    destruct (ios.2); cbn in H; try done; injection H as <-; [apply loadRuntimeState_set|cbn; by rewrite lookup_insert_ne].
Qed.

(** The occurrence last scheduled for a key, as stored. *)
Definition last_scheduled (db : DB) (key : string) : option Time :=
  match loadRuntimeState None db with Ok st => LastScheduledFor (entry key st) | Err _ => None end.

Lemma mutate_entry_other key f st st' key' : mutate_entry key f st = Some st' → key' ∈ ["update"; "prune"] → key' ≠ key → entry key' st' = entry key' st.
Proof using.
  unfold mutate_entry, entry, str_eqb. repeat case_bool_decide; intros [= <-] Hk Hne; try done; list_cases; congruence.
Qed.

Lemma mutate_entry_same key f st st' : mutate_entry key f st = Some st' → entry key st' = f (entry key st).
Proof using. unfold mutate_entry, entry, str_eqb. repeat case_bool_decide; by intros [= <-]. Qed.

(** What the statements of the scheduler preserve. *)
Definition same_schedule (db db' : DB) : Prop :=
  app_settings db' !! settingsKey = app_settings db !! settingsKey ∧
  ∀ key, key ∈ ["update"; "prune"] → last_scheduled db' key = last_scheduled db key.

Lemma record_keeps_schedule ios db now key result message jobID :
  same_schedule db (written db (updateRuntime ios db now key (record_result result message jobID))).
Proof using.
  destruct (updateRuntime _ _ _ _ _) as [db'|e] eqn:E; [|done]. cbn.
  apply updateRuntime_Ok in E as (st & st' & H1 & H2 & H3 & H4). split; [done|]. intros key' Hk.
  unfold last_scheduled. rewrite H1, H3. destruct (decide (key' = key)) as [->|Hne].
  - by rewrite (mutate_entry_same _ _ _ _ H2).
  - by rewrite (mutate_entry_other _ _ _ _ _ H2 Hk Hne).
Qed.

Lemma endWorker_keeps_schedule ios db now key due e : same_schedule db (endWorker ios db now key due e).1.
Proof using.
  destruct e as [job err|message]; cbn; [|apply record_keeps_schedule].
  unfold finalizeScheduledRun. destruct (run_outcome job err) as [[[result message] jobID] e]. apply record_keeps_schedule.
Qed.

(** ** Every occurrence at most once *)

Definition base_of (key : string) (settings : Settings) : baseSchedule :=
  if str_eqb key "update" then u_base (Update settings) else pr_base (Prune settings).

Definition well_placed (b : baseSchedule) : Prop :=
  validateBaseSchedule b = Ok tt ∧ ∀ h m, parseTimeOfDay (TimeOfDay b) = Some (h, m) → unaffected l (time_of_day h m).

Definition triggered (key : string) (log : list (string * Time)) : list Time :=
  snd <$> filter (λ e, e.1 = key) log.

Section once.
Context `{!CalendarZone l} (settings : Settings) (Hplaced : ∀ key, well_placed (base_of key settings)).

Definition recent (key : string) (now : Time) : option Time :=
  let b := base_of key settings in mostRecentScheduledAt l (Freq b) (TimeOfDay b) (Weekdays b) now.

(** The triggered occurrences of a key are in order and the last one is stored. *)
Definition in_order (s : system) (key : string) : Prop :=
  StronglySorted (λ a b, b < a) (triggered key (sys_log s)) ∧
  ∀ d, head (triggered key (sys_log s)) = Some d →
    last_scheduled (sys_db s) key = Some d ∧ ∃ now0, now0 <= sys_clock s ∧ recent key now0 = Some d.

(** What the loop loaded is still what is stored, for the keys it has not yet evaluated. *)
Definition loop_current (s : system) : Prop :=
  match sys_loop s with
  | Idle => True
  | Loaded loaded st now => loaded = settings ∧ now = sys_clock s ∧
      ∀ key, key ∈ ["update"; "prune"] → LastScheduledFor (entry key st) = last_scheduled (sys_db s) key
  | UpdateDone loaded st now => loaded = settings ∧ now = sys_clock s ∧ LastScheduledFor (entry "prune" st) = last_scheduled (sys_db s) "prune"
  end.

Record once_inv (s : system) : Prop := {
  on_settings : loadSettings None (sys_db s) = Ok settings;
  on_loop : loop_current s;
  on_order key : key ∈ ["update"; "prune"] → in_order s key }.

Lemma recent_mono key now1 now2 t1 t2 : now1 <= now2 → recent key now1 = Some t1 → recent key now2 = Some t2 → t1 <= t2.
Proof using All.
  unfold recent. intros Hn. destruct (Hplaced key) as [Hv Hu].
  destruct (parseTimeOfDay (TimeOfDay (base_of key settings))) as [[h m]|] eqn:Hp.
  - by apply (mostRecent_mono l _ _ _ h m); [| |apply Hu|].
  - unfold mostRecentScheduledAt. by rewrite Hp.
Qed.

Lemma dueSchedule_recent key last now due : dueSchedule l (base_of key settings) last now = Some due → recent key now = Some due ∧ last ≠ Some due.
Proof using.
  unfold dueSchedule, recent. cbn zeta. destruct (negb _); [done|]. destruct (mostRecentScheduledAt _ _ _ _ _) as [d|]; [|done].
  destruct last as [t|]; [destruct (Z.eqb_spec d t) as [->|Hne]; [done|]|]; (destruct (_ <? _); [done|]); intros [= <-]; (split; [done|]); congruence.
Qed.

Lemma triggered_other key key' due log : key' ≠ key → triggered key' ((key, due) :: log) = triggered key' log.
Proof using. intros Hne. unfold triggered. by rewrite filter_cons_False. Qed.

Lemma triggered_same key due log : triggered key ((key, due) :: log) = due :: triggered key log.
Proof using. unfold triggered. by rewrite filter_cons_True. Qed.

(** Nothing but the state of the loop changes: the order is kept. *)
Lemma same_schedule_order s db running ws loop clock key : same_schedule (sys_db s) db → sys_clock s <= clock → key ∈ ["update"; "prune"] →
  in_order s key → in_order (mkSystem db running ws loop clock (sys_log s)) key.
Proof using.
  intros [_ Hs] Hc Hk [H1 H2]. split; [done|]. cbn. intros d Hd. destruct (H2 d Hd) as (H3 & now0 & ? & ?).
  rewrite (Hs key Hk). split; [done|]. exists now0. split; [lia|done].
Qed.

Lemma evaluated_order ios key st now next s : key ∈ ["update"; "prune"] → now = sys_clock s →
  loadSettings None (sys_db s) = Ok settings → (∀ k, k ∈ ["update"; "prune"] → in_order s k) →
  LastScheduledFor (entry key st) = last_scheduled (sys_db s) key →
  let s' := evaluated ios key (base_of key settings) (entry key st) now next s in
  loadSettings None (sys_db s') = Ok settings ∧ (∀ k, k ∈ ["update"; "prune"] → in_order s' k) ∧
  sys_clock s' = sys_clock s ∧ sys_loop s' = next ∧
  ∀ k, k ∈ ["update"; "prune"] → k ≠ key → last_scheduled (sys_db s') k = last_scheduled (sys_db s) k.
Proof using All.
  intros Hkey -> Hs Ho Hl. cbn zeta. unfold evaluated.
  pose proof (evaluate_cases ios key (base_of key settings) (entry key st) (sys_clock s) (sys_db s) (sys_running s)) as He.
  destruct (evaluate _ _ _ _ _ _ _) as [[db' running'] [due|]].
  2:{ destruct He as [-> _]. split_and!; [done| |done|done|done]. intros k Hk. by apply same_schedule_order; [|lia| |apply Ho]. }
  destruct He as (Hd & _ & _ & Hu). apply dueSchedule_recent in Hd as [Hr Hne]. rewrite Hl in Hne.
  apply updateRuntime_Ok in Hu as (st0 & st1 & H1 & H2 & H3 & H4).
  assert (∀ k, k ∈ ["update"; "prune"] → k ≠ key → last_scheduled db' k = last_scheduled (sys_db s) k) as Hother.
  { intros k Hk Hkk. unfold last_scheduled. by rewrite H1, H3, (mutate_entry_other _ _ _ _ _ H2 Hk Hkk). }
  cbn [sys_db sys_clock sys_loop]. split_and!; [by rewrite (loadSettings_frame _ _ _ H4)| |done|done|done].
  intros k Hk. destruct (Ho k Hk) as [Ha Hb]. destruct (decide (k = key)) as [->|Hkk].
  - split; cbn [sys_log app]; rewrite triggered_same.
    + constructor; [done|]. destruct (triggered key (sys_log s)) as [|d rest]; [constructor|].
      destruct (Hb d eq_refl) as (Hd1 & now0 & Hn0 & Hr0). pose proof (recent_mono key _ _ _ _ Hn0 Hr0 Hr) as Hle.
      assert (d < due) by (assert (d ≠ due) by congruence; lia).
      apply StronglySorted_inv in Ha as [_ Ha]. constructor; [done|]. eapply Forall_impl; [exact Ha|]. cbn. lia.
    + intros d [= <-]. cbn. split; [|exists (sys_clock s); split; [lia|done]].
      unfold last_scheduled. rewrite H3, (mutate_entry_same _ _ _ _ H2). done.
  - split; cbn [sys_log app]; rewrite triggered_other by done; [done|]. intros d Hdd.
    cbn [sys_db sys_clock]. rewrite Hother by done. by apply Hb.
Qed.

Lemma sys_step_once s s' : sys_step s s' → once_inv s → once_inv s'.
Proof using All.
  intros [s0 ios now Hi Hc|s0 ios loaded st now Hi|s0 ios loaded st now Hi|s0 ios now key due e ws1 ws2 Hw|s0 key due ws1 ws2 Hw] [H1 H2 H3].
  - split; [done| |intros key Hk; by apply same_schedule_order; [|done| |apply H3]].
    unfold loop_current. cbn. unfold loadDue. destruct (loadSettings ios.1 _) as [loaded|] eqn:E1; [|done].
    destruct (loadRuntimeState ios.2 _) as [st|] eqn:E2; [|done]. apply loadSettings_Ok in E1 as [_ E1].
    apply loadRuntimeState_Ok in E2 as [_ E2]. split_and!; [congruence|done|]. intros key _. unfold last_scheduled. by rewrite E2.
  - unfold loop_current in H2. rewrite Hi in H2. destruct H2 as (-> & -> & H2).
    destruct (evaluated_order ios "update" st (sys_clock s0) (UpdateDone settings st (sys_clock s0)) s0) as (E1 & E2 & E3 & E4 & E5);
      [by left|done|done|done|apply H2; by left|].
    split; [exact E1| |exact E2]. unfold loop_current, evaluateUpdate.
    change (u_base (Update settings)) with (base_of "update" settings). change (rt_update st) with (entry "update" st).
    rewrite E4, E3. split_and!; [done|done|]. rewrite E5; [apply H2; right; by left|right; by left|done].
  - unfold loop_current in H2. rewrite Hi in H2. destruct H2 as (-> & -> & H2).
    destruct (evaluated_order ios "prune" st (sys_clock s0) Idle s0) as (E1 & E2 & E3 & E4 & E5);
      [right; by left|done|done|done|exact H2|].
    split; [exact E1| |exact E2]. unfold loop_current, evaluatePrune.
    change (pr_base (Prune settings)) with (base_of "prune" settings). change (rt_prune st) with (entry "prune" st).
    by rewrite E4.
  - pose proof (endWorker_keeps_schedule ios (sys_db s0) now key due e) as Hs.
    split; [by rewrite (loadSettings_frame _ _ _ (proj1 Hs))| |intros k Hk; by apply same_schedule_order; [|done| |apply H3]].
    unfold loop_current in *. cbn. destruct (sys_loop s0); [done|..].
    + destruct H2 as (? & ? & H2). split_and!; [done|done|]. intros k Hk. rewrite (proj2 Hs k Hk). by apply H2.
    + destruct H2 as (? & ? & H2). split_and!; [done|done|]. rewrite (proj2 Hs) by (right; by left). done.
  - split; [done|done|]. intros k Hk. by apply same_schedule_order; [|done| |apply H3].
Qed.
End once.

(** ** Settings: lemmas *)

(** What is read back: an empty list of weekdays is not written, and the default
    of the schedule takes its place. *)
Definition or_default (wd : list string) (d : list string) : list string := match wd with [] => d | _ => wd end.
Definition reload_base (d : list string) (b : baseSchedule) : baseSchedule :=
  mkBase (Enabled b) (Freq b) (TimeOfDay b) (or_default (Weekdays b) d).
Definition reloaded (s : Settings) : Settings :=
  mkSettings (mkUpdate (reload_base ["sat"] (u_base (Update s))) (Target (Update s)) (Options (Update s)))
             (mkPruneConfig (reload_base ["sun"] (pr_base (Prune s))) (Scope (Prune s))).

Lemma decode_encode_settings s : decode_settings defaultSettings (encode_settings s) = reloaded s.
Proof using.
  destruct s as [[[en fr ti wd] [mode ids ex] [o1 o2 o3 o4 o5 o6]] [[en' fr' ti' wd'] [s1 s2 s3 s4]]].
  unfold reloaded, encode_settings, decode_settings, reload_base. cbn.
  assert (default ∅ (omit_map ex) = ex) as -> by (unfold omit_map; by case_bool_decide).
  by destruct wd, ids, wd'.
Qed.

Lemma reload_due d b last now : validateBaseSchedule b = Ok tt → dueSchedule l (reload_base d b) last now = dueSchedule l b last now.
Proof using.
  intros Hv. unfold dueSchedule. cbn [reload_base Enabled Freq TimeOfDay Weekdays]. destruct (negb (Enabled b)); [done|].
  assert (mostRecentScheduledAt l (Freq b) (TimeOfDay b) (or_default (Weekdays b) d) now =
          mostRecentScheduledAt l (Freq b) (TimeOfDay b) (Weekdays b) now) as ->; [|done].
  destruct (validBase_cases b Hv) as [->|[Hf Hd]]; [apply daily_weekdays|].
  destruct (Weekdays b); [|done]. destruct (Hd 0) as (day & _ & Hin). by apply elem_of_empty in Hin.
Qed.

Lemma saveSettings_load db now s db' : saveSettings None db now s = Ok db' →
  normalizeUpdateConfig (Update s) = Update s → loadSettings None db' = Ok (reloaded s) ∧ app_settings db' !! runtimeKey = app_settings db !! runtimeKey.
Proof using.
  unfold saveSettings, SetAppSetting, driver, from_store. intros [= <-] Hn. split; [|cbn; by rewrite lookup_insert_ne].
  unfold loadSettings, AppSetting, driver, from_store. cbn [app_settings with_settings]. rewrite lookup_insert_eq. cbn [res_bind fmap option_fmap option_map set_value].
  rewrite doc_parse_text, decode_encode_settings. destruct s as [[b t o] [pb sc]]. unfold normalizeUpdateConfig in *. cbn in *.
  injection Hn as Hn. unfold reloaded. cbn. by rewrite Hn.
Qed.

(** The seeded runtime suppresses every occurrence up to the change. *)
Lemma seeded_due b last now now' due : `{CalendarZone l} → well_placed b → now <= now' → last = LastScheduledFor (seededScheduleRuntimeState b now) →
  dueSchedule l b last now' = Some due → now < due.
Proof using.
  intros C [Hv Hu] Hn -> Hd. assert (is_Some (parseTimeOfDay (TimeOfDay b))) as [[h m] Hp].
  { unfold validateBaseSchedule in Hv. by destruct (parseTimeOfDay _). }
  destruct (schedule_consecutive l _ (Hu h m Hp) b now h m Hv Hp eq_refl) as (r & n & Hr & _ & Ho & _ & Hb & Hc).
  destruct (schedule_consecutive l _ (Hu h m Hp) b now' h m Hv Hp eq_refl) as (r' & n' & Hr' & _ & Ho' & _ & Hb' & Hc').
  unfold seededScheduleRuntimeState in Hd. unfold dueSchedule in Hd. rewrite Hr, Hr' in Hd. destruct (Enabled b); [|done]. cbn in Hd.
  destruct (Z.eqb_spec r' r) as [|Hne]; [done|]. destruct (_ <? _); [done|]. injection Hd as <-.
  destruct (Hc r' Ho') as [Hle|]; [|lia]. destruct (Hc' r Ho); lia.
Qed.

(** ** Properties *)

(** in every interleaving of the loop, the workers and changes of the
    settings, a schedule has at most one running worker, and its flag is set
    exactly while it has one. *)
Theorem runs_exclusive db now s : rtc any_step (newSystem db now) s →
  NoDup (wk_key <$> sys_workers s) ∧ ∀ key, default false (sys_running s !! key) = true ↔ key ∈ wk_key <$> sys_workers s.
Proof.
  intros Hr. enough (exclusive s) as [H1 H2] by done. assert (exclusive (newSystem db now)) as H0.
  { split; [constructor|]. intros key. cbn. rewrite elem_of_nil.
    destruct (decide (key = "update")) as [->|]; [by rewrite lookup_insert_eq|rewrite lookup_insert_ne by done].
    destruct (decide (key = "prune")) as [->|]; [by rewrite lookup_singleton_eq|by rewrite lookup_singleton_ne]. }
  revert H0. induction Hr as [|s1 s2 s3 Hs _ IH]; [done|]. intros H0. by eapply IH, any_step_exclusive.
Qed.

(** C6: between two changes of the settings every occurrence of a schedule is
    triggered at most once, in chronological order, in every interleaving of the
    loop and the workers and with any failure of the database, as long as the
    clock does not go back and each time of day of the schedules exists once a day in
    the zone. *)
Theorem occurrence_once `{!CalendarZone l} settings db now s key :
  loadSettings None db = Ok settings → (∀ k, well_placed (base_of k settings)) → key ∈ ["update"; "prune"] →
  rtc sys_step (newSystem db now) s → StronglySorted (λ later earlier, earlier < later) (triggered key (sys_log s)).
Proof.
  intros Hl Hp Hk Hr. enough (once_inv settings s) as [_ _ H] by (by apply H).
  assert (once_inv settings (newSystem db now)) as H0 by (split; [done..|]; intros k _; split; [constructor|done]).
  revert H0. induction Hr as [|s1 s2 s3 Hs _ IH]; [done|]. intros H0. by eapply IH, sys_step_once.
Qed.

(** a schedule that is due and not running is started, when the database
    works: the loop records the occurrence and a worker for it exists. *)
Theorem due_run_starts settings st now s due st0 :
  loadRuntimeState None (sys_db s) = Ok st0 → default false (sys_running s !! "update") = false →
  dueSchedule l (u_base (Update settings)) (LastScheduledFor (rt_update st)) now = Some due →
  let s' := evaluateUpdate (None, None) settings st now s in
  mkWorker "update" due false ∈ sys_workers s' ∧ sys_loop s' = UpdateDone settings st now ∧
  last_scheduled (sys_db s') "update" = Some due ∧ last_scheduled (sys_db s') "prune" = last_scheduled (sys_db s) "prune".
Proof.
  intros Hl Hf Hd. cbn zeta. unfold evaluateUpdate, evaluated, evaluate, tryStart. rewrite Hd, Hf.
  destruct (updateRuntime _ _ _ _ _) as [db'|e] eqn:Hu.
  - apply updateRuntime_Ok in Hu as (st1 & st2 & H1 & H2 & H3 & _). cbn. split_and!; [by left|done|..]; unfold last_scheduled; rewrite H3.
    + by rewrite (mutate_entry_same _ _ _ _ H2).
    + rewrite H1. f_equal. apply (mutate_entry_other "update" _ _ _ "prune" H2); [right; by left|done].
  - unfold updateRuntime in Hu. cbn [fst] in Hu. rewrite Hl in Hu. cbn in Hu. done.
Qed.

(** a change of the settings is rejected as a whole when it is invalid;
    an accepted change is stored in normal form and triggers no occurrence that
    lies before it. *)
Theorem UpdateSettings_spec `{!CalendarZone l} b db now request :
  let settings := mkSettings (normalizeUpdateConfig (Update request)) (normalizePruneConfig (Prune request)) in
  (∀ ios e, validateSettings b settings = Err e → UpdateSettings b ios db now request = (db, Err e)) ∧
  (validateSettings b settings = Ok tt → (∀ key, well_placed (base_of key settings)) →
   let db' := (UpdateSettings b ((None, None), (None, None)) db now request).1 in
   loadSettings None db' = Ok (reloaded settings) ∧
   ∀ key now' due, key ∈ ["update"; "prune"] → now <= now' →
     dueSchedule l (base_of key (reloaded settings)) (last_scheduled db' key) now' = Some due → now < due).
Proof.
  intros settings. split; [intros ios e He; unfold UpdateSettings; fold settings; by rewrite He|]. intros Hv Hp db'.
  assert (normalizeUpdateConfig (Update settings) = Update settings) as Hn by apply normalization_canonical.
  destruct (saveSettings None db now settings) as [db1|] eqn:Es; [|done].
  destruct (saveSettings_load db now settings db1 Es Hn) as [Hl1 _].
  destruct (resetRuntimeState None db1 settings now now) as [db2|] eqn:Er; [|done].
  assert (db' = db2) as ->. { unfold db', UpdateSettings. fold settings. rewrite Hv. cbn [fst snd]. by rewrite Es, Er. }
  unfold resetRuntimeState, SetAppSetting, driver, from_store in Er. injection Er as <-. split.
  - rewrite (loadSettings_frame _ db1); [done|]. cbn. by rewrite lookup_insert_ne.
  - intros key now' due Hk Hnow. unfold last_scheduled. rewrite loadRuntimeState_set. intros Hd.
    list_cases; subst key; unfold base_of, entry, str_eqb in Hd; rewrite ?bool_decide_true, ?bool_decide_false in Hd by done; cbn in Hd;
      rewrite reload_due in Hd by (apply (Hp "update") || apply (Hp "prune"));
      [apply (seeded_due _ _ now now' due _ (Hp "update")) in Hd|apply (seeded_due _ _ now now' due _ (Hp "prune")) in Hd]; done.
Qed.

(** the end of a run is recorded for its own schedule only: the state of its
    job, "skipped" for a resource conflict, "failed" with the message of any
    other error, and an audit entry exactly for the last two. *)
Theorem finalize_records db st now key due job err :
  loadRuntimeState None db = Ok st → key ∈ ["update"; "prune"] →
  let r := finalizeScheduledRun (None, None) db now key due job err in
  ∃ st', loadRuntimeState None r.1 = Ok st' ∧
    (∀ k, k ∈ ["update"; "prune"] → k ≠ key → entry k st' = entry k st) ∧
    LastScheduledFor (entry key st') = LastScheduledFor (entry key st) ∧
    match err, rj_id job with
    | Some ResourceConflict, id => LastResult (entry key st') = "skipped" ∧ LastJobID (entry key st') = id ∧ length r.2 = 1%nat
    | Some (RunFailed m), id => LastResult (entry key st') = "failed" ∧ LastMessage (entry key st') = m ∧ LastJobID (entry key st') = id ∧ length r.2 = 1%nat
    | None, EmptyString => LastResult (entry key st') = "failed" ∧ length r.2 = 1%nat
    | None, id => LastResult (entry key st') = rj_state job ∧ LastMessage (entry key st') = rj_error job ∧ LastJobID (entry key st') = id ∧ r.2 = []
    end.
Proof.
  intros Hl Hk. cbn zeta. unfold finalizeScheduledRun. destruct (run_outcome job err) as [[[result message] jobID] e] eqn:Eo.
  destruct (updateRuntime _ _ _ _ _) as [db'|e'] eqn:Hu.
  2:{ exfalso. unfold updateRuntime in Hu. cbn [fst] in Hu. rewrite Hl in Hu. cbn in Hu.
      unfold mutate_entry, str_eqb in Hu. list_cases; subst key; done. }
  apply updateRuntime_Ok in Hu as (st1 & st' & H1 & H2 & H3 & _). assert (st1 = st) as -> by congruence.
  exists st'. cbn [fst snd written]. split; [done|]. split; [intros k Hkk Hne; by apply (mutate_entry_other _ _ _ _ _ H2)|].
  rewrite (mutate_entry_same _ _ _ _ H2). cbn [record_result LastScheduledFor LastResult LastMessage LastJobID]. split; [done|].
  unfold run_outcome in Eo. destruct job as [id state error]. cbn [rj_id rj_state rj_error] in *.
  destruct id; cbn in Eo; destruct err as [[|m]|]; injection Eo as <- <- <- <-; done.
Qed.
End service.

(** ** Concrete runs *)

#[local] Existing Instance countable_text.

#[local] Instance runtimeState_eq_dec : EqDecision runtimeState.
Proof. solve_decision. Defined.
#[local] Program Instance runtimeState_countable : Countable runtimeState :=
  let f (r : scheduleRuntimeState) := (LastTriggeredAt r, LastScheduledFor r, LastResult r, LastMessage r, LastJobID r) in
  let g (p : option Time * option Time * string * string * string) := let '(t, s, r, m, j) := p in mkRuntime t s r m j in
  inj_countable' (λ s, (f (rt_update s), f (rt_prune s))) (λ p, mkRuntimeState (g p.1) (g p.2)) _.
Next Obligation. intros f g [[] []]. reflexivity. Qed.

#[local] Instance settingsDoc_eq_dec : EqDecision settingsDoc.
Proof.
  assert (EqDecision baseDoc) by solve_decision. assert (EqDecision targetDoc) by solve_decision.
  assert (EqDecision optionsDoc) by solve_decision. assert (EqDecision scopeDoc) by solve_decision. solve_decision.
Defined.
#[local] Program Instance settingsDoc_countable : Countable settingsDoc :=
  let f (b : baseDoc) := (bd_enabled b, bd_frequency b, bd_time b, bd_weekdays b) in
  let g (p : option bool * option string * option string * option (list string)) := let '(e, q, t, w) := p in mkBaseDoc e q t w in
  inj_countable'
    (λ d, let '(ub, t, o) := doc_update d in let '(pb, c) := doc_prune d in
       (f ub, (td_mode t, td_stack_ids t, td_excluded t),
        (od_pull o, od_build o, od_orphans o, od_inactive o, od_prune o, od_volumes o),
        f pb, (sd_images c, sd_cache c, sd_containers c, sd_volumes c)))
    (λ '(ub, (m, i, x), (o1, o2, o3, o4, o5, o6), pb, (c1, c2, c3, c4)),
       mkSettingsDoc (g ub, mkTargetDoc m i x, mkOptionsDoc o1 o2 o3 o4 o5 o6) (g pb, mkScopeDoc c1 c2 c3 c4)) _.
Next Obligation. intros f g [[[[] []] []] [[] []]]. reflexivity. Qed.

#[local] Instance demoExclusions : MapRange string (list string) := default_range string (list string).

Definition demoBackend : backend := mkBackend (λ _ ids, Ok ids) (λ _, Ok ["api"]) (Ok ["web"]).
Definition emptyDB : DB := mkDB None ∅ ∅ ∅ ∅ ∅ ∅ ∅.

(** The default settings with both schedules enabled. *)
Definition demoEnabled (b : baseSchedule) : baseSchedule := mkBase true (Freq b) (TimeOfDay b) (Weekdays b).
Definition demoSettings : Settings :=
  mkSettings (mkUpdate (demoEnabled (u_base (Update defaultSettings))) (Target (Update defaultSettings)) (Options (Update defaultSettings)))
    (mkPruneConfig (demoEnabled (pr_base (Prune defaultSettings))) (Scope (Prune defaultSettings))).

Lemma demoEurope_unaffected_0430 : unaffected demoEurope (time_of_day 4 30).
Proof.
  split; [by vm_compute|]. intros day. unfold local_tod, wall_of. rewrite demoEurope_date, demoEurope_offset. cbn zeta.
  unfold unix, time_of_day, Day, Hour, Minute, Second. repeat case_match; boolify; lia.
Qed.

Lemma demo_placed key : well_placed demoEurope (base_of key demoSettings).
Proof.
  unfold base_of. destruct (str_eqb key "update"); (split; [by vm_compute|]); intros h m Hp; vm_compute in Hp; injection Hp as <- <-.
  - exact demoEurope_unaffected.
  - exact demoEurope_unaffected_0430.
Qed.

(** Saved on Saturday at noon; the loop runs on Sunday at 05:00. *)
Definition demoSaved : DB := (UpdateSettings demoEurope demoBackend ((None, None), (None, None)) emptyDB demoSaturday demoSettings).1.
Definition demoStart : system := newSystem demoSaved demoSaturday.

Lemma demo_normal : mkSettings (normalizeUpdateConfig (Update demoSettings)) (normalizePruneConfig (Prune demoSettings)) = demoSettings.
Proof. vm_compute. reflexivity. Qed.

Lemma demo_valid : validateSettings demoBackend demoSettings = Ok tt.
Proof. vm_compute. reflexivity. Qed.

Lemma UpdateSettings_spec_witness :
  loadSettings None demoSaved = Ok (reloaded demoSettings) ∧
  ∀ now' due, demoSaturday <= now' →
    dueSchedule demoEurope (base_of "prune" (reloaded demoSettings)) (last_scheduled demoSaved "prune") now' = Some due → demoSaturday < due.
Proof.
  pose proof (UpdateSettings_spec demoEurope demoBackend emptyDB demoSaturday demoSettings) as [_ H].
  rewrite demo_normal in H. destruct (H demo_valid demo_placed) as [H1 H2].
  split; [exact H1|]. intros now' due Hn. apply (H2 "prune" now' due); [right; left|exact Hn].
Defined.

Definition demoRuntime : runtimeState :=
  mkRuntimeState (mkRuntime None (Some (1711765800 * Second)) "" "" "") (mkRuntime None (Some (1711251000 * Second)) "" "" "").
Definition demoS1 : system :=
  mkSystem (sys_db demoStart) (sys_running demoStart) (sys_workers demoStart) (loadDue (None, None) (sys_db demoStart) demoSunday) demoSunday (sys_log demoStart).
Definition demoS2 : system := evaluateUpdate demoEurope (None, None) demoSettings demoRuntime demoSunday demoS1.
Definition demoS3 : system := evaluatePrune demoEurope (None, None) demoSettings demoRuntime demoSunday demoS2.

Lemma demo_loaded : loadDue (None, None) demoSaved demoSunday = Loaded demoSettings demoRuntime demoSunday.
Proof. vm_compute. reflexivity. Qed.

Lemma evaluated_loop l ios key b r now next s : sys_loop (evaluated l ios key b r now next s) = next.
Proof. unfold evaluated. by destruct (evaluate _ _ _ _ _ _ _ _) as [[db running] [due|]]. Qed.

Lemma demo_reached : rtc (sys_step demoEurope) demoStart demoS3.
Proof.
  eapply rtc_l; [exact (step_load demoEurope demoStart (None, None) demoSunday eq_refl ltac:(discriminate))|]. fold demoS1.
  eapply rtc_l; [apply (step_update demoEurope demoS1 (None, None) demoSettings demoRuntime demoSunday), demo_loaded|]. fold demoS2.
  eapply rtc_l; [apply (step_prune demoEurope demoS2 (None, None) demoSettings demoRuntime demoSunday), evaluated_loop|]. apply rtc_refl.
Qed.

(** The run of Sunday 04:30 is triggered and recorded. *)
Lemma demo_log : sys_log demoS3 = [("prune", 1711852200 * Second)].
Proof. vm_compute. reflexivity. Qed.

Lemma demo_load : loadSettings None demoSaved = Ok demoSettings.
Proof. vm_compute. reflexivity. Qed.

Lemma runs_exclusive_witness : NoDup (wk_key <$> sys_workers demoS3).
Proof.
  refine (proj1 (runs_exclusive demoEurope demoSaved demoSaturday demoS3 _)).
  generalize demo_reached. apply rtc_subrel. intros s s' H. left. exact H.
Defined.

Lemma occurrence_once_witness : StronglySorted (λ later earlier, earlier < later) (triggered "prune" (sys_log demoS3)).
Proof.
  apply (occurrence_once demoEurope demoSettings demoSaved demoSaturday demoS3 "prune" demo_load demo_placed); [right; left|].
  exact demo_reached.
Defined.

Lemma demo_due : dueSchedule demoEurope (u_base (Update demoSettings)) (LastScheduledFor (rt_update zeroRuntimeState)) (demoSaturday - 7 * Hour)
  = Some (1711765800 * Second).
Proof. vm_compute. reflexivity. Qed.

Lemma due_run_starts_witness :
  mkWorker "update" (1711765800 * Second) false ∈
    sys_workers (evaluateUpdate demoEurope (None, None) demoSettings zeroRuntimeState (demoSaturday - 7 * Hour) (newSystem emptyDB demoSaturday)).
Proof.
  exact (proj1 (due_run_starts demoEurope demoSettings zeroRuntimeState (demoSaturday - 7 * Hour) (newSystem emptyDB demoSaturday)
    (1711765800 * Second) zeroRuntimeState eq_refl eq_refl demo_due)).
Defined.

Lemma finalize_records_witness : ∃ st',
  loadRuntimeState None (finalizeScheduledRun (None, None) demoSaved demoSunday "prune" (1711852200 * Second) (mkRunJob "" "" "") (Some ResourceConflict)).1 = Ok st' ∧
  LastResult (entry "prune" st') = "skipped".
Proof.
  assert (loadRuntimeState None demoSaved = Ok demoRuntime) as H by (vm_compute; reflexivity).
  destruct (finalize_records demoSaved demoRuntime demoSunday "prune" (1711852200 * Second) (mkRunJob "" "" "") (Some ResourceConflict) H)
    as (st' & H1 & _ & _ & H2 & _); [right; left|].
  exact (ex_intro _ st' (conj H1 H2)).
Defined.
