(* ===== verification/BackupProtection.v ===== *)
(** * internal/backup: what protects a plan's data (health.go, inventory.go)

    [protectionLocked] derives the protection of each copy from its checkpoint,
    the repository's evidence, the schedule and the latest attempts;
    [reconcileInventory], cut at the point where the mutex is released into
    [inspectInventory] and [commitInventory], refreshes the checkpoints from a
    repository inventory.  restic, the digest of a selection and the zone database
    are parameters. *)

From stdpp Require Import gmap strings list sorting relations.
From Stdlib Require Import Ascii ZArith.
From S2P Require Import Prelude GoStrings GoTime BackupSchedule BackupEvidence BackupState BackupRetention.

Local Open Scope Z_scope.

(** ** Data *)

Record CopyProtection := mkCopyProtection {
  pc_activity : string; pc_destination : string; pc_state : string; pc_last_capture : option Time;
  pc_last_uploaded : option Time; pc_snapshot : string; pc_next_run : option Time; pc_due : option Time;
  pc_first_outstanding : option Time; pc_overdue_since : option Time; pc_last_run : string; pc_last_error : string;
  pc_usable : bool; pc_snapshot_status : string; pc_snapshot_checked : option Time; pc_integrity : string;
  pc_availability : string; pc_restore_test : option Time }.

Record PlanProtection := mkPlanProtection {
  pp_activity : string; pp_plan : string; pp_name : string; pp_state : string; pp_expected : Z; pp_current : Z;
  pp_last_capture : option Time; pp_next_run : option Time; pp_latest_run : string; pp_copies : list CopyProtection }.

Definition or_unknown (s : string) : string := if str_empty s then "unknown" else s.

Definition automatic (a : Assignment) : bool := negb (str_in (Frequency (AssignmentSchedule a)) ["manual"; ""]).

(** ** The protection of a copy *)

Section protection.
Context (zoneinfo : string → option Location) (Local : Location) (digest : string * list Source → string).
Context `{!MapRange string (Run * Plan), !MapRange string Plan, !MapRange string Destination, !MapRange string copyCheckpoint}.

(** By schedule: an automatic copy is overdue when it is older than the latest occurrence. *)
Definition scheduledState (a : Assignment) (cp : option copyCheckpoint) (due : option Time) : string :=
  match cp with
  | None => "unprotected"
  | Some cp =>
    if negb (automatic a) then "manual"
    else match due with Some due => if before (cp_captured_at cp) due then "overdue" else "current" | None => "current" end
  end.

(** The reasons why a checkpoint proves nothing at present, with a message. *)
Definition evidenceState (now : Time) (a : Assignment) (d : Destination) (cp : copyCheckpoint) (st : string) : string * string :=
  if future now (cp_captured_at cp) || match LastScheduledAt a with Some t => future now t | None => false end
  then ("clock_skew", "The host clock moved backwards; this recovery point cannot establish current protection.")
  else if str_eqb (cp_status cp) "missing" then ("missing", "")
  else if str_eqb (CheckStatus d) "failed" then ("integrity_failed", CheckError d)
  else match CheckHolds d with
  | Some hold =>
    ("unverified", "Repository check requires review before this recovery evidence can be used." +:+
                   (if str_empty (hold_error hold) then "" else " " +:+ hold_error hold))
  | None =>
    if str_eqb (d_status d) "error" then ("unavailable", d_error d)
    else if negb (str_empty (InventoryError d)) then ("unverified", InventoryError d)
    else match cp_checked_at cp with
    | None => ("unverified", "")
    | Some checked =>
      if negb (str_eqb (cp_verification cp) recoveryObjectsVerified) then ("unverified", "")
      else if future now checked then ("clock_skew", "")
      else if Day <? now - checked then ("unverified", "")
      else (st, "")
    end
  end.

Definition copyState (now : Time) (plan : Plan) (a : Assignment) (d : Destination) (cp : option copyCheckpoint) (due : option Time) : string * string :=
  let st := scheduledState a cp due in
  match cp with
  | None => (st, "")
  | Some cp => evidenceState now a d cp (if str_eqb (cp_selection cp) (selectionFingerprint digest plan) then st else "outdated")
  end.

Definition active_state (st : string) : bool := str_in st ["running"; "queued"].

(** The runs of a plan with their copies at a destination. *)
Definition attemptsAt (s : state) (planID dID : string) : list (Run * CopyResult) :=
  r ← (λ e : string * (Run * Plan), e.2.1) <$> range_list (Runs s);
  if str_eqb (run_plan r) planID then (λ c, (r, c)) <$> List.filter (λ c, str_eqb (c_destination c) dID) (run_copies r) else [].

Definition nextActivity (activity : string) (rc : Run * CopyResult) : string :=
  if negb (active_state (run_state rc.1)) then activity
  else if str_eqb (c_state rc.2) "running" || str_eqb (c_retention rc.2) "running" || str_eqb (run_capture_state rc.1) "running" then "running"
  else if copyWorkPending rc.2 && str_eqb activity "idle" then "queued" else activity.

Definition nextAttempt (now : Time) (completed : Run → CopyResult → option copyAttempt) (latest : option copyAttempt) (rc : Run * CopyResult) : option copyAttempt :=
  match completed rc.1 rc.2, latest with
  | None, _ => latest
  | Some c, None => Some c
  | Some c, Some p => if newerCopyAttempt c p now then Some c else latest
  end.

Definition attempt_error (a : option copyAttempt) : string := match a with Some a => at_error a | None => "" end.

(** One assignment, before a disabled one is shown as such. *)
Definition protectCopy (now : Time) (grace : Duration) (s : state) (plan : Plan) (a : Assignment) : CopyProtection :=
  let d := default zeroDestination (Destinations s !! DestinationID a) in
  let key := checkpointKey (p_id plan) (DestinationID a) in
  let cp := CopyCheckpoints s !! key in
  let captured := cp_captured_at <$> cp in
  let due := if automatic a then latestDue zoneinfo Local (AssignmentSchedule a) now else None in
  let next := if automatic a then match PreviewSchedule zoneinfo Local (AssignmentSchedule a) now 1 with Ok (t :: _) => Some t | _ => None end else None in
  let outstanding := if automatic a && p_enabled plan && AssignmentEnabled a
                     then firstOutstandingDue zoneinfo Local a captured now grace else None in
  let overdue := match outstanding with Some due => if before now (due + grace) then None else Some (due + grace) | None => None end in
  let integrity := or_unknown (CheckStatus d) in
  let '(st, err) := copyState now plan a d cp due in
  let attempts := attemptsAt s (p_id plan) (DestinationID a) in
  let attempt := fold_left (nextAttempt now completedCopyAttempt) attempts (CopyAttempts s !! key) in
  let maintenance := fold_left (nextAttempt now completedMaintenanceAttempt) attempts (MaintenanceAttempts s !! key) in
  let status := match cp with Some cp => or_unknown (cp_status cp) | None => "unknown" end in
  let err := if str_empty err then attempt_error attempt else err in
  let err := if str_empty err then attempt_error maintenance else err in
  mkCopyProtection (fold_left nextActivity attempts "idle") (DestinationID a) st captured (cp ≫= cp_uploaded_at)
    (match cp with Some cp => cp_snapshot cp | None => "" end) next due outstanding overdue
    (match attempt, cp with Some a, _ => at_run a | None, Some cp => cp_run cp | None, None => "" end) err
    (is_some cp && str_eqb status "present" && str_in st ["current"; "manual"; "overdue"])
    status (cp ≫= cp_checked_at)
    (if is_some (CheckHolds d) && negb (str_eqb integrity "failed") then "unverified" else integrity)
    (or_unknown (d_status d))
    (match cp with Some cp => restoreTestedAtLocked s d (cp_snapshot cp) | None => None end).

Definition disabledCopy (c : CopyProtection) : CopyProtection :=
  mkCopyProtection (pc_activity c) (pc_destination c) "disabled" (pc_last_capture c) (pc_last_uploaded c) (pc_snapshot c) None None
    (pc_first_outstanding c) (pc_overdue_since c) (pc_last_run c) (pc_last_error c) (pc_usable c) (pc_snapshot_status c)
    (pc_snapshot_checked c) (pc_integrity c) (pc_availability c) (pc_restore_test c).

Definition counted (plan : Plan) (a : Assignment) : bool := p_enabled plan && AssignmentEnabled a.
Definition good_state (st : string) : bool := str_in st ["current"; "manual"].
Definition needsAttention (c : CopyProtection) : bool := negb (good_state (pc_state c)) || negb (str_empty (pc_last_error c)).

Definition later (a : option Time) (b : option Time) : option Time :=
  match a, b with Some t, Some u => if before t u then Some u else Some t | None, _ => b | _, None => a end.
Definition earlier (a : option Time) (b : option Time) : option Time :=
  match a, b with Some t, Some u => if after t u then Some u else Some t | None, _ => b | _, None => a end.

(** What the loop over the assignments accumulates. *)
Record planProgress := mkPlanProgress {
  pg_expected : Z; pg_current : Z; pg_last_capture : option Time; pg_next_run : option Time; pg_copies : list CopyProtection;
  pg_all_manual : bool; pg_attention : bool }.

Definition protectNext (now : Time) (grace : Duration) (s : state) (plan : Plan) (g : planProgress) (a : Assignment) : planProgress :=
  let c := protectCopy now grace s plan a in
  let usable := pc_usable c && good_state (pc_state c) in
  mkPlanProgress (if counted plan a then pg_expected g + 1 else pg_expected g)
    (if counted plan a && usable then pg_current g + 1 else pg_current g)
    (later (pg_last_capture g) (pc_last_capture c))
    (if counted plan a then earlier (pg_next_run g) (pc_next_run c) else pg_next_run g)
    (pg_copies g ++ [if counted plan a then c else disabledCopy c])
    (pg_all_manual g && negb (automatic a && AssignmentEnabled a))
    (pg_attention g || (counted plan a && needsAttention c)).

Definition planActivity (s : state) (planID : string) : string :=
  fold_left (λ activity e, let r := e.2.1 in
    if str_eqb (run_plan r) planID && (str_eqb (run_state r) "running" || (str_eqb (run_state r) "queued" && str_eqb activity "idle"))
    then run_state r else activity) (range_list (Runs s)) "idle".

Definition latestRun (now : Time) (s : state) (planID : string) : option Run :=
  fold_left (λ latest e, let r := e.2.1 in
    if str_eqb (run_plan r) planID && match latest with None => true | Some p => newerRun r p now end then Some r else latest)
    (range_list (Runs s)) None.

Definition protectionLocked (now : Time) (grace : Duration) (s : state) (plan : Plan) : PlanProtection :=
  let g := fold_left (protectNext now grace s plan) (p_destinations plan) (mkPlanProgress 0 0 None None [] true false) in
  let off := negb (p_enabled plan) || (pg_expected g =? 0) in
  let st := if off then "disabled"
            else if (pg_current g =? 0) && negb (is_some (pg_last_capture g)) then "unprotected"
            else if pg_attention g then "attention"
            else if pg_all_manual g then "manual" else "healthy" in
  mkPlanProtection (planActivity s (p_id plan)) (p_id plan) (p_name plan) st (pg_expected g) (pg_current g) (pg_last_capture g)
    (if off then None else pg_next_run g) (match latestRun now s (p_id plan) with Some r => run_id r | None => "" end) (pg_copies g).

(** ** The inventory of a repository *)

Definition with_inventory (d : Destination) (status error inventoryError : string) (at_ attempt : option Time) : Destination :=
  mkDestination (d_id d) (d_name d) (d_kind d) (d_repository d) (MetadataCheck d) (DataCheck d) (CheckHolds d)
    (MaintenanceReviewToken d) (LastCheckAttemptAt d) (LastCheckAttemptPolicy d) (LastCheckAttemptStatus d)
    (LastCheckAttemptError d) (LastCheckAt d) (LastCheckPolicy d) (CheckStatus d) (CheckError d) (CheckSchedule d) (PruneSchedule d)
    (CheckReadData d) (LastCheckScheduledAt d) (LastPruneScheduledAt d) (LastRestoreTestAt d)
    (LastRestoreTestSnapshotID d) status error inventoryError at_ attempt (LastSuccessAt d) (ExpectedFilesystem d) (Region d) (CredentialsConfigured d).

Definition with_destinations (s : state) m := mkState (SnapshotClassifications s) (RetentionCursors s) (CopyAttempts s) (MaintenanceAttempts s)
  (VerifiedSnapshots s) (RestoreTests s) (CopyCheckpoints s) (InstanceID s) m (Plans s) (Runs s).

(** One checkpoint against the ids of the inventory; [verify] is [verifySavedSnapshot]. *)
Definition inspectCheckpoint (now : Time) (present : gset string) (verify : string → option verify_error) (cp : copyCheckpoint) : copyCheckpoint :=
  let '(status, verification) :=
    if negb (bool_decide (cp_snapshot cp ∈ present)) then ("missing", cp_verification cp)
    else if str_eqb (cp_verification cp) recoveryObjectsVerified then ("present", cp_verification cp)
    else match verify (cp_snapshot cp) with None => ("present", recoveryObjectsVerified) | Some _ => ("unknown", cp_verification cp) end in
  mkCheckpoint (cp_captured_at cp) (cp_uploaded_at cp) (cp_snapshot cp) (cp_run cp) (cp_selection cp) verification status (Some now).

(** The checkpoints of the destination, read under the mutex, inspected without it. *)
Definition inspectInventory (now : Time) (d : Destination) (present : gset string) (verify : string → option verify_error) (s : state) : gmap string copyCheckpoint :=
  inspectCheckpoint now present verify <$> filter (λ e, has_suffix e.1 ("/" +:+ d_id d) = true) (CopyCheckpoints s).

(** A checkpoint that names another snapshot meanwhile is left alone. *)
Definition commitCheckpoint (m : gmap string copyCheckpoint) (e : string * copyCheckpoint) : gmap string copyCheckpoint :=
  let current := match m !! e.1 with Some current => cp_snapshot current | None => "" end in
  if str_eqb current (cp_snapshot e.2) then <[e.1 := e.2]> m else m.

Definition commitInventory (now : Time) (dID : string) (inspected : gmap string copyCheckpoint) (s : state) : state :=
  let s := with_checkpoints s (fold_left commitCheckpoint (range_list inspected) (CopyCheckpoints s)) in
  let d := default zeroDestination (Destinations s !! dID) in
  with_destinations s (<[dID := with_inventory d "available" "" "" (Some now) (Some now)]> (Destinations s)).

Definition recordInventoryError (now : Time) (dID message : string) (s : state) : state :=
  match Destinations s !! dID with
  | None => s
  | Some d => with_destinations s (<[dID := with_inventory d (d_status d) (d_error d) ("Repository inventory could not be refreshed: " +:+ message)
                                             (LastInventoryAt d) (Some now)]> (Destinations s))
  end.

(** [refreshInventories]: the destinations whose inventory is due. *)
Definition staleAt (now : Time) (t : option Time) (age : Duration) : bool :=
  match t with None => true | Some t => future now t || (age <=? now - t) end.

Definition inventoryDue (now : Time) (d : Destination) : bool :=
  staleAt now (LastInventoryAt d) Hour && staleAt now (LastInventoryAttemptAt d) (5 * Minute).

Definition dueInventories (now : Time) (s : state) : list string :=
  fst <$> List.filter (λ e, inventoryDue now e.2) (range_list (Destinations s)).
End protection.

(** ** The protection of a copy: lemmas *)

(** What the repository's evidence allows. *)
Definition repository_trusted (d : Destination) : Prop :=
  CheckStatus d ≠ "failed" ∧ CheckHolds d = None ∧ d_status d ≠ "error" ∧ InventoryError d = "".

Lemma future_false now t : future now t = false ↔ t <= now + clockSkewTolerance.
Proof. unfold future, after. rewrite Z.ltb_ge. lia. Qed.

Lemma scheduled_future now a :
  match LastScheduledAt a with Some t => future now t | None => false end = false ↔
  ∀ t, LastScheduledAt a = Some t → t <= now + clockSkewTolerance.
Proof. destruct (LastScheduledAt a) as [t|]; [rewrite future_false|]; naive_solver. Qed.

(** The states that count as evidence are those the checks let through. *)
Local Ltac not_good := split; [cbn; intros ?; list_cases; discriminate|naive_solver].

Lemma evidenceState_good now a d cp st : st ∈ ["current"; "manual"; "overdue"; "outdated"] →
  (evidenceState now a d cp st).1 ∈ ["current"; "manual"; "overdue"] ↔
  st ≠ "outdated" ∧ cp_verification cp = recoveryObjectsVerified ∧ cp_status cp ≠ "missing" ∧
  (∃ checked, cp_checked_at cp = Some checked ∧ checked <= now + clockSkewTolerance ∧ now <= checked + Day) ∧
  cp_captured_at cp <= now + clockSkewTolerance ∧ (∀ t, LastScheduledAt a = Some t → t <= now + clockSkewTolerance) ∧
  repository_trusted d.
Proof.
  intros Hst. rewrite <- (scheduled_future now a), <- (future_false now (cp_captured_at cp)). unfold evidenceState, repository_trusted.
  destruct (future now (cp_captured_at cp)); cbn [orb]; [not_good|].
  destruct (match LastScheduledAt a with Some t => future now t | None => false end); [not_good|].
  unfold str_empty, str_eqb.
  destruct (bool_decide_reflect (cp_status cp = "missing")); [not_good|].
  destruct (bool_decide_reflect (CheckStatus d = "failed")); [not_good|].
  destruct (CheckHolds d); [not_good|].
  destruct (bool_decide_reflect (d_status d = "error")); [not_good|].
  destruct (bool_decide_reflect (InventoryError d = "")); cbn [negb]; [|not_good].
  destruct (cp_checked_at cp) as [checked|]; [|not_good].
  destruct (bool_decide_reflect (cp_verification cp = recoveryObjectsVerified)); cbn [negb]; [|not_good].
  destruct (future now checked) eqn:Ef; [split; [cbn; intros ?; list_cases; discriminate|]|].
  { intros (_ & _ & _ & (? & [= <-] & H & _) & _). rewrite <- future_false in H. congruence. }
  apply future_false in Ef. destruct (Z.ltb_spec Day (now - checked)); [split; [cbn; intros ?; list_cases; discriminate|]|].
  { intros (_ & _ & _ & (? & [= <-] & _ & H') & _). lia. }
  cbn [fst]. split; [intros Hin|intros (Hne & _); revert Hst Hne; clear; set_solver]. split; [intros ->; list_cases; discriminate|].
  split; [done|]. split; [done|]. split; [|done]. exists checked. split_and!; [done|done|lia].
Qed.
Lemma evidenceState_same now a d cp st : (evidenceState now a d cp st).1 ∈ ["current"; "manual"; "overdue"] → (evidenceState now a d cp st).1 = st.
Proof.
  unfold evidenceState. repeat (case_match; [cbn; intros ?; list_cases; discriminate|]).
  repeat case_match; cbn; intros ?; list_cases; try discriminate; done.
Qed.

(** What the writers of checkpoints maintain: a verified and checked checkpoint
    says whether its snapshot is there. *)
Definition checkpoint_ok (cp : copyCheckpoint) : Prop :=
  cp_verification cp = recoveryObjectsVerified → is_Some (cp_checked_at cp) → cp_status cp ∈ ["present"; "missing"].
Definition checkpoints_ok (s : state) : Prop := map_Forall (λ _, checkpoint_ok) (CopyCheckpoints s).

Section protection_lemmas.
Context (zoneinfo : string → option Location) (Local : Location) (digest : string * list Source → string).
Context `{!MapRange string (Run * Plan)}.

(** What has to hold of a checkpoint for it to prove that the data is there. *)
Record proves (now : Time) (s : state) (plan : Plan) (a : Assignment) (cp : copyCheckpoint) : Prop := {
  pr_saved : CopyCheckpoints s !! checkpointKey (p_id plan) (DestinationID a) = Some cp;
  pr_selection : cp_selection cp = selectionFingerprint digest plan;
  pr_verified : cp_verification cp = recoveryObjectsVerified;
  pr_present : cp_status cp = "present";
  pr_checked : ∃ checked, cp_checked_at cp = Some checked ∧ checked <= now + clockSkewTolerance ∧ now <= checked + Day;
  pr_captured : cp_captured_at cp <= now + clockSkewTolerance;
  pr_scheduled : ∀ t, LastScheduledAt a = Some t → t <= now + clockSkewTolerance;
  pr_repository : repository_trusted (default zeroDestination (Destinations s !! DestinationID a)) }.

Implicit Types (now : Time) (grace : Duration) (s : state) (plan : Plan) (a : Assignment).

Lemma protectCopy_state now grace s plan a :
  pc_state (protectCopy zoneinfo Local digest now grace s plan a) =
  (copyState digest now plan a (default zeroDestination (Destinations s !! DestinationID a))
     (CopyCheckpoints s !! checkpointKey (p_id plan) (DestinationID a))
     (if automatic a then latestDue zoneinfo Local (AssignmentSchedule a) now else None)).1.
Proof using. unfold protectCopy. by destruct (copyState _ _ _ _ _ _ _). Qed.

Lemma protectCopy_saved now grace s plan a :
  let c := protectCopy zoneinfo Local digest now grace s plan a in
  pc_last_capture c = cp_captured_at <$> CopyCheckpoints s !! checkpointKey (p_id plan) (DestinationID a) ∧
  pc_snapshot_status c = match CopyCheckpoints s !! checkpointKey (p_id plan) (DestinationID a) with
                         | Some cp => or_unknown (cp_status cp) | None => "unknown" end ∧
  pc_usable c = is_some (CopyCheckpoints s !! checkpointKey (p_id plan) (DestinationID a))
                && str_eqb (pc_snapshot_status c) "present" && str_in (pc_state c) ["current"; "manual"; "overdue"] ∧
  pc_destination c = DestinationID a.
Proof using. unfold protectCopy. by destruct (copyState _ _ _ _ _ _ _). Qed.

(** The overdue time is reported with the occurrence it follows. *)
Lemma protectCopy_overdue now grace s plan a :
  let c := protectCopy zoneinfo Local digest now grace s plan a in
  pc_overdue_since c = match pc_first_outstanding c with
                       | Some due => if before now (due + grace) then None else Some (due + grace) | None => None end ∧
  pc_first_outstanding c = if automatic a && p_enabled plan && AssignmentEnabled a
    then firstOutstandingDue zoneinfo Local a (pc_last_capture c) now grace else None.
Proof using. unfold protectCopy. by destruct (copyState _ _ _ _ _ _ _). Qed.

Lemma scheduledState_cases a cp due : scheduledState a (Some cp) due ∈ ["current"; "manual"; "overdue"; "outdated"].
Proof using.
  unfold scheduledState. destruct (negb (automatic a)); [set_solver|]. destruct due as [due|]; [|set_solver].
  destruct (before _ _); set_solver.
Qed.

Lemma or_unknown_present st : or_unknown st = "present" ↔ st = "present".
Proof using.
  unfold or_unknown, str_empty, str_eqb. destruct (bool_decide_reflect (st = "")) as [->|]; [|done]. split; discriminate.
Qed.

Lemma evidence_good_iff now plan a d cp due :
  (copyState digest now plan a d (Some cp) due).1 ∈ ["current"; "manual"; "overdue"] ↔
  cp_selection cp = selectionFingerprint digest plan ∧ cp_verification cp = recoveryObjectsVerified ∧ cp_status cp ≠ "missing" ∧
  (∃ checked, cp_checked_at cp = Some checked ∧ checked <= now + clockSkewTolerance ∧ now <= checked + Day) ∧
  cp_captured_at cp <= now + clockSkewTolerance ∧ (∀ t, LastScheduledAt a = Some t → t <= now + clockSkewTolerance) ∧
  repository_trusted d.
Proof using.
  unfold copyState. pose proof (scheduledState_cases a cp due) as Hst.
  assert (scheduledState a (Some cp) due ≠ "outdated") as Hno.
  { unfold scheduledState. destruct (negb _); [discriminate|]. destruct due; [|discriminate]. destruct (before _ _); discriminate. }
  unfold str_eqb. destruct (bool_decide_reflect (cp_selection cp = selectionFingerprint digest plan)).
  - rewrite evidenceState_good by done. naive_solver.
  - rewrite evidenceState_good by set_solver. naive_solver.
Qed.

(** A copy's evidence is usable exactly when a checkpoint proves that the data is there. *)
Lemma usable_proves now grace s plan a :
  pc_usable (protectCopy zoneinfo Local digest now grace s plan a) = true ↔ ∃ cp, proves now s plan a cp.
Proof using.
  destruct (protectCopy_saved now grace s plan a) as (_ & Hs & -> & _). rewrite protectCopy_state, Hs.
  destruct (CopyCheckpoints s !! _) as [cp|] eqn:Ek; cbn [is_some andb]; [|split; [done|intros (? & [? _]); congruence]].
  rewrite andb_true_iff. unfold str_eqb, str_in. rewrite !bool_decide_eq_true, or_unknown_present, evidence_good_iff. split.
  - intros (? & ? & ? & ? & ? & ? & ? & ?). by exists cp.
  - intros (cp' & [H1 ? ? H4 ? ? ? ?]). rewrite Ek in H1. injection H1 as <-. split_and!; try done. by rewrite H4.
Qed.

(** A copy that is protected: proven, and as new as the schedule asks. *)
Definition protected now s plan a : Prop :=
  ∃ cp, proves now s plan a cp ∧
    (automatic a = true → ∀ due, latestDue zoneinfo Local (AssignmentSchedule a) now = Some due → due <= cp_captured_at cp).

Lemma scheduledState_good a cp due : good_state (scheduledState a (Some cp) due) = true ↔
  (automatic a = true → ∀ t, due = Some t → t <= cp_captured_at cp).
Proof using.
  unfold scheduledState. destruct (automatic a); cbn [negb]; [|done].
  destruct due as [due|]; [|split; [done|]; intros _; reflexivity]. unfold before. destruct (Z.ltb_spec (cp_captured_at cp) due).
  - split; [done|]. intros H'. specialize (H' eq_refl due eq_refl). lia.
  - split; [|done]. by intros _ _ t [= <-].
Qed.

Lemma good_protected now grace s plan a : checkpoints_ok s →
  good_state (pc_state (protectCopy zoneinfo Local digest now grace s plan a)) = true ↔ protected now s plan a.
Proof using.
  intros Hok. rewrite protectCopy_state. unfold protected.
  set (due := if automatic a then _ else None). set (d := default zeroDestination _). set (key := checkpointKey _ _).
  destruct (CopyCheckpoints s !! key) as [cp|] eqn:Ek.
  2:{ cbn. split; [done|]. intros (cp & [Hc ? ? ? ? ? ? ?] & _). fold key in Hc. congruence. }
  assert (∀ st, good_state st = true → st ∈ ["current"; "manual"; "overdue"]) as Hg.
  { unfold good_state, str_in. intros st. rewrite bool_decide_eq_true. set_solver. }
  assert ((copyState digest now plan a d (Some cp) due).1 ∈ ["current"; "manual"; "overdue"] →
          (copyState digest now plan a d (Some cp) due).1 = scheduledState a (Some cp) due) as Hsame.
  { unfold copyState. intros Hin. pose proof (evidenceState_same _ _ _ _ _ Hin) as E. rewrite E. rewrite E in Hin.
    destruct (str_eqb _ _); [done|]. list_cases; discriminate. }
  split.
  - intros Hgood. pose proof (Hsame (Hg _ Hgood)) as E. apply Hg in Hgood as Hin. apply evidence_good_iff in Hin as (H1 & H2 & H3 & H4 & H5 & H6 & H7).
    exists cp. rewrite E, scheduledState_good in Hgood. split.
    + split; try done. destruct H4 as (checked & Hc & _). specialize (Hok _ _ Ek H2 (ex_intro _ _ Hc)). list_cases; congruence.
    + intros Ha. unfold due in Hgood. rewrite Ha in Hgood. by apply Hgood.
  - intros (cp' & [H1 H2 H3 H4 H5 H6 H7 H8] & Hd). fold key in H1. rewrite Ek in H1. injection H1 as <-.
    assert ((copyState digest now plan a d (Some cp) due).1 ∈ ["current"; "manual"; "overdue"]) as Hin.
    { apply evidence_good_iff. split_and!; try done. by rewrite H4. }
    rewrite (Hsame Hin), scheduledState_good. intros Ha t. unfold due. rewrite Ha. by apply Hd.
Qed.

(** The loop over the assignments. *)
Local Abbreviation copyOf now grace s plan := (protectCopy zoneinfo Local digest now grace s plan).

Lemma protect_loop now grace s plan l (g : planProgress) :
  let g' := fold_left (protectNext zoneinfo Local digest now grace s plan) l g in
  pg_expected g' = pg_expected g + Z.of_nat (length (List.filter (counted plan) l)) ∧
  pg_current g <= pg_current g' ∧
  is_some (pg_last_capture g') = is_some (pg_last_capture g) || existsb (λ a, is_some (pc_last_capture (copyOf now grace s plan a))) l ∧
  pg_copies g' = pg_copies g ++ ((λ a, if counted plan a then copyOf now grace s plan a else disabledCopy (copyOf now grace s plan a)) <$> l) ∧
  pg_all_manual g' = pg_all_manual g && negb (existsb (λ a, automatic a && AssignmentEnabled a) l) ∧
  pg_attention g' = pg_attention g || existsb (λ a, counted plan a && needsAttention (copyOf now grace s plan a)) l.
Proof using.
  revert g. induction l as [|a l IH]; intros g; cbn [fold_left List.filter existsb fmap list_fmap].
  { cbn. rewrite !orb_false_r, andb_true_r, app_nil_r. split_and!; try done; lia. }
  destruct (IH (protectNext zoneinfo Local digest now grace s plan g a)) as (H1 & H2 & H3 & H4 & H5 & H6).
  cbn zeta. rewrite H1, H3, H4, H5, H6. unfold protectNext in *. cbn [pg_expected pg_current pg_last_capture pg_copies pg_all_manual pg_attention] in *.
  split_and!.
  - destruct (counted plan a); cbn [length]; lia.
  - destruct (counted plan a && _); lia.
  - rewrite orb_assoc. f_equal. destruct (pg_last_capture g), (pc_last_capture _); cbn; try done. by destruct (before _ _).
  - by rewrite <- app_assoc.
  - by rewrite negb_orb, andb_assoc.
  - by rewrite orb_assoc.
Qed.
End protection_lemmas.

(** ** Protection: properties *)

Section protection_properties.
Context (zoneinfo : string → option Location) (Local : Location) (digest : string * list Source → string).
Context `{!MapRange string (Run * Plan), !MapRange string snapshotClassification, !MapRange string copyCheckpoint}.

(** C17: a plan is reported as healthy exactly when it is enabled, some copy of it
    is made automatically, and every enabled copy is protected and free of errors:
    proven by a checkpoint of the current selection that was verified and found in
    the repository within the last day, in a repository whose own evidence is good,
    and not older than the latest occurrence of its schedule. *)
Theorem healthy_means_protected now grace s plan : checkpoints_ok s →
  pp_state (protectionLocked zoneinfo Local digest now grace s plan) = "healthy" ↔
  p_enabled plan = true ∧ (∃ a, a ∈ p_destinations plan ∧ AssignmentEnabled a = true ∧ automatic a = true) ∧
  ∀ a, a ∈ p_destinations plan → AssignmentEnabled a = true →
    protected zoneinfo Local digest now s plan a ∧ pc_last_error (protectCopy zoneinfo Local digest now grace s plan a) = "".
Proof using.
  intros Hok. unfold protectionLocked. cbn [pp_state].
  destruct (protect_loop zoneinfo Local digest now grace s plan (p_destinations plan) (mkPlanProgress 0 0 None None [] true false))
    as (H1 & H2 & H3 & _ & H5 & H6). cbn [pg_expected pg_current pg_last_capture pg_all_manual pg_attention] in *.
  set (g := fold_left _ _ _) in *. cbn zeta. rewrite H5, H6. cbn [negb andb orb] in *.
  assert (∀ a, a ∈ p_destinations plan → AssignmentEnabled a = true → protected zoneinfo Local digest now s plan a →
    is_some (pg_last_capture g) = true) as Hcap.
  { intros a Hin _ (cp & [Hs ? ? ? ? ? ? ?] & _). rewrite H3. apply existsb_exists. exists a. split; [by apply list_elem_of_In|].
    destruct (protectCopy_saved zoneinfo Local digest now grace s plan a) as (-> & _). by rewrite Hs. }
  assert (existsb (λ a, counted plan a && needsAttention (protectCopy zoneinfo Local digest now grace s plan a)) (p_destinations plan) = false ↔
    (p_enabled plan = true → ∀ a, a ∈ p_destinations plan → AssignmentEnabled a = true →
       protected zoneinfo Local digest now s plan a ∧ pc_last_error (protectCopy zoneinfo Local digest now grace s plan a) = "")) as Hatt.
  { rewrite existsb_false_iff. unfold counted, needsAttention. split.
    - intros Hf He a Hin Ha. specialize (Hf a Hin). rewrite He, Ha in Hf. cbn in Hf. apply orb_false_iff in Hf as [Hg He']. boolify.
      split; [by eapply good_protected|done].
    - intros Hp a Hin. destruct (p_enabled plan) eqn:He, (AssignmentEnabled a) eqn:Ha; try done. cbn.
      destruct (Hp eq_refl a Hin Ha) as [Hg ->]. by rewrite (proj2 (good_protected zoneinfo Local digest now grace s plan a Hok) Hg). }
  destruct (p_enabled plan) eqn:He; cbn [negb orb]; [|split; [discriminate|intros [[=] _]]].
  destruct (existsb (λ a, automatic a && AssignmentEnabled a) (p_destinations plan)) eqn:Eauto; cbn [negb].
  2:{ split; [repeat case_match; discriminate|]. intros (_ & (a & Hin & Ha & Hm) & _).
      pose proof (proj1 (existsb_false_iff _ _) Eauto a Hin) as E. cbn in E. by rewrite Ha, Hm in E. }
  apply existsb_exists in Eauto as (a0 & Hin0 & [Hm0 Ha0]%andb_true_iff). apply list_elem_of_In in Hin0.
  destruct (Z.eqb_spec (pg_expected g) 0) as [E0|_].
  { exfalso. rewrite H1 in E0. assert (In a0 (List.filter (counted plan) (p_destinations plan))) as Hf.
    { apply List.filter_In. split; [by apply list_elem_of_In|]. unfold counted. by rewrite He, Ha0. }
    destruct (List.filter _ _); [done|cbn in E0; lia]. }
  clear H3 H6. destruct (existsb (λ a, counted plan a && _) (p_destinations plan)) eqn:Ea.
  - split; [intros Hx; exfalso; revert Hx; by destruct (is_some (pg_last_capture g)), (pg_current g =? 0)|]. intros (_ & _ & Hall). exfalso.
    by discriminate (proj2 Hatt (λ _, Hall)).
  - pose proof (proj1 Hatt eq_refl eq_refl) as Hall.
    assert (is_some (pg_last_capture g) = true) as -> by (apply (Hcap a0 Hin0 Ha0), (Hall a0 Hin0 Ha0)).
    rewrite andb_false_r. split; [|done]. intros _. split; [done|]. split; [by exists a0|done].
Qed.
End protection_properties.

(** ** Inventories *)

Section inventory.
Context (digest : string * list Source → string).
Context `{!MapRange string snapshotClassification, !MapRange string copyCheckpoint}.

Lemma commit_lookup l m k : NoDup l.*1 →
  (∀ cp, (k, cp) ∈ l → fold_left commitCheckpoint l m !! k =
     if str_eqb (match m !! k with Some current => cp_snapshot current | None => "" end) (cp_snapshot cp) then Some cp else m !! k) ∧
  (k ∉ l.*1 → fold_left commitCheckpoint l m !! k = m !! k).
Proof using.
  revert m. induction l as [|[k0 cp0] l IH]; intros m Hnd; [split; [intros cp H'; by apply elem_of_nil in H'|done]|].
  cbn [fmap list_fmap fst] in Hnd. apply NoDup_cons in Hnd as [Hn0 Hnd]. cbn [fold_left].
  assert (k ≠ k0 → commitCheckpoint m (k0, cp0) !! k = m !! k) as Hother.
  { intros Hne. unfold commitCheckpoint. cbn [fst snd]. destruct (str_eqb _ _); [by rewrite lookup_insert_ne by congruence|done]. }
  destruct (IH (commitCheckpoint m (k0, cp0)) Hnd) as [IH1 IH2]. split.
  - intros cp [[= -> ->]|Hin]%elem_of_cons.
    + rewrite IH2 by done. unfold commitCheckpoint. cbn [fst snd]. destruct (str_eqb _ _); [by rewrite lookup_insert_eq|done].
    + rewrite (IH1 cp Hin), Hother; [done|]. intros ->. apply Hn0. apply (list_elem_of_fmap_2 fst l (k0, cp)), Hin.
  - intros Hn. cbn in Hn. rewrite IH2, Hother; [done|set_solver..].
Qed.

Lemma range_list_keys (m : gmap string copyCheckpoint) : NoDup (range_list m).*1.
Proof using. rewrite range_perm. apply NoDup_fst_map_to_list. Qed.

Lemma inspect_lookup now d present verify s key : inspectInventory now d present verify s !! key =
  if has_suffix key ("/" +:+ d_id d) then inspectCheckpoint now present verify <$> CopyCheckpoints s !! key else None.
Proof using.
  unfold inspectInventory. rewrite lookup_fmap. destruct (has_suffix key _) eqn:E.
  - f_equal. destruct (CopyCheckpoints s !! key) as [cp|] eqn:Ek; [by apply map_lookup_filter_Some|].
    apply map_lookup_filter_None. by left.
  - assert (filter (λ e : string * copyCheckpoint, has_suffix e.1 ("/" +:+ d_id d) = true) (CopyCheckpoints s) !! key = None) as ->; [|done].
    apply map_lookup_filter_None. right. cbn. congruence.
Qed.

(** What becomes of a checkpoint when the inspection is committed. *)
Lemma commit_inspected now d present verify s0 s key :
  CopyCheckpoints (commitInventory now (d_id d) (inspectInventory now d present verify s0) s) !! key =
  match inspectInventory now d present verify s0 !! key with
  | Some cp => if str_eqb (match CopyCheckpoints s !! key with Some current => cp_snapshot current | None => "" end) (cp_snapshot cp)
               then Some cp else CopyCheckpoints s !! key
  | None => CopyCheckpoints s !! key
  end.
Proof using.
  unfold commitInventory. cbn [CopyCheckpoints with_destinations with_checkpoints].
  set (m := inspectInventory now d present verify s0). destruct (commit_lookup (range_list m) (CopyCheckpoints s) key (range_list_keys m)) as [H1 H2].
  destruct (m !! key) as [cp|] eqn:E; [by apply H1, range_list_elem|]. apply H2.
  intros ([k cp] & -> & Hin)%list_elem_of_fmap. apply range_list_elem in Hin. cbn in E. congruence.
Qed.

Lemma inspectCheckpoint_ok now present verify cp : checkpoint_ok (inspectCheckpoint now present verify cp).
Proof using.
  unfold checkpoint_ok, inspectCheckpoint. destruct (negb (bool_decide (cp_snapshot cp ∈ present))); [cbn; set_solver|].
  destruct (str_eqb (cp_verification cp) recoveryObjectsVerified) eqn:E; [cbn; set_solver|].
  destruct (verify (cp_snapshot cp)); cbn; [|set_solver]. intros Hv. boolify. congruence.
Qed.

Lemma recordCheckpoint_ok now captured r p s c : checkpoints_ok s → checkpoints_ok (recordCheckpoint digest now captured r p s c).
Proof using.
  intros Hok. unfold recordCheckpoint. repeat (case_match; [done|]).
  assert (checkpoints_ok (with_checkpoints s (<[checkpointKey (run_plan r) (c_destination c) := checkpointOf digest captured r p c]> (CopyCheckpoints s)))) as Hins.
  { unfold checkpoints_ok. cbn. apply map_Forall_insert_2; [|done]. unfold checkpoint_ok, checkpointOf, str_eqb. cbn.
    intros ->. rewrite bool_decide_true by done. destruct (c_verified_at c); cbn; [set_solver|by intros [? ?]]. }
  by destruct (str_eqb _ _).
Qed.

(** The operations that write checkpoints; an inspection may be based on an
    earlier state. *)
Inductive evidence_step : state → state → Prop :=
| es_record now r p s : evidence_step s (recordCheckpointsLocked digest now s r p)
| es_inventory now d present verify s0 s : evidence_step s (commitInventory now (d_id d) (inspectInventory now d present verify s0) s)
| es_inventory_error now dID message s : evidence_step s (recordInventoryError now dID message s)
| es_delete keep s : evidence_step s (with_checkpoints s (filter (λ e, keep e.1 = true) (CopyCheckpoints s))).

Lemma evidence_step_ok s s' : evidence_step s s' → checkpoints_ok s → checkpoints_ok s'.
Proof using.
  intros Hs Hok. destruct Hs as [now r p s|now d present verify s0 s|now dID message s|keep s].
  - unfold recordCheckpointsLocked. assert (checkpoints_ok (recordCopyAttemptsLocked now s r)) as Ha.
    { unfold checkpoints_ok. by rewrite attempts_keep_checkpoints. }
    destruct (run_captured_at r) as [captured|]; [|done]. generalize dependent (recordCopyAttemptsLocked now s r).
    induction (run_copies r) as [|c cs IH]; intros s1 Ha; [done|]. cbn [fold_left]. by apply IH, recordCheckpoint_ok.
  - intros key cp Hk. rewrite commit_inspected, inspect_lookup in Hk.
    destruct (has_suffix key _); [|by eapply Hok]. destruct (CopyCheckpoints s0 !! key) as [cp0|]; cbn [fmap option_fmap option_map] in Hk; [|by eapply Hok].
    destruct (str_eqb _ _); [|by eapply Hok]. injection Hk as <-. apply inspectCheckpoint_ok.
  - unfold recordInventoryError. by destruct (Destinations s !! dID).
  - intros key cp Hk. cbn in Hk. apply map_lookup_filter_Some in Hk as [Hk _]. by eapply Hok.
Qed.

(** the checkpoints stay well-formed: through any runs, retries, inventories
    (also ones based on an older state) and deletions, a checkpoint that is
    verified and checked says whether its snapshot is present or missing. *)
Theorem checkpoints_wellformed s s' : checkpoints_ok s → rtc evidence_step s s' → checkpoints_ok s'.
Proof using. intros Hok Hs. induction Hs as [|s1 s2 s3 Hst _ IH]; [done|]. eauto using evidence_step_ok. Qed.

(** an inventory tells the truth about every checkpoint of its destination:
    missing exactly when the snapshot is not listed, present exactly when it is
    listed and was verified before or now; nothing else changes, and no
    checkpoint of another destination, or of a snapshot saved meanwhile. *)
Theorem inventory_sound now d present verify s0 s key cp :
  CopyCheckpoints s !! key = Some cp →
  ∃ cp', CopyCheckpoints (commitInventory now (d_id d) (inspectInventory now d present verify s0) s) !! key = Some cp' ∧
    cp_snapshot cp' = cp_snapshot cp ∧
    match CopyCheckpoints s0 !! key with
    | Some cp0 =>
      if has_suffix key ("/" +:+ d_id d) && str_eqb (cp_snapshot cp) (cp_snapshot cp0) then
        cp_captured_at cp' = cp_captured_at cp0 ∧ cp_selection cp' = cp_selection cp0 ∧ cp_checked_at cp' = Some now ∧
        (cp_status cp' = "missing" ↔ cp_snapshot cp ∉ present) ∧
        (cp_status cp' = "present" ↔ cp_snapshot cp ∈ present ∧
           (cp_verification cp0 = recoveryObjectsVerified ∨ verify (cp_snapshot cp) = None)) ∧
        (cp_status cp' = "present" → cp_verification cp' = recoveryObjectsVerified)
      else cp' = cp
    | None => cp' = cp
    end.
Proof using.
  intros Hk. rewrite commit_inspected, inspect_lookup, Hk. destruct (has_suffix key _); cbn [andb]; [|exists cp; by destruct (CopyCheckpoints s0 !! key)].
  destruct (CopyCheckpoints s0 !! key) as [cp0|]; [|by exists cp]. cbn [fmap option_fmap option_map].
  assert (cp_snapshot (inspectCheckpoint now present verify cp0) = cp_snapshot cp0) as ->.
  { unfold inspectCheckpoint. by repeat case_match. }
  destruct (str_eqb (cp_snapshot cp) (cp_snapshot cp0)) eqn:E; [|by exists cp]. boolify. rewrite E.
  eexists. split; [done|]. unfold inspectCheckpoint. destruct (bool_decide_reflect (cp_snapshot cp0 ∈ present)); cbn [negb].
  2:{ cbn. split_and!; try done. split; [discriminate|by intros [? _]]. }
  unfold str_eqb. destruct (bool_decide_reflect (cp_verification cp0 = recoveryObjectsVerified)) as [Hv|Hv].
  - cbn. split_and!; try done; split; naive_solver.
  - destruct (verify (cp_snapshot cp0)); cbn; split_and!; try done; split; naive_solver.
Qed.
End inventory.

(** ** Concrete runs *)

#[local] Instance demoRunRange : MapRange string (Run * Plan) := default_range string (Run * Plan).
#[local] Instance demoCheckpointRange : MapRange string copyCheckpoint := default_range string copyCheckpoint.
#[local] Instance demoClassificationRange : MapRange string snapshotClassification := default_range string snapshotClassification.

(** A daily copy, an hour after the occurrence. *)
Definition demoAt : Time := 100 * Day + 2 * Hour.
Definition demoEvery : Schedule := mkSchedule "interval" "" 0 "" 24.
Definition demoAuto : Assignment := mkAssignment "dst_1" true demoEvery (mkRetention 7 4 6) None None.
Definition demoAutoPlan : Plan := mkPlan "plan_1" "Nightly" true "stop" [] [demoAuto] 0 0 0.
Definition demoCheckpoint (captured : Time) : copyCheckpoint :=
  mkCheckpoint captured (Some captured) "aaaaaaaa" "run_1" "stop" recoveryObjectsVerified "present" (Some (100 * Day)).
Definition demoProtected (captured : Time) : state :=
  mkState ∅ ∅ ∅ ∅ ∅ ∅ {["plan_1/dst_1" := demoCheckpoint captured]} "instance_1" {["dst_1" := demoDestination]} {["plan_1" := demoAutoPlan]} ∅.
Definition demoFresh : state := demoProtected (100 * Day + Hour).
Definition demoStale : state := demoProtected (98 * Day).

Lemma demo_checkpoints_ok captured : checkpoints_ok (demoProtected captured).
Proof. apply map_Forall_singleton. intros _ _. cbn. by left. Qed.

Lemma healthy_means_protected_witness :
  protected demoZones UTC demoDigestOf demoAt demoFresh demoAutoPlan demoAuto.
Proof.
  refine (proj1 (proj2 (proj2 (proj1 (healthy_means_protected demoZones UTC demoDigestOf demoAt Hour demoFresh demoAutoPlan (demo_checkpoints_ok _)) _))
    demoAuto _ eq_refl)).
  - vm_compute. reflexivity.
  - by left.
Defined.

Lemma checkpoints_wellformed_witness :
  checkpoints_ok (commitInventory demoAt "dst_1" (inspectInventory demoAt demoDestination ∅ (λ _, None) demoFresh) demoFresh).
Proof.
  refine (checkpoints_wellformed demoDigestOf demoFresh _ (demo_checkpoints_ok _) (rtc_once _ _ _)).
  exact (es_inventory demoDigestOf demoAt demoDestination ∅ (λ _, None) demoFresh demoFresh).
Defined.

Lemma inventory_sound_witness : ∃ cp',
  CopyCheckpoints (commitInventory demoAt "dst_1" (inspectInventory demoAt demoDestination ∅ (λ _, None) demoFresh) demoFresh) !! "plan_1/dst_1" = Some cp' ∧
  cp_status cp' = "missing".
Proof.
  destruct (inventory_sound demoAt demoDestination ∅ (λ _, None) demoFresh demoFresh "plan_1/dst_1" (demoCheckpoint (100 * Day + Hour)) eq_refl)
    as (cp' & Hk & _ & H). exists cp'. split; [exact Hk|]. destruct H as (_ & _ & _ & H & _). apply H, not_elem_of_empty.
Defined.
