(* ===== verification/BackupPolicy.v ===== *)
(** * internal/backup/operational_policy.go: when backups may run by themselves

    The execution policy (operator pause, review of a new host, grace period,
    heartbeat), how it is loaded, changed and persisted, and the reasons why
    automatic work is paused.  [net/url] and the identity of the host are
    parameters. *)

From stdpp Require Import gmap strings list relations countable.
From Stdlib Require Import Ascii ZArith.
From S2P Require Import Prelude GoStrings GoTime BackupSchedule Store.

Local Open Scope Z_scope.

(** ** Data *)

Record PauseReason := mkReason { Code : string; Message : string }.

(** [policyState]; the last field is not persisted. *)
Record policyState := mkPolicy {
  Paused : bool; HostIdentity : string; HostReviewRequired : bool; OverdueGraceMinutes : Z;
  HeartbeatURL : string; LastHeartbeatAt : option Time; HeartbeatError : string;
  Overdue : gmap string bool; PolicyError : string }.

Record Policy := mkView {
  EffectivePaused : bool; PauseReasons : list PauseReason; v_paused : bool; v_review : bool; v_grace : Z;
  HeartbeatConfigured : bool; v_last_heartbeat : option Time; v_heartbeat_error : string; v_error : string }.

Record PolicyInput := mkInput {
  in_paused : bool; AcknowledgeHost : bool; in_grace : Z; in_heartbeat : option string; ClearHeartbeat : bool }.

(** What [url.Parse] reports of an address. *)
Record url_parts := mkURL { url_scheme : string; url_hostname : string; url_has_user : bool; url_fragment : string }.

Definition policySettingKey : string := "backup_policy.v1".

Definition with_host (p : policyState) (identity : string) (review : bool) : policyState :=
  mkPolicy (Paused p) identity review (OverdueGraceMinutes p) (HeartbeatURL p) (LastHeartbeatAt p) (HeartbeatError p) (Overdue p) (PolicyError p).
Definition with_error (p : policyState) (e : string) : policyState :=
  mkPolicy (Paused p) (HostIdentity p) (HostReviewRequired p) (OverdueGraceMinutes p) (HeartbeatURL p) (LastHeartbeatAt p)
    (HeartbeatError p) (Overdue p) e.
Definition with_heartbeat (p : policyState) (url : string) (at_ : option Time) (e : string) : policyState :=
  mkPolicy (Paused p) (HostIdentity p) (HostReviewRequired p) (OverdueGraceMinutes p) url at_ e (Overdue p) (PolicyError p).
Definition with_pause (p : policyState) (paused : bool) (grace : Z) : policyState :=
  mkPolicy paused (HostIdentity p) (HostReviewRequired p) grace (HeartbeatURL p) (LastHeartbeatAt p) (HeartbeatError p) (Overdue p) (PolicyError p).
Definition with_overdue (p : policyState) (overdue : gmap string bool) : policyState :=
  mkPolicy (Paused p) (HostIdentity p) (HostReviewRequired p) (OverdueGraceMinutes p) (HeartbeatURL p) (LastHeartbeatAt p)
    (HeartbeatError p) overdue (PolicyError p).

Definition defaultPolicy : policyState := mkPolicy false "" false 60 "" None "" ∅ "".

(** The service's state that decides about automatic work. *)
Record guard := mkGuard { g_policy : policyState; g_init_error : option string; g_recovery_error : string; g_db : DB }.

Definition with_policy (g : guard) (p : policyState) (db : DB) : guard := mkGuard p (g_init_error g) (g_recovery_error g) db.

(** ** Operations *)

Definition reason_if (b : bool) (code message : string) : list PauseReason := if b then [mkReason code message] else [].

Definition pauseReasonsLocked (g : guard) : list PauseReason :=
  reason_if (Paused (g_policy g)) "user_paused" "Automatic backup and retention are paused by an operator." ++
  reason_if (HostReviewRequired (g_policy g)) "host_review_required"
    "Review backup sources and destinations on this host, then acknowledge the host in Backup settings." ++
  reason_if (negb (str_empty (PolicyError (g_policy g)))) "policy_error"
    "Repair the stored backup scheduling policy before resuming automatic backup and retention." ++
  reason_if (match g_init_error g with Some _ => true | None => false end) "initialization_error"
    "The backup module could not initialize. Inspect the saved backup state and service logs." ++
  reason_if (negb (str_empty (g_recovery_error g))) "service_recovery_required"
    "Resolve Service recovery before capturing or applying data. All plans are blocked because shared source ownership may be uncertain.".

Definition grace_valid (minutes : Z) : bool := (1 <=? minutes) && (minutes <=? 10080).
Lemma grace_bounds minutes : grace_valid minutes = true → 1 <= minutes <= 10080.
Proof. unfold grace_valid. lia. Qed.
Definition effectiveGrace (minutes : Z) : Z := if grace_valid minutes then minutes else 60.
Definition overdueGraceLocked (g : guard) : Duration := effectiveGrace (OverdueGraceMinutes (g_policy g)) * Minute.

Definition policyViewLocked (g : guard) : Policy :=
  let reasons := pauseReasonsLocked g in
  let p := g_policy g in
  mkView (match reasons with [] => false | _ => true end) reasons (Paused p) (HostReviewRequired p)
    (effectiveGrace (OverdueGraceMinutes p)) (negb (str_empty (HeartbeatURL p))) (LastHeartbeatAt p) (HeartbeatError p) (PolicyError p).

Definition SchedulingPaused (g : guard) : bool := match pauseReasonsLocked g with [] => false | _ => true end.

Definition schedulingPauseErrorLocked (g : guard) : option backup_error :=
  match find (λ r, negb (str_eqb (Code r) "user_paused")) (pauseReasonsLocked g) with
  | Some r => Some (ErrBusy (Message r))
  | None => None
  end.

(** The text of a policy ([encoding/json]): [Error] is not part of it, and the text
    of an object is not the text of [null]. *)
Class PolicyText := {
  policy_text : policyState → string;
  policy_parse : string → option policyState;
  policy_parse_text p : PolicyError p = "" → policy_parse (policy_text p) = Some p;
  policy_text_error p e : policy_text (with_error p e) = policy_text p;
  policy_text_object p : trim_space (policy_text p) ≠ "null" }.

Section policy.
Context `{PT : PolicyText} (partial : string → policyState) (parse_url : string → option url_parts).

Definition persistPolicyLocked (io : IO) (now : Time) (p : policyState) (db : DB) : res store_error DB :=
  SetAppSetting io db policySettingKey (policy_text p) now.

Definition load_failed : string := "Backup scheduling policy could not be loaded; automatic backup and retention are paused.".
Definition save_failed : string := "Backup scheduling policy could not be saved; automatic backup and retention are paused.".

(** What is stored, or [None] with what a failed read left behind. *)
Definition readPolicy (io : IO) (db : DB) : policyState * bool :=
  match AppSetting io db policySettingKey with
  | Err _ => (defaultPolicy, false)
  | Ok None => (defaultPolicy, true)
  | Ok (Some raw) =>
    if str_eqb (trim_space raw) "null" then (defaultPolicy, false)
    else match policy_parse raw with
         | None => (partial raw, false)
         | Some p => (p, grace_valid (OverdueGraceMinutes p))
         end
  end.

(** [current] is the identity of the host, [plans] whether there are plans. *)
Definition initializePolicy (ios : IO * IO) (now : Time) (current : string) (plans : bool) (g : guard) : guard :=
  let '(p, ok) := readPolicy ios.1 (g_db g) in
  if negb ok then with_policy g (with_error p load_failed) (g_db g)
  else
    let moved := negb (str_empty (HostIdentity p)) && negb (str_eqb (HostIdentity p) current) in
    let unknown := str_empty (HostIdentity p) in
    let p := with_host p (if unknown then current else HostIdentity p) (HostReviewRequired p || moved || (unknown && plans)) in
    match persistPolicyLocked ios.2 now p (g_db g) with
    | Ok db => with_policy g p db
    | Err _ => with_policy g (with_error p save_failed) (g_db g)
    end.

Definition heartbeat_valid (value : string) : bool :=
  match parse_url value with
  | None => false
  | Some u => (slen value <=? 4096) && (str_eqb (url_scheme u) "https" || str_eqb (url_scheme u) "http")
              && negb (str_empty (url_hostname u)) && negb (url_has_user u) && str_empty (url_fragment u)
              && negb (contains value (str1 (chr 13)) || contains value (str1 (chr 10)) || contains value (str1 (chr 0)))
  end.

(** The requested heartbeat address, if one is given. *)
Definition requestedHeartbeat (input : PolicyInput) : option string :=
  match in_heartbeat input with
  | Some url => if str_empty (trim_space url) then None else Some (trim_space url)
  | None => None
  end.

Definition changedPolicy (host : string) (input : PolicyInput) (p : policyState) : policyState :=
  let p := with_pause p (in_paused input) (in_grace input) in
  let p := if AcknowledgeHost input then with_host p host false else p in
  if ClearHeartbeat input then with_heartbeat p "" None ""
  else match requestedHeartbeat input with
       | Some url => with_heartbeat p url None ""
       | None => p
       end.

Definition SavePolicy (io : IO) (now : Time) (host : string) (input : PolicyInput) (g : guard) : res backup_error Policy * guard :=
  if negb (grace_valid (in_grace input)) then (Err (ErrInvalid "overdue_grace_minutes must be 1 to 10080"), g)
  else if match requestedHeartbeat input with Some url => negb (heartbeat_valid url) | None => false end
  then (Err (ErrInvalid "heartbeat must be an HTTP(S) URL without user information or fragment"), g)
  else if negb (str_empty (PolicyError (g_policy g))) then (Err (ErrBusy "repair the stored scheduling policy before changing it"), g)
  else if HostReviewRequired (g_policy g) && negb (in_paused input) && negb (AcknowledgeHost input)
  then (Err (ErrInvalid "review recovered sources and acknowledge this host before resuming"), g)
  else
    let p := changedPolicy host input (g_policy g) in
    match persistPolicyLocked io now p (g_db g) with
    | Err _ => (Err (ErrOther "settings store"), g)
    | Ok db => let g := with_policy g p db in (Ok (policyViewLocked g), g)
    end.

(** [deliverProtectionHeartbeat]: the check before sending, and the record of the
    result [sent], which is dropped when the address was changed meanwhile. *)
Definition heartbeatBlocked (target : string) (g : guard) : bool :=
  SchedulingPaused g || negb (str_eqb (HeartbeatURL (g_policy g)) target).

Definition recordHeartbeat (io : IO) (now : Time) (target : string) (sent : bool) (g : guard) : guard :=
  let p := g_policy g in
  if negb (str_eqb (HeartbeatURL p) target) then g
  else
    let p := if sent then with_heartbeat p (HeartbeatURL p) (Some now) ""
             else with_heartbeat p (HeartbeatURL p) (LastHeartbeatAt p)
                    "External protection heartbeat failed; check the monitor address and connectivity." in
    match persistPolicyLocked io now p (g_db g) with Ok db => with_policy g p db | Err _ => with_policy g p (g_db g) end.
End policy.

(** ** The policy over time *)

Record policySystem := mkPS { ps_guard : guard; ps_inflight : list string }.

Section steps.
Context `{PT : PolicyText} (partial : string → policyState) (parse_url : string → option url_parts).

(** The requests and the hosts that occur. *)
Context (requests : PolicyInput → Prop) (hosts : string → Prop).

Definition restarted (ios : IO * IO) (now : Time) (h : string) (plans : bool) (initErr : option string) (recovery : string) (db : DB) : policySystem :=
  mkPS (initializePolicy partial ios now h plans (mkGuard defaultPolicy initErr recovery db)) [].

Inductive policy_step : policySystem → policySystem → Prop :=
| ps_save io now host input s : requests input →
    policy_step s (mkPS (SavePolicy parse_url io now host input (ps_guard s)).2 (ps_inflight s))
| ps_send target s : heartbeatBlocked target (ps_guard s) = false → policy_step s (mkPS (ps_guard s) (target :: ps_inflight s))
| ps_record io now target sent s : target ∈ ps_inflight s →
    policy_step s (mkPS (recordHeartbeat io now target sent (ps_guard s)) (ps_inflight s))
| ps_observe overdue s :
    policy_step s (mkPS (with_policy (ps_guard s) (with_overdue (g_policy (ps_guard s)) overdue) (g_db (ps_guard s))) (ps_inflight s))
| ps_recovery recovery s :
    policy_step s (mkPS (mkGuard (g_policy (ps_guard s)) (g_init_error (ps_guard s)) recovery (g_db (ps_guard s))) (ps_inflight s))
| ps_restart ios now h plans initErr recovery s : hosts h →
    policy_step s (restarted ios now h plans initErr recovery (g_db (ps_guard s))).

(** The stored policy, when there is a readable one. *)
Definition storedPolicy (db : DB) : option policyState :=
  match app_settings db !! policySettingKey with
  | None => None
  | Some row =>
    if str_eqb (trim_space (set_value row)) "null" then None
    else match policy_parse (set_value row) with
         | Some p => if grace_valid (OverdueGraceMinutes p) then Some p else None
         | None => None
         end
  end.

Definition hasRow (db : DB) : Prop := is_Some (app_settings db !! policySettingKey).

Lemma readPolicy_cases io db p ok : readPolicy partial io db = (p, ok) →
  match io with
  | Some _ => ok = false
  | None => match storedPolicy db with
            | Some q => p = q ∧ ok = true
            | None => hasRow db → ok = false
            end
  end.
Proof using.
  unfold readPolicy, AppSetting, driver, storedPolicy, hasRow. destruct io as [msg|]; [by intros [= <- <-]|].
  destruct (app_settings db !! policySettingKey) as [row|]; cbn; [|intros _ [? [=]]].
  destruct (str_eqb (trim_space (set_value row)) "null"); [by intros [= <- <-]|].
  destruct (policy_parse (set_value row)) as [q|]; [|by intros [= <- <-]].
  destruct (grace_valid (OverdueGraceMinutes q)); intros [= <- <-]; done.
Qed.

Lemma persist_stored io now p db db' : persistPolicyLocked io now p db = Ok db' → grace_valid (OverdueGraceMinutes p) = true →
  storedPolicy db' = Some (with_error p "") ∧ hasRow db'.
Proof using.
  unfold persistPolicyLocked, SetAppSetting, driver, storedPolicy, hasRow. destruct io; [done|]. intros [= <-] Hg.
  cbn [app_settings with_settings]. rewrite lookup_insert_eq. cbn [set_value].
  unfold str_eqb. rewrite bool_decide_false by apply policy_text_object. rewrite <- (policy_text_error p ""), policy_parse_text by done. cbn [with_error OverdueGraceMinutes].
  rewrite Hg. split; [done|by eexists].
Qed.

(** A policy that pauses automatic work for a reason of its own. *)
Definition selfPaused (p : policyState) : bool := HostReviewRequired p || negb (str_empty (PolicyError p)).

Lemma selfPaused_paused g : selfPaused (g_policy g) = true →
  SchedulingPaused g = true ∧ ∃ e, schedulingPauseErrorLocked g = Some e.
Proof using.
  unfold selfPaused, SchedulingPaused, schedulingPauseErrorLocked, pauseReasonsLocked. intros Hp.
  destruct (HostReviewRequired (g_policy g)); [|destruct (negb (str_empty (PolicyError (g_policy g)))); [|done]];
    destruct (Paused (g_policy g)); cbn; eauto.
Qed.

Lemma selfPaused_blocked g target : selfPaused (g_policy g) = true → heartbeatBlocked target g = true.
Proof using. intros Hsp. unfold heartbeatBlocked. by rewrite (proj1 (selfPaused_paused g Hsp)). Qed.

(** ** An unreadable policy *)

Record kept_corrupt (row : SettingRow) (s : policySystem) : Prop := {
  kc_row : app_settings (g_db (ps_guard s)) !! policySettingKey = Some row;
  kc_error : PolicyError (g_policy (ps_guard s)) ≠ "";
  kc_inflight : ps_inflight s = [] }.

Lemma restart_corrupt ios now h plans initErr recovery db row :
  app_settings db !! policySettingKey = Some row → storedPolicy db = None →
  kept_corrupt row (restarted ios now h plans initErr recovery db).
Proof using.
  intros Hr Hs. unfold restarted, initializePolicy. cbn [g_db]. destruct (readPolicy partial ios.1 db) as [p ok] eqn:E.
  assert (ok = false) as ->.
  { pose proof (readPolicy_cases _ _ _ _ E) as H. destruct (ios.1); [done|]. rewrite Hs in H. apply H. by eexists. }
  by split.
Qed.

Lemma corrupt_step row s s' : policy_step s s' → storedPolicy (g_db (ps_guard s)) = None → kept_corrupt row s →
  storedPolicy (g_db (ps_guard s')) = None ∧ kept_corrupt row s'.
Proof using.
  intros Hs Hn [H1 H2 H3]. destruct Hs as [io now host input s _|target s Hb|io now target sent s Hin|overdue s|recovery s|ios now h plans initErr recovery s Hh].
  - assert ((SavePolicy parse_url io now host input (ps_guard s)).2 = ps_guard s) as ->.
    { unfold SavePolicy. destruct (negb (grace_valid _)); [done|]. destruct (match requestedHeartbeat input with Some url => negb (heartbeat_valid parse_url url) | None => false end); [done|].
      unfold str_empty, str_eqb. by rewrite bool_decide_false. }
    by split.
  - exfalso. rewrite selfPaused_blocked in Hb; [done|]. unfold selfPaused, str_empty, str_eqb. rewrite (bool_decide_false (_ = "")) by done. apply orb_true_r.
  - exfalso. rewrite H3 in Hin. by apply elem_of_nil in Hin.
  - by split.
  - by split.
  - pose proof (restart_corrupt ios now h plans initErr recovery _ _ H1 Hn) as Hk. split; [|done].
    unfold storedPolicy in *. rewrite H1 in Hn. by rewrite (kc_row _ _ Hk).
Qed.

(** ** A new host *)

Record review_held (h0 : string) (s : policySystem) : Prop := {
  rh_stored : ∃ p, storedPolicy (g_db (ps_guard s)) = Some p ∧ HostIdentity p = h0;
  rh_memory : PolicyError (g_policy (ps_guard s)) ≠ "" ∨
    (HostReviewRequired (g_policy (ps_guard s)) = true ∧ HostIdentity (g_policy (ps_guard s)) = h0);
  rh_inflight : ps_inflight s = [] }.

Lemma restart_review h0 ios now h plans initErr recovery db p : storedPolicy db = Some p → HostIdentity p = h0 → h0 ≠ "" → h ≠ h0 →
  review_held h0 (restarted ios now h plans initErr recovery db).
Proof using.
  intros Hs Hid Hne Hh. unfold restarted, initializePolicy. cbn [g_db]. destruct (readPolicy partial ios.1 db) as [q ok] eqn:E.
  pose proof (readPolicy_cases _ _ _ _ E) as Hc. destruct ok; cbn [negb]; [|split; cbn; [by exists p|by left|done]].
  destruct (ios.1); [done|]. rewrite Hs in Hc. destruct Hc as [-> _]. unfold str_empty, str_eqb.
  rewrite (bool_decide_false (HostIdentity p = "")), (bool_decide_false (HostIdentity p = h)) by congruence. cbn [negb andb orb].
  set (q := with_host p (HostIdentity p) _). destruct (persistPolicyLocked ios.2 now q db) as [db'|e] eqn:Ep.
  - apply persist_stored in Ep as [Hst _]; [|unfold storedPolicy in Hs; repeat case_match; simplify_eq; done].
    split; cbn; [exists (with_error q ""); by split|right; split; [by rewrite orb_true_r|done]|done].
  - split; cbn; [by exists p|by left|done].
Qed.

Lemma SavePolicy_unacknowledged io now host input g h0 : AcknowledgeHost input = false →
  (PolicyError (g_policy g) ≠ "" ∨ (HostReviewRequired (g_policy g) = true ∧ HostIdentity (g_policy g) = h0)) →
  let g' := (SavePolicy parse_url io now host input g).2 in
  g' = g ∨ (∃ p, storedPolicy (g_db g') = Some (with_error p "") ∧ g_policy g' = p ∧ HostReviewRequired p = true ∧ HostIdentity p = h0).
Proof using.
  intros Ha Hm. cbn zeta. unfold SavePolicy. destruct (grace_valid (in_grace input)) eqn:Hg; [cbn [negb]|by left].
  destruct (match requestedHeartbeat input with Some url => negb (heartbeat_valid parse_url url) | None => false end); [by left|].
  destruct (negb (str_empty (PolicyError (g_policy g)))) eqn:He; [by left|].
  destruct Hm as [Hm|[Hr Hid]]; [unfold str_empty, str_eqb in He; by rewrite bool_decide_false in He|].
  destruct (_ && _ && _); [by left|]. set (p := changedPolicy host input (g_policy g)).
  assert (HostReviewRequired p = true ∧ HostIdentity p = h0 ∧ OverdueGraceMinutes p = in_grace input) as (H1 & H2 & H3).
  { unfold p, changedPolicy. rewrite Ha. destruct (ClearHeartbeat input); [done|]. by destruct (requestedHeartbeat input). }
  destruct (persistPolicyLocked io now p (g_db g)) as [db'|e] eqn:Ep; [right|by left].
  apply persist_stored in Ep as [Hst _]; [|by rewrite H3]. by exists p.
Qed.

Lemma review_step h0 s s' : h0 ≠ "" → (∀ i, requests i → AcknowledgeHost i = false) → (∀ h, hosts h → h ≠ h0) →
  policy_step s s' → review_held h0 s → review_held h0 s'.
Proof using.
  intros Hne Hq Hh Hs [H1 H2 H3]. destruct Hs as [io now host input s Hreq|target s Hb|io now target sent s Hin|overdue s|recovery s|ios now h plans initErr recovery s Hhost].
  - destruct (SavePolicy_unacknowledged io now host input (ps_guard s) h0 (Hq _ Hreq) H2) as [E|(p & Hst & Hp & Hr & Hi)];
      [rewrite E; by split|]. split; cbn [ps_guard ps_inflight]; [exists (with_error p ""); by split|right; by rewrite Hp|done].
  - exfalso. rewrite selfPaused_blocked in Hb; [done|]. unfold selfPaused, str_empty, str_eqb.
    destruct H2 as [H2|[-> _]]; [|done]. rewrite (bool_decide_false (_ = "")) by done. apply orb_true_r.
  - exfalso. rewrite H3 in Hin. by apply elem_of_nil in Hin.
  - by split.
  - by split.
  - destruct H1 as (p & Hst & Hid). eapply restart_review; [exact Hst|exact Hid|done|by apply Hh].
Qed.

Lemma review_paused h0 s : review_held h0 s → selfPaused (g_policy (ps_guard s)) = true.
Proof using.
  intros [_ H _]. unfold selfPaused, str_empty, str_eqb. destruct H as [H|[-> _]]; [|done].
  rewrite (bool_decide_false (_ = "")) by done. apply orb_true_r.
Qed.
End steps.

(** ** Properties *)

(** C29: an unreadable policy is never overwritten: through any requests,
    heartbeats and restarts the stored text stays as it is for the operator to
    repair, automatic and manual backups stay paused, and no heartbeat claims
    that the data is protected. *)
Theorem corrupt_policy_preserved `{PT : PolicyText} partial parse_url ios now h plans initErr recovery db row s :
  app_settings db !! policySettingKey = Some row → storedPolicy db = None →
  rtc (policy_step partial parse_url (λ _, True) (λ _, True)) (restarted partial ios now h plans initErr recovery db) s →
  app_settings (g_db (ps_guard s)) !! policySettingKey = Some row ∧ SchedulingPaused (ps_guard s) = true ∧
  (∃ e, schedulingPauseErrorLocked (ps_guard s) = Some e) ∧ ps_inflight s = [].
Proof.
  intros Hr Hs Hsteps. pose proof (restart_corrupt partial ios now h plans initErr recovery db row Hr Hs) as Hk.
  assert (storedPolicy (g_db (ps_guard (restarted partial ios now h plans initErr recovery db))) = None) as Hn.
  { unfold storedPolicy in *. rewrite Hr in Hs. by rewrite (kc_row _ _ Hk). }
  assert (kept_corrupt row s) as [H1 H2 H3].
  { revert Hn Hk. induction Hsteps as [|s1 s2 s3 Hst _ IH]; [done|]. intros Hn Hk.
    destruct (corrupt_step _ _ _ _ row s1 s2 Hst Hn Hk). by apply IH. }
  assert (selfPaused (g_policy (ps_guard s)) = true) as Hp.
  { unfold selfPaused, str_empty, str_eqb. rewrite (bool_decide_false (_ = "")) by done. apply orb_true_r. }
  destruct (selfPaused_paused _ Hp). by split_and!.
Qed.

(** on a host other than the recorded one automatic work and manual backups
    stay paused, in spite of any requests that do not acknowledge the host,
    failures of the settings table, and further restarts, until it is
    acknowledged or the state returns to its host. *)
Theorem new_host_paused `{PT : PolicyText} partial parse_url (requests : PolicyInput → Prop) (hosts : string → Prop)
    ios now h plans initErr recovery db p s :
  (∀ input, requests input → AcknowledgeHost input = false) → (∀ host, hosts host → host ≠ HostIdentity p) →
  storedPolicy db = Some p → HostIdentity p ≠ "" → h ≠ HostIdentity p →
  rtc (policy_step partial parse_url requests hosts) (restarted partial ios now h plans initErr recovery db) s →
  SchedulingPaused (ps_guard s) = true ∧ ∃ e, schedulingPauseErrorLocked (ps_guard s) = Some e.
Proof.
  intros Hq Hh Hs Hne Hhost Hsteps. apply selfPaused_paused, (review_paused (HostIdentity p)).
  pose proof (restart_review partial (HostIdentity p) ios now h plans initErr recovery db p Hs eq_refl Hne Hhost) as H0.
  revert H0. induction Hsteps as [|s1 s2 s3 Hst _ IH]; [done|]. intros H0. by eapply IH, review_step.
Qed.

(** a change of the policy is applied and stored as a whole or not at all,
    and automatic work resumes only when nothing else pauses it. *)
Theorem SavePolicy_atomic `{PT : PolicyText} parse_url io now host input g :
  let r := SavePolicy parse_url io now host input g in
  match r.1 with
  | Err _ => r.2 = g
  | Ok view =>
    storedPolicy (g_db r.2) = Some (with_error (g_policy r.2) "") ∧ view = policyViewLocked r.2 ∧ 1 <= v_grace view <= 10080 ∧
    (SchedulingPaused r.2 = false ↔ in_paused input = false ∧ (HostReviewRequired (g_policy g) = true → AcknowledgeHost input = true) ∧
       g_init_error g = None ∧ g_recovery_error g = "")
  end.
Proof.
  cbn zeta. unfold SavePolicy. destruct (grace_valid (in_grace input)) eqn:Hg; [cbn [negb]|done].
  destruct (match requestedHeartbeat input with Some url => negb (heartbeat_valid parse_url url) | None => false end); [done|].
  destruct (str_empty (PolicyError (g_policy g))) eqn:He; [cbn [negb]|done].
  destruct (_ && _ && _) eqn:Hb; [done|]. set (p := changedPolicy host input (g_policy g)).
  destruct (persistPolicyLocked io now p (g_db g)) as [db'|e] eqn:Ep; [|done]. cbn [fst snd].
  assert (Paused p = in_paused input ∧ OverdueGraceMinutes p = in_grace input ∧ PolicyError p = PolicyError (g_policy g) ∧
    HostReviewRequired p = HostReviewRequired (g_policy g) && negb (AcknowledgeHost input)) as (H1 & H2 & H3 & H4).
  { unfold p, changedPolicy. destruct (AcknowledgeHost input), (ClearHeartbeat input); cbn;
      rewrite ?andb_false_r, ?andb_true_r; try done; by destruct (requestedHeartbeat input). }
  apply persist_stored in Ep as [Hst _]; [|by rewrite H2]. split; [done|]. split; [done|]. split; [split|].
  - cbn. rewrite H2. unfold effectiveGrace. rewrite Hg. by apply grace_bounds.
  - cbn. rewrite H2. unfold effectiveGrace. rewrite Hg. by apply grace_bounds.
  - unfold SchedulingPaused, pauseReasonsLocked. cbn. rewrite H1, H3, H4, He. cbn [negb].
    unfold str_empty, str_eqb. destruct (bool_decide_reflect (g_recovery_error g = ""));
      destruct (in_paused input), (HostReviewRequired (g_policy g)), (AcknowledgeHost input), (g_init_error g); cbn; naive_solver.
Qed.

(** ** Concrete runs *)

#[local] Instance policyState_eq_dec : EqDecision policyState.
Proof. solve_decision. Defined.
#[local] Program Instance policyState_countable : Countable policyState :=
  inj_countable'
    (λ p, (Paused p, HostIdentity p, HostReviewRequired p, OverdueGraceMinutes p, HeartbeatURL p, LastHeartbeatAt p, HeartbeatError p, Overdue p, PolicyError p))
    (λ '(a, b, c, d, e, f, g, h, i), mkPolicy a b c d e f g h i) _.
Next Obligation. by intros []. Qed.

#[local] Program Instance demo_text : PolicyText := {
  policy_text p := bits_text (encode (with_error p ""));
  policy_parse s := decode (text_bits s) }.
Next Obligation. intros [] He. cbn -[encode decode]. rewrite text_bits_text, decode_encode. cbn in He. by subst. Qed.
Next Obligation. done. Qed.
Next Obligation.
  intros p E. assert (free_of "n" (trim_space (bits_text (encode (with_error p "")))) = true) as H; [|by rewrite E in H].
  apply free_of_trim. generalize (encode (with_error p "")). intros q. by induction q.
Qed.
Definition demoParse (url : string) : option url_parts := Some (mkURL "https" "monitor.example.org" false "").
Definition demoPolicy : policyState := mkPolicy false "host_a" false 60 "" None "" ∅ "".
Definition demoPolicyDB (text : string) : DB :=
  mkDB None ∅ {[policySettingKey := mkSettingRow text ""]} ∅ ∅ ∅ ∅ ∅.

(** An operator tries to resume without acknowledging the new host. *)
Definition demoResume : PolicyInput := mkInput false false 60 None false.

Lemma demo_stored : storedPolicy (demoPolicyDB (policy_text demoPolicy)) = Some demoPolicy.
Proof. vm_compute. reflexivity. Qed.

Lemma corrupt_policy_preserved_witness : SchedulingPaused (ps_guard (restarted (λ _, defaultPolicy) (None, None) 0 "host_a" true None "" (demoPolicyDB "null"))) = true.
Proof.
  refine (proj1 (proj2 (corrupt_policy_preserved (λ _, defaultPolicy) demoParse (None, None) 0 "host_a" true None "" (demoPolicyDB "null")
    (mkSettingRow "null" "") _ eq_refl eq_refl (rtc_refl _ _)))).
Defined.

Lemma new_host_paused_witness :
  let s0 := restarted (λ _, defaultPolicy) (None, None) 0 "host_b" true None "" (demoPolicyDB (policy_text demoPolicy)) in
  SchedulingPaused (SavePolicy demoParse None 1 "host_b" demoResume (ps_guard s0)).2 = true.
Proof.
  cbn zeta. set (s0 := restarted _ _ _ _ _ _ _ _).
  apply (new_host_paused (λ _, defaultPolicy) demoParse (λ i, i = demoResume) (λ h, h = "host_b") (None, None) 0 "host_b" true None ""
    (demoPolicyDB (policy_text demoPolicy)) demoPolicy (mkPS (SavePolicy demoParse None 1 "host_b" demoResume (ps_guard s0)).2 (ps_inflight s0))).
  - intros ? ->. reflexivity.
  - intros ? ->. discriminate.
  - exact demo_stored.
  - discriminate.
  - discriminate.
  - apply rtc_once. fold s0. exact (ps_save _ _ _ _ None 1 "host_b" demoResume s0 eq_refl).
Defined.

Lemma SavePolicy_atomic_witness :
  let g := mkGuard demoPolicy None "" (demoPolicyDB "") in
  storedPolicy (g_db (SavePolicy demoParse None 1 "host_a" demoResume g).2) = Some demoPolicy.
Proof. exact (proj1 (SavePolicy_atomic demoParse None 1 "host_a" demoResume (mkGuard demoPolicy None "" (demoPolicyDB "")))). Defined.
