(* ===== verification/BackupAlerts.v ===== *)
(** * internal/backup/operational_policy.go: heartbeat and alerts

    [observeProtection] watches every automatic assignment of the enabled plans,
    decides whether the external heartbeat may claim that the data is protected,
    and which alerts are raised or resolved; the deliveries rotate, so that a
    failing channel cannot starve later plans.  The notification channel is a
    parameter. *)

From stdpp Require Import gmap strings list sorting relations.
From Stdlib Require Import Ascii ZArith.
From S2P Require Import Prelude GoStrings GoPath GoTime BackupSchedule BackupEvidence BackupState BackupRetention BackupProtection Store BackupPolicy.

Local Open Scope Z_scope.

Implicit Types (now : Time) (grace : Duration) (s : state) (plan : Plan) (a : Assignment).

(** ** Alerts *)

Record OperationalAlert := mkAlert {
  al_event : string; al_reasons : list PauseReason; al_plan : string; al_plan_name : string; al_destination : string;
  al_destination_name : string; al_due : Time }.

Record operationalAlertState := mkAlerts { al_loaded : bool; al_cursor : string; al_notified : gmap string OperationalAlert }.

Definition operationalAlertSettingKey : string := "backup_protection_alerts.v1".

Definition alertSignature (a : OperationalAlert) : string := join "/" (al_event a :: (Code <$> al_reasons a)).

Definition zeroCopy : CopyProtection := mkCopyProtection "" "" "" None None "" None None None None "" "" false "" None "" "" None.

(** What the loop finds about one assignment. *)
Record verdict := mkVerdict { vd_key : string; vd_healthy : bool; vd_alert : option OperationalAlert }.

Section alerts.
Context (zoneinfo : string → option Location) (Local : Location) (digest : string * list Source → string).
Context `{!MapRange string (Run * Plan), !MapRange string Plan, !MapRange string OperationalAlert, !DocText (string * gmap string OperationalAlert)}.

Definition initializeOperationalAlertsLocked (io : IO) (db : DB) (a : operationalAlertState) : operationalAlertState :=
  if al_loaded a then a
  else match AppSetting io db operationalAlertSettingKey with
       | Ok (Some raw) => match doc_parse raw with Some (cursor, notified) => mkAlerts true cursor notified | None => mkAlerts true "" ∅ end
       | _ => mkAlerts true "" ∅
       end.

Definition persistOperationalAlertsLocked (io : IO) (now : Time) (a : operationalAlertState) (db : DB) : DB :=
  match SetAppSetting io db operationalAlertSettingKey (doc_text (al_cursor a, al_notified a)) now with Ok db => db | Err _ => db end.

Definition watchAssignment (now : Time) (s : state) (notified : gmap string OperationalAlert) (plan : Plan) (protection : PlanProtection) (a : Assignment) : option verdict :=
  if negb (AssignmentEnabled a) || negb (automatic a) then None
  else
    let key := checkpointKey (p_id plan) (DestinationID a) in
    let copy := default zeroCopy (find (λ c, str_eqb (pc_destination c) (DestinationID a)) (pp_copies protection)) in
    let pastGrace := is_some (pc_overdue_since copy) in
    let fresh := match pc_last_capture copy with Some t => negb (future now t) | None => false end && negb pastGrace in
    let usable := fresh && pc_usable copy in
    let resolved :=
      match notified !! key with
      | Some previous =>
        if future now (al_due previous) then usable
        else usable && match pc_last_capture copy with Some t => negb (before t (al_due previous)) | None => false end
      | None => usable
      end in
    Some (mkVerdict key resolved
      (if pastGrace
       then Some (mkAlert "backup_copy_overdue" [] (p_id plan) (p_name plan) (DestinationID a)
                    (match Destinations s !! DestinationID a with Some d => d_name d | None => "" end)
                    (default zero_time (pc_first_outstanding copy)))
       else if resolved then None else notified !! key)).

Definition watchPlan (now : Time) (grace : Duration) (s : state) (notified : gmap string OperationalAlert) (plan : Plan) : list verdict :=
  if p_enabled plan
  then omap (watchAssignment now s notified plan (protectionLocked zoneinfo Local digest now grace s plan)) (p_destinations plan)
  else [].

Definition verdicts (now : Time) (grace : Duration) (s : state) (notified : gmap string OperationalAlert) : list verdict :=
  e ← range_list (Plans s); watchPlan now grace s notified e.2.

Definition raise (active : gmap string OperationalAlert) (v : verdict) : gmap string OperationalAlert :=
  match vd_alert v with Some alert => <[vd_key v := alert]> active | None => active end.

Definition pauseAlert (reasons : list PauseReason) : gmap string OperationalAlert :=
  match reasons with [] => ∅ | _ => {["pause" := mkAlert "backup_protection_paused" reasons "" "" "" "" zero_time]} end.

Definition activeAlerts (reasons : list PauseReason) (vs : list verdict) : gmap string OperationalAlert :=
  fold_left raise vs (pauseAlert reasons).

Record transition := mkTransition { tr_key : string; tr_alert : OperationalAlert; tr_clear : bool }.

Definition with_event (a : OperationalAlert) (event : string) : OperationalAlert :=
  mkAlert event (al_reasons a) (al_plan a) (al_plan_name a) (al_destination a) (al_destination_name a) (al_due a).

Definition raisedChange (notified : gmap string OperationalAlert) (e : string * OperationalAlert) : option transition :=
  if match notified !! e.1 with Some previous => str_eqb (alertSignature previous) (alertSignature e.2) | None => false end
  then None else Some (mkTransition e.1 e.2 false).

Definition clearedChange (active : gmap string OperationalAlert) (monitored : string → bool) (e : string * OperationalAlert) : option transition :=
  if is_some (active !! e.1) then None
  else if str_eqb e.1 "pause" then Some (mkTransition e.1 (with_event e.2 "backup_protection_resumed") true)
  else if monitored e.1 then Some (mkTransition e.1 (with_event e.2 "backup_copy_resolved") true) else None.

(** An alert about an assignment that is not monitored any more is dropped. *)
Definition forgotten_alert (active : gmap string OperationalAlert) (monitored : string → bool) (key : string) : bool :=
  negb (is_some (active !! key)) && negb (str_eqb key "pause") && negb (monitored key).

Definition forgetAlert (ios : string → IO) (now : Time) (drop : string → bool) (st : operationalAlertState * DB) (key : string) : operationalAlertState * DB :=
  if drop key
  then let a := mkAlerts (al_loaded st.1) (al_cursor st.1) (delete key (al_notified st.1)) in
       (a, persistOperationalAlertsLocked (ios key) now a st.2)
  else st.

(** [sort.Slice] by the unique key, the pause first, then rotated after the cursor. *)
Definition rotate (cursor : string) (changes : list transition) : list transition :=
  let changes := sort_by tr_key changes in
  List.filter (λ c, str_eqb (tr_key c) "pause") changes ++
  List.filter (λ c, negb (str_eqb (tr_key c) "pause") && str_ltb cursor (tr_key c)) changes ++
  List.filter (λ c, negb (str_eqb (tr_key c) "pause") && negb (str_ltb cursor (tr_key c))) changes.

Definition changesOf (active notified : gmap string OperationalAlert) (monitored : string → bool) : list transition :=
  omap (raisedChange notified) (range_list active) ++ omap (clearedChange active monitored) (range_list notified).

Record observation := mkObservation {
  ob_alerts : operationalAlertState; ob_db : DB; ob_ordered : list transition; ob_heartbeat : option string }.

(** The part under the mutex; [ios] are the writes of dropped alerts. *)
Definition observeLocked (io : IO) (ios : string → IO) (now : Time) (g : guard) (s : state) (alerts : operationalAlertState) : observation :=
  let alerts := initializeOperationalAlertsLocked io (g_db g) alerts in
  let reasons := pauseReasonsLocked g in
  let vs := verdicts now (overdueGraceLocked g) s (al_notified alerts) in
  let active := activeAlerts reasons vs in
  let monitored key := str_in key (vd_key <$> vs) in
  let changes := changesOf active (al_notified alerts) monitored in
  let '(after_drop, db) := fold_left (forgetAlert ios now (forgotten_alert active monitored)) (fst <$> range_list (al_notified alerts)) (alerts, g_db g) in
  let target := HeartbeatURL (g_policy g) in
  let due := staleAt now (LastHeartbeatAt (g_policy g)) Minute in
  let healthy := match reasons with [] => true | _ => false end && forallb vd_healthy vs in
  mkObservation after_drop db (rotate (al_cursor after_drop) changes)
    (if negb (str_empty target) && negb (match vs with [] => true | _ => false end) && healthy && due then Some target else None).

(** One delivery; [ok] is the answer of the channel. *)
Definition deliverOne (io : IO) (now : Time) (ok : bool) (change : transition) (st : operationalAlertState * guard) : operationalAlertState * guard :=
  let '(a, g) := st in
  let cursor := if str_eqb (tr_key change) "pause" then al_cursor a else tr_key change in
  let notified := if negb ok then al_notified a
                  else if tr_clear change then delete (tr_key change) (al_notified a)
                  else <[tr_key change := tr_alert change]> (al_notified a) in
  let p := if ok then with_overdue (g_policy g) ((λ _, true) <$> filter (λ e, e.1 ≠ "pause") notified) else g_policy g in
  let a := mkAlerts (al_loaded a) cursor notified in
  (a, with_policy g p (persistOperationalAlertsLocked io now a (g_db g))).

(** At most sixteen deliveries, and no more than the context allows; there are
    none without a channel. *)
Definition maxDeliveries : nat := 16.

Fixpoint deliver (oks : nat → bool) (ios : nat → IO) (now : Time) (i : nat) (changes : list transition) (st : operationalAlertState * guard) : operationalAlertState * guard :=
  match changes with
  | [] => st
  | change :: rest => deliver oks ios now (S i) rest (deliverOne (ios i) now (oks i) change st)
  end.

Definition attempted_changes (budget : nat) (ordered : list transition) : list transition := take (min budget maxDeliveries) ordered.
End alerts.

(** ** Alerts: lemmas *)

Section alert_lemmas.
Context (zoneinfo : string → option Location) (Local : Location) (digest : string * list Source → string).
Context `{!MapRange string (Run * Plan), !MapRange string Plan, !MapRange string OperationalAlert, !DocText (string * gmap string OperationalAlert)}.
Implicit Types (notified active : gmap string OperationalAlert) (vs : list verdict).

(** [normalizePlan]: a plan has each destination once. *)
Definition plans_ok (s : state) : Prop := map_Forall (λ _ plan, NoDup (DestinationID <$> p_destinations plan)) (Plans s).

Lemma find_copy now grace s plan a : NoDup (DestinationID <$> p_destinations plan) → a ∈ p_destinations plan → counted plan a = true →
  find (λ c, str_eqb (pc_destination c) (DestinationID a)) (pp_copies (protectionLocked zoneinfo Local digest now grace s plan)) =
  Some (protectCopy zoneinfo Local digest now grace s plan a).
Proof using.
  intros Hnd Hin Hc. unfold protectionLocked. cbn [pp_copies].
  destruct (protect_loop zoneinfo Local digest now grace s plan (p_destinations plan) (mkPlanProgress 0 0 None None [] true false)) as (_ & _ & _ & -> & _).
  cbn [pg_copies app]. apply list_elem_of_split in Hin as (l1 & l2 & Hl). rewrite Hl in *.
  rewrite fmap_app, fmap_cons in Hnd. apply NoDup_app in Hnd as (_ & Hnd & _).
  assert (∀ b, pc_destination (if counted plan b then protectCopy zoneinfo Local digest now grace s plan b
    else disabledCopy (protectCopy zoneinfo Local digest now grace s plan b)) = DestinationID b) as Hd.
  { intros b. destruct (protectCopy_saved zoneinfo Local digest now grace s plan b) as (_ & _ & _ & Hb). by destruct (counted plan b). }
  assert (∀ b, b ∈ l1 → DestinationID b ≠ DestinationID a) as Hl1.
  { intros b Hb E. apply (Hnd (DestinationID b)); [by apply list_elem_of_fmap_2|]. rewrite E. by left. }
  clear Hnd Hl. induction l1 as [|b l1 IH]; cbn.
  - rewrite Hd. unfold str_eqb. rewrite bool_decide_true by done. by rewrite Hc.
  - rewrite Hd. unfold str_eqb. rewrite bool_decide_false by (apply Hl1; set_solver). apply IH. set_solver.
Qed.

(** An assignment whose alert, if there is one, is over. *)
Definition resolved_by now notified key (c : CopyProtection) : Prop :=
  pc_overdue_since c = None ∧ pc_usable c = true ∧ ∃ t, pc_last_capture c = Some t ∧ t <= now + clockSkewTolerance ∧
    ∀ previous, notified !! key = Some previous → al_due previous <= now + clockSkewTolerance → al_due previous <= t.

(** The copy that the loop looks at, and its verdict. *)
Lemma watch_spec now grace s notified plan a v :
  NoDup (DestinationID <$> p_destinations plan) → p_enabled plan = true → a ∈ p_destinations plan →
  watchAssignment now s notified plan (protectionLocked zoneinfo Local digest now grace s plan) a = Some v →
  let c := protectCopy zoneinfo Local digest now grace s plan a in
  AssignmentEnabled a = true ∧ automatic a = true ∧ vd_key v = checkpointKey (p_id plan) (DestinationID a) ∧
  (vd_healthy v = true ↔ resolved_by now notified (vd_key v) c) ∧
  (is_Some (pc_overdue_since c) → is_Some (vd_alert v)) ∧
  (vd_alert v = None → pc_overdue_since c = None ∧ (vd_healthy v = true ∨ notified !! vd_key v = None)).
Proof using.
  intros Hnd He Hin. unfold watchAssignment. destruct (AssignmentEnabled a) eqn:Ha; [|done]. destruct (automatic a) eqn:Hm; [|done]. cbn [negb orb].
  rewrite find_copy by (try done; unfold counted; by rewrite He, Ha). cbn [default].
  generalize (protectCopy zoneinfo Local digest now grace s plan a). intros c [= <-]. cbn [vd_key vd_healthy vd_alert].
  set (key := checkpointKey _ _). split_and!; try done.
  - unfold resolved_by. destruct (pc_overdue_since c); cbn [is_some negb].
    { rewrite andb_false_r. cbn. split; [|by intros [? _]]. destruct (notified !! key) as [p|]; [|done]. by destruct (future _ _). }
    rewrite andb_true_r. destruct (pc_last_capture c) as [t|]; [|cbn; split; [|naive_solver]; destruct (notified !! key) as [p|]; [by destruct (future now (al_due p))|done]].
    destruct (future now t) eqn:Ef; cbn [negb andb].
    { assert (¬ t <= now + clockSkewTolerance) as Hn by (rewrite <- future_false; congruence).
      split; [destruct (notified !! key) as [p|]; [by destruct (future now (al_due p))|done]|]. intros (_ & _ & t' & [= <-] & Ht & _). done. }
    apply future_false in Ef. destruct (notified !! key) as [p|].
    + destruct (future now (al_due p)) eqn:Ep.
      * assert (¬ al_due p <= now + clockSkewTolerance) by (rewrite <- future_false; congruence).
        split; [intros ->; split_and!; [done..|]; exists t; naive_solver|by intros (_ & -> & _)].
      * apply future_false in Ep. unfold before. destruct (Z.ltb_spec t (al_due p)); cbn [negb]; rewrite ?andb_false_r, ?andb_true_r.
        { split; [done|]. intros (_ & _ & t' & [= <-] & _ & Hp). specialize (Hp p eq_refl Ep). lia. }
        split; [intros ->; split_and!; [done..|]; exists t; naive_solver|by intros (_ & -> & _)].
    + split; [intros ->; split_and!; [done..|]; exists t; naive_solver|by intros (_ & -> & _)].
  - intros [t ->]. cbn. by eexists.
  - destruct (pc_overdue_since c); cbn [is_some]; [done|]. intros Hn. split; [done|].
    match type of Hn with (if ?r then _ else _) = _ => destruct r; [by left|by right] end.
Qed.

Lemma verdicts_spec now grace s notified v : plans_ok s → v ∈ verdicts zoneinfo Local digest now grace s notified ↔
  ∃ id plan a, Plans s !! id = Some plan ∧ p_enabled plan = true ∧ a ∈ p_destinations plan ∧
    NoDup (DestinationID <$> p_destinations plan) ∧
    watchAssignment now s notified plan (protectionLocked zoneinfo Local digest now grace s plan) a = Some v.
Proof using.
  intros Hok. unfold verdicts. rewrite list_elem_of_bind. split.
  - intros ([id plan] & Hv & Hin). apply range_list_elem in Hin. unfold watchPlan in Hv. cbn in Hv.
    destruct (p_enabled plan) eqn:He; [|by apply elem_of_nil in Hv]. apply list_elem_of_omap in Hv as (a & Ha & Hw).
    exists id, plan, a. split_and!; try done. by apply (Hok id).
  - intros (id & plan & a & Hp & He & Ha & _ & Hw). exists (id, plan). split; [|by apply range_list_elem].
    unfold watchPlan. cbn. rewrite He. apply list_elem_of_omap. by exists a.
Qed.

(** Every automatic assignment of an enabled plan is watched. *)
Lemma watched now grace s notified id plan a : Plans s !! id = Some plan → p_enabled plan = true → a ∈ p_destinations plan → plans_ok s →
  AssignmentEnabled a = true → automatic a = true → ∃ v,
    v ∈ verdicts zoneinfo Local digest now grace s notified ∧
    watchAssignment now s notified plan (protectionLocked zoneinfo Local digest now grace s plan) a = Some v.
Proof using.
  intros Hp He Hin Hok Ha Hm.
  destruct (watchAssignment now s notified plan (protectionLocked zoneinfo Local digest now grace s plan) a) as [v|] eqn:Hw.
  - exists v. split; [|done]. apply verdicts_spec; [done|]. exists id, plan, a. split_and!; try done. by apply (Hok id).
  - exfalso. unfold watchAssignment in Hw. by rewrite Ha, Hm in Hw.
Qed.

End alert_lemmas.

Section alert_changes.
Context `{!MapRange string OperationalAlert}.
Implicit Types (notified active : gmap string OperationalAlert) (vs : list verdict).

Lemma key_not_pause planID destinationID : checkpointKey planID destinationID ≠ "pause".
Proof using.
  intros E. assert (free_of "/" (checkpointKey planID destinationID) = true) as H by (by rewrite E).
  unfold checkpointKey in H. rewrite !free_of_app in H. apply andb_true_iff in H as [_ H]. by cbn in H.
Qed.

Lemma raise_fold vs m k :
  (is_Some (fold_left raise vs m !! k) ↔ is_Some (m !! k) ∨ ∃ v, v ∈ vs ∧ vd_key v = k ∧ is_Some (vd_alert v)).
Proof using.
  revert m. induction vs as [|v vs IH]; intros m; cbn [fold_left].
  { split; [by left|]. intros [?|(v & Hv & _)]; [done|]. by apply elem_of_nil in Hv. }
  rewrite IH. unfold raise. destruct (vd_alert v) as [alert|] eqn:Ev.
  - destruct (decide (vd_key v = k)) as [<-|Hne].
    + rewrite lookup_insert_eq. split; [|by left; eexists]. intros _. right. exists v. rewrite Ev. split_and!; [by left|done|by eexists].
    + rewrite lookup_insert_ne by done. split; [intros [?|(w & Hw & ?)]; [by left|right; exists w; split; [by right|done]]|].
      intros [?|(w & [->|Hw]%elem_of_cons & Hk & ?)]; [by left|done|right; by exists w].
  - split; [intros [?|(w & Hw & ?)]; [by left|right; exists w; split; [by right|done]]|].
    intros [?|(w & [->|Hw]%elem_of_cons & Hk & Ha)]; [by left|by rewrite Ev in Ha; destruct Ha|right; by exists w].
Qed.

Lemma pauseAlert_lookup reasons k : is_Some (pauseAlert reasons !! k) ↔ reasons ≠ [] ∧ k = "pause".
Proof using.
  unfold pauseAlert. destruct reasons as [|r rs]; [rewrite lookup_empty; split; [by intros [? ?]|by intros [? _]]|].
  rewrite lookup_singleton_is_Some. split; [by intros <-|by intros [_ ->]].
Qed.

(** ** The changes *)

Lemma changes_spec active notified monitored tr :
  tr ∈ changesOf active notified monitored ↔
  (tr_clear tr = false ∧ active !! tr_key tr = Some (tr_alert tr) ∧
     ∀ p, notified !! tr_key tr = Some p → alertSignature p ≠ alertSignature (tr_alert tr)) ∨
  (tr_clear tr = true ∧ active !! tr_key tr = None ∧ ∃ p, notified !! tr_key tr = Some p ∧
     ((tr_key tr = "pause" ∧ tr_alert tr = with_event p "backup_protection_resumed") ∨
      (tr_key tr ≠ "pause" ∧ monitored (tr_key tr) = true ∧ tr_alert tr = with_event p "backup_copy_resolved"))).
Proof using.
  unfold changesOf. rewrite elem_of_app, !list_elem_of_omap. split.
  - intros [([k al] & Hin & Hc)|([k al] & Hin & Hc)]; apply range_list_elem in Hin.
    + left. unfold raisedChange in Hc. cbn in Hc. destruct (notified !! k) as [p|] eqn:Ek.
      * destruct (str_eqb _ _) eqn:E; [done|]. injection Hc as <-. boolify. cbn. split_and!; [done..|]. rewrite Ek. by intros ? [= <-].
      * injection Hc as <-. cbn. split_and!; [done..|]. by rewrite Ek.
    + right. unfold clearedChange in Hc. cbn in Hc. destruct (active !! k) eqn:Ea; [done|]. cbn in Hc.
      destruct (str_eqb k "pause") eqn:Ep; [|destruct (monitored k) eqn:Em; [|done]]; injection Hc as <-; boolify; cbn; subst;
        (split_and!; [done|exact Ea|exists al; split; [done|]]); [by left|by right].
  - destruct tr as [k al []]; cbn; intros [(Hc & Ha & Hn)|(Hc & Ha & p & Hp & Hd)]; try done.
    + right. exists (k, p). split; [by apply range_list_elem|]. unfold clearedChange. cbn. rewrite Ha. cbn. unfold str_eqb.
      destruct Hd as [[-> ->]|(Hk & Hm & ->)]; [by rewrite bool_decide_true|]. by rewrite bool_decide_false, Hm.
    + left. exists (k, al). split; [by apply range_list_elem|]. unfold raisedChange. cbn. destruct (notified !! k) as [p|]; [|done].
      unfold str_eqb. by rewrite bool_decide_false by (by apply Hn).
Qed.

Lemma changes_keys active notified monitored : NoDup (tr_key <$> changesOf active notified monitored).
Proof using.
  unfold changesOf. rewrite fmap_app. apply NoDup_app.
  assert (∀ (m : gmap string OperationalAlert) f, (∀ e tr, f e = Some tr → tr_key tr = e.1) → NoDup (tr_key <$> omap f (range_list m))) as Hm.
  { intros m f Hf. assert (NoDup (range_list m).*1) as Hnd by (rewrite range_perm; apply NoDup_fst_map_to_list).
    revert Hnd. induction (range_list m) as [|e l IH]; cbn; [done|]. intros [Hn Hnd]%NoDup_cons.
    destruct (f e) as [tr|] eqn:E; cbn; [|by apply IH]. apply NoDup_cons. split; [|by apply IH].
    intros (tr' & Hk & (e' & He' & Hf')%list_elem_of_omap)%list_elem_of_fmap. apply Hn. apply list_elem_of_fmap. exists e'. split; [|done].
    rewrite <- (Hf e tr E), Hk. by apply Hf. }
  assert (∀ e tr, raisedChange notified e = Some tr → tr_key tr = e.1) as H1.
  { intros e tr. unfold raisedChange. destruct (match notified !! e.1 with Some _ => _ | None => _ end); [done|]. by intros [= <-]. }
  assert (∀ e tr, clearedChange active monitored e = Some tr → tr_key tr = e.1 ∧ active !! e.1 = None) as H2.
  { intros e tr. unfold clearedChange. destruct (active !! e.1); [done|]. cbn. destruct (str_eqb _ _); [by intros [= <-]|].
    destruct (monitored e.1); [by intros [= <-]|done]. }
  split_and!; [by apply Hm| |by apply Hm; intros e tr Ht; apply H2].
  intros k (tr & -> & (e & He & Hr)%list_elem_of_omap)%list_elem_of_fmap (tr' & Hk & (e' & He' & Hc)%list_elem_of_omap)%list_elem_of_fmap.
  apply H1 in Hr. apply H2 in Hc as [Hc Hn]. destruct e as [k al]. apply range_list_elem in He. cbn in Hr.
  rewrite <- Hc, <- Hk, Hr, He in Hn. done.
Qed.

Lemma rotate_elem cursor changes tr : tr ∈ rotate cursor changes ↔ tr ∈ changes.
Proof using.
  unfold rotate. rewrite !elem_of_app, !list_elem_of_In, !List.filter_In, <- !list_elem_of_In, !sort_by_elem.
  destruct (str_eqb (tr_key tr) "pause"), (str_ltb cursor (tr_key tr)); cbn; naive_solver.
Qed.

Lemma filter_split3 {A} (f h : A → bool) l :
  List.filter f l ++ List.filter (λ x, negb (f x) && h x) l ++ List.filter (λ x, negb (f x) && negb (h x)) l ≡ₚ l.
Proof using.
  induction l as [|x l IH]; cbn; [done|]. destruct (f x), (h x); cbn.
  - by rewrite IH.
  - by rewrite IH.
  - by rewrite <- Permutation_middle, IH.
  - by rewrite (assoc_L app), <- Permutation_middle, <- (assoc_L app), IH.
Qed.

Lemma rotate_perm cursor changes : rotate cursor changes ≡ₚ changes.
Proof using. unfold rotate. rewrite (filter_split3 (λ c, str_eqb (tr_key c) "pause")). apply sort_by_perm. Qed.

Lemma rotate_pause_first cursor changes i tr : NoDup (tr_key <$> changes) →
  rotate cursor changes !! i = Some tr → tr_key tr = "pause" → i = 0%nat.
Proof using.
  intros Hnd Hi Hk. rewrite <- (rotate_perm cursor) in Hnd. unfold rotate in *.
  set (P := List.filter _ _) in *. set (R := List.filter _ _ ++ List.filter _ _) in *.
  assert (∀ t, t ∈ P → tr_key t = "pause") as HP.
  { intros t Ht. unfold P in Ht. apply list_elem_of_In, List.filter_In in Ht as [_ Ht]. by boolify. }
  assert (∀ t, t ∈ R → tr_key t ≠ "pause") as HR.
  { intros t Ht. unfold R in Ht. rewrite elem_of_app, !list_elem_of_In, !List.filter_In in Ht.
    destruct Ht as [[_ Ht]|[_ Ht]]; apply andb_true_iff in Ht as [Ht _]; by boolify. }
  apply lookup_app_Some in Hi as [Hi|[_ Hi]]; [|by apply list_elem_of_lookup_2, HR in Hi].
  destruct P as [|p [|q P]]; [done|by destruct i as [|[]]|]. exfalso.
  rewrite fmap_app, !fmap_cons, (HP p), (HP q) in Hnd by set_solver. apply NoDup_cons in Hnd as [Hnd _]. apply Hnd. by left.
Qed.
End alert_changes.

Section verdict_keys.
Context (zoneinfo : string → option Location) (Local : Location) (digest : string * list Source → string).
Context `{!MapRange string (Run * Plan), !MapRange string Plan}.

Lemma verdict_key now grace s notified v : v ∈ verdicts zoneinfo Local digest now grace s notified → vd_key v ≠ "pause".
Proof using.
  unfold verdicts. intros ([id plan] & Hv & _)%list_elem_of_bind. unfold watchPlan in Hv. cbn in Hv.
  destruct (p_enabled plan); [|by apply elem_of_nil in Hv]. apply list_elem_of_omap in Hv as (a & _ & Hw).
  unfold watchAssignment in Hw. destruct (_ || _); [done|]. injection Hw as <-. apply key_not_pause.
Qed.
End verdict_keys.

(** ** Monitoring: properties *)

Section monitoring.
Context (zoneinfo : string → option Location) (Local : Location) (digest : string * list Source → string).
Context `{!MapRange string (Run * Plan), !MapRange string Plan, !MapRange string OperationalAlert, !DocText (string * gmap string OperationalAlert)}.
Context (io : IO) (ios : string → IO) (now : Time) (g : guard) (s : state) (alerts : operationalAlertState).

(** What the observation starts from and finds. *)
Definition knownAlerts : gmap string OperationalAlert := al_notified (initializeOperationalAlertsLocked io (g_db g) alerts).
Definition foundVerdicts : list verdict := verdicts zoneinfo Local digest now (overdueGraceLocked g) s knownAlerts.
Definition raisedAlerts : gmap string OperationalAlert := activeAlerts (pauseReasonsLocked g) foundVerdicts.
Definition observed : observation := observeLocked zoneinfo Local digest io ios now g s alerts.

Lemma forget_cursor drop l st : al_cursor (fold_left (forgetAlert ios now drop) l st).1 = al_cursor st.1.
Proof using. revert st. induction l as [|k l IH]; intros st; cbn; [done|]. rewrite IH. unfold forgetAlert. by destruct (drop k). Qed.

Lemma observed_fields :
  ob_ordered observed = rotate (al_cursor (initializeOperationalAlertsLocked io (g_db g) alerts))
    (changesOf raisedAlerts knownAlerts (λ key, str_in key (vd_key <$> foundVerdicts))) ∧
  ob_heartbeat observed =
    if negb (str_empty (HeartbeatURL (g_policy g))) && negb (match foundVerdicts with [] => true | _ => false end)
       && (match pauseReasonsLocked g with [] => true | _ => false end && forallb vd_healthy foundVerdicts)
       && staleAt now (LastHeartbeatAt (g_policy g)) Minute
    then Some (HeartbeatURL (g_policy g)) else None.
Proof using.
  unfold observed, observeLocked. fold knownAlerts foundVerdicts raisedAlerts.
  pose proof (forget_cursor (forgotten_alert raisedAlerts (λ key, str_in key (vd_key <$> foundVerdicts)))
    (fst <$> range_list knownAlerts) (initializeOperationalAlertsLocked io (g_db g) alerts, g_db g)) as Hc.
  destruct (fold_left _ _ _) as [after db]. cbn in Hc. cbn. by rewrite Hc.
Qed.

(** The data behind a verdict that nothing is wrong. *)
Lemma healthy_verdict plan a v : NoDup (DestinationID <$> p_destinations plan) → p_enabled plan = true → a ∈ p_destinations plan →
  watchAssignment now s knownAlerts plan (protectionLocked zoneinfo Local digest now (overdueGraceLocked g) s plan) a = Some v →
  vd_healthy v = true → ∃ cp, proves digest now s plan a cp ∧
    (∀ due, firstOutstandingDue zoneinfo Local a (Some (cp_captured_at cp)) now (overdueGraceLocked g) = Some due → now < due + overdueGraceLocked g) ∧
    (∀ previous, knownAlerts !! checkpointKey (p_id plan) (DestinationID a) = Some previous → al_due previous <= now + clockSkewTolerance →
       al_due previous <= cp_captured_at cp).
Proof using.
  intros Hnd He Hin Hw Hh. destruct (watch_spec zoneinfo Local digest _ _ _ _ _ _ _ Hnd He Hin Hw) as (Ha & Hm & Hk & Hiff & _).
  apply Hiff in Hh as (Hover & Hus & t & Hcap & _ & Hprev). apply usable_proves in Hus as [cp Hcp]. exists cp. split; [done|].
  destruct (protectCopy_saved zoneinfo Local digest now (overdueGraceLocked g) s plan a) as (Hlast & _).
  destruct (protectCopy_overdue zoneinfo Local digest now (overdueGraceLocked g) s plan a) as [Ho Hf].
  rewrite Hlast, (pr_saved _ _ _ _ _ _ Hcp) in Hcap, Hf. cbn in Hcap. injection Hcap as <-. rewrite Hm, He, Ha in Hf. cbn in Hf. split.
  - intros due Hd. rewrite Hf in Ho. cbn in Ho, Hd. rewrite Hd, Hover in Ho. unfold before in Ho.
    destruct (Z.ltb_spec now (due + overdueGraceLocked g)); [done|discriminate].
  - intros previous Hp. rewrite <- Hk in Hp. by apply Hprev.
Qed.

(** C18: the dead man's switch tells the truth: a heartbeat is sent only when
    nothing pauses automatic work, something is monitored, and every automatic
    copy of every enabled plan is proven by present and recently checked evidence,
    is not overdue beyond its grace, and is newer than the occurrence of any alert
    that was delivered about it. *)
Theorem heartbeat_sound target : plans_ok s → ob_heartbeat observed = Some target →
  target = HeartbeatURL (g_policy g) ∧ SchedulingPaused g = false ∧
  (∃ id plan a, Plans s !! id = Some plan ∧ p_enabled plan = true ∧ a ∈ p_destinations plan ∧ AssignmentEnabled a = true ∧ automatic a = true) ∧
  ∀ id plan a, Plans s !! id = Some plan → p_enabled plan = true → a ∈ p_destinations plan →
    AssignmentEnabled a = true → automatic a = true → ∃ cp, proves digest now s plan a cp ∧
    (∀ due, firstOutstandingDue zoneinfo Local a (Some (cp_captured_at cp)) now (overdueGraceLocked g) = Some due → now < due + overdueGraceLocked g) ∧
    (∀ previous, knownAlerts !! checkpointKey (p_id plan) (DestinationID a) = Some previous → al_due previous <= now + clockSkewTolerance →
       al_due previous <= cp_captured_at cp).
Proof using.
  intros Hok. destruct observed_fields as [_ ->]. destruct (negb (str_empty _) && _ && _ && _) eqn:E; [|done]. intros [= <-]. split; [done|].
  apply andb_true_iff in E as [[[_ Hne]%andb_true_iff [Hp Hall]%andb_true_iff]%andb_true_iff _]. rewrite forallb_forall in Hall. split_and!.
  - unfold SchedulingPaused. by destruct (pauseReasonsLocked g).
  - destruct foundVerdicts as [|v vs] eqn:Ev; [done|].
    assert (v ∈ foundVerdicts) as Hv by (rewrite Ev; by left). apply verdicts_spec in Hv as (id & plan & a & Hpl & He & Hin & _ & Hw); [|done].
    exists id, plan, a. unfold watchAssignment in Hw. destruct (AssignmentEnabled a), (automatic a); try done.
  - intros id plan a Hpl He Hin Ha Hm. destruct (watched zoneinfo Local digest now (overdueGraceLocked g) s knownAlerts id plan a) as (v & Hv & Hw); try done.
    eapply healthy_verdict; [by apply (Hok id)|done..|]. apply Hall. by apply list_elem_of_In.
Qed.

(** the notifications are exactly the differences between what is wrong now and
    what was delivered: every condition whose alert was not delivered yet, every
    delivered alert whose condition is over, each key once, the pause first. *)
Theorem alerts_exact :
  (∀ tr, tr ∈ ob_ordered observed ↔
    (tr_clear tr = false ∧ raisedAlerts !! tr_key tr = Some (tr_alert tr) ∧
       ∀ p, knownAlerts !! tr_key tr = Some p → alertSignature p ≠ alertSignature (tr_alert tr)) ∨
    (tr_clear tr = true ∧ raisedAlerts !! tr_key tr = None ∧ ∃ p, knownAlerts !! tr_key tr = Some p ∧
       ((tr_key tr = "pause" ∧ tr_alert tr = with_event p "backup_protection_resumed") ∨
        (tr_key tr ≠ "pause" ∧ tr_key tr ∈ vd_key <$> foundVerdicts ∧ tr_alert tr = with_event p "backup_copy_resolved")))) ∧
  (is_Some (raisedAlerts !! "pause") ↔ SchedulingPaused g = true) ∧
  NoDup (tr_key <$> ob_ordered observed) ∧
  (∀ i tr, ob_ordered observed !! i = Some tr → tr_key tr = "pause" → i = 0%nat).
Proof using.
  destruct observed_fields as [-> _]. set (changes := changesOf _ _ _).
  pose proof (changes_keys raisedAlerts knownAlerts (λ key, str_in key (vd_key <$> foundVerdicts))) as Hnd. fold changes in Hnd. split_and!.
  - intros tr. rewrite rotate_elem. unfold changes. rewrite changes_spec. unfold str_in. by setoid_rewrite bool_decide_eq_true.
  - unfold raisedAlerts, activeAlerts. rewrite raise_fold, pauseAlert_lookup. unfold SchedulingPaused. split.
    + intros [[Hr _]|(v & Hv & Hk & _)]; [by destruct (pauseReasonsLocked g)|by apply verdict_key in Hv].
    + intros Hp. left. split; [by destruct (pauseReasonsLocked g)|done].
  - by rewrite rotate_perm.
  - intros i tr. by apply rotate_pause_first.
Qed.

(** an alarm is only given up for a new copy: when a delivered alert about an
    overdue copy is reported as resolved, a copy is proven by usable evidence that
    is at least as new as the missed occurrence. *)
Theorem alarm_needs_new_copy tr : plans_ok s → tr ∈ ob_ordered observed → tr_clear tr = true → tr_key tr ≠ "pause" →
  ∃ previous id plan a cp, knownAlerts !! tr_key tr = Some previous ∧ Plans s !! id = Some plan ∧ a ∈ p_destinations plan ∧
    tr_key tr = checkpointKey (p_id plan) (DestinationID a) ∧ proves digest now s plan a cp ∧
    (al_due previous <= now + clockSkewTolerance → al_due previous <= cp_captured_at cp).
Proof using.
  intros Hok Hin Hc Hk. destruct observed_fields as [Eo _]. rewrite Eo, rotate_elem, changes_spec in Hin.
  destruct Hin as [(Hn & _)|(_ & Hna & p & Hp & [[? _]|(_ & Hmon & _)])]; [congruence|done|].
  unfold str_in in Hmon. rewrite bool_decide_eq_true in Hmon. apply list_elem_of_fmap in Hmon as (v & Hkv & Hv).
  assert (vd_alert v = None) as Hnone.
  { destruct (vd_alert v) as [al|] eqn:E; [|done]. exfalso. apply eq_None_not_Some in Hna. apply Hna, raise_fold. right. exists v. by rewrite E. }
  apply verdicts_spec in Hv as (id & plan & a & Hpl & He & Ha & Hnd & Hw); [|done].
  destruct (watch_spec zoneinfo Local digest _ _ _ _ _ _ _ Hnd He Ha Hw) as (_ & _ & Hkey & _ & _ & Hres).
  destruct (Hres Hnone) as [_ [Hh|Hno]]; [|congruence].
  destruct (healthy_verdict plan a v Hnd He Ha Hw Hh) as (cp & Hcp & _ & Hprev).
  exists p, id, plan, a, cp. split_and!; try done; [by rewrite Hkv|]. apply Hprev. by rewrite <- Hkey, <- Hkv.
Qed.

(** no overdue copy stays silent: a copy that is past its grace has an alert
    that was delivered or is about to be. *)
Theorem overdue_is_reported id plan a since : plans_ok s →
  Plans s !! id = Some plan → p_enabled plan = true → a ∈ p_destinations plan → AssignmentEnabled a = true → automatic a = true →
  pc_overdue_since (protectCopy zoneinfo Local digest now (overdueGraceLocked g) s plan a) = Some since →
  let key := checkpointKey (p_id plan) (DestinationID a) in
  ∃ alert, raisedAlerts !! key = Some alert ∧
    ((∃ p, knownAlerts !! key = Some p ∧ alertSignature p = alertSignature alert) ∨ mkTransition key alert false ∈ ob_ordered observed).
Proof using.
  intros Hok Hpl He Hin Ha Hm Hover key. destruct (watched zoneinfo Local digest now (overdueGraceLocked g) s knownAlerts id plan a) as (v & Hv & Hw); try done.
  destruct (watch_spec zoneinfo Local digest _ _ _ _ _ _ _ (Hok id plan Hpl) He Hin Hw) as (_ & _ & Hk & _ & Hal & _).
  assert (is_Some (raisedAlerts !! key)) as [alert Halert].
  { apply raise_fold. right. exists v. split_and!; [done|by rewrite Hk|]. apply Hal. by rewrite Hover. }
  exists alert. split; [done|]. destruct observed_fields as [-> _]. rewrite rotate_elem, changes_spec. cbn.
  destruct (knownAlerts !! key) as [p|] eqn:Ep; [|right; left; by split_and!].
  destruct (decide (alertSignature p = alertSignature alert)); [left; by exists p|right; left]. split_and!; [done..|]. by intros ? [= <-].
Qed.
End monitoring.

(** ** The rotation *)

Section rotation.
Context `{!DocText (string * gmap string OperationalAlert)} (ios : nat → IO) (now : Time).

(** Rounds with a channel that fails, as long as the same changes are outstanding;
    a budget is the number of deliveries that the context of a round allows. *)
Definition roundChanges (budget : nat) (changes : list transition) (st : operationalAlertState * guard) : list transition :=
  attempted_changes budget (rotate (al_cursor st.1) changes).

Fixpoint failingRounds (budgets : list nat) (changes : list transition) (st : operationalAlertState * guard) : list string :=
  match budgets with
  | [] => []
  | budget :: rest =>
    let attempted := roundChanges budget changes st in
    (tr_key <$> attempted) ++ failingRounds rest changes (deliver (λ _, false) ios now 0 attempted st)
  end.

Definition isPause (c : transition) : bool := str_eqb (tr_key c) "pause".

(** The copies of a sorted list, those after the cursor first. *)
Definition rotated (cursor : string) (l : list transition) : list transition :=
  List.filter (λ c, str_ltb cursor (tr_key c)) l ++ List.filter (λ c, negb (str_ltb cursor (tr_key c))) l.

Definition keys_increase (l : list transition) : Prop := StronglySorted (λ x y, str_ltb (tr_key x) (tr_key y) = true) l.

Lemma filter_filter_and {A} (f h : A → bool) l : List.filter h (List.filter f l) = List.filter (λ x, f x && h x) l.
Proof using. induction l as [|x l IH]; cbn; [done|]. destruct (f x); cbn; [destruct (h x); by rewrite IH|done]. Qed.

Lemma rotate_parts cursor changes :
  rotate cursor changes = List.filter isPause (sort_by tr_key changes) ++ rotated cursor (List.filter (λ c, negb (isPause c)) (sort_by tr_key changes)).
Proof using. unfold rotate, rotated. by rewrite !filter_filter_and. Qed.

Lemma sorted_keys_increase changes : NoDup (tr_key <$> changes) → keys_increase (List.filter (λ c, negb (isPause c)) (sort_by tr_key changes)).
Proof using.
  intros Hnd. assert (keys_increase (sort_by tr_key changes)) as Hs.
  { rewrite <- (sort_by_perm tr_key changes) in Hnd. assert (StronglySorted (key_le tr_key) (sort_by tr_key changes)) as Hs by (apply Sorted_StronglySorted; [apply _|apply sort_by_sorted]).
    induction Hs as [|c l Hs IH Hf]; [constructor|]. rewrite fmap_cons in Hnd. apply NoDup_cons in Hnd as [Hn Hnd]. constructor; [by apply IH|].
    apply Forall_forall. intros d Hd. apply str_ltb_lt. rewrite Forall_forall in Hf. split; [by apply Hf|]. intros E. apply Hn. rewrite E. by apply list_elem_of_fmap_2. }
  induction Hs as [|c l Hs IH Hf]; [constructor|]. cbn. destruct (negb (isPause c)); [|done]. constructor; [done|].
  apply Forall_forall. intros d Hd. apply list_elem_of_In, List.filter_In in Hd as [Hd _]. rewrite Forall_forall in Hf. by apply Hf, list_elem_of_In.
Qed.

Lemma filter_all {A} (f : A → bool) l : (∀ x, x ∈ l → f x = true) → List.filter f l = l.
Proof using. induction l as [|x l IH]; cbn; intros H; [done|]. rewrite H by set_solver. f_equal. apply IH. set_solver. Qed.
Lemma filter_none {A} (f : A → bool) l : (∀ x, x ∈ l → f x = false) → List.filter f l = [].
Proof using. induction l as [|x l IH]; cbn; intros H; [done|]. rewrite H by set_solver. apply IH. set_solver. Qed.

Lemma rotated_at l1 x l2 : keys_increase (l1 ++ x :: l2) → rotated (tr_key x) (l1 ++ x :: l2) = l2 ++ l1 ++ [x].
Proof using.
  intros Hs. assert (∀ y, y ∈ l2 → str_ltb (tr_key x) (tr_key y) = true) as H2.
  { induction l1 as [|z l1 IH]; cbn in Hs; apply StronglySorted_inv in Hs as [Hs Hf]; [by apply Forall_forall|by apply IH]. }
  assert (∀ y, y ∈ l1 → str_ltb (tr_key x) (tr_key y) = false) as H1.
  { intros y Hy. induction l1 as [|z l1 IH]; [by apply elem_of_nil in Hy|]. cbn in Hs. apply StronglySorted_inv in Hs as [Hs Hf].
    apply elem_of_cons in Hy as [->|Hy]; [|by apply IH]. rewrite Forall_forall in Hf. specialize (Hf x ltac:(set_solver)).
    apply str_ltb_lt in Hf as [Hle _]. unfold str_ltb. by rewrite bool_decide_true. }
  unfold rotated. rewrite !List.filter_app. cbn. rewrite str_ltb_irrefl. cbn.
  rewrite (filter_all _ l2 H2), (filter_none _ l1 H1), (filter_all _ l1), (filter_none _ l2); [done|..].
  - intros y Hy. by rewrite (H2 y Hy).
  - intros y Hy. by rewrite (H1 y Hy).
Qed.

(** Going on after an attempted copy is a rotation of the list. *)
Lemma rotated_next l1 l2 u x v : keys_increase (l1 ++ l2) → l2 ++ l1 = u ++ x :: v → rotated (tr_key x) (l1 ++ l2) = v ++ u ++ [x].
Proof using.
  intros Hs E. apply app_eq_inv in E as [([|y k] & -> & Hk)|(k & -> & ->)].
  - cbn in Hk. subst l1. rewrite app_nil_r in *. rewrite <- app_comm_cons in *. exact (eq_trans (rotated_at [] x (v ++ u) Hs) (eq_sym (app_assoc v u [x]))).
  - injection Hk as <- ->. rewrite (app_assoc l1) in *. by rewrite rotated_at, <- !app_assoc.
  - rewrite <- app_assoc, <- app_comm_cons in *. by rewrite rotated_at, <- !app_assoc.
Qed.

Lemma str_ltb_trans (x y z : string) : str_ltb x y = true → str_ltb y z = true → str_ltb x z = true.
Proof using.
  rewrite !str_ltb_lt. intros [H1 N1] [H2 N2]. split; [by etrans|]. intros ->. apply N2. by apply (anti_symm String.le).
Qed.

Lemma rotated_split cursor l : keys_increase l →
  l = List.filter (λ c, negb (str_ltb cursor (tr_key c))) l ++ List.filter (λ c, str_ltb cursor (tr_key c)) l.
Proof using.
  intros Hs. induction Hs as [|c l Hs IH Hf]; [done|]. cbn. rewrite Forall_forall in Hf. destruct (str_ltb cursor (tr_key c)) eqn:E; cbn; [|by f_equal].
  rewrite (filter_none (λ c, negb (str_ltb cursor (tr_key c)))), (filter_all (λ c, str_ltb cursor (tr_key c))); [done|..];
    intros d Hd; by rewrite (str_ltb_trans _ _ _ E (Hf d Hd)).
Qed.

Lemma rotated_after cursor l u x v : keys_increase l → rotated cursor l = u ++ x :: v → rotated (tr_key x) l = v ++ u ++ [x].
Proof using.
  intros Hs E. pose proof (rotated_split cursor l Hs) as Hl. unfold rotated in E. rewrite Hl in Hs |- *. by apply rotated_next.
Qed.

Lemma deliver_cursor i ps cs x st : (∀ c, c ∈ ps → isPause c = true) → isPause x = false →
  al_cursor (deliver (λ _, false) ios now i (ps ++ cs ++ [x]) st).1 = tr_key x.
Proof using.
  intros Hp Hx. revert i st. induction ps as [|p ps IH]; intros i st; cbn [app deliver]; [|apply IH; set_solver].
  clear Hp. revert i st. induction cs as [|c cs IH]; intros i [a g]; cbn [app deliver]; [|apply IH].
  unfold deliverOne. unfold isPause in Hx. by rewrite Hx.
Qed.

(** The deliveries of copies that the budgets allow. *)
Definition copyBudget (budgets : list nat) : nat := sum_list ((λ b, min b maxDeliveries - 1)%nat <$> budgets).

Lemma failing_copies changes budgets st i c : NoDup (tr_key <$> changes) → Forall (λ b, 2 ≤ b)%nat budgets →
  rotated (al_cursor st.1) (List.filter (λ c, negb (isPause c)) (sort_by tr_key changes)) !! i = Some c →
  (i < copyBudget budgets)%nat → tr_key c ∈ failingRounds budgets changes st.
Proof using.
  intros Hnd. pose proof (sorted_keys_increase changes Hnd) as Hs. revert st i.
  set (C := List.filter (λ c, negb (isPause c)) (sort_by tr_key changes)) in *.
  induction budgets as [|b budgets IH]; intros st i Hb Hi Hlt; [cbn in Hlt; lia|]. apply Forall_cons in Hb as [Hb2 Hb]. cbn [failingRounds].
  apply elem_of_app. change (copyBudget (b :: budgets)) with ((min b maxDeliveries - 1) + copyBudget budgets)%nat in Hlt. unfold roundChanges, attempted_changes. rewrite rotate_parts.
  set (P := List.filter isPause (sort_by tr_key changes)). fold C. set (m := min b maxDeliveries) in *.
  assert (2 ≤ m)%nat as Hm by (unfold m, maxDeliveries; lia).
  assert (length P ≤ 1)%nat as HP.
  { destruct P as [|p [|q P']] eqn:EP; cbn; [lia..|]. exfalso.
    assert (rotate (al_cursor st.1) changes !! 1%nat = Some q) as Hq by (rewrite rotate_parts; fold P; by rewrite EP).
    assert (q ∈ P) as Hqp by (rewrite EP; set_solver). unfold P in Hqp. apply list_elem_of_In, List.filter_In in Hqp as [_ Hqp]. unfold isPause in Hqp. boolify.
    by pose proof (rotate_pause_first _ _ _ _ Hnd Hq Hqp). }
  rewrite take_app, (take_ge P) by lia. set (R := rotated (al_cursor st.1) C) in *. set (k := (m - length P)%nat).
  assert (1 ≤ k ∧ m - 1 ≤ k)%nat as [Hk1 Hkm] by (unfold k; lia). clearbody k.
  destruct (decide (i < k)%nat) as [Hik|Hik].
  { left. apply list_elem_of_fmap. exists c. split; [done|]. apply elem_of_app. right. apply list_elem_of_lookup. exists i. by rewrite lookup_take_lt. }
  right. pose proof (lookup_lt_Some _ _ _ Hi) as Hlen. destruct (lookup_lt_is_Some_2 R (k - 1)) as [x Hx]; [lia|].
  assert (R = take (k - 1) R ++ x :: drop k R) as HR.
  { assert (k = S (k - 1)) as Hk by lia. rewrite Hk at 2. by rewrite (take_drop_middle R (k - 1) x Hx). }
  assert (take k R = take (k - 1) R ++ [x]) as ->.
  { assert (k = S (k - 1)) as Hk by lia. rewrite Hk at 1. by apply take_S_r. }
  apply (IH _ (i - k)%nat); [done| |lia].
  assert (isPause x = false) as Hxp.
  { apply list_elem_of_lookup_2 in Hx. unfold R, rotated in Hx. rewrite elem_of_app, !list_elem_of_In, !List.filter_In in Hx.
    assert (In x C) as HxC by tauto. unfold C in HxC. apply List.filter_In in HxC as [_ HxC]. by boolify. }
  rewrite deliver_cursor; [|intros p Hp; unfold P in Hp; apply list_elem_of_In, List.filter_In in Hp as [_ Hp]; done|done].
  rewrite (rotated_after _ C _ x (drop k R) Hs HR). rewrite lookup_app_l; [|rewrite length_drop; lia]. rewrite lookup_drop. rewrite <- Hi. f_equal. lia.
Qed.

(** a failing channel starves nobody: while deliveries fail, every outstanding
    change is attempted as soon as the rounds together allowed as many deliveries,
    one per round set aside for the pause; a round of sixteen makes that one round
    for every fifteen changes. *)
Theorem rotation_fair changes budgets st c : NoDup (tr_key <$> changes) → Forall (λ b, 2 ≤ b)%nat budgets →
  (length changes ≤ copyBudget budgets)%nat → c ∈ changes → tr_key c ∈ failingRounds budgets changes st.
Proof using.
  intros Hnd Hb Hlen Hin. assert (budgets ≠ []) as Hne by (intros ->; cbn in Hlen; destruct changes; [by apply elem_of_nil in Hin|cbn in Hlen; lia]).
  destruct (isPause c) eqn:Ep.
  - destruct budgets as [|b budgets]; [done|]. apply Forall_cons in Hb as [Hb _]. cbn [failingRounds]. apply elem_of_app. left. apply list_elem_of_fmap_2.
    unfold roundChanges, attempted_changes. rewrite <- (rotate_elem (al_cursor st.1)) in Hin. apply list_elem_of_lookup in Hin as [i Hi].
    unfold isPause in Ep. boolify. pose proof (rotate_pause_first _ _ _ _ Hnd Hi Ep) as ->. apply list_elem_of_lookup. exists 0%nat.
    rewrite lookup_take_lt; [done|unfold maxDeliveries; lia].
  - set (C := List.filter (λ c, negb (isPause c)) (sort_by tr_key changes)).
    assert (c ∈ C) as HcC. { unfold C. apply list_elem_of_In, List.filter_In. rewrite Ep. split; [by apply list_elem_of_In, sort_by_elem|done]. }
    assert (rotated (al_cursor st.1) C ≡ₚ C) as Hp.
    { unfold rotated. rewrite (rotated_split (al_cursor st.1) C) at 3 by by apply sorted_keys_increase. apply Permutation_app_comm. }
    rewrite <- Hp in HcC. apply list_elem_of_lookup in HcC as [i Hi]. apply (failing_copies changes budgets st i c); [done..|].
    apply lookup_lt_Some in Hi. rewrite Hp in Hi. unfold C in Hi.
    pose proof (List.filter_length_le (λ c, negb (isPause c)) (sort_by tr_key changes)) as Hle. rewrite (sort_by_perm tr_key changes) in Hle at 2. lia.
Qed.
End rotation.

(** ** Concrete runs *)

#[local] Instance demoRunRange : MapRange string (Run * Plan) := default_range string (Run * Plan).
#[local] Instance demoPlanRange : MapRange string Plan := default_range string Plan.
#[local] Instance demoAlertRange : MapRange string OperationalAlert := default_range string OperationalAlert.
#[local] Instance reason_eq_dec : EqDecision PauseReason.
Proof. solve_decision. Defined.
#[local] Program Instance reason_countable : Countable PauseReason :=
  inj_countable' (λ r, (Code r, Message r)) (λ '(a, b), mkReason a b) _.
Next Obligation. by intros []. Qed.
#[local] Instance alert_eq_dec : EqDecision OperationalAlert.
Proof. solve_decision. Defined.
#[local] Program Instance alert_countable : Countable OperationalAlert :=
  inj_countable' (λ al, (al_event al, al_reasons al, al_plan al, al_plan_name al, al_destination al, al_destination_name al, al_due al))
    (λ '(a, b, c, d, e, f, g), mkAlert a b c d e f g) _.
Next Obligation. by intros []. Qed.
#[local] Instance transition_eq_dec : EqDecision transition.
Proof. solve_decision. Defined.
#[local] Existing Instance countable_text.

Lemma demo_plans_ok captured : plans_ok (demoProtected captured).
Proof. apply map_Forall_singleton. cbn. apply NoDup_singleton. Qed.

Definition demoGuard : guard :=
  mkGuard (mkPolicy false "host_a" false 60 "https://monitor.example.org" None "" ∅ "") None "" (mkDB None ∅ ∅ ∅ ∅ ∅ ∅ ∅).
(** An alert about the occurrence of day 99 was delivered. *)
Definition demoKnown : operationalAlertState :=
  mkAlerts true "" {["plan_1/dst_1" := mkAlert "backup_copy_overdue" [] "plan_1" "Nightly" "dst_1" "Off-site" (99 * Day)]}.

Lemma demo_heartbeat : ob_heartbeat (observed demoZones UTC demoDigestOf None (λ _, None) demoAt demoGuard demoFresh demoKnown) = Some "https://monitor.example.org".
Proof. vm_compute. reflexivity. Qed.
Lemma demo_overdue : pc_overdue_since (protectCopy demoZones UTC demoDigestOf demoAt (overdueGraceLocked demoGuard) demoStale demoAutoPlan demoAuto) = Some (99 * Day + Hour).
Proof. vm_compute. reflexivity. Qed.

Lemma heartbeat_sound_witness : SchedulingPaused demoGuard = false ∧ ∃ cp, proves demoDigestOf demoAt demoFresh demoAutoPlan demoAuto cp.
Proof.
  destruct (heartbeat_sound demoZones UTC demoDigestOf None (λ _, None) demoAt demoGuard demoFresh demoKnown "https://monitor.example.org"
    (demo_plans_ok _) demo_heartbeat) as (_ & Hp & _ & Hall).
  split; [exact Hp|]. destruct (Hall "plan_1" demoAutoPlan demoAuto eq_refl eq_refl ltac:(by left) eq_refl eq_refl) as (cp & Hcp & _).
  exists cp. exact Hcp.
Defined.

Definition demoResolved : transition :=
  mkTransition "plan_1/dst_1" (mkAlert "backup_copy_resolved" [] "plan_1" "Nightly" "dst_1" "Off-site" (99 * Day)) true.

Lemma alarm_needs_new_copy_witness : ∃ previous cp, knownAlerts None demoGuard demoKnown !! "plan_1/dst_1" = Some previous ∧ al_due previous <= cp_captured_at cp.
Proof.
  destruct (alarm_needs_new_copy demoZones UTC demoDigestOf None (λ _, None) demoAt demoGuard demoFresh demoKnown demoResolved (demo_plans_ok _))
    as (previous & id & plan & a & cp & Hp & _ & _ & _ & _ & Hdue).
  - apply (bool_decide_unpack _). vm_compute. exact I.
  - reflexivity.
  - discriminate.
  - exists previous, cp. split; [exact Hp|]. apply Hdue. vm_compute in Hp. injection Hp as <-. vm_compute. discriminate.
Defined.

Lemma overdue_is_reported_witness :
  ∃ alert, raisedAlerts demoZones UTC demoDigestOf None demoAt demoGuard demoStale (mkAlerts true "" ∅) !! "plan_1/dst_1" = Some alert.
Proof.
  destruct (overdue_is_reported demoZones UTC demoDigestOf None (λ _, None) demoAt demoGuard demoStale (mkAlerts true "" ∅) "plan_1" demoAutoPlan demoAuto
    (99 * Day + Hour) (demo_plans_ok _) eq_refl eq_refl ltac:(by left) eq_refl eq_refl demo_overdue) as (alert & H & _).
  exists alert. exact H.
Defined.

Definition demoChange (key : string) : transition := mkTransition key (mkAlert "backup_copy_overdue" [] "" "" "" "" 0) false.

Lemma rotation_fair_witness :
  "p/c" ∈ failingRounds (λ _, None) 0 [2; 2; 2]%nat (demoChange <$> ["p/a"; "p/b"; "p/c"]) (mkAlerts true "p/a" ∅, demoGuard).
Proof.
  apply (rotation_fair (λ _, None) 0 (demoChange <$> ["p/a"; "p/b"; "p/c"]) [2; 2; 2]%nat (mkAlerts true "p/a" ∅, demoGuard) (demoChange "p/c")).
  - apply (bool_decide_unpack _). vm_compute. exact I.
  - repeat constructor.
  - vm_compute. lia.
  - apply (bool_decide_unpack _). vm_compute. exact I.
Defined.
