(* ===== verification/StoreRetention.v ===== *)
(** * internal/store/store.go [PruneOperationalData] and internal/retention

    The retention transaction, statement by statement, on the text timestamps
    of the tables, and [retention.Service.RunOnce] with its default policy. *)

From stdpp Require Import gmap strings list.
From Stdlib Require Import ZArith.
From S2P Require Import Prelude GoStrings GoTime Store.

Local Open Scope Z_scope.

Record OperationalRetentionPolicy := mkPolicy {
  AuditEntryRetention : Duration; JobRetention : Duration;
  JobEventRetention : Duration; ExpiredSessionRetention : Duration }.

Record OperationalRetentionSummary := mkSummary {
  AuditEntriesDeleted : Z; JobsDeleted : Z; JobEventsDeleted : Z; SessionsDeleted : Z }.

Definition TotalDeleted (s : OperationalRetentionSummary) : Z :=
  AuditEntriesDeleted s + JobsDeleted s + JobEventsDeleted s + SessionsDeleted s.

Definition opt_text_lt (c : option string) (cutoff : string) : bool :=
  match c with Some s => str_ltb s cutoff | None => false end.

(** [DELETE FROM auth_sessions WHERE expires_at < ? OR (revoked_at IS NOT NULL AND revoked_at < ?)]. *)
Definition session_prunable (cutoff : string) (r : SessionRow) : bool :=
  str_ltb (x_expires_at r) cutoff || opt_text_lt (x_revoked_at r) cutoff.

(** The job is not queued, running or cancel_requested, or it does not exist. *)
Definition not_active (db : DB) (id : string) : bool :=
  match jobs db !! id with Some r => negb (active_row r) | None => true end.

Definition recent_audit (db : DB) (id auditCutoff : string) : bool :=
  existsb (λ p, match a_job p.2 with
                | Some j => str_eqb j id && negb (str_ltb (a_requested_at p.2) auditCutoff)
                | None => false end)
    (map_to_list (audit_entries db)).

(** The condition shared by the last two job statements. *)
Definition job_prunable (db : DB) (jobCutoff auditCutoff id : string) (r : JobRow) : bool :=
  negb (active_row r) && str_ltb (coalesce (r_finished_at r) (r_requested_at r)) jobCutoff
  && negb (recent_audit db id auditCutoff).

(** [execPrune]: delete the rows of a table that satisfy a condition; the
    count of deleted rows is the drop in size. *)
Definition execPrune {K V} `{Countable K} (cond : K → V → bool) (t : gmap K V) : gmap K V * Z :=
  let t' := filter (λ p, cond p.1 p.2 = false) t in
  (t', Z.of_nat (size t) - Z.of_nat (size t')).

Definition PruneOperationalData (io : IO) (db : DB) (now : Time) (policy : OperationalRetentionPolicy)
  : res store_error (OperationalRetentionSummary * DB) :=
  driver io (
    let auditCutoff := rfc3339nano (now - AuditEntryRetention policy) in
    let jobCutoff := rfc3339nano (now - JobRetention policy) in
    let jobEventCutoff := rfc3339nano (now - JobEventRetention policy) in
    let sessionCutoff := rfc3339nano (now - ExpiredSessionRetention policy) in
    let '(sessions, nSessions) := execPrune (λ _ r, session_prunable sessionCutoff r) (auth_sessions db) in
    let '(events1, nOld) :=
      execPrune (λ k e, str_ltb (e_timestamp e) jobEventCutoff && not_active db k.1) (job_events db) in
    let '(events2, nPruned) :=
      execPrune (λ k _, match jobs db !! k.1 with
                        | Some r => job_prunable db jobCutoff auditCutoff k.1 r
                        | None => false end) events1 in
    let '(jobs', nJobs) := execPrune (λ id r, job_prunable db jobCutoff auditCutoff id r) (jobs db) in
    let '(audit', nAudit) :=
      execPrune (λ _ a, str_ltb (a_requested_at a) auditCutoff) (audit_entries db) in
    Ok (mkSummary nAudit nJobs (nOld + nPruned) nSessions,
        mkDB (auth_password db) sessions (app_settings db) jobs' events2 audit'
          (image_update_status db) (stack_deploy_baselines db))).

(** ** retention.Service *)

Definition DefaultPolicy : OperationalRetentionPolicy :=
  mkPolicy (180 * 24 * Hour) (180 * 24 * Hour) (14 * 24 * Hour) (7 * 24 * Hour).

Definition RunOnce (io : IO) (db : DB) (now : Time) : res store_error (OperationalRetentionSummary * DB) :=
  PruneOperationalData io db now DefaultPolicy.

(** ** Lemmas *)

Lemma execPrune_lookup {K V} `{Countable K} (cond : K → V → bool) (t : gmap K V) k v :
  (execPrune cond t).1 !! k = Some v ↔ t !! k = Some v ∧ cond k v = false.
Proof. cbn. rewrite map_lookup_filter_Some. naive_solver. Qed.

(** The tables after a prune, as lookups. *)
Lemma Prune_Ok io db now policy s db' :
  PruneOperationalData io db now policy = Ok (s, db') →
  let cut d := rfc3339nano (now - d) in
  (∀ id r, jobs db' !! id = Some r ↔
     jobs db !! id = Some r ∧
     job_prunable db (cut (JobRetention policy)) (cut (AuditEntryRetention policy)) id r = false) ∧
  (∀ k e, job_events db' !! k = Some e ↔
     job_events db !! k = Some e ∧
     (str_ltb (e_timestamp e) (cut (JobEventRetention policy)) && not_active db k.1) = false ∧
     (∀ r, jobs db !! k.1 = Some r →
        job_prunable db (cut (JobRetention policy)) (cut (AuditEntryRetention policy)) k.1 r = false)) ∧
  (∀ id r, auth_sessions db' !! id = Some r ↔
     auth_sessions db !! id = Some r ∧ session_prunable (cut (ExpiredSessionRetention policy)) r = false) ∧
  (∀ id a, audit_entries db' !! id = Some a ↔
     audit_entries db !! id = Some a ∧ str_ltb (a_requested_at a) (cut (AuditEntryRetention policy)) = false).
Proof.
  unfold PruneOperationalData. intros [-> H']%driver_Ok. cbn in H'. simplify_eq. cbn.
  split_and!; intros; rewrite ?map_lookup_filter_Some; cbn; [naive_solver| |naive_solver|naive_solver].
  destruct (jobs db !! k.1) as [r|]; naive_solver.
Qed.

Lemma Prune_active_row io db now policy s db' id r :
  PruneOperationalData io db now policy = Ok (s, db') →
  jobs db !! id = Some r → active_row r = true → jobs db' !! id = Some r.
Proof.
  intros (Hj & _)%Prune_Ok Hr Ha. apply Hj. split; [done|]. unfold job_prunable. by rewrite Ha.
Qed.

(** the retention transaction never touches active work: a queued, running
    or cancel-requested job keeps its row and every one of its events. *)
Theorem Prune_keeps_active_jobs io db now policy s db' id r :
  PruneOperationalData io db now policy = Ok (s, db') →
  jobs db !! id = Some r → active_row r = true →
  jobs db' !! id = Some r ∧
  (∀ n e, job_events db !! (id, n) = Some e → job_events db' !! (id, n) = Some e).
Proof.
  intros H Hr Ha. split; [by eapply Prune_active_row|]. apply Prune_Ok in H as (_ & He & _).
  intros n e Hn. apply He. split; [done|]. cbn. split.
  - unfold not_active. rewrite Hr, Ha. by rewrite andb_false_r.
  - intros r' ?. simplify_eq. unfold job_prunable. by rewrite Ha.
Qed.

(** No orphans: every event that survives a prune of a well-formed store
    still has its job, numbered within the job's counter. *)
Lemma Prune_events_inv io db now policy s db' :
  events_inv db → PruneOperationalData io db now policy = Ok (s, db') → events_inv db'.
Proof.
  intros I (Hj & He & _)%Prune_Ok. split.
  - intros id n row [H' [_ Hp]]%He. destruct (inv_event db I _ _ _ H') as (r & Hr & ?).
    exists r. split; [|done]. apply Hj. auto.
  - intros id r [Hr _]%Hj. by apply (inv_counter db I id).
Qed.

(** retention by text comparison deletes nothing younger than the policy by
    a second or more: a removed job finished at or before the cutoff second, and
    a removed session or audit entry is at least as old. *)
Theorem Prune_respects_age io db now policy s db' :
  PruneOperationalData io db now policy = Ok (s, db') →
  rfc_range (now - JobRetention policy) → rfc_range (now - AuditEntryRetention policy) →
  (∀ id r t, jobs db !! id = Some r → jobs db' !! id = None →
     rfc_range t → coalesce (r_finished_at r) (r_requested_at r) = rfc3339nano t →
     unix t <= unix (now - JobRetention policy)) ∧
  (∀ id a t, audit_entries db !! id = Some a → audit_entries db' !! id = None →
     rfc_range t → a_requested_at a = rfc3339nano t →
     unix t <= unix (now - AuditEntryRetention policy)).
Proof.
  intros (Hj & _ & _ & Ha)%Prune_Ok R1 R2. split.
  - intros id r t Hr Hn Rt Ht. apply text_lt_unix; [done..|]. unfold text_lt. rewrite <- Ht.
    destruct (job_prunable db (rfc3339nano (now - JobRetention policy))
                (rfc3339nano (now - AuditEntryRetention policy)) id r) eqn:Hp.
    + unfold job_prunable in Hp. by boolify.
    + rewrite (proj2 (Hj id r) (conj Hr Hp)) in Hn. done.
  - intros id a t Hr Hn Rt Ht. apply text_lt_unix; [done..|]. unfold text_lt. rewrite <- Ht.
    destruct (str_ltb (a_requested_at a) _) eqn:Hp; [done|].
    rewrite (proj2 (Ha id a) (conj Hr Hp)) in Hn. done.
Qed.

(** the text comparison is not chronological within a second: an instant
    half a second later is stored as a smaller text, so an entry half a second
    younger than the retention cutoff is deleted. *)
Theorem text_order_not_chronological :
  let t := 1731907443 * Second in
  text_lt (t + 500000000) t = true ∧
  let a := mkAuditRow None None "login" "local" (rfc3339nano (t + 500000000)) None "ok" None "" None None in
  let policy := mkPolicy 0 0 0 0 in
  match PruneOperationalData None (with_audit emptyDB {[ "a" := a ]}) t policy with
  | Ok (_, db') => audit_entries db' = ∅
  | Err _ => False
  end.
Proof. by vm_compute. Qed.

(** ** Concrete instances *)

Definition demoNow : Time := demoTime + 400 * 24 * Hour.
Definition demoPruned : OperationalRetentionSummary * DB :=
  match RunOnce None demoDB demoNow with Ok p => p | Err _ => (mkSummary 0 0 0 0, emptyDB) end.

Lemma demoPruned_run :
  PruneOperationalData None demoDB demoNow DefaultPolicy = Ok (demoPruned.1, demoPruned.2).
Proof. by vm_compute. Qed.

Lemma Prune_keeps_active_jobs_witness :
  jobs demoPruned.2 !! "job_1" = Some demoRow ∧
  (∀ n e, job_events demoDB !! ("job_1", n) = Some e → job_events demoPruned.2 !! ("job_1", n) = Some e).
Proof.
  apply (Prune_keeps_active_jobs None demoDB demoNow DefaultPolicy demoPruned.1).
  - apply demoPruned_run.
  - apply demoDB_row.
  - by vm_compute.
Defined.

Lemma Prune_respects_age_witness :
  (∀ id r t, jobs demoDB !! id = Some r → jobs demoPruned.2 !! id = None →
     rfc_range t → coalesce (r_finished_at r) (r_requested_at r) = rfc3339nano t →
     unix t <= unix (demoNow - JobRetention DefaultPolicy)) ∧
  (∀ id a t, audit_entries demoDB !! id = Some a → audit_entries demoPruned.2 !! id = None →
     rfc_range t → a_requested_at a = rfc3339nano t →
     unix t <= unix (demoNow - AuditEntryRetention DefaultPolicy)).
Proof.
  apply (Prune_respects_age None demoDB demoNow DefaultPolicy demoPruned.1).
  - apply demoPruned_run.
  - split; by vm_compute.
  - split; by vm_compute.
Defined.
