(* ===== verification/StoreAuth.v ===== *)
(** * internal/store/store.go: credentials, sessions, image status and baselines

    The password row carries a version; a session belongs to the version it was
    created at.  Updates are the SQL statements of the source on the table rows. *)

From stdpp Require Import gmap strings list sorting.
From Stdlib Require Import ZArith.
From S2P Require Import Prelude GoStrings GoTime Store.

Local Open Scope Z_scope.

(** ** The password *)

Definition LoadPasswordCredentials (io : IO) (db : DB) : res store_error (option PasswordCredentials) :=
  driver io (Ok ((λ p, mkCredentials (p_hash p) (p_version p)) <$> auth_password db)).

Definition PasswordHash (io : IO) (db : DB) : res store_error (option string) :=
  let? c := LoadPasswordCredentials io db in Ok (Hash <$> c).

(** [INSERT ... ON CONFLICT DO UPDATE]: the version of an existing row is kept. *)
Definition SetPasswordHash (io : IO) (db : DB) (passwordHash : string) (updatedAt : Time) : res store_error DB :=
  driver io (Ok (with_password db
    (Some (mkPasswordRow passwordHash (rfc3339nano updatedAt)
             (match auth_password db with Some p => p_version p | None => 1 end))))).

Definition set_revoked (timestamp : string) (r : SessionRow) : SessionRow :=
  mkSessionRow (x_user r) (x_created_at r) (x_last_seen_at r) (x_expires_at r) (x_user_agent r) (x_ip r)
    (Some timestamp) (x_password_version r).

(** [UPDATE auth_sessions SET revoked_at = ? WHERE revoked_at IS NULL]. *)
Definition revoke_if_open (timestamp : string) (r : SessionRow) : SessionRow :=
  match x_revoked_at r with Some _ => r | None => set_revoked timestamp r end.

Definition UpdatePasswordAndRevokeSessions (io : IO) (db : DB) (expectedVersion : Z) (passwordHash : string)
    (updatedAt : Time) : res store_error DB :=
  driver io (
    let timestamp := rfc3339nano updatedAt in
    match auth_password db with
    | Some p =>
      if p_version p =? expectedVersion then
        let db := with_password db (Some (mkPasswordRow passwordHash timestamp (p_version p + 1))) in
        Ok (with_sessions db (revoke_if_open timestamp <$> auth_sessions db))
      else Err ErrPasswordVersionChanged
    | None => Err ErrPasswordVersionChanged
    end).

(** ** Sessions *)

Definition session_row (s : Session) (passwordVersion : Z) : SessionRow :=
  mkSessionRow (s_user s) (rfc3339nano (s_created_at s)) (rfc3339nano (s_last_seen_at s))
    (rfc3339nano (s_expires_at s)) (s_user_agent s) (s_ip s) None passwordVersion.

Definition insert_session (db : DB) (id : string) (r : SessionRow) : res store_error DB :=
  match auth_sessions db !! id with
  | Some _ => Err (ErrStore "create session: UNIQUE constraint failed: auth_sessions.id")
  | None => Ok (with_sessions db (<[id := r]> (auth_sessions db)))
  end.

Definition CreateSession (io : IO) (db : DB) (s : Session) : res store_error DB :=
  let passwordVersion := if s_password_version s <=? 0 then 1 else s_password_version s in
  driver io (insert_session db (s_id s) (session_row s passwordVersion)).

(** [INSERT ... SELECT ... FROM auth_password WHERE password_version = ?]. *)
Definition CreateSessionAtPasswordVersion (io : IO) (db : DB) (s : Session) (passwordVersion : Z)
    : res store_error DB :=
  driver io (
    match auth_password db with
    | Some p =>
      if p_version p =? passwordVersion then insert_session db (s_id s) (session_row s passwordVersion)
      else Err ErrPasswordVersionChanged
    | None => Err ErrPasswordVersionChanged
    end).

Definition scanSession (id : string) (r : SessionRow) : res store_error Session :=
  let? created := parse_time "created_at" (x_created_at r) in
  let? seen := parse_time "last_seen_at" (x_last_seen_at r) in
  let? expires := parse_time "expires_at" (x_expires_at r) in
  let? revoked := parse_opt_time "revoked_at" (x_revoked_at r) in
  Ok (mkSession id (x_user r) created seen expires (x_user_agent r) (x_ip r) revoked (x_password_version r)).

Definition SessionByID (io : IO) (db : DB) (id : string) : res store_error Session :=
  driver io (match auth_sessions db !! id with None => Err ErrNotFound | Some r => scanSession id r end).

(** [JOIN auth_password p ON p.id = 1 AND p.password_version = s.password_version]. *)
Definition SessionAtCurrentPasswordVersion (io : IO) (db : DB) (id : string) : res store_error Session :=
  driver io (
    match auth_sessions db !! id, auth_password db with
    | Some r, Some p => if p_version p =? x_password_version r then scanSession id r else Err ErrNotFound
    | _, _ => Err ErrNotFound
    end).

Definition set_lease (lastSeenAt expiresAt : string) (r : SessionRow) : SessionRow :=
  mkSessionRow (x_user r) (x_created_at r) lastSeenAt expiresAt (x_user_agent r) (x_ip r)
    (x_revoked_at r) (x_password_version r).

(** The [WHERE] clause of [TouchSession]. *)
Definition touchable (db : DB) (expected : string) (r : SessionRow) : bool :=
  match x_revoked_at r, auth_password db with
  | None, Some p => str_eqb (x_last_seen_at r) expected && (x_password_version r =? p_version p)
  | _, _ => false
  end.

Definition TouchSession (io : IO) (db : DB) (id : string) (expectedLastSeenAt lastSeenAt expiresAt : Time)
    : res store_error DB :=
  driver io (
    match auth_sessions db !! id with
    | Some r =>
      if touchable db (rfc3339nano expectedLastSeenAt) r then
        Ok (with_sessions db (<[id := set_lease (rfc3339nano lastSeenAt) (rfc3339nano expiresAt) r]> (auth_sessions db)))
      else Err ErrSessionChanged
    | None => Err ErrSessionChanged
    end).

Definition RevokeSession (io : IO) (db : DB) (id : string) (revokedAt : Time) : res store_error DB :=
  driver io (
    match auth_sessions db !! id with
    | Some r =>
      match x_revoked_at r with
      | None => Ok (with_sessions db (<[id := set_revoked (rfc3339nano revokedAt) r]> (auth_sessions db)))
      | Some _ => Err ErrNotFound
      end
    | None => Err ErrNotFound
    end).

(** ** Image update status *)

Record ImageUpdateStatus := mkImageStatus {
  ImageRef : string; LocalDigest : string; RemoteDigest : string; ImageState : string; CheckedAt : Time }.

Definition UpsertImageUpdateStatus (io : IO) (db : DB) (status : ImageUpdateStatus) : res store_error DB :=
  driver io (Ok (with_image_updates db
    (<[ImageRef status := mkImageUpdateRow (nullIfEmpty (LocalDigest status)) (nullIfEmpty (RemoteDigest status))
         (ImageState status) (rfc3339nano (CheckedAt status))]> (image_update_status db)))).

Definition scanImageStatus (p : string * ImageUpdateRow) : res store_error ImageUpdateStatus :=
  let? checked := parse_time "image update checked_at" (i_checked_at p.2) in
  Ok (mkImageStatus p.1 (orEmpty (i_local_digest p.2)) (orEmpty (i_remote_digest p.2)) (i_state p.2) checked).

Definition ListImageUpdateStatus (io : IO) (db : DB) : res store_error (list ImageUpdateStatus) :=
  driver io (scan_all scanImageStatus (sort_by fst (map_to_list (image_update_status db)))).

(** ** Stack deploy baselines *)

Record Baseline := mkBaseline {
  BaselineStackID : string; ComposeSHA256 : string; EnvSHA256 : string; ComposeYAML : string; Env : string;
  EnvExists : bool; LastDeployedAt : Time; LastJobID : string }.

Definition boolInt (value : bool) : Z := if value then 1 else 0.

Definition UpsertStackDeployBaseline (io : IO) (db : DB) (b : Baseline) : res store_error DB :=
  driver io (Ok (with_baselines db
    (<[BaselineStackID b := mkBaselineRow (ComposeSHA256 b) (EnvSHA256 b) (ComposeYAML b) (Env b)
         (boolInt (EnvExists b)) (rfc3339nano (LastDeployedAt b)) (nullIfEmpty (LastJobID b))]>
       (stack_deploy_baselines db)))).

Definition scanBaseline (p : string * BaselineRow) : res store_error Baseline :=
  let? deployed := parse_time "stack deploy baseline last_deployed_at" (b_last_deployed_at p.2) in
  Ok (mkBaseline p.1 (b_compose_sha256 p.2) (b_env_sha256 p.2) (b_compose_yaml p.2) (b_env p.2)
        (negb (b_env_exists p.2 =? 0)) deployed (orEmpty (b_last_job_id p.2))).

Definition StackDeployBaseline (io : IO) (db : DB) (stackID : string) : res store_error (option Baseline) :=
  driver io (
    match stack_deploy_baselines db !! stackID with
    | None => Ok None
    | Some r => let? b := scanBaseline (stackID, r) in Ok (Some b)
    end).

Definition ListStackDeployBaselines (io : IO) (db : DB) : res store_error (list Baseline) :=
  driver io (scan_all scanBaseline (sort_by fst (map_to_list (stack_deploy_baselines db)))).

Definition DeleteStackDeployBaseline (io : IO) (db : DB) (stackID : string) : res store_error DB :=
  driver io (Ok (with_baselines db (delete stackID (stack_deploy_baselines db)))).

(** ** Lemmas *)

Lemma scanSession_fields id r s :
  scanSession id r = Ok s →
  s_id s = id ∧ s_user s = x_user r ∧ s_password_version s = x_password_version r ∧
  (s_revoked_at s = None ↔ x_revoked_at r = None) ∧
  parse_rfc3339nano (x_created_at r) = Some (s_created_at s) ∧
  parse_rfc3339nano (x_last_seen_at r) = Some (s_last_seen_at s) ∧
  parse_rfc3339nano (x_expires_at r) = Some (s_expires_at s).
Proof.
  unfold scanSession, parse_time. intros H. res_inv H. simplify_eq. cbn.
  repeat case_match; simplify_eq. split_and!; try done.
  unfold parse_opt_time in *. destruct (x_revoked_at r); [|by simplify_eq].
  unfold parse_time in *. repeat case_match; cbn in *; simplify_eq. split; done.
Qed.

Lemma UpdatePassword_Ok io db v hash now db' :
  UpdatePasswordAndRevokeSessions io db v hash now = Ok db' →
  ∃ p, auth_password db = Some p ∧ p_version p = v ∧
    auth_password db' = Some (mkPasswordRow hash (rfc3339nano now) (v + 1)) ∧
    auth_sessions db' = revoke_if_open (rfc3339nano now) <$> auth_sessions db.
Proof.
  unfold UpdatePasswordAndRevokeSessions. intros [-> H]%driver_Ok.
  destruct (auth_password db) as [p|]; [|done]. destruct (Z.eqb_spec (p_version p) v) as [<-|]; [|done].
  simplify_eq. eauto.
Qed.

Lemma CreateSessionAt_Ok io db s v db' :
  CreateSessionAtPasswordVersion io db s v = Ok db' →
  (∃ p, auth_password db = Some p ∧ p_version p = v) ∧ auth_sessions db !! s_id s = None ∧
  auth_sessions db' = <[s_id s := session_row s v]> (auth_sessions db) ∧ auth_password db' = auth_password db.
Proof.
  unfold CreateSessionAtPasswordVersion, insert_session. intros [-> H]%driver_Ok.
  destruct (auth_password db) as [p|] eqn:Ep; [|done]. destruct (Z.eqb_spec (p_version p) v) as [<-|]; [|done].
  destruct (auth_sessions db !! s_id s); [done|]. simplify_eq. split_and!; eauto; by cbn.
Qed.

Lemma SessionAt_Ok io db id s :
  SessionAtCurrentPasswordVersion io db id = Ok s →
  ∃ r p, auth_sessions db !! id = Some r ∧ auth_password db = Some p ∧
    p_version p = x_password_version r ∧ scanSession id r = Ok s.
Proof.
  unfold SessionAtCurrentPasswordVersion. intros [-> H]%driver_Ok.
  destruct (auth_sessions db !! id) as [r|]; [|done]. destruct (auth_password db) as [p|]; [|done].
  destruct (Z.eqb_spec (p_version p) (x_password_version r)); [|done]. eauto 6.
Qed.

(** a password change revokes every session: afterwards a session read at
    the current version, if any, is revoked, whatever was stored before. *)
Theorem UpdatePassword_revokes_sessions io io' db v hash now db' id s :
  UpdatePasswordAndRevokeSessions io db v hash now = Ok db' →
  SessionAtCurrentPasswordVersion io' db' id = Ok s → s_revoked_at s ≠ None.
Proof.
  intros (p & _ & _ & _ & Hs)%UpdatePassword_Ok (r & _ & Hr & _ & _ & Hscan)%SessionAt_Ok.
  apply scanSession_fields in Hscan as (_ & _ & _ & Hrev & _). rewrite Hrev.
  rewrite Hs, lookup_fmap in Hr. apply fmap_Some in Hr as (r0 & _ & ->).
  unfold revoke_if_open. by destruct (x_revoked_at r0) eqn:E; [rewrite E|].
Qed.

(** the password version closes the race between two writers: of a session
    creation and a password change that both started from version [v], the one
    that runs second is refused, as is a second password change. *)
Theorem password_version_race io db v hash now db' :
  UpdatePasswordAndRevokeSessions io db v hash now = Ok db' →
  (∀ s, CreateSessionAtPasswordVersion None db' s v = Err ErrPasswordVersionChanged) ∧
  (∀ hash' now', UpdatePasswordAndRevokeSessions None db' v hash' now' = Err ErrPasswordVersionChanged).
Proof.
  intros (p & _ & _ & Hp & _)%UpdatePassword_Ok.
  split; intros; unfold CreateSessionAtPasswordVersion, UpdatePasswordAndRevokeSessions;
    rewrite Hp; cbn; by rewrite (proj2 (Z.eqb_neq _ _)) by lia.
Qed.

Definition session_times_ok (s : Session) : Prop :=
  rfc_range (s_created_at s) ∧ rfc_range (s_last_seen_at s) ∧ rfc_range (s_expires_at s).

Lemma scanSession_row s v : session_times_ok s →
  scanSession (s_id s) (session_row s v)
  = Ok (mkSession (s_id s) (s_user s) (s_created_at s) (s_last_seen_at s) (s_expires_at s) (s_user_agent s) (s_ip s)
          None v).
Proof. intros (H1 & H2 & H3). unfold scanSession. cbn. by rewrite !parse_time_fmt. Qed.

(** the round trip of the deploy baseline of a stack: what is upserted is
    read back, and after a delete nothing is. *)
Theorem baseline_roundtrip db b db' :
  rfc_range (LastDeployedAt b) → UpsertStackDeployBaseline None db b = Ok db' →
  StackDeployBaseline None db' (BaselineStackID b) = Ok (Some b) ∧
  (∀ other, other ≠ BaselineStackID b →
     StackDeployBaseline None db' other = StackDeployBaseline None db other) ∧
  match DeleteStackDeployBaseline None db' (BaselineStackID b) with
  | Ok db'' => StackDeployBaseline None db'' (BaselineStackID b) = Ok None
  | Err _ => False
  end.
Proof.
  intros Hr [= <-]. unfold StackDeployBaseline. cbn. rewrite lookup_insert_eq, lookup_delete_eq.
  unfold scanBaseline. cbn. rewrite parse_time_fmt by done. cbn. rewrite orEmpty_nullIfEmpty. split; [|split; [|done]].
  - by destruct b as [? ? ? ? ? []].
  - intros other Hne. by rewrite lookup_insert_ne.
Qed.

(** ** Concrete instances *)

Definition demoSession : Session :=
  mkSession "sess_1" "local" demoTime demoTime (demoTime + Hour) "agent" "10.0.0.1" None 1.
Definition demoAuthDB : DB :=
  with_sessions (with_password emptyDB (Some (mkPasswordRow "hash" (rfc3339nano demoTime) 1)))
    {[ "sess_1" := session_row demoSession 1 ]}.
(** a session of the next version, as a restored backup could contain *)
Definition demoAheadDB : DB := with_sessions demoAuthDB {[ "sess_1" := session_row demoSession 2 ]}.
Definition updatedDB (db : DB) : DB :=
  match UpdatePasswordAndRevokeSessions None db 1 "hash2" (demoTime + Minute) with Ok db' => db' | Err _ => db end.

Lemma UpdatePassword_revokes_sessions_witness :
  match SessionAtCurrentPasswordVersion None (updatedDB demoAheadDB) "sess_1" with
  | Ok s => s_revoked_at s ≠ None
  | Err _ => False
  end.
Proof.
  destruct (SessionAtCurrentPasswordVersion None (updatedDB demoAheadDB) "sess_1") as [s|] eqn:E; [|by vm_compute in E].
  apply (UpdatePassword_revokes_sessions None None demoAheadDB 1 "hash2" (demoTime + Minute)
           (updatedDB demoAheadDB) "sess_1"); [by vm_compute|exact E].
Defined.

Lemma password_version_race_witness :
  (∀ s, CreateSessionAtPasswordVersion None (updatedDB demoAuthDB) s 1 = Err ErrPasswordVersionChanged) ∧
  (∀ hash' now',
     UpdatePasswordAndRevokeSessions None (updatedDB demoAuthDB) 1 hash' now' = Err ErrPasswordVersionChanged).
Proof. apply (password_version_race None demoAuthDB 1 "hash2" (demoTime + Minute)). by vm_compute. Defined.

Definition demoBaseline : Baseline := mkBaseline "web" "c" "e" "services: {}" "" false demoTime "".
Definition demoBaselineDB : DB :=
  match UpsertStackDeployBaseline None emptyDB demoBaseline with Ok db => db | Err _ => emptyDB end.

Lemma baseline_roundtrip_witness : StackDeployBaseline None demoBaselineDB "web" = Ok (Some demoBaseline).
Proof.
  apply (baseline_roundtrip emptyDB demoBaseline demoBaselineDB); [apply demoTime_range|done].
Defined.
