(* ===== verification/StoreAudit.v ===== *)
(** * internal/store/store.go: the audit log

    Audit entries are listed newest first by the text of their timestamp and
    their id, in pages; the cursor of the next page encodes the last entry of a
    page.  The parameters are SQLite's [julianday] (a number of milliseconds, NULL
    when the text is not a time) and Go's [strings.ToLower]. *)

From stdpp Require Import gmap strings list sorting.
From Stdlib Require Import Ascii ZArith.
From S2P Require Import Prelude GoStrings GoTime GoBase64 Store.

Local Open Scope Z_scope.

Record AuditQuery := mkQuery {
  QueryStackID : string; QuerySearch : string; QueryResults : list string;
  QueryRequestedFrom : option Time; QueryRequestedBefore : option Time; QueryLimit : Z; QueryCursor : string }.

Record AuditListResult := mkAuditList { AuditItems : list AuditEntry; NextCursor : option string }.

(** ** Writing and reading an entry *)

Definition audit_row (e : AuditEntry) : AuditRow :=
  mkAuditRow (nullIfPtr (ae_stack e)) (nullIfPtr (ae_job e)) (ae_action e) (ae_requested_by e)
    (rfc3339nano (ae_requested_at e)) (rfc3339nano <$> ae_finished_at e) (ae_result e) (ae_duration_ms e)
    (ae_target_type e) (nullIfPtr (ae_target e)) (nullIfPtr (ae_detail e)).

Definition CreateAuditEntry (io : IO) (db : DB) (e : AuditEntry) : res store_error DB :=
  driver io (
    match audit_entries db !! ae_id e with
    | Some _ => Err (ErrStore "create audit entry: UNIQUE constraint failed: audit_entries.id")
    | None => Ok (with_audit db (<[ae_id e := audit_row e]> (audit_entries db)))
    end).

Definition scanAuditEntry (p : string * AuditRow) : res store_error AuditEntry :=
  let r := p.2 in
  let? requested := parse_time "audit requested_at" (a_requested_at r) in
  let? finished := parse_opt_time "audit finished_at" (a_finished_at r) in
  Ok (mkAudit p.1 (a_stack r) (a_job r) (a_action r) (a_requested_by r) (a_result r) requested finished
        (a_duration_ms r) (a_target_type r) (a_target r) (a_detail r)).

(** ** The search pattern *)

(** [strings.ReplaceAll] of a byte by a backslash and the byte. *)
Fixpoint escape_byte (b : ascii) (s : string) : string :=
  match s with
  | EmptyString => EmptyString
  | String c rest =>
    if Ascii.eqb c b then String "\" (String c (escape_byte b rest)) else String c (escape_byte b rest)
  end.

Definition escapeLikePattern (value : string) : string :=
  escape_byte "_" (escape_byte "%" (escape_byte "\" value)).

(** SQLite's [LIKE ... ESCAPE '\']: the pattern as tokens; ASCII letters match in
    either case.  (An underscore stands for one character, here one byte; the
    patterns of this file have none that is not escaped.) *)
Inductive like_token := TAny | TOne | TLit (c : ascii) | TNever.

Fixpoint like_tokens (p : string) : list like_token :=
  match p with
  | EmptyString => []
  | String c rest =>
    if Ascii.eqb c "\" then
      match rest with String d rest' => TLit d :: like_tokens rest' | EmptyString => [TNever] end
    else if Ascii.eqb c "%" then TAny :: like_tokens rest
    else if Ascii.eqb c "_" then TOne :: like_tokens rest
    else TLit c :: like_tokens rest
  end.

Definition ascii_lower (c : ascii) : ascii :=
  if (65 <=? byte_of c) && (byte_of c <=? 90) then chr (byte_of c + 32) else c.
Fixpoint sql_lower (s : string) : string :=
  match s with EmptyString => EmptyString | String c rest => String (ascii_lower c) (sql_lower rest) end.

Fixpoint like_match (ts : list like_token) : string → bool :=
  match ts with
  | [] => λ s, match s with EmptyString => true | _ => false end
  | TLit c :: ts => λ s,
      match s with String d s' => Ascii.eqb (ascii_lower c) (ascii_lower d) && like_match ts s' | EmptyString => false end
  | TOne :: ts => λ s, match s with String _ s' => like_match ts s' | EmptyString => false end
  | TNever :: _ => λ _, false
  | TAny :: ts =>
      fix go (s : string) : bool :=
        like_match ts s || match s with String _ s' => go s' | EmptyString => false end
  end.

Definition sql_like (pattern text : string) : bool := like_match (like_tokens pattern) text.

(** ** The cursor *)

Definition encodeAuditCursor (requestedAt : Time) (id : string) : string :=
  EncodeToString urlAlphabet (rfc3339nano requestedAt +:+ "|" +:+ id).

(** [strings.SplitN] by the first bar. *)
Fixpoint cut_bar (s : string) : option (string * string) :=
  match s with
  | EmptyString => None
  | String c rest =>
    if Ascii.eqb c "|" then Some (EmptyString, rest)
    else match cut_bar rest with Some (a, b) => Some (String c a, b) | None => None end
  end.

Definition decodeAuditCursor (value : string) : option (Time * string) :=
  decoded ← DecodeString urlAlphabet false value;
  '(time, id) ← cut_bar decoded;
  requestedAt ← parse_rfc3339nano time;
  Some (requestedAt, id).

(** ** Listing *)

Definition audit_desc : relation (string * AuditRow) := desc2 (λ p, a_requested_at p.2) (λ p, p.1).

Section list.
Context (julianday : string → option Z) (ToLower : string → string).

Definition clampLimit (limit : Z) : Z :=
  let limit := if limit <=? 0 then 50 else limit in if 100 <? limit then 100 else limit.

Definition searchPattern (search : string) : string :=
  "%" +:+ escapeLikePattern (ToLower (trim_space search)) +:+ "%".

(** The conditions of the statement except the cursor's. *)
Definition audit_matches (q : AuditQuery) (p : string * AuditRow) : bool :=
  let r := p.2 in
  (str_empty (QueryStackID q) || match a_stack r with Some s => str_eqb s (QueryStackID q) | None => false end)
  && (str_empty (QuerySearch q)
      || sql_like (searchPattern (QuerySearch q)) (sql_lower (a_action r))
      || sql_like (searchPattern (QuerySearch q)) (sql_lower (coalesce (a_stack r) "")))
  && (bool_decide (QueryResults q = []) || str_in (a_result r) (QueryResults q))
  && match QueryRequestedFrom q with
     | None => true
     | Some from =>
       match julianday (a_requested_at r), julianday (rfc3339nano from) with Some a, Some b => b <=? a | _, _ => false end
     end
  && match QueryRequestedBefore q with
     | None => true
     | Some before =>
       match julianday (a_requested_at r), julianday (rfc3339nano before) with Some a, Some b => a <? b | _, _ => false end
     end.

(** The condition of the cursor. *)
Definition after_cursor (cursor : option (Time * string)) (p : string * AuditRow) : bool :=
  match cursor with
  | None => true
  | Some (t, id) =>
    str_ltb (a_requested_at p.2) (rfc3339nano t)
    || (str_eqb (a_requested_at p.2) (rfc3339nano t) && str_ltb p.1 id)
  end.

(** The selected rows, in order. *)
Definition audit_rows (db : DB) (cond : string * AuditRow → bool) : list (string * AuditRow) :=
  merge_sort audit_desc (filter (λ p, cond p = true) (map_to_list (audit_entries db))).

Definition ListAuditEntries (io : IO) (db : DB) (q : AuditQuery) : res store_error AuditListResult :=
  let limit := Z.to_nat (clampLimit (QueryLimit q)) in
  let? cursor :=
    if str_empty (QueryCursor q) then Ok None
    else match decodeAuditCursor (QueryCursor q) with
         | Some c => Ok (Some c)
         | None => Err (ErrStore "decode audit cursor")
         end in
  driver io (
    let? items := scan_all scanAuditEntry
      (take (limit + 1) (audit_rows db (λ p, audit_matches q p && after_cursor cursor p))) in
    if (limit <? length items)%nat then
      match items !! (limit - 1)%nat with
      | Some last => Ok (mkAuditList (take limit items) (Some (encodeAuditCursor (ae_requested_at last) (ae_id last))))
      | None => Ok (mkAuditList items None)
      end
    else Ok (mkAuditList items None)).

Definition with_cursor (q : AuditQuery) (cursor : string) : AuditQuery :=
  mkQuery (QueryStackID q) (QuerySearch q) (QueryResults q) (QueryRequestedFrom q) (QueryRequestedBefore q)
    (QueryLimit q) cursor.

(** A client that follows the cursors. *)
Fixpoint follow (fuel : nat) (db : DB) (q : AuditQuery) : res store_error (list AuditEntry) :=
  match fuel with
  | O => Err (ErrStore "out of fuel")
  | S fuel =>
    let? page := ListAuditEntries None db q in
    match NextCursor page with
    | None => Ok (AuditItems page)
    | Some c => let? rest := follow fuel db (with_cursor q c) in Ok (AuditItems page ++ rest)
    end
  end.
End list.

(** ** The latest entry of each stack *)

Fixpoint latestByStack (entries : list AuditEntry) (result : gmap string AuditEntry) : gmap string AuditEntry :=
  match entries with
  | [] => result
  | e :: rest =>
    match ae_stack e with
    | None => latestByStack rest result
    | Some s =>
      match result !! s with
      | Some _ => latestByStack rest result
      | None => latestByStack rest (<[s := e]> result)
      end
    end
  end.

Definition LatestAuditEntriesByStackIDs (io : IO) (db : DB) (stackIDs : list string)
    : res store_error (gmap string AuditEntry) :=
  match stackIDs with
  | [] => Ok ∅
  | _ =>
    driver io (
      let? entries := scan_all scanAuditEntry
        (audit_rows db (λ p, match a_stack p.2 with Some s => str_in s stackIDs | None => false end)) in
      Ok (latestByStack entries ∅))
  end.

(** ** The search pattern matches substrings *)

Fixpoint lits (s : string) : list like_token :=
  match s with EmptyString => [] | String c rest => TLit c :: lits rest end.

Definition special (c : ascii) : bool := Ascii.eqb c "\" || Ascii.eqb c "%" || Ascii.eqb c "_".

Lemma escape_cons c s :
  escapeLikePattern (String c s)
  = if special c then String "\" (String c (escapeLikePattern s)) else String c (escapeLikePattern s).
Proof.
  unfold escapeLikePattern, special. cbn [escape_byte].
  destruct (Ascii.eqb_spec c "\"%char) as [->|H1]; [done|]. cbn [escape_byte orb].
  destruct (Ascii.eqb_spec c "%"%char) as [->|H2]; [done|]. cbn [escape_byte orb].
  by destruct (Ascii.eqb_spec c "_"%char) as [->|H3].
Qed.

Lemma tokens_escaped s rest : like_tokens (escapeLikePattern s +:+ rest) = lits s ++ like_tokens rest.
Proof.
  induction s as [|c s IH]; [done|]. rewrite escape_cons. destruct (special c) eqn:Hs; rewrite !str_app_cons.
  - cbn. by rewrite IH.
  - unfold special in Hs. apply orb_false_iff in Hs as [Hs H3]. apply orb_false_iff in Hs as [H1 H2].
    cbn [like_tokens]. rewrite H1, H2, H3. cbn. by rewrite IH.
Qed.

Lemma lower_cons c s : sql_lower (String c s) = String (ascii_lower c) (sql_lower s).
Proof. done. Qed.

(** Matching the literals of [s] and then anything. *)
Lemma match_lits_any s text :
  like_match (lits s ++ [TAny]) text = true ↔
  ∃ mid post, text = mid +:+ post ∧ sql_lower mid = sql_lower s.
Proof.
  revert text. induction s as [|c s IH]; intros text.
  - split; [|intros _].
    + intros _. exists "", text. done.
    + induction text as [|d text IHt]; [done|]. cbn in IHt |- *. exact IHt.
  - cbn [lits app like_match]. destruct text as [|d text].
    + split; [done|]. intros ([|? mid] & post & H & Hl); done.
    + rewrite andb_true_iff, IH. split.
      * intros [Hc%Ascii.eqb_eq (mid & post & -> & Hl)]. exists (String d mid), post.
        rewrite str_app_cons, !lower_cons. split; [done|]. by rewrite Hc, Hl.
      * intros ([|d' mid] & post & H & Hl); [done|]. rewrite str_app_cons in H. injection H as <- ->.
        rewrite !lower_cons in Hl. injection Hl as Hc Hl. split; [by apply Ascii.eqb_eq|]. eauto.
Qed.

Lemma match_any ts text :
  like_match (TAny :: ts) text = true ↔ ∃ pre post, text = pre +:+ post ∧ like_match ts post = true.
Proof.
  induction text as [|c text IH].
  - cbn. rewrite orb_false_r. split; [intros H; by exists "", ""|]. intros ([|] & post & H & Hm); [|done].
    rewrite str_app_nil_l in H. by subst.
  - change (like_match (TAny :: ts) (String c text))
      with (like_match ts (String c text) || like_match (TAny :: ts) text).
    rewrite orb_true_iff, IH. split.
    + intros [H|(pre & post & -> & H)]; [by exists "", (String c text)|]. exists (String c pre), post. done.
    + intros ([|d pre] & post & H & Hm).
      * left. rewrite str_app_nil_l in H. by subst.
      * rewrite str_app_cons in H. injection H as -> ->. eauto.
Qed.

(** the search box is literal: whatever characters it contains (percent signs,
    underscores and backslashes included), the pattern selects exactly the texts
    that contain the trimmed search text, up to the case of ASCII letters. *)
Theorem search_is_substring ToLower search text :
  sql_like (searchPattern ToLower search) text = true ↔
  ∃ pre mid post, text = pre +:+ mid +:+ post ∧ sql_lower mid = sql_lower (ToLower (trim_space search)).
Proof.
  unfold sql_like, searchPattern. set (needle := ToLower _).
  change (like_tokens ("%" +:+ escapeLikePattern needle +:+ "%"))
    with (TAny :: like_tokens (escapeLikePattern needle +:+ "%")).
  rewrite tokens_escaped. change (like_tokens "%") with [TAny].
  rewrite match_any. split.
  - intros (pre & post & -> & (mid & post' & -> & H)%match_lits_any). exists pre, mid, post'. done.
  - intros (pre & mid & post & -> & H). exists pre, (mid +:+ post). split; [done|].
    apply match_lits_any. eauto.
Qed.

(** ** The cursor round trip *)

Lemma cut_bar_free a b : free_of "|" a = true → cut_bar (a +:+ String "|" b) = Some (a, b).
Proof.
  induction a as [|c a IH]; intros H; [done|]. cbn in H. apply andb_true_iff in H as [Hc H].
  apply negb_true_iff in Hc. rewrite str_app_cons. cbn. by rewrite Hc, IH.
Qed.

Lemma free_app sep s t : free_of sep (s +:+ t) = free_of sep s && free_of sep t.
Proof. induction s as [|c s IH]; [done|]. rewrite str_app_cons. cbn. by rewrite IH, andb_assoc. Qed.

Lemma digit_not_bar d : 0 <= d < 10 → Ascii.eqb (digit_chr d) "|" = false.
Proof.
  intros Hd. apply Ascii.eqb_neq. intros H. pose proof (is_digit_chr d Hd) as Hc. by rewrite H in Hc.
Qed.

Lemma zpad_free w v : free_of "|" (zpad w v) = true.
Proof.
  revert v. induction w as [|w IH]; intros v; [done|]. cbn [zpad]. rewrite free_app, IH. cbn.
  rewrite digit_not_bar; [done|]. apply Z.mod_pos_bound. lia.
Qed.

Lemma strip_zeros_free s : free_of "|" s = true → free_of "|" (strip_zeros s) = true.
Proof.
  induction s as [|c s IH]; intros H; [done|]. cbn in H. apply andb_true_iff in H as [Hc H]. specialize (IH H).
  cbn. destruct (strip_zeros s); [destruct (Ascii.eqb c "0"); [done|]|]; cbn in IH |- *; by rewrite Hc.
Qed.

Lemma fmt_date_free days : free_of "|" (fmt_date days) = true.
Proof. unfold fmt_date. destruct (civil days) as [[y m] d]. by rewrite !free_app, !zpad_free. Qed.

Lemma fmt_frac_free ns : free_of "|" (fmt_frac ns) = true.
Proof.
  unfold fmt_frac. pose proof (strip_zeros_free _ (zpad_free 9 ns)) as H.
  destruct (strip_zeros (zpad 9 ns)); [done|]. by rewrite free_app.
Qed.

Lemma rfc_free t : free_of "|" (rfc3339nano t) = true.
Proof.
  unfold rfc3339nano, fmt_clock. cbv zeta. rewrite !free_app, fmt_date_free, fmt_frac_free, !zpad_free. done.
Qed.

Lemma cursor_roundtrip t id : rfc_range t → decodeAuditCursor (encodeAuditCursor t id) = Some (t, id).
Proof.
  intros Ht. unfold decodeAuditCursor, encodeAuditCursor. rewrite base64_roundtrip by apply url_ok. cbn.
  rewrite str_app_cons, str_app_nil_l, cut_bar_free by apply rfc_free. cbn. by rewrite parse_rfc3339nano_fmt.
Qed.

Lemma cursor_nonempty t id : str_empty (encodeAuditCursor t id) = false.
Proof.
  unfold encodeAuditCursor. apply bool_decide_eq_false. intros H.
  assert (∀ s, s ≠ "" → EncodeToString urlAlphabet s ≠ "") as Hne.
  { intros [|x [|y [|z s]]]; try done. }
  revert H. apply Hne. unfold rfc3339nano. cbv zeta. intros H. apply (f_equal String.length) in H.
  rewrite !str_app_length in H. cbn in H. lia.
Qed.

(** ** Pagination *)

#[global] Instance audit_desc_dec : RelDecision audit_desc.
Proof. unfold audit_desc. apply _. Defined.

#[global] Instance audit_desc_total : base.Total audit_desc.
Proof.
  intros p q. unfold audit_desc, desc2.
  destruct (decide (a_requested_at p.2 = a_requested_at q.2)) as [E|E].
  - rewrite E. destruct (total String.le p.1 q.1); [right|left]; done.
  - destruct (total String.le (a_requested_at p.2) (a_requested_at q.2)); [right|left]; split; done || congruence.
Qed.

#[global] Instance audit_desc_trans : Transitive audit_desc.
Proof.
  intros p q r [H1 H2] [H3 H4]. split; [by etrans|]. intros E.
  assert (a_requested_at p.2 = a_requested_at q.2) as E1.
  { apply (anti_symm String.le); [|done]. by rewrite E. }
  etrans; [apply H4; congruence|by apply H2].
Qed.

Lemma audit_rows_elem db cond p :
  p ∈ audit_rows db cond ↔ audit_entries db !! p.1 = Some p.2 ∧ cond p = true.
Proof.
  unfold audit_rows. rewrite merge_sort_Permutation, list_elem_of_filter. destruct p as [id r].
  rewrite elem_of_map_to_list. tauto.
Qed.

Lemma audit_rows_sorted db cond : StronglySorted audit_desc (audit_rows db cond).
Proof. apply StronglySorted_merge_sort; apply _. Qed.

Lemma audit_rows_NoDup db cond : NoDup (audit_rows db cond).*1.
Proof.
  apply NoDup_fmap_2_strong.
  - intros [i r] [j r'] H1%audit_rows_elem H2%audit_rows_elem E. cbn in *. subst. f_equal. naive_solver congruence.
  - unfold audit_rows. rewrite merge_sort_Permutation. apply NoDup_filter, NoDup_map_to_list.
Qed.

Lemma StronglySorted_weaken {A} (R S : relation A) l :
  (∀ x y, x ∈ l → y ∈ l → R x y → S x y) → StronglySorted R l → StronglySorted S l.
Proof.
  intros HR Hs. induction Hs as [|x l Hs IH Hx]; constructor.
  - apply IH. intros y z Hy Hz. apply HR; by right.
  - rewrite Forall_forall in Hx |- *. intros y Hy. apply HR; [by left|by right|by apply Hx].
Qed.

(** A list of rows of the table in descending order is the listing of its elements. *)
Lemma audit_rows_unique db cond l :
  StronglySorted audit_desc l → NoDup l → (∀ p, p ∈ l ↔ audit_entries db !! p.1 = Some p.2 ∧ cond p = true) →
  audit_rows db cond = l.
Proof.
  intros Hs Hnd He. eapply StronglySorted_unique_strong; [|apply audit_rows_sorted|done|].
  - intros [i r] [j r'] H1%audit_rows_elem H2%He [A1 A2] [B1 B2]. cbn in *.
    assert (a_requested_at r = a_requested_at r') as E by by apply (anti_symm String.le).
    assert (i = j) as -> by (apply (anti_symm String.le); auto). f_equal. naive_solver congruence.
  - apply NoDup_Permutation; [eapply NoDup_fmap_1, audit_rows_NoDup|done|].
    intros p. by rewrite audit_rows_elem, He.
Qed.

Lemma audit_rows_ext db c1 c2 : (∀ p, c1 p = c2 p) → audit_rows db c1 = audit_rows db c2.
Proof.
  intros H. apply audit_rows_unique; [apply audit_rows_sorted|eapply NoDup_fmap_1, audit_rows_NoDup|].
  intros p. by rewrite audit_rows_elem, H.
Qed.

(** The rows after the cursor of a row are the rows that follow it. *)
Lemma rows_after db cond l1 x l2 t :
  audit_rows db cond = l1 ++ x :: l2 → a_requested_at x.2 = rfc3339nano t →
  audit_rows db (λ p, cond p && after_cursor (Some (t, x.1)) p) = l2.
Proof.
  intros HL Ht. pose proof (audit_rows_sorted db cond) as Hs. pose proof (audit_rows_NoDup db cond) as Hnd.
  rewrite HL in Hs, Hnd. apply StronglySorted_app in Hs as (H12 & _ & Hs2).
  apply StronglySorted_cons in Hs2 as [Hx Hs2].
  rewrite fmap_app, fmap_cons in Hnd. apply NoDup_app in Hnd as (_ & _ & [Hxn Hnd2]%NoDup_cons).
  assert (∀ y, y ∈ l1 ++ [x] → after_cursor (Some (t, x.1)) y = false) as Hbefore.
  { intros y Hy. cbn. rewrite <- Ht. apply elem_of_app in Hy as [Hy|Hy]; [|apply list_elem_of_singleton in Hy as ->].
    - destruct (H12 y x Hy ltac:(left)) as [A1 A2]. apply orb_false_iff. split.
      + unfold str_ltb. by rewrite bool_decide_true.
      + destruct (str_eqb _ _) eqn:E; [|done]. boolify. unfold str_ltb. cbn. by rewrite bool_decide_true by auto.
    - rewrite !str_ltb_irrefl. apply andb_false_r. }
  assert (∀ y, y ∈ l2 → after_cursor (Some (t, x.1)) y = true) as Hafter.
  { intros y Hy. cbn. rewrite <- Ht. rewrite Forall_forall in Hx. destruct (Hx y Hy) as [A1 A2].
    destruct (str_eqb (a_requested_at y.2) (a_requested_at x.2)) eqn:E; boolify; apply orb_true_iff; [right|left].
    - apply str_ltb_lt. split; [auto|]. intros E'. apply Hxn. rewrite <- E'. by apply list_elem_of_fmap_2.
    - apply str_ltb_lt. split; [done|]. congruence. }
  apply audit_rows_unique; [done|by eapply NoDup_fmap_1|].
  intros p. rewrite andb_true_iff. split.
  - intros Hp. assert (p ∈ audit_rows db cond) as Hp' by (rewrite HL; set_solver).
    apply audit_rows_elem in Hp' as [? ?]. auto.
  - intros (H1 & H2 & H3). assert (p ∈ audit_rows db cond) as Hp by by apply audit_rows_elem.
    rewrite HL in Hp. apply elem_of_app in Hp as [Hp|[->|Hp]%elem_of_cons]; [| |done].
    + rewrite Hbefore in H3; [done|]. set_solver.
    + rewrite Hbefore in H3; [done|]. set_solver.
Qed.

(** Rows written by [CreateAuditEntry]: readable, with a canonical timestamp. *)
Definition audit_inv (db : DB) : Prop :=
  ∀ id r, audit_entries db !! id = Some r →
    ∃ e, scanAuditEntry (id, r) = Ok e ∧ rfc_range (ae_requested_at e) ∧ a_requested_at r = rfc3339nano (ae_requested_at e).

(** The entry of a row. *)
Definition entry_of (p : string * AuditRow) : AuditEntry :=
  match scanAuditEntry p with
  | Ok e => e
  | Err _ => mkAudit "" None None "" "" "" 0 None None "" None None
  end.

Lemma entry_of_row db p :
  audit_inv db → audit_entries db !! p.1 = Some p.2 →
  scanAuditEntry p = Ok (entry_of p) ∧ rfc_range (ae_requested_at (entry_of p)) ∧
  a_requested_at p.2 = rfc3339nano (ae_requested_at (entry_of p)) ∧ ae_id (entry_of p) = p.1.
Proof.
  intros I H. destruct p as [id r]. destruct (I id r H) as (e & He & Hr & Ha). unfold entry_of. rewrite He.
  split_and!; try done. unfold scanAuditEntry in He. res_inv He. by simplify_eq.
Qed.

(** The order of the listing is the order of time, up to the second. *)
Lemma audit_desc_seconds db p q :
  audit_inv db → audit_entries db !! p.1 = Some p.2 → audit_entries db !! q.1 = Some q.2 → audit_desc p q →
  unix (ae_requested_at (entry_of q)) <= unix (ae_requested_at (entry_of p)).
Proof.
  intros I Hp Hq [Hle _]. destruct (entry_of_row db p I Hp) as (_ & Rp & Ep & _), (entry_of_row db q I Hq) as (_ & Rq & Eq & _).
  rewrite Ep, Eq in Hle. destruct (Z.le_gt_cases (unix (ae_requested_at (entry_of q))) (unix (ae_requested_at (entry_of p)))) as [|Hlt]; [done|].
  pose proof (text_lt_seconds _ _ Rp Rq Hlt) as [H Hne]%str_ltb_lt. exfalso. apply Hne. by apply (anti_symm String.le).
Qed.

Lemma scan_rows db n :
  audit_inv db → ∀ l, (∀ p, p ∈ l → audit_entries db !! p.1 = Some p.2) →
  scan_all scanAuditEntry (take n l) = Ok (entry_of <$> take n l).
Proof.
  intros I l. revert n. induction l as [|p l IH]; intros n Hl; [by rewrite take_nil|]. destruct n as [|n]; [done|].
  cbn. destruct (entry_of_row db p I (Hl p ltac:(left))) as [-> _]. cbn.
  rewrite IH; [done|]. intros q Hq. apply Hl. by right.
Qed.

Lemma clampLimit_range limit : 1 <= clampLimit limit <= 100.
Proof. unfold clampLimit. destruct (Z.leb_spec limit 0), (Z.ltb_spec 100 50), (Z.ltb_spec 100 limit); lia. Qed.

Section pagination.
Context (julianday : string → option Z) (ToLower : string → string).

(** One page of a listing whose remaining rows are [l]. *)
Lemma page_spec db q cursor l :
  audit_inv db → QueryCursor q = cursor →
  (if str_empty cursor then Ok None
   else match decodeAuditCursor cursor with Some c => Ok (Some c) | None => Err (ErrStore "decode audit cursor") end)
  = (Ok (if str_empty cursor then None else decodeAuditCursor cursor) : res store_error _) →
  audit_rows db (λ p, audit_matches julianday ToLower q p
                      && after_cursor (if str_empty cursor then None else decodeAuditCursor cursor) p) = l →
  let limit := Z.to_nat (clampLimit (QueryLimit q)) in
  ListAuditEntries julianday ToLower None db q
  = Ok (mkAuditList (entry_of <$> take limit l)
          (if (limit <? length l)%nat
           then match l !! (limit - 1)%nat with
                | Some p => Some (encodeAuditCursor (ae_requested_at (entry_of p)) (ae_id (entry_of p)))
                | None => None end
           else None)).
Proof.
  intros I Hc Hdec Hl limit. unfold ListAuditEntries. rewrite Hc, Hdec. cbn [res_bind]. fold limit. rewrite Hl.
  assert (∀ p, p ∈ l → audit_entries db !! p.1 = Some p.2) as Hrows.
  { intros p Hp. rewrite <- Hl in Hp. by apply audit_rows_elem in Hp as [? _]. }
  rewrite (scan_rows db _ I l Hrows). cbn [res_bind driver]. rewrite length_fmap, length_take.
  pose proof (clampLimit_range (QueryLimit q)).
  destruct (Nat.ltb_spec limit (length l)) as [Hlt|Hge].
  - rewrite (proj2 (Nat.ltb_lt _ _)) by lia. rewrite list_lookup_fmap, lookup_take_lt by lia.
    destruct (lookup_lt_is_Some_2 l (limit - 1)) as [p Hp]; [lia|]. rewrite Hp. cbn.
    rewrite <- fmap_take, take_take. do 3 f_equal. by rewrite Nat.min_l by lia.
  - rewrite (proj2 (Nat.ltb_ge _ _)) by lia. rewrite !take_ge by lia. done.
Qed.

Lemma follow_rows db q fuel cursor l1 l2 :
  audit_inv db → audit_rows db (audit_matches julianday ToLower q) = l1 ++ l2 →
  (cursor = "" ∧ l1 = [] ∨
   ∃ t id, cursor = encodeAuditCursor t id ∧ rfc_range t ∧
     audit_rows db (λ p, audit_matches julianday ToLower q p && after_cursor (Some (t, id)) p) = l2) →
  (length l2 < fuel)%nat →
  follow julianday ToLower fuel db (with_cursor q cursor) = Ok (entry_of <$> l2).
Proof.
  intros I. revert cursor l1 l2. induction fuel as [|fuel IH]; intros cursor l1 l2 HL Hc Hf; [lia|].
  cbn [follow]. rewrite (page_spec db (with_cursor q cursor) cursor l2 I eq_refl); cycle 1.
  { destruct Hc as [[-> _]|(t & id & -> & Ht & _)]; [done|]. by rewrite cursor_nonempty, cursor_roundtrip. }
  { destruct Hc as [[-> ->]|(t & id & -> & Ht & <-)].
    - cbn in HL. rewrite <- HL. apply audit_rows_ext. intros p. cbn. by rewrite andb_true_r.
    - by rewrite cursor_nonempty, cursor_roundtrip. }
  cbn [res_bind NextCursor AuditItems QueryLimit with_cursor].
  pose proof (clampLimit_range (QueryLimit q)). set (limit := Z.to_nat (clampLimit (QueryLimit q))) in *.
  destruct (Nat.ltb_spec limit (length l2)) as [Hlt|Hge]; [|by rewrite take_ge].
  destruct (lookup_lt_is_Some_2 l2 (limit - 1)) as [x Hx]; [lia|]. rewrite Hx.
  assert (x ∈ audit_rows db (audit_matches julianday ToLower q)) as Hin.
  { rewrite HL. apply elem_of_app. right. by eapply list_elem_of_lookup_2. }
  apply audit_rows_elem in Hin as [Hin _].
  destruct (entry_of_row db x I Hin) as (_ & Hr & Ht & Hid).
  assert (audit_rows db (audit_matches julianday ToLower q)
          = (l1 ++ take (limit - 1) l2) ++ x :: drop limit l2) as Hsplit.
  { rewrite HL, <- app_assoc. f_equal. rewrite <- (take_drop_middle l2 (limit - 1) x Hx) at 1.
    do 3 f_equal. lia. }
  change (with_cursor (with_cursor q cursor) ?c) with (with_cursor q c).
  rewrite (IH _ ((l1 ++ take (limit - 1) l2) ++ [x]) (drop limit l2)).
  - cbn [res_bind]. by rewrite <- fmap_app, take_drop.
  - by rewrite <- app_assoc.
  - right. eexists _, _. split_and!; [done|done|]. rewrite Hid. by eapply rows_after.
  - rewrite length_drop. lia.
Qed.

End pagination.

(** ** The latest entry of each stack *)

Lemma latestByStack_lookup entries result s :
  latestByStack entries result !! s =
  match result !! s with
  | Some e => Some e
  | None => match find_index_from (λ e, match ae_stack e with Some s' => str_eqb s' s | None => false end) 0 entries with
            | Some i => entries !! i
            | None => None
            end
  end.
Proof.
  revert result. induction entries as [|e entries IH]; intros result; cbn [latestByStack]; [by destruct (result !! s)|].
  assert (∀ f n, find_index_from (A:=AuditEntry) f (S n) entries = S <$> find_index_from f n entries) as Hshift.
  { clear. intros f. induction entries as [|x l IH]; intros n; cbn; [done|]. destruct (f x); [done|]. apply IH. }
  cbn [find_index_from]. destruct (ae_stack e) as [s'|] eqn:Es.
  - destruct (str_eqb s' s) eqn:Ess; boolify.
    + subst s'. destruct (result !! s) as [e0|] eqn:Er; rewrite IH; [by rewrite Er|]. by rewrite lookup_insert_eq.
    + destruct (result !! s') eqn:Er'; rewrite IH, ?lookup_insert_ne by done; destruct (result !! s); try done;
        rewrite Hshift; by destruct (find_index_from _ 0 entries).
  - rewrite IH. destruct (result !! s); [done|]. rewrite Hshift. by destruct (find_index_from _ 0 entries).
Qed.

(** [LatestAuditEntriesByStackIDs] returns, for each requested stack, the first
    of its entries in the listing order (newest first), nothing for a stack
    without entries, and nothing for other stacks. *)
Theorem LatestAuditEntries_spec db stackIDs s :
  audit_inv db → s ∈ stackIDs →
  ∃ result, LatestAuditEntriesByStackIDs None db stackIDs = Ok result ∧
    match result !! s with
    | Some e => ∃ id r, audit_entries db !! id = Some r ∧ a_stack r = Some s ∧ e = entry_of (id, r) ∧
        ∀ id' r', audit_entries db !! id' = Some r' → a_stack r' = Some s → audit_desc (id, r) (id', r')
    | None => ∀ id r, audit_entries db !! id = Some r → a_stack r ≠ Some s
    end.
Proof.
  intros I Hs. unfold LatestAuditEntriesByStackIDs. destruct stackIDs as [|s0 ids]; [by apply elem_of_nil in Hs|].
  set (cond := λ p : string * AuditRow, _). set (L := audit_rows db cond).
  assert (∀ p, p ∈ L → audit_entries db !! p.1 = Some p.2) as Hrows.
  { intros p Hp. by apply audit_rows_elem in Hp as [? _]. }
  pose proof (scan_rows db (length L) I L Hrows) as Hscan. rewrite take_ge in Hscan by done. rewrite Hscan. cbn.
  eexists. split; [done|]. rewrite latestByStack_lookup, lookup_empty.
  assert (∀ p, p ∈ L → ae_stack (entry_of p) = a_stack p.2) as Hstack.
  { intros p Hp. destruct (entry_of_row db p I (Hrows p Hp)) as (He & _). unfold scanAuditEntry in He.
    res_inv He. by rewrite <- He. }
  assert (∀ id r, audit_entries db !! id = Some r → a_stack r = Some s → (id, r) ∈ L) as Hall.
  { intros id r Hr Hst. apply audit_rows_elem. split; [done|]. unfold cond. cbn. rewrite Hst.
    by apply bool_decide_eq_true. }
  destruct (find_index_from _ 0 (entry_of <$> L)) as [i|] eqn:Ei.
  - apply find_index_first in Ei as (e & He & Hp & Hmin). rewrite He.
    rewrite list_lookup_fmap in He. destruct (L !! i) as [[id r]|] eqn:Eli; [|done]. cbn in He. injection He as <-.
    pose proof (list_elem_of_lookup_2 _ _ _ Eli) as Hin. rewrite (Hstack _ Hin) in Hp. cbn in Hp.
    destruct (a_stack r) as [s'|] eqn:Est; [|done]. boolify. subst s'.
    exists id, r. split_and!; [apply (Hrows _ Hin)|done|done|].
    intros id' r' Hr' Hst'. destruct (list_elem_of_lookup_1 _ _ (Hall id' r' Hr' Hst')) as [k Hk].
    destruct (decide (k < i)%nat) as [Hlt|Hge].
    + exfalso. specialize (Hmin k (entry_of (id', r')) Hlt). rewrite list_lookup_fmap, Hk in Hmin.
      specialize (Hmin eq_refl). rewrite (Hstack _ (list_elem_of_lookup_2 _ _ _ Hk)) in Hmin. cbn in Hmin.
      rewrite Hst' in Hmin. by boolify.
    + destruct (decide (k = i)) as [->|Hne].
      * rewrite Eli in Hk. injection Hk as <- <-. by split.
      * pose proof (audit_rows_sorted db cond) as Hsorted. fold L in Hsorted.
        rewrite <- (take_drop_middle L i _ Eli) in Hsorted.
        apply StronglySorted_app in Hsorted as (_ & _ & [Hf _]%StronglySorted_cons).
        rewrite Forall_forall in Hf. apply Hf. apply (list_elem_of_lookup_2 _ (k - S i)).
        rewrite lookup_drop. by replace (S i + (k - S i))%nat with k by lia.
  - intros id r Hr Hst. pose proof (Hall id r Hr Hst) as Hin.
    assert (entry_of (id, r) ∈ entry_of <$> L) as Hin' by by apply list_elem_of_fmap_2.
    pose proof (find_index_from_None _ _ _ _ Ei Hin') as Hf. cbn in Hf. rewrite (Hstack _ Hin) in Hf. cbn in Hf.
    rewrite Hst in Hf. by boolify.
Qed.

(** ** Reachable audit tables *)

Definition audit_times_ok (e : AuditEntry) : Prop := rfc_range (ae_requested_at e) ∧ opt_range (ae_finished_at e).

Lemma scan_audit_row e :
  audit_times_ok e →
  scanAuditEntry (ae_id e, audit_row e)
  = Ok (mkAudit (ae_id e) (nullIfPtr (ae_stack e)) (nullIfPtr (ae_job e)) (ae_action e) (ae_requested_by e) (ae_result e)
          (ae_requested_at e) (ae_finished_at e) (ae_duration_ms e) (ae_target_type e) (nullIfPtr (ae_target e))
          (nullIfPtr (ae_detail e))).
Proof. intros [H1 H2]. unfold scanAuditEntry. cbn. by rewrite parse_time_fmt, parse_opt_time_fmt. Qed.

Lemma CreateAudit_inv io db e db' :
  audit_inv db → audit_times_ok e → CreateAuditEntry io db e = Ok db' → audit_inv db'.
Proof.
  intros I He. unfold CreateAuditEntry. intros [-> H]%driver_Ok. case_match; [done|]. injection H as <-.
  intros id r. cbn. intros [[<- <-]|[_ Hr]]%lookup_insert_Some; [|by apply I].
  eexists. split; [by apply scan_audit_row|]. cbn. split; [apply He|done].
Qed.

Lemma empty_audit_inv : audit_inv emptyDB.
Proof. intros id r. cbn. by rewrite lookup_empty. Qed.

(** ** Concrete instances *)

Definition demoEntry (id stack : string) (n : Z) : AuditEntry :=
  mkAudit id (Some stack) None "update_stack" "local" "succeeded" (demoTime + n * Second) None None "stack" None None.

Definition demoAuditOps : list AuditEntry := [demoEntry "a1" "web" 1; demoEntry "a2" "db" 2; demoEntry "a3" "web" 2].
Definition createAll (db : DB) (l : list AuditEntry) : DB :=
  foldl (λ db e, match CreateAuditEntry None db e with Ok db' => db' | Err _ => db end) db l.
Definition demoAuditDB : DB := createAll emptyDB demoAuditOps.
Definition demoQuery : AuditQuery := mkQuery "" "" [] None None 1 "".
Definition noJulian (_ : string) : option Z := None.
Definition lowerId (s : string) : string := sql_lower s.

Lemma createAll_inv db l : audit_inv db → Forall audit_times_ok l → audit_inv (createAll db l).
Proof.
  revert db. induction l as [|e l IH]; intros db I Hl; [done|]. apply Forall_cons in Hl as [He Hl].
  change (createAll db (e :: l))
    with (createAll (match CreateAuditEntry None db e with Ok db' => db' | Err _ => db end) l).
  apply IH; [|done]. destruct (CreateAuditEntry None db e) eqn:E; [exact (CreateAudit_inv _ _ _ _ I He E)|done].
Qed.

Lemma demoAuditDB_inv : audit_inv demoAuditDB.
Proof. apply createAll_inv; [apply empty_audit_inv|]. repeat (constructor; [split; [split; by vm_compute|exact Logic.I]|]). constructor. Qed.

(** three pages of one entry *)
Example demo_pages :
  (λ l, ae_id <$> l) (match follow noJulian lowerId 4 demoAuditDB demoQuery with Ok l => l | Err _ => [] end)
  = ["a3"; "a2"; "a1"].
Proof. by vm_compute. Qed.


Lemma LatestAuditEntries_spec_witness :
  ∃ result, LatestAuditEntriesByStackIDs None demoAuditDB ["web"; "gone"] = Ok result ∧
    match result !! "web" with
    | Some e => ∃ id r, audit_entries demoAuditDB !! id = Some r ∧ a_stack r = Some "web" ∧ e = entry_of (id, r) ∧
        ∀ id' r', audit_entries demoAuditDB !! id' = Some r' → a_stack r' = Some "web" → audit_desc (id, r) (id', r')
    | None => ∀ id r, audit_entries demoAuditDB !! id = Some r → a_stack r ≠ Some "web"
    end.
Proof.
  apply (LatestAuditEntries_spec demoAuditDB ["web"; "gone"] "web"); [apply demoAuditDB_inv|left].
Defined.
