(* ===== verification/AuditService.v ===== *)
(** * internal/audit/service.go: what is recorded

    The entries the services write to the audit log and the summary of the last
    action of each stack.  The store operations are those of StoreAudit.
    [encoding/json] on the details is a parameter that may refuse them; the random
    part of an id is an argument, as is the clock. *)

From stdpp Require Import gmap strings list.
From Stdlib Require Import Ascii ZArith Lia.
From S2P Require Import Prelude GoStrings GoTime Store StoreAudit.

Local Open Scope Z_scope.

(** [map[string]any] with the values the callers use. *)
Inductive detail :=
| DText (s : string)
| DNumber (n : Z)
| DBool (b : bool)
| DTexts (l : list string)
| DMap (keys : list string) (values : list detail)
| DMaps (l : list detail).
Abbreviation details := (gmap string detail).

Record LastAction := mkLastAction { la_action : string; la_result : string; la_finished : Time }.

Inductive audit_error := ErrMarshal | ErrAudit (e : store_error).

(** The origin of an entry: the outcome of the store call, the random token and
    the clock. *)
Record auditEnv := mkAuditEnv { au_io : IO; au_token : string; au_now : Time }.

Definition fallback (value fallbackValue : string) : string := if str_empty value then fallbackValue else value.

Section audit.
Variable Marshal : details → option string.

Definition marshalDetails (d : details) : res audit_error (option string) :=
  if (size d =? 0)%nat then Ok None else match Marshal d with None => Err ErrMarshal | Some text => Ok (Some text) end.
Definition create (env : auditEnv) (db : DB) (e : AuditEntry) : res audit_error DB :=
  match CreateAuditEntry (au_io env) db e with Ok db => Ok db | Err e => Err (ErrAudit e) end.
Definition auditID (env : auditEnv) : string := "audit_" +:+ au_token env.

Definition durationMS (started finished : Time) : Z := Milliseconds (Sub finished started).
(** The error of the job, overridden by the details of the caller. *)
Definition jobDetails (job : Job) (extra : details) : details :=
  extra ∪ ((if str_empty (job_error_code job) then ∅ else {["error_code" := DText (job_error_code job)]}) ∪
           (if str_empty (job_error_message job) then ∅ else {["error_message" := DText (job_error_message job)]})).
Definition RecordJob (env : auditEnv) (db : DB) (job : Job) (extra : details) : res audit_error DB :=
  let? detail := marshalDetails (jobDetails job extra) in
  let stack := if str_empty (job_stack job) then None else Some (job_stack job) in
  create env db (mkAudit (auditID env) stack (Some (job_id job)) (job_action job) (fallback (job_requested_by job) "local") (job_state job)
    (job_requested_at job) (job_finished_at job)
    (match job_started_at job, job_finished_at job with Some s, Some f => Some (durationMS s f) | _, _ => None end)
    (match stack with Some _ => "stack" | None => "workspace" end) stack detail).
Definition RecordStackJob (env : auditEnv) (db : DB) (job : Job) : res audit_error DB := RecordJob env db job ∅.

Definition RecordSystemEvent (env : auditEnv) (db : DB) (action requestedBy result : string) (requestedAt : Time) (finishedAt : option Time) (d : details)
    : res audit_error DB :=
  let? detail := marshalDetails d in
  create env db (mkAudit (auditID env) None None action (fallback requestedBy "local") result requestedAt finishedAt
    (durationMS requestedAt <$> finishedAt) "system" None detail).

(** The entries that are finished at the moment they are written. *)
Definition recordNow (env : auditEnv) (db : DB) (stack : option string) (action requestedBy result targetType targetID : string) (d : details)
    : res audit_error DB :=
  let? detail := marshalDetails d in
  create env db (mkAudit (auditID env) stack None action (fallback requestedBy "local") result (au_now env) (Some (au_now env)) None targetType (Some targetID) detail).

Definition RecordTerminalEvent env db (stackID sessionID containerID requestedBy action result : string) (d : details) : res audit_error DB :=
  recordNow env db (Some stackID) action requestedBy result "terminal_session" sessionID d.
Definition recordConfigFileAction env db (action relativePath : string) (stackID : option string) (requestedBy : string) (d : details) : res audit_error DB :=
  recordNow env db stackID action requestedBy "succeeded" "config_file" relativePath d.
Definition RecordConfigFileSave env db := recordConfigFileAction env db "save_config_file".
Definition RecordConfigFileDelete env db := recordConfigFileAction env db "delete_config_file".
Definition RecordGitFileRestore env db := recordConfigFileAction env db "git_restore_file".
Definition RecordStackFileSave env db (stackID relativePath requestedBy : string) (d : details) : res audit_error DB :=
  recordNow env db (Some stackID) "save_stack_file" requestedBy "succeeded" "stack_file" relativePath d.
Definition RecordConfigPermissionRepair env db (relativePath requestedBy : string) (d : details) : res audit_error DB :=
  recordNow env db None "repair_config_workspace_permissions" requestedBy "succeeded" "config_file" relativePath d.
Definition RecordStackPermissionRepair env db (stackID relativePath requestedBy : string) (d : details) : res audit_error DB :=
  recordNow env db (Some stackID) "repair_stack_workspace_permissions" requestedBy "succeeded" "stack_file" relativePath d.

Definition gitWorkspace : string := "stacks+config".
Definition RecordGitCommit env db (requestedBy commitID summary : string) (paths : list string) (remainingChanges : Z) (d : details) : res audit_error DB :=
  let d := if str_empty commitID then d else <["commit" := DText commitID]> d in
  let d := if str_empty summary then d else <["summary" := DText summary]> d in
  let d := match paths with [] => d | _ => <["path_count" := DNumber (Z.of_nat (length paths))]> (<["paths" := DTexts paths]> d) end in
  recordNow env db None "git_commit" requestedBy "succeeded" "git_workspace" gitWorkspace (<["remaining_changes" := DNumber remainingChanges]> d).
Definition RecordGitPush env db (requestedBy remote branch upstreamName headCommit : string) (pushed : bool) (aheadCount behindCount : Z) (d : details)
    : res audit_error DB :=
  recordNow env db None "git_push" requestedBy "succeeded" "git_workspace" gitWorkspace
    (<["behind_count" := DNumber behindCount]> (<["ahead_count" := DNumber aheadCount]> (<["pushed" := DBool pushed]> (<["head_commit" := DText headCommit]>
      (<["upstream_name" := DText upstreamName]> (<["branch" := DText branch]> (<["remote" := DText remote]> d))))))).
End audit.

(** [List] hands the query over; [LastActions] drops what is not finished. *)
Definition AuditList (julianday : string → option Z) (ToLower : string → string) (io : IO) (db : DB) (q : AuditQuery) : res store_error AuditListResult :=
  ListAuditEntries julianday ToLower io db q.
Definition lastAction (e : AuditEntry) : option LastAction := (λ t, mkLastAction (ae_action e) (ae_result e) t) <$> ae_finished_at e.
Definition LastActions (io : IO) (db : DB) (stackIDs : list string) : res store_error (gmap string LastAction) :=
  let? entries := LatestAuditEntriesByStackIDs io db stackIDs in Ok (omap lastAction entries).

(** ** The log only grows *)

Inductive auditCall :=
| CallJob (job : Job) (extra : details)
| CallSystemEvent (action requestedBy result : string) (requestedAt : Time) (finishedAt : option Time) (d : details)
| CallTerminalEvent (stackID sessionID containerID requestedBy action result : string) (d : details)
| CallConfigFileSave (relativePath : string) (stackID : option string) (requestedBy : string) (d : details)
| CallConfigFileDelete (relativePath : string) (stackID : option string) (requestedBy : string) (d : details)
| CallGitFileRestore (relativePath : string) (stackID : option string) (requestedBy : string) (d : details)
| CallStackFileSave (stackID relativePath requestedBy : string) (d : details)
| CallConfigPermissionRepair (relativePath requestedBy : string) (d : details)
| CallStackPermissionRepair (stackID relativePath requestedBy : string) (d : details)
| CallGitCommit (requestedBy commitID summary : string) (paths : list string) (remaining : Z) (d : details)
| CallGitPush (requestedBy remote branch upstreamName headCommit : string) (pushed : bool) (ahead behind : Z) (d : details).

Section facts.
Variable Marshal : details → option string.

Definition record (env : auditEnv) (c : auditCall) (db : DB) : res audit_error DB :=
  match c with
  | CallJob job extra => RecordJob Marshal env db job extra
  | CallSystemEvent action by_ result requested finished d => RecordSystemEvent Marshal env db action by_ result requested finished d
  | CallTerminalEvent stack session container by_ action result d => RecordTerminalEvent Marshal env db stack session container by_ action result d
  | CallConfigFileSave path stack by_ d => RecordConfigFileSave Marshal env db path stack by_ d
  | CallConfigFileDelete path stack by_ d => RecordConfigFileDelete Marshal env db path stack by_ d
  | CallGitFileRestore path stack by_ d => RecordGitFileRestore Marshal env db path stack by_ d
  | CallStackFileSave stack path by_ d => RecordStackFileSave Marshal env db stack path by_ d
  | CallConfigPermissionRepair path by_ d => RecordConfigPermissionRepair Marshal env db path by_ d
  | CallStackPermissionRepair stack path by_ d => RecordStackPermissionRepair Marshal env db stack path by_ d
  | CallGitCommit by_ commit summary paths remaining d => RecordGitCommit Marshal env db by_ commit summary paths remaining d
  | CallGitPush by_ remote branch upstream head pushed ahead behind d => RecordGitPush Marshal env db by_ remote branch upstream head pushed ahead behind d
  end.

(** One entry more, with an id of its own and a requester. *)
Definition appended (env : auditEnv) (db db' : DB) : Prop := ∃ e, ae_id e = auditID env ∧ ae_requested_by e ≠ "" ∧
  audit_entries db !! auditID env = None ∧ db' = with_audit db (<[auditID env := audit_row e]> (audit_entries db)).

Lemma fallback_nonempty v w : w ≠ "" → fallback v w ≠ "".
Proof using. unfold fallback. destruct (str_empty v) eqn:E; [done|]. by boolify. Qed.

Lemma create_appended env db e db' : ae_id e = auditID env → ae_requested_by e ≠ "" → create env db e = Ok db' → appended env db db'.
Proof using.
  intros Hid Hby. unfold create, CreateAuditEntry. destruct (au_io env); cbn; [done|]. rewrite Hid. destruct (audit_entries db !! auditID env) eqn:E; [done|]. intros [= <-]. by exists e.
Qed.
Lemma recordNow_appended env db stack action by_ result type target d db' : recordNow Marshal env db stack action by_ result type target d = Ok db' → appended env db db'.
Proof using.
  unfold recordNow. destruct (marshalDetails Marshal d); cbn; [|done]. apply create_appended; [done|by apply fallback_nonempty].
Qed.

(** the audit log only grows: whatever is recorded, a successful call adds one entry under an unused id and with a named requester, and changes nothing else in the
    database. *)
Theorem audit_append_only env c db db' : record env c db = Ok db' → appended env db db' ∧ ∀ id r, audit_entries db !! id = Some r → audit_entries db' !! id = Some r.
Proof using.
  intros H. assert (appended env db db') as Ha.
  { destruct c; cbn [record] in H; unfold RecordTerminalEvent, RecordConfigFileSave, RecordConfigFileDelete, RecordGitFileRestore, recordConfigFileAction, RecordStackFileSave,
      RecordConfigPermissionRepair, RecordStackPermissionRepair, RecordGitCommit, RecordGitPush, RecordJob, RecordSystemEvent in H.
    1,2: destruct (marshalDetails _ _); cbn in H; [|done]; revert H; apply create_appended; [done|by apply fallback_nonempty].
    all: by apply recordNow_appended in H. }
  split; [done|]. destruct Ha as (e & _ & _ & Hn & ->). intros id r Hr. cbn. rewrite lookup_insert_ne; [done|]. intros <-. congruence.
Qed.

(** C23: a finished job of a stack that was requested in a later second than every recorded entry of the stack becomes its last action, with the state and the time the job
    ended in. *)
Theorem job_is_last_action env db job extra finished stackIDs :
  audit_inv db → rfc_range (job_requested_at job) → rfc_range finished → job_finished_at job = Some finished → job_stack job ≠ "" → job_stack job ∈ stackIDs →
  au_io env = None → audit_entries db !! auditID env = None → is_ok (marshalDetails Marshal (jobDetails job extra)) = true →
  (∀ id r, audit_entries db !! id = Some r → a_stack r = Some (job_stack job) → unix (ae_requested_at (entry_of (id, r))) < unix (job_requested_at job)) →
  ∃ db' m, RecordJob Marshal env db job extra = Ok db' ∧ audit_inv db' ∧ LastActions None db' stackIDs = Ok m ∧
    m !! job_stack job = Some (mkLastAction (job_action job) (job_state job) finished).
Proof using.
  intros I Hrq Hrf Hfin Hstack Hin Hio Hfresh Hmarshal Hnew. unfold RecordJob. destruct (marshalDetails _ _) as [dt|]; [|done]. cbn.
  assert (str_empty (job_stack job) = false) as -> by (by apply bool_decide_eq_false). set (e := mkAudit _ _ _ _ _ _ _ _ _ _ _ _).
  set (db' := with_audit db (<[ae_id e := audit_row e]> (audit_entries db))).
  assert (CreateAuditEntry None db e = Ok db') as Hc by (unfold CreateAuditEntry; cbn; by rewrite Hfresh).
  assert (audit_times_ok e) as Ht by (split; cbn; [done|by rewrite Hfin]). pose proof (CreateAudit_inv _ _ _ _ I Ht Hc) as I'.
  destruct (LatestAuditEntries_spec db' stackIDs (job_stack job) I' Hin) as (m & Hm & Hlast). exists db', (omap lastAction m).
  split; [unfold create; by rewrite Hio, Hc|]. split; [done|]. split; [unfold LastActions; by rewrite Hm|]. rewrite lookup_omap.
  assert (audit_entries db' !! ae_id e = Some (audit_row e)) as Hrow by (cbn; by rewrite lookup_insert_eq).
  assert (nullIfPtr (Some (job_stack job)) = Some (job_stack job)) as Hnull by (unfold nullIfPtr; cbn; destruct (job_stack job); done).
  destruct (m !! job_stack job) as [x|]; [|by destruct (Hlast _ _ Hrow)]. destruct Hlast as (id & r & Hr & Hst & -> & Hdesc).
  assert (id = ae_id e) as ->.
  { destruct (decide (id = ae_id e)) as [?|Hne]; [done|]. exfalso. pose proof (audit_desc_seconds db' (id, r) (ae_id e, audit_row e) I' Hr Hrow (Hdesc _ _ Hrow Hnull)) as Hle.
    cbn in Hr. rewrite lookup_insert_ne in Hr by done. pose proof (Hnew id r Hr Hst). revert Hle. unfold entry_of at 1. rewrite (scan_audit_row e Ht). cbn. lia. }
  rewrite Hrow in Hr. injection Hr as <-. cbn [mbind option_bind]. unfold entry_of. rewrite (scan_audit_row e Ht). unfold lastAction. cbn. by rewrite Hfin.
Qed.
End facts.

(** ** Concrete runs *)

Definition demoMarshal (_ : details) : option string := Some "{}".
Definition demoAuditEnv (token : string) : auditEnv := mkAuditEnv None token demoTime.
Definition demoUpdate : Job :=
  mkJob "job_7" "web" "up" "failed" "" "" (demoTime + 60 * Second) (Some (demoTime + 60 * Second)) (Some (demoTime + 90 * Second)) None "up_failed" "exit status 1".
Definition demoRecorded : DB := match RecordJob demoMarshal (demoAuditEnv "x") demoAuditDB demoUpdate ∅ with Ok db => db | Err _ => emptyDB end.

Lemma demo_recorded : record demoMarshal (demoAuditEnv "x") (CallJob demoUpdate ∅) demoAuditDB = Ok demoRecorded.
Proof. vm_compute. reflexivity. Qed.

Lemma audit_append_only_witness : appended (demoAuditEnv "x") demoAuditDB demoRecorded ∧
  ∀ id r, audit_entries demoAuditDB !! id = Some r → audit_entries demoRecorded !! id = Some r.
Proof. exact (audit_append_only demoMarshal (demoAuditEnv "x") (CallJob demoUpdate ∅) demoAuditDB demoRecorded demo_recorded). Defined.

Lemma demo_newest id r : audit_entries demoAuditDB !! id = Some r → a_stack r = Some "web" → unix (ae_requested_at (entry_of (id, r))) < unix (demoTime + 60 * Second).
Proof.
  assert (Forall (λ p : string * AuditRow, a_stack p.2 = Some "web" → unix (ae_requested_at (entry_of p)) < unix (demoTime + 60 * Second)) (map_to_list (audit_entries demoAuditDB))) as H.
  { apply (bool_decide_unpack _). vm_compute. exact I. }
  rewrite Forall_forall in H. intros Hr. apply (H (id, r)). by apply elem_of_map_to_list.
Qed.

Lemma job_is_last_action_witness : ∃ db' m, RecordJob demoMarshal (demoAuditEnv "x") demoAuditDB demoUpdate ∅ = Ok db' ∧ audit_inv db' ∧ LastActions None db' ["web"; "db"] = Ok m ∧
  m !! "web" = Some (mkLastAction "up" "failed" (demoTime + 90 * Second)).
Proof.
  apply (job_is_last_action demoMarshal (demoAuditEnv "x") demoAuditDB demoUpdate ∅ (demoTime + 90 * Second) ["web"; "db"]);
    [exact demoAuditDB_inv|by vm_compute|by vm_compute|reflexivity|done|by left|reflexivity|by vm_compute|by vm_compute|exact demo_newest].
Defined.
