(* ===== verification/JobsService.v ===== *)
(** * internal/jobs/service.go: the job service

    The handlers of [jobs.Service] over the store and the lock table.  A handler
    returns its result and the new service state; the state can change on an
    error path too.  Clock readings, random tokens and the outcomes of the store
    calls ([IO]) are arguments.  The visible effects (live events, activity
    signals, metrics, the terminal hook, calls of a cancel function) are recorded
    in order in [trace].

    The event mutexes ([lockJobEvents]) make each store call and its publication
    one step for the job; their index function is modelled here and the
    interleavings of the remaining steps are in JobsConcurrency. *)

From stdpp Require Import gmap strings list sorting.
From Stdlib Require Import Ascii ZArith.
From S2P Require Import Prelude GoStrings GoTime JobsResource JobsLocks Store.

Local Open Scope Z_scope.

Inductive jobs_error :=
| JobErrNotFound
| ErrNotCancellable
| ErrTransitionConflict (current : Job)
| ErrResources (e : resource_error)
| ErrLocks (e : lock_error)
| ErrFromStore (e : store_error).

Inductive effect :=
| EvPublished (e : JobEvent)
| EvActivity
| EvJobStarted (startedAt : Time)
| EvJobFinished (startedAt finishedAt : Time) (state : string)
| EvTerminal (j : Job)
| EvCancelCalled (cancel : nat).

(** [Service].  A channel is a number; [subsByJob] holds the buffered content of
    the event channels of a job, [activitySubs] whether a signal is pending in
    each activity channel; cancel functions are numbers. *)
Record Service := mkService {
  store : DB;
  locks : Locks;
  cancelByJob : gmap string nat;
  subsByJob : gmap string (gmap nat (list JobEvent));
  activitySubs : gmap nat bool;
  hasMetrics : bool;
  hasTerminalHook : bool;
  trace : list effect }.

Definition NewService (db : DB) : Service := mkService db emptyLocks ∅ ∅ ∅ false false [].

Definition with_store (s : Service) (db : DB) : Service :=
  mkService db (locks s) (cancelByJob s) (subsByJob s) (activitySubs s) (hasMetrics s) (hasTerminalHook s) (trace s).
Definition with_locks (s : Service) (l : Locks) : Service :=
  mkService (store s) l (cancelByJob s) (subsByJob s) (activitySubs s) (hasMetrics s) (hasTerminalHook s) (trace s).
Definition with_cancels (s : Service) (c : gmap string nat) : Service :=
  mkService (store s) (locks s) c (subsByJob s) (activitySubs s) (hasMetrics s) (hasTerminalHook s) (trace s).
Definition with_subs (s : Service) (m : gmap string (gmap nat (list JobEvent))) : Service :=
  mkService (store s) (locks s) (cancelByJob s) m (activitySubs s) (hasMetrics s) (hasTerminalHook s) (trace s).
Definition with_activity (s : Service) (m : gmap nat bool) : Service :=
  mkService (store s) (locks s) (cancelByJob s) (subsByJob s) m (hasMetrics s) (hasTerminalHook s) (trace s).
Definition emit (s : Service) (e : effect) : Service :=
  mkService (store s) (locks s) (cancelByJob s) (subsByJob s) (activitySubs s) (hasMetrics s) (hasTerminalHook s)
    (trace s ++ [e]).

(** ** Subscriptions and publication *)

Definition SubscribeActivity (s : Service) (channel : nat) : Service :=
  with_activity s (<[channel := false]> (activitySubs s)).
Definition unsubscribeActivity (s : Service) (channel : nat) : Service :=
  with_activity s (delete channel (activitySubs s)).

(** A non-blocking send on a channel of capacity 1 leaves a signal pending. *)
Definition notifyActivity (s : Service) : Service :=
  emit (with_activity s ((λ _, true) <$> activitySubs s)) EvActivity.

Definition RegisterCancel (s : Service) (jobID : string) (cancel : nat) : Service :=
  if str_empty jobID then s else with_cancels s (<[jobID := cancel]> (cancelByJob s)).
Definition unregisterCancel (s : Service) (jobID : string) : Service :=
  if str_empty jobID then s else with_cancels s (delete jobID (cancelByJob s)).

Definition eventChannelCapacity : nat := 64.

Definition Subscribe (s : Service) (jobID : string) (channel : nat) : Service :=
  let subs := match subsByJob s !! jobID with Some m => m | None => ∅ end in
  with_subs s (<[jobID := <[channel := []]> subs]> (subsByJob s)).

Definition unsubscribe (s : Service) (jobID : string) (channel : nat) : Service :=
  match subsByJob s !! jobID with
  | None => s
  | Some subs =>
    let subs := delete channel subs in
    if decide (subs = ∅) then with_subs s (delete jobID (subsByJob s))
    else with_subs s (<[jobID := subs]> (subsByJob s))
  end.

(** The non-blocking send to each subscriber: a full channel drops the event. *)
Definition sendOrDrop (e : JobEvent) (buffered : list JobEvent) : list JobEvent :=
  if (length buffered <? eventChannelCapacity)%nat then buffered ++ [e] else buffered.

Definition publishLive (s : Service) (e : JobEvent) : Service :=
  emit (with_subs s (alter (λ subs, sendOrDrop e <$> subs) (ev_job e) (subsByJob s))) (EvPublished e).

Fixpoint publishCommittedEvents (s : Service) (events : list JobEvent) : Service :=
  match events with
  | [] => s
  | e :: rest => publishCommittedEvents (notifyActivity (publishLive s e)) rest
  end.

Definition observeJobStarted (s : Service) (startedAt : Time) : Service :=
  if hasMetrics s then emit s (EvJobStarted startedAt) else s.
Definition observeJobFinished (s : Service) (startedAt finishedAt : Time) (state : string) : Service :=
  if hasMetrics s then emit s (EvJobFinished startedAt finishedAt state) else s.

(** The mutex of a job's events: FNV-1a on 32 bits, modulo the 64 locks. *)
Definition fnvOffset32 : Z := 2166136261.
Definition fnvPrime32 : Z := 16777619.
Fixpoint fnv1a (hash : Z) (s : string) : Z :=
  match s with
  | EmptyString => hash
  | String c rest => fnv1a ((Z.lxor hash (byte_of c) * fnvPrime32) mod 2 ^ 32) rest
  end.
Definition lockJobEvents (jobID : string) : Z := fnv1a fnvOffset32 jobID mod 64.

(** ** Starting a job *)

Definition newJobEvent (j : Job) (eventType message data : string) (step : option JobEventStep)
    (progress : option JobProgress) (timestamp : Time) : JobEvent :=
  mkEvent (job_id j) 0 eventType (job_state j) message data step progress timestamp.

Section start.
Context `{!MapRange Resource string}.

Definition start (io : IO) (token : string) (now : Time) (requestID : string) (s : Service)
    (stackID action requestedBy : string) (requestedResources : list Resource) (draining : bool)
    (workflow : list JobWorkflowStep) : res jobs_error Job * Service :=
  let job := mkJob ("job_" +:+ token) stackID action "running" requestedBy requestID now (Some now) None
               (match workflow with [] => None | _ => Some (mkWorkflow workflow) end) "" "" in
  let initialEvent := mkEvent (job_id job) 1 "job_started" (job_state job) "Job started." "" None None now in
  match normalizeResources stackID requestedResources with
  | Err e => (Err (ErrResources e), s)
  | Ok resources =>
    match lockMany (locks s) (job_id job) resources draining with
    | Err e => (Err (ErrLocks e), s)
    | Ok l =>
      let s := with_locks s l in
      match CreateJobWithInitialEvent io (store s) job initialEvent with
      | Err e => (Err (ErrFromStore e), with_locks s (unlockAll (locks s) (job_id job)))
      | Ok db =>
        let s := publishLive (with_store s db) initialEvent in
        (Ok job, observeJobStarted (notifyActivity s) now)
      end
    end
  end.

Definition Start io token now requestID s stackID action requestedBy :=
  start io token now requestID s stackID action requestedBy [] false [].
Definition StartWithResources io token now requestID s stackID action requestedBy requested :=
  start io token now requestID s stackID action requestedBy requested false [].
Definition StartWithWorkflow io token now requestID s stackID action requestedBy workflow :=
  start io token now requestID s stackID action requestedBy [] false workflow.
Definition StartWithResourcesAndWorkflow io token now requestID s stackID action requestedBy workflow requested :=
  start io token now requestID s stackID action requestedBy requested false workflow.
Definition StartDraining io token now requestID s action requestedBy barrier :=
  start io token now requestID s "" action requestedBy [barrier] true [].
Definition StartDrainingWithWorkflow io token now requestID s action requestedBy barrier workflow :=
  start io token now requestID s "" action requestedBy [barrier] true workflow.

Definition ReplaceJobResources (s : Service) (jobID : string) (requested : list Resource)
    : res lock_error unit * Service :=
  match ReplaceResources (locks s) jobID requested with
  | Err e => (Err e, s)
  | Ok l => (Ok tt, with_locks s l)
  end.
End start.

(** ** Reading *)

Definition isTerminalJobState (state : string) : bool :=
  str_in state ["succeeded"; "failed"; "cancelled"; "timed_out"].

Definition Get (io : IO) (s : Service) (id : string) : res jobs_error Job :=
  match JobByID io (store s) id with
  | Ok j => Ok j
  | Err ErrNotFound => Err JobErrNotFound
  | Err e => Err (ErrFromStore e)
  end.

Definition ReplayEvents (io : IO) (s : Service) (jobID : string) : res jobs_error (list JobEvent) :=
  match ListJobEvents io (store s) jobID with Ok l => Ok l | Err e => Err (ErrFromStore e) end.

(** ** Finishing a job *)

(** [commitTerminalTransition]; [ioT] and [ioG] are the outcomes of the
    transition and of the read that follows a refused one. *)
Definition commitTerminalTransition (ioT ioG : IO) (now : Time) (s : Service) (j : Job) (events : list JobEvent)
    : res jobs_error Job * Service :=
  match TransitionJobWithEvents ioT (store s) j ["queued"; "running"; "cancel_requested"] events with
  | Err e => (Err (ErrFromStore e), s)
  | Ok (false, _, _) =>
    match Get ioG s (job_id j) with
    | Err e => (Err e, s)
    | Ok current =>
      if isTerminalJobState (job_state current) then
        let s := with_locks s (unlockAll (locks s) (job_id j)) in
        if str_eqb (job_state current) (job_state j) then (Ok current, s)
        else (Err (ErrTransitionConflict current), s)
      else (Err (ErrTransitionConflict current), s)
    end
  | Ok (true, committed, db) =>
    let s := publishCommittedEvents (with_store s db) committed in
    let s := with_locks s (unlockAll (locks s) (job_id j)) in
    let startedAt := match job_started_at j with Some t => t | None => job_requested_at j end in
    let finishedAt := match job_finished_at j with Some t => t | None => now end in
    let s := observeJobFinished s startedAt finishedAt (job_state j) in
    (Ok j, if hasTerminalHook s then emit s (EvTerminal j) else s)
  end.

Definition finished (j : Job) (state : string) (now : Time) (code message : string) : Job :=
  mkJob (job_id j) (job_stack j) (job_action j) state (job_requested_by j) (job_request_id j)
    (job_requested_at j) (job_started_at j) (Some now) (job_workflow j) code message.

Definition FinishSucceeded (ioT ioG : IO) (now : Time) (s : Service) (j : Job) : res jobs_error Job * Service :=
  let j := finished j "succeeded" now (job_error_code j) (job_error_message j) in
  commitTerminalTransition ioT ioG now s j
    [newJobEvent j "job_finished" "Job finished successfully." "" None None now].

Definition finishTerminal (ioT ioG : IO) (now : Time) (s : Service) (j : Job)
    (state errorCode errorMessage finishMessage : string) : res jobs_error Job * Service :=
  let j := finished j state now errorCode errorMessage in
  commitTerminalTransition ioT ioG now s j
    [newJobEvent j "job_error" errorMessage "" None None now;
     newJobEvent j "job_finished" finishMessage "" None None now].

Definition FinishFailed ioT ioG now s j errorCode errorMessage :=
  finishTerminal ioT ioG now s j "failed" errorCode errorMessage "Job finished with errors.".
Definition FinishTimedOut ioT ioG now s j errorCode errorMessage :=
  finishTerminal ioT ioG now s j "timed_out" errorCode errorMessage "Job timed out.".
Definition FinishCancelled ioT ioG now s j errorCode errorMessage :=
  finishTerminal ioT ioG now s j "cancelled" errorCode errorMessage "Job was cancelled.".

(** ** Recovery after a restart *)

Definition selfUpdateReconcileGracePeriod : Duration := 2 * Hour.

Definition shouldSkipReconcile (now : Time) (j : Job) : bool :=
  if negb (str_eqb (job_action j) "self_update_stacklab") then false
  else
    let startedAt := match job_started_at j with Some t => t | None => job_requested_at j end in
    now - startedAt <? selfUpdateReconcileGracePeriod.

Definition set_step_state (state : string) (st : JobWorkflowStep) : JobWorkflowStep :=
  mkStep (step_action st) state (step_target st) (step_services st).

Definition interruptedIndex (steps : list JobWorkflowStep) : option nat :=
  match find_index_from (λ st, str_eqb (step_state st) "running") 0 steps with
  | Some i => Some i
  | None => find_index_from (λ st, str_eqb (step_state st) "queued" || str_eqb (step_state st) "cancel_requested") 0 steps
  end.

Definition interruptedWorkflow (steps : list JobWorkflowStep)
    : list JobWorkflowStep * option JobEventStep :=
  match interruptedIndex steps with
  | None => (steps, None)
  | Some index =>
    let cloned := alter (set_step_state "failed") index steps in
    (cloned,
     match cloned !! index with
     | Some st => Some (mkEventStep (Z.of_nat index + 1) (Z.of_nat (length cloned)) (step_action st)
                          (step_state st) (step_target st) [])
     | None => None
     end)
  end.

Definition reconcileInterruptedJob (ioT ioG : IO) (now : Time) (s : Service) (j : Job)
    : res jobs_error Job * Service :=
  let '(workflow, stepRef) :=
    match job_workflow j with
    | None => (None, None)
    | Some w => let '(steps, ref) := interruptedWorkflow (Steps w) in (Some (mkWorkflow steps), ref)
    end in
  let j := mkJob (job_id j) (job_stack j) (job_action j) "failed" (job_requested_by j) (job_request_id j)
             (job_requested_at j) (job_started_at j) (Some now) workflow "job_interrupted"
             "Job did not finish before Stacklab restarted." in
  let stepEvents :=
    match stepRef with
    | Some _ => [newJobEvent j "job_step_finished" "Step did not finish before Stacklab restarted." "" stepRef None now]
    | None => []
    end in
  commitTerminalTransition ioT ioG now s j
    (stepEvents ++
     [newJobEvent j "job_error" "Job did not finish before Stacklab restarted." "" stepRef None now;
      newJobEvent j "job_finished" "Job marked failed after Stacklab restarted." "" None None now]).

(** [io] and [clock] give, for each job, the outcomes of its store calls and its
    two clock readings. *)
Fixpoint reconcileEach (io : string → IO * IO) (clock : string → Time * Time) (s : Service) (todo : list Job)
    : res jobs_error (list Job) * Service :=
  match todo with
  | [] => (Ok [], s)
  | j :: rest =>
    if shouldSkipReconcile (clock (job_id j)).1 j then reconcileEach io clock s rest
    else
      match reconcileInterruptedJob (io (job_id j)).1 (io (job_id j)).2 (clock (job_id j)).2 s j with
      | (Err e, s) => (Err e, s)
      | (Ok failedJob, s) =>
        match reconcileEach io clock s rest with
        | (Err e, s) => (Err e, s)
        | (Ok reconciled, s) => (Ok (failedJob :: reconciled), s)
        end
      end
  end.

Definition ReconcileInterrupted (ioL : IO) (io : string → IO * IO) (clock : string → Time * Time) (s : Service)
    : res jobs_error (list Job) * Service :=
  match ListActiveJobs ioL (store s) with
  | Err e => (Err (ErrFromStore e), s)
  | Ok storedJobs => reconcileEach io clock s storedJobs
  end.

(** ** Progress of a running job *)

Definition UpdateWorkflow (io : IO) (s : Service) (j : Job) (steps : list JobWorkflowStep)
    : res jobs_error Job * Service :=
  let w := Some (mkWorkflow steps) in
  match UpdateJobWorkflow io (store s) (job_id j) w with
  | Err e => (Err (ErrFromStore e), s)
  | Ok db =>
    (Ok (mkJob (job_id j) (job_stack j) (job_action j) (job_state j) (job_requested_by j) (job_request_id j)
           (job_requested_at j) (job_started_at j) (job_finished_at j) w (job_error_code j) (job_error_message j)),
     with_store s db)
  end.

Definition PublishEventWithProgress (io : IO) (now : Time) (s : Service) (j : Job)
    (eventType message data : string) (step : option JobEventStep) (progress : option JobProgress)
    : res jobs_error unit * Service :=
  match AppendJobEvent io (store s)
          (mkEvent (job_id j) 0 eventType (job_state j) message data step progress now) with
  | Err e => (Err (ErrFromStore e), s)
  | Ok (event, db) => (Ok tt, notifyActivity (publishLive (with_store s db) event))
  end.

Definition PublishEvent (io : IO) (now : Time) (s : Service) (j : Job) (eventType message data : string)
    (step : option JobEventStep) : res jobs_error unit * Service :=
  PublishEventWithProgress io now s j eventType message data step None.

(** ** Cancellation *)

(** The first running or queued step. *)
Definition markWorkflowCancelRequested (steps : list JobWorkflowStep) : list JobWorkflowStep :=
  match find_index_from (λ st, str_eqb (step_state st) "running" || str_eqb (step_state st) "queued") 0 steps with
  | Some i => alter (set_step_state "cancel_requested") i steps
  | None => steps
  end.

(** [Cancel].  [others1] to [others3] are what the other goroutines do between
    the read of the job, the lookup of its cancel function, the transition and
    the second read; [io1], [io2], [io3] are the outcomes of the store calls. *)
Definition Cancel (io1 io2 io3 : IO) (now : Time) (others1 others2 others3 : Service → Service)
    (s : Service) (id : string)
    : res jobs_error Job * Service :=
  match Get io1 s id with
  | Err e => (Err e, s)
  | Ok j =>
    if str_eqb (job_state j) "cancel_requested" then (Ok j, s)
    else if negb (str_in (job_state j) ["queued"; "running"]) then (Err ErrNotCancellable, s)
    else
      let s := others1 s in
      match cancelByJob s !! id with
      | None => (Err ErrNotCancellable, s)
      | Some cancel =>
        let s := others2 s in
        let j := mkJob (job_id j) (job_stack j) (job_action j) "cancel_requested" (job_requested_by j)
                   (job_request_id j) (job_requested_at j) (job_started_at j) (job_finished_at j)
                   ((λ w, mkWorkflow (markWorkflowCancelRequested (Steps w))) <$> job_workflow j)
                   (job_error_code j) (job_error_message j) in
        match TransitionJobWithEvents io2 (store s) j ["queued"; "running"]
                [newJobEvent j "job_cancel_requested" "Cancellation requested." "" None None now] with
        | Err e => (Err (ErrFromStore e), s)
        | Ok (false, _, _) =>
          let s := others3 s in
          match Get io3 s id with
          | Err e => (Err e, s)
          | Ok current =>
            if str_eqb (job_state current) "cancel_requested" then (Ok current, s)
            else (Err ErrNotCancellable, s)
          end
        | Ok (true, committed, db) =>
          let s := publishCommittedEvents (with_store s db) committed in
          (Ok j, emit s (EvCancelCalled cancel))
        end
      end
  end.

(** ** The read models *)

Record ActiveJobStep := mkActiveStep {
  st_index : Z; st_total : Z; st_action : string; st_state : string; st_target : string;
  st_services : list string }.
Record ActiveJobEvent := mkActiveEvent {
  av_event : string; av_message : string; av_data : string; av_timestamp : Time; av_step : option ActiveJobStep }.
Record ActiveWorkflowStep := mkActiveWorkflowStep { aw_action : string; aw_state : string; aw_target : string }.
Record ActiveJobItem := mkActiveItem {
  it_id : string; it_stack : option string; it_action : string; it_state : string; it_request_id : string;
  it_requested_at : Time; it_started_at : option Time; it_workflow : option (list ActiveWorkflowStep);
  it_current_step : option ActiveJobStep; it_latest_event : option ActiveJobEvent }.
Record ActiveJobCounts := mkCounts {
  ActiveCount : Z; RunningCount : Z; QueuedCount : Z; CancelRequestedCount : Z }.
Record JobEventRecord := mkEventRecord {
  jr_job : string; jr_sequence : Z; jr_event : string; jr_state : string; jr_message : string;
  jr_data : string; jr_step : option ActiveJobStep; jr_progress : option JobProgress; jr_timestamp : Time }.
Record EventsResponse := mkEvents {
  er_job : string; er_retained : bool; er_message : string; er_items : list JobEventRecord }.

Definition active_step (st : JobEventStep) : ActiveJobStep :=
  mkActiveStep (es_index st) (es_total st) (es_action st) (es_state st) (es_target st) (es_services st).

Definition Events (ioG ioE : IO) (s : Service) (id : string) : res jobs_error EventsResponse :=
  let? j := Get ioG s id in
  match ListJobEvents ioE (store s) id with
  | Err e => Err (ErrFromStore e)
  | Ok storedEvents =>
    let retained := negb (bool_decide (length storedEvents = 0%nat)) in
    Ok (mkEvents (job_id j) retained
          (if retained then "" else "Detailed output for this job is no longer retained.")
          ((λ e, mkEventRecord (ev_job e) (ev_sequence e) (ev_event e) (ev_state e) (ev_message e) (ev_data e)
                   (active_step <$> ev_step e) (ev_progress e) (ev_timestamp e)) <$> storedEvents))
  end.

Definition activeItem (j : Job) (latest : option JobEvent) : ActiveJobItem :=
  let step := match latest with Some e => active_step <$> ev_step e | None => None end in
  mkActiveItem (job_id j) (if str_empty (job_stack j) then None else Some (job_stack j)) (job_action j)
    (job_state j) (job_request_id j) (job_requested_at j) (job_started_at j)
    ((λ w, (λ st, mkActiveWorkflowStep (step_action st) (step_state st) (step_target st)) <$> Steps w)
       <$> job_workflow j)
    step
    ((λ e, mkActiveEvent (ev_event e) (ev_message e) (ev_data e) (ev_timestamp e) (active_step <$> ev_step e))
       <$> latest).

Definition countState (state : string) (c : ActiveJobCounts) : ActiveJobCounts :=
  if str_eqb state "running" then mkCounts (ActiveCount c) (RunningCount c + 1) (QueuedCount c) (CancelRequestedCount c)
  else if str_eqb state "queued" then mkCounts (ActiveCount c) (RunningCount c) (QueuedCount c + 1) (CancelRequestedCount c)
  else if str_eqb state "cancel_requested" then
    mkCounts (ActiveCount c) (RunningCount c) (QueuedCount c) (CancelRequestedCount c + 1)
  else c.

(** The loop of [ListActive]; [io] gives the outcome of each latest-event read. *)
Fixpoint listActiveItems (io : string → IO) (db : DB) (todo : list Job) (items : list ActiveJobItem)
    (counts : ActiveJobCounts) : res store_error (list ActiveJobItem * ActiveJobCounts) :=
  match todo with
  | [] => Ok (items, counts)
  | j :: rest =>
    let? latest := LatestJobEvent (io (job_id j)) db (job_id j) in
    listActiveItems io db rest (items ++ [activeItem j latest]) (countState (job_state j) counts)
  end.

Definition ListActive (ioL : IO) (io : string → IO) (s : Service)
    : res jobs_error (list ActiveJobItem * ActiveJobCounts) :=
  match (let? storedJobs := ListActiveJobs ioL (store s) in
         listActiveItems io (store s) storedJobs [] (mkCounts 0 0 0 0)) with
  | Err e => Err (ErrFromStore e)
  | Ok (items, c) =>
    Ok (items, mkCounts (Z.of_nat (length items)) (RunningCount c) (QueuedCount c) (CancelRequestedCount c))
  end.

(** ** Lemmas *)

Lemma publishCommitted_frame s events :
  store (publishCommittedEvents s events) = store s ∧
  locks (publishCommittedEvents s events) = locks s ∧
  cancelByJob (publishCommittedEvents s events) = cancelByJob s ∧
  hasTerminalHook (publishCommittedEvents s events) = hasTerminalHook s ∧
  hasMetrics (publishCommittedEvents s events) = hasMetrics s.
Proof. revert s. induction events as [|e events IH]; intros s; [done|]. cbn.
  by destruct (IH (notifyActivity (publishLive s e))) as (-> & -> & -> & -> & ->). Qed.

Lemma publishCommitted_trace s events :
  trace (publishCommittedEvents s events) = trace s ++ concat ((λ e, [EvPublished e; EvActivity]) <$> events).
Proof.
  revert s. induction events as [|e events IH]; intros s; cbn; [by rewrite app_nil_r|].
  rewrite IH. cbn. by rewrite <- !app_assoc.
Qed.

Lemma observe_frame s a b st :
  store (observeJobFinished s a b st) = store s ∧ locks (observeJobFinished s a b st) = locks s ∧
  hasTerminalHook (observeJobFinished s a b st) = hasTerminalHook s.
Proof. unfold observeJobFinished. by destruct (hasMetrics s). Qed.

Lemma activeStates_not_terminal st : st ∈ activeStates → isTerminalJobState st = false.
Proof. intros H. repeat (apply elem_of_cons in H as [->|H]; [done|]). by apply not_elem_of_nil in H. Qed.

Lemma terminal_not_active st : isTerminalJobState st = true → st ∉ activeStates.
Proof. intros Ht Ha. by rewrite (activeStates_not_terminal _ Ha) in Ht. Qed.

(** What [commitTerminalTransition] can do to the store and the locks. *)
Lemma commitTerminal_cases ioT ioG now s j events r s' :
  commitTerminalTransition ioT ioG now s j events = (r, s') →
  (* nothing happened *)
  (s' = s ∧ ∃ e, r = Err e) ∨
  (* the job was already terminal: its locks are released *)
  (store s' = store s ∧ locks s' = unlockAll (locks s) (job_id j) ∧
   ∃ current, Get ioG s (job_id j) = Ok current ∧ isTerminalJobState (job_state current) = true ∧
     ((r = Ok current ∧ job_state current = job_state j) ∨
      (r = Err (ErrTransitionConflict current) ∧ job_state current ≠ job_state j))) ∨
  (* the transition committed and the locks are released *)
  (r = Ok j ∧ locks s' = unlockAll (locks s) (job_id j) ∧
   ∃ committed, TransitionJobWithEvents ioT (store s) j activeStates events = Ok (true, committed, store s')).
Proof.
  unfold commitTerminalTransition.
  change ["queued"; "running"; "cancel_requested"] with activeStates.
  destruct (TransitionJobWithEvents ioT (store s) j activeStates events) as [[[[] committed] db]|e]; cycle 2.
  { intros [= <- <-]. left. eauto. }
  - intros [= <- <-]. right. right. split; [done|].
    destruct (publishCommitted_frame (with_store s db) committed) as (Hs & Hl & _ & _ & _).
    case_match; cbn; rewrite ?(proj1 (observe_frame _ _ _ _)), ?(proj1 (proj2 (observe_frame _ _ _ _))); cbn;
      rewrite Hs, Hl; cbn; eauto.
  - destruct (Get ioG s (job_id j)) as [current|e] eqn:Hg; [|intros [= <- <-]; left; eauto].
    destruct (isTerminalJobState (job_state current)) eqn:Ht; [|intros [= <- <-]; left; eauto].
    destruct (str_eqb (job_state current) (job_state j)) eqn:Hst; intros [= <- <-]; boolify; right; left;
      (split; [done|split; [done|exists current; auto]]).
Qed.

Lemma fnv1a_range h s : 0 <= h < 2 ^ 32 → 0 <= fnv1a h s < 2 ^ 32.
Proof.
  revert h. induction s as [|c s IH]; intros h Hh; [done|]. cbn [fnv1a]. apply IH.
  apply Z.mod_pos_bound. lia.
Qed.

(** ** Starting *)

Section start_facts.
Context `{!MapRange Resource string}.

Lemma job_id_nonempty token : "job_" +:+ token ≠ "".
Proof. done. Qed.

Lemma start_lock_inv io token now requestID s stackID action by_ requested draining wf r s' :
  lock_inv (locks s) → resourcesByJob (locks s) !! ("job_" +:+ token) = None →
  start io token now requestID s stackID action by_ requested draining wf = (r, s') → lock_inv (locks s').
Proof.
  intros I Hn. unfold start. cbn.
  destruct (normalizeResources stackID requested) as [rs|] eqn:Hr; [|by intros [= _ <-]].
  destruct (lockMany (locks s) _ rs draining) as [l|] eqn:Hl; [|by intros [= _ <-]].
  apply lockMany_inv in Hl; eauto with stacklab.
  destruct (CreateJobWithInitialEvent _ _ _ _); intros [= _ <-]; cbn; [|by apply unlockAll_inv].
  unfold observeJobStarted. by case_match.
Qed.

(** a job that fails to start leaves nothing behind: the lock table and the
    database are exactly what they were, whichever step failed (invalid or
    missing resources, a conflicting lock, or the store after the locks were
    taken). *)
Theorem start_failure_restores io token now requestID s stackID action by_ requested draining wf e s' :
  lock_inv (locks s) → resourcesByJob (locks s) !! ("job_" +:+ token) = None →
  start io token now requestID s stackID action by_ requested draining wf = (Err e, s') →
  locks s' = locks s ∧ store s' = store s ∧ trace s' = trace s.
Proof.
  intros I Hn. unfold start. cbn.
  destruct (normalizeResources stackID requested) as [rs|] eqn:Hr; [|by intros [= _ <-]].
  destruct (lockMany (locks s) _ rs draining) as [l|] eqn:Hl; [|by intros [= _ <-]].
  destruct (CreateJobWithInitialEvent _ _ _ _); [done|]. intros [= _ <-]. cbn. split; [|done].
  eapply lockMany_unlockAll; eauto with stacklab.
Qed.

(** a started job is persisted as running with event number 1, holds its
    normalized resources, and its start was published before it was counted. *)
Theorem start_success io token now requestID s stackID action by_ requested draining wf j s' :
  start io token now requestID s stackID action by_ requested draining wf = (Ok j, s') →
  job_id j = "job_" +:+ token ∧
  (∃ rs, normalizeResources stackID requested = Ok rs ∧
     resourcesByJob (locks s') = <[job_id j := rs]> (resourcesByJob (locks s)) ∧
     ∀ r, r ∈ rs → lockedByResource (locks s') !! r = Some (job_id j)) ∧
  jobs (store s) !! job_id j = None ∧
  jobs (store s') = <[job_id j := created_row j 1]> (jobs (store s)) ∧ job_state j = "running" ∧
  (∃ e, job_events (store s') = <[(job_id j, 1) := event_row e]> (job_events (store s)) ∧
     trace s' = trace s ++ EvPublished e :: EvActivity :: (if hasMetrics s then [EvJobStarted now] else [])).
Proof.
  unfold start. cbn. destruct (normalizeResources stackID requested) as [rs|] eqn:Hr; [|done].
  destruct (lockMany (locks s) _ rs draining) as [l|] eqn:Hl; [|done].
  destruct (CreateJobWithInitialEvent _ _ _ _) as [db|] eqn:Hc; [|done].
  apply CreateInitial_Ok in Hc as (Hn & _ & _ & Hj & He). apply lockMany_Ok in Hl as (_ & _ & _ & Hl).
  intros [= <- <-]. cbn in *. unfold observeJobStarted. cbn. subst l.
  split; [done|]. split.
  { exists rs. split; [done|]. destruct (hasMetrics s); cbn;
      (split; [done|]; intros r Hin; rewrite lockEach_lookup; by rewrite decide_True). }
  split; [done|]. split; [by destruct (hasMetrics s)|]. split; [done|]. eexists.
  split; [destruct (hasMetrics s); cbn; exact He|].
  destruct (hasMetrics s); cbn; by rewrite <- !app_assoc.
Qed.
End start_facts.

(** ** Finishing *)

Lemma Get_state ioG s id j r :
  Get ioG s id = Ok j → jobs (store s) !! id = Some r → job_id j = id ∧ job_state j = r_state r.
Proof.
  unfold Get, JobByID. intros H Hr. rewrite Hr in H. destruct ioG; cbn in H; [done|].
  destruct (scanJob id r) as [j'|[]] eqn:E; try done. simplify_eq. unfold scanJob in E.
  res_inv E. by simplify_eq.
Qed.

Lemma Get_row ioG s id j : Get ioG s id = Ok j → ∃ r, jobs (store s) !! id = Some r.
Proof.
  unfold Get, JobByID. destruct ioG; cbn; [done|]. destruct (jobs (store s) !! id); [eauto|done].
Qed.

(** The stored state of a job, if it exists. *)
Definition stored_state (s : Service) (id : string) : option string := r_state <$> jobs (store s) !! id.

(** finishing a job always releases its locks when it reports success, and
    then the stored state is the requested terminal state. *)
Theorem finish_releases_locks ioT ioG now s j events j' s' :
  commitTerminalTransition ioT ioG now s j events = (Ok j', s') →
  resourcesByJob (locks s') !! job_id j = None ∧
  drainingJobID (locks s') = (if str_eqb (drainingJobID (locks s)) (job_id j) then "" else drainingJobID (locks s)) ∧
  stored_state s' (job_id j) = Some (job_state j).
Proof.
  intros [(_ & e & ?)|[(Hs & Hl & current & Hg & Ht & Hr)|(Hr & Hl & committed & Htr)]]%commitTerminal_cases;
    [done| |].
  - rewrite Hl, unlockAll_byJob, unlockAll_drain, lookup_delete_eq. split; [done|]. split; [done|].
    destruct Hr as [[_ Hst]|[? _]]; [|done]. destruct (Get_row _ _ _ _ Hg) as [row Hrow].
    destruct (Get_state _ _ _ _ _ Hg Hrow) as [_ Hst']. unfold stored_state.
    rewrite Hs, Hrow. cbn. congruence.
  - rewrite Hl, unlockAll_byJob, unlockAll_drain, lookup_delete_eq. split; [done|]. split; [done|].
    apply Transition_Ok in Htr as [_ [(? & _)|(_ & row & _ & _ & _ & Hj & _)]]; [done|].
    unfold stored_state. by rewrite Hj, lookup_insert_eq.
Qed.

Lemma Transition_terminal io db j events committed row db' :
  jobs db !! job_id j = Some row → isTerminalJobState (r_state row) = true →
  TransitionJobWithEvents io db j activeStates events ≠ Ok (true, committed, db').
Proof.
  intros Hrow Hterm [_ [(? & _)|(_ & row' & ? & Hin & _)]]%Transition_Ok; [done|].
  simplify_eq. by apply terminal_not_active in Hterm.
Qed.

(** the first terminal transition wins: once a job is stored in a terminal
    state, finishing it with another state reports a transition conflict (or a
    store failure), and neither the database nor the trace changes; finishing it
    with the same state returns the stored job. *)
Theorem finish_first_wins ioT ioG now s j events row r s' :
  jobs (store s) !! job_id j = Some row → isTerminalJobState (r_state row) = true →
  commitTerminalTransition ioT ioG now s j events = (r, s') →
  store s' = store s ∧ trace s' = trace s ∧
  (∀ j', r = Ok j' → r_state row = job_state j ∧ Get ioG s (job_id j) = Ok j').
Proof.
  intros Hrow Hterm H. pose proof H as Hc. apply commitTerminal_cases in Hc.
  destruct Hc as [(-> & e & ->)|[(Hs & _ & current & Hg & Ht & Hr)|(_ & _ & committed & Htr)]].
  - by split_and!.
  - split; [done|]. split.
    + revert H. unfold commitTerminalTransition.
      change ["queued"; "running"; "cancel_requested"] with activeStates.
      destruct (TransitionJobWithEvents _ _ _ _ _) as [[[[] committed] db]|] eqn:E; [|intros H..].
      * by apply (Transition_terminal _ _ _ _ _ row) in E.
      * by repeat case_match; simplify_eq.
      * by simplify_eq.
    + intros j' ->. destruct Hr as [[Heq Hst]|[? _]]; [|done]. injection Heq as <-.
      destruct (Get_state _ _ _ _ _ Hg Hrow) as [_ Hst']. split; [congruence|done].
  - by apply (Transition_terminal _ _ _ _ _ row) in Htr.
Qed.

(** ** Recovery *)

Lemma scan_all_elem {A B} (scan : A → res store_error B) l bs :
  scan_all scan l = Ok bs → (∀ x, x ∈ l → ∃ b, scan x = Ok b ∧ b ∈ bs) ∧ length bs = length l.
Proof.
  revert bs. induction l as [|x l IH]; intros bs H; cbn in H.
  { simplify_eq. split; [|done]. by intros x ?%elem_of_nil. }
  res_inv H. simplify_eq. destruct (IH _ eq_refl) as [IH1 IH2]. split; [|cbn; lia].
  intros y [->|Hy]%elem_of_cons.
  - eexists. split; [done|]. by left.
  - destruct (IH1 y Hy) as (b & ? & ?). exists b. split; [done|]. by right.
Qed.

Lemma scan_all_total {A B} (scan : A → res store_error B) l :
  (∀ x, x ∈ l → is_ok (scan x) = true) → ∃ bs, scan_all scan l = Ok bs.
Proof.
  induction l as [|x l IH]; intros H; cbn; [eauto|].
  pose proof (H x ltac:(left)) as Hx. destruct (scan x); [|done]. cbn.
  destruct IH as [bs ->]; [|eauto]. intros y Hy. apply H. by right.
Qed.

Lemma ListActive_complete io db js id r :
  ListActiveJobs io db = Ok js → jobs db !! id = Some r → r_state r ∈ activeStates →
  ∃ j, scanJob id r = Ok j ∧ j ∈ js.
Proof.
  unfold ListActiveJobs. intros [-> [H _]%scan_all_elem]%driver_Ok Hr Ha. apply (H (id, r)).
  rewrite merge_sort_Permutation. apply elem_of_map_to_list, map_lookup_filter_Some.
  split; [done|]. unfold active_row, str_in. cbn. by apply bool_decide_eq_true.
Qed.

Lemma scanJob_id id r j : scanJob id r = Ok j → job_id j = id ∧ job_state j = r_state r.
Proof. unfold scanJob. intros H. res_inv H. by simplify_eq. Qed.

(** The job [reconcileInterruptedJob] writes. *)
Definition interruptedJob (now : Time) (j : Job) : Job :=
  mkJob (job_id j) (job_stack j) (job_action j) "failed" (job_requested_by j) (job_request_id j)
    (job_requested_at j) (job_started_at j) (Some now)
    ((λ w, mkWorkflow (interruptedWorkflow (Steps w)).1) <$> job_workflow j) "job_interrupted"
    "Job did not finish before Stacklab restarted.".

(** A successful reconciliation of one job leaves no active row under its id and
    touches no other row. *)
Lemma reconcileOne_effect ioT ioG now s j j' s' :
  reconcileInterruptedJob ioT ioG now s j = (Ok j', s') →
  (∀ r, jobs (store s') !! job_id j = Some r → isTerminalJobState (r_state r) = true) ∧
  (∀ id, id ≠ job_id j → jobs (store s') !! id = jobs (store s) !! id).
Proof.
  unfold reconcileInterruptedJob. destruct (match job_workflow j with Some _ => _ | None => _ end) as [wf ref].
  set (failedJob := mkJob _ _ _ _ _ _ _ _ _ _ _ _).
  intros [(_ & e & ?)|[(Hs & _ & current & Hg & Ht & _)|(_ & _ & committed & Htr)]]%commitTerminal_cases; [done| |].
  - rewrite Hs. split; [|done]. intros r Hr. by destruct (Get_state _ _ _ _ _ Hg Hr) as [_ <-].
  - apply Transition_Ok in Htr as [_ [(? & _)|(_ & row & _ & _ & _ & Hj & _)]]; [done|].
    rewrite Hj. change (job_id failedJob) with (job_id j). split.
    + intros r. rewrite lookup_insert_eq. by intros [= <-].
    + intros id Hid. by apply lookup_insert_ne.
Qed.

(** Every active row is a job to skip or one still to do. *)
Definition pendingReconcile (clock : string → Time * Time) (s : Service) (todo : list Job) : Prop :=
  ∀ id r, jobs (store s) !! id = Some r → r_state r ∈ activeStates →
    ∃ j, scanJob id r = Ok j ∧ (shouldSkipReconcile (clock id).1 j = true ∨ j ∈ todo).

Lemma reconcileEach_pending io clock todo s js s' :
  pendingReconcile clock s todo → reconcileEach io clock s todo = (Ok js, s') → pendingReconcile clock s' [].
Proof.
  revert s js. induction todo as [|j todo IH]; intros s js Hp H; cbn in H; [by simplify_eq|].
  destruct (shouldSkipReconcile _ j) eqn:Hsk.
  { eapply IH; [|done]. intros id r Hr Ha. destruct (Hp id r Hr Ha) as (j0 & Hj0 & [Hs|Hin]); [eauto|].
    apply elem_of_cons in Hin as [->|Hin]; [|eauto]. exists j. split; [done|]. left.
    by apply scanJob_id in Hj0 as [<- _]. }
  destruct (reconcileInterruptedJob _ _ _ _ _) as [[j'|] s1] eqn:E; [|done].
  destruct (reconcileEach io clock s1 todo) as [[js'|] s2] eqn:E2; [|done]. injection H as <- <-.
  eapply IH; [|done]. apply reconcileOne_effect in E as [Hdone Hother].
  intros id r Hr Ha. destruct (decide (id = job_id j)) as [->|Hid].
  { apply Hdone in Hr. by rewrite (activeStates_not_terminal _ Ha) in Hr. }
  rewrite Hother in Hr by done. destruct (Hp id r Hr Ha) as (j0 & Hj0 & [Hs|Hin]); [eauto|].
  apply elem_of_cons in Hin as [->|Hin]; [|eauto]. by apply scanJob_id in Hj0 as [? _].
Qed.

(** after [ReconcileInterrupted] returns without error no job is active in
    the database except the self-updates younger than the grace period. *)
Theorem ReconcileInterrupted_complete ioL io clock s js s' id r :
  ReconcileInterrupted ioL io clock s = (Ok js, s') →
  jobs (store s') !! id = Some r → r_state r ∈ activeStates →
  r_action r = "self_update_stacklab" ∧
  ∃ j, scanJob id r = Ok j ∧
    (clock id).1 - (match job_started_at j with Some t => t | None => job_requested_at j end) < selfUpdateReconcileGracePeriod.
Proof.
  unfold ReconcileInterrupted. destruct (ListActiveJobs ioL (store s)) as [todo|] eqn:El; [|done].
  intros H Hr Ha. apply reconcileEach_pending in H.
  - destruct (H id r Hr Ha) as (j & Hj & [Hs|?%elem_of_nil]); [|done].
    unfold shouldSkipReconcile in Hs.
    assert (job_action j = r_action r) as Hact.
    { unfold scanJob in Hj. clear -Hj. res_inv Hj. by simplify_eq. }
    destruct (str_eqb (job_action j) "self_update_stacklab") eqn:Ea; cbn in Hs; [|done]. boolify.
    split; [congruence|]. exists j. split; [done|]. by apply Z.ltb_lt.
  - intros id0 r0 Hr0 Ha0. destruct (ListActive_complete _ _ _ _ _ El Hr0 Ha0) as (j & ? & ?). eauto.
Qed.

(** an interrupted workflow keeps every step except one: the first running
    step, or without one the first queued or cancel-requested step, becomes
    failed, and the event refers to exactly that step (counted from 1). *)
Theorem interruptedWorkflow_spec steps :
  match interruptedWorkflow steps with
  | (steps', None) => steps' = steps ∧ ∀ st, st ∈ steps → step_state st ∉ activeStates
  | (steps', Some ref) =>
    ∃ i st, steps !! i = Some st ∧ steps' = <[i := set_step_state "failed" st]> steps ∧
      es_index ref = Z.of_nat i + 1 ∧ es_total ref = Z.of_nat (length steps) ∧
      es_state ref = "failed" ∧ es_action ref = step_action st ∧ step_state st ∈ activeStates ∧
      (∀ k st', (k < i)%nat → steps !! k = Some st' → step_state st' ≠ "running") ∧
      (step_state st ≠ "running" → ∀ st', st' ∈ steps → step_state st' ≠ "running")
  end.
Proof.
  unfold interruptedWorkflow, interruptedIndex.
  destruct (find_index_from (λ st, str_eqb (step_state st) "running") 0 steps) as [i|] eqn:E1.
  { apply find_index_first in E1 as (st & Hst & Hrun & Hmin). cbn beta iota zeta. rewrite (list_alter_insert _ _ _ _ Hst), list_lookup_insert_eq by (by eapply lookup_lt_Some); cbn. boolify.
    exists i, st. rewrite length_insert.
    split_and!; try done.
    - rewrite Hrun. set_solver.
    - intros k st' Hk Hl. by apply Hmin in Hl; [boolify|]. }
  assert (∀ st', st' ∈ steps → step_state st' ≠ "running") as Hno.
  { intros st' Hin. apply (find_index_from_None _ _ _ _ E1) in Hin. by boolify. }
  destruct (find_index_from (λ st, str_eqb (step_state st) "queued" || str_eqb (step_state st) "cancel_requested")
    0 steps) as [i|] eqn:E2.
  - apply find_index_first in E2 as (st & Hst & Hp & _). cbn beta iota zeta. rewrite (list_alter_insert _ _ _ _ Hst), list_lookup_insert_eq by (by eapply lookup_lt_Some); cbn.
    exists i, st. rewrite length_insert. split_and!; try done.
    + apply orb_true_iff in Hp as [Hp|Hp]; boolify; rewrite Hp; set_solver.
    + intros k st' _ Hl. apply Hno. by eapply list_elem_of_lookup_2.
  - split; [done|]. intros st Hin. pose proof (find_index_from_None _ _ _ _ E2 Hin) as Hp.
    apply orb_false_iff in Hp as [Hq Hc]. specialize (Hno st Hin). boolify. set_solver.
Qed.

(** ** Cancellation *)

(** [Cancel] calls the registered cancel function only after the request is
    durable and announced: then the job was queued or running at that moment,
    its row is cancel-requested, and the published event precedes the call.  In
    every other case it changes nothing itself, and a success without a call
    means that the cancellation had been requested before. *)
Theorem Cancel_spec io1 io2 io3 now o1 o2 o3 s id r s' :
  Cancel io1 io2 io3 now o1 o2 o3 s id = (r, s') →
  (s' ∈ [s; o1 s; o2 (o1 s); o3 (o2 (o1 s))] ∧ (∀ j, r = Ok j → job_state j = "cancel_requested")) ∨
  (∃ j cancel row e, r = Ok j ∧ job_id j = id ∧ job_state j = "cancel_requested" ∧
     cancelByJob (o1 s) !! id = Some cancel ∧
     jobs (store (o2 (o1 s))) !! id = Some row ∧ r_state row ∈ ["queued"; "running"] ∧
     jobs (store s') = <[id := update_row j (r_event_sequence row + 1) row]> (jobs (store (o2 (o1 s)))) ∧
     job_events (store s') = <[(id, r_event_sequence row + 1) := event_row e]> (job_events (store (o2 (o1 s)))) ∧
     trace s' = trace (o2 (o1 s)) ++ [EvPublished e; EvActivity; EvCancelCalled cancel]).
Proof.
  unfold Cancel. destruct (Get io1 s id) as [j|e] eqn:Hg.
  2:{ intros [= <- <-]. left. split; [set_solver|done]. }
  destruct (Get_row _ _ _ _ Hg) as [row0 Hrow0]. destruct (Get_state _ _ _ _ _ Hg Hrow0) as [Hid _].
  destruct (str_eqb (job_state j) "cancel_requested") eqn:Hc.
  { intros [= <- <-]. boolify. left. split; [set_solver|]. by intros j' [= <-]. }
  destruct (str_in _ _) eqn:Hin; cbn [negb]; [|intros [= <- <-]; left; split; [set_solver|done]].
  destruct (cancelByJob (o1 s) !! id) as [cancel|] eqn:Hcan;
    [|intros [= <- <-]; left; split; [set_solver|done]].
  destruct (TransitionJobWithEvents _ _ _ _ _) as [[[[] committed] db]|] eqn:Htr; cycle 2.
  { intros [= <- <-]. left. split; [set_solver|done]. }
  - apply Transition_Ok in Htr as [_ [(? & _)|(_ & row & Hrow & Hst & Hcom & Hj & He & _)]]; [done|].
    cbn in Hrow, Hj, He, Hcom. subst id. intros [= <- <-]. right.
    eexists _, cancel, row, _. rewrite Hcom. cbn. rewrite <- !app_assoc. split_and!; try done.
  - destruct (Get io3 _ id) as [current|] eqn:Hg3; [|intros [= <- <-]; left; split; [set_solver|done]].
    destruct (str_eqb (job_state current) _) eqn:Hcc; intros [= <- <-]; boolify; left;
      (split; [set_solver|]); [by intros j' [= <-]|done].
Qed.

(** ** The list of active jobs *)

Lemma listActiveItems_counts io db todo items c items' c' :
  listActiveItems io db todo items c = Ok (items', c') →
  Forall (λ j, job_state j ∈ activeStates) todo →
  length items' = (length items + length todo)%nat ∧
  RunningCount c' + QueuedCount c' + CancelRequestedCount c'
  = RunningCount c + QueuedCount c + CancelRequestedCount c + Z.of_nat (length todo).
Proof.
  revert items c. induction todo as [|j todo IH]; intros items c H Hact; cbn in H; [simplify_eq; cbn; lia|].
  res_inv H. apply Forall_cons in Hact as [Hj Hact].
  destruct (IH _ _ H Hact) as [Hl Hsum]. rewrite length_app in Hl. cbn in Hl |- *. split; [lia|].
  rewrite Hsum. unfold countState.
  destruct (str_eqb _ "running") eqn:E1; [cbn; lia|]. destruct (str_eqb _ "queued") eqn:E2; [cbn; lia|].
  destruct (str_eqb _ "cancel_requested") eqn:E3; [cbn; lia|]. boolify. set_solver.
Qed.

Lemma scan_all_Forall {A B} (scan : A → res store_error B) (P : B → Prop) l bs :
  (∀ x b, x ∈ l → scan x = Ok b → P b) → scan_all scan l = Ok bs → Forall P bs.
Proof.
  revert bs. induction l as [|x l IH]; intros bs Hp H; cbn in H; [by simplify_eq|].
  res_inv H. simplify_eq. constructor; [by eapply Hp; [left|]|].
  eapply IH; [|done]. intros y b Hy. apply Hp. by right.
Qed.

Lemma ListActiveJobs_active io db js :
  ListActiveJobs io db = Ok js →
  Forall (λ j, job_state j ∈ activeStates) js ∧
  length js = size (filter (λ p : string * JobRow, active_row p.2 = true) (jobs db)).
Proof.
  unfold ListActiveJobs. intros [-> H]%driver_Ok. split.
  - eapply scan_all_Forall; [|done]. intros [id r] b Hin Hb. rewrite merge_sort_Permutation in Hin.
    apply elem_of_map_to_list, map_lookup_filter_Some in Hin as [_ Ha]. apply scanJob_id in Hb as [_ ->].
    unfold active_row in Ha. by boolify.
  - apply scan_all_elem in H as [_ ->]. by rewrite merge_sort_Permutation, length_map_to_list.
Qed.

(** the summary of [ListActive] is consistent: its active count is the
    number of active rows of the database and the sum of the three counters. *)
Theorem ListActive_counts ioL io s items c :
  ListActive ioL io s = Ok (items, c) →
  ActiveCount c = Z.of_nat (size (filter (λ p : string * JobRow, active_row p.2 = true) (jobs (store s)))) ∧
  ActiveCount c = RunningCount c + QueuedCount c + CancelRequestedCount c ∧
  ActiveCount c = Z.of_nat (length items).
Proof.
  unfold ListActive. destruct (ListActiveJobs ioL (store s)) as [js|] eqn:El; [|done]. cbn.
  destruct (listActiveItems _ _ _ _ _) as [[items' c']|] eqn:E; [|done]. intros [= <- <-]. cbn.
  apply ListActiveJobs_active in El as [Hact Hlen].
  destruct (listActiveItems_counts _ _ _ _ _ _ _ E Hact) as [Hl Hs]. cbn in Hl, Hs. lia.
Qed.

(** ** Concrete instances *)

#[local] Existing Instance demoRange.

Definition demoService : Service := NewService emptyDB.
Definition demoStarted : res jobs_error Job * Service :=
  start None "a" demoTime "req" demoService "web" "update_stack" "local" [] false [mkStep "pull" "queued" "web" []].
Definition demoRunning : Service := demoStarted.2.
Definition demoRunningJob : Job := match demoStarted.1 with Ok j => j | Err _ => demoJob end.

Lemma demoStarted_eq : demoStarted = (Ok demoRunningJob, demoRunning).
Proof. by vm_compute. Qed.

Lemma demoRunning_lock_inv : lock_inv (locks demoRunning).
Proof.
  apply (start_lock_inv None "a" demoTime "req" demoService "web" "update_stack" "local" [] false
           [mkStep "pull" "queued" "web" []] (Ok demoRunningJob)); [apply lock_inv_empty|done|apply demoStarted_eq].
Qed.

Lemma start_failure_restores_witness :
  ∃ e s', start None "b" demoTime "req" demoRunning "web" "pull" "local" [] false [] = (Err e, s') ∧
    locks s' = locks demoRunning ∧ store s' = store demoRunning ∧ trace s' = trace demoRunning.
Proof.
  eexists _, _. split; [by vm_compute|].
  eapply (start_failure_restores None "b" demoTime "req" demoRunning "web" "pull" "local" [] false []).
  - apply demoRunning_lock_inv.
  - by vm_compute.
  - by vm_compute.
Defined.

Lemma start_success_witness :
  jobs (store demoRunning) = <["job_a" := created_row demoRunningJob 1]> (jobs emptyDB).
Proof.
  apply (start_success None "a" demoTime "req" demoService "web" "update_stack" "local" [] false
           [mkStep "pull" "queued" "web" []] demoRunningJob demoRunning demoStarted_eq).
Defined.

Definition demoFinish : res jobs_error Job * Service := FinishSucceeded None None demoTime demoRunning demoRunningJob.
Definition demoDone : Service := demoFinish.2.

Lemma finish_releases_locks_witness :
  resourcesByJob (locks demoDone) !! "job_a" = None ∧ stored_state demoDone "job_a" = Some "succeeded".
Proof.
  destruct (finish_releases_locks None None demoTime demoRunning
    (finished demoRunningJob "succeeded" demoTime "" "")
    [newJobEvent (finished demoRunningJob "succeeded" demoTime "" "") "job_finished" "Job finished successfully." ""
       None None demoTime]
    (finished demoRunningJob "succeeded" demoTime "" "") demoDone) as (H1 & _ & H2).
  - by vm_compute.
  - split; [exact H1|exact H2].
Defined.

Lemma finish_first_wins_witness :
  let r := FinishFailed None None demoTime demoDone demoRunningJob "late" "late" in
  store r.2 = store demoDone ∧ trace r.2 = trace demoDone.
Proof.
  destruct (finish_first_wins None None demoTime demoDone (finished demoRunningJob "failed" demoTime "late" "late")
    [newJobEvent (finished demoRunningJob "failed" demoTime "late" "late") "job_error" "late" "" None None demoTime;
     newJobEvent (finished demoRunningJob "failed" demoTime "late" "late") "job_finished" "Job finished with errors."
       "" None None demoTime]
    (update_row (finished demoRunningJob "succeeded" demoTime "" "") 2 (created_row demoRunningJob 1))
    (FinishFailed None None demoTime demoDone demoRunningJob "late" "late").1
    (FinishFailed None None demoTime demoDone demoRunningJob "late" "late").2) as (H1 & H2 & _).
  - by vm_compute.
  - by vm_compute.
  - by vm_compute.
  - split; [exact H1|exact H2].
Defined.

(** A store with an interrupted job and a recent self-update. *)
Definition demoSelfUpdate : Job :=
  mkJob "job_2" "" "self_update_stacklab" "running" "local" "" demoTime (Some demoTime) None None "" "".
Definition demoCrashed : DB :=
  match CreateJobWithInitialEvent None demoDB demoSelfUpdate
          (mkEvent "job_2" 1 "job_started" "running" "" "" None None demoTime) with
  | Ok db => db | Err _ => demoDB end.
Definition demoReconcile : res jobs_error (list Job) * Service :=
  ReconcileInterrupted None (λ _, (None, None)) (λ _, (demoTime + Hour, demoTime + Hour)) (NewService demoCrashed).

Example demoReconcile_failed :
  (λ j, (job_id j, job_state j)) <$> match demoReconcile.1 with Ok l => l | Err _ => [] end = [("job_1", "failed")].
Proof. by vm_compute. Qed.

Lemma ReconcileInterrupted_complete_witness :
  r_action (created_row demoSelfUpdate 1) = "self_update_stacklab" ∧
  ∃ j, scanJob "job_2" (created_row demoSelfUpdate 1) = Ok j ∧
    demoTime + Hour - (match job_started_at j with Some t => t | None => job_requested_at j end)
    < selfUpdateReconcileGracePeriod.
Proof.
  apply (ReconcileInterrupted_complete None (λ _, (None, None)) (λ _, (demoTime + Hour, demoTime + Hour))
    (NewService demoCrashed)
    (match demoReconcile.1 with Ok l => l | Err _ => [] end) demoReconcile.2).
  - by vm_compute.
  - by vm_compute.
  - by vm_compute; right; left.
Defined.

Definition demoCancelled : res jobs_error Job * Service :=
  Cancel None None None demoTime (λ s, s) (λ s, s) (λ s, s) (RegisterCancel demoRunning "job_a" 7) "job_a".

Lemma Cancel_spec_witness :
  last (trace demoCancelled.2) = Some (EvCancelCalled 7) ∧
  (demoCancelled.2 ∈ [RegisterCancel demoRunning "job_a" 7; RegisterCancel demoRunning "job_a" 7;
                      RegisterCancel demoRunning "job_a" 7; RegisterCancel demoRunning "job_a" 7] ∨
   stored_state demoCancelled.2 "job_a" = Some "cancel_requested").
Proof.
  split; [by vm_compute|].
  destruct (Cancel_spec None None None demoTime (λ s, s) (λ s, s) (λ s, s) (RegisterCancel demoRunning "job_a" 7) "job_a"
    demoCancelled.1 demoCancelled.2) as [[H _]|(j & c & row & e & H)].
  - by vm_compute.
  - left. exact H.
  - right. by vm_compute.
Defined.

Lemma ListActive_counts_witness :
  match ListActive None (λ _, None) demoRunning with
  | Ok (items, c) => ActiveCount c = RunningCount c + QueuedCount c + CancelRequestedCount c ∧ ActiveCount c = 1
  | Err _ => False
  end.
Proof.
  destruct (ListActive None (λ _, None) demoRunning) as [[items c]|] eqn:E; [|by vm_compute in E].
  destruct (ListActive_counts None (λ _, None) demoRunning items c E) as (H1 & H2 & _).
  split; [exact H2|]. rewrite H1. by vm_compute.
Defined.
