(* ===== verification/BackupPlans.v ===== *)
(** * internal/backup/service.go: the configuration of plans and destinations

    The fields of [backup.Service] under its mutex, [persist], the test that
    nothing uses the configuration, and the operations that change it.  The text of
    the state ([encoding/json]), SHA-256 and the capture's preview are parameters. *)

From stdpp Require Import gmap strings list sorting.
From Stdlib Require Import Ascii ZArith.
From S2P Require Import Prelude GoStrings GoPath GoTime BackupSchedule BackupEvidence BackupState BackupRetention Store BackupPolicy.
From S2P Require JobsService.

Local Open Scope Z_scope.

(** ** Data *)

(** [backup.Service]; the job service carries the store. *)
Record Backup := mkBackup {
  b_state : state; b_jobs : JobsService.Service; b_policy : policyState; b_init_error : option string; b_recovery_error : string;
  repositoryJobs : gmap string string; repositoryReads : gmap string Z; activeRepositoryReads : Z; restoreDeletes : gset string }.

Definition with_state (b : Backup) (s : state) : Backup :=
  mkBackup s (b_jobs b) (b_policy b) (b_init_error b) (b_recovery_error b) (repositoryJobs b) (repositoryReads b)
    (activeRepositoryReads b) (restoreDeletes b).
Definition with_job_service (b : Backup) (j : JobsService.Service) : Backup :=
  mkBackup (b_state b) j (b_policy b) (b_init_error b) (b_recovery_error b) (repositoryJobs b) (repositoryReads b)
    (activeRepositoryReads b) (restoreDeletes b).
Definition with_holders (b : Backup) (m : gmap string string) : Backup :=
  mkBackup (b_state b) (b_jobs b) (b_policy b) (b_init_error b) (b_recovery_error b) m (repositoryReads b)
    (activeRepositoryReads b) (restoreDeletes b).
Definition with_reads (b : Backup) (m : gmap string Z) (n : Z) : Backup :=
  mkBackup (b_state b) (b_jobs b) (b_policy b) (b_init_error b) (b_recovery_error b) (repositoryJobs b) m n (restoreDeletes b).
Definition with_recovery (b : Backup) (message : string) : Backup :=
  mkBackup (b_state b) (b_jobs b) (b_policy b) (b_init_error b) message (repositoryJobs b) (repositoryReads b)
    (activeRepositoryReads b) (restoreDeletes b).

Definition guard_of (b : Backup) : guard := mkGuard (b_policy b) (b_init_error b) (b_recovery_error b) (JobsService.store (b_jobs b)).

Definition with_plans (s : state) m := mkState (SnapshotClassifications s) (RetentionCursors s) (CopyAttempts s) (MaintenanceAttempts s)
  (VerifiedSnapshots s) (RestoreTests s) (CopyCheckpoints s) (InstanceID s) (Destinations s) m (Runs s).
Definition with_destination_map (s : state) m := mkState (SnapshotClassifications s) (RetentionCursors s) (CopyAttempts s)
  (MaintenanceAttempts s) (VerifiedSnapshots s) (RestoreTests s) (CopyCheckpoints s) (InstanceID s) m (Plans s) (Runs s).

Definition with_schedule (a : Assignment) (s : Schedule) : Assignment :=
  mkAssignment (DestinationID a) (AssignmentEnabled a) s (AssignmentRetention a) (LastScheduledAt a) (ScheduleActivatedAt a).
Definition with_occurrence (a : Assignment) (last activated : option Time) : Assignment :=
  mkAssignment (DestinationID a) (AssignmentEnabled a) (AssignmentSchedule a) (AssignmentRetention a) last activated.
Definition with_source_id (s : Source) (id : string) : Source :=
  mkSource id (src_kind s) (src_stack s) (src_service s) (src_mount s) (src_path s) (src_excludes s).

#[global] Instance schedule_eq_dec : EqDecision Schedule.
Proof. solve_decision. Defined.

(** What one call reads from outside: the clock, the outcome of the settings
    write, and which staging directories could be removed. *)
Record callEnv := mkCall { call_now : Time; call_write : IO; call_removable : string → bool }.

Definition settingKey : string := "backup.v1".

(** ** Operations *)

Section plans.
Context (zoneinfo : string → option Location) (Local : Location) (state_text : state → string) (sha : string → string).
Context `{!MapRange string (Run * Plan), !MapRange string Plan, !MapRange string Destination}.

Definition persistState (env : callEnv) (b : Backup) : option backup_error * Backup :=
  match b_init_error b with
  | Some message => (Some (ErrOther message), b)
  | None =>
    let b := with_state b (pruneMetadataLocked (call_removable env) (call_now env) (b_state b)) in
    match SetAppSetting (call_write env) (JobsService.store (b_jobs b)) settingKey (state_text (b_state b)) (call_now env) with
    | Err _ => (Some (ErrOther "settings store"), b)
    | Ok db => (None, with_job_service b (JobsService.with_store (b_jobs b) db))
    end
  end.

Definition active_run (r : Run) : bool := str_in (run_state r) ["running"; "queued"].

Definition configurationBusyLocked (b : Backup) : bool :=
  negb (bool_decide (repositoryJobs b = ∅)) || (0 <? activeRepositoryReads b) || negb (bool_decide (restoreDeletes b = ∅))
  || existsb (λ e, active_run e.2.1) (range_list (Runs (b_state b))).

Definition configurationBusyError : backup_error :=
  ErrBusy "a backup job, repository read or background inventory is active; wait for it to finish and retry".

(** *** Plans *)

Definition sourceID (kind stack service mount : string) : string :=
  "source_" +:+ sha (join (str1 (chr 0)) [kind; stack; service; mount]).

Fixpoint normalizeSources (seen : gset string) (l : list Source) : res backup_error (list Source) :=
  match l with
  | [] => Ok []
  | s :: rest =>
    let id := if str_empty (src_id s) then sourceID (src_kind s) (src_stack s) (src_service s) (src_mount s +:+ src_path s) else src_id s in
    if negb (safeID id) || bool_decide (id ∈ seen) then Err (ErrInvalid "source IDs must be unique safe identifiers")
    else let? rest := normalizeSources ({[id]} ∪ seen) rest in Ok (with_source_id s id :: rest)
  end.

Definition retention_ok (r : Retention) : bool := forallb (λ v, (0 <=? v) && (v <=? 10000)) [Daily r; Weekly r; Monthly r].

Fixpoint normalizeAssignments (seen : gset string) (l : list Assignment) : res backup_error (list Assignment) :=
  match l with
  | [] => Ok []
  | a :: rest =>
    if bool_decide (DestinationID a ∈ seen) then Err (ErrInvalid "duplicate destination")
    else
      let s := AssignmentSchedule a in
      let s := if str_empty (Frequency s) then mkSchedule "manual" (ScheduleTime s) (Weekday s) (Timezone s) (IntervalHours s) else s in
      let? _ := validateSchedule zoneinfo Local s in
      let? _ := guard_err (negb (retention_ok (AssignmentRetention a))) (ErrInvalid "invalid retention count") in
      let? rest := normalizeAssignments ({[DestinationID a]} ∪ seen) rest in Ok (with_schedule a s :: rest)
  end.

Definition or_default (v d : Z) : Z := if v =? 0 then d else v.
Definition outside (lo hi v : Z) : bool := (v <? lo) || (hi <? v).

Definition normalizePlan (p : Plan) : res backup_error Plan :=
  let name := trim_space (p_name p) in
  let? _ := guard_err (str_empty name || (200 <? slen name)) (ErrInvalid "plan name is required (max 200 characters)") in
  let? _ := guard_err (negb (str_in (p_consistency p) ["files"; "stop"])) (ErrInvalid "consistency must be files or stop") in
  let? _ := guard_err (outside 1 1000 (Z.of_nat (length (p_sources p)))) (ErrInvalid "select 1 to 1000 sources") in
  let? sources := normalizeSources ∅ (p_sources p) in
  let? _ := guard_err (outside 1 30 (Z.of_nat (length (p_destinations p)))) (ErrInvalid "select 1 to 30 destinations") in
  let maxBytes := or_default (p_staging_max p) (10 * 2 ^ 30) in
  let? _ := guard_err (outside (2 ^ 20) (2 ^ 50) maxBytes) (ErrInvalid "staging_max_bytes outside supported range") in
  let ttl := or_default (p_staging_ttl p) 24 in
  let? _ := guard_err (outside 1 168 ttl) (ErrInvalid "staging_ttl_hours must be 1 to 168") in
  let stop := or_default (p_stop_timeout p) 300 in
  let? _ := guard_err (outside 10 3600 stop) (ErrInvalid "stop_timeout_seconds must be 10 to 3600") in
  let? destinations := normalizeAssignments ∅ (p_destinations p) in
  Ok (mkPlan (p_id p) name (p_enabled p) (p_consistency p) sources destinations maxBytes ttl stop).

Definition overlaps (x y : string) : bool :=
  let x := Clean x in
  let y := Clean y in
  str_eqb x y || has_prefix x (y +:+ "/") || has_prefix y (x +:+ "/").

(** [paths] are the original paths of the sources. *)
Definition validateSourceRepositories (s : state) (paths : list string) : res backup_error unit :=
  guard_err (existsb (λ path, existsb (λ e, str_eqb (d_kind e.2) "local" && negb (str_empty path) && overlaps path (d_repository e.2))
               (range_list (Destinations s))) paths)
    (ErrInvalid "source overlaps local backup repository").

(** An unchanged schedule keeps its occurrences; a new or changed one starts now. *)
Definition keepOccurrence (now : Time) (previous : list Assignment) (a : Assignment) : Assignment :=
  match List.filter (λ old, str_eqb (DestinationID old) (DestinationID a) && bool_decide (AssignmentSchedule old = AssignmentSchedule a)) previous with
  | [] => with_occurrence a (latestDue zoneinfo Local (AssignmentSchedule a) now) (Some now)
  | matching => let old := List.last matching a in with_occurrence a (LastScheduledAt old) (ScheduleActivatedAt old)
  end.

Fixpoint assignOccurrences (now : Time) (s : state) (previous l : list Assignment) : res backup_error (list Assignment) :=
  match l with
  | [] => Ok []
  | a :: rest =>
    if negb (is_some (Destinations s !! DestinationID a)) then Err (ErrInvalid "unknown destination")
    else let? rest := assignOccurrences now s previous rest in Ok (keepOccurrence now previous a :: rest)
  end.

(** [preview] lists the paths of a plan's sources; [None] when the capture cannot. *)
Definition previewPlan (preview : option (Plan → res string (list string))) (s : state) (p : Plan) : res backup_error unit :=
  match preview with
  | None => Ok tt
  | Some f => match f p with Err e => Err (ErrInvalid e) | Ok paths => validateSourceRepositories s paths end
  end.

Definition SavePlan (env : callEnv) (token : string) (preview : option (Plan → res string (list string))) (id : string) (p : Plan) (b : Backup)
    : res backup_error Plan * Backup :=
  match normalizePlan p with
  | Err e => (Err e, b)
  | Ok p =>
    match b_init_error b with
    | Some message => (Err (ErrOther message), b)
    | None =>
      if configurationBusyLocked b then (Err configurationBusyError, b)
      else
        let previous := Plans (b_state b) !! id in
        if negb (str_empty id) && negb (is_some previous) then (Err BackupSchedule.ErrNotFound, b)
        else
          let id := if str_empty id then "plan_" +:+ token else id in
          match assignOccurrences (call_now env) (b_state b) (match previous with Some q => p_destinations q | None => [] end) (p_destinations p) with
          | Err e => (Err e, b)
          | Ok destinations =>
            let p := mkPlan id (p_name p) (p_enabled p) (p_consistency p) (p_sources p) destinations (p_staging_max p) (p_staging_ttl p) (p_stop_timeout p) in
            match previewPlan preview (b_state b) p with
            | Err e => (Err e, b)
            | Ok _ =>
              match persistState env (with_state b (with_plans (b_state b) (<[id := p]> (Plans (b_state b))))) with
              | (None, b) => (Ok p, b)
              | (Some e, b) =>
                let plans := match previous with Some q => <[id := q]> (Plans (b_state b)) | None => delete id (Plans (b_state b)) end in
                (Err e, with_state b (with_plans (b_state b) plans))
              end
            end
          end
    end
  end.

(** *** Deletion *)

Definition split_map {V} (f : string → bool) (m : gmap string V) : gmap string V * gmap string V :=
  (filter (λ e, f e.1 = true) m, filter (λ e, f e.1 = false) m).

(** Take the attempts and checkpoints whose key passes [f] out of the state. *)
Definition dropEvidence (f : string → bool) (s : state) : state :=
  with_checkpoints (with_attempts s (split_map f (CopyAttempts s)).2 (split_map f (MaintenanceAttempts s)).2) (split_map f (CopyCheckpoints s)).2.

(** Put back what was taken out of [old]. *)
Definition restoreEvidence (f : string → bool) (old s : state) : state :=
  with_checkpoints (with_attempts s ((split_map f (CopyAttempts old)).1 ∪ CopyAttempts s) ((split_map f (MaintenanceAttempts old)).1 ∪ MaintenanceAttempts s))
    ((split_map f (CopyCheckpoints old)).1 ∪ CopyCheckpoints s).

Definition DeletePlan (env : callEnv) (id : string) (b : Backup) : option backup_error * Backup :=
  if configurationBusyLocked b then (Some configurationBusyError, b)
  else match Plans (b_state b) !! id with
  | None => (Some BackupSchedule.ErrNotFound, b)
  | Some p =>
    let f key := has_prefix key (id +:+ "/") in
    let s := b_state b in
    match persistState env (with_state b (dropEvidence f (with_plans s (delete id (Plans s))))) with
    | (None, b) => (None, b)
    | (Some e, b) => (Some e, with_state b (restoreEvidence f s (with_plans (b_state b) (<[id := p]> (Plans (b_state b))))))
    end
  end.

(** [secrets] is the outcome of removing the credentials. *)
Definition DeleteDestination (env : callEnv) (secrets : option string) (id : string) (b : Backup) : option backup_error * Backup :=
  if configurationBusyLocked b then (Some configurationBusyError, b)
  else match Destinations (b_state b) !! id with
  | None => (Some BackupSchedule.ErrNotFound, b)
  | Some d =>
    if existsb (λ e, existsb (λ a, str_eqb (DestinationID a) id) (p_destinations e.2)) (range_list (Plans (b_state b)))
    then (Some (ErrInvalid "destination is assigned to a plan"), b)
    else
      let f key := has_suffix key ("/" +:+ id) in
      let s := b_state b in
      match persistState env (with_state b (dropEvidence f (with_destination_map s (delete id (Destinations s))))) with
      | (None, b) => (ErrOther <$> secrets, b)
      | (Some e, b) => (Some e, with_state b (restoreEvidence f s (with_destination_map (b_state b) (<[id := d]> (Destinations (b_state b))))))
      end
  end.
End plans.

(** ** Lemmas *)

Lemma safeID_nonempty id : safeID id = true → str_empty id = false.
Proof. intros H. destruct (str_empty id) eqn:E; [|done]. boolify. by subst. Qed.

Lemma outside_false lo hi v : outside lo hi v = false ↔ lo <= v <= hi.
Proof. unfold outside. rewrite orb_false_iff, !Z.ltb_ge. lia. Qed.

Lemma or_default_idem v d : d ≠ 0 → or_default (or_default v d) d = or_default v d.
Proof. intros Hd. unfold or_default. destruct (Z.eqb_spec v 0) as [->|Hv]; [by destruct (Z.eqb_spec d 0)|by destruct (Z.eqb_spec v 0)]. Qed.
Lemma normalizeSources_Ok (sha : string → string) seen l l' : normalizeSources sha seen l = Ok l' →
  length l' = length l ∧ NoDup (src_id <$> l') ∧ Forall (λ s, safeID (src_id s) = true ∧ (src_id s ∉ seen)) l' ∧ normalizeSources sha seen l' = Ok l'.
Proof.
  revert seen l'. induction l as [|s l IH]; intros seen l'; cbn; [intros [= <-]; by repeat constructor|].
  set (id := if str_empty (src_id s) then _ else _). destruct (negb (safeID id) || bool_decide (id ∈ seen)) eqn:E; [done|].
  intros H. res_inv H. subst l'. apply IH in E0 as (Hl & Hn & Hf & Hid). apply orb_false_iff in E as [Hs Hseen]. boolify. cbn.
  rewrite (safeID_nonempty id Hs), Hs, bool_decide_false by done. cbn. rewrite Hid. cbn. split_and!; [by rewrite Hl|..].
  - apply NoDup_cons. split; [|done]. intros (t & Et & Ht)%list_elem_of_fmap. rewrite Forall_forall in Hf. destruct (Hf t Ht) as [_ Hout]. rewrite <- Et in Hout. set_solver.
  - constructor; [done|]. apply (Forall_impl _ _ _ Hf). intros t [? ?]. split; [done|set_solver].
  - done.
Qed.

Section plan_lemmas.
Context (zoneinfo : string → option Location) (Local : Location) (state_text : state → string) (sha : string → string).
Context `{!MapRange string (Run * Plan), !MapRange string Plan, !MapRange string Destination}.
Implicit Types (b : Backup) (env : callEnv).

(** What [normalizePlan] establishes. *)
Record plan_ok (p : Plan) : Prop := {
  po_name : trim_space (p_name p) = p_name p ∧ p_name p ≠ "" ∧ slen (p_name p) <= 200;
  po_consistency : p_consistency p ∈ ["files"; "stop"];
  po_sources : (1 ≤ length (p_sources p) ≤ 1000)%nat ∧ NoDup (src_id <$> p_sources p) ∧ Forall (λ s, safeID (src_id s) = true) (p_sources p);
  po_destinations : (1 ≤ length (p_destinations p) ≤ 30)%nat ∧ NoDup (DestinationID <$> p_destinations p);
  po_assignments : Forall (λ a, Frequency (AssignmentSchedule a) ≠ "" ∧ validateSchedule zoneinfo Local (AssignmentSchedule a) = Ok tt ∧
    retention_ok (AssignmentRetention a) = true) (p_destinations p);
  po_limits : 2 ^ 20 <= p_staging_max p <= 2 ^ 50 ∧ 1 <= p_staging_ttl p <= 168 ∧ 10 <= p_stop_timeout p <= 3600 }.

Lemma normalizeAssignments_Ok seen l l' : normalizeAssignments zoneinfo Local seen l = Ok l' →
  length l' = length l ∧ NoDup (DestinationID <$> l') ∧
  Forall (λ a, (DestinationID a ∉ seen) ∧ Frequency (AssignmentSchedule a) ≠ "" ∧ validateSchedule zoneinfo Local (AssignmentSchedule a) = Ok tt ∧
    retention_ok (AssignmentRetention a) = true) l' ∧
  normalizeAssignments zoneinfo Local seen l' = Ok l'.
Proof using.
  revert seen l'. induction l as [|a l IH]; intros seen l'; cbn -[retention_ok]; [intros [= <-]; by repeat constructor|].
  destruct (bool_decide (DestinationID a ∈ seen)) eqn:Es; [done|]. set (s := if str_empty _ then _ else _).
  assert (Frequency s ≠ "") as Hs.
  { unfold s. destruct (str_empty (Frequency (AssignmentSchedule a))) eqn:E; [done|]. by boolify. }
  intros H. res_inv H. subst l'. apply IH in E1 as (Hl & Hn & Hf & Hid). boolify. cbn -[retention_ok]. rewrite bool_decide_false by done.
  assert (str_empty (Frequency s) = false) as -> by (by apply bool_decide_eq_false).
  destruct a0. rewrite E. cbn -[retention_ok]. rewrite E0. cbn -[retention_ok]. rewrite Hid.
  unfold guard_err in E0. destruct (negb (retention_ok _)) eqn:Er; [done|]. boolify. split_and!; [by rewrite Hl|..].
  - apply NoDup_cons. split; [|done]. intros (t & Et & Ht)%list_elem_of_fmap. rewrite Forall_forall in Hf. destruct (Hf t Ht) as [Hout _]. rewrite <- Et in Hout. set_solver.
  - constructor; [by split_and!|]. apply (Forall_impl _ _ _ Hf). intros t (? & ? & ? & ?). split_and!; try done. set_solver.
  - done.
Qed.

End plan_lemmas.

Lemma split_map_union {V} (f : string → bool) (m : gmap string V) : (split_map f m).1 ∪ (split_map f m).2 = m.
Proof.
  apply map_eq. intros k. rewrite lookup_union. unfold split_map. cbn [fst snd]. rewrite !map_lookup_filter. destruct (m !! k) as [v|]; [|done]. cbn.
  destruct (f k) eqn:E; cbn; case_guard; try done; case_guard; done.
Qed.

Lemma split_map_2 {V} (f : string → bool) (m : gmap string V) k : (split_map f m).2 !! k = if f k then None else m !! k.
Proof.
  unfold split_map. cbn [snd]. rewrite map_lookup_filter. destruct (m !! k) as [v|]; [|by destruct (f k)]. cbn. destruct (f k) eqn:E; by case_guard.
Qed.

Section plan_properties.
Context (zoneinfo : string → option Location) (Local : Location) (state_text : state → string) (sha : string → string).
Context `{!MapRange string (Run * Plan), !MapRange string Plan, !MapRange string Destination}.
Implicit Types (b : Backup) (env : callEnv).

Lemma normalizePlan_ok p p' : normalizePlan zoneinfo Local sha p = Ok p' → plan_ok zoneinfo Local p'.
Proof using.
  unfold normalizePlan. intros H. res_inv H. subst p'. boolify. unfold guard_err in *.
  repeat match goal with H : (if ?b then _ else _) = Ok _ |- _ => destruct b eqn:?; [discriminate H|clear H] end. boolify.
  repeat match goal with H : outside _ _ _ = false |- _ => apply outside_false in H end.
  match goal with H : normalizeSources _ _ _ = Ok _ |- _ => apply normalizeSources_Ok in H as (Hl1 & Hn1 & Hf1 & _) end.
  match goal with H : normalizeAssignments _ _ _ _ = Ok _ |- _ => apply normalizeAssignments_Ok in H as (Hl2 & Hn2 & Hf2 & _) end.
  constructor; cbn.
  - split; [apply trim_space_idem|]. split; [done|lia].
  - done.
  - rewrite Hl1. split; [lia|]. split; [done|]. apply (Forall_impl _ _ _ Hf1). by intros t [? _].
  - rewrite Hl2. split; [lia|done].
  - apply (Forall_impl _ _ _ Hf2). by intros t (_ & ? & ? & ?).
  - done.
Qed.

Lemma normalizeSources_id seen l : NoDup (src_id <$> l) → Forall (λ s, safeID (src_id s) = true ∧ (src_id s ∉ seen)) l →
  normalizeSources sha seen l = Ok l.
Proof using.
  revert seen. induction l as [|s l IH]; intros seen Hn Hf; [done|]. apply NoDup_cons in Hn as [Hs Hn]. apply Forall_cons in Hf as [[Hsafe Hout] Hf].
  cbn [normalizeSources]. rewrite (safeID_nonempty _ Hsafe), Hsafe, bool_decide_false by done. cbn [negb orb].
  rewrite IH; [by destruct s|done|]. apply Forall_forall. intros t Ht. rewrite Forall_forall in Hf. destruct (Hf t Ht) as [? Htn]. split; [done|].
  rewrite elem_of_union, elem_of_singleton. intros [E|?]; [|done]. apply Hs. rewrite <- E. by apply list_elem_of_fmap_2.
Qed.

Lemma normalizeAssignments_id seen l : NoDup (DestinationID <$> l) →
  Forall (λ a, (DestinationID a ∉ seen) ∧ Frequency (AssignmentSchedule a) ≠ "" ∧ validateSchedule zoneinfo Local (AssignmentSchedule a) = Ok tt ∧
    retention_ok (AssignmentRetention a) = true) l → normalizeAssignments zoneinfo Local seen l = Ok l.
Proof using.
  revert seen. induction l as [|a l IH]; intros seen Hn Hf; [done|]. apply NoDup_cons in Hn as [Hs Hn].
  apply Forall_cons in Hf as [(Hout & Hfr & Hv & Hr) Hf]. cbn [normalizeAssignments]. rewrite bool_decide_false by done.
  assert (str_empty (Frequency (AssignmentSchedule a)) = false) as -> by (by apply bool_decide_eq_false). rewrite Hv, Hr. cbn [negb guard_err res_bind].
  rewrite IH; [by destruct a|done|]. apply Forall_forall. intros t Ht. rewrite Forall_forall in Hf. destruct (Hf t Ht) as (Htn & ? & ? & ?). split; [|done].
  rewrite elem_of_union, elem_of_singleton. intros [E|?]; [|done]. apply Hs. rewrite <- E. by apply list_elem_of_fmap_2.
Qed.

(** C37: [normalizePlan] puts a plan into a canonical form, which it accepts as it
    is: a trimmed bounded name, unique safe source ids, unique destinations with
    valid schedules and retention counts, and limits within the supported ranges. *)
Theorem normalizePlan_canonical p p' : normalizePlan zoneinfo Local sha p = Ok p' →
  plan_ok zoneinfo Local p' ∧ normalizePlan zoneinfo Local sha p' = Ok p'.
Proof using.
  intros H. apply normalizePlan_ok in H as Hok. split; [done|].
  destruct Hok as [(N1 & N2 & N3) Hc (S1 & S2 & S3) (D1 & D2) Ha (L1 & L2 & L3)]. unfold normalizePlan. rewrite N1.
  assert (str_empty (p_name p') = false) as -> by (by apply bool_decide_eq_false).
  assert ((200 <? slen (p_name p')) = false) as -> by (apply Z.ltb_ge; lia).
  assert (str_in (p_consistency p') ["files"; "stop"] = true) as -> by (by apply bool_decide_eq_true).
  assert (∀ lo hi v, lo <= v <= hi → outside lo hi v = false) as Hout by (intros; by apply outside_false).
  rewrite (Hout 1 1000), (Hout 1 30) by lia. cbn [negb orb guard_err res_bind].
  rewrite (normalizeSources_id ∅ (p_sources p') S2) by (apply (Forall_impl _ _ _ S3); intros t Ht; split; [exact Ht|apply not_elem_of_empty]). cbn [res_bind].
  rewrite (normalizeAssignments_id ∅ (p_destinations p') D2) by (apply (Forall_impl _ _ _ Ha); intros t Ht; split; [apply not_elem_of_empty|exact Ht]).
  assert (∀ v d, 0 < v → or_default v d = v) as Hd by (intros v d Hv; unfold or_default; destruct (Z.eqb_spec v 0); [lia|done]).
  rewrite !Hd by lia. rewrite !Hout by done. cbn [guard_err res_bind]. by destruct p'.
Qed.

(** *** Saving and deleting *)

(** A failed write leaves only the pruning of old run summaries behind. *)
Definition pruned env b : Backup := with_state b (pruneMetadataLocked (call_removable env) (call_now env) (b_state b)).
Definition stored_text b : option string := set_value <$> app_settings (JobsService.store (b_jobs b)) !! settingKey.

Lemma persistState_spec env b : match persistState state_text env b with
  | (Some _, b') => (b_init_error b ≠ None ∧ b' = b) ∨ (b_init_error b = None ∧ b' = pruned env b)
  | (None, b') => b_init_error b = None ∧ b_state b' = b_state (pruned env b) ∧ stored_text b' = Some (state_text (b_state b')) ∧
                  b' = with_job_service (pruned env b) (b_jobs b')
  end.
Proof using.
  unfold persistState. destruct (b_init_error b) as [m|]; [by left|]. unfold SetAppSetting, driver. destruct (call_write env); [by right|].
  split_and!; [done|done| |done]. unfold stored_text. cbn [b_jobs with_job_service JobsService.store JobsService.with_store app_settings with_settings].
  by rewrite lookup_insert_eq.
Qed.

Lemma assignOccurrences_spec now s previous l l' : assignOccurrences zoneinfo Local now s previous l = Ok l' →
  l' = keepOccurrence zoneinfo Local now previous <$> l ∧ Forall (λ a, is_Some (Destinations s !! DestinationID a)) l.
Proof using.
  revert l'. induction l as [|a l IH]; intros l'; cbn; [by intros [= <-]|]. destruct (Destinations s !! DestinationID a) eqn:E; cbn; [|done].
  intros H. res_inv H. subst l'. destruct (IH _ eq_refl) as [-> Hf]. split; [done|]. constructor; [by rewrite E|done].
Qed.

(** The occurrence bookkeeping of a saved assignment: kept when the schedule is
    unchanged, otherwise it starts now, with nothing outstanding. *)
Lemma keepOccurrence_spec now previous a :
  let a' := keepOccurrence zoneinfo Local now previous a in
  DestinationID a' = DestinationID a ∧ AssignmentSchedule a' = AssignmentSchedule a ∧
  ((∃ old, old ∈ previous ∧ DestinationID old = DestinationID a ∧ AssignmentSchedule old = AssignmentSchedule a ∧
      LastScheduledAt a' = LastScheduledAt old ∧ ScheduleActivatedAt a' = ScheduleActivatedAt old) ∨
   ((∀ old, old ∈ previous → DestinationID old = DestinationID a → AssignmentSchedule old ≠ AssignmentSchedule a) ∧
      LastScheduledAt a' = latestDue zoneinfo Local (AssignmentSchedule a) now ∧ ScheduleActivatedAt a' = Some now)).
Proof using.
  unfold keepOccurrence. set (f := λ old, _). destruct (List.filter f previous) as [|x l] eqn:E.
  - split_and!; try done. right. split_and!; try done. intros old Hin Hd Hs.
    assert (In old (List.filter f previous)) as Hf; [|by rewrite E in Hf]. apply List.filter_In. split; [by apply list_elem_of_In|].
    unfold f, str_eqb. by rewrite !bool_decide_true.
  - split_and!; try done. left. exists (List.last (x :: l) a).
    assert (In (List.last (x :: l) a) (List.filter f previous)) as Hin.
    { rewrite E. destruct (exists_last (l := x :: l)) as (l0 & y & ->); [done|]. rewrite List.last_last. apply in_or_app. right. by left. }
    apply List.filter_In in Hin as [Hin Hf]. unfold f in Hf. apply andb_true_iff in Hf as [H1 H2]. boolify.
    split_and!; try done. by apply list_elem_of_In.
Qed.

Lemma with_plans_same s : with_plans s (Plans s) = s.
Proof using. by destruct s. Qed.

(** saving a plan is all or nothing: an accepted plan is canonical, assigned to
    existing destinations, the only change to the configuration and part of the
    text that was stored, and it was accepted while nothing used the
    configuration; a refused or failed one changes nothing but the pruning of
    old run summaries. *)
Theorem SavePlan_atomic env token preview id p b :
  Plans (b_state b) !! ("plan_" +:+ token) = None ∧ Plans (b_state b) !! "" = None →
  let r := SavePlan zoneinfo Local state_text sha env token preview id p b in
  match r.1 with
  | Err _ => r.2 = b ∨ r.2 = pruned env b
  | Ok p' =>
    configurationBusyLocked b = false ∧ plan_ok zoneinfo Local p' ∧ p_id p' = (if str_empty id then "plan_" +:+ token else id) ∧
    Forall (λ a, is_Some (Destinations (b_state b) !! DestinationID a)) (p_destinations p') ∧
    b_state r.2 = with_plans (b_state (pruned env b)) (<[p_id p' := p']> (Plans (b_state b))) ∧
    stored_text r.2 = Some (state_text (b_state r.2)) ∧ repositoryJobs r.2 = repositoryJobs b ∧ repositoryReads r.2 = repositoryReads b
  end.
Proof using.
  intros [Hfresh Hempty]. cbn zeta. unfold SavePlan. destruct (normalizePlan zoneinfo Local sha p) as [q|e] eqn:En; [|by left].
  destruct (b_init_error b) eqn:Ei; [by left|]. destruct (configurationBusyLocked b) eqn:Eb; [by left|].
  destruct (negb (str_empty id) && negb (is_some (Plans (b_state b) !! id))) eqn:Ex; [by left|].
  destruct (assignOccurrences _ _ _ _ _ _) as [ds|e] eqn:Ea; [|by left]. apply assignOccurrences_spec in Ea as [-> Hds].
  set (id' := if str_empty id then _ else _). set (q' := mkPlan _ _ _ _ _ _ _ _ _).
  destruct (previewPlan preview (b_state b) q'); [|by left].
  pose proof (persistState_spec env (with_state b (with_plans (b_state b) (<[id' := q']> (Plans (b_state b)))))) as Hp.
  destruct (persistState _ _ _) as [[e|] b']; cbn [fst snd].
  - right. destruct Hp as [[Hn _]|[_ ->]]; [done|]. unfold pruned. f_equal.
    assert (match Plans (b_state b) !! id with Some q0 => <[id' := q0]> (<[id' := q']> (Plans (b_state b))) | None => delete id' (<[id' := q']> (Plans (b_state b))) end
      = Plans (b_state b)) as Hb.
    { unfold id'. destruct (str_empty id) eqn:Ee; cbn [negb andb] in Ex.
      - boolify. subst id. rewrite Hempty. by rewrite delete_insert_id.
      - destruct (Plans (b_state b) !! id) as [q0|] eqn:Eq; [|done]. rewrite insert_insert_eq. by apply insert_id. }
    cbn [b_state with_state]. destruct (b_state b); cbn in *. unfold pruneMetadataLocked, with_runs, with_plans. cbn. by rewrite Hb.
  - destruct Hp as (_ & Hs & Ht & ->). apply normalizePlan_ok in En. split_and!; try done.
    + destruct En as [? ? ? [D1 D2] Ha ?]. constructor; cbn; try done.
      * rewrite length_fmap. split; [done|]. assert (DestinationID <$> (keepOccurrence zoneinfo Local (call_now env) match Plans (b_state b) !! id with Some q0 => p_destinations q0 | None => [] end <$> p_destinations q)
          = DestinationID <$> p_destinations q) as ->; [|done]. rewrite <- list_fmap_compose. apply list_fmap_ext. intros i x Hi. cbn.
        by destruct (keepOccurrence_spec (call_now env) match Plans (b_state b) !! id with Some q0 => p_destinations q0 | None => [] end x) as (-> & _).
      * apply Forall_fmap, (Forall_impl _ _ _ Ha). intros x Hok. cbn.
        destruct (keepOccurrence_spec (call_now env) match Plans (b_state b) !! id with Some q0 => p_destinations q0 | None => [] end x) as (_ & -> & _).
        unfold keepOccurrence. by destruct (List.filter _ _).
    + cbn. apply Forall_fmap, (Forall_impl _ _ _ Hds). intros x Hin. cbn.
      by destruct (keepOccurrence_spec (call_now env) match Plans (b_state b) !! id with Some q0 => p_destinations q0 | None => [] end x) as (-> & _).
    + exact (eq_trans Ht (f_equal (λ s, Some (state_text s)) Hs)).
Qed.

(** saving a plan never starts a run for the past: an assignment whose schedule
    is unchanged keeps its occurrences, and a new or changed one has the latest
    occurrence marked as done and counts from now. *)
Theorem SavePlan_occurrences env token preview id p b p' b' : SavePlan zoneinfo Local state_text sha env token preview id p b = (Ok p', b') →
  ∀ a, a ∈ p_destinations p' →
    (∃ q old, Plans (b_state b) !! id = Some q ∧ old ∈ p_destinations q ∧ DestinationID old = DestinationID a ∧ AssignmentSchedule old = AssignmentSchedule a ∧
       LastScheduledAt a = LastScheduledAt old ∧ ScheduleActivatedAt a = ScheduleActivatedAt old) ∨
    (ScheduleActivatedAt a = Some (call_now env) ∧ LastScheduledAt a = latestDue zoneinfo Local (AssignmentSchedule a) (call_now env) ∧
     ∀ due, latestDue zoneinfo Local (AssignmentSchedule a) (call_now env) = Some due → due <= call_now env + clockSkewTolerance →
       occurrencePending (LastScheduledAt a) due (call_now env) = false).
Proof using.
  unfold SavePlan. destruct (normalizePlan _ _ _ _) as [q|]; [|done]. destruct (b_init_error b); [done|].
  destruct (configurationBusyLocked b); [done|]. destruct (_ && _); [done|].
  destruct (assignOccurrences _ _ _ _ _ _) as [ds|] eqn:Ea; [|done]. apply assignOccurrences_spec in Ea as [-> _].
  destruct (previewPlan _ _ _) as [?|?]; [|done]. destruct (persistState _ _ _) as [[e|] b2]; [done|]. intros [= <- <-]. cbn [p_destinations].
  intros x (a0 & -> & _)%list_elem_of_fmap. set (previous := match Plans (b_state b) !! id with Some _ => _ | None => _ end).
  destruct (keepOccurrence_spec (call_now env) previous a0) as (H1 & H2 & [(old & Hin & Hd & Hs & Hl & Ha)|(_ & Hl & Ha)]); rewrite ?H1, H2.
  - left. destruct (Plans (b_state b) !! id) as [q0|]; [|by apply elem_of_nil in Hin]. exists q0, old. by split_and!.
  - right. split_and!; [done..|]. intros due Hdue Hle. rewrite Hl, Hdue. unfold occurrencePending, after, before.
    apply orb_false_iff. rewrite !Z.ltb_ge. lia.
Qed.

(** deleting a plan is all or nothing: it removes the plan with exactly its
    own evidence while nothing uses the configuration, and a refused or failed
    deletion changes nothing but the pruning of old run summaries. *)
Theorem DeletePlan_atomic env id b :
  let r := DeletePlan state_text env id b in
  match r.1 with
  | Some _ => r.2 = b ∨ r.2 = pruned env b
  | None =>
    configurationBusyLocked b = false ∧ is_Some (Plans (b_state b) !! id) ∧ Plans (b_state r.2) = delete id (Plans (b_state b)) ∧
    Destinations (b_state r.2) = Destinations (b_state b) ∧ stored_text r.2 = Some (state_text (b_state r.2)) ∧
    ∀ key, let kept {V} (m : gmap string V) := if has_prefix key (id +:+ "/") then None else m !! key in
      CopyCheckpoints (b_state r.2) !! key = kept (CopyCheckpoints (b_state b)) ∧ CopyAttempts (b_state r.2) !! key = kept (CopyAttempts (b_state b)) ∧
      MaintenanceAttempts (b_state r.2) !! key = kept (MaintenanceAttempts (b_state b))
  end.
Proof using.
  cbn zeta. unfold DeletePlan. destruct (configurationBusyLocked b) eqn:Eb; [by left|]. destruct (Plans (b_state b) !! id) as [p|] eqn:Ep; [|by left].
  set (f := λ key, has_prefix key (id +:+ "/")). set (s' := dropEvidence f _).
  pose proof (persistState_spec env (with_state b s')) as Hp. destruct (persistState _ _ _) as [[e|] b']; cbn [fst snd].
  - destruct Hp as [[_ ->]|[_ ->]]; [left|right]; subst s'; unfold pruned, with_state; destruct b as [s0 ????????], s0; cbn -[split_map] in *; f_equal;
      unfold restoreEvidence, dropEvidence, pruneMetadataLocked; cbn -[split_map]; by rewrite !split_map_union, insert_delete_eq, (insert_id _ _ _ Ep).
  - destruct Hp as (_ & Hs & Ht & _). rewrite Hs in Ht |- *. subst s'. split_and!; try done. intros key. cbn zeta. split_and!; apply (split_map_2 f).
Qed.

(** deleting a destination is all or nothing as well, and is refused while a
    plan is assigned to it; a failure to remove its credentials is reported after
    the destination is gone. *)
Theorem DeleteDestination_atomic env secrets id b :
  let r := DeleteDestination state_text env secrets id b in
  (is_Some r.1 ∧ (r.2 = b ∨ r.2 = pruned env b)) ∨
  (r.1 = ErrOther <$> secrets ∧ configurationBusyLocked b = false ∧ is_Some (Destinations (b_state b) !! id) ∧
   (∀ pid p a, Plans (b_state b) !! pid = Some p → a ∈ p_destinations p → DestinationID a ≠ id) ∧
   Destinations (b_state r.2) = delete id (Destinations (b_state b)) ∧ Plans (b_state r.2) = Plans (b_state b) ∧
   stored_text r.2 = Some (state_text (b_state r.2)) ∧
   ∀ key, CopyCheckpoints (b_state r.2) !! key = if has_suffix key ("/" +:+ id) then None else CopyCheckpoints (b_state b) !! key).
Proof using.
  cbn zeta. unfold DeleteDestination. destruct (configurationBusyLocked b) eqn:Eb; [left; by eauto|].
  destruct (Destinations (b_state b) !! id) as [d|] eqn:Ed; [|left; by eauto].
  destruct (existsb _ _) eqn:Ea; [left; by eauto|].
  set (f := λ key, has_suffix key ("/" +:+ id)). set (s' := dropEvidence f _).
  pose proof (persistState_spec env (with_state b s')) as Hp. destruct (persistState _ _ _) as [[e|] b']; cbn [fst snd].
  - left. split; [by eauto|]. destruct Hp as [[_ ->]|[_ ->]]; [left|right]; subst s'; unfold pruned, with_state; destruct b as [s0 ????????], s0;
      cbn -[split_map] in *; f_equal; unfold restoreEvidence, dropEvidence, pruneMetadataLocked; cbn -[split_map];
      by rewrite !split_map_union, insert_delete_eq, (insert_id _ _ _ Ed).
  - right. destruct Hp as (_ & Hs & Ht & _). rewrite Hs in Ht |- *. subst s'. split_and!; try done.
    + intros pid p a Hp Hin E. pose proof (proj1 (existsb_false_iff _ _) Ea (pid, p) (proj2 (range_list_elem _ _ _) Hp)) as Hn. cbn in Hn.
      pose proof (proj1 (existsb_false_iff _ _) Hn a Hin) as Hd. cbn in Hd. by boolify.
    + intros key. apply (split_map_2 f).
Qed.
End plan_properties.

(** two absolute paths below the root overlap exactly when one is the other or
    lies below it, whatever redundant slashes, dots or parent steps they are
    written with. *)
Theorem overlaps_spec x y : is_abs x = true → is_abs y = true → path_parts x ≠ [] → path_parts y ≠ [] →
  overlaps x y = true ↔ path_parts x `prefix_of` path_parts y ∨ path_parts y `prefix_of` path_parts x.
Proof.
  intros Ax Ay Nx Ny. pose proof (below_iff _ _ Nx Ny (path_parts_components x) (path_parts_components y)) as H1.
  pose proof (below_iff _ _ Ny Nx (path_parts_components y) (path_parts_components x)) as H2.
  unfold overlaps, Clean. rewrite Ax, Ay. set (u := join "/" (path_parts x)) in *. set (v := join "/" (path_parts y)) in *.
  assert (∀ s t : string, has_prefix ("/" +:+ s) (("/" +:+ t) +:+ "/") = has_prefix s (t +:+ "/")) as -> by done.
  assert (∀ s t : string, has_prefix ("/" +:+ s) (("/" +:+ t) +:+ "/") = has_prefix s (t +:+ "/")) as -> by done.
  assert (str_eqb ("/" +:+ u) ("/" +:+ v) = true ↔ u = v) as He.
  { unfold str_eqb. rewrite bool_decide_eq_true. split; [apply str_append_inj|by intros ->]. }
  rewrite !orb_true_iff, He, <- H1, <- H2. split; [intros [[?|?]|?]|intros [[?|?]|[?|?]]]; auto.
Qed.

(** ** Concrete runs *)

#[local] Instance demoRunsRange : MapRange string (Run * Plan) := default_range string (Run * Plan).
#[local] Instance demoPlansRange : MapRange string Plan := default_range string Plan.
#[local] Instance demoDestinationsRange : MapRange string Destination := default_range string Destination.

Definition demoService : Backup :=
  mkBackup demoBackup (JobsService.NewService (mkDB None ∅ ∅ ∅ ∅ ∅ ∅ ∅)) demoPolicy None "" ∅ ∅ 0 ∅.
Definition demoSourcePlan : Plan :=
  mkPlan "" " Weekly " true "stop" [mkSource "" "stack_definition" "web" "" "" "" []]
    [mkAssignment "dst_1" true (mkSchedule "interval" "" 0 "" 24) (mkRetention 7 4 6) None None] 0 0 0.
Definition demoText (s : state) : string := InstanceID s.
Definition demoSha (s : string) : string := "0".
Definition demoCall : callEnv := mkCall (100 * Day) None (λ _, true).
Definition demoSavedPlan : Plan :=
  mkPlan "plan_1x" "Weekly" true "stop" [mkSource "source_0" "stack_definition" "web" "" "" "" []]
    [mkAssignment "dst_1" true (mkSchedule "interval" "" 0 "" 24) (mkRetention 7 4 6) (Some (100 * Day)) (Some (100 * Day))]
    (10 * 2 ^ 30) 24 300.

Lemma demoSaved_eq : (SavePlan demoZones UTC demoText demoSha demoCall "1x" None "" demoSourcePlan demoService).1 = Ok demoSavedPlan.
Proof. vm_compute. reflexivity. Qed.

Lemma normalizePlan_canonical_witness : normalizePlan demoZones UTC demoSha demoSavedPlan = Ok demoSavedPlan.
Proof.
  apply (normalizePlan_canonical demoZones UTC demoSha (mkPlan "plan_1x" "Weekly " true "stop" (p_sources demoSavedPlan) (p_destinations demoSavedPlan) 0 0 0)).
  vm_compute. reflexivity.
Defined.

Lemma SavePlan_atomic_witness :
  stored_text (SavePlan demoZones UTC demoText demoSha demoCall "1x" None "" demoSourcePlan demoService).2 = Some "instance_1".
Proof.
  pose proof (SavePlan_atomic demoZones UTC demoText demoSha demoCall "1x" None "" demoSourcePlan demoService ltac:(split; reflexivity)) as H.
  cbn zeta in H. rewrite demoSaved_eq in H. destruct H as (_ & _ & _ & _ & Hs & Ht & _). rewrite Ht, Hs. reflexivity.
Defined.

Lemma SavePlan_occurrences_witness : ∃ b',
  (SavePlan demoZones UTC demoText demoSha demoCall "1x" None "" demoSourcePlan demoService) = (Ok demoSavedPlan, b') ∧
  ∀ a, a ∈ p_destinations demoSavedPlan → ScheduleActivatedAt a = Some (100 * Day).
Proof.
  exists (SavePlan demoZones UTC demoText demoSha demoCall "1x" None "" demoSourcePlan demoService).2.
  assert (SavePlan demoZones UTC demoText demoSha demoCall "1x" None "" demoSourcePlan demoService =
    (Ok demoSavedPlan, (SavePlan demoZones UTC demoText demoSha demoCall "1x" None "" demoSourcePlan demoService).2)) as E
    by (rewrite <- demoSaved_eq; apply surjective_pairing).
  split; [exact E|]. intros a Ha.
  destruct (SavePlan_occurrences demoZones UTC demoText demoSha demoCall "1x" None "" demoSourcePlan demoService _ _ E a Ha) as [(q & old & Hq & _)|(H & _)];
    [discriminate Hq|exact H].
Defined.

Lemma overlaps_spec_witness : overlaps "/srv//backup/./" "/srv/backup/repo/../db" = true.
Proof. apply (overlaps_spec "/srv//backup/./" "/srv/backup/repo/../db"); [reflexivity..|discriminate|discriminate|left; by exists ["db"]]. Defined.

(** The root overlaps nothing but itself, although everything lies below it. *)
Lemma overlaps_root : overlaps "/" "/srv/backup" = false.
Proof. reflexivity. Qed.
