(* ===== verification/BackupLeases.v ===== *)
(** * internal/backup/leases.go and the runs of service.go

    Who uses a repository: a job through the reservations in [repositoryJobs], or
    readers through [repositoryReads].  Starting a run, a retry or a repository job
    reserves the repositories it works on; the reservations and the running runs
    freeze the configuration (BackupPlans).  Interruption by a restart is repaired
    by [Reconcile].  [net/url] and SHA-256 are parameters of the key of a
    repository. *)

From stdpp Require Import gmap strings list sorting relations.
From Stdlib Require Import Ascii ZArith.
From S2P Require Import Prelude GoStrings GoPath GoTime BackupSchedule BackupEvidence BackupState BackupRetention Store BackupPolicy BackupPlans.
From S2P Require Import JobsResource JobsLocks.
From S2P Require JobsService.

Local Open Scope Z_scope.

(** ** Data *)

Inductive op_error : Type :=
| OpBackup (e : backup_error)
| OpPrune (e : prune_error)
| OpJobs (e : JobsService.jobs_error)
| OpLocks (e : lock_error).

(** What [url.Parse] reports of an address; [address_with] prints it with another host. *)
Record address := mkAddress {
  ad_scheme : string; ad_user : option (string * option string); ad_host : string; ad_hostname : string; ad_port : string;
  ad_path : string; ad_query : string; ad_fragment : string; address_with : string → string }.

Definition pendingCopy (destination : string) : CopyResult := mkCopy destination "pending" "" None "pending" None "pending" "" None "" None None.

Definition with_transfer (c : CopyResult) (st err : string) : CopyResult :=
  mkCopy (c_destination c) st (c_snapshot c) (c_uploaded_at c) (c_verification c) (c_verified_at c) (c_retention c)
    (c_retention_error c) (c_retention_completed_at c) err (c_completed_at c) (c_retention_started_at c).
Definition with_maintenance (c : CopyResult) (st err : string) (started completed : option Time) : CopyResult :=
  mkCopy (c_destination c) (c_state c) (c_snapshot c) (c_uploaded_at c) (c_verification c) (c_verified_at c) st err completed
    (c_error c) (c_completed_at c) started.

(** The evidence that a copy reached its repository. *)
Definition transferEvidence (c : CopyResult) : string * string * option Time * string * option Time :=
  (c_destination c, c_snapshot c, c_uploaded_at c, c_verification c, c_verified_at c).

(** What the start of a job reads from outside: the request, its random token,
    and the outcome of writing the job, of the settings write, and of failing it. *)
Record startEnv := mkStart { st_call : callEnv; st_token : string; st_request : string; st_job : IO; st_finish : IO * IO }.

(** ** Operations *)

Section leases.
Context (zoneinfo : string → option Location) (Local : Location) (state_text : state → string) (digest : string * list Source → string).
Context (sha : string → string) (lower : string → string) (parse_address : string → option address) (fingerprint : review → string).
Context `{!MapRange string (Run * Plan), !MapRange string Plan, !MapRange string Destination, !MapRange string string,
          !MapRange string snapshotClassification, !MapRange Resource string}.

Definition trim_prefix (p s : string) : string := match strip_prefix p s with Some r => r | None => s end.
Definition trim_suffix (p s : string) : string :=
  match strip_prefix (String.rev p) (String.rev s) with Some r => String.rev r | None => s end.

Definition defaultPort (a : address) : bool :=
  (str_eqb (ad_scheme a) "https" && str_eqb (ad_port a) "443") || (str_eqb (ad_scheme a) "sftp" && str_eqb (ad_port a) "22").

(** The host in lower case, without the default port of the scheme. *)
Definition normalHost (a : address) : string :=
  if defaultPort a then
    let host := lower (ad_hostname a) in if contains host ":" then "[" +:+ host +:+ "]" else host
  else lower (ad_host a).

Definition repositoryKey (d : Destination) : string :=
  let addr := trim_suffix "/" (d_repository d) in
  let addr :=
    if str_in (d_kind d) ["s3"; "sftp"] then
      let prefix := if str_eqb (d_kind d) "s3" then "s3:" else "" in
      let addr := trim_prefix prefix addr in
      match parse_address addr with Some a => prefix +:+ address_with a (normalHost a) | None => addr end
    else addr in
  sha (d_kind d +:+ str1 (chr 0) +:+ addr).

Definition keyOf (s : state) (destination : string) : string := repositoryKey (default zeroDestination (Destinations s !! destination)).

(** *** Reservations *)

Definition holder (b : Backup) (key : string) : string := default "" (repositoryJobs b !! key).
Definition readers (b : Backup) (key : string) : Z := default 0 (repositoryReads b !! key).

Fixpoint repositoryResources (b : Backup) (seen : gset string) (copies : list CopyResult) : res backup_error (list Resource) :=
  match copies with
  | [] => Ok []
  | c :: rest =>
    if negb (copyWorkPending c) then repositoryResources b seen rest
    else match Destinations (b_state b) !! c_destination c with
    | None => Err BackupSchedule.ErrNotFound
    | Some d =>
      let key := repositoryKey d in
      if bool_decide (key ∈ seen) then Err (ErrInvalid "selected destinations reference the same repository")
      else if negb (str_empty (holder b key)) || (0 <? readers b key) then Err (ErrBusy "")
      else let? rest := repositoryResources b ({[key]} ∪ seen) rest in Ok (BackupRepositoryResource key :: rest)
    end
  end.

Definition repositoryResourcesLocked (b : Backup) (copies : list CopyResult) : res backup_error (list Resource) := repositoryResources b ∅ copies.

Definition reserveRepositoriesLocked (jobID : string) (copies : list CopyResult) (b : Backup) : Backup :=
  with_holders b (fold_left (λ m c, if copyWorkPending c then <[keyOf (b_state b) (c_destination c) := jobID]> m else m) copies (repositoryJobs b)).

Definition releaseRepositories (jobID : string) (b : Backup) : Backup :=
  with_holders b (filter (λ e, e.2 ≠ jobID) (repositoryJobs b)).

Definition releaseCompletedRepository (jobID destinationID : string) (b : Backup) : res op_error unit * Backup :=
  match Destinations (b_state b) !! destinationID with
  | None => (Ok tt, b)
  | Some d =>
    let completed := repositoryKey d in
    if negb (str_eqb (holder b completed) jobID) then (Ok tt, b)
    else
      let remaining := List.filter (λ e, str_eqb e.2 jobID && negb (str_eqb e.1 completed)) (range_list (repositoryJobs b)) in
      match remaining with
      | [] => (Ok tt, b)
      | _ =>
        match JobsService.ReplaceJobResources (b_jobs b) jobID ((λ e, BackupRepositoryResource e.1) <$> remaining) with
        | (Err e, j) => (Err (OpLocks e), with_job_service b j)
        | (Ok _, j) => (Ok tt, with_holders (with_job_service b j) (delete completed (repositoryJobs b)))
        end
      end
  end.

Definition beginRepositoryRead (cancelled : option string) (id : string) (b : Backup) : res backup_error Destination * Backup :=
  match cancelled, b_init_error b with
  | Some e, _ | None, Some e => (Err (ErrOther e), b)
  | None, None =>
    match Destinations (b_state b) !! id with
    | None => (Err BackupSchedule.ErrNotFound, b)
    | Some d =>
      let key := repositoryKey d in
      if negb (str_empty (holder b key)) then (Err (ErrBusy ""), b)
      else (Ok d, with_reads b (<[key := readers b key + 1]> (repositoryReads b)) (activeRepositoryReads b + 1))
    end
  end.

(** The release function, which runs once. *)
Definition endRepositoryRead (key : string) (b : Backup) : Backup :=
  let n := readers b key - 1 in
  with_reads b (if n =? 0 then delete key (repositoryReads b) else <[key := n]> (repositoryReads b)) (activeRepositoryReads b - 1).

(** *** Runs *)

Definition put_run (b : Backup) (r : Run) (p : Plan) : Backup := with_state b (with_runs (b_state b) (<[run_id r := (r, p)]> (Runs (b_state b)))).

Definition saveRun (env : callEnv) (r : Run) (p : Plan) (b : Backup) : option backup_error * Backup :=
  let b := put_run b r p in
  persistState state_text env (with_state b (recordCheckpointsLocked digest (call_now env) (b_state b) r p)).

(** The copies of the selected enabled assignments, and the ids not met. *)
Definition selectCopy (all : bool) (acc : list CopyResult * gset string) (a : Assignment) : list CopyResult * gset string :=
  if AssignmentEnabled a && (all || bool_decide (DestinationID a ∈ acc.2))
  then (acc.1 ++ [pendingCopy (DestinationID a)], acc.2 ∖ {[DestinationID a]}) else acc.

Definition jobs_failed (env : startEnv) (job : Job) (message : string) (b : Backup) : Backup :=
  with_job_service b (JobsService.FinishFailed (st_finish env).1 (st_finish env).2 (call_now (st_call env)) (b_jobs b) job "backup_state_failed" message).2.

Definition selectionError : backup_error := ErrInvalid "select enabled destinations assigned to this plan".

Definition newRun (now : Time) (id jobID : string) (p : Plan) (copies : list CopyResult) : Run :=
  mkRun id jobID (p_id p) "running" "pending" "capture" None None now (now + p_staging_ttl p * Hour) copies "" (p_name p) false.

Definition StartRun (env : startEnv) (run_token planID : string) (ids : list string) (requestedBy : string) (b : Backup)
    : res op_error (Job * Run) * Backup :=
  match b_init_error b with
  | Some e => (Err (OpBackup (ErrBusy e)), b)
  | None =>
    match Plans (b_state b) !! planID with
    | None => (Err (OpBackup BackupSchedule.ErrNotFound), b)
    | Some p =>
      let '(copies, selected) := fold_left (selectCopy (match ids with [] => true | _ => false end)) (p_destinations p) ([], list_to_set ids) in
      if negb (bool_decide (selected = ∅)) || match copies with [] => true | _ => false end then (Err (OpBackup selectionError), b)
      else match schedulingPauseErrorLocked (guard_of b) with
      | Some e => (Err (OpBackup e), b)
      | None =>
        match repositoryResourcesLocked b copies with
        | Err e => (Err (OpBackup e), b)
        | Ok resources =>
          let now := call_now (st_call env) in
          match JobsService.StartWithResources (st_job env) (st_token env) now (st_request env) (b_jobs b) "" "backup_run" requestedBy (resources ++ [GlobalResource]) with
          | (Err e, j) => (Err (OpJobs e), with_job_service b j)
          | (Ok job, j) =>
            let b := reserveRepositoriesLocked (job_id job) copies (with_job_service b j) in
            let run := newRun now ("run_" +:+ run_token) (job_id job) p copies in
            match persistState state_text (st_call env) (put_run b run p) with
            | (None, b) => (Ok (job, run), b)
            | (Some e, b) =>
              let b := releaseRepositories (job_id job) (with_state b (with_runs (b_state b) (delete (run_id run) (Runs (b_state b))))) in
              (Err (OpBackup e), jobs_failed env job "Could not persist backup run." b)
            end
          end
        end
      end
    end
  end.

(** One copy of a retry: the new copy, and whether it was selected and needs a transfer. *)
Record retryPick := mkPick { pk_copy : CopyResult; pk_selected : bool; pk_transfer : bool }.

Definition retryCopy (s : state) (planID : string) (all : bool) (selected : gset string) (c : CopyResult) : res backup_error retryPick :=
  if (negb (str_eqb (c_state c) "succeeded") || str_eqb (c_retention c) "failed") && (all || bool_decide (c_destination c ∈ selected)) then
    if verifiedCopy c then
      let? _ := currentRetentionLocked s planID (c_destination c) in
      Ok (mkPick (with_maintenance c "pending" (if str_empty (c_retention_error c) then "Retention requires attention." else c_retention_error c) None None) true false)
    else Ok (mkPick (with_transfer c "pending" "") true true)
  else Ok (mkPick c false false).

Fixpoint retryCopies (s : state) (planID : string) (all : bool) (selected : gset string) (copies : list CopyResult)
    : res backup_error (list retryPick * gset string) :=
  match copies with
  | [] => Ok ([], selected)
  | c :: rest =>
    let? k := retryCopy s planID all selected c in
    let? (ks, left_over) := retryCopies s planID all (if pk_selected k then selected ∖ {[c_destination c]} else selected) rest in
    Ok (k :: ks, left_over)
  end.

Definition restarted_run (r : Run) (jobID phase : string) (copies : list CopyResult) : Run :=
  mkRun (run_id r) jobID (run_plan r) "running" (run_capture_state r) phase None (run_captured_at r) (run_created_at r) (run_expires_at r)
    copies "" (run_plan_name r) (run_manifest r).

(** [staged] is whether the manifest is still in the staging directory. *)
Definition StartRetry (env : startEnv) (staged : bool) (runID : string) (ids : list string) (requestedBy : string) (b : Backup)
    : res op_error (Job * Run) * Backup :=
  let now := call_now (st_call env) in
  match b_init_error b with
  | Some e => (Err (OpBackup (ErrOther e)), b)
  | None =>
    match Runs (b_state b) !! runID with
    | None => (Err (OpBackup BackupSchedule.ErrNotFound), b)
    | Some (stored, snapshot) =>
      if str_eqb (run_state stored) "running" then (Err (OpBackup (ErrBusy "")), b)
      else if negb (str_eqb (run_capture_state stored) "succeeded") || negb (is_some (run_captured_at stored)) then (Err (OpBackup ErrExpired), b)
      else match retryCopies (b_state b) (run_plan stored) (match ids with [] => true | _ => false end) (list_to_set ids) (run_copies stored) with
      | Err e => (Err (OpBackup e), b)
      | Ok (ks, left_over) =>
        if negb (existsb pk_selected ks) || negb (bool_decide (left_over = ∅)) then (Err (OpBackup (ErrInvalid "no failed destination selected")), b)
        else if existsb pk_transfer ks && (negb (run_manifest stored) || negb (before now (run_expires_at stored)) || negb staged)
        then (Err (OpBackup ErrExpired), b)
        else
          let copies := pk_copy <$> ks in
          match repositoryResourcesLocked b copies with
          | Err e => (Err (OpBackup e), b)
          | Ok resources =>
            match JobsService.StartWithResources (st_job env) (st_token env) now (st_request env) (b_jobs b) "" "backup_retry" requestedBy resources with
            | (Err e, j) => (Err (OpJobs e), with_job_service b j)
            | (Ok job, j) =>
              let b := reserveRepositoriesLocked (job_id job) copies (with_job_service b j) in
              let run := restarted_run stored (job_id job) (if existsb pk_transfer ks then "upload" else "retention") copies in
              let put r p b := with_state b (with_runs (b_state b) (<[runID := (r, p)]> (Runs (b_state b)))) in
              match persistState state_text (st_call env) (put run snapshot b) with
              | (None, b) => (Ok (job, run), b)
              | (Some e, b) => (Err (OpBackup e), jobs_failed env job "Could not persist retry." (releaseRepositories (job_id job) (put stored snapshot b)))
              end
            end
          end
      end
    end
  end.

Definition repositoryActions : list string :=
  ["backup_destination_test"; "backup_repository_init"; "backup_check"; "backup_restore"; "backup_prune"; "backup_unlock"].

Definition StartRepositoryJob (env : startEnv) (id action requestedBy : string) (prune : list PruneRequest) (b : Backup) : res op_error Job * Backup :=
  match b_init_error b with
  | Some e => (Err (OpBackup (ErrOther e)), b)
  | None =>
    match Destinations (b_state b) !! id with
    | None => (Err (OpBackup BackupSchedule.ErrNotFound), b)
    | Some d =>
      if negb (str_in action repositoryActions) then (Err (OpBackup (ErrInvalid "unsupported repository operation")), b)
      else match (if str_eqb action "backup_prune" then validatePruneAcknowledgement fingerprint d requestedBy prune else Ok tt) with
      | Err e => (Err (OpPrune e), b)
      | Ok _ =>
        let key := repositoryKey d in
        if (0 <? readers b key) || negb (str_empty (holder b key)) then (Err (OpBackup (ErrBusy "")), b)
        else match JobsService.StartWithResources (st_job env) (st_token env) (call_now (st_call env)) (st_request env) (b_jobs b) "" action requestedBy [BackupRepositoryResource key] with
        | (Err e, j) => (Err (OpJobs e), with_job_service b j)
        | (Ok job, j) => (Ok job, with_holders (with_job_service b j) (<[key := job_id job]> (repositoryJobs b)))
        end
      end
    end
  end.

(** *** After a restart *)

Definition interrupted : string := "Operation interrupted by service restart.".

Definition interruptedCopy (now : Time) (c : CopyResult) : CopyResult :=
  let c := if verifiedCopy c && str_in (c_retention c) ["pending"; "running"]
           then with_maintenance c "failed" "Retention interrupted by service restart." (c_retention_started_at c) (Some now) else c in
  if str_in (c_state c) ["running"; "pending"] then with_transfer c "failed" interrupted else c.

Definition interruptedRun (now : Time) (r : Run) : Run :=
  if negb (active_run r) then r
  else mkRun (run_id r) (run_job r) (run_plan r) "failed" (if str_eqb (run_capture_state r) "succeeded" then run_capture_state r else "failed")
    "finished" (Some now) (run_captured_at r) (run_created_at r) (run_expires_at r) (interruptedCopy now <$> run_copies r) interrupted
    (run_plan_name r) (run_manifest r).

(** [recover] is the outcome of the capture's own recovery. *)
Definition ReconcileRuns (env : callEnv) (recover : option string) (b : Backup) : option backup_error * Backup :=
  let b := with_recovery b (default "" recover) in
  match b_init_error b with
  | Some e => (Some (ErrOther e), b)
  | None =>
    match persistState state_text env (with_state b (with_runs (b_state b) ((λ rp, (interruptedRun (call_now env) rp.1, rp.2)) <$> Runs (b_state b)))) with
    | (Some e, b) => (Some e, b)
    | (None, b) => (ErrOther <$> recover, b)
    end
  end.
End leases.

(** ** Lemmas: the frame of the operations *)

Section frame.
Context (state_text : state → string) `{!MapRange string (Run * Plan)}.
Implicit Types (b : Backup) (env : callEnv).

Lemma prune_runs removable now s : Runs (pruneMetadataLocked removable now s) ⊆ Runs s.
Proof using.
  unfold pruneMetadataLocked. cbn [Runs with_runs]. generalize (drop 200 (merge_sort newest_run_le (List.filter (run_expired now) (range_list (Runs s))))).
  intros l. generalize (Runs s). induction l as [|e l IH]; intros m; cbn [fold_left]; [done|]. etrans; [apply IH|].
  unfold dropRun. destruct (_ && _); [done|apply delete_subseteq].
Qed.

(** [b'] differs from [b] only in its job service, in fewer runs and in [holders]. *)
Record frame b b' : Prop := {
  fr_init : b_init_error b' = b_init_error b;
  fr_reads : repositoryReads b' = repositoryReads b;
  fr_active : activeRepositoryReads b' = activeRepositoryReads b;
  fr_plans : Plans (b_state b') = Plans (b_state b);
  fr_destinations : Destinations (b_state b') = Destinations (b_state b) }.

(** Besides, it has the same reservations and at most runs of [runs]. *)
Record kept (runs : gmap string (Run * Plan)) (holders : gmap string string) b b' : Prop := {
  kp_frame : frame b b';
  kp_holders : repositoryJobs b' = holders;
  kp_runs : Runs (b_state b') ⊆ runs }.

Lemma frame_refl b : frame b b.
Proof using. done. Qed.
Lemma frame_trans b1 b2 b3 : frame b1 b2 → frame b2 b3 → frame b1 b3.
Proof using. intros [] []. constructor; congruence. Qed.

Lemma kept_refl b : kept (Runs (b_state b)) (repositoryJobs b) b b.
Proof using. by constructor. Qed.
Lemma kept_service b j : kept (Runs (b_state b)) (repositoryJobs b) b (with_job_service b j).
Proof using. by repeat constructor. Qed.

Lemma persist_kept env b : kept (Runs (b_state b)) (repositoryJobs b) b (persistState state_text env b).2.
Proof using.
  unfold persistState. destruct (b_init_error b) eqn:Ei; [apply kept_refl|].
  destruct (SetAppSetting _ _ _ _ _); (constructor; [by constructor|done|apply prune_runs]).
Qed.
End frame.

Section leases_lemmas.
Context (sha : string → string) (lower : string → string) (parse_address : string → option address).
Implicit Types (b : Backup).

Local Abbreviation key_of := (keyOf sha lower parse_address).

(** The repositories that the pending copies work on. *)
Definition pendingKeys (s : state) (copies : list CopyResult) : list string :=
  (λ c, key_of s (c_destination c)) <$> List.filter copyWorkPending copies.

Lemma repositoryResources_Ok b seen copies rs : repositoryResources sha lower parse_address b seen copies = Ok rs →
  rs = BackupRepositoryResource <$> pendingKeys (b_state b) copies ∧ NoDup (pendingKeys (b_state b) copies) ∧
  Forall (λ key, (key ∉ seen) ∧ holder b key = "" ∧ readers b key <= 0) (pendingKeys (b_state b) copies) ∧
  Forall (λ c, copyWorkPending c = true → is_Some (Destinations (b_state b) !! c_destination c)) copies.
Proof using.
  revert seen rs. induction copies as [|c copies IH]; intros seen rs; cbn [repositoryResources].
  { intros [= <-]. by repeat constructor. }
  unfold pendingKeys. cbn [List.filter]. destruct (copyWorkPending c) eqn:Ep; cbn [negb].
  2:{ intros H. apply IH in H as (? & ? & ? & ?). split_and!; try done. constructor; [by rewrite Ep|done]. }
  destruct (Destinations (b_state b) !! c_destination c) as [d|] eqn:Ed; [|done].
  assert (key_of (b_state b) (c_destination c) = repositoryKey sha lower parse_address d) as Hk by (unfold keyOf; by rewrite Ed).
  set (key := repositoryKey sha lower parse_address d) in *. destruct (bool_decide (key ∈ seen)) eqn:Es; [done|].
  destruct (negb (str_empty (holder b key)) || (0 <? readers b key)) eqn:Eb; [done|]. intros H. res_inv H. subst rs.
  apply IH in E as (-> & Hn & Hf & Hd). fold (pendingKeys (b_state b) copies) in *. apply orb_false_iff in Eb as [Eb1 Eb2]. boolify.
  rewrite fmap_cons, Hk. split_and!; [done|..].
  - apply NoDup_cons. split; [|done]. intros Hin. rewrite Forall_forall in Hf. destruct (Hf key Hin) as [Hout _]. apply Hout. set_solver.
  - constructor; [split_and!; [done|done|by apply Z.ltb_ge]|]. apply (Forall_impl _ _ _ Hf). intros k (Hout & ? & ?). split_and!; [set_solver|done..].
  - constructor; [by rewrite Ed|done].
Qed.

Lemma reserve_lookup jobID copies b key :
  repositoryJobs (reserveRepositoriesLocked sha lower parse_address jobID copies b) !! key =
  if bool_decide (key ∈ pendingKeys (b_state b) copies) then Some jobID else repositoryJobs b !! key.
Proof using.
  unfold reserveRepositoriesLocked, pendingKeys. cbn [repositoryJobs with_holders]. generalize (repositoryJobs b).
  induction copies as [|c copies IH]; intros m; cbn [fold_left List.filter]; [done|].
  rewrite IH. destruct (copyWorkPending c); [|done]. rewrite fmap_cons.
  set (l := _ <$> List.filter _ copies). set (k := key_of (b_state b) (c_destination c)).
  destruct (bool_decide_reflect (key ∈ l)) as [Hin|Hin]; destruct (bool_decide_reflect (key ∈ k :: l)) as [Hin'|Hin'];
    rewrite elem_of_cons in Hin'; destruct (decide (key = k)) as [Hk|Hk];
    rewrite ?Hk, ?lookup_insert_eq, ?lookup_insert_ne by done; tauto.
Qed.

Lemma release_lookup jobID b key : repositoryJobs (releaseRepositories jobID b) !! key =
  match repositoryJobs b !! key with Some j => if bool_decide (j = jobID) then None else Some j | None => None end.
Proof using.
  unfold releaseRepositories. cbn [repositoryJobs with_holders]. rewrite map_lookup_filter. destruct (repositoryJobs b !! key) as [j|]; [|done]. cbn.
  destruct (bool_decide_reflect (j = jobID)); by case_guard.
Qed.

(** Nothing is reserved for the empty job. *)
Definition holders_ok b : Prop := map_Forall (λ _ job, job ≠ "") (repositoryJobs b).

Lemma holder_free b key : holders_ok b → holder b key = "" → repositoryJobs b !! key = None.
Proof using. unfold holder. intros Hok. destruct (repositoryJobs b !! key) as [j|] eqn:E; [|done]. cbn. intros ->. by destruct (Hok _ _ E). Qed.

(** A reservation that is taken back leaves no trace. *)
Lemma reserve_release jobID copies b rs : holders_ok b → repositoryResources sha lower parse_address b ∅ copies = Ok rs →
  (∀ key, repositoryJobs b !! key ≠ Some jobID) →
  ∀ b', repositoryJobs b' = repositoryJobs (reserveRepositoriesLocked sha lower parse_address jobID copies b) →
  repositoryJobs (releaseRepositories jobID b') = repositoryJobs b.
Proof using.
  intros Hok Hr Hfresh b' Hb'. apply repositoryResources_Ok in Hr as (_ & _ & Hf & _). apply map_eq. intros key.
  rewrite release_lookup, Hb', reserve_lookup. destruct (bool_decide_reflect (key ∈ pendingKeys (b_state b) copies)) as [Hin|Hin].
  - rewrite bool_decide_true by done. rewrite Forall_forall in Hf. destruct (Hf key Hin) as (_ & Hh & _). symmetry. by apply holder_free.
  - destruct (repositoryJobs b !! key) as [j|] eqn:E; [|done]. rewrite bool_decide_false; [done|]. intros ->. by apply (Hfresh key).
Qed.

Context (state_text : state → string) `{!MapRange string (Run * Plan), !MapRange Resource string}.

Local Abbreviation reserve := (reserveRepositoriesLocked sha lower parse_address).

(** The end of StartRun and StartRetry: reserve, put the run, write the state. *)
Lemma launch_kept env j jobID copies id rp b :
  let b1 := reserve jobID copies (with_job_service b j) in
  kept (<[id := rp]> (Runs (b_state b))) (repositoryJobs (reserve jobID copies b)) b
    (persistState state_text env (with_state b1 (with_runs (b_state b1) (<[id := rp]> (Runs (b_state b1)))))).2.
Proof using.
  intros b1. pose proof (persist_kept state_text env (with_state b1 (with_runs (b_state b1) (<[id := rp]> (Runs (b_state b1)))))) as [Hf Hh Hr].
  constructor; [|done..]. eapply frame_trans; [|exact Hf]. by constructor.
Qed.

(** Taking the reservations back and failing the job. *)
Lemma rollback_kept env jobID copies rs b b' s' j m : holders_ok b → repositoryResources sha lower parse_address b ∅ copies = Ok rs →
  (∀ key, repositoryJobs b !! key ≠ Some jobID) → kept m (repositoryJobs (reserve jobID copies b)) b b' →
  Plans s' = Plans (b_state b') → Destinations s' = Destinations (b_state b') → Runs s' ⊆ Runs (b_state b) →
  kept (Runs (b_state b)) (repositoryJobs b) b (jobs_failed env j "Could not persist backup run." (releaseRepositories jobID (with_state b' s'))) ∧
  kept (Runs (b_state b)) (repositoryJobs b) b (jobs_failed env j "Could not persist retry." (releaseRepositories jobID (with_state b' s'))).
Proof using.
  intros Hok Hr Hfresh [[] Hh _] Hp Hd Hs. pose proof (reserve_release jobID copies b rs Hok Hr Hfresh (with_state b' s') Hh) as Hb.
  split; (constructor; [constructor; cbn; congruence|exact Hb|exact Hs]).
Qed.

Lemma StartWithResources_id io token now request s stack action by_ requested job s' :
  JobsService.StartWithResources io token now request s stack action by_ requested = (Ok job, s') → job_id job = "job_" +:+ token.
Proof using.
  unfold JobsService.StartWithResources, JobsService.start. destruct (normalizeResources _ _); [|done]. destruct (lockMany _ _ _ _); [|done].
  destruct (CreateJobWithInitialEvent _ _ _ _); [|done]. by intros [= <- _].
Qed.

(** What a started run or retry leaves behind. *)
Record started (b b' : Backup) (job : Job) (r : Run) (p : Plan) (id : string) : Prop := {
  sd_job : run_job r = job_id job;
  sd_free : ∃ rs, repositoryResourcesLocked sha lower parse_address b (run_copies r) = Ok rs;
  sd_work : existsb copyWorkPending (run_copies r) = true;
  sd_kept : kept (<[id := (r, p)]> (Runs (b_state b))) (repositoryJobs (reserve (job_id job) (run_copies r) b)) b b' }.

Lemma selectCopy_pending all l acc : Forall (λ c, copyWorkPending c = true) acc.1 →
  Forall (λ c, copyWorkPending c = true) (fold_left (selectCopy all) l acc).1.
Proof using.
  revert acc. induction l as [|a l IH]; intros acc Hf; [done|]. cbn. apply IH. unfold selectCopy. destruct (_ && _); [|done]. cbn.
  apply Forall_app. by repeat constructor.
Qed.

Lemma StartRun_spec env token planID ids by_ b : holders_ok b → (∀ key, repositoryJobs b !! key ≠ Some ("job_" +:+ st_token env)) →
  match StartRun state_text sha lower parse_address env token planID ids by_ b with
  | (Ok (job, r), b') => ∃ p, Plans (b_state b) !! planID = Some p ∧ started b b' job r p (run_id r) ∧ job_id job = "job_" +:+ st_token env
  | (Err _, b') => kept (Runs (b_state b)) (repositoryJobs b) b b'
  end.
Proof using.
  intros Hok Hfresh. unfold StartRun. pose proof (kept_refl b) as Hk. destruct (b_init_error b); [done|].
  destruct (Plans (b_state b) !! planID) as [p|] eqn:Ep; [|done].
  pose proof (selectCopy_pending (match ids with [] => true | _ => false end) (p_destinations p) ([], list_to_set ids) ltac:(constructor)) as Hp.
  destruct (fold_left _ (p_destinations p) ([], list_to_set ids)) as [copies selected]. cbn [fst] in Hp. destruct (_ || _) eqn:Ec; [done|].
  destruct (schedulingPauseErrorLocked (guard_of b)); [done|]. destruct (repositoryResourcesLocked _ _ _ b copies) as [rs|e] eqn:Er; [|done].
  destruct (JobsService.StartWithResources _ _ _ _ _ _ _ _ _) as [[job|e] j] eqn:Ej; [|apply kept_service].
  apply StartWithResources_id in Ej as Hid. cbn zeta. set (run := newRun _ _ _ _ _).
  pose proof (launch_kept (st_call env) j (job_id job) copies (run_id run) (run, p) b) as Hl. cbn zeta in Hl. unfold put_run.
  destruct (persistState _ _ _) as [[e|] b']; cbn [snd] in Hl.
  - eapply (rollback_kept env (job_id job) copies rs b b' (with_runs (b_state b') _)); try done; [by rewrite Hid|].
    cbn. destruct Hl as [_ _ Hr]. etrans; [by apply delete_mono|]. rewrite delete_insert_eq. apply delete_subseteq.
  - exists p. split; [done|split; [|done]]. constructor; [done|by exists rs| |done]. cbn.
    destruct copies as [|c cs]; [by rewrite orb_true_r in Ec|]. inversion Hp; subst. cbn. by rewrite H1.
Qed.

Lemma retryCopies_spec s planID all selected copies ks left_over : retryCopies s planID all selected copies = Ok (ks, left_over) →
  existsb pk_selected ks = true → existsb copyWorkPending (pk_copy <$> ks) = true.
Proof using.
  revert selected ks left_over. induction copies as [|c copies IH]; intros selected ks left_over; cbn [retryCopies]; [by intros [= <- <-]|].
  intros H. res_inv H. subst ks. cbn [existsb]. rewrite fmap_cons. cbn [existsb].
  intros [Hs|Hs]%orb_true_iff; [|by rewrite (IH _ _ _ E0 Hs), orb_true_r]. apply orb_true_iff; left.
  revert E. unfold retryCopy. destruct (_ && _); [|by intros [= <-]]. destruct (verifiedCopy c) eqn:Ev.
  - intros E. res_inv E. subst. unfold copyWorkPending. apply orb_true_iff; right.
    revert Ev. unfold verifiedCopy, with_maintenance. cbn. by intros ->.
  - by intros [= <-].
Qed.

Lemma StartRetry_spec env staged runID ids by_ b : holders_ok b → (∀ key, repositoryJobs b !! key ≠ Some ("job_" +:+ st_token env)) →
  match StartRetry state_text sha lower parse_address env staged runID ids by_ b with
  | (Ok (job, r), b') => ∃ r0 p, Runs (b_state b) !! runID = Some (r0, p) ∧ started b b' job r p runID ∧ job_id job = "job_" +:+ st_token env
  | (Err _, b') => kept (Runs (b_state b)) (repositoryJobs b) b b'
  end.
Proof using.
  intros Hok Hfresh. unfold StartRetry. pose proof (kept_refl b) as Hk. destruct (b_init_error b); [done|].
  destruct (Runs (b_state b) !! runID) as [[r0 p]|] eqn:Ep; [|done]. destruct (str_eqb (run_state r0) "running"); [done|].
  destruct (_ || _); [done|]. destruct (retryCopies _ _ _ _ _) as [[ks left_over]|e] eqn:Ek; [|done]. destruct (_ || _) eqn:Es; [done|].
  destruct (_ && _); [done|]. set (copies := pk_copy <$> ks). destruct (repositoryResourcesLocked _ _ _ b copies) as [rs|e] eqn:Er; [|done].
  destruct (JobsService.StartWithResources _ _ _ _ _ _ _ _ _) as [[job|e] j] eqn:Ej; [|apply kept_service].
  apply StartWithResources_id in Ej as Hid. cbn zeta. set (run := restarted_run _ _ _ _).
  pose proof (launch_kept (st_call env) j (job_id job) copies runID (run, p) b) as Hl. cbn zeta in Hl.
  destruct (persistState _ _ _) as [[e|] b']; cbn [snd] in Hl.
  - eapply (rollback_kept env (job_id job) copies rs b b' (with_runs (b_state b') _)); try done; [by rewrite Hid|].
    cbn. destruct Hl as [_ _ Hr]. apply map_subseteq_spec. intros id rp. destruct (decide (id = runID)) as [->|Hne].
    + by rewrite lookup_insert_eq, Ep.
    + rewrite lookup_insert_ne by done. intros Hin. eapply lookup_weaken in Hin; [|exact Hr]. by rewrite lookup_insert_ne in Hin.
  - exists r0, p. split; [done|split; [|done]]. constructor; [done|by exists rs| |done]. cbn.
    apply orb_false_iff in Es as [Es _]. by apply (retryCopies_spec _ _ _ _ _ _ _ Ek), negb_false_iff.
Qed.
End leases_lemmas.
