(* ===== verification/BackupDestinations.v ===== *)
(** * internal/backup/service.go, repository.go: destinations and their credentials

    What an acceptable destination is, where its credentials are written, and
    [SaveDestination].  [net/url], the symbolic links of the file system and
    [encoding/json] are parameters. *)

From stdpp Require Import gmap strings list sorting.
From Stdlib Require Import Ascii ZArith.
From S2P Require Import Prelude GoStrings GoPath GoTime BackupSchedule BackupEvidence BackupState BackupRetention Store BackupPolicy BackupPlans BackupLeases.
From S2P Require JobsService.

Local Open Scope Z_scope.

(** ** Data *)

Record Secrets := mkSecrets {
  Password : string; AccessKeyID : string; SecretAccessKey : string; SessionToken : string;
  SSHPrivateKey : string; SSHKnownHosts : string; RcloneConfig : string }.

Record DestinationInput := mkInput {
  di_name : string; di_kind : string; di_repository : string; di_filesystem : string; di_region : string; di_secrets : option Secrets;
  di_check : Schedule; di_read_data : string; di_prune : Schedule }.

(** The private directory of each destination: its files and their contents. *)
Abbreviation credentials := (gmap string (gmap string string)).

(** The backup service with the credentials on disk. *)
Record vault := mkVault { v_backup : Backup; v_files : credentials }.

(** The outcome of resolving the symbolic links of a path; [None]: it does not exist. *)
Definition links := string → option (res string string).

Definition manual_default (s : Schedule) : Schedule :=
  if str_empty (Frequency s) then mkSchedule "manual" (ScheduleTime s) (Weekday s) (Timezone s) (IntervalHours s) else s.

Definition normalizeDestinationInput (i : DestinationInput) : DestinationInput :=
  mkInput (di_name i) (di_kind i) (di_repository i) (di_filesystem i) (di_region i) (di_secrets i) (manual_default (di_check i))
    (if str_empty (di_read_data i) then "metadata" else di_read_data i) (manual_default (di_prune i)).

(** [strings.ContainsAny] with NUL and line ends. *)
Definition line_or_nul (c : ascii) : bool := (byte_of c =? 0) || (byte_of c =? 10) || (byte_of c =? 13).
Definition multi_line (s : string) : bool := negb (all_chars (λ c, negb (line_or_nul c)) s).

Definition one_of (cs : list Z) (c : ascii) : bool := bool_decide (byte_of c ∈ cs).

(** The pattern [^[A-Za-z0-9_.-]+$]. *)
Definition username (s : string) : bool := negb (str_empty s) && all_chars (λ c, alnum c || one_of [95; 46; 45] c) s.

(** The pattern [^rclone:[A-Za-z0-9_-]+:[^\r\n]+$]. *)
Fixpoint cut_colon (s : string) : option (string * string) :=
  match s with
  | EmptyString => None
  | String c r => if Ascii.eqb c ":" then Some ("", r) else match cut_colon r with Some (x, y) => Some (String c x, y) | None => None end
  end.
Definition rclonePattern (s : string) : bool :=
  match strip_prefix "rclone:" s with
  | None => false
  | Some rest =>
    match cut_colon rest with
    | None => false
    | Some (remote, path) =>
      negb (str_empty remote) && all_chars (λ c, alnum c || one_of [95; 45] c) remote && negb (str_empty path) && all_chars (λ c, negb (one_of [10; 13] c)) path
    end
  end.

Section destinations.
Context (zoneinfo : string → option Location) (Local : Location) (state_text : state → string) (fingerprint : review → string).
Context (sha : string → string) (lower : string → string) (parse_address : string → option address).
Context (secrets_text : Secrets → string) (parse_secrets : string → option Secrets) (directory : string).
Context `{!MapRange string (Run * Plan), !MapRange string Destination}.

Definition validateS3 (repository : string) : res backup_error unit :=
  let? _ := guard_err (negb (has_prefix repository "s3:https://")) (ErrInvalid "S3 repository must use s3:https://endpoint/bucket/prefix") in
  guard_err (match parse_address (trim_prefix "s3:" repository) with
             | None => true
             | Some u => is_some (ad_user u) || str_empty (ad_host u) || str_empty (trim_slashes (ad_path u)) || negb (str_empty (ad_query u)) || negb (str_empty (ad_fragment u))
             end) (ErrInvalid "S3 repository must not contain credentials, query strings, or fragments").

Definition validateSFTP (repository : string) : res backup_error unit :=
  let malformed := ErrInvalid "SFTP repository must use sftp://user@host//absolute/path (or /home-relative/path)" in
  if negb (has_prefix repository "sftp://") then Err malformed
  else match parse_address (trim_prefix "sftp:" repository) with
  | None => Err malformed
  | Some u =>
    match ad_user u with
    | None => Err malformed
    | Some (name, password) =>
      let? _ := guard_err (negb (str_empty (ad_scheme u)) || str_empty (ad_hostname u) || str_empty name || str_empty (ad_path u)) malformed in
      guard_err (is_some password || negb (str_empty (ad_query u)) || negb (str_empty (ad_fragment u)) || has_prefix (ad_hostname u) "-" || negb (username name))
        (ErrInvalid "unsupported SFTP address")
    end
  end.

Definition validateLocal (i : DestinationInput) : res backup_error unit :=
  let? _ := guard_err (negb (is_abs (di_repository i)) || str_eqb (Clean (di_repository i)) "/") (ErrInvalid "local repository requires an absolute directory") in
  guard_err (str_empty (trim_space (di_filesystem i))) (ErrInvalid "expected_filesystem is required for local destinations").

Definition validateDestination (i : DestinationInput) : res backup_error unit :=
  let? _ := validateSchedule zoneinfo Local (di_check i) in
  let? _ := validateSchedule zoneinfo Local (di_prune i) in
  let? _ := guard_err (negb (str_in (di_read_data i) [""; "metadata"; "all"; "subset"])) (ErrInvalid "check_read_data must be metadata, all, or subset") in
  let? _ := guard_err (str_empty (trim_space (di_name i)) || (200 <? slen (di_name i))) (ErrInvalid "destination name is required (max 200 characters)") in
  let? _ := guard_err (str_empty (di_repository i) || multi_line (di_repository i)) (ErrInvalid "repository is required") in
  if str_eqb (di_kind i) "local" then validateLocal i
  else if str_eqb (di_kind i) "s3" then validateS3 (di_repository i)
  else if str_eqb (di_kind i) "sftp" then validateSFTP (di_repository i)
  else if str_eqb (di_kind i) "rclone" then guard_err (negb (rclonePattern (di_repository i))) (ErrInvalid "rclone repository must use rclone:remote:path")
  else Err (ErrInvalid "unsupported destination kind").

(** *** Credentials *)

Definition readSecrets (files : credentials) (id : string) : res backup_error Secrets :=
  match files !! id ≫= (.!! "credentials.json") with
  | None => Err (ErrOther "repository credentials unavailable")
  | Some text => match parse_secrets text with None => Err (ErrOther "repository credentials invalid") | Some s => Ok s end
  end.

Definition secretFiles (s : Secrets) : list (string * string) :=
  [("password", Password s); ("ssh_key", SSHPrivateKey s); ("known_hosts", SSHKnownHosts s); ("rclone.conf", RcloneConfig s);
   ("credentials.json", secrets_text s)].

Fixpoint writeFiles (fails : string → option string) (l : list (string * string)) (dir : gmap string string) : option backup_error * gmap string string :=
  match l with
  | [] => (None, dir)
  | (name, value) :: rest =>
    match fails name with
    | Some message => (Some (ErrOther message), dir)
    | None => writeFiles fails rest (<[name := value]> dir)
    end
  end.

(** [fails] by file; [mkdir] is the outcome of making the directory private. *)
Definition writeSecrets (mkdir : IO) (fails : string → option string) (id : string) (s : Secrets) (files : credentials) : option backup_error * credentials :=
  if str_empty (Password s) || multi_line (Password s) then (Some (ErrInvalid "repository password must be nonempty and single-line"), files)
  else match mkdir with
  | Some message => (Some (ErrOther message), files)
  | None => let '(e, dir) := writeFiles fails (secretFiles s) (default ∅ (files !! id)) in (e, <[id := dir]> files)
  end.

(** *** Saving a destination *)

Definition canonicalRepository (eval : links) (i : DestinationInput) : res backup_error DestinationInput :=
  if negb (str_eqb (di_kind i) "local") then Ok i
  else
    let? path :=
      match eval (di_repository i) with
      | Some (Ok path) => Ok path
      | Some (Err _) => Err (ErrInvalid "local repository is inaccessible")
      | None =>
        match eval (Dir (di_repository i)) with
        | Some (Ok parent) => Ok (Clean (parent +:+ "/" +:+ Base (di_repository i)))
        | _ => Err (ErrInvalid "repository parent must exist")
        end
      end in
    Ok (mkInput (di_name i) (di_kind i) path (di_filesystem i) (di_region i) (di_secrets i) (di_check i) (di_read_data i) (di_prune i)).

(** The key of the repository that an input names. *)
Definition inputKey (i : DestinationInput) : string :=
  repositoryKey sha lower parse_address
    (mkDestination "" "" (di_kind i) (di_repository i) zeroEvidence zeroEvidence None "" None "" "" "" None "" "" ""
       (mkSchedule "" "" 0 "" 0) (mkSchedule "" "" 0 "" 0) "" None None None "" "" "" "" None None None "" "" false).

Definition configureDestination (now : Time) (id : string) (i : DestinationInput) (previous : option Destination) : Destination :=
  let old := default zeroDestination previous in
  let d := normalizeCheckEvidence fingerprint old in
  let untested := negb (is_some previous) || is_some (di_secrets i) in
  let due schedule last s := if bool_decide (schedule = s) then last else latestDue zoneinfo Local s now in
  mkDestination id (trim_space (di_name i)) (di_kind i) (di_repository i) (MetadataCheck d) (DataCheck d) (CheckHolds d) (MaintenanceReviewToken d)
    (LastCheckAttemptAt d) (LastCheckAttemptPolicy d) (LastCheckAttemptStatus d) (LastCheckAttemptError d) (LastCheckAt d) (LastCheckPolicy d)
    (CheckStatus d) (CheckError d) (di_check i) (di_prune i) (di_read_data i)
    (due (CheckSchedule old) (LastCheckScheduledAt d) (di_check i)) (due (PruneSchedule old) (LastPruneScheduledAt d) (di_prune i))
    (LastRestoreTestAt d) (LastRestoreTestSnapshotID d) (if untested then "untested" else d_status d) (if untested then "" else d_error d)
    (InventoryError d) (LastInventoryAt d) (LastInventoryAttemptAt d) (LastSuccessAt d) (di_filesystem i) (di_region i) true.

(** The credentials that a destination of this kind cannot do without. *)
Definition missingCredentials (kind : string) (s : Secrets) : option backup_error :=
  if str_eqb kind "s3" && (str_empty (AccessKeyID s) || str_empty (SecretAccessKey s)) then Some (ErrInvalid "S3 access key and secret are required")
  else if str_eqb kind "sftp" && (str_empty (SSHPrivateKey s) || str_empty (SSHKnownHosts s)) then Some (ErrInvalid "SSH private key and pinned known_hosts are required")
  else if str_eqb kind "rclone" && str_empty (RcloneConfig s) then Some (ErrInvalid "authorized rclone configuration is required")
  else None.

Definition storeSecrets (mkdir : IO) (fails : string → option string) (id : string) (exists_ : bool) (i : DestinationInput) (files : credentials)
    : option backup_error * credentials :=
  match di_secrets i with
  | None => (None, files)
  | Some secret =>
    match (if exists_ && str_empty (Password secret) then readSecrets files id else Ok secret) with
    | Err e => (Some e, files)
    | Ok old =>
      let secret := mkSecrets (Password old) (AccessKeyID secret) (SecretAccessKey secret) (SessionToken secret) (SSHPrivateKey secret) (SSHKnownHosts secret) (RcloneConfig secret) in
      match missingCredentials (di_kind i) secret with
      | Some e => (Some e, files)
      | None => writeSecrets mkdir fails id secret files
      end
    end
  end.

Record saveEnv := mkSave { sv_call : callEnv; sv_token : string; sv_links : links; sv_mkdir : IO; sv_write : string → option string }.

(** The checks under the mutex, before anything is written. *)
Definition admitDestination (id : string) (i : DestinationInput) (b : Backup) : res backup_error unit :=
  match b_init_error b with
  | Some message => Err (ErrOther message)
  | None =>
    let previous := Destinations (b_state b) !! id in
    let? _ := guard_err (configurationBusyLocked b) configurationBusyError in
    let? _ := guard_err (existsb (λ e, negb (str_eqb e.1 id) && str_eqb (repositoryKey sha lower parse_address e.2) (inputKey i)) (range_list (Destinations (b_state b))))
                (ErrInvalid "this repository already has a destination") in
    let? _ := guard_err (negb (str_empty id) && negb (is_some previous)) BackupSchedule.ErrNotFound in
    let? _ := guard_err (match previous with Some d => negb (str_eqb (d_kind d) (di_kind i)) || negb (str_eqb (d_repository d) (di_repository i)) | None => false end)
                (ErrInvalid "repository kind and location are immutable; create a new destination") in
    let? _ := guard_err (negb (is_some (di_secrets i)) && negb (is_some previous)) (ErrInvalid "credentials and repository password are required") in
    guard_err (str_eqb (di_kind i) "local" && overlaps (Clean (di_repository i)) directory) (ErrInvalid "repositories cannot overlap private backup state")
  end.

Definition SaveDestination (env : saveEnv) (id : string) (i : DestinationInput) (v : vault) : res backup_error Destination * vault :=
  let i := normalizeDestinationInput i in
  match (let? _ := validateDestination i in canonicalRepository (sv_links env) i) with
  | Err e => (Err e, v)
  | Ok i =>
    let b := v_backup v in
    match admitDestination id i b with
    | Err e => (Err e, v)
    | Ok _ =>
      let previous := Destinations (b_state b) !! id in
      let id := if str_empty id then "dst_" +:+ sv_token env else id in
      let d := configureDestination (call_now (sv_call env)) id i previous in
      match storeSecrets (sv_mkdir env) (sv_write env) id (is_some previous) i (v_files v) with
      | (Some e, files) => (Err e, mkVault b files)
      | (None, files) =>
        match persistState state_text (sv_call env) (with_state b (with_destination_map (b_state b) (<[id := d]> (Destinations (b_state b))))) with
        | (None, b) => (Ok d, mkVault b files)
        | (Some e, b) =>
          let m := match previous with Some q => <[id := q]> (Destinations (b_state b)) | None => delete id (Destinations (b_state b)) end in
          (Err e, mkVault (with_state b (with_destination_map (b_state b) m)) files)
        end
      end
    end
  end.
End destinations.

(** ** Properties *)

Section destination_properties.
Context (zoneinfo : string → option Location) (Local : Location) (state_text : state → string) (fingerprint : review → string).
Context (sha : string → string) (lower : string → string) (parse_address : string → option address).
Context (secrets_text : Secrets → string) (parse_secrets : string → option Secrets) (directory : string).
Context `{!MapRange string (Run * Plan), !MapRange string Destination}.

Local Abbreviation key := (repositoryKey sha lower parse_address).

(** No two destinations share a repository. *)
Definition unique_repositories (m : gmap string Destination) : Prop :=
  ∀ id1 id2 d1 d2, m !! id1 = Some d1 → m !! id2 = Some d2 → key d1 = key d2 → id1 = id2.

Lemma key_identity d d' : d_kind d = d_kind d' → d_repository d = d_repository d' → key d = key d'.
Proof using. intros Hk Hr. unfold repositoryKey. by rewrite Hk, Hr. Qed.

Lemma admit_Ok id i b : admitDestination sha lower parse_address directory id i b = Ok tt →
  b_init_error b = None ∧ configurationBusyLocked b = false ∧
  (∀ id' d, Destinations (b_state b) !! id' = Some d → key d = inputKey sha lower parse_address i → id' = id) ∧
  (id = "" ∨ is_Some (Destinations (b_state b) !! id)) ∧
  (∀ d, Destinations (b_state b) !! id = Some d → d_kind d = di_kind i ∧ d_repository d = di_repository i) ∧
  (Destinations (b_state b) !! id = None → is_Some (di_secrets i)).
Proof using.
  unfold admitDestination. destruct (b_init_error b); [done|]. cbn zeta. intros H. res_inv H.
  repeat match goal with E : guard_err _ _ = Ok _ |- _ => apply guard_err_Ok in E end. split_and!; try done.
  - intros id' d Hl Hk. pose proof (proj1 (existsb_false_iff _ _) E0 (id', d) (proj2 (range_list_elem _ _ _) Hl)) as Hf. cbn in Hf.
    rewrite Hk in Hf. unfold str_eqb in Hf. rewrite (bool_decide_true (inputKey _ _ _ i = _)), andb_true_r in Hf by done.
    by apply negb_false_iff, bool_decide_eq_true in Hf.
  - apply andb_false_iff in E1 as [E1|E1]; apply negb_false_iff in E1; [left; by boolify|right]. by destruct (Destinations (b_state b) !! id).
  - intros d Hl. rewrite Hl in E2. apply orb_false_iff in E2 as [E21 E22]. by boolify.
  - intros Hn. rewrite Hn, andb_true_r in E3. apply negb_false_iff in E3. by destruct (di_secrets i).
Qed.

Lemma writeFiles_Ok fails l dir dir' : writeFiles fails l dir = (None, dir') → ∀ name value, last (List.filter (λ e, str_eqb e.1 name) l) = Some (name, value) → dir' !! name = Some value.
Proof using.
  revert dir. induction l as [|[n v] l IH]; intros dir; cbn; [done|]. destruct (fails n); [done|]. intros Hw name value. destruct (str_eqb n name) eqn:E; [|by eapply IH].
  destruct (List.filter _ l) as [|e l'] eqn:El; [|rewrite last_cons_cons, <- El; by eapply IH]. cbn. intros [= -> ->]. clear IH E.
  assert (∀ dir, dir !! name = Some value → Forall (λ e, e.1 ≠ name) l → ∀ dir', writeFiles fails l dir = (None, dir') → dir' !! name = Some value) as Hk.
  { clear. induction l as [|[n v] l IH]; cbn; [by intros ?? _ ? [= <-]|]. intros dir Hd [Hn Hf]%Forall_cons dir'. destruct (fails n); [done|].
    apply IH; [|done]. by rewrite lookup_insert_ne. }
  eapply Hk; [|..|exact Hw]; [by rewrite lookup_insert_eq|]. apply Forall_forall. intros e He Hn. assert (In e (List.filter (λ e, str_eqb e.1 name) l)) as Hin; [|by rewrite El in Hin].
  apply List.filter_In. rewrite <- list_elem_of_In. split; [done|]. by apply bool_decide_eq_true.
Qed.

(** The stored credentials: complete for the kind, with a usable password. *)
Record stored_secrets (kind : string) (s : Secrets) (dir : gmap string string) : Prop := {
  ss_files : dir !! "password" = Some (Password s) ∧ dir !! "ssh_key" = Some (SSHPrivateKey s) ∧ dir !! "known_hosts" = Some (SSHKnownHosts s) ∧
             dir !! "rclone.conf" = Some (RcloneConfig s) ∧ dir !! "credentials.json" = Some (secrets_text s);
  ss_password : Password s ≠ "" ∧ multi_line (Password s) = false;
  ss_complete : missingCredentials kind s = None }.

Lemma storeSecrets_spec mkdir fails id exists_ i files : let r := storeSecrets secrets_text parse_secrets mkdir fails id exists_ i files in
  (∀ id', id' ≠ id → r.2 !! id' = files !! id') ∧
  (r.1 = None → match di_secrets i with
                | None => r.2 = files
                | Some given => ∃ s dir, r.2 !! id = Some dir ∧ stored_secrets (di_kind i) s dir ∧ (Password given ≠ "" → s = given)
                end).
Proof using.
  cbn zeta. unfold storeSecrets. destruct (di_secrets i) as [given|]; [|done]. destruct (if exists_ && _ then _ else _) as [old|e] eqn:Eo; [|done]. cbn zeta.
  set (s := mkSecrets _ _ _ _ _ _ _). destruct (missingCredentials (di_kind i) s) eqn:Em; [done|]. unfold writeSecrets. destruct (_ || _) eqn:Ep; [done|].
  destruct mkdir; [done|]. destruct (writeFiles _ _ _) as [e dir] eqn:Ew. cbn [fst snd].
  split; [intros id' Hne; by apply lookup_insert_ne|].
  intros ->. exists s, dir. rewrite lookup_insert_eq. split_and!; [done|..].
  - apply orb_false_iff in Ep as [Ep1 Ep2]. boolify. constructor; [|done|done]. split_and!; by eapply (writeFiles_Ok _ _ _ _ Ew).
  - intros Hp. unfold s. assert (old = given) as ->; [|by destruct given]. destruct (exists_ && str_empty (Password given)) eqn:Ee; [|by injection Eo].
    apply andb_true_iff in Ee as [_ Ee]. by boolify.
Qed.

Local Abbreviation save := (SaveDestination zoneinfo Local state_text fingerprint sha lower parse_address secrets_text parse_secrets directory).

Lemma canonicalRepository_spec eval i i' : canonicalRepository eval i = Ok i' → di_kind i' = di_kind i ∧ di_secrets i' = di_secrets i ∧ di_name i' = di_name i.
Proof using.
  unfold canonicalRepository. destruct (negb _); [by intros [= <-]|]. intros H. res_inv H. by subst i'.
Qed.

(** What an accepted destination is: the input as it was admitted, on the evidence
    that was there before. *)
Record saved (env : saveEnv) (id : string) (i : DestinationInput) (v v' : vault) (d : Destination) : Prop := {
  sv_input : ∃ i', canonicalRepository (sv_links env) (normalizeDestinationInput i) = Ok i' ∧
    validateDestination zoneinfo Local parse_address (normalizeDestinationInput i) = Ok tt ∧
    admitDestination sha lower parse_address directory id i' (v_backup v) = Ok tt ∧
    d = configureDestination zoneinfo Local fingerprint (call_now (sv_call env)) (d_id d) i' (Destinations (b_state (v_backup v)) !! id);
  sv_id : d_id d = if str_empty id then "dst_" +:+ sv_token env else id;
  sv_state : b_state (v_backup v') = with_destination_map (b_state (pruned (sv_call env) (v_backup v))) (<[d_id d := d]> (Destinations (b_state (v_backup v))));
  sv_text : stored_text (v_backup v') = Some (state_text (b_state (v_backup v')));
  sv_busy : configurationBusyLocked (v_backup v) = false }.

Definition fresh_token (env : saveEnv) (m : gmap string Destination) : Prop := m !! ("dst_" +:+ sv_token env) = None ∧ m !! "" = None.

Lemma with_destination_same st : with_destination_map st (Destinations st) = st.
Proof using. by destruct st. Qed.

Lemma save_cases env id i v : fresh_token env (Destinations (b_state (v_backup v))) →
  match save env id i v with
  | (Ok d, v') => saved env id i v v' d
  | (Err _, v') => v_backup v' = v_backup v ∨ v_backup v' = pruned (sv_call env) (v_backup v)
  end.
Proof using.
  intros [Hfresh Hempty]. unfold SaveDestination. cbn zeta. set (n := normalizeDestinationInput i).
  destruct (let? _ := validateDestination _ _ _ n in _) as [i'|e] eqn:Ei; [|by left]. res_inv Ei. destruct a.
  destruct (admitDestination _ _ _ _ id i' _) as [[]|e] eqn:Ea; [|by left]. destruct (admit_Ok _ _ _ Ea) as (_ & Hb & _ & Hid & _ & _).
  set (old := Destinations (b_state (v_backup v)) !! id) in *. set (id' := if str_empty id then _ else _).
  destruct (storeSecrets _ _ _ _ _ _ _ _) as [[e|] files]; [by left|]. set (d := configureDestination _ _ _ _ _ _ _).
  assert (d_id d = id') as Hd by done. rewrite <- Hd. set (m := <[d_id d := d]> _).
  pose proof (persistState_spec state_text (sv_call env) (with_state (v_backup v) (with_destination_map (b_state (v_backup v)) m))) as Hp.
  destruct (persistState _ _ _) as [[e|] b'].
  - assert (match old with Some q => <[d_id d := q]> m | None => delete (d_id d) m end = Destinations (b_state (v_backup v))) as Hm.
    { unfold m. rewrite Hd. unfold id', old in *. destruct (str_empty id) eqn:Ee.
      - boolify. subst id. rewrite Hempty. by rewrite delete_insert_id.
      - destruct Hid as [->|[q Hq]]; [done|]. rewrite Hq, insert_insert_eq. by apply insert_id. }
    destruct Hp as [[_ ->]|[_ ->]]; [left|right]; cbn [v_backup b_state with_state pruned pruneMetadataLocked Destinations with_runs with_destination_map]; rewrite Hm;
      destruct v as [b files0]; destruct b as [st ????????]; destruct st; done.
  - destruct Hp as (_ & Hs & Ht & _). constructor; cbn [v_backup]; [|done|by rewrite Hs|done|done]. exists i'. by split_and!.
Qed.

(** saving a destination: an accepted one was valid and admitted while nothing
    used the configuration, it keeps the repository it had before, its kind has the
    credentials it needs on disk when new ones were given, the state is stored with
    exactly this destination changed, and the credentials of every other destination
    are untouched; a refused or failed one leaves the service as it was up to the
    pruning of old run summaries. *)
Theorem SaveDestination_sound env id i v : fresh_token env (Destinations (b_state (v_backup v))) →
  let r := save env id i v in
  (∀ id', id' ≠ (if str_empty id then "dst_" +:+ sv_token env else id) → v_files r.2 !! id' = v_files v !! id') ∧
  match r.1 with
  | Err _ => v_backup r.2 = v_backup v ∨ v_backup r.2 = pruned (sv_call env) (v_backup v)
  | Ok d => saved env id i v r.2 d ∧
    (∀ q, Destinations (b_state (v_backup v)) !! id = Some q → d_kind d = d_kind q ∧ d_repository d = d_repository q) ∧
    match di_secrets i with
    | None => v_files r.2 = v_files v
    | Some given => ∃ s dir, v_files r.2 !! d_id d = Some dir ∧ stored_secrets (d_kind d) s dir ∧ (Password given ≠ "" → s = given)
    end
  end.
Proof using.
  intros Hf. pose proof (save_cases env id i v Hf) as Hc. cbn zeta. revert Hc. unfold SaveDestination. cbn zeta.
  destruct (let? _ := validateDestination _ _ _ _ in _) as [i'|e] eqn:Ei; [|done]. res_inv Ei.
  destruct (admitDestination _ _ _ _ id i' _) as [[]|e] eqn:Ea; [|done]. destruct (admit_Ok _ _ _ Ea) as (_ & _ & _ & _ & Hsame & _).
  destruct (canonicalRepository_spec _ _ _ Ei) as (_ & Hsec & _). cbn in Hsec.
  set (id' := if str_empty id then _ else _). set (old := Destinations (b_state (v_backup v)) !! id) in *.
  pose proof (storeSecrets_spec (sv_mkdir env) (sv_write env) id' (is_some old) i' (v_files v)) as [Ho Hs]. cbn zeta in Ho, Hs.
  destruct (storeSecrets _ _ _ _ _ _ _ _) as [[e|] files]; cbn [fst snd] in Ho, Hs; [done|].
  destruct (persistState _ _ _) as [[e|] b']; cbn [fst snd v_files]; [done|]. intros Hc. split; [done|]. split; [done|split].
  - intros q Hq. destruct (Hsame q Hq). by split.
  - specialize (Hs eq_refl). by rewrite Hsec in Hs.
Qed.

(** Saving a destination, accepted or not, keeps the repositories distinct. *)
Lemma SaveDestination_unique env id i v : fresh_token env (Destinations (b_state (v_backup v))) →
  unique_repositories (Destinations (b_state (v_backup v))) → unique_repositories (Destinations (b_state (v_backup (save env id i v).2))).
Proof using.
  intros Hf Hu. pose proof (save_cases env id i v Hf) as Hc. destruct (save env id i v) as [[d|e] v']; cbn [snd].
  2:{ destruct Hc as [->| ->]; done. }
  destruct Hc as [(i' & Hi & _ & Ha & Hd) Hid Hs _ _]. destruct (admit_Ok _ _ _ Ha) as (_ & _ & Hdup & Hex & _ & _).
  assert (key d = inputKey sha lower parse_address i') as Hk by (rewrite Hd; by apply key_identity). rewrite Hs. cbn [Destinations with_destination_map].
  assert (∀ id', id' ≠ d_id d → ∀ d', Destinations (b_state (v_backup v)) !! id' = Some d' → key d' ≠ key d) as Hother.
  { intros id' Hne d' Hl E. rewrite Hk in E. pose proof (Hdup id' d' Hl E) as ->. rewrite Hid in Hne. destruct (str_empty id) eqn:Ee; [|done].
    boolify. destruct Hf as [_ Hn]. by rewrite Ee, Hn in Hl. }
  intros id1 id2 d1 d2 [[<- <-]|[N1 H1]]%lookup_insert_Some [[<- <-]|[N2 H2]]%lookup_insert_Some E; [done|..].
  - by destruct (Hother id2 (not_eq_sym N2) d2 H2).
  - by destruct (Hother id1 (not_eq_sym N1) d1 H1).
  - by eapply Hu.
Qed.
End destination_properties.

(** ** Concrete runs *)

#[local] Instance demoRunRange : MapRange string (Run * Plan) := default_range _ _.
#[local] Instance demoDestinationRange : MapRange string Destination := default_range _ _.

Definition demoParse (s : string) : option address :=
  Some (mkAddress "https" None "example.org" "example.org" "" "/second" "" "" (λ host, "https://" +:+ host +:+ "/second")).
Definition demoSecrets : Secrets := mkSecrets "correct horse" "key" "secret" "" "" "" "".
Definition demoSecretsText (s : Secrets) : string := Password s.
Definition demoInput : DestinationInput :=
  mkInput " Second " "s3" "s3:https://example.org/second" "" "" (Some demoSecrets) (mkSchedule "" "" 0 "" 0) "" (mkSchedule "" "" 0 "" 0).
Definition demoSaveEnv : saveEnv := mkSave demoCall "2" (λ _, None) None (λ _, None).
Definition demoKeyAddress (s : string) : option address := if has_prefix s "https://example.org/second" then demoParse s else None.
Definition demoSaved : res backup_error Destination * vault :=
  SaveDestination demoZones UTC demoText review_destination id id demoKeyAddress demoSecretsText (λ _, None) "/var/lib/stacklab/backup"
    demoSaveEnv "" demoInput (mkVault demoService ∅).

Lemma demoSaved_ok : ∃ d, demoSaved = (Ok d, demoSaved.2) ∧ d_id d = "dst_2" ∧ Destinations (b_state demoService) !! "dst_1" = Some demoDestination.
Proof. destruct demoSaved as [[d|e] v] eqn:E; vm_compute in E; [|discriminate E]. injection E as <- <-. eexists. split_and!; reflexivity. Qed.

Lemma demoSave_fresh : fresh_token demoSaveEnv (Destinations (b_state (v_backup (mkVault demoService ∅)))).
Proof. split; reflexivity. Qed.

Lemma SaveDestination_sound_witness : ∃ dir, v_files demoSaved.2 !! "dst_2" = Some dir ∧ dir !! "password" = Some "correct horse".
Proof.
  destruct demoSaved_ok as (d & E & Hid & _).
  pose proof (SaveDestination_sound demoZones UTC demoText review_destination id id demoKeyAddress demoSecretsText (λ _, None) "/var/lib/stacklab/backup"
    demoSaveEnv "" demoInput (mkVault demoService ∅) demoSave_fresh) as [_ H]. fold demoSaved in H. rewrite E in H. cbn [fst] in H.
  destruct H as (_ & _ & s & dir & Hdir & [(Hp & _) _ _] & Hs). rewrite Hid in Hdir. exists dir. split; [exact Hdir|]. rewrite Hp, Hs; done.
Defined.

Lemma demoService_unique : unique_repositories id id demoKeyAddress (Destinations (b_state demoService)).
Proof.
  intros id1 id2 d1 d2 H1 H2 _. cbn in H1, H2. apply lookup_singleton_Some in H1 as [<- _]. apply lookup_singleton_Some in H2 as [<- _]. reflexivity.
Qed.
