(* ===== verification/BackupSystem.v ===== *)
(** * The backup service under concurrent use

    The operations of BackupLeases and BackupPlans as the atomic steps they are
    under the service's mutex, interleaved with the workers that run the jobs,
    with readers and with the rest of the service.  The ghost part of the state says
    which jobs have a live worker, the destinations each still works on, and the
    repositories being read. *)

From stdpp Require Import gmap strings list relations.
From Stdlib Require Import ZArith.
From S2P Require Import Prelude GoStrings GoPath GoTime BackupSchedule BackupEvidence BackupState BackupRetention Store BackupPolicy BackupPlans.
From S2P Require Import JobsResource JobsLocks.
From S2P Require JobsService.
From S2P Require Import BackupLeases BackupDestinations.

Local Open Scope Z_scope.

(** ** The system *)

Record system := mkSys { sy_backup : Backup; sy_workers : gmap string (gset string); sy_readers : list string }.

(** What identifies the repository of every destination. *)
Definition repositories (s : state) : gmap string (string * string) := (λ d, (d_kind d, d_repository d)) <$> Destinations s.

(** The configuration: all of it but the occurrences that were scheduled. *)
Definition unscheduled (p : Plan) : Plan :=
  mkPlan (p_id p) (p_name p) (p_enabled p) (p_consistency p) (p_sources p) ((λ a, with_occurrence a None None) <$> p_destinations p)
    (p_staging_max p) (p_staging_ttl p) (p_stop_timeout p).
Definition configuration (s : state) : gmap string Plan * gmap string (string * string) := (unscheduled <$> Plans s, repositories s).

Definition pendingDestinations (r : Run) : gset string := list_to_set (c_destination <$> List.filter copyWorkPending (run_copies r)).

Section system.
Context (zoneinfo : string → option Location) (Local : Location) (state_text : state → string) (digest : string * list Source → string).
Context (sha : string → string) (lower : string → string) (parse_address : string → option address) (fingerprint : review → string).
Context (secrets_text : Secrets → string) (parse_secrets : string → option Secrets) (directory : string).
Context `{!MapRange string (Run * Plan), !MapRange string Plan, !MapRange string Destination, !MapRange string string,
          !MapRange string snapshotClassification, !MapRange Resource string}.

Inductive step : system → system → Prop :=
| step_run env token plan ids by_ b W R job r b' :
    W !! ("job_" +:+ st_token env) = None →
    StartRun state_text sha lower parse_address env token plan ids by_ b = (Ok (job, r), b') →
    step (mkSys b W R) (mkSys b' (<[job_id job := pendingDestinations r]> W) R)
| step_run_failed env token plan ids by_ b W R e b' :
    W !! ("job_" +:+ st_token env) = None →
    StartRun state_text sha lower parse_address env token plan ids by_ b = (Err e, b') → step (mkSys b W R) (mkSys b' W R)
| step_retry env staged run ids by_ b W R job r b' :
    W !! ("job_" +:+ st_token env) = None →
    StartRetry state_text sha lower parse_address env staged run ids by_ b = (Ok (job, r), b') →
    step (mkSys b W R) (mkSys b' (<[job_id job := pendingDestinations r]> W) R)
| step_retry_failed env staged run ids by_ b W R e b' :
    W !! ("job_" +:+ st_token env) = None →
    StartRetry state_text sha lower parse_address env staged run ids by_ b = (Err e, b') → step (mkSys b W R) (mkSys b' W R)
| step_repository_job env id action by_ prune b W R job b' :
    W !! ("job_" +:+ st_token env) = None →
    StartRepositoryJob sha lower parse_address fingerprint env id action by_ prune b = (Ok job, b') →
    step (mkSys b W R) (mkSys b' (<[job_id job := {[id]}]> W) R)
| step_repository_job_failed env id action by_ prune b W R e b' :
    StartRepositoryJob sha lower parse_address fingerprint env id action by_ prune b = (Err e, b') → step (mkSys b W R) (mkSys b' W R)
| step_save env r p b W R work :
    W !! run_job r = Some work → pendingDestinations r ⊆ work →
    step (mkSys b W R) (mkSys (saveRun state_text digest env r p b).2 W R)
| step_progress r p b W R work :
    W !! run_job r = Some work → pendingDestinations r ⊆ work → step (mkSys b W R) (mkSys (put_run b r p) W R)
| step_release job id b W R work :
    W !! job = Some work → id ∈ work →
    (∀ rid r p, Runs (b_state b) !! rid = Some (r, p) → active_run r = true → run_job r = job → id ∉ pendingDestinations r) →
    step (mkSys b W R) (mkSys (releaseCompletedRepository sha lower parse_address job id b).2 (<[job := work ∖ {[id]}]> W) R)
| step_done job b W R :
    is_Some (W !! job) → (∀ rid r p, Runs (b_state b) !! rid = Some (r, p) → active_run r = true → run_job r ≠ job) →
    step (mkSys b W R) (mkSys (releaseRepositories job b) (delete job W) R)
| step_read cancelled id d b W R b' :
    beginRepositoryRead sha lower parse_address cancelled id b = (Ok d, b') →
    step (mkSys b W R) (mkSys b' W (repositoryKey sha lower parse_address d :: R))
| step_read_end key b W R1 R2 : step (mkSys b W (R1 ++ key :: R2)) (mkSys (endRepositoryRead key b) W (R1 ++ R2))
| step_plan env token preview id p b W R :
    step (mkSys b W R) (mkSys (SavePlan zoneinfo Local state_text sha env token preview id p b).2 W R)
| step_destination env id i files b W R :
    fresh_token env (Destinations (b_state b)) →
    step (mkSys b W R) (mkSys (v_backup (SaveDestination zoneinfo Local state_text fingerprint sha lower parse_address secrets_text parse_secrets directory
      env id i (mkVault b files)).2) W R)
| step_delete_plan env id b W R : step (mkSys b W R) (mkSys (DeletePlan state_text env id b).2 W R)
| step_delete_destination env secrets id b W R : step (mkSys b W R) (mkSys (DeleteDestination state_text env secrets id b).2 W R)
| step_evidence s b W R :
    Runs s = Runs (b_state b) → configuration s = configuration (b_state b) →
    step (mkSys b W R) (mkSys (with_state b s) W R)
| step_outside b b' W R :
    frame b b' → b_state b' = b_state b → repositoryJobs b' = repositoryJobs b → step (mkSys b W R) (mkSys b' W R).

(** Reconcile runs before anything else, on a service without reservations. *)
Definition initial (y : system) : Prop :=
  ∃ env recover b, repositoryJobs b = ∅ ∧ repositoryReads b = ∅ ∧ activeRepositoryReads b = 0 ∧
    y = mkSys (ReconcileRuns state_text env recover b).2 ∅ [].

Definition reachable (y : system) : Prop := ∃ y0, initial y0 ∧ rtc step y0 y.

End system.

(** ** The invariant *)

Section lease_inv.
Context (sha : string → string) (lower : string → string) (parse_address : string → option address).

Local Abbreviation key_of := (keyOf sha lower parse_address).

Record lease_inv (y : system) : Prop := {
  li_live : ∀ key job, repositoryJobs (sy_backup y) !! key = Some job → job ≠ "" ∧ is_Some (sy_workers y !! job);
  li_holds : ∀ job work, sy_workers y !! job = Some work → ∃ key, repositoryJobs (sy_backup y) !! key = Some job;
  li_work : ∀ job work id, sy_workers y !! job = Some work → id ∈ work →
    is_Some (Destinations (b_state (sy_backup y)) !! id) ∧ repositoryJobs (sy_backup y) !! key_of (b_state (sy_backup y)) id = Some job;
  li_distinct : ∀ job work id1 id2, sy_workers y !! job = Some work → id1 ∈ work → id2 ∈ work →
    key_of (b_state (sy_backup y)) id1 = key_of (b_state (sy_backup y)) id2 → id1 = id2;
  li_reads : ∀ key, readers (sy_backup y) key = Z.of_nat (length (filter (λ k, k = key) (sy_readers y)));
  li_active : activeRepositoryReads (sy_backup y) = Z.of_nat (length (sy_readers y));
  li_apart : ∀ key, key ∈ sy_readers y → repositoryJobs (sy_backup y) !! key = None;
  li_runs : b_init_error (sy_backup y) = None → ∀ id r p, Runs (b_state (sy_backup y)) !! id = Some (r, p) → active_run r = true →
    ∃ work, sy_workers y !! run_job r = Some work ∧ pendingDestinations r ⊆ work }.

(** *** The steps keep it *)

Lemma key_of_repositories s s' id : repositories s = repositories s' → key_of s id = key_of s' id.
Proof using.
  intros H. assert ((λ d, (d_kind d, d_repository d)) <$> Destinations s !! id = (λ d, (d_kind d, d_repository d)) <$> Destinations s' !! id) as E.
  { by rewrite <- !lookup_fmap; f_equal. }
  unfold keyOf. destruct (Destinations s !! id) as [d|], (Destinations s' !! id) as [d'|]; try done. cbn in *. injection E as Ek Er.
  unfold repositoryKey. by rewrite Ek, Er.
Qed.

Lemma repositories_is_Some s s' id : repositories s = repositories s' → is_Some (Destinations s !! id) → is_Some (Destinations s' !! id).
Proof using. intros H Hs. rewrite <- (fmap_is_Some (λ d, (d_kind d, d_repository d))), <- lookup_fmap in Hs |- *. fold (repositories s) (repositories s') in *. by rewrite <- H. Qed.

(** Nothing happens to the reservations. *)
Lemma inv_same b b' W R : lease_inv (mkSys b W R) → b_init_error b' = b_init_error b → repositoryJobs b' = repositoryJobs b →
  repositoryReads b' = repositoryReads b → activeRepositoryReads b' = activeRepositoryReads b → repositories (b_state b') = repositories (b_state b) →
  (∀ id r p, Runs (b_state b') !! id = Some (r, p) → active_run r = true →
     Runs (b_state b) !! id = Some (r, p) ∨ ∃ work, W !! run_job r = Some work ∧ pendingDestinations r ⊆ work) →
  lease_inv (mkSys b' W R).
Proof using.
  intros [L1 L2 L3 L4 L5 L6 L7 L8] Hi Hj Hr Ha Hd Hruns. constructor; cbn in *; rewrite ?Hi, ?Hj, ?Ha; try done.
  - intros job work id Hw Hin. destruct (L3 job work id Hw Hin) as [Hs Hk]. split; [by eapply repositories_is_Some|by rewrite (key_of_repositories _ _ id Hd)].
  - intros job work id1 id2. rewrite !(key_of_repositories _ _ _ Hd). apply L4.
  - intros key. unfold readers. rewrite Hr. apply L5.
  - intros Hn id r p Hl Hact. destruct (Hruns id r p Hl Hact); [by eapply L8|done].
Qed.

Lemma kept_same W R runs b b' : lease_inv (mkSys b W R) → kept runs (repositoryJobs b) b b' →
  (∀ id r p, runs !! id = Some (r, p) → active_run r = true →
     Runs (b_state b) !! id = Some (r, p) ∨ ∃ work, W !! run_job r = Some work ∧ pendingDestinations r ⊆ work) →
  lease_inv (mkSys b' W R).
Proof using.
  intros Hinv [[] Hh Hr] Hruns. apply (inv_same b); try done; [unfold repositories; congruence|].
  intros id r p Hl. apply Hruns. by eapply lookup_weaken.
Qed.

Lemma inv_holders_ok y : lease_inv y → holders_ok (sy_backup y).
Proof using. intros [L1 _ _ _ _ _ _ _] key job Hk. by destruct (L1 key job Hk). Qed.

Lemma inv_fresh y job : lease_inv y → sy_workers y !! job = None → ∀ key, repositoryJobs (sy_backup y) !! key ≠ Some job.
Proof using. intros [L1 _ _ _ _ _ _ _] Hn key Hk. destruct (L1 key job Hk) as [_ [? H]]. by rewrite Hn in H. Qed.

Context `{!MapRange string (Run * Plan)}.

(** When nothing uses the configuration, no one works. *)
Lemma idle_empty b W R : lease_inv (mkSys b W R) → configurationBusyLocked b = false →
  repositoryJobs b = ∅ ∧ W = ∅ ∧ R = [] ∧ ∀ id r p, Runs (b_state b) !! id = Some (r, p) → active_run r = false.
Proof using.
  intros [L1 L2 L3 L4 L5 L6 L7 L8] Hb. unfold configurationBusyLocked in Hb. rewrite !orb_false_iff in Hb. destruct Hb as [[[H1 H2] H3] H4]. cbn in *.
  apply negb_false_iff, bool_decide_eq_true in H1. apply Z.ltb_ge in H2. split_and!; [done|..].
  - apply map_empty. intros job. destruct (W !! job) as [work|] eqn:E; [|done]. destruct (L2 job work E) as [key Hk]. by rewrite H1 in Hk.
  - destruct R; [done|]. cbn in L6. lia.
  - intros id r p Hl. exact (proj1 (existsb_false_iff _ _) H4 (id, (r, p)) (proj2 (range_list_elem _ _ _) Hl)).
Qed.

Lemma inv_idle b b' W R : lease_inv (mkSys b W R) → configurationBusyLocked b = false → b_init_error b' = b_init_error b →
  repositoryJobs b' = repositoryJobs b → repositoryReads b' = repositoryReads b → activeRepositoryReads b' = activeRepositoryReads b →
  Runs (b_state b') ⊆ Runs (b_state b) → lease_inv (mkSys b' W R).
Proof using.
  intros Hinv Hb Hi Hj Hr Ha Hruns. destruct (idle_empty _ _ _ Hinv Hb) as (Hje & -> & -> & Hidle). destruct Hinv as [_ _ _ _ L5 L6 _ _].
  constructor; cbn in *; rewrite ?Hj, ?Hje, ?Ha; try done; try (by intros key; unfold readers; rewrite Hr; apply L5); try (intros job work id; by rewrite lookup_empty).
  intros _ id r p Hl Hact. rewrite (Hidle id r p) in Hact; [done|]. by eapply lookup_weaken.
Qed.

(** A new worker on free repositories. *)
Lemma inv_reserve b b' W R job D : lease_inv (mkSys b W R) → W !! job = None → job ≠ "" → D ≠ ∅ → frame b b' →
  (∀ id, id ∈ D → is_Some (Destinations (b_state b) !! id) ∧ holder b (key_of (b_state b) id) = "" ∧ readers b (key_of (b_state b) id) <= 0 ∧
     repositoryJobs b' !! key_of (b_state b) id = Some job) →
  (∀ id1 id2, id1 ∈ D → id2 ∈ D → key_of (b_state b) id1 = key_of (b_state b) id2 → id1 = id2) →
  (∀ key, (∀ id, id ∈ D → key_of (b_state b) id ≠ key) → repositoryJobs b' !! key = repositoryJobs b !! key) →
  (∀ id r p, Runs (b_state b') !! id = Some (r, p) → active_run r = true →
     Runs (b_state b) !! id = Some (r, p) ∨ (run_job r = job ∧ pendingDestinations r = D)) →
  lease_inv (mkSys b' (<[job := D]> W) R).
Proof using.
  intros Hinv Hw Hne HD [F1 F2 F3 F4 F5] Hfree Hinj Hother Hruns. pose proof (inv_holders_ok _ Hinv) as Hok. destruct Hinv as [L1 L2 L3 L4 L5 L6 L7 L8]. cbn in *.
  assert (∀ id, key_of (b_state b') id = key_of (b_state b) id) as Hkey by (intros id; unfold keyOf; by rewrite F5).
  assert (∀ key job', repositoryJobs b !! key = Some job' → repositoryJobs b' !! key = Some job') as Hold.
  { intros key job' Hk. rewrite Hother; [done|]. intros id Hin <-. destruct (Hfree id Hin) as (_ & Hh & _).
    apply holder_free in Hh; [by rewrite Hh in Hk|done]. }
  assert (∀ key job', repositoryJobs b' !! key = Some job' → (∃ id, id ∈ D ∧ key_of (b_state b) id = key ∧ job' = job) ∨ repositoryJobs b !! key = Some job') as Hnew.
  { intros key job' Hk. destruct (decide (Exists (λ id, key_of (b_state b) id = key) (elements D))) as [(id & Hin & Hid)%Exists_exists|Hn].
    - left. exists id. apply elem_of_elements in Hin. split_and!; [done|done|]. destruct (Hfree id Hin) as (_ & _ & _ & Hj). rewrite Hid in Hj. congruence.
    - right. rewrite <- Hother; [done|]. intros id Hin Hid. apply Hn, Exists_exists. exists id. split; [by apply elem_of_elements|done]. }
  constructor; cbn; rewrite ?F1, ?F3, ?F5.
  - intros key job' [(id & Hin & <- & ->)|Hk]%Hnew; [by rewrite lookup_insert_eq; eauto|].
    destruct (L1 key job' Hk) as [? Hs]. split; [done|]. rewrite lookup_insert_ne; [done|]. intros <-. destruct Hs as [? Hs]. by rewrite Hw in Hs.
  - intros job' work. rewrite lookup_insert_Some. intros [[<- <-]|[_ Hl]].
    + apply set_choose_L in HD as [id Hin]. exists (key_of (b_state b) id). by apply (Hfree id Hin).
    + destruct (L2 job' work Hl) as [key Hk]. exists key. by apply Hold.
  - intros job' work id. rewrite Hkey, lookup_insert_Some. intros [[<- <-]|[_ Hl]] Hin.
    + destruct (Hfree id Hin) as (? & _ & _ & ?). done.
    + destruct (L3 job' work id Hl Hin) as [? Hk]. split; [done|by apply Hold].
  - intros job' work id1 id2. rewrite !Hkey, lookup_insert_Some. intros [[<- <-]|[_ Hl]]; [apply Hinj|by apply (L4 job' work)].
  - intros key. unfold readers. rewrite F2. apply L5.
  - done.
  - intros key Hin. rewrite Hother; [by apply L7|]. intros id Hid <-. destruct (Hfree id Hid) as (_ & _ & Hr & _). rewrite L5 in Hr.
    assert (key_of (b_state b) id ∈ filter (λ k, k = key_of (b_state b) id) R) as Hf by (by apply list_elem_of_filter). destruct (filter _ R); [by apply elem_of_nil in Hf|cbn in Hr; lia].
  - intros Hi id r p Hl Ha. destruct (Hruns id r p Hl Ha) as [Hb|[<- <-]]; [|by rewrite lookup_insert_eq; eauto].
    destruct (L8 Hi id r p Hb Ha) as (work & Hl' & Hsub). exists work. split; [|done]. rewrite lookup_insert_ne; [done|]. intros E. by rewrite E, Hl' in Hw.
Qed.

(** A worker is done with a destination, or with all of them. *)
Lemma inv_retire b b' W W' R job : lease_inv (mkSys b W R) → frame b b' → b_state b' = b_state b →
  (∀ key job', repositoryJobs b' !! key = Some job' → repositoryJobs b !! key = Some job' ∧ (job' = job → is_Some (W' !! job))) →
  (∀ key job', repositoryJobs b !! key = Some job' → job' ≠ job → repositoryJobs b' !! key = Some job') →
  (∀ job', job' ≠ job → W' !! job' = W !! job') →
  (∀ work', W' !! job = Some work' → ∃ work, W !! job = Some work ∧ work' ⊆ work ∧ (∃ key, repositoryJobs b' !! key = Some job) ∧
     ∀ id, id ∈ work' → repositoryJobs b' !! key_of (b_state b) id = Some job) →
  (∀ id r p, Runs (b_state b) !! id = Some (r, p) → active_run r = true → run_job r = job → ∃ work', W' !! job = Some work' ∧ ∀ work, W !! job = Some work → pendingDestinations r ⊆ work → pendingDestinations r ⊆ work') →
  lease_inv (mkSys b' W' R).
Proof using.
  intros [L1 L2 L3 L4 L5 L6 L7 L8] [F1 F2 F3 F4 F5] Hs Hless Hkeep Hother Hown Hruns. cbn in *.
  constructor; cbn; rewrite ?Hs, ?F1, ?F3.
  - intros key job' Hk. destruct (Hless key job' Hk) as [Hb Hj]. destruct (L1 key job' Hb). split; [done|].
    destruct (decide (job' = job)) as [->|Hne]; [by apply Hj|by rewrite Hother].
  - intros job' work Hl. destruct (decide (job' = job)) as [->|Hne]; [by destruct (Hown work Hl) as (? & _ & _ & ? & _)|].
    rewrite Hother in Hl by done. destruct (L2 job' work Hl) as [key Hk]. exists key. by apply Hkeep.
  - intros job' work id Hl Hin. destruct (decide (job' = job)) as [->|Hne].
    + destruct (Hown work Hl) as (work0 & Hw & Hsub & _ & Hh). split; [|by apply Hh]. by apply (L3 job work0 id Hw), Hsub.
    + rewrite Hother in Hl by done. destruct (L3 job' work id Hl Hin). split; [done|by apply Hkeep].
  - intros job' work id1 id2 Hl H1 H2. destruct (decide (job' = job)) as [->|Hne].
    + destruct (Hown work Hl) as (work0 & Hw & Hsub & _). by apply (L4 job work0); [|apply Hsub..].
    + rewrite Hother in Hl by done. by apply (L4 job' work).
  - intros key. unfold readers. rewrite F2. apply L5.
  - done.
  - intros key Hin. destruct (repositoryJobs b' !! key) as [job'|] eqn:E; [|done]. destruct (Hless key job' E) as [Hb _]. by rewrite (L7 key Hin) in Hb.
  - intros Hi id r p Hl Ha. destruct (L8 Hi id r p Hl Ha) as (work & Hw & Hsub). destruct (decide (run_job r = job)) as [Hj|Hne].
    + destruct (Hruns id r p Hl Ha Hj) as (work' & Hw' & Hs'). exists work'. rewrite Hj in *. split; [done|by apply (Hs' work)].
    + exists work. by rewrite Hother.
Qed.

Lemma nodup_fmap_inj {A B} (f : A → B) (l : list A) x y : NoDup (f <$> l) → x ∈ l → y ∈ l → f x = f y → x = y.
Proof using.
  induction l as [|z l IH]; [by intros _ ?%elem_of_nil|]. rewrite fmap_cons, NoDup_cons, !elem_of_cons. intros [Hz Hn] [->|Hx] [->|Hy] E; try done.
  - destruct Hz. rewrite E. by apply list_elem_of_fmap_2.
  - destruct Hz. rewrite <- E. by apply list_elem_of_fmap_2.
  - by apply IH.
Qed.

Lemma elem_of_pending id r : id ∈ pendingDestinations r ↔ ∃ c, c ∈ run_copies r ∧ copyWorkPending c = true ∧ c_destination c = id.
Proof using.
  unfold pendingDestinations. rewrite elem_of_list_to_set, list_elem_of_fmap. split.
  - intros (c & -> & Hc). exists c. rewrite list_elem_of_In in Hc. apply List.filter_In in Hc as [Hc Hp]. by rewrite list_elem_of_In.
  - intros (c & Hc & Hp & <-). exists c. split; [done|]. rewrite list_elem_of_In in Hc |- *. by apply List.filter_In.
Qed.

Context `{!MapRange Resource string}.

Lemma inv_started b b' W R job r p id : lease_inv (mkSys b W R) → W !! job_id job = None → job_id job ≠ "" →
  started sha lower parse_address b b' job r p id → lease_inv (mkSys b' (<[job_id job := pendingDestinations r]> W) R).
Proof using.
  intros Hinv Hw Hne [Hj [rs Hr] He [Hf Hh Hruns]]. apply repositoryResources_Ok in Hr as (_ & Hnd & Hfree & Hdest).
  assert (∀ d, d ∈ pendingDestinations r → key_of (b_state b) d ∈ pendingKeys sha lower parse_address (b_state b) (run_copies r)) as Hin.
  { intros d (c & Hc & Hp & <-)%elem_of_pending. apply list_elem_of_fmap. exists c. split; [done|]. rewrite list_elem_of_In in Hc |- *. by apply List.filter_In. }
  assert (∀ d1 d2, d1 ∈ pendingDestinations r → d2 ∈ pendingDestinations r → key_of (b_state b) d1 = key_of (b_state b) d2 → d1 = d2) as Hinj.
  { intros d1 d2 (c1 & H1 & P1 & <-)%elem_of_pending (c2 & H2 & P2 & <-)%elem_of_pending E. f_equal.
    apply (nodup_fmap_inj _ _ _ _ Hnd); [..|done]; rewrite list_elem_of_In in *; by apply List.filter_In. }
  rewrite Forall_forall in Hfree. rewrite Forall_forall in Hdest. eapply (inv_reserve b b' W R (job_id job) (pendingDestinations r)); try done.
  - apply existsb_exists in He as (c & Hc & Hp). rewrite <- list_elem_of_In in Hc.
    assert (c_destination c ∈ pendingDestinations r) by (apply elem_of_pending; eauto). set_solver.
  - intros d Hd. destruct (Hfree _ (Hin d Hd)) as (_ & Hh' & Hr'). split_and!; try done.
    + apply elem_of_pending in Hd as (c & Hc & Hp & <-). by apply Hdest.
    + rewrite Hh, reserve_lookup. by rewrite bool_decide_true by (by apply Hin).
  - intros key Hkey. rewrite Hh, reserve_lookup, bool_decide_false; [done|]. intros (c & -> & Hc)%list_elem_of_fmap.
    rewrite list_elem_of_In in Hc. apply List.filter_In in Hc as [Hc Hp]. rewrite <- list_elem_of_In in Hc.
    apply (Hkey (c_destination c)); [|done]. apply elem_of_pending; eauto.
  - intros rid r' p' Hl _. eapply lookup_weaken in Hl; [|exact Hruns]. apply lookup_insert_Some in Hl as [[_ [= <- <-]]|[_ Hl]]; [by right|by left].
Qed.

Lemma inv_repository_job fingerprint env id action by_ prune b W R job b' : lease_inv (mkSys b W R) → W !! ("job_" +:+ st_token env) = None →
  StartRepositoryJob sha lower parse_address fingerprint env id action by_ prune b = (Ok job, b') →
  lease_inv (mkSys b' (<[job_id job := {[id]}]> W) R).
Proof using.
  intros Hinv Hw. unfold StartRepositoryJob. destruct (b_init_error b); [done|]. destruct (Destinations (b_state b) !! id) as [d|] eqn:Ed; [|done].
  destruct (negb (str_in action repositoryActions)); [done|]. destruct (if str_eqb action "backup_prune" then _ else _); [|done].
  cbn zeta. set (key := repositoryKey sha lower parse_address d). destruct (_ || _) eqn:Eb; [done|].
  destruct (JobsService.StartWithResources _ _ _ _ _ _ _ _ _) as [[j|e] s] eqn:Ej; [|done]. intros [= -> <-].
  apply StartWithResources_id in Ej. apply orb_false_iff in Eb as [E1 E2]. apply Z.ltb_ge in E1. boolify.
  assert (key_of (b_state b) id = key) as Hk by (unfold keyOf; by rewrite Ed).
  eapply (inv_reserve b _ W R (job_id job) {[id]}); [done|by rewrite Ej|by rewrite Ej|by apply non_empty_singleton_L|by constructor|..]; cbn.
  - intros id' ->%elem_of_singleton. by rewrite Hk, Ed, lookup_insert_eq.
  - by intros ?? ->%elem_of_singleton ->%elem_of_singleton.
  - intros key' Hne. rewrite lookup_insert_ne; [done|]. rewrite <- Hk. apply Hne. by apply elem_of_singleton.
  - intros ?? ? Hl ?. by left.
Qed.

Lemma repository_job_failed fingerprint env id action by_ prune b e b' :
  StartRepositoryJob sha lower parse_address fingerprint env id action by_ prune b = (Err e, b') → kept (Runs (b_state b)) (repositoryJobs b) b b'.
Proof using.
  pose proof (kept_refl b) as Hk. unfold StartRepositoryJob. destruct (b_init_error b); [by intros [= _ <-]|].
  destruct (Destinations (b_state b) !! id) as [d|]; [|by intros [= _ <-]]. destruct (negb (str_in action repositoryActions)); [by intros [= _ <-]|].
  destruct (if str_eqb action "backup_prune" then _ else _); [|by intros [= _ <-]]. cbn zeta. destruct (_ || _); [by intros [= _ <-]|].
  destruct (JobsService.StartWithResources _ _ _ _ _ _ _ _ _) as [[j|e'] s]; [done|]. intros [= _ <-]. apply kept_service.
Qed.

Context `{!MapRange string string}.

Lemma inv_release b W R job id work : lease_inv (mkSys b W R) → W !! job = Some work → id ∈ work →
  (∀ rid r p, Runs (b_state b) !! rid = Some (r, p) → active_run r = true → run_job r = job → id ∉ pendingDestinations r) →
  lease_inv (mkSys (releaseCompletedRepository sha lower parse_address job id b).2 (<[job := work ∖ {[id]}]> W) R).
Proof using.
  intros Hinv Hw Hid Hruns.
  assert (∀ b', frame b b' → b_state b' = b_state b → repositoryJobs b' = repositoryJobs b → lease_inv (mkSys b' (<[job := work ∖ {[id]}]> W) R)) as Hsame.
  { intros b' Hf Hs Hj. pose proof Hinv as [L1 L2 L3 L4 L5 L6 L7 L8]. eapply (inv_retire b b' W _ R job); try done; rewrite ?Hj.
    - intros key job' Hk. split; [done|]. intros _. by rewrite lookup_insert_eq.
    - done.
    - intros job' Hne. by rewrite lookup_insert_ne.
    - rewrite lookup_insert_eq. intros work' [= <-]. exists work. split_and!; [done|set_solver|by apply (L2 job work)|].
      intros id' Hin. apply (L3 job work id' Hw). set_solver.
    - intros rid r p Hl Ha Hrj. exists (work ∖ {[id]}). rewrite lookup_insert_eq. split; [done|]. intros w Hw' Hsub.
      rewrite Hw in Hw'. injection Hw' as <-. specialize (Hruns rid r p Hl Ha Hrj). set_solver. }
  unfold releaseCompletedRepository. destruct (Destinations (b_state b) !! id) as [d|] eqn:Ed; [|by apply Hsame].
  cbn zeta. set (key := repositoryKey sha lower parse_address d). destruct (negb (str_eqb (holder b key) job)) eqn:Eh; [by apply Hsame|].
  destruct (List.filter _ _) as [|e l] eqn:El; [by apply Hsame|].
  destruct (JobsService.ReplaceJobResources _ _ _) as [[|] j]; [|apply Hsame; by constructor].
  assert (key_of (b_state b) id = key) as Hk by (unfold keyOf; by rewrite Ed). cbn [snd].
  assert (In e (List.filter (λ e, str_eqb e.2 job && negb (str_eqb e.1 key)) (range_list (repositoryJobs b)))) as Hin by (rewrite El; by left).
  apply List.filter_In in Hin as [Hin Hb]. apply andb_true_iff in Hb as [Hb1 Hb2]. rewrite <- list_elem_of_In in Hin. destruct e as [k2 j2].
  apply range_list_elem in Hin. cbn in Hb1, Hb2. boolify. subst j2.
  pose proof Hinv as [L1 L2 L3 L4 L5 L6 L7 L8]. cbn in *.
  eapply (inv_retire b _ W _ R job); [exact Hinv|by constructor|done|..]; cbn.
  - intros key' job' [Hne Hl]%lookup_delete_Some. split; [done|]. intros _. by rewrite lookup_insert_eq.
  - intros key' job' Hl Hne. rewrite lookup_delete_ne; [done|]. intros <-. unfold holder in Eh. by rewrite Hl in Eh.
  - intros job' Hne. by rewrite lookup_insert_ne.
  - rewrite lookup_insert_eq. intros work' [= <-]. exists work. split_and!; [done|set_solver|exists k2; by rewrite lookup_delete_ne|].
    intros id' [Hin' Hne]%elem_of_difference. rewrite lookup_delete_ne; [by apply (L3 job work id' Hw)|].
    intros E. apply Hne, elem_of_singleton. apply (L4 job work id' id Hw Hin' Hid). congruence.
  - intros rid r p Hl Ha Hrj. exists (work ∖ {[id]}). rewrite lookup_insert_eq. split; [done|]. intros w Hw' Hsub.
    rewrite Hw in Hw'. injection Hw' as <-. specialize (Hruns rid r p Hl Ha Hrj). set_solver.
Qed.

Lemma inv_done b W R job : lease_inv (mkSys b W R) → (∀ rid r p, Runs (b_state b) !! rid = Some (r, p) → active_run r = true → run_job r ≠ job) →
  lease_inv (mkSys (releaseRepositories job b) (delete job W) R).
Proof using.
  intros Hinv Hruns. eapply (inv_retire b _ W _ R job); [done|by constructor|done|..].
  - intros key job'. rewrite release_lookup. destruct (repositoryJobs b !! key) as [j|]; [|done]. destruct (bool_decide_reflect (j = job)); [done|].
    by intros [= <-].
  - intros key job' Hk Hne. rewrite release_lookup, Hk. by rewrite bool_decide_false.
  - intros job' Hne. by rewrite lookup_delete_ne.
  - intros work'. by rewrite lookup_delete_eq.
  - intros rid r p Hl Ha Hj. by destruct (Hruns rid r p Hl Ha).
Qed.

(** The number of readers of a repository follows the list of the readers. *)
Lemma inv_readers b W R m n R' : lease_inv (mkSys b W R) → (∀ key, default 0 (m !! key) = Z.of_nat (length (filter (λ k, k = key) R'))) →
  n = Z.of_nat (length R') → (∀ key, key ∈ R' → repositoryJobs b !! key = None) → lease_inv (mkSys (with_reads b m n) W R').
Proof using. intros [L1 L2 L3 L4 L5 L6 L7 L8] Hm Hn Hr. by constructor. Qed.

Lemma inv_read cancelled id d b W R b' : lease_inv (mkSys b W R) → beginRepositoryRead sha lower parse_address cancelled id b = (Ok d, b') →
  lease_inv (mkSys b' W (repositoryKey sha lower parse_address d :: R)).
Proof using.
  intros Hinv. unfold beginRepositoryRead. destruct cancelled; [done|]. destruct (b_init_error b); [done|].
  destruct (Destinations (b_state b) !! id) as [d'|]; [|done]. cbn zeta. set (key := repositoryKey sha lower parse_address d').
  destruct (negb (str_empty (holder b key))) eqn:Eh; [done|]. intros [= <- <-]. fold key. boolify. pose proof Hinv as [L1 L2 L3 L4 L5 L6 L7 L8]. cbn in *.
  apply (inv_readers b W R); [exact Hinv|..].
  - intros k. rewrite filter_cons. destruct (decide (key = k)) as [<-|Hne].
    + rewrite lookup_insert_eq. cbn. rewrite L5. cbn. lia.
    + rewrite lookup_insert_ne by done. apply L5.
  - cbn. lia.
  - intros k [->|Hin]%elem_of_cons; [|by apply L7]. apply holder_free; [|done]. exact (inv_holders_ok _ Hinv).
Qed.

Lemma inv_read_end b W R1 R2 key : lease_inv (mkSys b W (R1 ++ key :: R2)) → lease_inv (mkSys (endRepositoryRead key b) W (R1 ++ R2)).
Proof using.
  intros Hinv. pose proof Hinv as [L1 L2 L3 L4 L5 L6 L7 L8]. cbn in *. unfold endRepositoryRead.
  pose proof (L5 key) as Hn. rewrite filter_app, filter_cons_True, length_app in Hn by done. cbn in Hn.
  apply (inv_readers b W (R1 ++ key :: R2)); [exact Hinv|..].
  - intros k. rewrite filter_app, length_app. specialize (L5 k). rewrite filter_app, filter_cons, length_app in L5. destruct (decide (key = k)) as [<-|Hne].
    + cbn in L5. destruct (Z.eqb_spec (readers b key - 1) 0); [rewrite lookup_delete_eq|rewrite lookup_insert_eq]; cbn; lia.
    + unfold readers in L5 at 1. destruct (readers b key - 1 =? 0); [rewrite lookup_delete_ne by done|rewrite lookup_insert_ne by done]; exact L5.
  - rewrite length_app in L6 |- *. cbn in L6. lia.
  - intros k Hin. apply L7. set_solver.
Qed.
End lease_inv.

(** ** The configuration *)

(** [b'] is [b], or [b] with another configuration, changed when nothing used it. *)
Definition reconfigured `{!MapRange string (Run * Plan)} (b b' : Backup) : Prop :=
  b' = b ∨ (configurationBusyLocked b = false ∧ b_init_error b' = b_init_error b ∧ repositoryJobs b' = repositoryJobs b ∧
            repositoryReads b' = repositoryReads b ∧ activeRepositoryReads b' = activeRepositoryReads b ∧ Runs (b_state b') ⊆ Runs (b_state b)).

Section configuration.
Context (zoneinfo : string → option Location) (Local : Location) (state_text : state → string) (sha : string → string).
Context `{!MapRange string (Run * Plan), !MapRange string Plan, !MapRange string Destination}.

(** A write of a state with the same runs, with or without a later repair of the state. *)
Lemma persist_reconfigured env b s b' s' : configurationBusyLocked b = false →
  b' = (persistState state_text env (with_state b s)).2 → Runs s = Runs (b_state b) → Runs s' = Runs (b_state b') → reconfigured b b' ∧ reconfigured b (with_state b' s').
Proof using.
  intros Hb -> Hs Hs'. pose proof (persist_kept state_text env (with_state b s)) as [[F1 F2 F3 _ _] Hh Hr]. cbn in *. rewrite Hs in Hr.
  split; right; split_and!; try done; cbn; by rewrite ?Hs'.
Qed.

Lemma SavePlan_reconfigures env token preview id p b : reconfigured b (SavePlan zoneinfo Local state_text sha env token preview id p b).2.
Proof using.
  unfold SavePlan. destruct (normalizePlan _ _ _ p) as [q|]; [|by left]. destruct (b_init_error b); [by left|].
  destruct (configurationBusyLocked b) eqn:Eb; [by left|]. cbn zeta. destruct (_ && _); [by left|]. destruct (assignOccurrences _ _ _ _ _ _) as [ds|]; [|by left].
  destruct (previewPlan _ _ _); [|by left]. destruct (persistState _ _ _) as [e b'] eqn:Ep.
  apply (f_equal snd) in Ep. cbn [snd] in Ep. destruct e; cbn [snd];
    [by eapply (persist_reconfigured env b _ b' _ Eb (eq_sym Ep) eq_refl)|exact (proj1 (persist_reconfigured env b _ b' (b_state b') Eb (eq_sym Ep) eq_refl eq_refl))].
Qed.

Lemma SaveDestination_reconfigures fingerprint lower parse_address secrets_text parse_secrets directory env id i files b :
  reconfigured b (v_backup (SaveDestination zoneinfo Local state_text fingerprint sha lower parse_address secrets_text parse_secrets directory env id i (mkVault b files)).2).
Proof using.
  unfold SaveDestination. cbn zeta. destruct (let? _ := validateDestination _ _ _ _ in _) as [i'|]; [|by left]. cbn [v_backup v_files].
  destruct (admitDestination _ _ _ _ id i' b) as [[]|] eqn:Ea; [|by left]. apply admit_Ok in Ea as (_ & Eb & _).
  destruct (storeSecrets _ _ _ _ _ _ _ _) as [[|] files']; [by left|]. destruct (persistState _ _ _) as [e b'] eqn:Ep.
  apply (f_equal snd) in Ep. cbn [snd] in Ep. destruct e; cbn [snd v_backup];
    [by eapply (persist_reconfigured env.(sv_call) b _ b' _ Eb (eq_sym Ep) eq_refl)|exact (proj1 (persist_reconfigured env.(sv_call) b _ b' (b_state b') Eb (eq_sym Ep) eq_refl eq_refl))].
Qed.

Lemma DeletePlan_reconfigures env id b : reconfigured b (DeletePlan state_text env id b).2.
Proof using.
  unfold DeletePlan. destruct (configurationBusyLocked b) eqn:Eb; [by left|]. destruct (Plans (b_state b) !! id); [|by left]. cbn zeta.
  destruct (persistState _ _ _) as [e b'] eqn:Ep.
  apply (f_equal snd) in Ep. cbn [snd] in Ep. destruct e; cbn [snd];
    [by eapply (persist_reconfigured env b _ b' _ Eb (eq_sym Ep) eq_refl)|exact (proj1 (persist_reconfigured env b _ b' (b_state b') Eb (eq_sym Ep) eq_refl eq_refl))].
Qed.

Lemma DeleteDestination_reconfigures env secrets id b : reconfigured b (DeleteDestination state_text env secrets id b).2.
Proof using.
  unfold DeleteDestination. destruct (configurationBusyLocked b) eqn:Eb; [by left|]. destruct (Destinations (b_state b) !! id); [|by left].
  destruct (existsb _ _); [by left|]. cbn zeta. destruct (persistState _ _ _) as [e b'] eqn:Ep.
  apply (f_equal snd) in Ep. cbn [snd] in Ep. destruct e; cbn [snd];
    [by eapply (persist_reconfigured env b _ b' _ Eb (eq_sym Ep) eq_refl)|exact (proj1 (persist_reconfigured env b _ b' (b_state b') Eb (eq_sym Ep) eq_refl eq_refl))].
Qed.
End configuration.

(** ** Saving a run *)

Section saveRun.
Context (state_text : state → string) (digest : string * list Source → string) `{!MapRange string (Run * Plan), !MapRange string snapshotClassification}.

Definition same_configuration (s s' : state) : Prop := Runs s' = Runs s ∧ Plans s' = Plans s ∧ Destinations s' = Destinations s.

Lemma fold_same_configuration {A} (f : state → A → state) l s : (∀ s x, same_configuration s (f s x)) → same_configuration s (fold_left f l s).
Proof using.
  intros Hf. revert s. induction l as [|x l IH]; intros s; [done|]. cbn. destruct (Hf s x) as (? & ? & ?), (IH (f s x)) as (? & ? & ?).
  unfold same_configuration. split_and!; congruence.
Qed.

Lemma checkpoints_same_configuration now s r p : same_configuration s (recordCheckpointsLocked digest now s r p).
Proof using.
  unfold recordCheckpointsLocked, recordCopyAttemptsLocked. set (s1 := fold_left _ _ s).
  assert (same_configuration s s1) as H1.
  { apply fold_same_configuration. intros s0 c. unfold recordCopyAttempt. by destruct (negb _). }
  destruct (run_captured_at r) as [captured|]; [|done].
  destruct H1 as (R1 & P1 & D1). destruct (fold_same_configuration (recordCheckpoint digest now captured r p) (run_copies r) s1) as (R2 & P2 & D2).
  - intros s0 c. unfold recordCheckpoint. destruct (negb _); [done|]. destruct (_ || _); [done|]. cbn zeta. destruct (match CopyCheckpoints s0 !! _ with Some _ => _ | None => _ end); [done|].
    by destruct (str_eqb _ _).
  - unfold same_configuration. split_and!; congruence.
Qed.

Lemma saveRun_kept env r p b : kept (<[run_id r := (r, p)]> (Runs (b_state b))) (repositoryJobs b) b (saveRun state_text digest env r p b).2.
Proof using.
  unfold saveRun. cbn zeta. set (b1 := with_state _ _). destruct (persist_kept state_text env b1) as [Hf Hh Hr].
  destruct (checkpoints_same_configuration (call_now env) (b_state (put_run b r p)) r p) as (R & P & D).
  constructor; [|done|]; [eapply frame_trans; [|exact Hf]; by constructor|]. etrans; [exact Hr|]. unfold b1. cbn [b_state with_state]. by rewrite R.
Qed.
End saveRun.

(** ** Theorems *)

Section theorems.
Context (zoneinfo : string → option Location) (Local : Location) (state_text : state → string) (digest : string * list Source → string).
Context (sha : string → string) (lower : string → string) (parse_address : string → option address) (fingerprint : review → string).
Context (secrets_text : Secrets → string) (parse_secrets : string → option Secrets) (directory : string).
Context `{!MapRange string (Run * Plan), !MapRange string Plan, !MapRange string Destination, !MapRange string string,
          !MapRange string snapshotClassification, !MapRange Resource string}.

Local Abbreviation lease_step := (step zoneinfo Local state_text digest sha lower parse_address fingerprint secrets_text parse_secrets directory).
Local Abbreviation inv := (lease_inv sha lower parse_address).

Lemma inv_reconfigured b b' W R : inv (mkSys b W R) → reconfigured b b' → inv (mkSys b' W R).
Proof using. intros Hinv [->|(Hb & ? & ? & ? & ? & ?)]; [done|by eapply inv_idle]. Qed.

Lemma inv_put r p (W : gmap string (gset string)) work b id r' p' : W !! run_job r = Some work → pendingDestinations r ⊆ work →
  <[run_id r := (r, p)]> (Runs (b_state b)) !! id = Some (r', p') → Runs (b_state b) !! id = Some (r', p') ∨ ∃ work, W !! run_job r' = Some work ∧ pendingDestinations r' ⊆ work.
Proof using. intros Hw Hp [[_ [= <- <-]]|[_ Hl]]%lookup_insert_Some; [right; eauto|by left]. Qed.

Lemma lease_step_inv y y' : inv y → lease_step y y' → inv y'.
Proof using.
  intros Hinv Hstep. destruct Hstep as [env token plan ids by_ b W R job r b' Hw Hs|env token plan ids by_ b W R e b' Hw Hs
    |env staged run ids by_ b W R job r b' Hw Hs|env staged run ids by_ b W R e b' Hw Hs| | | | | | | | | | | | |s b W R H1 H2|b b' W R Hf Hs Hj];
    try pose proof (inv_holders_ok _ _ _ _ Hinv) as Hok; try pose proof (inv_fresh _ _ _ _ _ Hinv Hw) as Hfresh.
  - pose proof (StartRun_spec sha lower parse_address state_text env token plan ids by_ b Hok Hfresh) as H. rewrite Hs in H.
    destruct H as (p & _ & Hst & Hid). eapply inv_started; [done|by rewrite Hid|by rewrite Hid|exact Hst].
  - pose proof (StartRun_spec sha lower parse_address state_text env token plan ids by_ b Hok Hfresh) as H. rewrite Hs in H. eapply kept_same; [done|exact H|by left].
  - pose proof (StartRetry_spec sha lower parse_address state_text env staged run ids by_ b Hok Hfresh) as H. rewrite Hs in H.
    destruct H as (r0 & p & _ & Hst & Hid). eapply inv_started; [done|by rewrite Hid|by rewrite Hid|exact Hst].
  - pose proof (StartRetry_spec sha lower parse_address state_text env staged run ids by_ b Hok Hfresh) as H. rewrite Hs in H. eapply kept_same; [done|exact H|by left].
  - by eapply inv_repository_job.
  - eapply kept_same; [done|by eapply repository_job_failed|by left].
  - eapply kept_same; [done|apply saveRun_kept|]. intros id r' p' Hl _. by eapply inv_put.
  - eapply (kept_same _ _ _ _ _ (<[run_id r := (r, p)]> (Runs (b_state b)))); [done|by repeat constructor|]. intros id r' p' Hl _. by eapply inv_put.
  - by eapply inv_release.
  - by eapply inv_done.
  - by eapply inv_read.
  - by apply inv_read_end.
  - eapply inv_reconfigured; [done|apply SavePlan_reconfigures].
  - eapply inv_reconfigured; [done|apply SaveDestination_reconfigures].
  - eapply inv_reconfigured; [done|apply DeletePlan_reconfigures].
  - eapply inv_reconfigured; [done|apply DeleteDestination_reconfigures].
  - eapply inv_same; try done; [exact (f_equal snd H2)|]. intros id r p Hl _. left. by rewrite <- H1.
  - destruct Hf. eapply inv_same; try done; [by rewrite Hs|]. intros id r p Hl _. left. by rewrite <- Hs.
Qed.

Lemma active_run_interrupted now r : active_run (interruptedRun now r) = false.
Proof using. unfold interruptedRun. by destruct (active_run r) eqn:E. Qed.

Lemma initial_lease_inv y : initial state_text y → inv y.
Proof using.
  intros (env & recover & b & Hj & Hr & Ha & ->). unfold ReconcileRuns. set (b0 := with_recovery b _).
  assert (∀ b', frame b b' → repositoryJobs b' = ∅ → (b_init_error b' = None → ∀ id r p, Runs (b_state b') !! id = Some (r, p) → active_run r = false) → inv (mkSys b' ∅ [])) as Hinv.
  { intros b' [F1 F2 F3 _ _] Hb Hruns. constructor; cbn; rewrite ?Hb, ?F3; try done; try (intros; by rewrite lookup_empty in *).
    - intros key. unfold readers. by rewrite F2, Hr.
    - intros Hi id r p Hl Hact. by rewrite (Hruns Hi id r p Hl) in Hact. }
  destruct (b_init_error b0) eqn:Ei; cbn [snd]; [apply Hinv; [by constructor|done|]; cbn in *; by rewrite Ei|].
  set (s := with_runs _ _). pose proof (persist_kept state_text env (with_state b0 s)) as [Hf Hh Hruns].
  assert (inv (mkSys (persistState state_text env (with_state b0 s)).2 ∅ [])) as Hres.
  { apply Hinv; [eapply frame_trans; [|exact Hf]; by constructor|by rewrite Hh|]. intros _ id r p Hl. eapply lookup_weaken in Hl; [|exact Hruns].
    cbn in Hl. rewrite lookup_fmap in Hl. destruct (Runs (b_state b) !! id) as [[r0 p0]|]; [|done]. injection Hl as <- _. apply active_run_interrupted. }
  by destruct (persistState state_text env (with_state b0 s)) as [[|] b'].
Qed.

Lemma reachable_lease_inv y : reachable zoneinfo Local state_text digest sha lower parse_address fingerprint secrets_text parse_secrets directory y → inv y.
Proof using. intros (y0 & Hi & Hsteps). apply initial_lease_inv in Hi. induction Hsteps; [done|]. eapply IHHsteps, lease_step_inv; done. Qed.

(** C2: repositories are used exclusively: a destination that a live job works on
    exists, its repository is reserved for that job and nobody reads it, two
    jobs never work on the same repository, and the copies with pending work of
    every active run belong to a live job that works on them. *)
Theorem leases_exclusive y : reachable zoneinfo Local state_text digest sha lower parse_address fingerprint secrets_text parse_secrets directory y →
  let b := sy_backup y in let key := keyOf sha lower parse_address (b_state b) in
  (∀ job work id, sy_workers y !! job = Some work → id ∈ work →
     is_Some (Destinations (b_state b) !! id) ∧ holder b (key id) = job ∧ readers b (key id) = 0) ∧
  (∀ job1 job2 work1 work2 id1 id2, sy_workers y !! job1 = Some work1 → sy_workers y !! job2 = Some work2 → id1 ∈ work1 → id2 ∈ work2 →
     key id1 = key id2 → job1 = job2 ∧ id1 = id2) ∧
  (b_init_error b = None → ∀ rid r p c, Runs (b_state b) !! rid = Some (r, p) → active_run r = true → c ∈ run_copies r → copyWorkPending c = true →
     ∃ work, sy_workers y !! run_job r = Some work ∧ c_destination c ∈ work).
Proof using.
  intros [L1 L2 L3 L4 L5 L6 L7 L8]%reachable_lease_inv. cbn zeta. split_and!.
  - intros job work id Hw Hin. destruct (L3 job work id Hw Hin) as [Hd Hk]. split_and!; [done|unfold holder; by rewrite Hk|].
    rewrite L5. destruct (filter _ _) as [|k l] eqn:E; [done|]. assert (k ∈ filter (λ k, k = keyOf sha lower parse_address (b_state (sy_backup y)) id) (sy_readers y)) as Hf
      by (rewrite E; by left). apply list_elem_of_filter in Hf as [-> Hf]. by rewrite (L7 _ Hf) in Hk.
  - intros job1 job2 work1 work2 id1 id2 H1 H2 I1 I2 E. destruct (L3 _ _ _ H1 I1) as [_ K1], (L3 _ _ _ H2 I2) as [_ K2].
    assert (job1 = job2) as -> by congruence. split; [done|]. rewrite H1 in H2. injection H2 as <-. by apply (L4 job2 work1).
  - intros Hi rid r p c Hl Ha Hc Hp. destruct (L8 Hi rid r p Hl Ha) as (work & Hw & Hsub). exists work. split; [done|]. apply Hsub, elem_of_pending. eauto.
Qed.

Lemma frame_configuration b b' : frame b b' → configuration (b_state b') = configuration (b_state b).
Proof using. intros []. unfold configuration, repositories. congruence. Qed.

(** *** Distinct repositories *)

Local Abbreviation unique := (unique_repositories sha lower parse_address).

Lemma unique_subseteq m m' : unique m → m' ⊆ m → unique m'.
Proof using. intros Hu Hs id1 id2 d1 d2 H1 H2. by apply Hu; eapply lookup_weaken. Qed.

Lemma unique_repositories_of s s' : repositories s' = repositories s → unique (Destinations s) → unique (Destinations s').
Proof using.
  intros E Hu id1 id2 d1 d2 H1 H2 Hk.
  assert (∀ id d, Destinations s' !! id = Some d → ∃ d0, Destinations s !! id = Some d0 ∧ d_kind d = d_kind d0 ∧ d_repository d = d_repository d0) as Hd.
  { intros id d Hl. assert (repositories s !! id = Some (d_kind d, d_repository d)) as Hr by (rewrite <- E; unfold repositories; by rewrite lookup_fmap, Hl).
    unfold repositories in Hr. rewrite lookup_fmap in Hr. destruct (Destinations s !! id) as [d0|]; [|done]. injection Hr as Hkd Hrd. by exists d0. }
  destruct (Hd id1 d1 H1) as (e1 & L1 & K1 & R1), (Hd id2 d2 H2) as (e2 & L2 & K2 & R2). apply (Hu id1 id2 e1 e2 L1 L2).
  rewrite (key_identity sha lower parse_address d1 e1 K1 R1), (key_identity sha lower parse_address d2 e2 K2 R2) in Hk. done.
Qed.

Lemma SavePlan_destinations env token preview id p b :
  Destinations (b_state (SavePlan zoneinfo Local state_text sha env token preview id p b).2) = Destinations (b_state b).
Proof using.
  unfold SavePlan. destruct (normalizePlan _ _ _ p) as [q|]; [|done]. destruct (b_init_error b); [done|].
  destruct (configurationBusyLocked b); [done|]. cbn zeta. destruct (_ && _); [done|]. destruct (assignOccurrences _ _ _ _ _ _) as [ds|]; [|done].
  destruct (previewPlan _ _ _); [|done]. set (b1 := with_state b _). pose proof (persist_kept state_text env b1) as [[_ _ _ _ F5] _ _].
  by destruct (persistState _ _ _) as [[|] b'].
Qed.

Lemma DeletePlan_destinations env id b : Destinations (b_state (DeletePlan state_text env id b).2) = Destinations (b_state b).
Proof using.
  unfold DeletePlan. destruct (configurationBusyLocked b); [done|]. destruct (Plans (b_state b) !! id); [|done]. cbn zeta. set (b1 := with_state b _).
  pose proof (persist_kept state_text env b1) as [[_ _ _ _ F5] _ _]. by destruct (persistState _ _ _) as [[|] b'].
Qed.

Lemma DeleteDestination_destinations env secrets id b : Destinations (b_state (DeleteDestination state_text env secrets id b).2) ⊆ Destinations (b_state b).
Proof using.
  unfold DeleteDestination. destruct (configurationBusyLocked b); [done|]. destruct (Destinations (b_state b) !! id) as [d|] eqn:Ed; [|done].
  destruct (existsb _ _); [done|]. cbn zeta. set (b1 := with_state b _). pose proof (persist_kept state_text env b1) as [[_ _ _ _ F5] _ _].
  destruct (persistState _ _ _) as [[|] b']; cbn in *; rewrite F5; [|apply delete_subseteq]. by rewrite insert_delete_eq, insert_id.
Qed.

Lemma release_completed_frame job id b : frame b (releaseCompletedRepository sha lower parse_address job id b).2.
Proof using.
  unfold releaseCompletedRepository. destruct (Destinations (b_state b) !! id); [|done]. cbn zeta. destruct (negb _); [done|].
  destruct (List.filter _ _); [done|]. by destruct (JobsService.ReplaceJobResources _ _ _) as [[|] j].
Qed.

Lemma started_configuration b b' job r p id : started sha lower parse_address b b' job r p id → configuration (b_state b') = configuration (b_state b).
Proof using. intros [_ _ _ [Hf _ _]]. by apply frame_configuration. Qed.

Lemma kept_configuration runs holders b b' : kept runs holders b b' → configuration (b_state b') = configuration (b_state b).
Proof using. intros [Hf _ _]. by apply frame_configuration. Qed.

Lemma step_configuration y y' : inv y → lease_step y y' →
  configuration (b_state (sy_backup y')) = configuration (b_state (sy_backup y)) ∨
  (reconfigured (sy_backup y) (sy_backup y') ∧ (unique (Destinations (b_state (sy_backup y))) → unique (Destinations (b_state (sy_backup y'))))).
Proof using.
  intros Hinv Hstep. destruct Hstep as [env token plan ids by_ b W R job r b' Hw Hs|env token plan ids by_ b W R e b' Hw Hs
    |env staged run ids by_ b W R job r b' Hw Hs|env staged run ids by_ b W R e b' Hw Hs|env id action by_ prune b W R job b' Hw Hs| | | | | |cancelled id d b W R b' Hs| | | | | |s b W R H1 H2|b b' W R Hf Hs Hj];
    try pose proof (inv_holders_ok _ _ _ _ Hinv) as Hok; try pose proof (inv_fresh _ _ _ _ _ Hinv Hw) as Hfresh; cbn [sy_backup sy_workers sy_readers];
    try pose proof (StartRun_spec sha lower parse_address state_text env token plan ids by_ b Hok Hfresh) as H;
    try pose proof (StartRetry_spec sha lower parse_address state_text env staged run ids by_ b Hok Hfresh) as H; try rewrite Hs in H.
  - left. destruct H as (p & _ & Hst & _). by eapply started_configuration.
  - left. by eapply kept_configuration.
  - left. destruct H as (r0 & p & _ & Hst & _). by eapply started_configuration.
  - left. by eapply kept_configuration.
  - left. revert Hs. unfold StartRepositoryJob. repeat case_match; try done; by intros [= _ <-].
  - left. by eapply kept_configuration, repository_job_failed.
  - left. eapply kept_configuration, saveRun_kept.
  - by left.
  - left. apply frame_configuration, release_completed_frame.
  - by left.
  - left. revert Hs. unfold beginRepositoryRead. repeat case_match; try done; by intros [= _ <-].
  - by left.
  - right. split; [apply SavePlan_reconfigures|by rewrite SavePlan_destinations].
  - right. split; [apply SaveDestination_reconfigures|]. intros Hu. by eapply (SaveDestination_unique _ _ _ _ _ _ _ _ _ _ env id i (mkVault b files)).
  - right. split; [apply DeletePlan_reconfigures|by rewrite DeletePlan_destinations].
  - right. split; [apply DeleteDestination_reconfigures|]. intros Hu. eapply unique_subseteq; [done|apply DeleteDestination_destinations].
  - by left.
  - left. by rewrite Hs.
Qed.

(** no two destinations ever share a repository: they stay distinct
    whatever happens after a start, so a reservation belongs to one destination. *)
Theorem repositories_stay_distinct y0 y : initial state_text y0 → rtc lease_step y0 y →
  unique (Destinations (b_state (sy_backup y0))) → unique (Destinations (b_state (sy_backup y))).
Proof using.
  intros Hi%initial_lease_inv Hsteps. induction Hsteps as [|y1 y2 y3 Hstep _ IH]; [done|]. intros Hu. apply IH; [by eapply lease_step_inv|].
  destruct (step_configuration y1 y2 Hi Hstep) as [E|[_ Hk]]; [|by apply Hk]. by eapply unique_repositories_of; [exact (f_equal snd E)|].
Qed.

(** the configuration is frozen while it is used: a step changes a plan or the
    repository of a destination only when no job is live, no repository is read and
    no run is active. *)
Theorem configuration_frozen y y' : reachable zoneinfo Local state_text digest sha lower parse_address fingerprint secrets_text parse_secrets directory y → lease_step y y' →
  configuration (b_state (sy_backup y')) ≠ configuration (b_state (sy_backup y)) →
  sy_workers y = ∅ ∧ sy_readers y = [] ∧ ∀ id r p, Runs (b_state (sy_backup y)) !! id = Some (r, p) → active_run r = false.
Proof using.
  intros Hr%reachable_lease_inv Hstep Hne. destruct (step_configuration y y' Hr Hstep) as [?|([E|(Hb & _)] & _)]; [done|by rewrite E in Hne|].
  destruct y as [b W R]. destruct (idle_empty _ _ _ b W R Hr Hb) as (_ & -> & -> & ?). done.
Qed.
End theorems.


(** *** After a restart *)

Lemma interruptedCopy_spec now c : let c' := interruptedCopy now c in
  transferEvidence c' = transferEvidence c ∧ verifiedCopy c' = verifiedCopy c ∧ copyWorkPending c' = false ∧ (c_state c ≠ "running" → c_state c ≠ "pending" → c_state c' = c_state c).
Proof using.
  assert (verifiedCopy c = true → c_state c = "succeeded") as Hs by (unfold verifiedCopy; intros H; rewrite !andb_true_iff in H; destruct H as [[[? _] _] _]; by boolify).
  cbn zeta. unfold interruptedCopy. destruct (verifiedCopy c) eqn:Ev; cbn [andb].
  - assert (∀ d, c_state d = "succeeded" → str_in (c_state d) ["running"; "pending"] = false) as Hd by (intros d Hd; by rewrite Hd).
    destruct (str_in (c_retention c) ["pending"; "running"]) eqn:Er; rewrite Hd by (by apply Hs).
    + assert (∀ st err a b, verifiedCopy (with_maintenance c st err a b) = verifiedCopy c) as Hv by done.
      unfold copyWorkPending. rewrite Hv, Ev. cbn. by rewrite (Hs eq_refl).
    + unfold copyWorkPending. rewrite Ev, (Hs eq_refl). split_and!; try done. apply bool_decide_eq_false. intros E. by rewrite E in Er.
  - destruct (str_in (c_state c) ["running"; "pending"]) eqn:Er.
    + split_and!; try done. intros H1 H2. apply bool_decide_eq_true in Er. list_cases; done.
    + unfold copyWorkPending. rewrite Ev. split_and!; try done. rewrite orb_false_r. apply bool_decide_eq_false. intros E. by rewrite E in Er.
Qed.


Definition interruptedStored (now : Time) (rp : Run * Plan) : Run * Plan := (interruptedRun now rp.1, rp.2).

Lemma Reconcile_runs (state_text : state → string) `{!MapRange string (Run * Plan)} env recover b : b_init_error b = None →
  let b' := (ReconcileRuns state_text env recover b).2 in
  frame b b' ∧ repositoryJobs b' = repositoryJobs b ∧ Runs (b_state b') ⊆ interruptedStored (call_now env) <$> Runs (b_state b).
Proof.
  intros Hi. cbn zeta. unfold ReconcileRuns. cbn [b_init_error with_recovery]. rewrite Hi. set (b1 := with_state _ _).
  destruct (persist_kept state_text env b1) as [Hf Hh Hr].
  assert (frame b (persistState state_text env b1).2) as Hf' by (eapply frame_trans; [|exact Hf]; by constructor).
  by destruct (persistState state_text env b1) as [[|] b'].
Qed.

(** What a restart makes of a run: a finished one is unchanged, an interrupted
    one has failed, its copies keep their evidence and wait for nothing. *)
Definition settled (now : Time) (r0 r : Run) : Prop :=
  if active_run r0 then run_state r = "failed" ∧ run_completed_at r = Some now ∧
    Forall2 (λ c0 c, transferEvidence c = transferEvidence c0 ∧ verifiedCopy c = verifiedCopy c0 ∧ copyWorkPending c = false) (run_copies r0) (run_copies r)
  else r = r0.

(** after a restart nothing is left running and nothing that was proved is
    lost: every stored run is a run from before the restart, finished runs are
    unchanged, an interrupted one has failed with the evidence of each of its
    copies intact and none of them waiting for work. *)
Theorem Reconcile_settles (state_text : state → string) `{!MapRange string (Run * Plan)} env recover b id r p : b_init_error b = None →
  Runs (b_state (ReconcileRuns state_text env recover b).2) !! id = Some (r, p) →
  active_run r = false ∧ ∃ r0, Runs (b_state b) !! id = Some (r0, p) ∧ settled (call_now env) r0 r.
Proof.
  intros Hi Hl. destruct (Reconcile_runs state_text env recover b Hi) as (_ & _ & Hr). eapply lookup_weaken in Hl; [|exact Hr].
  rewrite lookup_fmap in Hl. destruct (Runs (b_state b) !! id) as [[r0 p0]|]; [|done]. injection Hl as <- <-. cbn [fst snd].
  split; [apply active_run_interrupted|]. exists r0. split; [done|]. unfold settled, interruptedRun. destruct (active_run r0); [|done]. cbn. split_and!; [done|done|].
  apply Forall2_fmap_r. apply Forall_Forall2_diag, Forall_true. intros c. by destruct (interruptedCopy_spec (call_now env) c) as (? & ? & ? & _).
Qed.

(** ** A concrete system *)

#[local] Instance demoRunRange : MapRange string (Run * Plan) := default_range _ _.
#[local] Instance demoPlanRange : MapRange string Plan := default_range _ _.
#[local] Instance demoDestinationRange : MapRange string Destination := default_range _ _.
#[local] Instance demoStringRange : MapRange string string := default_range _ _.
#[local] Instance demoClassRange : MapRange string snapshotClassification := default_range _ _.
#[local] Instance demoResourceRange : MapRange Resource string := default_range _ _.

Definition demoAddress (s : string) : option address := None.
Definition demoFingerprint (r : review) : string := review_destination r.
Definition demoStart : startEnv := mkStart demoCall "1" "req_1" None (None, None).

(** A service whose only run was interrupted. *)
Definition demoInterrupted : Backup :=
  with_state demoService (with_runs demoBackup {[ "run_0" := (newRun (9 * Day) "run_0" "job_0" demoPlan [pendingCopy "dst_1"], demoPlan) ]}).
Definition demoReady : system := mkSys (ReconcileRuns demoText demoCall None demoInterrupted).2 ∅ [].
Definition demoStarted : res op_error (Job * Run) * Backup :=
  StartRun demoText demoSha demoSha demoAddress demoStart "1" "plan_1" [] "admin" (sy_backup demoReady).
Definition demoRunning : system :=
  mkSys demoStarted.2 (match demoStarted.1 with Ok (job, r) => {[ job_id job := pendingDestinations r ]} | Err _ => ∅ end) [].
Definition demoDeleted : system := mkSys (DeletePlan demoText demoCall "plan_1" (sy_backup demoReady)).2 ∅ [].

Local Abbreviation demo_step := (step demoZones UTC demoText demoDigestOf demoSha demoSha demoAddress demoFingerprint demoSecretsText (λ _, None) "").
Local Abbreviation demo_reachable := (reachable demoZones UTC demoText demoDigestOf demoSha demoSha demoAddress demoFingerprint demoSecretsText (λ _, None) "").

Lemma demoReady_reachable : demo_reachable demoReady.
Proof. exists demoReady. split; [|apply rtc_refl]. by exists demoCall, None, demoInterrupted. Qed.

Lemma demoRunStarted_eq : ∃ job r, demoStarted = (Ok (job, r), demoStarted.2) ∧ sy_workers demoRunning = <[job_id job := pendingDestinations r]> ∅ ∧
  sy_workers demoRunning !! "job_1" = Some {["dst_1"]}.
Proof. destruct demoStarted as [[[job r]|e] b] eqn:E; vm_compute in E; [|done]. injection E as <- <- <-. eexists _, _. split_and!; vm_compute; reflexivity. Qed.

Lemma demoRunning_reachable : demo_reachable demoRunning.
Proof.
  exists demoReady. split; [by exists demoCall, None, demoInterrupted|]. apply rtc_once. destruct demoRunStarted_eq as (job & r & E & Hw & _).
  replace demoRunning with (mkSys demoStarted.2 (<[job_id job := pendingDestinations r]> ∅) []) by (unfold demoRunning at 1; f_equal; symmetry; exact Hw).
  eapply (step_run _ _ _ _ _ _ _ _ _ _ _ demoStart "1" "plan_1" [] "admin" (sy_backup demoReady)); [done|exact E].
Qed.

Lemma leases_exclusive_witness : holder (sy_backup demoRunning) (keyOf demoSha demoSha demoAddress (b_state (sy_backup demoRunning)) "dst_1") = "job_1".
Proof.
  destruct demoRunStarted_eq as (_ & _ & _ & _ & Hw).
  destruct (leases_exclusive demoZones UTC demoText demoDigestOf demoSha demoSha demoAddress demoFingerprint demoSecretsText (λ _, None) "" demoRunning demoRunning_reachable) as (H & _).
  destruct (H "job_1" {["dst_1"]} "dst_1" Hw) as (_ & Hh & _); [by apply elem_of_singleton|exact Hh].
Defined.

Lemma demoDeleted_changes : configuration (b_state (sy_backup demoDeleted)) ≠ configuration (b_state (sy_backup demoReady)).
Proof. intros E%(f_equal (λ c, size c.1)). vm_compute in E. discriminate E. Qed.

Lemma configuration_frozen_witness : sy_workers demoReady = ∅.
Proof.
  exact (proj1 (configuration_frozen demoZones UTC demoText demoDigestOf demoSha demoSha demoAddress demoFingerprint demoSecretsText (λ _, None) "" demoReady demoDeleted
    demoReady_reachable (step_delete_plan _ _ _ _ _ _ _ _ _ _ _ demoCall "plan_1" (sy_backup demoReady) ∅ []) demoDeleted_changes)).
Defined.

Lemma Reconcile_settles_witness : ∃ r p, Runs (b_state (sy_backup demoReady)) !! "run_0" = Some (r, p) ∧ active_run r = false.
Proof.
  destruct (Runs (b_state (sy_backup demoReady)) !! "run_0") as [[r p]|] eqn:E; [|by vm_compute in E]. exists r, p. split; [reflexivity|].
  exact (proj1 (Reconcile_settles demoText demoCall None demoInterrupted "run_0" r p eq_refl E)).
Defined.

Lemma demoReady_unique : unique_repositories demoSha demoSha demoAddress (Destinations (b_state (sy_backup demoReady))).
Proof.
  assert (Destinations (b_state (sy_backup demoReady)) = {["dst_1" := demoDestination]}) as -> by (vm_compute; reflexivity).
  intros id1 id2 d1 d2 H1 H2 _. apply lookup_singleton_Some in H1 as [<- _]. apply lookup_singleton_Some in H2 as [<- _]. reflexivity.
Qed.

Lemma repositories_stay_distinct_witness : unique_repositories demoSha demoSha demoAddress (Destinations (b_state (sy_backup demoDeleted))).
Proof.
  apply (repositories_stay_distinct demoZones UTC demoText demoDigestOf demoSha demoSha demoAddress demoFingerprint demoSecretsText (λ _, None) "" demoReady demoDeleted).
  - exists demoCall, None, demoInterrupted. repeat split.
  - apply rtc_once, (step_delete_plan _ _ _ _ _ _ _ _ _ _ _ demoCall "plan_1" (sy_backup demoReady) ∅ []).
  - exact demoReady_unique.
Defined.
