(* ===== verification/BackupTransfer.v ===== *)
(** * internal/backup/transfers.go, repository.go, snapshot_verification.go, service.go: the copies of a run

    How a prepared recovery set gets into a repository: adopting or making a
    snapshot, verifying its objects against the staged ones, retention, and the end
    of the run.  restic, the staging directory and the clock are parameters; what
    other copies of the same run and the rest of the service do between two updates
    is the parameter [te_others]. *)

From stdpp Require Import gmap strings list sorting relations.
From Stdlib Require Import Ascii ZArith.
From S2P Require Import Prelude GoStrings GoPath GoTime BackupSchedule BackupEvidence BackupState BackupRetention Store BackupPolicy BackupPlans.
From S2P Require Import JobsResource JobsLocks.
From S2P Require JobsService.
From S2P Require Import BackupLeases BackupDestinations BackupSystem.

Local Open Scope Z_scope.

(** ** Verification against the staging directory *)

(** A staged file: its path below the directory, whether it is regular, its size. *)
Record staged := mkStaged { sg_path : string; sg_regular : bool; sg_size : Z }.

(** What is read: the staged manifest, the walk, restic's listing, its manifest. *)
Record stageEnv := mkStage {
  sg_manifest : res string string; sg_walk : res string (list staged); sg_listing : res string listing_lines; sg_remote : res string string }.

Fixpoint stagedObjects (expected : gmap string Z) (l : list staged) : res verify_error (gmap string Z) :=
  match l with
  | [] => Ok expected
  | f :: rest =>
    if negb (sg_regular f) then Err (Unavailable "prepared recovery set contains a non-regular object")
    else stagedObjects (<["/" +:+ sg_path f := sg_size f]> expected) rest
  end.

Definition verifyRecoveryObjects (e : stageEnv) : option verify_error :=
  match sg_manifest e with
  | Err m => Some (Unavailable m)
  | Ok manifest =>
    match sg_walk e with
    | Err m => Some (Unavailable m)
    | Ok files =>
      match stagedObjects ∅ files with
      | Err e => Some e
      | Ok expected =>
        match verifySnapshotObjects (sg_listing e) expected with
        | Some e => Some e
        | None =>
          match sg_remote e with
          | Err m => Some (Unavailable m)
          | Ok remote => if str_eqb (trim_space remote) (trim_space manifest) then None else Some errIncompleteSnapshot
          end
        end
      end
    end
  end.

(** ** Uploading *)

Record uploadEnv := mkUpload {
  up_prior : res string (option (list string));  (* the ids restic lists for the run; [None]: not JSON *)
  up_check : string → option verify_error;  (* verifyRecoveryObjects of such an id *)
  up_backup : res string (list (option string)) }.  (* the snapshot id on each line of the output *)

(** From the last listed snapshot to the first. *)
Fixpoint adopt (check : string → option verify_error) (ids : list string) : res backup_error (option string) :=
  match ids with
  | [] => Ok None
  | id :: rest =>
    if negb (snapshotID id) then adopt check rest
    else match check id with
    | None => Ok (Some id)
    | Some errIncompleteSnapshot => adopt check rest
    | Some _ => Err (ErrOther "existing snapshot verification unavailable")
    end
  end.

Definition reportedSnapshot (line : option string) : bool := match line with Some id => snapshotID id | None => false end.

(** The id, and whether restic made a new snapshot. *)
Definition upload (e : uploadEnv) : res backup_error string * bool :=
  match up_prior e with
  | Err m => (Err (ErrOther m), false)
  | Ok None => (Err (ErrOther "invalid restic snapshot lookup response"), false)
  | Ok (Some prior) =>
    match adopt (up_check e) (rev prior) with
    | Err e => (Err e, false)
    | Ok (Some id) => (Ok id, false)
    | Ok None =>
      match up_backup e with
      | Err m => (Err (ErrOther m), true)
      | Ok lines =>
        match find reportedSnapshot lines with
        | Some (Some id) => (Ok id, true)
        | _ => (Err (ErrOther "restic did not report a completed snapshot"), true)
        end
      end
    end
  end.

(** ** One copy *)

(** The run shared by the workers of its copies, and the service. *)
Record world := mkWorld { wd_run : Run; wd_backup : Backup }.

Definition with_copies (r : Run) (copies : list CopyResult) (phase : string) : Run :=
  mkRun (run_id r) (run_job r) (run_plan r) (run_state r) (run_capture_state r) phase (run_completed_at r) (run_captured_at r) (run_created_at r)
    (run_expires_at r) copies (run_error r) (run_plan_name r) (run_manifest r).

Definition sentinel (base reason : string) : string := if str_empty reason then base else base +:+ ": " +:+ reason.

(** The [Error] method. *)
Definition error_text (e : backup_error) : string :=
  match e with
  | BackupSchedule.ErrNotFound => "backup object not found"
  | ErrInvalid m => sentinel "invalid backup configuration" m
  | ErrBusy m => sentinel "backup configuration is in use" m
  | ErrExpired => "prepared recovery set expired; a new capture is required"
  | ErrOther m => m
  end.
Definition verify_text (e : verify_error) : string :=
  match e with
  | errIncompleteSnapshot => "snapshot recovery objects are incomplete"
  | errLegacySnapshot => "legacy recovery object requires a new verified backup"
  | errUnsupportedSnapshot => "snapshot recovery format is unsupported"
  | errInvalidSnapshot => "snapshot recovery manifest is invalid"
  | Unavailable m => m
  end.

Definition newline : string := str1 (chr 10).
(** [errors.Join]: the messages on a line each. *)
Definition joined_text (es : errors) : option string := match es with [] => None | _ => Some (join newline (error_text <$> es)) end.

(** The outside of one copy.  Updates, clock readings and cancellation tests are
    numbered in the order of the code. *)
Record transferEnv := mkTransfer {
  te_upload : uploadEnv;
  te_stage : stageEnv;
  te_retain : retainEnv;
  te_call : nat → callEnv;
  te_now : nat → Time;
  te_cancelled : nat → option string;
  te_others : nat → world → world;
  te_progress : list nat }.  (* the numbers of the progress updates *)

Section transfer.
Context (state_text : state → string) (digest : string * list Source → string).
Context `{!MapRange string (Run * Plan), !MapRange string snapshotClassification}.

(** The closure that [ExecuteRun] gives to a copy. *)
Definition update (env : callEnv) (p : Plan) (index : nat) (c : CopyResult) (phase : string) (w : world) : option backup_error * world :=
  let copies := <[index := c]> (run_copies (wd_run w)) in
  if str_eqb phase "progress" then
    let run := with_copies (wd_run w) copies (run_phase (wd_run w)) in (None, mkWorld run (put_run (wd_backup w) run p))
  else
    let run := with_copies (wd_run w) copies phase in
    let '(e, b) := saveRun state_text digest env run p (wd_backup w) in (e, mkWorld run b).

(** The [n]th update, after what the others did. *)
Definition update_at (env : transferEnv) (n : nat) (p : Plan) (index : nat) (c : CopyResult) (phase : string) (w : world) : option backup_error * world :=
  update (te_call env n) p index c phase (te_others env n w).

(** What [retain] leaves in memory and in the settings. *)
Definition apply_outcome (now : Time) (o : outcome) (b : Backup) : Backup :=
  let b := with_state b (o_state o) in
  match o_durable o with
  | None => b
  | Some s =>
    match SetAppSetting None (JobsService.store (b_jobs b)) settingKey (state_text s) now with
    | Ok db => with_job_service b (JobsService.with_store (b_jobs b) db)
    | Err _ => b
    end
  end.

(** The retention itself, under the current policy; the commands it ran. *)
Definition runRetention (env : transferEnv) (p : Plan) (c : CopyResult) (b : Backup) : option string * Backup * list command :=
  match currentRetentionLocked (b_state b) (p_id p) (c_destination c) with
  | Err e => (Some (error_text e), b, [])
  | Ok (d, policy) =>
    let s := b_state b in
    let s := if keepAllSnapshots policy || is_some (snapshotClassificationLocked s (c_destination c) (c_snapshot c)) then s
             else rememberSnapshotClassificationLocked s (c_destination c) (c_snapshot c) "complete" (default 0 (c_verified_at c)) in
    let o := retain (te_retain env) s d (p_id p) policy in
    (joined_text (o_errors o), apply_outcome (env_now (te_retain env) 0) o (with_state b s), o_commands o)
  end.

Definition executeRetention (env : transferEnv) (p : Plan) (index : nat) (c : CopyResult) (w : world) : CopyResult * world * list command :=
  let '(c, w, cs) :=
    if SchedulingPaused (guard_of (wd_backup w)) then
      (with_maintenance c (if str_empty (c_retention_error c) then "skipped" else "failed") (c_retention_error c) (c_retention_started_at c) (c_retention_completed_at c), w, [])
    else
      let started := Some (te_now env 10) in
      let c := with_maintenance c "running" "" started None in
      let '(e, w) := update_at env 10 p index c "retention" w in
      let '(err, w, cs) :=
        match e, te_cancelled env 0 with
        | Some e, _ => (Some (error_text e), w, [])
        | None, Some m => (Some m, w, [])
        | None, None => let '(err, b, cs) := runRetention env p c (wd_backup w) in (err, mkWorld (wd_run w) b, cs)
        end in
      let err := match err with Some m => Some m | None => te_cancelled env 1 end in
      let completed := Some (te_now env 11) in
      (match err with Some m => with_maintenance c "failed" m started completed | None => with_maintenance c "succeeded" "" started completed end, w, cs) in
  match update_at env 11 p index c "retention" w with
  | (Some e, w) => (with_maintenance c "failed" ("backup state persistence failed: " +:+ error_text e) (c_retention_started_at c) (c_retention_completed_at c), w, cs)
  | (None, w) => (c, w, cs)
  end.

Definition with_snapshot (c : CopyResult) (id : string) (uploaded : option Time) : CopyResult :=
  mkCopy (c_destination c) (c_state c) id uploaded (c_verification c) (c_verified_at c) (c_retention c) (c_retention_error c) (c_retention_completed_at c)
    (c_error c) (c_completed_at c) (c_retention_started_at c).
Definition with_verification (c : CopyResult) (id verification : string) (at_ : option Time) : CopyResult :=
  mkCopy (c_destination c) (c_state c) id (c_uploaded_at c) verification at_ (c_retention c) (c_retention_error c) (c_retention_completed_at c)
    (c_error c) (c_completed_at c) (c_retention_started_at c).
Definition with_completion (c : CopyResult) (st err : string) (at_ : option Time) : CopyResult :=
  mkCopy (c_destination c) st (c_snapshot c) (c_uploaded_at c) (c_verification c) (c_verified_at c) (c_retention c) (c_retention_error c) (c_retention_completed_at c)
    err at_ (c_retention_started_at c).

(** The upload step, unless a snapshot is known from an earlier attempt; whether
    restic made a snapshot. *)
Definition uploadCopy (env : transferEnv) (p : Plan) (index : nat) (c : CopyResult) (w : world) : option string * CopyResult * world * bool :=
  if negb (str_empty (c_snapshot c)) then (None, c, w, false)
  else
    let w := fold_left (λ w n, (update_at env n p index c "progress" w).2) (te_progress env) w in
    match upload (te_upload env) with
    | (Ok id, made) => (None, with_snapshot c id (Some (te_now env 1)), w, made)
    | (Err e, made) => (Some (error_text e), with_snapshot c "" (c_uploaded_at c), w, made)
    end.

Definition verifyCopy (env : transferEnv) (p : Plan) (index : nat) (c : CopyResult) (w : world) : option string * CopyResult * world :=
  let '(e, w) := update_at env 1 p index c "verify" w in
  match e with
  | Some e => (Some (error_text e), with_verification c (c_snapshot c) "unavailable" None, w)
  | None =>
    match verifyRecoveryObjects (te_stage env) with
    | None => (None, with_verification c (c_snapshot c) recoveryObjectsVerified (Some (te_now env 2)), w)
    | Some errIncompleteSnapshot => (Some (verify_text errIncompleteSnapshot), with_verification c "" "failed" None, w)
    | Some e => (Some (verify_text e), with_verification c (c_snapshot c) "unavailable" None, w)
    end
  end.

(** [d.ID] is marked as available. *)
Definition markAvailable (d : Destination) (uploaded : option Time) (s : state) : state :=
  let current := default zeroDestination (Destinations s !! d_id d) in
  let marked := mkDestination (d_id current) (d_name current) (d_kind current) (d_repository current) (MetadataCheck current) (DataCheck current) (CheckHolds current)
    (MaintenanceReviewToken current) (LastCheckAttemptAt current) (LastCheckAttemptPolicy current) (LastCheckAttemptStatus current) (LastCheckAttemptError current)
    (LastCheckAt current) (LastCheckPolicy current) (CheckStatus current) (CheckError current) (CheckSchedule current) (PruneSchedule current) (CheckReadData current)
    (LastCheckScheduledAt current) (LastPruneScheduledAt current) (LastRestoreTestAt current) (LastRestoreTestSnapshotID current) "available" "" (InventoryError current)
    (LastInventoryAt current) (LastInventoryAttemptAt current) uploaded (ExpectedFilesystem current) (Region current) (CredentialsConfigured current) in
  with_destination_map s (<[d_id d := marked]> (Destinations s)).

(** The transfer of a copy that is not verified yet. *)
Definition transferCopy (env : transferEnv) (p : Plan) (index : nat) (c : CopyResult) (w : world) : CopyResult * world * bool :=
  let c := with_completion c "running" "" None in
  let destination := Destinations (b_state (wd_backup w)) !! c_destination c in
  let '(err, w) :=
    match destination with
    | None => (Some (error_text BackupSchedule.ErrNotFound), w)
    | Some _ => let '(e, w) := update_at env 0 p index c "upload" w in (error_text <$> e, w)
    end in
  let '(err, c, w, made) := match err with Some m => (Some m, c, w, false) | None => uploadCopy env p index c w end in
  let '(err, c, w) := match err with Some m => (Some m, c, w) | None => verifyCopy env p index c w end in
  let completed := Some (te_now env 3) in
  let '(c, w) :=
    match err, destination with
    | None, Some d => (with_completion c "succeeded" (c_error c) completed, mkWorld (wd_run w) (with_state (wd_backup w) (markAvailable d (c_uploaded_at c) (b_state (wd_backup w)))))
    | Some m, _ => (with_completion c "failed" m completed, w)
    | None, None => (with_completion c "succeeded" (c_error c) completed, w)
    end in
  match update_at env 2 p index c "upload" w with
  | (Some e, w) => (with_completion c "failed" ("backup state persistence failed: " +:+ error_text e) completed, w, made)
  | (None, w) => (c, w, made)
  end.

Definition executeCopy (env : transferEnv) (p : Plan) (index : nat) (c : CopyResult) (w : world) : CopyResult * world * list command :=
  if verifiedCopy c then executeRetention env p index c w
  else
    let '(c, w, _) := transferCopy env p index c w in
    if verifiedCopy c then executeRetention env p index c w else (c, w, []).

(** ** The end of a copy and of the run *)

Definition reason_text (r : ConflictReason) : string :=
  match r with
  | ConflictReasonResourceHeld => "resource_held"
  | ConflictReasonDrainActive => "drain_active"
  | ConflictReasonDrainBlocked => "drain_blocked"
  end.
Definition lock_text (e : lock_error) : string :=
  match e with
  | ErrResourceConflict c =>
    "job resource conflict (" +:+ reason_text (Reason c) +:+ "): requested " +:+ resource_string (Requested c) +:+ " conflicts with "
      +:+ resource_string (Conflicting c) +:+ " held by job " +:+ ConflictingJobID c
  | ErrNormalize ErrResourcesRequired => "job resources are required"
  | ErrNormalize (ErrInvalidResource m) => "invalid job resource: " +:+ m
  | ErrLeaseInactive => "job resource lease is no longer active"
  end.

Context (sha : string → string) (lower : string → string) (parse_address : string → option address).
Context `{!MapRange string string, !MapRange Resource string}.

(** A worker that is done with its copy releases the repository. *)
Definition settleCopy (job : string) (index : nat) (destination : string) (c : CopyResult) (w : world) : world :=
  let put c b := mkWorld (with_copies (wd_run w) (<[index := c]> (run_copies (wd_run w))) (run_phase (wd_run w))) b in
  match releaseCompletedRepository sha lower parse_address job destination (wd_backup w) with
  | (Err (OpLocks e), b) =>
    let message := "Could not release completed repository reservation: " +:+ lock_text e in
    put (if verifiedCopy c then with_maintenance c "failed" message (c_retention_started_at c) (c_retention_completed_at c) else with_transfer c "failed" message) b
  | (_, b) => put c b
  end.

Inductive run_failure : Type := RunCancelled | RunTimedOut | RunFailed (message : string).
Definition failure_text (e : run_failure) : string :=
  match e with RunCancelled => "context canceled" | RunTimedOut => "context deadline exceeded" | RunFailed m => m end.

(** The result of the transfers: [ctx] is the state of the context. *)
Definition operationError (ctx : option run_failure) (copies : list CopyResult) : option run_failure :=
  match ctx with
  | Some e => Some e
  | None =>
    if existsb (λ c, negb (str_eqb (c_state c) "succeeded")) copies
    then Some (RunFailed "one or more configured copies failed to upload or verify; inspect each copy result")
    else if existsb (λ c, str_eqb (c_retention c) "failed") copies
    then Some (RunFailed "configured copies are verified; retention requires attention")
    else None
  end.

Definition failedRetention (now : Time) (m : string) (c : CopyResult) : CopyResult :=
  if verifiedCopy c && str_in (c_retention c) ["pending"; "running"] then with_maintenance c "failed" m (c_retention_started_at c) (Some now) else c.

Definition finishedRun (now : Time) (e : option run_failure) (r : Run) : Run :=
  mkRun (run_id r) (run_job r) (run_plan r) (match e with None => "succeeded" | Some _ => "failed" end) (run_capture_state r) "finished" (Some now)
    (run_captured_at r) (run_created_at r) (run_expires_at r)
    (match e with None => run_copies r | Some e => failedRetention now (failure_text e) <$> run_copies r end)
    (match e with None => run_error r | Some e => failure_text e end) (run_plan_name r) (run_manifest r).

(** [finish]: the job takes the outcome of the run. *)
Definition finishJob (ioT ioG : IO) (now : Time) (j : Job) (e : option run_failure) (b : Backup) : Backup :=
  with_job_service b
    (match e with
     | None => JobsService.FinishSucceeded ioT ioG now (b_jobs b) j
     | Some RunCancelled => JobsService.FinishCancelled ioT ioG now (b_jobs b) j "backup_cancelled" "Backup operation cancelled."
     | Some RunTimedOut => JobsService.FinishTimedOut ioT ioG now (b_jobs b) j "backup_timeout" "Backup operation timed out."
     | Some (RunFailed m) => JobsService.FinishFailed ioT ioG now (b_jobs b) j "backup_failed" m
     end).2.

Record finishEnv := mkFinish { fe_call : callEnv; fe_transition : IO; fe_get : IO; fe_now : Time }.

(** The deferred end of ExecuteRun, with the release of the reservations; whether
    the staging directory is removed. *)
Definition finishRun (env : finishEnv) (j : Job) (p : Plan) (e : option run_failure) (w : world) : Run * bool * Backup :=
  let run := finishedRun (call_now (fe_call env)) e (wd_run w) in
  let '(failed, b) := saveRun state_text digest (fe_call env) run p (wd_backup w) in
  let e := match failed with Some _ => Some (RunFailed "backup state persistence failed") | None => e end in
  let removed := negb (runNeedsStaging run) || negb (str_eqb (run_capture_state run) "succeeded") in
  (run, removed, releaseRepositories (job_id j) (finishJob (fe_transition env) (fe_get env) (fe_now env) j e b)).
End transfer.

(** ** Properties *)

Lemma stagedObjects_Ok files expected result : stagedObjects expected files = Ok result → NoDup (sg_path <$> files) →
  Forall (λ f, sg_regular f = true ∧ result !! ("/" +:+ sg_path f) = Some (sg_size f)) files ∧
  ∀ path, (∀ f, f ∈ files → "/" +:+ sg_path f ≠ path) → result !! path = expected !! path.
Proof.
  revert expected. induction files as [|f files IH]; intros expected; cbn [stagedObjects]; [by intros [= <-]|].
  destruct (sg_regular f) eqn:Er; cbn [negb]; [|done]. intros H Hn. rewrite fmap_cons, NoDup_cons in Hn. destruct Hn as [Hf Hn].
  destruct (IH _ H Hn) as [Hall Hother]. split.
  - constructor; [|done]. split; [done|]. rewrite Hother; [by rewrite lookup_insert_eq|]. intros g Hg E. apply str_append_inj in E. apply Hf. rewrite <- E. by apply list_elem_of_fmap_2.
  - intros path Hp. rewrite Hother; [|intros g Hg; apply Hp; by right]. rewrite lookup_insert_ne; [done|]. apply Hp. by left.
Qed.

(** a transferred copy is verified only when every staged file is in the listing
    of its snapshot as a regular file of the same size and the manifest in the
    snapshot is the staged one; no failed command or unreadable directory counts as
    verification. *)
Theorem verifyRecoveryObjects_sound e : verifyRecoveryObjects e = None → (∀ files, sg_walk e = Ok files → NoDup (sg_path <$> files)) →
  ∃ manifest remote files ls, sg_manifest e = Ok manifest ∧ sg_remote e = Ok remote ∧ sg_walk e = Ok files ∧ sg_listing e = Ok ls ∧
    trim_space remote = trim_space manifest ∧ Forall (λ f, sg_regular f = true ∧ satisfies ls ("/" +:+ sg_path f) (sg_size f)) files.
Proof.
  unfold verifyRecoveryObjects. destruct (sg_manifest e) as [manifest|]; [|done]. destruct (sg_walk e) as [files|]; [|done].
  destruct (stagedObjects ∅ files) as [expected|] eqn:Es; [|done]. destruct (verifySnapshotObjects (sg_listing e) expected) eqn:Ev; [done|].
  destruct (sg_remote e) as [remote|]; [|done]. destruct (str_eqb _ _) eqn:Et; [|done]. intros _ Hn. boolify.
  apply verifySnapshotObjects_nil in Ev as (ls & Hl & Hs). destruct (stagedObjects_Ok _ _ _ Es (Hn files eq_refl)) as [Hall _].
  exists manifest, remote, files, ls. split_and!; try done. apply (Forall_impl _ _ _ Hall). intros f [Hr Hf]. split; [done|by apply Hs].
Qed.

Lemma adopt_spec check ids : match adopt check ids with
  | Ok (Some id) => id ∈ ids ∧ snapshotID id = true ∧ check id = None
  | Ok None => ∀ id, id ∈ ids → snapshotID id = true → check id = Some errIncompleteSnapshot
  | Err _ => ∃ id e, id ∈ ids ∧ snapshotID id = true ∧ check id = Some e ∧ e ≠ errIncompleteSnapshot
  end.
Proof.
  induction ids as [|id ids IH]; cbn [adopt]; [by intros ? ?%elem_of_nil|]. destruct (snapshotID id) eqn:Es; cbn [negb].
  - destruct (check id) as [e|] eqn:Ec; [|split_and!; [by left|done|done]]. destruct e; try (exists id; eexists; split_and!; [by left|done|done|done]).
    destruct (adopt check ids) as [[id'|]|]; [destruct IH as (? & ? & ?); split_and!; [by right|done|done]| |destruct IH as (i & e' & ? & ?); exists i, e'; split; [by right|done]].
    intros i [->|Hi]%elem_of_cons; [done|by apply IH].
  - destruct (adopt check ids) as [[id'|]|]; [destruct IH as (? & ? & ?); split_and!; [by right|done|done]| |destruct IH as (i & e' & ? & ?); exists i, e'; split; [by right|done]].
    intros i [->|Hi]%elem_of_cons; [by rewrite Es|by apply IH].
Qed.

Lemma upload_snapshot e id : (upload e).1 = Ok id → snapshotID id = true.
Proof.
  unfold upload. destruct (up_prior e) as [[prior|]|]; [|done..]. pose proof (adopt_spec (up_check e) (rev prior)) as Ha.
  destruct (adopt (up_check e) (rev prior)) as [[i|]|]; [intros [= <-]; by destruct Ha as (_ & ? & _)| |done].
  destruct (up_backup e) as [lines|]; [|done]. destruct (find reportedSnapshot lines) as [[i|]|] eqn:Ef; [|done..]. intros [= <-]. by apply find_some in Ef as [_ Ef].
Qed.

(** a retried upload never duplicates a usable snapshot: restic makes a new
    one only after every snapshot that an earlier attempt left for the run was found
    incomplete, an adopted snapshot is one of them that was verified, and a check
    that could not be made stops the upload instead. *)
Theorem upload_adopts e : let r := upload e in
  (r.2 = true → ∃ prior, up_prior e = Ok (Some prior) ∧ ∀ id, id ∈ prior → snapshotID id = true → up_check e id = Some errIncompleteSnapshot) ∧
  (∀ id, r.1 = Ok id → snapshotID id = true ∧
     (r.2 = false → ∃ prior, up_prior e = Ok (Some prior) ∧ id ∈ prior ∧ up_check e id = None)) ∧
  (∀ prior id, up_prior e = Ok (Some prior) → id ∈ prior → snapshotID id = true → up_check e id = None →
     r.2 = false ∧ ∀ id', r.1 = Ok id' → up_check e id' = None).
Proof.
  cbn zeta. unfold upload. destruct (up_prior e) as [[prior|]|]; [|done..]. pose proof (adopt_spec (up_check e) (rev prior)) as Ha.
  assert (∀ id, id ∈ rev prior ↔ id ∈ prior) as Hr by (intros id; rewrite !list_elem_of_In; symmetry; apply in_rev).
  destruct (adopt (up_check e) (rev prior)) as [[id|]|]; cbn [fst snd].
  - destruct Ha as (Hi & Hs & Hc). split_and!; [done| |]; [|by intros p i _ _ _ _; split; [done|intros ? [= <-]]].
    intros i [= <-]. split; [done|]. intros _. exists prior. by rewrite <- Hr.
  - assert (∀ id, id ∈ prior → snapshotID id = true → up_check e id = Some errIncompleteSnapshot) as Hall by (intros i Hi; by apply Ha, Hr).
    assert (∀ p i, Ok (Some prior) = Ok (E := string) (Some p) → i ∈ p → snapshotID i = true → up_check e i = None → False) as Hno.
    { intros p i [= <-] Hi Hs Hc. by rewrite (Hall i Hi Hs) in Hc. }
    destruct (up_backup e) as [lines|]; cbn [fst snd]; [|split_and!; [eauto|done|intros p i Hp Hi Hs Hc; destruct (Hno p i Hp Hi Hs Hc)]].
    destruct (find reportedSnapshot lines) as [[i|]|] eqn:Ef; cbn [fst snd];
      (split_and!; [eauto| |intros p j Hp Hj Hs Hc; destruct (Hno p j Hp Hj Hs Hc)]); [|done..].
    intros j [= <-]. split; [|done]. by apply find_some in Ef as [_ Ef].
  - destruct Ha as (i & er & _). split_and!; done.
Qed.

(** *** The result of a copy *)

Section copies.
Context (state_text : state → string) (digest : string * list Source → string).
Context `{!MapRange string (Run * Plan), !MapRange string snapshotClassification}.
Implicit Types (env : transferEnv) (w : world) (c : CopyResult).

Lemma executeRetention_form env p index c w : ∃ st err started completed,
  (executeRetention state_text digest env p index c w).1.1 = with_maintenance c st err started completed ∧ st ∈ ["skipped"; "failed"; "succeeded"].
Proof using.
  unfold executeRetention.
  set (first := if SchedulingPaused _ then _ else _).
  assert (∃ st err started completed, first.1.1 = with_maintenance c st err started completed ∧ st ∈ ["skipped"; "failed"; "succeeded"]) as (st & err & a & b & Hc & Hst).
  { subst first. destruct (SchedulingPaused _); [cbn; destruct (str_empty _); do 4 eexists; (split; [reflexivity|set_solver])|]. cbn zeta.
    destruct (update_at _ _ _ _ _ _ _ _ _) as [e w1]. destruct (match e with Some _ => _ | None => _ end) as [[er w2] cs]. cbn [fst].
    destruct (match er with Some _ => _ | None => _ end); do 4 eexists; (split; [reflexivity|set_solver]). }
  destruct first as [[c1 w1] cs]. cbn [fst] in Hc. subst c1. destruct (update_at _ _ _ _ _ _ _ _ _) as [[e|] w2]; cbn [fst].
  - do 4 eexists. split; [reflexivity|set_solver].
  - by exists st, err, a, b.
Qed.

Lemma executeRetention_paused env p index c w : SchedulingPaused (guard_of (wd_backup w)) = true → (executeRetention state_text digest env p index c w).2 = [].
Proof using. intros Hp. unfold executeRetention. rewrite Hp. by destruct (update_at _ _ _ _ _ _ _ _ _) as [[e|] w']. Qed.

Lemma retention_settled c st err a b : verifiedCopy c = true → st ∈ ["skipped"; "failed"; "succeeded"] → let c' := with_maintenance c st err a b in
  transferEvidence c' = transferEvidence c ∧ verifiedCopy c' = true ∧ c_state c' = c_state c ∧ copyWorkPending c' = false ∧ c_retention c' = st.
Proof using.
  intros Hv Hst. cbn zeta. split_and!; try done. unfold copyWorkPending. assert (verifiedCopy (with_maintenance c st err a b) = true) as -> by done.
  assert (c_state c = "succeeded") as Hs by (unfold verifiedCopy in Hv; boolify; done). cbn. rewrite Hs. cbn. list_cases; by subst.
Qed.

Lemma uploadCopy_spec env p index c w : let '(err, c', w', made) := uploadCopy state_text digest env p index c w in
  c_destination c' = c_destination c ∧ (err = None → c_snapshot c' ≠ "" ∧ (c_snapshot c' = c_snapshot c ∨ (upload (te_upload env)).1 = Ok (c_snapshot c'))) ∧
  (c_snapshot c ≠ "" → c_snapshot c' = c_snapshot c).
Proof using.
  unfold uploadCopy. destruct (negb (str_empty (c_snapshot c))) eqn:E; [boolify; split_and!; [done|intros _; split; [done|by left]|done]|]. cbn zeta. boolify.
  pose proof (upload_snapshot (te_upload env)) as Hu. destruct (upload (te_upload env)) as [[id|e] made]; [|done]. split_and!; [done| |done].
  intros _. cbn. split; [|by right]. intros ->. by specialize (Hu "" eq_refl).
Qed.

Lemma verifyCopy_spec env p index c w : let '(err, c', w') := verifyCopy state_text digest env p index c w in
  c_destination c' = c_destination c ∧
  (err = None → c_snapshot c' = c_snapshot c ∧ c_verification c' = recoveryObjectsVerified ∧ is_Some (c_verified_at c') ∧ verifyRecoveryObjects (te_stage env) = None) ∧
  (c_snapshot c' = c_snapshot c ∨ (c_snapshot c' = "" ∧ verifyRecoveryObjects (te_stage env) = Some errIncompleteSnapshot)).
Proof using.
  unfold verifyCopy. destruct (update_at _ _ _ _ _ _ _ _ _) as [[e|] w']; [by split_and!; [| |left]|].
  destruct (verifyRecoveryObjects (te_stage env)) as [e|] eqn:Ev; [|split_and!; [done| |by left]; intros _; by split_and!].
  destruct e; split_and!; try done; (by left) || (by right).
Qed.

Lemma transferCopy_spec env p index c w : let '(c', w', made) := transferCopy state_text digest env p index c w in
  c_destination c' = c_destination c ∧ c_state c' ∈ ["succeeded"; "failed"] ∧
  (c_state c' = "succeeded" → verifiedCopy c' = true ∧ verifyRecoveryObjects (te_stage env) = None ∧
     (c_snapshot c' = c_snapshot c ∨ (upload (te_upload env)).1 = Ok (c_snapshot c'))) ∧
  (c_snapshot c ≠ "" → verifyRecoveryObjects (te_stage env) ≠ Some errIncompleteSnapshot → c_snapshot c' = c_snapshot c).
Proof using.
  unfold transferCopy. cbn zeta. set (c0 := with_completion c "running" "" None). set (dest := Destinations _ !! _).
  destruct (match dest with Some _ => _ | None => _ end) as [err w1].
  set (up := match err with Some m => (Some m, c0, w1, false) | None => _ end).
  assert (let '(e, c', w', made) := up in c_destination c' = c_destination c ∧ (e = None → err = None ∧ c_snapshot c' ≠ "" ∧ (c_snapshot c' = c_snapshot c ∨ (upload (te_upload env)).1 = Ok (c_snapshot c'))) ∧
    (c_snapshot c ≠ "" → c_snapshot c' = c_snapshot c)) as Hup.
  { subst up. destruct err as [m|]; [done|]. pose proof (uploadCopy_spec env p index c0 w1) as H.
    destruct (uploadCopy _ _ _ _ _ _ _) as [[[e c'] w'] made]. destruct H as (? & H2 & ?). split_and!; [done|intros He; split; [done|by apply H2]|done]. }
  destruct up as [[[err2 c1] w2] made]. destruct Hup as (D1 & S1 & K1).
  set (ver := match err2 with Some m => (Some m, c1, w2) | None => _ end).
  assert (let '(e, c', w') := ver in c_destination c' = c_destination c ∧
    (e = None → err = None ∧ c_snapshot c' ≠ "" ∧ c_verification c' = recoveryObjectsVerified ∧ is_Some (c_verified_at c') ∧ verifyRecoveryObjects (te_stage env) = None ∧
       (c_snapshot c' = c_snapshot c ∨ (upload (te_upload env)).1 = Ok (c_snapshot c'))) ∧
    (c_snapshot c' = c_snapshot c1 ∨ verifyRecoveryObjects (te_stage env) = Some errIncompleteSnapshot)) as Hver.
  { subst ver. destruct err2 as [m|]; [split_and!; [done|done|by left]|]. pose proof (verifyCopy_spec env p index c1 w2) as H.
    destruct (verifyCopy _ _ _ _ _ _ _) as [[e c'] w']. destruct H as (H1 & H2 & H3). split_and!; [congruence| |destruct H3 as [?|[_ ?]]; [by left|by right]].
    intros He. destruct (H2 He) as (-> & ? & ? & ?), (S1 eq_refl) as (? & ? & ?). by split_and!. }
  destruct ver as [[err3 c2] w3]. destruct Hver as (D2 & S2 & K2).
  set (done_ := match err3 with Some m => _ | None => _ end).
  assert (done_.1 = with_completion c2 (match err3 with None => "succeeded" | Some _ => "failed" end) (match err3 with None => c_error c2 | Some m => m end) (Some (te_now env 3))) as Hd.
  { subst done_. destruct err3; [done|]. by destruct dest. }
  destruct done_ as [c3 w4]. cbn [fst] in Hd. subst c3.
  assert (c_snapshot c ≠ "" → verifyRecoveryObjects (te_stage env) ≠ Some errIncompleteSnapshot → c_snapshot c2 = c_snapshot c) as Hk.
  { intros Hne Hi. destruct K2 as [->|?]; [by apply K1|done]. }
  destruct (update_at _ _ _ _ _ _ _ _ _) as [[e|] w5]; cbn; [split_and!; [done|rewrite !elem_of_cons; cbn; tauto|done|done]|]. destruct err3 as [m|]; [split_and!; [done|rewrite !elem_of_cons; cbn; tauto|done|done]|].
  destruct (S2 eq_refl) as (_ & Hs & Hv & Ha & Ho & Hu). split_and!; [done|rewrite !elem_of_cons; cbn; tauto| |done]. intros _. split_and!; [|done|done].
  unfold verifiedCopy. cbn. rewrite Hv. destruct Ha as [t ->]. cbn. rewrite andb_true_iff. split; [done|]. by apply negb_true_iff, bool_decide_eq_false.
Qed.

(** C13: a copy always settles: whatever else happens meanwhile, it ends as
    succeeded or failed with no work pending for its destination; it succeeds only
    with a snapshot that was verified, now or before; restic commands that delete
    are run only for a verified copy, and for one that was verified before never
    while automatic work is paused; a verified copy keeps its evidence whatever
    retention does; and a known snapshot is given up only when it is incomplete. *)
Theorem executeCopy_settles env p index c w : let '(c', w', commands) := executeCopy state_text digest env p index c w in
  c_destination c' = c_destination c ∧ c_state c' ∈ ["succeeded"; "failed"] ∧ copyWorkPending c' = false ∧
  (c_state c' = "succeeded" → verifiedCopy c' = true ∧ c_retention c' ∈ ["skipped"; "failed"; "succeeded"] ∧
     (verifiedCopy c = true ∨ verifyRecoveryObjects (te_stage env) = None)) ∧
  (commands ≠ [] → verifiedCopy c' = true ∧ (verifiedCopy c = true → SchedulingPaused (guard_of (wd_backup w)) = false)) ∧
  (verifiedCopy c = true → transferEvidence c' = transferEvidence c ∧ c_state c' = "succeeded") ∧
  (c_snapshot c ≠ "" → verifyRecoveryObjects (te_stage env) ≠ Some errIncompleteSnapshot → c_snapshot c' = c_snapshot c).
Proof using.
  unfold executeCopy. destruct (verifiedCopy c) eqn:Ev.
  - assert (c_state c = "succeeded") as Hs by (unfold verifiedCopy in Ev; boolify; done).
    pose proof (executeRetention_form env p index c w) as (st & err & a & b & Hc & Hst). pose proof (executeRetention_paused env p index c w) as Hp.
    destruct (executeRetention _ _ _ _ _ _ _) as [[c' w'] cs]. cbn [fst snd] in *. subst c'. destruct (retention_settled c st err a b Ev Hst) as (He & Hv & Hcs & Hw & Hr).
    split_and!; try done; [rewrite Hcs, Hs; by left|by intros _; split_and!; [|rewrite Hr|left]|].
    intros Hne. split; [done|]. intros _. destruct (SchedulingPaused _); [by destruct Hne; apply Hp|done].
  - pose proof (transferCopy_spec env p index c w) as Ht. destruct (transferCopy _ _ _ _ _ _ _) as [[c1 w1] made]. destruct Ht as (D1 & S1 & V1 & K1).
    destruct (verifiedCopy c1) eqn:Ev1.
    + assert (c_state c1 = "succeeded") as Hs by (unfold verifiedCopy in Ev1; boolify; done).
      pose proof (executeRetention_form env p index c1 w1) as (st & err & a & b & Hc & Hst).
      destruct (executeRetention _ _ _ _ _ _ _) as [[c' w'] cs]. cbn [fst] in Hc. subst c'. destruct (retention_settled c1 st err a b Ev1 Hst) as (He & Hv & Hcs & Hw & Hr).
      destruct (V1 Hs) as (_ & Ho & _). split_and!; try done; by intros _; split_and!; [|rewrite Hr|right].
    + assert (c_state c1 = "failed") as Hs by (list_cases; [|done]; by destruct (V1 S1) as (? & _); congruence).
      split_and!; try done; [|by rewrite Hs]. unfold copyWorkPending. by rewrite Ev1, Hs.
Qed.
End copies.

(** *** The end of the run *)

Lemma failedRetention_spec now m c : transferEvidence (failedRetention now m c) = transferEvidence c ∧ c_state (failedRetention now m c) = c_state c ∧
  (verifiedCopy c = true → c_retention (failedRetention now m c) ∉ ["pending"; "running"]).
Proof.
  unfold failedRetention. destruct (verifiedCopy c && str_in (c_retention c) ["pending"; "running"]) eqn:E.
  - split_and!; try done. intros _. cbn. by intros H; list_cases.
  - split_and!; try done. intros Hv. rewrite Hv in E. cbn in E. by apply bool_decide_eq_false in E.
Qed.

Lemma operationError_None ctx copies : operationError ctx copies = None ↔
  ctx = None ∧ Forall (λ c, c_state c = "succeeded" ∧ c_retention c ≠ "failed") copies.
Proof.
  unfold operationError. destruct ctx; [by split; [|intros []]|]. rewrite Forall_forall.
  destruct (existsb (λ c, negb (str_eqb (c_state c) "succeeded")) copies) eqn:E1; [|destruct (existsb (λ c, str_eqb (c_retention c) "failed") copies) eqn:E2].
  - split; [done|]. intros [_ H]. apply existsb_exists in E1 as (c & Hc & Hs). apply list_elem_of_In in Hc. destruct (H c Hc) as [Hs' _]. rewrite Hs' in Hs. done.
  - split; [done|]. intros [_ H]. apply existsb_exists in E2 as (c & Hc & Hs). apply list_elem_of_In in Hc. destruct (H c Hc) as [_ Hs']. by boolify.
  - split; [|done]. intros _. split; [done|]. intros c Hc. pose proof (proj1 (existsb_false_iff _ _) E1 c Hc) as H1. pose proof (proj1 (existsb_false_iff _ _) E2 c Hc) as H2.
    cbn in H1, H2. by boolify.
Qed.

Section finish.
Context (zoneinfo : string → option Location) (Local : Location) (state_text : state → string) (digest : string * list Source → string).
Context (sha : string → string) (lower : string → string) (parse_address : string → option address) (fingerprint : review → string).
Context (secrets_text : Secrets → string) (parse_secrets : string → option Secrets) (directory : string).
Context `{!MapRange string (Run * Plan), !MapRange string Plan, !MapRange string Destination, !MapRange string string,
          !MapRange string snapshotClassification, !MapRange Resource string}.

Local Abbreviation lease_step := (step zoneinfo Local state_text digest sha lower parse_address fingerprint secrets_text parse_secrets directory).

(** the end of a run: it is reported as succeeded exactly when it was not
    cancelled, every copy succeeded and no retention failed; its copies keep their
    evidence and none waits for retention; the staging directory is kept exactly
    when the capture succeeded and a copy can still be retried; and the
    reservations of the job, and only those, are gone. *)
Theorem finishRun_outcome env j p ctx w : let e := operationError ctx (run_copies (wd_run w)) in
  let '(r, removed, b) := finishRun state_text digest env j p e w in
  active_run r = false ∧
  (run_state r = "succeeded" ↔ ctx = None ∧ Forall (λ c, c_state c = "succeeded" ∧ c_retention c ≠ "failed") (run_copies (wd_run w))) ∧
  Forall2 (λ c0 c, transferEvidence c = transferEvidence c0 ∧ c_state c = c_state c0 ∧
    (run_state r = "failed" → verifiedCopy c0 = true → c_retention c ∉ ["pending"; "running"])) (run_copies (wd_run w)) (run_copies r) ∧
  (removed = false ↔ run_capture_state r = "succeeded" ∧ ∃ c, c ∈ run_copies r ∧ c_state c ≠ "succeeded") ∧
  (∀ key, repositoryJobs b !! key = match repositoryJobs (wd_backup w) !! key with Some h => if bool_decide (h = job_id j) then None else Some h | None => None end).
Proof using.
  cbn zeta. unfold finishRun. set (e := operationError ctx _). set (r := finishedRun _ e _).
  pose proof (saveRun_kept state_text digest (fe_call env) r p (wd_backup w)) as [_ Hh _]. destruct (saveRun _ _ _ _ _ _) as [failed b]. cbn [snd] in Hh.
  split_and!.
  - unfold r, finishedRun. by destruct e.
  - rewrite <- operationError_None. fold e. unfold r, finishedRun. by destruct e.
  - unfold r, finishedRun. destruct e as [m|]; cbn.
    + apply Forall2_fmap_r, Forall_Forall2_diag, Forall_true. intros c. destruct (failedRetention_spec (call_now (fe_call env)) (failure_text m) c) as (? & ? & ?). by split_and!.
    + apply Forall_Forall2_diag, Forall_true. by intros c.
  - rewrite orb_false_iff, !negb_false_iff. unfold runNeedsStaging. rewrite existsb_exists. setoid_rewrite <- list_elem_of_In. split.
    + intros [(c & Hc & Hs) Hcap]. boolify. split; [done|]. by exists c.
    + intros [Hcap (c & Hc & Hs)]. split; [|by apply bool_decide_eq_true]. exists c. split; [done|]. by apply negb_true_iff, bool_decide_eq_false.
  - intros key. rewrite release_lookup. unfold finishJob. cbn [repositoryJobs with_job_service]. by rewrite Hh.
Qed.

(** the end of a run refines the abstract worker: it is a saving step, steps of
    the rest of the service and the last step of its job. *)
Theorem finishRun_refines env j p e w W R work : W !! job_id j = Some work → run_job (wd_run w) = job_id j → pendingDestinations (finishedRun (call_now (fe_call env)) e (wd_run w)) ⊆ work →
  (∀ rid r q, Runs (b_state (wd_backup w)) !! rid = Some (r, q) → active_run r = true → run_job r = job_id j → rid = run_id (wd_run w)) →
  rtc lease_step (mkSys (wd_backup w) W R) (mkSys (finishRun state_text digest env j p e w).2 (delete (job_id j) W) R).
Proof using.
  intros Hw Hj Hp Hruns. unfold finishRun. set (r := finishedRun _ e _) in *. assert (run_job r = job_id j) as Hrj by done.
  assert (lease_step (mkSys (wd_backup w) W R) (mkSys (saveRun state_text digest (fe_call env) r p (wd_backup w)).2 W R)) as Hs
    by (eapply step_save; [by rewrite Hrj|done]).
  pose proof (saveRun_kept state_text digest (fe_call env) r p (wd_backup w)) as [_ _ Hr]. destruct (saveRun _ _ _ _ _ _) as [failed b]. cbn [snd] in *.
  eapply rtc_l; [exact Hs|]. set (b1 := finishJob _ _ _ _ _ _). eapply rtc_l; [apply (step_outside _ _ _ _ _ _ _ _ _ _ _ b b1); by repeat constructor|].
  apply rtc_once, step_done; [by exists work|]. intros rid r' q Hl Ha E. eapply lookup_weaken in Hl; [|exact Hr].
  apply lookup_insert_Some in Hl as [[_ [= <- _]]|[Hne Hl]]; [|by rewrite (Hruns rid r' q Hl Ha E) in Hne].
  revert Ha. unfold r, finishedRun. by destruct e.
Qed.

(** The updates of a copy and its release are steps of the worker as well. *)
Lemma update_step env p index c phase w W R work : let w' := (update state_text digest env p index c phase w).2 in
  W !! run_job (wd_run w) = Some work → pendingDestinations (wd_run w') ⊆ work →
  lease_step (mkSys (wd_backup w) W R) (mkSys (wd_backup w') W R).
Proof using.
  cbn zeta. unfold update. intros Hw. destruct (str_eqb phase "progress"); [intros Hp; by eapply (step_progress _ _ _ _ _ _ _ _ _ _ _ (with_copies _ _ _))|].
  cbn zeta. set (r := with_copies _ _ _). pose proof (step_save zoneinfo Local state_text digest sha lower parse_address fingerprint secrets_text parse_secrets directory
    env r p (wd_backup w) W R work Hw) as Hs. destruct (saveRun _ _ _ _ _ _) as [e b]. exact Hs.
Qed.

Lemma settleCopy_step job index id c w W R work : W !! job = Some work → id ∈ work →
  (∀ rid r p, Runs (b_state (wd_backup w)) !! rid = Some (r, p) → active_run r = true → run_job r = job → id ∉ pendingDestinations r) →
  lease_step (mkSys (wd_backup w) W R) (mkSys (wd_backup (settleCopy sha lower parse_address job index id c w)) (<[job := work ∖ {[id]}]> W) R).
Proof using.
  intros Hw Hid Hruns. pose proof (step_release zoneinfo Local state_text digest sha lower parse_address fingerprint secrets_text parse_secrets directory
    job id (wd_backup w) W R work Hw Hid Hruns) as Hs.
  unfold settleCopy. destruct (releaseCompletedRepository _ _ _ _ _ _) as [[|e] b]; [exact Hs|]. by destruct e.
Qed.
End finish.

(** ** Concrete runs *)

#[local] Instance demoRunRange : MapRange string (Run * Plan) := default_range _ _.
#[local] Instance demoPlanRange : MapRange string Plan := default_range _ _.
#[local] Instance demoDestinationRange : MapRange string Destination := default_range _ _.
#[local] Instance demoStringRange : MapRange string string := default_range _ _.
#[local] Instance demoClassRange : MapRange string snapshotClassification := default_range _ _.
#[local] Instance demoResourceRange : MapRange Resource string := default_range _ _.

Definition demoStage : stageEnv :=
  mkStage (Ok "{}") (Ok [mkStaged "manifest.json" true 2; mkStaged "data/app.tar.zst" true 10])
    (Ok [Some (mkNode "/data/app.tar.zst" "file" 10); Some (mkNode "/manifest.json" "file" 2)]) (Ok ("{}" +:+ newline)).

Lemma demoStage_verified : verifyRecoveryObjects demoStage = None.
Proof. vm_compute. reflexivity. Qed.

Lemma verifyRecoveryObjects_sound_witness : ∃ ls, sg_listing demoStage = Ok ls ∧ satisfies ls "/data/app.tar.zst" 10.
Proof.
  destruct (verifyRecoveryObjects_sound demoStage demoStage_verified) as (m & r & files & ls & _ & _ & Hw & Hl & _ & Hf).
  - intros files [= <-]. apply (bool_decide_unpack _). vm_compute. exact I.
  - injection Hw as <-. inversion_clear Hf as [|? ? _ Hf']. inversion_clear Hf' as [|? ? [_ Hs] _]. exists ls. split; [exact Hl|exact Hs].
Defined.

Definition demoJob : Job := mkJob "job_1" "" "backup_run" "running" "admin" "req_1" (100 * Day) (Some (100 * Day)) None None "" "".
Definition demoRunWorld : world :=
  mkWorld (newRun (100 * Day) "run_1" "job_1" demoPlan [pendingCopy "dst_1"]) (sy_backup demoRunning).
Definition demoFinish : finishEnv := mkFinish demoCall None None (100 * Day).

Lemma demoRunning_only : map_Forall (λ rid rp, active_run rp.1 = true → run_job rp.1 = "job_1" → rid = "run_1") (Runs (b_state (sy_backup demoRunning))).
Proof. apply (bool_decide_unpack _). vm_compute. exact I. Qed.

Lemma demoRunning_worker : sy_workers demoRunning !! "job_1" = Some {["dst_1"]}.
Proof. vm_compute. reflexivity. Qed.

Lemma demoPending : pendingDestinations (finishedRun (call_now (fe_call demoFinish)) None (wd_run demoRunWorld)) ⊆ {["dst_1"]}.
Proof. apply (bool_decide_unpack _). vm_compute. exact I. Qed.

Lemma finishRun_refines_witness :
  rtc (step demoZones UTC demoText demoDigestOf demoSha demoSha demoAddress demoFingerprint demoSecretsText (λ _, None) "")
    (mkSys (sy_backup demoRunning) (sy_workers demoRunning) [])
    (mkSys (finishRun demoText demoDigestOf demoFinish demoJob demoPlan None demoRunWorld).2 (delete "job_1" (sy_workers demoRunning)) []).
Proof.
  apply (finishRun_refines demoZones UTC demoText demoDigestOf demoSha demoSha demoAddress demoFingerprint demoSecretsText (λ _, None) ""
    demoFinish demoJob demoPlan None demoRunWorld (sy_workers demoRunning) [] {["dst_1"]} demoRunning_worker eq_refl demoPending).
  intros rid r q Hl. exact (demoRunning_only rid (r, q) Hl).
Defined.

