(* ===== verification/JobsConcurrency.v ===== *)
(** * internal/jobs/service.go: the interleavings of the job service

    Goroutines interleave between the critical sections of the service: the lock
    table (mutex [mu]) and, per job, a store call with its publication (the event
    mutexes).  [conc_step] has one rule per critical section; the ghost sets say
    which jobs are between two of them.  The handlers of JobsService run as such
    steps, and the invariants hold in every reachable interleaving.  [host_step] adds
    the self-update helper (cmd/stacklab-self-update-helper/main.go), a process that
    writes the same tables without the locks of the server. *)

From stdpp Require Import gmap strings list relations sorting.
From Stdlib Require Import ZArith.
From S2P Require Import Prelude GoStrings GoTime JobsResource JobsLocks Store StoreRetention JobsService.

Local Open Scope Z_scope.

(** [starting]: locked and not yet in the database.  [finishing]: their locks are
    about to be released.  [issued]: every job id drawn so far. *)
Record Conc := mkConc { cs : Service; starting : gset string; finishing : gset string; issued : gset string }.

Definition is_active (db : DB) (id : string) : Prop := ∃ r, jobs db !! id = Some r ∧ r_state r ∈ activeStates.
Definition holds (s : Service) (id : string) : Prop := is_Some (resourcesByJob (locks s) !! id).

Section conc.
Context `{!MapRange Resource string}.

(** The channel receive of a subscriber. *)
Definition receive (s : Service) (jobID : string) (channel : nat) : Service :=
  with_subs s (alter (alter tail channel) jobID (subsByJob s)).

Inductive conc_step : Conc → Conc → Prop :=
(** [start]: [lockMany] with a newly drawn id *)
| c_lock s st fin iss id stackID requested rs draining l :
    id ∉ iss → id ≠ "" → normalizeResources stackID requested = Ok rs →
    lockMany (locks s) id rs draining = Ok l →
    conc_step (mkConc s st fin iss) (mkConc (with_locks s l) ({[id]} ∪ st) fin ({[id]} ∪ iss))
(** [start]: the store call and the publication of the first event *)
| c_create s st fin iss j e db :
    job_id j ∈ st → job_state j = "running" → CreateJobWithInitialEvent None (store s) j e = Ok db →
    conc_step (mkConc s st fin iss)
      (mkConc (notifyActivity (publishLive (with_store s db) e)) (st ∖ {[job_id j]}) fin iss)
(** [start]: the store call failed *)
| c_create_failed s st fin iss id :
    id ∈ st → conc_step (mkConc s st fin iss) (mkConc s (st ∖ {[id]}) ({[id]} ∪ fin) iss)
(** [commitTerminalTransition]: the transition and its publications *)
| c_commit io s st fin iss j events committed db :
    isTerminalJobState (job_state j) = true →
    TransitionJobWithEvents io (store s) j activeStates events = Ok (true, committed, db) →
    conc_step (mkConc s st fin iss)
      (mkConc (publishCommittedEvents (with_store s db) committed) st ({[job_id j]} ∪ fin) iss)
(** [commitTerminalTransition]: the job was already terminal *)
| c_conflict io s st fin iss id current :
    Get io s id = Ok current → isTerminalJobState (job_state current) = true →
    conc_step (mkConc s st fin iss) (mkConc s st ({[id]} ∪ fin) iss)
(** [unlockAll]; another goroutine may be about to release the same job *)
| c_unlock s st fin fin' iss id :
    id ∈ fin → fin' = fin ∨ fin' = fin ∖ {[id]} →
    conc_step (mkConc s st fin iss) (mkConc (with_locks s (unlockAll (locks s) id)) st fin' iss)
| c_replace s st fin iss id requested l :
    ReplaceResources (locks s) id requested = Ok l →
    conc_step (mkConc s st fin iss) (mkConc (with_locks s l) st fin iss)
(** [Cancel]: the transition and its publications *)
| c_cancel io s st fin iss j events committed db :
    job_state j = "cancel_requested" →
    TransitionJobWithEvents io (store s) j ["queued"; "running"] events = Ok (true, committed, db) →
    conc_step (mkConc s st fin iss) (mkConc (publishCommittedEvents (with_store s db) committed) st fin iss)
| c_publish io s st fin iss e e' db :
    AppendJobEvent io (store s) e = Ok (e', db) →
    conc_step (mkConc s st fin iss) (mkConc (notifyActivity (publishLive (with_store s db) e')) st fin iss)
| c_workflow io s st fin iss id w db :
    UpdateJobWorkflow io (store s) id w = Ok db →
    conc_step (mkConc s st fin iss) (mkConc (with_store s db) st fin iss)
(** the retention service *)
| c_prune io s st fin iss now policy summary db :
    PruneOperationalData io (store s) now policy = Ok (summary, db) →
    conc_step (mkConc s st fin iss) (mkConc (with_store s db) st fin iss)
(** metrics, the terminal hook, cancel calls *)
| c_emit s st fin iss e : conc_step (mkConc s st fin iss) (mkConc (emit s e) st fin iss)
| c_subscribe s st fin iss id ch : conc_step (mkConc s st fin iss) (mkConc (Subscribe s id ch) st fin iss)
| c_unsubscribe s st fin iss id ch : conc_step (mkConc s st fin iss) (mkConc (unsubscribe s id ch) st fin iss)
| c_receive s st fin iss id ch : conc_step (mkConc s st fin iss) (mkConc (receive s id ch) st fin iss).

(** A service starts with the active jobs a previous process left behind. *)
Definition initial (db : DB) : Conc := mkConc (NewService db) ∅ ∅ (dom (jobs db)).

(** ** Effects of the store calls on the set of active jobs *)

Lemma transition_active io db j allowed events committed db' :
  TransitionJobWithEvents io db j allowed events = Ok (true, committed, db') →
  (∃ r, jobs db !! job_id j = Some r ∧ r_state r ∈ allowed) ∧
  (∀ id, is_active db' id ↔ if decide (id = job_id j) then job_state j ∈ activeStates else is_active db id) ∧
  (∀ id, is_Some (jobs db' !! id) ↔ is_Some (jobs db !! id)).
Proof.
  intros [_ [(? & _)|(_ & r & Hr & Hst & _ & Hj & _)]]%Transition_Ok; [done|].
  split; [eauto|]. unfold is_active. rewrite Hj. split; intros id.
  - destruct (decide (id = job_id j)) as [->|]; [rewrite lookup_insert_eq|by rewrite lookup_insert_ne by done].
    split; [by intros (? & [= <-] & ?)|intros ?; eexists; by split].
  - destruct (decide (id = job_id j)) as [->|]; [rewrite lookup_insert_eq, Hr|by rewrite lookup_insert_ne].
    by split; eauto.
Qed.

(** Rows replaced in place with their state kept. *)
Lemma insert_same_active (m m' : gmap string JobRow) id0 r r' :
  m !! id0 = Some r → m' = <[id0 := r']> m → r_state r' = r_state r →
  (∀ id, (∃ x, m' !! id = Some x ∧ r_state x ∈ activeStates) ↔ (∃ x, m !! id = Some x ∧ r_state x ∈ activeStates)) ∧
  (∀ id, is_Some (m' !! id) ↔ is_Some (m !! id)).
Proof.
  intros Hr -> Hs. split; intros id;
    (destruct (decide (id = id0)) as [->|]; [rewrite lookup_insert_eq, Hr|by rewrite lookup_insert_ne]).
  - split; intros (x & [= <-] & Hx); eexists; (split; [done|congruence]).
  - by split; eauto.
Qed.

Lemma append_active io db e e' db' :
  AppendJobEvent io db e = Ok (e', db') →
  (∀ id, is_active db' id ↔ is_active db id) ∧ (∀ id, is_Some (jobs db' !! id) ↔ is_Some (jobs db !! id)).
Proof. intros (r & Hr & _ & _ & _ & Hj & _)%Append_Ok. by eapply insert_same_active. Qed.

Lemma workflow_active io db id w db' :
  UpdateJobWorkflow io db id w = Ok db' →
  (∀ id, is_active db' id ↔ is_active db id) ∧ (∀ id, is_Some (jobs db' !! id) ↔ is_Some (jobs db !! id)).
Proof. intros (r & Hr & Hj & _)%UpdateWorkflow_Ok. by eapply insert_same_active. Qed.

Lemma prune_active io db now policy s db' :
  PruneOperationalData io db now policy = Ok (s, db') →
  (∀ id, is_active db' id ↔ is_active db id) ∧ (∀ id, is_Some (jobs db' !! id) → is_Some (jobs db !! id)).
Proof.
  intros H. pose proof H as (Hj & _)%Prune_Ok. split; intros id.
  - unfold is_active. split.
    + intros (r & Hr & ?). apply Hj in Hr as [? _]. eauto.
    + intros (r & Hr & Hs). exists r. split; [|done]. eapply Prune_active_row; eauto.
      unfold active_row, str_in. by apply bool_decide_eq_true.
  - intros [r Hr]. apply Hj in Hr as [? _]. eauto.
Qed.

Lemma create_active io db j e db' :
  CreateJobWithInitialEvent io db j e = Ok db' → job_state j = "running" →
  jobs db !! job_id j = None ∧
  (∀ id, is_active db' id ↔ id = job_id j ∨ is_active db id) ∧
  (∀ id, is_Some (jobs db' !! id) ↔ id = job_id j ∨ is_Some (jobs db !! id)).
Proof.
  intros (Hn & _ & _ & Hj & _)%CreateInitial_Ok Hst. split; [done|]. unfold is_active. rewrite Hj.
  split; intros id; (destruct (decide (id = job_id j)) as [->|];
    [rewrite lookup_insert_eq|rewrite lookup_insert_ne by done; naive_solver]).
  - split; [by left|]. intros _. eexists. split; [done|]. cbn. rewrite Hst. set_solver.
  - split; [by left|eauto].
Qed.

(** ** The invariant *)

(** [helped] are the self-update jobs whose row another process has written (see
    [host_step]); what the server knows of their state may be out of date. *)
Context (inherited helped : gset string).

Record conc_inv (c : Conc) : Prop := {
  ci_locks : lock_inv (locks (cs c));
  ci_starting : ∀ id, id ∈ starting c → holds (cs c) id ∧ jobs (store (cs c)) !! id = None;
  ci_finishing : ∀ id, id ∈ finishing c → (id ∉ helped → ¬ is_active (store (cs c)) id) ∧ (id ∉ starting c) ∧ id ∈ issued c;
  ci_holds : ∀ id, holds (cs c) id →
    (id ∈ starting c ∨ id ∈ finishing c ∨ is_active (store (cs c)) id ∨ id ∈ helped) ∧ (id ∉ inherited) ∧ id ∈ issued c;
  ci_active : ∀ id, is_active (store (cs c)) id → id ∉ inherited → id ∉ helped → holds (cs c) id;
  ci_issued : (∀ id, is_Some (jobs (store (cs c)) !! id) → id ∈ issued c) ∧ inherited ⊆ issued c;
  ci_events : events_inv (store (cs c))
}.

(** Steps that keep the locks, the ghost sets and the set of active jobs. *)
Lemma conc_inv_same s s' st fin iss :
  locks s' = locks s → events_inv (store s') →
  (∀ id, is_active (store s') id ↔ is_active (store s) id) →
  (∀ id, is_Some (jobs (store s') !! id) → is_Some (jobs (store s) !! id)) →
  conc_inv (mkConc s st fin iss) → conc_inv (mkConc s' st fin iss).
Proof.
  intros Hl He Ha Hp [I1 I2 I3 I4 I5 I6 I7]. split; cbn in *; unfold holds in *; rewrite ?Hl; try done.
  - intros id Hid. destruct (I2 id Hid) as [? Hn]. split; [done|].
    destruct (jobs (store s') !! id) eqn:E; [|done]. destruct (Hp id) as [? Hx]; [eauto|congruence].
  - intros id Hid. rewrite Ha. auto.
  - intros id Hid. rewrite Ha. auto.
  - intros id. rewrite Ha. auto.
  - destruct I6. split; eauto.
Qed.

Lemma replace_holds l id requested l' id' :
  ReplaceResources l id requested = Ok l' →
  is_Some (resourcesByJob l' !! id') ↔ is_Some (resourcesByJob l !! id').
Proof.
  intros (rs & old & _ & Hb & _ & _ & ->)%ReplaceResources_Ok. cbn.
  destruct (decide (id' = id)) as [->|]; [rewrite lookup_insert_eq, Hb; by split; eauto|by rewrite lookup_insert_ne].
Qed.

Lemma unlock_holds l id id' :
  is_Some (resourcesByJob (unlockAll l id) !! id') ↔ id' ≠ id ∧ is_Some (resourcesByJob l !! id').
Proof. rewrite unlockAll_byJob, lookup_delete_is_Some. naive_solver. Qed.

Lemma lock_holds l id rs draining l' id' :
  lockMany l id rs draining = Ok l' →
  is_Some (resourcesByJob l' !! id') ↔ id' = id ∨ is_Some (resourcesByJob l !! id').
Proof. intros (_ & _ & _ & ->)%lockMany_Ok. cbn. rewrite lookup_insert_is_Some'. naive_solver. Qed.

Lemma subs_frame s m : store (with_subs s m) = store s ∧ locks (with_subs s m) = locks s.
Proof. done. Qed.

Lemma unsubscribe_frame s id ch : store (unsubscribe s id ch) = store s ∧ locks (unsubscribe s id ch) = locks s.
Proof. unfold unsubscribe. by repeat case_match. Qed.

Lemma conc_inv_lock s st fin iss id rs draining l :
  conc_inv (mkConc s st fin iss) → id ∉ iss → id ≠ "" → rs ≠ [] →
  lockMany (locks s) id rs draining = Ok l →
  conc_inv (mkConc (with_locks s l) ({[id]} ∪ st) fin ({[id]} ∪ iss)).
Proof.
  intros [I1 I2 I3 I4 I5 [I6 I6'] I7] Hid Hne Hrs Hl. cbn in *.
  assert (resourcesByJob (locks s) !! id = None) as Hn.
  { apply eq_None_not_Some. intros Hs. by apply Hid, I4. }
  assert (jobs (store s) !! id = None) as Hj by (apply eq_None_not_Some; intros Hs; by apply Hid, I6).
  pose proof (λ x, lock_holds _ _ _ _ _ x Hl) as Hh. split; cbn; unfold holds in *; cbn.
  - by eapply lockMany_inv.
  - intros x Hx. rewrite Hh. apply elem_of_union in Hx as [->%elem_of_singleton|Hx]; [auto|].
    destruct (I2 x Hx). auto.
  - intros x Hx. destruct (I3 x Hx) as (? & ? & ?). set_solver.
  - intros x [->|Hx]%Hh; [split; [set_solver|]; set_solver|]. destruct (I4 x Hx) as (? & ? & ?). set_solver.
  - intros x Hx Hi. rewrite Hh. right. auto.
  - split; [intros x Hx; apply I6 in Hx; set_solver|set_solver].
  - done.
Qed.

Lemma conc_inv_create s st fin iss j e db :
  conc_inv (mkConc s st fin iss) → job_id j ∈ st → job_state j = "running" →
  CreateJobWithInitialEvent None (store s) j e = Ok db →
  conc_inv (mkConc (notifyActivity (publishLive (with_store s db) e)) (st ∖ {[job_id j]}) fin iss).
Proof.
  intros [I1 I2 I3 I4 I5 [I6 I6'] I7] Hj Hr H. cbn in *.
  destruct (create_active _ _ _ _ _ H Hr) as (Hn & Ha & Hp).
  assert (holds s (job_id j)) as Hh by by apply I2.
  split; cbn; unfold holds in *; cbn; try done.
  - intros x [Hx Hne]%elem_of_difference. destruct (I2 x Hx) as [? Hx']. split; [done|].
    apply eq_None_not_Some. rewrite Hp, Hx'. intros [->|[? ?]]; [set_solver|done].
  - intros x Hx. destruct (I3 x Hx) as (Hna & Hns & ?). rewrite Ha.
    split_and!; [intros ? [->|?]; [auto|by apply Hna]|by rewrite elem_of_difference; intros [? _]|done].
  - intros x Hx. destruct (I4 x Hx) as (Hc & ? & ?). split; [|done]. rewrite Ha.
    destruct (decide (x = job_id j)) as [->|Hne]; [auto|].
    rewrite elem_of_difference, elem_of_singleton. tauto.
  - intros x. rewrite Ha. intros [->|Hx] Hi ?; auto.
  - split; [|done]. intros x. rewrite Hp. intros [->|Hx]; [by apply I4|auto].
  - by eapply CreateInitial_events_inv.
Qed.

Lemma conc_inv_commit io s st fin iss j events committed db :
  conc_inv (mkConc s st fin iss) → isTerminalJobState (job_state j) = true →
  TransitionJobWithEvents io (store s) j activeStates events = Ok (true, committed, db) →
  conc_inv (mkConc (publishCommittedEvents (with_store s db) committed) st ({[job_id j]} ∪ fin) iss).
Proof.
  intros [I1 I2 I3 I4 I5 [I6 I6'] I7] Ht H. cbn in *.
  destruct (transition_active _ _ _ _ _ _ _ H) as ((r & Hr & _) & Ha & Hp).
  destruct (publishCommitted_frame (with_store s db) committed) as (Es & El & _).
  apply terminal_not_active in Ht.
  split; cbn; unfold holds in *; rewrite ?Es, ?El; cbn; try done.
  - intros x Hx. destruct (I2 x Hx) as [? Hx']. split; [done|].
    apply eq_None_not_Some. by rewrite Hp, Hx', <- eq_None_not_Some.
  - intros x Hx. rewrite Ha. apply elem_of_union in Hx as [->%elem_of_singleton|Hx].
    + rewrite decide_True by done. split_and!; [by intros _| |apply I6; eauto].
      intros Hs. destruct (I2 _ Hs). congruence.
    + destruct (I3 x Hx) as (? & ? & ?). by destruct (decide _).
  - intros x Hx. destruct (I4 x Hx) as (Hc & ? & ?). rewrite Ha.
    rewrite elem_of_union, elem_of_singleton. split; [|done]. destruct (decide (x = job_id j)); tauto.
  - intros x. rewrite Ha. destruct (decide _); [done|auto].
  - split; [|done]. intros x Hx. apply I6. by apply Hp.
  - by eapply Transition_events_inv.
Qed.

Lemma conc_inv_unlock s st fin fin' iss id :
  conc_inv (mkConc s st fin iss) → id ∈ fin → fin' = fin ∨ fin' = fin ∖ {[id]} →
  conc_inv (mkConc (with_locks s (unlockAll (locks s) id)) st fin' iss).
Proof.
  intros [I1 I2 I3 I4 I5 I6 I7] Hid Hfin. cbn in *. destruct (I3 id Hid) as (Hna & Hns & _).
  assert (∀ x, x ∈ fin' → x ∈ fin) as Hsub by (destruct Hfin as [->| ->]; set_solver).
  assert (∀ x, x ∈ fin → x ≠ id → x ∈ fin') as Hsup by (destruct Hfin as [->| ->]; set_solver).
  split; cbn; unfold holds in *; cbn; try done.
  - by apply unlockAll_inv.
  - intros x Hx. rewrite unlock_holds. destruct (I2 x Hx). split; [|done]. split; [by intros ->|done].
  - auto.
  - intros x. rewrite unlock_holds. intros [Hne Hx]. destruct (I4 x Hx) as (Hc & ? & ?). split; [|done].
    destruct Hc as [?|[?|[?|?]]]; auto.
  - intros x Hx Hi Hp. rewrite unlock_holds. split; [intros ->; by apply Hna|auto].
Qed.

Lemma conc_inv_release s st st' fin iss id :
  conc_inv (mkConc s st fin iss) → (¬ is_active (store s) id) → id ∈ iss →
  st' = st ∧ id ∉ st ∨ st' = st ∖ {[id]} →
  conc_inv (mkConc s st' ({[id]} ∪ fin) iss).
Proof.
  intros [I1 I2 I3 I4 I5 I6 I7] Hna Hid Hst. cbn in *.
  assert (∀ x, x ∈ st' → x ∈ st ∧ x ≠ id) as Hsub by (destruct Hst as [[-> ?]| ->]; set_solver).
  assert (∀ x, x ∈ st → x ≠ id → x ∈ st') as Hsup by (destruct Hst as [[-> ?]| ->]; set_solver).
  split; cbn; try done.
  - intros x Hx. apply I2. by apply Hsub.
  - intros x [->%elem_of_singleton|Hx]%elem_of_union.
    + split; [done|]. split; [|done]. intros Hx. by apply Hsub in Hx as [_ ?].
    + destruct (I3 x Hx) as (? & Hns & ?). split; [done|]. split; [|done]. intros Hx'. by apply Hns, Hsub.
  - intros x Hx. destruct (I4 x Hx) as (Hc & ? & ?). split; [|done].
    rewrite elem_of_union, elem_of_singleton. destruct (decide (x = id)); [tauto|].
    destruct Hc as [?|[?|[?|?]]]; auto.
Qed.

Lemma conc_step_inv c c' : conc_step c c' → conc_inv c → conc_inv c'.
Proof.
  intros Hstep I. destruct Hstep.
  - eapply conc_inv_lock; eauto with stacklab.
  - by eapply conc_inv_create.
  - destruct (ci_starting _ I id) as [Hh Hn]; [done|]. cbn in Hn. eapply conc_inv_release; eauto.
    + intros (r & Hr & _). cbn in *. congruence.
    + by apply (ci_holds _ I).
  - by eapply conc_inv_commit.
  - pose proof (Get_row _ _ _ _ H) as [r Hr]. destruct (Get_state _ _ _ _ _ H Hr) as [_ Hst].
    rewrite Hst in *. eapply conc_inv_release; eauto.
    + intros (r' & Hr' & Ha). rewrite Hr in Hr'. injection Hr' as <-.
      by apply terminal_not_active in Ha.
    + apply (proj1 (ci_issued _ I)). cbn. eauto.
    + left. split; [done|]. intros Hs. destruct (ci_starting _ I id Hs) as [_ Hn]. cbn in Hn. congruence.
  - by eapply conc_inv_unlock.
  - destruct I as [I1 I2 I3 I4 I5 I6 I7]. pose proof (λ x, replace_holds _ _ _ _ x H) as Hh.
    split; cbn in *; unfold holds in *; cbn; try done.
    + by eapply ReplaceResources_inv.
    + intros x Hx. rewrite Hh. auto.
    + intros x. rewrite Hh. auto.
    + intros x. rewrite Hh. auto.
  - destruct (transition_active _ _ _ _ _ _ _ H0) as ((r & Hr & Hs) & Ha & Hp).
    destruct (publishCommitted_frame (with_store s db) committed) as (Es & El & _).
    apply (conc_inv_same s); [exact El| | | |exact I]; rewrite Es; cbn.
    + by eapply Transition_events_inv; [apply (ci_events _ I)|].
    + intros x. rewrite Ha. destruct (decide _) as [->|]; [|done]. split; [|rewrite H; set_solver].
      intros _. exists r. split; [done|]. set_solver.
    + intros x. by apply Hp.
  - destruct (append_active _ _ _ _ _ H) as [Ha Hp]. eapply conc_inv_same; [| | | |exact I]; cbn; try done.
    + by eapply Append_events_inv; [apply (ci_events _ I)|].
    + intros x. by apply Hp.
  - destruct (workflow_active _ _ _ _ _ H) as [Ha Hp]. eapply conc_inv_same; [| | | |exact I]; cbn; try done.
    + by eapply UpdateWorkflow_events_inv; [apply (ci_events _ I)|].
    + intros x. by apply Hp.
  - destruct (prune_active _ _ _ _ _ _ H) as [Ha Hp]. eapply conc_inv_same; [| | | |exact I]; cbn; try done.
    by eapply Prune_events_inv; [apply (ci_events _ I)|].
  - by eapply conc_inv_same; [| | | |exact I]; cbn; [|apply (ci_events _ I)|..].
  - by eapply conc_inv_same; [| | | |exact I]; cbn; [|apply (ci_events _ I)|..].
  - destruct (unsubscribe_frame s id ch) as [Es El].
    eapply conc_inv_same; [exact El| | | |exact I]; rewrite Es; [apply (ci_events _ I)|done|done].
  - by eapply conc_inv_same; [| | | |exact I]; cbn; [|apply (ci_events _ I)|..].
Qed.
End conc.

(** A write of another process to the row of one job. *)
Lemma conc_inv_written inherited helped helped' s s' st fin iss id :
  locks s' = locks s → events_inv (store s') →
  (∀ x, x ≠ id → is_active (store s') x ↔ is_active (store s) x) →
  (∀ x, is_Some (jobs (store s') !! x) ↔ is_Some (jobs (store s) !! x)) →
  id ∈ helped' → helped ⊆ helped' →
  conc_inv inherited helped (mkConc s st fin iss) → conc_inv inherited helped' (mkConc s' st fin iss).
Proof.
  intros Hl He Ha Hp Hid Hsub [I1 I2 I3 I4 I5 [I6 I6'] I7].
  assert (∀ x, x ∉ helped' → x ≠ id ∧ x ∉ helped) as Hout.
  { intros x Hx. split; [by intros ->|]. intros ?. by apply Hx, Hsub. }
  split; cbn in *; unfold holds in *; rewrite ?Hl; try done.
  - intros x Hx. destruct (I2 x Hx) as [? Hn]. split; [done|]. apply eq_None_not_Some. by rewrite Hp, Hn, <- eq_None_not_Some.
  - intros x Hx. destruct (I3 x Hx) as (Hna & ? & ?). split_and!; [|done..]. intros [? ?]%Hout. rewrite Ha by done. auto.
  - intros x Hx. destruct (I4 x Hx) as (Hc & ? & ?). split_and!; [|done..].
    destruct (decide (x = id)) as [->|]; [auto|]. rewrite Ha by done.
    destruct Hc as [?|[?|[?|?%Hsub]]]; auto.
  - intros x Hx Hi [? ?]%Hout. rewrite Ha in Hx by done. auto.
  - split; [|done]. intros x Hx. apply I6. by apply Hp.
Qed.

(** ** Reachable states *)

Section reachable.
Context `{!MapRange Resource string}.

Lemma initial_inv db : events_inv db → conc_inv (dom (jobs db)) ∅ (initial db).
Proof.
  intros I. split; cbn; unfold holds; cbn.
  - apply lock_inv_empty.
  - set_solver.
  - set_solver.
  - intros id. rewrite lookup_empty. by intros [? ?].
  - intros id (r & Hr & _) Hn _. exfalso. apply Hn, elem_of_dom. eauto.
  - split; [|done]. intros id. by rewrite elem_of_dom.
  - done.
Qed.

Lemma reachable_inv db c : events_inv db → rtc conc_step (initial db) c → conc_inv (dom (jobs db)) ∅ c.
Proof.
  intros I H. assert (conc_inv (dom (jobs db)) ∅ (initial db)) as Hi by by apply initial_inv.
  induction H as [|c1 c2 c3 Hs _ IH]; [done|]. apply IH. by eapply conc_step_inv.
Qed.

(** C1: in every interleaving, two jobs of this process that are active in the
    database hold their resources, and no resource of one conflicts with one of
    the other. *)
Theorem active_jobs_exclusive db c id1 id2 :
  events_inv db → rtc conc_step (initial db) c →
  is_active (store (cs c)) id1 → is_active (store (cs c)) id2 →
  id1 ∉ dom (jobs db) → id2 ∉ dom (jobs db) → id1 ≠ id2 →
  ∃ rs1 rs2, resourcesByJob (locks (cs c)) !! id1 = Some rs1 ∧ resourcesByJob (locks (cs c)) !! id2 = Some rs2 ∧
    ∀ r1 r2, r1 ∈ rs1 → r2 ∈ rs2 → ResourcesConflict r1 r2 = false.
Proof.
  intros I H A1 A2 N1 N2 Hne. apply reachable_inv in H as [L _ _ _ Ha _ _]; [|done].
  destruct (Ha id1 A1 N1 ltac:(set_solver)) as [rs1 H1], (Ha id2 A2 N2 ltac:(set_solver)) as [rs2 H2]. exists rs1, rs2. split_and!; [done..|].
  intros r1 r2 Hr1 Hr2. apply not_true_is_false. intros Hc. apply Hne.
  eapply (inv_exclusive _ L); [..|exact Hc]; by eapply inv_list.
Qed.

(** ** The server and the self-update helper

    [stacklab-self-update-helper] is a process of its own.  It writes the row of
    the self-update job it was started for with the unconditional [UpdateJob] and
    adds events to it with [CreateJobEvent], at any moment and through the same
    database file; the locks of the server are out of its reach.  [helped] are the
    jobs it has written. *)
Record Host := mkHost { server : Conc; helped : gset string }.

Definition on_store (c : Conc) (db : DB) : Conc :=
  mkConc (with_store (cs c) db) (starting c) (finishing c) (issued c).

Definition is_self_update (db : DB) (id : string) : Prop :=
  ∃ r, jobs db !! id = Some r ∧ r_action r = "self_update_stacklab".

Inductive host_step : Host → Host → Prop :=
| h_server c c' hs : conc_step c c' → host_step (mkHost c hs) (mkHost c' hs)
(** [run], [runStep], [finalizeFailure] *)
| h_update io c hs j db :
    is_self_update (store (cs c)) (job_id j) → UpdateJob io (store (cs c)) j = Ok db →
    host_step (mkHost c hs) (mkHost (on_store c db) ({[job_id j]} ∪ hs))
(** [publishEvent] *)
| h_event io c hs e db :
    is_self_update (store (cs c)) (ev_job e) → 1 <= ev_sequence e →
    CreateJobEvent io (store (cs c)) e = Ok db →
    host_step (mkHost c hs) (mkHost (on_store c db) hs).

Definition booted (db : DB) : Host := mkHost (initial db) ∅.

Lemma host_step_inv inherited h h' :
  host_step h h' → conc_inv inherited (helped h) (server h) → conc_inv inherited (helped h') (server h').
Proof.
  intros Hstep I.
  destruct Hstep as [c c' hs Hs|io [s st fin iss] hs j db _ Hu|io [s st fin iss] hs e db (r0 & Hr0 & _) Hq He]; cbn in *.
  - by eapply conc_step_inv.
  - pose proof (UpdateJob_events_inv _ _ _ _ (ci_events _ _ _ I) Hu) as Hi.
    apply UpdateJob_Ok in Hu as (r & Hr & Hj & _).
    eapply (conc_inv_written inherited hs _ s _ _ _ _ (job_id j)); [..|exact I]; cbn; [done|done| | |set_solver|set_solver].
    + intros x Hx. unfold is_active. by rewrite Hj, lookup_insert_ne.
    + intros x. rewrite Hj. destruct (decide (x = job_id j)) as [->|]; [|by rewrite lookup_insert_ne].
      rewrite lookup_insert_eq, Hr. by split; eauto.
  - pose proof (CreateJobEvent_events_inv _ _ _ _ (ci_events _ _ _ I) ltac:(eauto) Hq He) as Hi.
    apply CreateJobEvent_Ok in He as (_ & Hj & _).
    eapply conc_inv_same; [| | | |exact I]; cbn; [done|done| |]; unfold is_active; rewrite Hj; intros x;
      (destruct (decide (x = ev_job e)) as [->|]; [rewrite lookup_alter_eq|by rewrite lookup_alter_ne by done]).
    + split; [intros (x & (r & Hx & ->)%fmap_Some & ?)|intros (r & Hx & ?)]; rewrite Hx; eexists; by split.
    + intros [x (r & Hx & _)%fmap_Some]. by rewrite Hx.
Qed.

Lemma host_reachable_inv db h :
  events_inv db → rtc host_step (booted db) h → conc_inv (dom (jobs db)) (helped h) (server h).
Proof.
  intros I H. assert (conc_inv (dom (jobs db)) (helped (booted db)) (server (booted db))) as Hi by by apply initial_inv.
  induction H as [|h1 h2 h3 Hs _ IH]; [done|]. apply IH. by eapply host_step_inv.
Qed.

(** C19: locks and active jobs match, in every interleaving of the server and
    the self-update helper: whenever no goroutine is inside [start] or between the
    commit of a terminal state and [unlockAll], the jobs the helper has not
    written hold resources exactly when they are active jobs this process
    started.  A lock that outlives its job belongs to a self-update job the
    helper has written, and never to a job of a previous process. *)
Theorem locks_match_active_jobs db h id :
  events_inv db → rtc host_step (booted db) h → starting (server h) = ∅ → finishing (server h) = ∅ →
  (id ∉ helped h → holds (cs (server h)) id ↔ is_active (store (cs (server h))) id ∧ id ∉ dom (jobs db)) ∧
  (holds (cs (server h)) id → (id ∉ dom (jobs db)) ∧ (is_active (store (cs (server h))) id ∨ id ∈ helped h)).
Proof.
  intros I H Hs Hf. apply host_reachable_inv in H as [_ _ _ Hh Ha _ _]; [|done].
  assert (holds (cs (server h)) id → (id ∉ dom (jobs db)) ∧ (is_active (store (cs (server h))) id ∨ id ∈ helped h)) as Hd.
  { intros Hid. destruct (Hh id Hid) as ([?|[?|?]] & ? & _); [set_solver..|auto]. }
  split; [|done]. intros Hn. split; [|intros []; auto]. intros Hid. destruct (Hd Hid) as [? [?|?]]; done.
Qed.

(** ** Terminal states are final *)

Definition settled (id state : string) (c : Conc) : Prop :=
  id ∈ issued c ∧ (id ∉ starting c) ∧ ∀ r, jobs (store (cs c)) !! id = Some r → r_state r = state.

Lemma transition_other io db j allowed events committed db' id state :
  TransitionJobWithEvents io db j allowed events = Ok (true, committed, db') →
  allowed ⊆ activeStates → isTerminalJobState state = true →
  (∀ r, jobs db !! id = Some r → r_state r = state) → jobs db' !! id = jobs db !! id.
Proof.
  intros [_ [(? & _)|(_ & r & Hr & Hst & _ & Hj & _)]]%Transition_Ok Hsub Ht Hall; [done|].
  rewrite Hj. apply lookup_insert_ne. intros <-. apply (terminal_not_active state); [done|].
  rewrite <- (Hall r Hr). by apply Hsub.
Qed.

Lemma settled_step c c' id state :
  isTerminalJobState state = true → conc_step c c' → settled id state c → settled id state c'.
Proof.
  intros Ht Hstep (Hi & Hs & Hr). unfold settled. destruct Hstep; cbn in *.
  - split_and!; [set_solver| |done]. intros [->%elem_of_singleton|]%elem_of_union; done.
  - apply CreateInitial_Ok in H1 as (_ & _ & _ & Hj & _). rewrite Hj. split_and!; [done|set_solver|].
    intros r. rewrite lookup_insert_ne; [auto|]. by intros <-.
  - split_and!; [done|set_solver|done].
  - destruct (publishCommitted_frame (with_store s db) committed) as (-> & _). cbn.
    by rewrite (transition_other _ _ _ _ _ _ _ _ _ H0 ltac:(done) Ht Hr).
  - done.
  - done.
  - done.
  - destruct (publishCommitted_frame (with_store s db) committed) as (-> & _). cbn.
    by rewrite (transition_other _ _ _ _ _ _ _ _ _ H0 ltac:(set_solver) Ht Hr).
  - apply Append_Ok in H as (r & Hr' & _ & _ & _ & Hj & _). rewrite Hj. split_and!; [done..|].
    intros r0 [[<- <-]|[_ ?]]%lookup_insert_Some; cbn; auto.
  - apply UpdateWorkflow_Ok in H as (r & Hr' & Hj & _). rewrite Hj. split_and!; [done..|].
    intros r0 [[<- <-]|[_ ?]]%lookup_insert_Some; cbn; auto.
  - apply Prune_Ok in H as (Hj & _). split_and!; [done..|]. intros r [? _]%Hj. auto.
  - done.
  - done.
  - by rewrite (proj1 (unsubscribe_frame s id0 ch)).
  - done.
Qed.

Lemma settled_host_step h h' id state :
  isTerminalJobState state = true → host_step h h' → id ∉ helped h' →
  settled id state (server h) → settled id state (server h').
Proof.
  intros Ht Hstep Hn. destruct Hstep as [c c' hs Hs|io [s st fin iss] hs j db _ Hu|io [s st fin iss] hs e db _ _ He];
    [by apply settled_step|..]; intros (Hi & Hs & Hr); unfold settled; cbn in *; split_and!; try done.
  - apply UpdateJob_Ok in Hu as (r & _ & -> & _). intros r'. rewrite lookup_insert_ne by set_solver. auto.
  - apply CreateJobEvent_Ok in He as (_ & -> & _). intros r'.
    destruct (decide (id = ev_job e)) as [->|]; [rewrite lookup_alter_eq|rewrite lookup_alter_ne by done; auto].
    intros (r & Hr' & ->)%fmap_Some. cbn. auto.
Qed.

Lemma helped_grows h h' : rtc host_step h h' → helped h ⊆ helped h'.
Proof. induction 1 as [|h1 h2 h3 Hs _ IH]; [done|]. destruct Hs; cbn in *; set_solver. Qed.

(** C20: terminal states are final: once a job is stored as succeeded, failed,
    cancelled or timed out, its row keeps that state in every continuation of
    every interleaving of the server and the self-update helper, as long as the row
    exists (retention may remove it).  The only exception is a self-update job whose
    row the helper writes. *)
Theorem terminal_absorbing db h h' id r :
  events_inv db → rtc host_step (booted db) h → rtc host_step h h' → id ∉ helped h' →
  jobs (store (cs (server h))) !! id = Some r → isTerminalJobState (r_state r) = true →
  ∀ r', jobs (store (cs (server h'))) !! id = Some r' → r_state r' = r_state r.
Proof.
  intros I H0 H Hn Hr Ht. apply host_reachable_inv in H0 as [_ Hst _ _ _ [Hiss _] _]; [|done].
  assert (settled id (r_state r) (server h)) as Hset.
  { split_and!; [by apply Hiss; eauto| |intros r' Hr'; congruence].
    intros Hs. apply Hst in Hs as [_ ?]. congruence. }
  enough (settled id (r_state r) (server h')) as (_ & _ & ?) by done.
  clear -H Hset Ht Hn. induction H as [|h1 h2 h3 Hs Hrest IH]; [done|]. apply IH; [done|].
  eapply settled_host_step; [done|done| |done]. intros Hin. by apply Hn, (helped_grows _ _ Hrest).
Qed.

(** ** The handlers are interleavings of these steps *)

Lemma steps_observe_started s st fin iss t :
  rtc conc_step (mkConc s st fin iss) (mkConc (observeJobStarted s t) st fin iss).
Proof. unfold observeJobStarted. case_match; [apply rtc_once; constructor|done]. Qed.

Lemma steps_observe_finished s st fin iss t1 t2 state :
  rtc conc_step (mkConc s st fin iss) (mkConc (observeJobFinished s t1 t2 state) st fin iss).
Proof. unfold observeJobFinished. case_match; [apply rtc_once; constructor|done]. Qed.

(** [start] on any state, with any outcome, is a sequence of critical
    sections of the interleaving model that leaves no job half started. *)
Theorem start_as_steps io token now requestID s stackID action by_ requested draining wf r s' st fin iss :
  ("job_" +:+ token) ∉ iss → st ⊆ iss → fin ⊆ iss →
  start io token now requestID s stackID action by_ requested draining wf = (r, s') →
  ∃ iss', rtc conc_step (mkConc s st fin iss) (mkConc s' st fin iss').
Proof.
  intros Hid Hst Hfin. unfold start. cbn.
  destruct (normalizeResources stackID requested) as [rs|] eqn:Hr; [|intros [= _ <-]; eauto using rtc_refl].
  destruct (lockMany (locks s) _ rs draining) as [l|] eqn:Hl; [|intros [= _ <-]; eauto using rtc_refl].
  set (id0 := "job_" +:+ token) in *.
  assert (({[id0]} ∪ st) ∖ {[id0]} = st) as Est by set_solver.
  assert (({[id0]} ∪ fin) ∖ {[id0]} = fin) as Efin by set_solver.
  destruct (CreateJobWithInitialEvent _ _ _ _) as [db|] eqn:Hc; intros [= _ <-].
  - exists ({[id0]} ∪ iss). eapply rtc_l; [eapply c_lock; eauto; done|].
    assert (io = None) as ->.
    { unfold CreateJobWithInitialEvent in Hc. case_match; [done|]. by apply driver_Ok in Hc as [-> _]. }
    eapply rtc_l; [eapply c_create; [| |exact Hc]; cbn; [set_solver|done]|]. cbn. rewrite Est.
    apply steps_observe_started.
  - exists ({[id0]} ∪ iss). eapply rtc_l; [eapply c_lock; eauto; done|].
    eapply rtc_l; [eapply (c_create_failed _ _ _ _ id0); set_solver|]. rewrite Est. cbn.
    eapply rtc_l; [eapply (c_unlock _ _ _ fin _ id0); [set_solver|right; by rewrite Efin]|]. done.
Qed.

(** so is the completion of a job, with any outcome. *)
Theorem commit_as_steps ioT ioG now s j events r s' st fin iss :
  isTerminalJobState (job_state j) = true → job_id j ∉ fin →
  commitTerminalTransition ioT ioG now s j events = (r, s') →
  rtc conc_step (mkConc s st fin iss) (mkConc s' st fin iss).
Proof.
  intros Ht Hf. unfold commitTerminalTransition.
  change ["queued"; "running"; "cancel_requested"] with activeStates.
  assert (({[job_id j]} ∪ fin) ∖ {[job_id j]} = fin) as Efin by set_solver.
  destruct (TransitionJobWithEvents ioT _ _ _ _) as [[[[] committed] db]|] eqn:Htr; cycle 2.
  { by intros [= _ <-]. }
  - intros [= _ <-]. eapply rtc_l; [by eapply c_commit|].
    eapply rtc_l; [eapply (c_unlock _ _ _ fin _ (job_id j)); [set_solver|right; by rewrite Efin]|].
    etrans; [eapply steps_observe_finished|]. case_match; [apply rtc_once; constructor|done].
  - destruct (Get ioG s (job_id j)) as [current|] eqn:Hg; [|by intros [= _ <-]].
    destruct (isTerminalJobState (job_state current)) eqn:Hc; [|by intros [= _ <-]]. intros H.
    assert (s' = with_locks s (unlockAll (locks s) (job_id j))) as -> by (case_match; by simplify_eq).
    eapply rtc_l; [by eapply c_conflict|]. apply rtc_once, c_unlock; [set_solver|right; by rewrite Efin].
Qed.
End reachable.

(** ** Live delivery *)

(** The content of a channel: at most 64 events of the job, in strictly
    increasing order, numbered from 1 to at most [hi]. *)
Definition buffer_ok (id : string) (hi : option Z) (buf : list JobEvent) : Prop :=
  (length buf ≤ 64)%nat ∧ StronglySorted Z.lt (ev_sequence <$> buf) ∧
  Forall (λ e, ev_job e = id ∧ 1 <= ev_sequence e ∧ match hi with Some n => ev_sequence e <= n | None => True end) buf.

Definition channels_ok (m : gmap string (gmap nat (list JobEvent))) (id : string) (hi : option Z) : Prop :=
  ∀ subs ch buf, m !! id = Some subs → subs !! ch = Some buf → buffer_ok id hi buf.

Definition hi_le (a b : option Z) : Prop :=
  match b with None => True | Some y => match a with Some x => x <= y | None => False end end.

Lemma channels_weaken m id a b : hi_le a b → channels_ok m id a → channels_ok m id b.
Proof.
  intros Hab H subs ch buf Hm Hs. destruct (H subs ch buf Hm Hs) as (? & ? & Hf). split_and!; [done..|].
  eapply Forall_impl; [exact Hf|]. cbn. intros e (? & ? & He). destruct b, a; naive_solver lia.
Qed.

Lemma sorted_snoc (l : list Z) x : StronglySorted Z.lt l → Forall (λ y, y < x) l → StronglySorted Z.lt (l ++ [x]).
Proof.
  induction 1 as [|y l Hs IH Hy]; intros Hf; cbn; [repeat constructor|].
  apply Forall_cons in Hf as [? ?]. constructor; [auto|]. apply Forall_app. auto.
Qed.

Lemma sendOrDrop_ok id n e buf :
  ev_job e = id → 1 <= ev_sequence e → n < ev_sequence e →
  buffer_ok id (Some n) buf → buffer_ok id (Some (ev_sequence e)) (sendOrDrop e buf).
Proof.
  intros He H1 Hn (Hl & Hs & Hf). unfold sendOrDrop, eventChannelCapacity.
  assert (Forall (λ e0, ev_job e0 = id ∧ 1 <= ev_sequence e0 ∧ ev_sequence e0 <= ev_sequence e) buf) as Hf'.
  { eapply Forall_impl; [exact Hf|]. cbn. intros ? (? & ? & ?). split_and!; [done..|lia]. }
  destruct (Nat.ltb_spec (length buf) 64); [|by split_and!]. split_and!.
  - rewrite length_app. cbn. lia.
  - rewrite fmap_app. apply sorted_snoc; [done|]. apply Forall_fmap. eapply Forall_impl; [exact Hf|].
    cbn. intros ? (? & ? & ?). lia.
  - apply Forall_app. split; [done|]. repeat constructor; cbn; [done|done|lia].
Qed.

Lemma publishLive_ok s id n e :
  ev_job e = id → 1 <= ev_sequence e → n < ev_sequence e →
  channels_ok (subsByJob s) id (Some n) → channels_ok (subsByJob (publishLive s e)) id (Some (ev_sequence e)).
Proof.
  intros He H1 Hn H subs ch buf. cbn. rewrite He, lookup_alter_eq. intros (m & Hm & ->)%fmap_Some.
  rewrite lookup_fmap. intros (b & Hb & ->)%fmap_Some. eapply sendOrDrop_ok; eauto.
Qed.

Lemma publishLive_other s id hi e :
  ev_job e ≠ id → channels_ok (subsByJob s) id hi → channels_ok (subsByJob (publishLive s e)) id hi.
Proof. intros He H subs ch buf. cbn. rewrite lookup_alter_ne by done. apply H. Qed.

Lemma publishCommitted_ok s id n events :
  Forall (λ e, ev_job e = id) events → 0 <= n → channels_ok (subsByJob s) id (Some n) →
  channels_ok (subsByJob (publishCommittedEvents s (numbered (n + 1) events))) id (Some (n + Z.of_nat (length events))).
Proof.
  revert s n. induction events as [|e events IH]; intros s n Hj Hn H; cbn [numbered publishCommittedEvents length].
  { by rewrite Z.add_0_r. }
  apply Forall_cons in Hj as [He Hj].
  replace (n + Z.of_nat (S (length events))) with (n + 1 + Z.of_nat (length events)) by lia.
  apply IH; [done|lia|]. eapply (publishLive_ok s id n (set_ev_sequence (n + 1) e)); cbn; [done|lia|lia|done].
Qed.

Lemma publishCommitted_other s id hi job n events :
  Forall (λ e, ev_job e = job) events → job ≠ id → channels_ok (subsByJob s) id hi →
  channels_ok (subsByJob (publishCommittedEvents s (numbered n events))) id hi.
Proof.
  revert s n. induction events as [|e events IH]; intros s n Hj Hn H; cbn [numbered publishCommittedEvents]; [done|].
  apply Forall_cons in Hj as [He Hj]. apply IH; [done..|]. apply publishLive_other; [by cbn; congruence|done].
Qed.

(** The highest event number a subscriber can have seen. *)
Definition live_bound (c : Conc) (id : string) : option Z :=
  match jobs (store (cs c)) !! id with
  | Some r => Some (r_event_sequence r)
  | None => if decide (id ∈ issued c ∧ id ∉ starting c) then None else Some 0
  end.

Definition live_inv (c : Conc) : Prop := ∀ id, channels_ok (subsByJob (cs c)) id (live_bound c id).

Lemma hi_le_refl a : hi_le a a.
Proof. destruct a; cbn; [lia|done]. Qed.

Lemma live_frame c c' :
  subsByJob (cs c') = subsByJob (cs c) → (∀ id, hi_le (live_bound c id) (live_bound c' id)) →
  live_inv c → live_inv c'.
Proof. intros Hs Hb H id. rewrite Hs. eapply channels_weaken; [apply Hb|apply H]. Qed.

Section live.
Context `{!MapRange Resource string} (inherited : gset string).

Lemma live_transition io s st fin fin' iss j allowed events committed db :
  conc_inv inherited ∅ (mkConc s st fin iss) → live_inv (mkConc s st fin iss) →
  TransitionJobWithEvents io (store s) j allowed events = Ok (true, committed, db) →
  live_inv (mkConc (publishCommittedEvents (with_store s db) committed) st fin' iss).
Proof.
  intros I L [Hj [(? & _)|(_ & r & Hr & _ & -> & Hjobs & _)]]%Transition_Ok; [done|]. intros id.
  specialize (L id). unfold live_bound in *. cbn in *.
  destruct (publishCommitted_frame (with_store s db) (numbered (r_event_sequence r + 1) events)) as (-> & _).
  cbn. rewrite Hjobs. destruct (decide (id = job_id j)) as [->|Hne].
  - rewrite lookup_insert_eq. cbn. rewrite Hr in L. apply publishCommitted_ok; [done| |done].
    by apply (inv_counter _ (ci_events _ _ _ I) (job_id j)).
  - rewrite lookup_insert_ne by done. by eapply publishCommitted_other.
Qed.

Lemma live_append io s st fin iss e e' db :
  conc_inv inherited ∅ (mkConc s st fin iss) → live_inv (mkConc s st fin iss) →
  AppendJobEvent io (store s) e = Ok (e', db) →
  live_inv (mkConc (notifyActivity (publishLive (with_store s db) e')) st fin iss).
Proof.
  intros I L (r & Hr & Hje & Hseq & _ & Hjobs & _)%Append_Ok id. specialize (L id).
  pose proof (inv_counter _ (ci_events _ _ _ I) _ _ Hr) as Hc.
  unfold live_bound in *. cbn in L |- *. rewrite Hjobs. destruct (decide (id = ev_job e)) as [->|Hne].
  - rewrite lookup_insert_eq. cbn. rewrite Hr in L. rewrite <- Hseq.
    apply (publishLive_ok (with_store s db) _ (r_event_sequence r)); [done|lia|lia|done].
  - rewrite lookup_insert_ne by done. apply (publishLive_other (with_store s db)); [congruence|done].
Qed.

Lemma live_create s st fin iss j e db :
  conc_inv inherited ∅ (mkConc s st fin iss) → live_inv (mkConc s st fin iss) → job_id j ∈ st →
  CreateJobWithInitialEvent None (store s) j e = Ok db →
  live_inv (mkConc (notifyActivity (publishLive (with_store s db) e)) (st ∖ {[job_id j]}) fin iss).
Proof.
  intros I L Hst (Hn & Hje & Hseq & Hjobs & _)%CreateInitial_Ok id. specialize (L id).
  unfold live_bound in *. cbn in L |- *. rewrite Hjobs. destruct (decide (id = job_id j)) as [->|Hne].
  - rewrite lookup_insert_eq. cbn. rewrite Hn, decide_False in L by tauto. rewrite <- Hseq.
    apply (publishLive_ok (with_store s db) _ 0); [done|lia|lia|done].
  - rewrite lookup_insert_ne by done. apply (publishLive_other (with_store s db)); [congruence|].
    destruct (jobs (store s) !! id); [done|]. erewrite decide_ext; [exact L|]. set_solver.
Qed.

Lemma live_step c c' : conc_step c c' → conc_inv inherited ∅ c → live_inv c → live_inv c'.
Proof.
  intros Hstep I L. destruct Hstep.
  - eapply live_frame; [| |exact L]; [done|]. intros x. unfold live_bound. cbn.
    destruct (jobs (store s) !! x) eqn:E; [apply hi_le_refl|].
    repeat destruct (decide _); cbn; try done; set_solver.
  - by eapply live_create.
  - eapply live_frame; [| |exact L]; [done|]. intros x. unfold live_bound. cbn.
    destruct (jobs (store s) !! x); [apply hi_le_refl|]. repeat destruct (decide _); cbn; try done; set_solver.
  - by eapply live_transition.
  - eapply live_frame; [| |exact L]; [done|]. intros x. apply hi_le_refl.
  - eapply live_frame; [| |exact L]; [done|]. intros x. apply hi_le_refl.
  - eapply live_frame; [| |exact L]; [done|]. intros x. apply hi_le_refl.
  - by eapply live_transition.
  - by eapply live_append.
  - apply UpdateWorkflow_Ok in H as (r & Hr & Hj & _). eapply live_frame; [| |exact L]; [done|].
    intros x. unfold live_bound. cbn. rewrite Hj. destruct (decide (x = id)) as [->|].
    + rewrite lookup_insert_eq, Hr. apply hi_le_refl.
    + rewrite lookup_insert_ne by done. apply hi_le_refl.
  - apply Prune_Ok in H as (Hj & _). eapply live_frame; [| |exact L]; [done|].
    intros x. unfold live_bound. cbn. destruct (jobs db !! x) as [r|] eqn:E.
    + apply Hj in E as [-> _]. apply hi_le_refl.
    + destruct (jobs (store s) !! x) as [r|] eqn:E'; [|apply hi_le_refl].
      rewrite decide_True; [done|]. split; [apply (proj1 (ci_issued _ _ _ I)); cbn; eauto|].
      intros Hs. apply (ci_starting _ _ _ I) in Hs as [_ Hn]. cbn in Hn. congruence.
  - eapply live_frame; [| |exact L]; [done|]. intros x. apply hi_le_refl.
  - intros x subs c buf. cbn. intros [[-> <-]|[? Hm]]%lookup_insert_Some; [|by apply (L x)].
    intros [[<- <-]|[? Hb]]%lookup_insert_Some; [by repeat constructor|].
    destruct (subsByJob s !! x) as [subs'|] eqn:E; [by apply (L x subs' c)|]. by rewrite lookup_empty in Hb.
  - intros x subs c buf. unfold live_bound. cbn. rewrite (proj1 (unsubscribe_frame s id ch)).
    specialize (L x). unfold live_bound in L. cbn in L. unfold unsubscribe.
    destruct (subsByJob s !! id) as [old|] eqn:E; [|by apply L]. destruct (decide (delete ch old = ∅)); cbn.
    + intros [? Hm]%lookup_delete_Some. by apply L.
    + intros [[-> <-]|[? Hm]]%lookup_insert_Some; [|by apply L].
      intros [? Hb]%lookup_delete_Some. by eapply L.
  - intros x subs c buf. unfold receive. cbn.
    destruct (decide (x = id)) as [->|]; [|rewrite lookup_alter_ne by done; apply (L x)].
    rewrite lookup_alter_eq. intros (old & Ho & ->)%fmap_Some.
    destruct (decide (c = ch)) as [->|]; [|rewrite lookup_alter_ne by done; by apply (L id)].
    rewrite lookup_alter_eq. intros (b & Hb & ->)%fmap_Some.
    destruct (L id old ch b Ho Hb) as (Hl & Hs & Hf). destruct b as [|e b]; [done|].
    apply Forall_cons in Hf as [_ Hf]. inversion Hs. cbn in Hl. split_and!; [cbn; lia|done|done].
Qed.
End live.

(** in every interleaving, the events waiting in a subscriber's channel are
    at most 64, belong to its job, are numbered in strictly increasing order, and
    none is numbered above the job's persisted counter. *)
Theorem live_events_ordered `{!MapRange Resource string} db c id subs ch buf :
  events_inv db → rtc conc_step (initial db) c →
  subsByJob (cs c) !! id = Some subs → subs !! ch = Some buf →
  (length buf ≤ 64)%nat ∧ StronglySorted Z.lt (ev_sequence <$> buf) ∧
  Forall (λ e, ev_job e = id ∧ 1 <= ev_sequence e) buf ∧
  (∀ r, jobs (store (cs c)) !! id = Some r → Forall (λ e, ev_sequence e <= r_event_sequence r) buf).
Proof.
  intros I H Hs Hb. assert (live_inv c) as L.
  { assert (conc_inv (dom (jobs db)) ∅ (initial db) ∧ live_inv (initial db)) as HI.
    { split; [by apply initial_inv|]. by intros x ???; cbn; rewrite lookup_empty. }
    clear Hs Hb. induction H as [|c1 c2 c3 Hst _ IH]; [apply HI|]. apply IH. destruct HI.
    split; [by eapply conc_step_inv|by eapply live_step]. }
  destruct (L id subs ch buf Hs Hb) as (? & ? & Hf). unfold live_bound in Hf. split_and!; [done..| |].
  - eapply Forall_impl; [exact Hf|]. naive_solver.
  - intros r Hr. rewrite Hr in Hf. eapply Forall_impl; [exact Hf|]. naive_solver.
Qed.

(** ** Concrete runs *)

#[local] Existing Instance demoRange.

Definition demoJobOf (id stack : string) : Job :=
  mkJob id stack "update_stack" "running" "local" "" demoTime (Some demoTime) None None "" "".
Definition demoFirst (id : string) : JobEvent := mkEvent id 1 "job_started" "running" "" "" None None demoTime.

(** The critical sections of a start, run one after the other. *)
Definition demoLock (s : Service) (id stack : string) : Service :=
  match lockMany (locks s) id [StackResource stack] false with Ok l => with_locks s l | Err _ => s end.
Definition demoCreate (s : Service) (id stack : string) : Service :=
  match CreateJobWithInitialEvent None (store s) (demoJobOf id stack) (demoFirst id) with
  | Ok db => notifyActivity (publishLive (with_store s db) (demoFirst id))
  | Err _ => s
  end.

Definition demo0 : Service := Subscribe (NewService emptyDB) "job_a" 0.
(** both jobs lock their stacks before either is stored *)
Definition demo2 : Service := demoLock (demoLock demo0 "job_a" "web") "job_b" "db".
Definition demo4 : Service := demoCreate (demoCreate demo2 "job_a" "web") "job_b" "db".

Definition demo1 : Service := demoLock demo0 "job_a" "web".
Definition demo3 : Service := demoCreate demo2 "job_a" "web".

Lemma demo4_reached : ∃ iss, rtc conc_step (initial emptyDB) (mkConc demo4 ∅ ∅ iss).
Proof.
  eexists. eapply rtc_l; [apply (c_subscribe _ _ _ _ "job_a" 0)|].
  eapply rtc_l.
  { apply (c_lock demo0 ∅ ∅ (dom (jobs emptyDB)) "job_a" "web" [] [StackResource "web"] false (locks demo1));
      [cbn; rewrite dom_empty_L; set_solver|done|by vm_compute|by vm_compute]. }
  eapply rtc_l.
  { apply (c_lock demo1 _ _ _ "job_b" "db" [] [StackResource "db"] false (locks demo2));
      [cbn; rewrite dom_empty_L; set_solver|done|by vm_compute|by vm_compute]. }
  eapply rtc_l.
  { apply (c_create demo2 _ _ _ (demoJobOf "job_a" "web") (demoFirst "job_a") (store demo3));
      [cbn; set_solver|done|by vm_compute]. }
  eapply rtc_l.
  { apply (c_create demo3 _ _ _ (demoJobOf "job_b" "db") (demoFirst "job_b") (store demo4));
      [cbn; set_solver|done|by vm_compute]. }
  match goal with |- rtc _ (mkConc ?s ?st _ _) _ =>
    replace st with (∅ : gset string) by (cbn; set_solver); replace s with demo4 by (by vm_compute) end.
  apply rtc_refl.
Qed.

Lemma active_jobs_exclusive_witness :
  ∃ c, cs c = demo4 ∧
  ∃ rs1 rs2, resourcesByJob (locks (cs c)) !! "job_a" = Some rs1 ∧ resourcesByJob (locks (cs c)) !! "job_b" = Some rs2 ∧
    ∀ r1 r2, r1 ∈ rs1 → r2 ∈ rs2 → ResourcesConflict r1 r2 = false.
Proof.
  destruct demo4_reached as [iss H]. exists (mkConc demo4 ∅ ∅ iss). split; [done|].
  apply (active_jobs_exclusive emptyDB (mkConc demo4 ∅ ∅ iss) "job_a" "job_b").
  - apply emptyDB_events_inv.
  - exact H.
  - eexists. split; [by vm_compute|]. right. left.
  - eexists. split; [by vm_compute|]. right. left.
  - cbn. rewrite dom_empty_L. set_solver.
  - cbn. rewrite dom_empty_L. set_solver.
  - done.
Defined.

Lemma server_runs c c' hs : rtc conc_step c c' → rtc host_step (mkHost c hs) (mkHost c' hs).
Proof. apply (rtc_congruence (λ x, mkHost x hs)). intros *. apply h_server. Qed.

Lemma locks_match_active_jobs_witness :
  ("job_a" ∉ (∅ : gset string) → holds demo4 "job_a" ↔ is_active (store demo4) "job_a" ∧ "job_a" ∉ dom (jobs emptyDB)) ∧
  (holds demo4 "job_a" →
   ("job_a" ∉ dom (jobs emptyDB)) ∧ (is_active (store demo4) "job_a" ∨ "job_a" ∈ (∅ : gset string))).
Proof.
  destruct demo4_reached as [iss H].
  apply (locks_match_active_jobs emptyDB (mkHost (mkConc demo4 ∅ ∅ iss) ∅) "job_a").
  - apply emptyDB_events_inv.
  - apply server_runs. exact H.
  - done.
  - done.
Defined.

Lemma live_events_ordered_witness :
  (length [demoFirst "job_a"] ≤ 64)%nat ∧ StronglySorted Z.lt (ev_sequence <$> [demoFirst "job_a"]) ∧
  Forall (λ e, ev_job e = "job_a" ∧ 1 <= ev_sequence e) [demoFirst "job_a"] ∧
  (∀ r, jobs (store demo4) !! "job_a" = Some r → Forall (λ e, ev_sequence e <= r_event_sequence r) [demoFirst "job_a"]).
Proof.
  destruct demo4_reached as [iss H].
  apply (live_events_ordered emptyDB (mkConc demo4 ∅ ∅ iss) "job_a" {[ 0%nat := [demoFirst "job_a"] ]} 0).
  - apply emptyDB_events_inv.
  - exact H.
  - by vm_compute.
  - by vm_compute.
Defined.

(** A job left running by a previous process is committed as failed; then another
    job starts and retention runs. *)
Definition demoLeftDB : DB := with_jobs emptyDB {[ "job_a" := created_row (demoJobOf "job_a" "web") 1 ]}.
Definition demoFailed : Job := finished (demoJobOf "job_a" "web") "failed" demoTime "interrupted" "".
Definition demoFailedEvent : JobEvent := newJobEvent demoFailed "job_error" "Job failed." "" None None demoTime.
Definition demoCommitted : Service :=
  match TransitionJobWithEvents None demoLeftDB demoFailed activeStates [demoFailedEvent] with
  | Ok (_, committed, db) => publishCommittedEvents (with_store (NewService demoLeftDB) db) committed
  | Err _ => NewService demoLeftDB
  end.
Definition demoLater : Service :=
  match PruneOperationalData None (store (demoLock demoCommitted "job_b" "web")) demoTime DefaultPolicy with
  | Ok (_, db) => with_store (demoLock demoCommitted "job_b" "web") db
  | Err _ => demoCommitted
  end.

Lemma demoLeft_inv : events_inv demoLeftDB.
Proof. split; cbn; intros *; [by rewrite lookup_empty|]. by intros [<- <-]%lookup_singleton_Some. Qed.

Lemma demoCommitted_reached :
  rtc conc_step (initial demoLeftDB) (mkConc demoCommitted ∅ {[ "job_a" ]} {[ "job_a" ]}).
Proof.
  eapply rtc_l.
  { apply (c_commit None (NewService demoLeftDB) ∅ ∅ (dom (jobs demoLeftDB)) demoFailed [demoFailedEvent]
      [set_ev_sequence 2 demoFailedEvent] (store demoCommitted)); [done|by vm_compute]. }
  replace ({[job_id demoFailed]} ∪ ∅ : gset string) with ({[ "job_a" ]} : gset string) by (cbn; set_solver).
  replace (dom (jobs demoLeftDB)) with ({[ "job_a" ]} : gset string) by (cbn; by rewrite dom_singleton_L).
  replace (publishCommittedEvents _ _) with demoCommitted by (by vm_compute). apply rtc_refl.
Qed.

Lemma demoLater_reached :
  rtc conc_step (mkConc demoCommitted ∅ {[ "job_a" ]} {[ "job_a" ]})
    (mkConc demoLater ({["job_b"]} ∪ ∅) {[ "job_a" ]} ({["job_b"]} ∪ {[ "job_a" ]})).
Proof.
  eapply rtc_l.
  { apply (c_lock demoCommitted _ _ _ "job_b" "web" [] [StackResource "web"] false
      (locks (demoLock demoCommitted "job_b" "web"))); [set_solver|done|by vm_compute|by vm_compute]. }
  eapply rtc_l.
  { apply (c_prune None (with_locks demoCommitted (locks (demoLock demoCommitted "job_b" "web"))) _ _ _ demoTime
      DefaultPolicy (mkSummary 0 0 0 0) (store demoLater)). by vm_compute. }
  replace (with_store _ _) with demoLater by (by vm_compute). apply rtc_refl.
Qed.

Lemma terminal_absorbing_witness :
  option_map r_state (jobs (store demoLater) !! "job_a") = Some "failed".
Proof.
  destruct (jobs (store demoLater) !! "job_a") as [r'|] eqn:E; [|by vm_compute in E].
  cbn. f_equal.
  apply (terminal_absorbing demoLeftDB (mkHost (mkConc demoCommitted ∅ {[ "job_a" ]} {[ "job_a" ]}) ∅)
    (mkHost (mkConc demoLater ({["job_b"]} ∪ ∅) {[ "job_a" ]} ({["job_b"]} ∪ {[ "job_a" ]})) ∅) "job_a"
    (update_row demoFailed 2 (created_row (demoJobOf "job_a" "web") 1))).
  - apply demoLeft_inv.
  - apply server_runs, demoCommitted_reached.
  - apply server_runs, demoLater_reached.
  - apply not_elem_of_empty.
  - by vm_compute.
  - by vm_compute.
  - exact E.
Defined.

Lemma start_as_steps_witness :
  ∃ iss', rtc conc_step (mkConc demoService ∅ ∅ ∅) (mkConc demoRunning ∅ ∅ iss').
Proof.
  apply (start_as_steps None "a" demoTime "req" demoService "web" "update_stack" "local" [] false
           [mkStep "pull" "queued" "web" []] (Ok demoRunningJob)).
  - set_solver.
  - done.
  - done.
  - apply demoStarted_eq.
Defined.

Lemma commit_as_steps_witness :
  rtc conc_step (mkConc demoRunning ∅ ∅ ∅) (mkConc demoDone ∅ ∅ ∅).
Proof.
  apply (commit_as_steps None None demoTime demoRunning (finished demoRunningJob "succeeded" demoTime "" "")
    [newJobEvent (finished demoRunningJob "succeeded" demoTime "" "") "job_finished" "Job finished successfully." ""
       None None demoTime] (Ok (finished demoRunningJob "succeeded" demoTime "" ""))).
  - done.
  - set_solver.
  - by vm_compute.
Defined.

(** ** The lock of a failed self-update

    The helper stores the job as failed without restarting the server; nothing in
    the server releases the lock of the job. *)
Definition demoUpdateJob (state : string) : Job :=
  mkJob "job_u" "" "self_update_stacklab" state "local" "" demoTime (Some demoTime) None None "" "".
Definition demoUpdate1 : Service :=
  match lockMany (locks (NewService emptyDB)) "job_u" [SelfUpdateResource] true with
  | Ok l => with_locks (NewService emptyDB) l | Err _ => NewService emptyDB end.
Definition demoUpdate2 : Service :=
  match CreateJobWithInitialEvent None (store demoUpdate1) (demoUpdateJob "running") (demoFirst "job_u") with
  | Ok db => notifyActivity (publishLive (with_store demoUpdate1 db) (demoFirst "job_u")) | Err _ => demoUpdate1 end.
Definition demoUpdate3 : Service :=
  match UpdateJob None (store demoUpdate2) (demoUpdateJob "failed") with
  | Ok db => with_store demoUpdate2 db | Err _ => demoUpdate2 end.

Example self_update_lock_leaks :
  ∃ iss, rtc host_step (booted emptyDB) (mkHost (mkConc demoUpdate3 ∅ ∅ iss) ({["job_u"]} ∪ ∅)) ∧
  holds demoUpdate3 "job_u" ∧ option_map r_state (jobs (store demoUpdate3) !! "job_u") = Some "failed".
Proof.
  eexists. split; [|split; [apply (bool_decide_unpack _); by vm_compute|by vm_compute]].
  eapply rtc_l; [eapply h_server|].
  { apply (c_lock (NewService emptyDB) ∅ ∅ (dom (jobs emptyDB)) "job_u" "" [SelfUpdateResource] [SelfUpdateResource] true
      (locks demoUpdate1)); [cbn; rewrite dom_empty_L; set_solver|done|by vm_compute|by vm_compute]. }
  eapply rtc_l; [eapply h_server|].
  { apply (c_create demoUpdate1 _ _ _ (demoUpdateJob "running") (demoFirst "job_u") (store demoUpdate2));
      [cbn; set_solver|done|by vm_compute]. }
  match goal with |- rtc _ (mkHost (mkConc ?s ?st _ _) _) _ =>
    replace st with (∅ : gset string) by (cbn; set_solver); replace s with demoUpdate2 by (by vm_compute) end.
  replace demoUpdate3 with (with_store demoUpdate2 (store demoUpdate3)) by (by vm_compute).
  eapply rtc_once, (h_update None (mkConc demoUpdate2 ∅ ∅ _) ∅ (demoUpdateJob "failed")).
  - eexists. split; by vm_compute.
  - by vm_compute.
Qed.
