(* ===== verification/SessionHub.v ===== *)
(** * internal/auth/session_lifecycle.go: the session lifecycle hub

    The in-memory leases of the sessions that have an open transport, their
    expiration timers and the fan-out of terminations.  A channel has its buffer
    and whether it is closed; a send that would block or a send or close on a
    closed channel (a panic) has no result ([None]): the hub sends while it holds
    its mutex, so a blocked send would stop it for good.  A timer is the instant
    it fires.  Clock readings are arguments; the call of [onExpired] that follows
    an operation is part of its result. *)

From stdpp Require Import gmap strings list relations.
From Stdlib Require Import ZArith.
From S2P Require Import Prelude GoTime.

Local Open Scope Z_scope.

Inductive SessionTerminationReason :=
| SessionTerminationLogout
| SessionTerminationPasswordChanged
| SessionTerminationRevoked
| SessionTerminationIdleExpired
| SessionTerminationAbsoluteExpired.

Record SessionTermination := mkTermination {
  term_session : string; term_all : bool; term_reason : SessionTerminationReason }.

Record chan := mkChan { chan_buf : list SessionTermination; chan_closed : bool }.

Definition send (capacity : nat) (e : SessionTermination) (c : chan) : option chan :=
  if chan_closed c then None
  else if (length (chan_buf c) <? capacity)%nat then Some (mkChan (chan_buf c ++ [e]) false)
  else None.
Definition close (c : chan) : option chan := if chan_closed c then None else Some (mkChan (chan_buf c) true).

Record trackedSession := mkTracked {
  idleDeadline : Time; absoluteDeadline : Time; lastPersistedAt : Time;
  timer : option Time; subscribers : gmap Z nat }.

Record sessionActivityTouch := mkTouch {
  activityAt : Time; expiresAt : Time; expectedLastSeenAt : Time; shouldPersist : bool; active : bool }.
Definition zeroTouch : sessionActivityTouch := mkTouch zero_time zero_time zero_time false false.

(** [sessionLifecycleHub] with the channels it created. *)
Record Hub := mkHub {
  idleTimeout : Duration; absoluteLifetime : Duration; persistInterval : Duration;
  nextSubscriberID : Z; sessions : gmap string trackedSession; closing : bool;
  channels : gmap nat chan }.

Definition with_hub_sessions (h : Hub) (m : gmap string trackedSession) : Hub :=
  mkHub (idleTimeout h) (absoluteLifetime h) (persistInterval h) (nextSubscriberID h) m (closing h) (channels h).
Definition with_channels (h : Hub) (m : gmap nat chan) : Hub :=
  mkHub (idleTimeout h) (absoluteLifetime h) (persistInterval h) (nextSubscriberID h) (sessions h) (closing h) m.

Definition minTime (left right : Time) : Time := if before left right then left else right.

Definition sessionTouchInterval (idleTimeout : Duration) : Duration :=
  let interval := Z.quot idleTimeout 2 in
  if (interval <=? 0) || (Minute <? interval) then Minute else interval.

Definition newSessionLifecycleHub (idle absolute : Duration) : Hub :=
  mkHub idle absolute (sessionTouchInterval idle) 0 ∅ false ∅.

Definition expirationReason (t : trackedSession) (now : Time) : option SessionTerminationReason :=
  if negb (after (absoluteDeadline t) now) then Some SessionTerminationAbsoluteExpired
  else if negb (after (idleDeadline t) now) then Some SessionTerminationIdleExpired
  else None.

Definition set_timer (t : trackedSession) (u : option Time) : trackedSession :=
  mkTracked (idleDeadline t) (absoluteDeadline t) (lastPersistedAt t) u (subscribers t).
Definition set_idle (t : trackedSession) (d : Time) : trackedSession :=
  mkTracked d (absoluteDeadline t) (lastPersistedAt t) (timer t) (subscribers t).
Definition set_persisted (t : trackedSession) (p : Time) : trackedSession :=
  mkTracked (idleDeadline t) (absoluteDeadline t) p (timer t) (subscribers t).
Definition set_subscribers (t : trackedSession) (m : gmap Z nat) : trackedSession :=
  mkTracked (idleDeadline t) (absoluteDeadline t) (lastPersistedAt t) (timer t) m.

(** The effective deadline of a lease. *)
Definition lease_deadline (t : trackedSession) : Time := minTime (idleDeadline t) (absoluteDeadline t).

(** [scheduleLocked]: the timer is created or reset to fire after the delay. *)
Definition scheduleLocked (h : Hub) (sessionID : string) (t : trackedSession) (now : Time) : Hub :=
  if closing h then with_hub_sessions h (<[sessionID := t]> (sessions h))
  else
    let delay := lease_deadline t - now in
    let delay := if delay <? 0 then 0 else delay in
    with_hub_sessions h (<[sessionID := set_timer t (Some (now + delay))]> (sessions h)).

Section hub.
Context `{!MapRange Z nat, !MapRange string trackedSession}.

(** The loop of [terminateLocked] over the subscribers' channels. *)
Fixpoint notifyAll (capacity : nat) (e : SessionTermination) (cs : list nat) (m : gmap nat chan)
    : option (gmap nat chan) :=
  match cs with
  | [] => Some m
  | c :: rest =>
    ch ← m !! c; ch ← send capacity e ch; ch ← close ch; notifyAll capacity e rest (<[c := ch]> m)
  end.

Definition terminateLocked (h : Hub) (sessionID : string) (reason : SessionTerminationReason) : option Hub :=
  match sessions h !! sessionID with
  | None => Some h
  | Some t =>
    m ← notifyAll 1 (mkTermination sessionID false reason) (range_list (subscribers t)).*2 (channels h);
    Some (with_channels (with_hub_sessions h (delete sessionID (sessions h))) m)
  end.

Definition Terminate := terminateLocked.

Fixpoint terminateEach (h : Hub) (ids : list string) (reason : SessionTerminationReason) : option Hub :=
  match ids with
  | [] => Some h
  | id :: rest => h ← terminateLocked h id reason; terminateEach h rest reason
  end.

Definition TerminateAll (h : Hub) (reason : SessionTerminationReason) : option Hub :=
  terminateEach h (range_list (sessions h)).*1 reason.

(** [Subscribe] on a session with the given id and times; [ch] is the channel it
    makes.  The result has the subscriber id of a tracked subscription. *)
Definition HubSubscribe (h : Hub) (now : Time) (ch : nat) (id : string) (createdAt lastSeenAt expires : Time)
    : Hub * option Z :=
  if closing h then (with_channels h (<[ch := mkChan [] true]> (channels h)), None)
  else
    let absolute := createdAt + absoluteLifetime h in
    let idle := minTime expires absolute in
    let lastPersisted := if is_zero lastSeenAt then now else lastSeenAt in
    if negb (after idle now) then
      let reason := if negb (after absolute now) then SessionTerminationAbsoluteExpired
                    else SessionTerminationIdleExpired in
      (with_channels h (<[ch := mkChan [mkTermination id false reason] true]> (channels h)), None)
    else
      let t :=
        match sessions h !! id with
        | None => mkTracked idle absolute lastPersisted None ∅
        | Some t =>
          let t := if after idle (idleDeadline t) then set_idle t idle else t in
          if after lastPersisted (lastPersistedAt t) then set_persisted t lastPersisted else t
        end in
      let subscriberID := (nextSubscriberID h + 1) mod 2 ^ 64 in
      let t := set_subscribers t (<[subscriberID := ch]> (subscribers t)) in
      let h := mkHub (idleTimeout h) (absoluteLifetime h) (persistInterval h) subscriberID (sessions h) (closing h)
                 (<[ch := mkChan [] false]> (channels h)) in
      (scheduleLocked h id t now, Some subscriberID).

Definition unsubscribeHub (h : Hub) (sessionID : string) (subscriberID : Z) : Hub :=
  match sessions h !! sessionID with
  | None => h
  | Some t =>
    let subs := delete subscriberID (subscribers t) in
    if decide (subs = ∅) then with_hub_sessions h (delete sessionID (sessions h))
    else with_hub_sessions h (<[sessionID := set_subscribers t subs]> (sessions h))
  end.

(** [Touch]; the last result is the pending call of [onExpired]. *)
Definition Touch (h : Hub) (now : Time) (sessionID : string)
    : option (sessionActivityTouch * Hub * option SessionTerminationReason) :=
  match sessions h !! sessionID with
  | None => Some (zeroTouch, h, None)
  | Some t =>
    if closing h then Some (zeroTouch, h, None)
    else
      match expirationReason t now with
      | Some reason => h ← terminateLocked h sessionID reason; Some (zeroTouch, h, Some reason)
      | None =>
        let t := set_idle t (minTime (now + idleTimeout h) (absoluteDeadline t)) in
        let persist := persistInterval h <=? now - lastPersistedAt t in
        Some (mkTouch now (idleDeadline t) (lastPersistedAt t) persist true, scheduleLocked h sessionID t now, None)
      end
  end.

Definition TouchLease (h : Hub) (now : Time) (sessionID : string) (expires : Time) : Hub :=
  match sessions h !! sessionID with
  | None => h
  | Some t =>
    if closing h then h
    else
      let deadline := minTime expires (absoluteDeadline t) in
      let t := if after deadline (idleDeadline t) then set_idle t deadline else t in
      scheduleLocked h sessionID t now
  end.

Definition TouchPersisted (h : Hub) (now : Time) (sessionID : string) (lastSeenAt expires : Time) : Hub :=
  match sessions h !! sessionID with
  | None => h
  | Some t =>
    if closing h then h
    else
      let deadline := minTime expires (absoluteDeadline t) in
      let t := if after deadline (idleDeadline t) then set_idle t deadline else t in
      let t := if after lastSeenAt (lastPersistedAt t) then set_persisted t lastSeenAt else t in
      scheduleLocked h sessionID t now
  end.

Definition expire (h : Hub) (now : Time) (sessionID : string) : option (Hub * option SessionTerminationReason) :=
  match sessions h !! sessionID with
  | None => Some (h, None)
  | Some t =>
    match expirationReason t now with
    | None => Some (scheduleLocked h sessionID t now, None)
    | Some reason => h ← terminateLocked h sessionID reason; Some (h, Some reason)
    end
  end.

(** The timer's function. *)
Definition runExpiration (h : Hub) (now : Time) (sessionID : string)
    : option (Hub * option SessionTerminationReason) :=
  if closing h then Some (h, None) else expire h now sessionID.

Fixpoint closeAll (cs : list nat) (m : gmap nat chan) : option (gmap nat chan) :=
  match cs with
  | [] => Some m
  | c :: rest => ch ← m !! c; ch ← close ch; closeAll rest (<[c := ch]> m)
  end.

Fixpoint closeEach (ts : list trackedSession) (m : gmap nat chan) : option (gmap nat chan) :=
  match ts with
  | [] => Some m
  | t :: rest => m ← closeAll (range_list (subscribers t)).*2 m; closeEach rest m
  end.

(** [Shutdown], up to its wait for the running expirations. *)
Definition ShutdownHub (h : Hub) : option Hub :=
  if closing h then Some h
  else
    m ← closeEach (range_list (sessions h)).*2 (channels h);
    Some (mkHub (idleTimeout h) (absoluteLifetime h) (persistInterval h) (nextSubscriberID h) ∅ true m).
End hub.

(** ** The invariant *)

(** Every subscriber has its own open, empty channel; a tracked session has a
    subscriber and a timer that does not fire before the lease ends; a closing
    hub tracks nothing. *)
Record hub_inv (h : Hub) : Prop := {
  hi_chan : ∀ sid t k c, sessions h !! sid = Some t → subscribers t !! k = Some c →
    channels h !! c = Some (mkChan [] false) ∧ 0 <= k <= nextSubscriberID h;
  hi_inj : ∀ sid1 t1 k1 sid2 t2 k2 c, sessions h !! sid1 = Some t1 → subscribers t1 !! k1 = Some c →
    sessions h !! sid2 = Some t2 → subscribers t2 !! k2 = Some c → sid1 = sid2 ∧ k1 = k2;
  hi_live : ∀ sid t, sessions h !! sid = Some t →
    subscribers t ≠ ∅ ∧ ∃ u, timer t = Some u ∧ lease_deadline t <= u;
  hi_closing : closing h = true → sessions h = ∅;
  hi_next : 0 <= nextSubscriberID h
}.

Lemma newHub_inv idle absolute : hub_inv (newSessionLifecycleHub idle absolute).
Proof. split; cbn; try done; intros *; by rewrite lookup_empty. Qed.

Lemma minTime_le_l a b : minTime a b <= a.
Proof. unfold minTime, before. destruct (Z.ltb_spec a b); lia. Qed.
Lemma minTime_le_r a b : minTime a b <= b.
Proof. unfold minTime, before. destruct (Z.ltb_spec a b); lia. Qed.

Lemma set_timer_deadline t u : lease_deadline (set_timer t u) = lease_deadline t.
Proof. done. Qed.

Lemma notifyAll_total e cs m :
  NoDup cs → (∀ c, c ∈ cs → m !! c = Some (mkChan [] false)) →
  ∃ m', notifyAll 1 e cs m = Some m' ∧
    ∀ c, m' !! c = if decide (c ∈ cs) then Some (mkChan [e] true) else m !! c.
Proof.
  revert m. induction cs as [|c cs IH]; intros m Hnd Hm; cbn [notifyAll].
  { exists m. split; [done|]. intros c. rewrite decide_False; [done|]. apply not_elem_of_nil. }
  apply NoDup_cons in Hnd as [Hc Hnd]. rewrite (Hm c) by left. cbn.
  destruct (IH (<[c := mkChan [e] true]> m)) as (m' & -> & Hm'); [done| |].
  { intros x Hx. rewrite lookup_insert_ne; [apply Hm; by right|]. by intros ->. }
  exists m'. split; [done|]. intros x. rewrite Hm'. destruct (decide (x = c)) as [->|Hne].
  - rewrite decide_False, decide_True, lookup_insert_eq by (done || by left). done.
  - destruct (decide (x ∈ cs)); [by rewrite decide_True by by right|].
    rewrite decide_False, lookup_insert_ne; [done|done|]. by intros [?|?]%elem_of_cons.
Qed.

Lemma closeAll_total cs m :
  NoDup cs → (∀ c, c ∈ cs → m !! c = Some (mkChan [] false)) →
  ∃ m', closeAll cs m = Some m' ∧
    ∀ c, m' !! c = if decide (c ∈ cs) then Some (mkChan [] true) else m !! c.
Proof.
  revert m. induction cs as [|c cs IH]; intros m Hnd Hm; cbn [closeAll].
  { exists m. split; [done|]. intros c. rewrite decide_False; [done|]. apply not_elem_of_nil. }
  apply NoDup_cons in Hnd as [Hc Hnd]. rewrite (Hm c) by left. cbn.
  destruct (IH (<[c := mkChan [] true]> m)) as (m' & -> & Hm'); [done| |].
  { intros x Hx. rewrite lookup_insert_ne; [apply Hm; by right|]. by intros ->. }
  exists m'. split; [done|]. intros x. rewrite Hm'. destruct (decide (x = c)) as [->|Hne].
  - rewrite decide_False, decide_True, lookup_insert_eq by (done || by left). done.
  - destruct (decide (x ∈ cs)); [by rewrite decide_True by by right|].
    rewrite decide_False, lookup_insert_ne; [done|done|]. by intros [?|?]%elem_of_cons.
Qed.

Section hub_facts.
Context `{!MapRange Z nat, !MapRange string trackedSession}.

Lemma subscriber_channel (m : gmap Z nat) c : c ∈ (range_list m).*2 ↔ ∃ k, m !! k = Some c.
Proof.
  rewrite list_elem_of_fmap. split.
  - intros ([k c'] & -> & Hin). exists k. by apply range_list_elem in Hin.
  - intros [k Hk]. exists (k, c). split; [done|]. by apply range_list_elem.
Qed.

Lemma subscriber_NoDup h sid t : hub_inv h → sessions h !! sid = Some t → NoDup (range_list (subscribers t)).*2.
Proof.
  intros I Ht. apply NoDup_fmap_2_strong.
  - intros [k1 c1] [k2 c2] H1 H2 Heq. cbn in Heq. subst. apply range_list_elem in H1, H2.
    destruct (hi_inj h I sid t k1 sid t k2 c2) as [_ ->]; done.
  - rewrite range_perm. apply NoDup_map_to_list.
Qed.

(** What a termination does to a hub that satisfies the invariant. *)
Lemma terminateLocked_total h sid reason :
  hub_inv h →
  ∃ h', terminateLocked h sid reason = Some h' ∧ hub_inv h' ∧
    sessions h' = delete sid (sessions h) ∧ closing h' = closing h ∧
    idleTimeout h' = idleTimeout h ∧ absoluteLifetime h' = absoluteLifetime h ∧
    (∀ t k c, sessions h !! sid = Some t → subscribers t !! k = Some c →
       channels h' !! c = Some (mkChan [mkTermination sid false reason] true)) ∧
    (∀ c, (∀ t k, sessions h !! sid = Some t → subscribers t !! k ≠ Some c) → channels h' !! c = channels h !! c).
Proof.
  intros I. unfold terminateLocked. destruct (sessions h !! sid) as [t|] eqn:Ht.
  2:{ exists h. rewrite delete_id by done. by split_and!. }
  destruct (notifyAll_total (mkTermination sid false reason) (range_list (subscribers t)).*2 (channels h))
    as (m & -> & Hm).
  { by eapply subscriber_NoDup. }
  { intros c [k Hk]%subscriber_channel. by eapply hi_chan. }
  assert (∀ c, (∀ k, subscribers t !! k ≠ Some c) → m !! c = channels h !! c) as Hother.
  { intros c Hc. rewrite Hm, decide_False; [done|]. intros [k Hk]%subscriber_channel. by apply (Hc k). }
  cbn. eexists. split; [done|]. split_and!; cbn; try done.
  - split; cbn.
    + intros sid' t' k c [Hne Ht']%lookup_delete_Some Hk. destruct (hi_chan h I sid' t' k c Ht' Hk) as [Hc ?].
      split; [|done]. rewrite Hother; [done|]. intros k' Hk'. apply Hne.
      by destruct (hi_inj h I sid t k' sid' t' k c).
    + intros ??????? [_ ?]%lookup_delete_Some ? [_ ?]%lookup_delete_Some ?. by eapply hi_inj.
    + intros ?? [_ ?]%lookup_delete_Some. by eapply hi_live.
    + intros Hc. rewrite (hi_closing h I Hc). apply delete_empty.
    + apply (hi_next h I).
  - intros t' k c [= <-] Hk. rewrite Hm, decide_True; [done|]. apply subscriber_channel. eauto.
  - intros c Hc. apply Hother. intros k. by apply Hc.
Qed.

(** Rescheduling a tracked session with the same subscribers. *)
Lemma schedule_inv h sid t0 t now :
  hub_inv h → sessions h !! sid = Some t0 → subscribers t = subscribers t0 →
  hub_inv (scheduleLocked h sid t now).
Proof.
  intros I H0 Hs. unfold scheduleLocked. destruct (closing h) eqn:Hc.
  { rewrite (hi_closing h I Hc) in H0. by rewrite lookup_empty in H0. }
  set (t' := set_timer t _). assert (subscribers t' = subscribers t0) as Hs' by done.
  assert (∀ sid' t1, <[sid := t']> (sessions h) !! sid' = Some t1 →
    ∃ t2, sessions h !! sid' = Some t2 ∧ subscribers t1 = subscribers t2) as Hold.
  { intros sid' t1 [[<- <-]|[_ ?]]%lookup_insert_Some; eauto. }
  split; cbn; try done.
  - intros sid' t1 k c (t2 & ? & ->)%Hold ?. by eapply hi_chan.
  - intros sid1 t1 k1 sid2 t2 k2 c (t1' & ? & ->)%Hold ? (t2' & ? & ->)%Hold ?. by eapply (hi_inj h I sid1 t1').
  - intros sid' t1 [[<- <-]|[_ Ht]]%lookup_insert_Some; [|by apply (hi_live h I sid')].
    split; [rewrite Hs'; by apply (hi_live h I sid)|]. eexists. split; [done|]. unfold t'. rewrite set_timer_deadline.
    destruct (Z.ltb_spec (lease_deadline t - now) 0); lia.
  - by rewrite Hc.
  - apply (hi_next h I).
Qed.

(** Adding an untracked channel. *)
Lemma channel_inv h ch c :
  hub_inv h → channels h !! ch = None → hub_inv (with_channels h (<[ch := c]> (channels h))).
Proof.
  intros I Hn. split; cbn; try apply I.
  intros sid t k x Ht Hk. destruct (hi_chan h I sid t k x Ht Hk). split; [|done].
  rewrite lookup_insert_ne; [done|]. intros <-. congruence.
Qed.

(** The tracked session [HubSubscribe] extends or makes, without the new subscriber. *)
Definition subscribed_base (h : Hub) (id : string) : gmap Z nat :=
  match sessions h !! id with Some t => subscribers t | None => ∅ end.

Lemma subscribe_inv h now ch id createdAt lastSeenAt expires :
  hub_inv h → channels h !! ch = None → nextSubscriberID h + 1 < 2 ^ 64 →
  hub_inv (HubSubscribe h now ch id createdAt lastSeenAt expires).1.
Proof.
  intros I Hn Hb. pose proof (hi_next h I) as Hn0. unfold HubSubscribe. destruct (closing h) eqn:Hc; [by apply channel_inv|].
  destruct (negb (after _ now)); [by apply channel_inv|]. rewrite Z.mod_small by lia.
  set (t := match sessions h !! id with Some _ => _ | None => _ end).
  assert (subscribers t = subscribed_base h id) as Hsubs.
  { unfold t, subscribed_base. destruct (sessions h !! id); [|done]. by repeat case_match. }
  clearbody t. unfold scheduleLocked. cbn.
  set (t' := set_timer _ _). assert (subscribers t' = <[nextSubscriberID h + 1 := ch]> (subscribed_base h id)) as Hs'.
  { unfold t'. cbn. by rewrite Hsubs. }
  assert (∀ k c, subscribers t' !! k = Some c → k = nextSubscriberID h + 1 ∧ c = ch ∨
    ∃ t0, sessions h !! id = Some t0 ∧ subscribers t0 !! k = Some c) as Hold.
  { intros k c. rewrite Hs'. intros [[<- <-]|[_ Hk]]%lookup_insert_Some; [by left|]. right.
    unfold subscribed_base in Hk. destruct (sessions h !! id) as [t0|]; [by exists t0|by rewrite lookup_empty in Hk]. }
  assert (∀ sid t1 k c, <[id := t']> (sessions h) !! sid = Some t1 → subscribers t1 !! k = Some c →
    sid = id ∧ k = nextSubscriberID h + 1 ∧ c = ch ∨ ∃ t0, sessions h !! sid = Some t0 ∧ subscribers t0 !! k = Some c)
    as Hall.
  { intros sid t1 k c [[<- <-]|[_ ?]]%lookup_insert_Some Hk; [|eauto]. destruct (Hold k c Hk) as [[-> ->]|?]; eauto. }
  assert (∀ sid t0 k, sessions h !! sid = Some t0 → subscribers t0 !! k ≠ Some ch) as Hfresh.
  { intros sid t0 k H0 H1. destruct (hi_chan h I sid t0 k ch H0 H1). congruence. }
  split; cbn.
  - intros sid t1 k c H1 H2. destruct (Hall sid t1 k c H1 H2) as [(-> & -> & ->)|(t0 & H3 & H4)].
    + rewrite lookup_insert_eq. split; [done|lia].
    + destruct (hi_chan h I sid t0 k c H3 H4). rewrite lookup_insert_ne; [split; [done|lia]|].
      intros ->. by apply (Hfresh sid t0 k).
  - intros sid1 t1 k1 sid2 t2 k2 c H1 H2 H3 H4.
    pose proof (Hall sid1 t1 k1 c H1 H2) as A. pose proof (Hall sid2 t2 k2 c H3 H4) as B.
    destruct A as [(E1 & E2 & E3)|(t0 & H5 & H6)], B as [(E4 & E5 & E6)|(t0' & H7 & H8)].
    + split; congruence.
    + subst c. by destruct (Hfresh sid2 t0' k2).
    + subst c. by destruct (Hfresh sid1 t0 k1).
    + by eapply hi_inj.
  - intros sid t1 [[<- <-]|[_ Ht]]%lookup_insert_Some; [|by apply (hi_live h I sid)].
    split; [rewrite Hs'; apply insert_non_empty|]. eexists. split; [done|]. unfold t'. rewrite set_timer_deadline.
    destruct (Z.ltb_spec (lease_deadline (set_subscribers t (<[nextSubscriberID h + 1:=ch]> (subscribers t))) - now) 0); lia.
  - done.
  - lia.
Qed.

Lemma unsubscribe_inv h sid k : hub_inv h → hub_inv (unsubscribeHub h sid k).
Proof.
  intros I. unfold unsubscribeHub. destruct (sessions h !! sid) as [t|] eqn:Ht; [|done].
  destruct (decide (delete k (subscribers t) = ∅)) as [He|He].
  - split; cbn.
    + intros ???? [_ ?]%lookup_delete_Some ?. by eapply hi_chan.
    + intros ??????? [_ ?]%lookup_delete_Some ? [_ ?]%lookup_delete_Some ?. by eapply hi_inj.
    + intros ?? [_ ?]%lookup_delete_Some. by eapply hi_live.
    + intros Hc. rewrite (hi_closing h I Hc). apply delete_empty.
    + apply (hi_next h I).
  - assert (∀ sid' t1 k1 c, <[sid := set_subscribers t (delete k (subscribers t))]> (sessions h) !! sid' = Some t1 →
      subscribers t1 !! k1 = Some c → ∃ t0, sessions h !! sid' = Some t0 ∧ subscribers t0 !! k1 = Some c) as Hold.
    { intros sid' t1 k1 c [[<- <-]|[_ ?]]%lookup_insert_Some Hk; [|eauto]. cbn in Hk.
      apply lookup_delete_Some in Hk as [_ ?]. eauto. }
    split; cbn.
    + intros ???? H1 H2. destruct (Hold _ _ _ _ H1 H2) as (? & ? & ?). by eapply hi_chan.
    + intros ??????? H1 H2 H3 H4. destruct (Hold _ _ _ _ H1 H2) as (? & ? & ?), (Hold _ _ _ _ H3 H4) as (? & ? & ?).
      by eapply hi_inj.
    + intros sid' t1 [[<- <-]|[_ ?]]%lookup_insert_Some; [|by eapply hi_live]. cbn. split; [done|].
      by apply (proj2 (hi_live h I sid t Ht)).
    + intros Hc. rewrite (hi_closing h I Hc) in Ht. by rewrite lookup_empty in Ht.
    + apply (hi_next h I).
Qed.

Lemma terminateEach_total h ids reason :
  hub_inv h → ∃ h', terminateEach h ids reason = Some h' ∧ hub_inv h' ∧ closing h' = closing h ∧
    (∀ sid, sessions h' !! sid = if decide (sid ∈ ids) then None else sessions h !! sid).
Proof.
  revert h. induction ids as [|id ids IH]; intros h I; cbn [terminateEach].
  { exists h. by split_and!. }
  destruct (terminateLocked_total h id reason I) as (h1 & -> & I1 & Hs & Hcl & _). cbn.
  destruct (IH h1 I1) as (h2 & -> & I2 & Hcl2 & Hs2). exists h2. split_and!; try done; [congruence|].
  intros sid. rewrite Hs2, Hs. destruct (decide (sid ∈ ids)); [by rewrite decide_True by by right|].
  destruct (decide (sid = id)) as [->|].
  - rewrite lookup_delete_eq. by rewrite decide_True by by left.
  - rewrite lookup_delete_ne by done. rewrite decide_False; [done|]. by intros [?|?]%elem_of_cons.
Qed.

Lemma TerminateAll_total h reason :
  hub_inv h → ∃ h', TerminateAll h reason = Some h' ∧ hub_inv h' ∧ sessions h' = ∅.
Proof.
  intros I. destruct (terminateEach_total h (range_list (sessions h)).*1 reason I) as (h' & ? & ? & _ & Hs).
  exists h'. split_and!; try done. apply map_empty. intros sid. rewrite Hs. case_decide as Hin; [done|].
  apply eq_None_not_Some. intros [t Ht]. apply Hin, list_elem_of_fmap. exists (sid, t).
  split; [done|]. by apply range_list_elem.
Qed.

(** Closing the channels of a list of sessions with pairwise distinct channels. *)
Lemma closeEach_total ts m :
  NoDup (concat ((λ t, (range_list (subscribers t)).*2) <$> ts)) →
  (∀ t k c, t ∈ ts → subscribers t !! k = Some c → m !! c = Some (mkChan [] false)) →
  ∃ m', closeEach ts m = Some m'.
Proof.
  revert m. induction ts as [|t ts IH]; intros m Hnd Hm; cbn [closeEach]; [eauto|].
  cbn in Hnd. apply NoDup_app in Hnd as (Hnd1 & Hdisj & Hnd2).
  destruct (closeAll_total (range_list (subscribers t)).*2 m Hnd1) as (m1 & -> & Hm1).
  { intros c [k Hk]%subscriber_channel. eapply Hm; [left|done]. }
  cbn. apply IH; [done|]. intros t' k c Hin Hk. rewrite Hm1, decide_False; [by eapply Hm; [right|]|].
  intros Hc. apply (Hdisj c Hc). apply list_elem_of_In, in_concat.
  exists (range_list (subscribers t')).*2. split; apply list_elem_of_In.
  - apply list_elem_of_fmap. eauto.
  - apply subscriber_channel. eauto.
Qed.

Lemma tracked_channels_NoDup h (l : list (string * trackedSession)) :
  hub_inv h → NoDup l.*1 → (∀ p, p ∈ l → sessions h !! p.1 = Some p.2) →
  NoDup (concat ((λ t, (range_list (subscribers t)).*2) <$> l.*2)).
Proof.
  intros I. induction l as [|[sid t] l IH]; intros Hnd Hl; cbn; [constructor|].
  cbn in Hnd. apply NoDup_cons in Hnd as [Hsid Hnd]. pose proof (Hl (sid, t) ltac:(left)) as Ht. cbn in Ht.
  apply NoDup_app. split_and!.
  - by eapply subscriber_NoDup.
  - intros c [k Hk]%subscriber_channel Hc. apply list_elem_of_In, in_concat in Hc as (cs & Hcs & Hc).
    apply list_elem_of_In, list_elem_of_fmap in Hcs as (t' & -> & Hcs).
    apply list_elem_of_fmap in Hcs as ([sid' t''] & -> & Hin). cbn in Hc.
    apply list_elem_of_In, subscriber_channel in Hc as [k' Hk'].
    pose proof (Hl (sid', t'') ltac:(by right)) as Ht'. cbn in Ht'.
    destruct (hi_inj h I sid t k sid' t'' k' c) as [-> _]; try done.
    apply Hsid, list_elem_of_fmap. exists (sid', t''). done.
  - apply IH; [done|]. intros p Hp. apply Hl. by right.
Qed.

Lemma Shutdown_total h : hub_inv h → ∃ h', ShutdownHub h = Some h' ∧ hub_inv h' ∧ closing h' = true ∧ sessions h' = ∅.
Proof.
  intros I. unfold ShutdownHub. destruct (closing h) eqn:Hc.
  { exists h. split_and!; try done. by apply (hi_closing h I). }
  destruct (closeEach_total (range_list (sessions h)).*2 (channels h)) as [m ->].
  - eapply tracked_channels_NoDup; [done| |].
    + rewrite range_perm. apply NoDup_fst_map_to_list.
    + intros [sid t] Hin. by apply range_list_elem in Hin.
  - intros t k c Hin Hk. apply list_elem_of_fmap in Hin as ([sid t'] & -> & Hin).
    apply range_list_elem in Hin. by eapply hi_chan.
  - cbn. eexists. split; [done|]. split_and!; try done.
    split; cbn; try done; intros *; try (by rewrite lookup_empty). by apply (hi_next h I).
Qed.

(** ** The hub as a transition system *)

Inductive hub_step : Hub → Hub → Prop :=
| h_subscribe h now ch id createdAt lastSeenAt expires :
    channels h !! ch = None → nextSubscriberID h + 1 < 2 ^ 64 →
    hub_step h (HubSubscribe h now ch id createdAt lastSeenAt expires).1
| h_unsubscribe h sid k : hub_step h (unsubscribeHub h sid k)
| h_touch h now sid touch h' expired : Touch h now sid = Some (touch, h', expired) → hub_step h h'
| h_lease h now sid expires : hub_step h (TouchLease h now sid expires)
| h_persisted h now sid seen expires : hub_step h (TouchPersisted h now sid seen expires)
| h_timer h now sid h' expired : runExpiration h now sid = Some (h', expired) → hub_step h h'
| h_terminate h sid reason h' : Terminate h sid reason = Some h' → hub_step h h'
| h_terminate_all h reason h' : TerminateAll h reason = Some h' → hub_step h h'
| h_shutdown h h' : ShutdownHub h = Some h' → hub_step h h'
(** a transport receives its termination *)
| h_receive h c e rest closed :
    channels h !! c = Some (mkChan (e :: rest) closed) →
    hub_step h (with_channels h (<[c := mkChan rest closed]> (channels h))).

Lemma terminate_step_inv h sid reason h' :
  hub_inv h → terminateLocked h sid reason = Some h' → hub_inv h'.
Proof. intros I H. destruct (terminateLocked_total h sid reason I) as (? & ? & ? & _). congruence. Qed.

Lemma touchLease_inv h now sid expires : hub_inv h → hub_inv (TouchLease h now sid expires).
Proof.
  intros I. unfold TouchLease. destruct (sessions h !! sid) as [t|] eqn:Ht; [|done]. case_match; [done|].
  eapply schedule_inv; eauto. by case_match.
Qed.

Lemma touchPersisted_inv h now sid seen expires : hub_inv h → hub_inv (TouchPersisted h now sid seen expires).
Proof.
  intros I. unfold TouchPersisted. destruct (sessions h !! sid) as [t|] eqn:Ht; [|done]. case_match; [done|].
  eapply schedule_inv; eauto. by repeat case_match.
Qed.

Lemma Touch_total h now sid :
  hub_inv h → ∃ touch h' expired, Touch h now sid = Some (touch, h', expired) ∧ hub_inv h'.
Proof.
  intros I. unfold Touch. destruct (sessions h !! sid) as [t|] eqn:Ht; [|eauto 6]. case_match; [eauto 6|].
  destruct (expirationReason t now) as [reason|].
  - destruct (terminateLocked_total h sid reason I) as (h' & -> & ? & _). cbn. eauto 6.
  - eexists _, _, _. split; [done|]. by eapply schedule_inv.
Qed.

Lemma expire_total h now sid : hub_inv h → ∃ h' expired, expire h now sid = Some (h', expired) ∧ hub_inv h'.
Proof.
  intros I. unfold expire. destruct (sessions h !! sid) as [t|] eqn:Ht; [|eauto].
  destruct (expirationReason t now) as [reason|].
  - destruct (terminateLocked_total h sid reason I) as (h' & -> & ? & _). cbn. eauto.
  - eexists _, _. split; [done|]. by eapply schedule_inv.
Qed.

Lemma hub_step_inv h h' : hub_step h h' → hub_inv h → hub_inv h'.
Proof.
  intros Hs I. destruct Hs.
  - by apply subscribe_inv.
  - by apply unsubscribe_inv.
  - destruct (Touch_total h now sid I) as (? & ? & ? & ? & ?). congruence.
  - by apply touchLease_inv.
  - by apply touchPersisted_inv.
  - unfold runExpiration in H. case_match; [by simplify_eq|].
    destruct (expire_total h now sid I) as (? & ? & ? & ?). congruence.
  - by eapply terminate_step_inv.
  - destruct (TerminateAll_total h reason I) as (? & ? & ? & _). congruence.
  - destruct (Shutdown_total h I) as (? & ? & ? & _). congruence.
  - split; cbn; try apply I. intros sid t k x Ht Hk. destruct (hi_chan h I sid t k x Ht Hk) as [Hx ?].
    split; [|done]. rewrite lookup_insert_ne; [done|]. intros <-. congruence.
Qed.

Lemma hub_reachable_inv idle absolute h : rtc hub_step (newSessionLifecycleHub idle absolute) h → hub_inv h.
Proof.
  intros H. assert (hub_inv (newSessionLifecycleHub idle absolute)) as I by apply newHub_inv.
  induction H as [|h1 h2 h3 Hs _ IH]; [done|]. apply IH. by eapply hub_step_inv.
Qed.

(** the hub never blocks and never panics while it holds its mutex: in every
    reachable state [Terminate], [TerminateAll] and [Shutdown] return, and
    [Terminate] delivers exactly one termination with its reason to every
    subscriber of the session, closes its channel and stops tracking it. *)
Theorem hub_never_blocks idle absolute h sid reason :
  rtc hub_step (newSessionLifecycleHub idle absolute) h →
  (∃ h', Terminate h sid reason = Some h' ∧ sessions h' !! sid = None ∧
     ∀ t k c, sessions h !! sid = Some t → subscribers t !! k = Some c →
       channels h' !! c = Some (mkChan [mkTermination sid false reason] true)) ∧
  (∃ h', TerminateAll h reason = Some h' ∧ sessions h' = ∅) ∧
  (∃ h', ShutdownHub h = Some h' ∧ sessions h' = ∅ ∧ closing h' = true).
Proof.
  intros I%hub_reachable_inv. split_and!.
  - destruct (terminateLocked_total h sid reason I) as (h' & ? & _ & Hs & _ & _ & _ & Hd & _).
    exists h'. split_and!; [done| |done]. by rewrite Hs, lookup_delete_eq.
  - destruct (TerminateAll_total h reason I) as (h' & ? & _ & ?). eauto.
  - destruct (Shutdown_total h I) as (h' & ? & _ & ? & ?). eauto.
Qed.

(** leases end: a tracked session of a reachable hub has a pending timer,
    and when the timer fires at its time or later the session is terminated with
    an expiry reason and [onExpired] is called for it. *)
Theorem hub_timer_expires idle absolute h sid t :
  rtc hub_step (newSessionLifecycleHub idle absolute) h → sessions h !! sid = Some t →
  ∃ u, timer t = Some u ∧ ∀ now, u <= now →
    ∃ h' reason, runExpiration h now sid = Some (h', Some reason) ∧ sessions h' !! sid = None ∧
      reason ∈ [SessionTerminationIdleExpired; SessionTerminationAbsoluteExpired].
Proof.
  intros I%hub_reachable_inv Ht. destruct (hi_live h I sid t Ht) as (_ & u & Hu & Hle). exists u. split; [done|].
  intros now Hnow. unfold runExpiration, expire. destruct (closing h) eqn:Hc.
  { rewrite (hi_closing h I Hc) in Ht. by rewrite lookup_empty in Ht. }
  rewrite Ht.
  assert (∃ reason, expirationReason t now = Some reason ∧
    reason ∈ [SessionTerminationIdleExpired; SessionTerminationAbsoluteExpired]) as (reason & Hr & Hin).
  { unfold expirationReason, after. unfold lease_deadline, minTime, before in Hle.
    destruct (Z.ltb_spec now (absoluteDeadline t)); cbn; [|eexists; split; [done|set_solver]].
    destruct (Z.ltb_spec now (idleDeadline t)); cbn; [|eexists; split; [done|set_solver]].
    destruct (Z.ltb_spec (idleDeadline t) (absoluteDeadline t)); lia. }
  rewrite Hr. destruct (terminateLocked_total h sid reason I) as (h' & -> & _ & Hs & _). cbn.
  exists h', reason. split_and!; try done. by rewrite Hs, lookup_delete_eq.
Qed.

(** activity extends a lease only within the absolute lifetime: an accepted
    [Touch] reports a deadline not after the absolute one and not after the idle
    timeout, and an expired session is refused. *)
Theorem Touch_lease_bounds h now sid t touch h' expired :
  hub_inv h → closing h = false → sessions h !! sid = Some t →
  Touch h now sid = Some (touch, h', expired) →
  (active touch = true ↔ now < lease_deadline t) ∧
  (active touch = true → expired = None ∧ activityAt touch = now ∧
     expiresAt touch = Z.min (now + idleTimeout h) (absoluteDeadline t) ∧
     ∃ t', sessions h' !! sid = Some t' ∧ idleDeadline t' = expiresAt touch) ∧
  (active touch = false → sessions h' !! sid = None ∧ is_Some expired).
Proof.
  intros I Hc Ht. unfold Touch. rewrite Ht, Hc. unfold expirationReason, after, lease_deadline, minTime, before.
  destruct (Z.ltb_spec now (absoluteDeadline t)) as [Ha|Ha]; cbn [negb]; cycle 1.
  { destruct (terminateLocked_total h sid SessionTerminationAbsoluteExpired I) as (h1 & -> & _ & Hs & _).
    intros [= <- <- <-]. cbn. rewrite Hs, lookup_delete_eq. split_and!; [|done|eauto].
    split; [done|]. destruct (Z.ltb_spec (idleDeadline t) (absoluteDeadline t)); lia. }
  destruct (Z.ltb_spec now (idleDeadline t)) as [Hi|Hi]; cbn [negb]; cycle 1.
  { destruct (terminateLocked_total h sid SessionTerminationIdleExpired I) as (h1 & -> & _ & Hs & _).
    intros [= <- <- <-]. cbn. rewrite Hs, lookup_delete_eq. split_and!; [|done|eauto].
    split; [done|]. destruct (Z.ltb_spec (idleDeadline t) (absoluteDeadline t)); lia. }
  intros [= <- <- <-]. cbn. split_and!; [|intros _|done].
  - split; [|done]. intros _. destruct (Z.ltb_spec (idleDeadline t) (absoluteDeadline t)); lia.
  - split_and!; try done.
    + destruct (Z.ltb_spec (now + idleTimeout h) (absoluteDeadline t)); lia.
    + unfold scheduleLocked. rewrite Hc. cbn. rewrite lookup_insert_eq. eexists. by split.
Qed.
End hub_facts.

(** ** Concrete instances *)

Definition demoSubs : MapRange Z nat := default_range Z nat.
Definition demoTracked : MapRange string trackedSession := default_range string trackedSession.
#[local] Existing Instance demoSubs.
#[local] Existing Instance demoTracked.

Definition demoStart : Time := 1731907443 * Second.
(** two transports of one session *)
Definition demoHub : Hub :=
  let h := newSessionLifecycleHub (30 * Minute) (12 * Hour) in
  let h := (HubSubscribe h demoStart 0 "sess" demoStart demoStart (demoStart + 30 * Minute)).1 in
  (HubSubscribe h (demoStart + Minute) 1 "sess" demoStart demoStart (demoStart + 31 * Minute)).1.

Lemma demoHub_reached : rtc hub_step (newSessionLifecycleHub (30 * Minute) (12 * Hour)) demoHub.
Proof.
  eapply rtc_l; [apply (h_subscribe _ demoStart 0 "sess" demoStart demoStart (demoStart + 30 * Minute)); by vm_compute|].
  apply rtc_once.
  apply (h_subscribe _ (demoStart + Minute) 1 "sess" demoStart demoStart (demoStart + 31 * Minute)); by vm_compute.
Qed.

Definition demoLease : trackedSession :=
  mkTracked (demoStart + 31 * Minute) (demoStart + 12 * Hour) demoStart (Some (demoStart + 31 * Minute))
    {[ 1 := 0%nat; 2 := 1%nat ]}.

Lemma hub_never_blocks_witness :
  ∃ h', Terminate demoHub "sess" SessionTerminationLogout = Some h' ∧
    channels h' !! 1%nat = Some (mkChan [mkTermination "sess" false SessionTerminationLogout] true).
Proof.
  destruct (hub_never_blocks (30 * Minute) (12 * Hour) demoHub "sess" SessionTerminationLogout demoHub_reached)
    as [(h' & H1 & _ & H2) _].
  exists h'. split; [exact H1|]. apply (H2 demoLease 2 1%nat); by vm_compute.
Defined.

Lemma hub_timer_expires_witness :
  ∃ u, timer demoLease = Some u ∧ ∀ now, u <= now →
    ∃ h' reason, runExpiration demoHub now "sess" = Some (h', Some reason) ∧ sessions h' !! "sess" = None ∧
      reason ∈ [SessionTerminationIdleExpired; SessionTerminationAbsoluteExpired].
Proof.
  apply (hub_timer_expires (30 * Minute) (12 * Hour) demoHub "sess" demoLease); [apply demoHub_reached|by vm_compute].
Defined.

Definition demoTouched : sessionActivityTouch * Hub * option SessionTerminationReason :=
  match Touch demoHub (demoStart + 10 * Minute) "sess" with Some r => r | None => (zeroTouch, demoHub, None) end.

Lemma Touch_lease_bounds_witness :
  active demoTouched.1.1 = true ↔ demoStart + 10 * Minute < lease_deadline demoLease.
Proof.
  apply (Touch_lease_bounds demoHub (demoStart + 10 * Minute) "sess" demoLease demoTouched.1.1 demoTouched.1.2
           demoTouched.2).
  - apply (hub_reachable_inv (30 * Minute) (12 * Hour)), demoHub_reached.
  - by vm_compute.
  - by vm_compute.
  - by vm_compute.
Defined.
