(* ===== verification/Terminal.v ===== *)
(** * internal/terminal/service.go: terminal sessions

    The shells that the application opens in containers: the slots of each
    owner, the registered sessions, the attachment of a connection to a session
    with its channel of events, the timers, and the end of a session.  Sessions
    and attachments are shared objects: they live in heaps ([heap],
    [attachments]) and the maps and goroutines hold pointers to them.

    The operations lock [Service.mu] and [session.mu] in several critical
    sections; each section is a function on the service, an operation is their
    composition, and [step] lets the sections of all goroutines interleave.  A
    send on a closed channel and a second close are panics ([None]).  The
    creation of the idle timer and the registration of the session are one step:
    the timer does not expire between the two statements.  The PTY, the process
    and the hook are outside: their outcomes are arguments, what they are told is
    recorded. *)

From stdpp Require Import gmap strings list relations.
From Stdlib Require Import ZArith Lia.
From S2P Require Import Prelude GoTime.

Local Open Scope Z_scope.

(** ** Data *)

Inductive terminal_error :=
| ErrSessionNotFound
| ErrSessionLimitExceeded
| ErrInvalidShell
| ErrDevice (message : string).

Record Config := mkTerminalConfig { MaxSessionsPerOwner : Z; IdleTimeout : Duration; DetachGracePeriod : Duration }.
Record SessionInfo := mkInfo { info_id : string; info_stack : string; info_container : string; info_shell : string }.
Record Event := mkEvent { event_type : string; event_data : string; event_code : option Z; event_reason : string }.
Record LifecycleEvent := mkLifecycle {
  lc_type : string; lc_session : string; lc_stack : string; lc_container : string; lc_reason : string }.

(** A channel of events with what its receiver has taken out so far. *)
Record channel := mkChannel { ch_received : list Event; ch_buffer : list Event; ch_closed : bool }.

Record attachment := mkAttachment { at_id : string; at_connection : string; at_events : channel; at_closed : bool }.

(** [sync.Once]. *)
Inductive once := NotStarted | Running | Finished.

(** A session; a timer is whether it is armed, [s_size] the window of its PTY,
    [s_terminated] whether its process was told to end. *)
Record session := mkSession {
  s_info : SessionInfo; s_owner : string; s_current : option nat; s_idle : bool; s_detach : option bool;
  s_once : once; s_open : bool; s_terminated : bool; s_size : Z * Z }.

Record Service := mkTerminals {
  t_cfg : Config; t_sessions : gmap string nat; t_owners : gmap string (gset string);
  heap : gmap nat session; attachments : gmap nat attachment;
  hooked : list LifecycleEvent; written : list (string * nat * string) }.

Definition with_owners (s : Service) m : Service := mkTerminals (t_cfg s) (t_sessions s) m (heap s) (attachments s) (hooked s) (written s).
Definition with_registered (s : Service) m : Service := mkTerminals (t_cfg s) m (t_owners s) (heap s) (attachments s) (hooked s) (written s).
Definition with_heap (s : Service) m : Service := mkTerminals (t_cfg s) (t_sessions s) (t_owners s) m (attachments s) (hooked s) (written s).
Definition with_attachments (s : Service) m : Service := mkTerminals (t_cfg s) (t_sessions s) (t_owners s) (heap s) m (hooked s) (written s).
Definition with_hooked (s : Service) l : Service := mkTerminals (t_cfg s) (t_sessions s) (t_owners s) (heap s) (attachments s) l (written s).
Definition with_written (s : Service) l : Service := mkTerminals (t_cfg s) (t_sessions s) (t_owners s) (heap s) (attachments s) (hooked s) l.

Definition set_current (se : session) (a : option nat) : session :=
  mkSession (s_info se) (s_owner se) a (s_idle se) (s_detach se) (s_once se) (s_open se) (s_terminated se) (s_size se).
Definition set_timers (se : session) (idle : bool) (detach : option bool) : session :=
  mkSession (s_info se) (s_owner se) (s_current se) idle detach (s_once se) (s_open se) (s_terminated se) (s_size se).
Definition set_once (se : session) (o : once) : session :=
  mkSession (s_info se) (s_owner se) (s_current se) (s_idle se) (s_detach se) o (s_open se) (s_terminated se) (s_size se).
Definition set_ended (se : session) : session :=
  mkSession (s_info se) (s_owner se) (s_current se) (s_idle se) (s_detach se) (s_once se) false true (s_size se).
Definition set_size (se : session) (size : Z * Z) : session :=
  mkSession (s_info se) (s_owner se) (s_current se) (s_idle se) (s_detach se) (s_once se) (s_open se) (s_terminated se) size.

Definition NewService (cfg : Config) : Service :=
  mkTerminals
    (mkTerminalConfig (if MaxSessionsPerOwner cfg <=? 0 then 5 else MaxSessionsPerOwner cfg)
       (if IdleTimeout cfg <=? 0 then 30 * Minute else IdleTimeout cfg)
       (if DetachGracePeriod cfg <=? 0 then Minute else DetachGracePeriod cfg))
    ∅ ∅ ∅ ∅ [] [].

(** ** Helpers *)

Definition normalizeShell (shell : string) : res terminal_error string :=
  if str_in shell [""; "/bin/sh"] then Ok "/bin/sh"
  else if str_eqb shell "/bin/bash" then Ok "/bin/bash"
  else Err ErrInvalidShell.
Definition normalizeCols (cols : Z) : Z := if cols <=? 0 then 120 else cols.
Definition normalizeRows (rows : Z) : Z := if rows <=? 0 then 36 else rows.
(** [pty.Winsize] with its uint16 fields. *)
Definition winsize (cols rows : Z) : Z * Z := (normalizeCols cols mod 2 ^ 16, normalizeRows rows mod 2 ^ 16).

Definition emitLifecycle (e : LifecycleEvent) (s : Service) : Service := with_hooked s (hooked s ++ [e]).
Definition lifecycle (kind : string) (i : SessionInfo) (reason : string) : LifecycleEvent :=
  mkLifecycle kind (info_id i) (info_stack i) (info_container i) reason.

(** ** Channels *)

Definition eventCapacity : nat := 256.

(** [select { case c <- e: default: }]. *)
Definition select_send (e : Event) (c : channel) : option (channel * bool) :=
  if ch_closed c then None
  else if (length (ch_buffer c) <? eventCapacity)%nat then Some (mkChannel (ch_received c) (ch_buffer c ++ [e]) false, true)
  else Some (c, false).
(** [select { case <-c: default: }]: the event is thrown away. *)
Definition select_receive (c : channel) : channel := mkChannel (ch_received c) (drop 1 (ch_buffer c)) (ch_closed c).
(** The receiver of the channel takes [n] events. *)
Definition taken (n : nat) (c : channel) : channel :=
  mkChannel (ch_received c ++ take n (ch_buffer c)) (drop n (ch_buffer c)) (ch_closed c).

Definition closeAttachmentLocked (a : attachment) : option attachment :=
  if at_closed a then Some a
  else if ch_closed (at_events a) then None
  else Some (mkAttachment (at_id a) (at_connection a) (mkChannel (ch_received (at_events a)) (ch_buffer (at_events a)) true) true).

(** The receiver may take [n] events between the attempts to send. *)
Definition sendAndCloseAttachmentLocked (n : nat) (a : attachment) (e : Event) : option attachment :=
  if at_closed a then Some a
  else
    '(c, sent) ← select_send e (at_events a);
    c ← (if sent : bool then Some c else fst <$> select_send e (select_receive (taken n c)));
    closeAttachmentLocked (mkAttachment (at_id a) (at_connection a) c (at_closed a)).

(** ** The slots of the owners *)

Definition owned (s : Service) (owner : string) : gset string := default ∅ (t_owners s !! owner).

Definition reserveOwnerSession (owner id : string) (s : Service) : res terminal_error unit * Service :=
  let s := with_owners s (<[owner := owned s owner]> (t_owners s)) in
  if MaxSessionsPerOwner (t_cfg s) <=? Z.of_nat (size (owned s owner)) then (Err ErrSessionLimitExceeded, s)
  else (Ok tt, with_owners s (<[owner := {[id]} ∪ owned s owner]> (t_owners s))).

Definition releaseOwnerSession (owner id : string) (s : Service) : Service :=
  match t_owners s !! owner with
  | None => s
  | Some ids =>
    let ids := ids ∖ {[id]} in
    with_owners s (if bool_decide (ids = ∅) then delete owner (t_owners s) else <[owner := ids]> (t_owners s))
  end.

Definition lookupOwnedSession (owner id : string) (s : Service) : res terminal_error nat :=
  match t_sessions s !! id with
  | None => Err ErrSessionNotFound
  | Some p =>
    match heap s !! p with
    | Some se => if str_eqb (s_owner se) owner then Ok p else Err ErrSessionNotFound
    | None => Err ErrSessionNotFound
    end
  end.

(** ** The critical sections of the operations

    A section on a session is given the pointer that was looked up before. *)

Definition touchLocked (se : session) : session := set_timers se true (s_detach se).
Definition newAttachment (id connection : string) : attachment := mkAttachment id connection (mkChannel [] [] false) false.

(** [Open] after the PTY was started: the session is created and registered. *)
Definition registerSession (p a : nat) (owner : string) (i : SessionInfo) (attachmentID connection : string) (size : Z * Z) (s : Service) : Service :=
  let s := with_attachments s (<[a := newAttachment attachmentID connection]> (attachments s)) in
  let s := with_heap s (<[p := mkSession i owner (Some a) true None NotStarted true false size]> (heap s)) in
  with_registered s (<[info_id i := p]> (t_sessions s)).

Definition replaced : Event := mkEvent "exited" "" None "connection_replaced".

(** The notification of the attachment that is current, if there is one. *)
Definition dismiss (n : nat) (e : Event) (se : session) (m : gmap nat attachment) : option (gmap nat attachment) :=
  match s_current se with
  | None => Some m
  | Some a => at_ ← m !! a; at' ← sendAndCloseAttachmentLocked n at_ e; Some (<[a := at']> m)
  end.

(** [setsize] is the error of [pty.Setsize], if any. *)
Definition attachSection (n : nat) (p a : nat) (attachmentID connection : string) (size : Z * Z) (setsize : option string) (s : Service)
    : option (res terminal_error SessionInfo * Service) :=
  se ← heap s !! p;
  m ← dismiss n replaced se (attachments s);
  let se := touchLocked (set_timers (set_current se (Some a)) (s_idle se) None) in
  let fresh := newAttachment attachmentID connection in
  match setsize with
  | None => Some (Ok (s_info se), with_heap (with_attachments s (<[a := fresh]> m)) (<[p := set_size se size]> (heap s)))
  | Some message =>
    closed ← closeAttachmentLocked fresh;
    Some (Err (ErrDevice message), with_heap (with_attachments s (<[a := closed]> m)) (<[p := set_current se None]> (heap s)))
  end.

Definition detachSection (p : nat) (attachmentID : string) (s : Service) : option Service :=
  se ← heap s !! p;
  match s_current se with
  | None => Some s
  | Some a =>
    at_ ← attachments s !! a;
    if negb (str_eqb (at_id at_) attachmentID) then Some s
    else
      at' ← closeAttachmentLocked at_;
      Some (with_heap (with_attachments s (<[a := at']> (attachments s))) (<[p := set_timers (set_current se None) (s_idle se) (Some true)]> (heap s)))
  end.

(** [Input]: what is written to the PTY is recorded with the owner that asked. *)
Definition inputSection (owner : string) (p : nat) (data : string) (s : Service) : option Service :=
  se ← heap s !! p;
  Some (with_written (with_heap s (<[p := touchLocked se]> (heap s))) (written s ++ [(owner, p, data)])).

Definition resizeSection (p : nat) (size : Z * Z) (setsize : option string) (s : Service) : option Service :=
  se ← heap s !! p;
  let se := touchLocked se in
  Some (with_heap s (<[p := match setsize with None => set_size se size | Some _ => se end]> (heap s))).

(** [forwardOutput] with a chunk that was read: it is dropped when the buffer is
    full or nobody is attached. *)
Definition outputSection (p : nat) (chunk : string) (s : Service) : option Service :=
  se ← heap s !! p;
  match s_current se with
  | None => Some s
  | Some a =>
    at_ ← attachments s !! a;
    if at_closed at_ then Some s
    else
      '(c, _) ← select_send (mkEvent "output" chunk None "") (at_events at_);
      Some (with_attachments s (<[a := mkAttachment (at_id at_) (at_connection at_) c (at_closed at_)]> (attachments s)))
  end.

(** [endSessionWithCode]: the first section of [closeOnce.Do], ... *)
Definition endSection (n : nat) (p : nat) (code : option Z) (reason : string) (s : Service) : option Service :=
  se ← heap s !! p;
  m ← dismiss n (mkEvent "exited" "" code reason) se (attachments s);
  let se := set_once (set_timers (set_current se None) false (match s_detach se with Some _ => Some false | None => None end)) Running in
  Some (with_heap (with_attachments s m) (<[p := se]> (heap s))).
(** ... the PTY and the process, ... *)
Definition terminate (p : nat) (s : Service) : Service := with_heap s (alter set_ended p (heap s)).
(** ... the registration, ... *)
Definition unregister (id : string) (p : nat) (s : Service) : Service :=
  let s := with_registered s (delete id (t_sessions s)) in
  match heap s !! p with Some se => releaseOwnerSession (s_owner se) id s | None => s end.
(** ... and the end of the function: the hook runs, the once is done. *)
Definition closed (p : nat) (reason : string) (s : Service) : Service :=
  match heap s !! p with
  | Some se => with_heap (emitLifecycle (lifecycle "closed" (s_info se) reason) s) (<[p := set_once se Finished]> (heap s))
  | None => s
  end.

(** ** The operations, run without interruption *)

Definition endSessionWithCode (n : nat) (id : string) (code : option Z) (reason : string) (s : Service) : option Service :=
  match t_sessions s !! id with
  | None => Some s
  | Some p =>
    se ← heap s !! p;
    match s_once se with
    | NotStarted => s ← endSection n p code reason s; Some (closed p reason (unregister id p (terminate p s)))
    | _ => Some s
    end
  end.

Fixpoint endSessions (n : nat) (ids : list string) (reason : string) (s : Service) : option Service :=
  match ids with
  | [] => Some s
  | id :: rest => s ← endSessionWithCode n id None reason s; endSessions n rest reason s
  end.

Definition Close (n : nat) (owner id reason : string) (s : Service) : option (res terminal_error unit * Service) :=
  match lookupOwnedSession owner id s with
  | Err e => Some (Err e, s)
  | Ok _ => s ← endSessionWithCode n id None reason s; Some (Ok tt, s)
  end.

(** [order] is the order in which the [range] loop visits the keys. *)
Definition CloseOwner (order : list string → list string) (n : nat) (owner reason : string) (s : Service) : option Service :=
  endSessions n (order (elements (owned s owner))) reason s.
Definition CloseAll (order : list string → list string) (n : nat) (reason : string) (s : Service) : option Service :=
  endSessions n (order (map_to_list (t_sessions s)).*1) reason s.
Definition Shutdown (order : list string → list string) (n : nat) (reason : string) (s : Service) : option Service :=
  CloseAll order n (if str_empty reason then "server_shutdown" else reason) s.

(** [tokens] are the two random ids, [start] the error of starting the PTY. *)
Definition Open (owner stack container shell : string) (cols rows : Z) (connection : string) (tokens : string * string) (start : option string)
    (p a : nat) (s : Service) : res terminal_error (SessionInfo * string) * Service :=
  match normalizeShell shell with
  | Err e => (Err e, s)
  | Ok shell =>
    let i := mkInfo ("term_" +:+ tokens.1) stack container shell in
    match reserveOwnerSession owner (info_id i) s with
    | (Err e, s) => (Err e, s)
    | (Ok _, s) =>
      match start with
      | Some message => (Err (ErrDevice message), releaseOwnerSession owner (info_id i) s)
      | None =>
        let attachmentID := "attach_" +:+ tokens.2 in
        let s := registerSession p a owner i attachmentID connection (winsize cols rows) s in
        (Ok (i, attachmentID), emitLifecycle (lifecycle "opened" i "") s)
      end
    end
  end.

Definition Attach (n : nat) (owner id : string) (cols rows : Z) (connection token : string) (a : nat) (setsize : option string) (s : Service)
    : option (res terminal_error (SessionInfo * string) * Service) :=
  match lookupOwnedSession owner id s with
  | Err e => Some (Err e, s)
  | Ok p =>
    let attachmentID := "attach_" +:+ token in
    '(r, s) ← attachSection n p a attachmentID connection (winsize cols rows) setsize s;
    Some (match r with
          | Err e => (Err e, s)
          | Ok i => (Ok (i, attachmentID), emitLifecycle (lifecycle "attached" i "") s)
          end)
  end.

Definition Detach (owner id attachmentID : string) (s : Service) : option Service :=
  match lookupOwnedSession owner id s with Err _ => Some s | Ok p => detachSection p attachmentID s end.

(** [write] and [setsize] are the errors of the PTY. *)
Definition Input (owner id data : string) (write : option string) (s : Service) : option (res terminal_error unit * Service) :=
  match lookupOwnedSession owner id s with
  | Err e => Some (Err e, s)
  | Ok p => s ← inputSection owner p data s; Some (match write with Some m => Err (ErrDevice m) | None => Ok tt end, s)
  end.

Definition Resize (owner id : string) (cols rows : Z) (setsize : option string) (s : Service) : option (res terminal_error unit * Service) :=
  match lookupOwnedSession owner id s with
  | Err e => Some (Err e, s)
  | Ok p => s ← resizeSection p (winsize cols rows) setsize s; Some (match setsize with Some m => Err (ErrDevice m) | None => Ok tt end, s)
  end.

(** ** Goroutines

    What a goroutine does next.  The end of sessions carries the ids that are
    left to end, as [CloseOwner] and [CloseAll] have several. *)

Inductive thread :=
| TOpenStart (owner : string) (i : SessionInfo) (connection : string)
| TOpened (i : SessionInfo)
| TAttach (p : nat) (connection : string)
| TAttached (i : SessionInfo)
| TDetach (p : nat) (attachmentID : string)
| TInput (owner : string) (p : nat) (data : string)
| TResize (p : nat) (size : Z * Z)
| TForward (id : string)
| TForwarding (p : nat)
| TWait (id : string)
| TWaiting (id : string) (p : nat)
| TEnd (ids : list string) (code : option Z) (reason : string)
| TOnce (id : string) (p : nat) (rest : list string) (code : option Z) (reason : string)
| TTerminate (id : string) (p : nat) (rest : list string) (code : option Z) (reason : string)
| TUnregister (id : string) (p : nat) (rest : list string) (code : option Z) (reason : string)
| TClosed (id : string) (p : nat) (rest : list string) (code : option Z) (reason : string).

(** The first step of a request: the session is looked up. *)
Inductive begins (s : Service) : thread → Prop :=
| begins_attach owner id p connection : lookupOwnedSession owner id s = Ok p → begins s (TAttach p connection)
| begins_detach owner id p attachmentID : lookupOwnedSession owner id s = Ok p → begins s (TDetach p attachmentID)
| begins_input owner id p data : lookupOwnedSession owner id s = Ok p → begins s (TInput owner p data)
| begins_resize owner id p cols rows : lookupOwnedSession owner id s = Ok p → begins s (TResize p (winsize cols rows))
| begins_close owner id p reason : lookupOwnedSession owner id s = Ok p → begins s (TEnd [id] None reason)
| begins_close_owner owner ids reason : ids ≡ₚ elements (owned s owner) → begins s (TEnd ids None reason)
| begins_close_all ids reason : ids ≡ₚ (map_to_list (t_sessions s)).*1 → begins s (TEnd ids None reason).

(** A step of a goroutine: the service and what is left of the goroutine. *)
Inductive runs : Service → thread → Service → option thread → Prop :=
| runs_start_failed owner i connection s : runs s (TOpenStart owner i connection) (releaseOwnerSession owner (info_id i) s) None
| runs_register owner i connection p a attachmentID cols rows s :
    heap s !! p = None → attachments s !! a = None →
    runs s (TOpenStart owner i connection) (registerSession p a owner i attachmentID connection (winsize cols rows) s) (Some (TOpened i))
| runs_attach n p a attachmentID connection size setsize i s s' :
    attachments s !! a = None → attachSection n p a attachmentID connection size setsize s = Some (Ok i, s') →
    (∀ se, heap s !! p = Some se → s_open se = true) →
    runs s (TAttach p connection) s' (Some (TAttached i))
| runs_attach_failed n p a attachmentID connection size setsize e s s' :
    attachments s !! a = None → attachSection n p a attachmentID connection size setsize s = Some (Err e, s') →
    runs s (TAttach p connection) s' None
| runs_attached i s : runs s (TAttached i) (emitLifecycle (lifecycle "attached" i "") s) None
| runs_detach p attachmentID s s' : detachSection p attachmentID s = Some s' → runs s (TDetach p attachmentID) s' None
| runs_input owner p data s s' : inputSection owner p data s = Some s' → runs s (TInput owner p data) s' None
| runs_resize p size setsize s s' : resizeSection p size setsize s = Some s' → runs s (TResize p size) s' None
| runs_forward id s : runs s (TForward id) s (TForwarding <$> t_sessions s !! id)
| runs_output p chunk s s' : outputSection p chunk s = Some s' → runs s (TForwarding p) s' (Some (TForwarding p))
| runs_eof p s : runs s (TForwarding p) s None
| runs_wait id s : runs s (TWait id) s (TWaiting id <$> t_sessions s !! id)
| runs_exit id p code s : runs s (TWaiting id p) s (Some (TEnd [id] code "process_exit"))
| runs_ended code reason s : runs s (TEnd [] code reason) s None
| runs_gone id rest code reason s : t_sessions s !! id = None → runs s (TEnd (id :: rest) code reason) s (Some (TEnd rest code reason))
| runs_found id p rest code reason s : t_sessions s !! id = Some p → runs s (TEnd (id :: rest) code reason) s (Some (TOnce id p rest code reason))
| runs_once n id p rest code reason se s s' : heap s !! p = Some se → s_once se = NotStarted → endSection n p code reason s = Some s' →
    runs s (TOnce id p rest code reason) s' (Some (TTerminate id p rest code reason))
| runs_done id p rest code reason se s : heap s !! p = Some se → s_once se = Finished →
    runs s (TOnce id p rest code reason) s (Some (TEnd rest code reason))
| runs_terminate id p rest code reason s : runs s (TTerminate id p rest code reason) (terminate p s) (Some (TUnregister id p rest code reason))
| runs_unregister id p rest code reason s : runs s (TUnregister id p rest code reason) (unregister id p s) (Some (TClosed id p rest code reason))
| runs_closed id p rest code reason s : runs s (TClosed id p rest code reason) (closed p reason s) (Some (TEnd rest code reason)).

Record conf := mkConf { svc : Service; threads : gmap nat thread }.

(** Ids are 18 random bytes: a new one differs from those in use and from those
    of the sessions that existed. *)
Definition fresh_id (c : conf) (id : string) : Prop :=
  (∀ p se, heap (svc c) !! p = Some se → info_id (s_info se) ≠ id) ∧
  (∀ t owner i connection, threads c !! t = Some (TOpenStart owner i connection) → info_id i ≠ id).

Inductive step : conf → conf → Prop :=
| step_open c t owner stack container shell shell' connection id s' :
    threads c !! t = None → fresh_id c id → normalizeShell shell = Ok shell' → reserveOwnerSession owner id (svc c) = (Ok tt, s') →
    step c (mkConf s' (<[t := TOpenStart owner (mkInfo id stack container shell') connection]> (threads c)))
| step_refused c owner id e s' : reserveOwnerSession owner id (svc c) = (Err e, s') → step c (mkConf s' (threads c))
| step_opened c t t1 t2 i : threads c !! t = Some (TOpened i) → threads c !! t1 = None → threads c !! t2 = None → t1 ≠ t2 →
    step c (mkConf (emitLifecycle (lifecycle "opened" i "") (svc c)) (<[t1 := TForward (info_id i)]> (<[t2 := TWait (info_id i)]> (delete t (threads c)))))
| step_begins c t th : threads c !! t = None → begins (svc c) th → step c (mkConf (svc c) (<[t := th]> (threads c)))
| step_runs c t th s' th' : threads c !! t = Some th → runs (svc c) th s' th' →
    step c (mkConf s' (match th' with Some th' => <[t := th']> (threads c) | None => delete t (threads c) end))
| step_idle_timer c t p se : threads c !! t = None → heap (svc c) !! p = Some se → s_idle se = true →
    step c (mkConf (with_heap (svc c) (<[p := set_timers se false (s_detach se)]> (heap (svc c)))) (<[t := TEnd [info_id (s_info se)] None "idle_timeout"]> (threads c)))
| step_detach_timer c t p se : threads c !! t = None → heap (svc c) !! p = Some se → s_detach se = Some true →
    step c (mkConf (with_heap (svc c) (<[p := set_timers se (s_idle se) (Some false)]> (heap (svc c)))) (<[t := TEnd [info_id (s_info se)] None "server_cleanup"]> (threads c)))
| step_receive c a n at_ : attachments (svc c) !! a = Some at_ →
    step c (mkConf (with_attachments (svc c) (<[a := mkAttachment (at_id at_) (at_connection at_) (taken n (at_events at_)) (at_closed at_)]> (attachments (svc c)))) (threads c)).

Definition reachable (cfg : Config) (c : conf) : Prop := rtc step (mkConf (NewService cfg) ∅) c.

(** ** The registry

    What the goroutines mean to the registry of sessions: one opens a session
    in a slot it holds, one has found a session to end, one is ending it (0: the
    PTY is open, 1: it is closed, 2: the session is unregistered). *)

Inductive role :=
| Plain
| Opening (owner id shell : string)
| Found (id : string) (p : nat)
| Ending (stage : nat) (id : string) (p : nat).

Definition role_of (th : thread) : role :=
  match th with
  | TOpenStart owner i _ => Opening owner (info_id i) (info_shell i)
  | TOnce id p _ _ _ => Found id p
  | TTerminate id p _ _ _ => Ending 0 id p
  | TUnregister id p _ _ _ => Ending 1 id p
  | TClosed id p _ _ _ => Ending 2 id p
  | _ => Plain
  end.

(** What only one goroutine may do. *)
Definition exclusive (r : role) : option (string + nat) :=
  match r with Opening _ id _ => Some (inl id) | Ending _ _ p => Some (inr p) | _ => None end.

Definition shells : list string := ["/bin/sh"; "/bin/bash"].
Definition ended (se : session) : Prop := s_open se = false ∧ s_terminated se = true.

Definition role_ok (s : Service) (r : role) : Prop :=
  match r with
  | Plain => True
  | Opening owner id shell => id ∈ owned s owner ∧ shell ∈ shells ∧ ∀ p se, heap s !! p = Some se → info_id (s_info se) ≠ id
  | Found id p => ∃ se, heap s !! p = Some se ∧ info_id (s_info se) = id
  | Ending stage id p => ∃ se, heap s !! p = Some se ∧ info_id (s_info se) = id ∧ s_once se = Running ∧
      t_sessions s !! id = (if (stage <? 2)%nat then Some p else None) ∧ (stage ≠ 0%nat → ended se)
  end.

Record registry (s : Service) (R : gmap nat role) : Prop := {
  reg_max : 0 < MaxSessionsPerOwner (t_cfg s);
  reg_slots owner : Z.of_nat (size (owned s owner)) <= MaxSessionsPerOwner (t_cfg s);
  reg_registered id p : t_sessions s !! id = Some p → ∃ se, heap s !! p = Some se ∧ info_id (s_info se) = id ∧ id ∈ owned s (s_owner se);
  reg_ids p1 p2 se1 se2 : heap s !! p1 = Some se1 → heap s !! p2 = Some se2 → info_id (s_info se1) = info_id (s_info se2) → p1 = p2;
  reg_phase p se : heap s !! p = Some se → info_shell (s_info se) ∈ shells ∧
    match s_once se with
    | NotStarted => t_sessions s !! info_id (s_info se) = Some p ∧ s_open se = true ∧ s_terminated se = false
    | Running => ∃ t stage, R !! t = Some (Ending stage (info_id (s_info se)) p)
    | Finished => t_sessions s !! info_id (s_info se) = None ∧ ended se
    end;
  reg_role t r : R !! t = Some r → role_ok s r;
  reg_unique t1 t2 r1 r2 k : R !! t1 = Some r1 → R !! t2 = Some r2 → exclusive r1 = Some k → exclusive r2 = Some k → t1 = t2;
  reg_exact owner id : id ∈ owned s owner →
    (∃ t shell, R !! t = Some (Opening owner id shell)) ∨
    (∃ p se, t_sessions s !! id = Some p ∧ heap s !! p = Some se ∧ s_owner se = owner) }.

(** A change that the registry does not see. *)
Definition alike (se se' : session) : Prop :=
  s_info se = s_info se' ∧ s_owner se = s_owner se' ∧ s_once se = s_once se' ∧ s_open se = s_open se' ∧ s_terminated se = s_terminated se'.
Definition same_registry (s s' : Service) : Prop :=
  t_cfg s = t_cfg s' ∧ t_sessions s = t_sessions s' ∧ t_owners s = t_owners s' ∧ ∀ p, option_Forall2 alike (heap s !! p) (heap s' !! p).

Lemma alike_refl se : alike se se.
Proof. done. Qed.

Lemma same_registry_refl s s' : t_cfg s = t_cfg s' → t_sessions s = t_sessions s' → t_owners s = t_owners s' → heap s = heap s' → same_registry s s'.
Proof. intros ??? H. split_and!; try done. intros p. rewrite H. destruct (heap s' !! p); constructor. apply alike_refl. Qed.

Lemma same_registry_update s s' p se se' : t_cfg s = t_cfg s' → t_sessions s = t_sessions s' → t_owners s = t_owners s' →
  heap s !! p = Some se → alike se se' → heap s' = <[p := se']> (heap s) → same_registry s s'.
Proof.
  intros ??? Hp Ha Hh. split_and!; try done. intros q. rewrite Hh. destruct (decide (q = p)) as [->|Hne].
  - rewrite lookup_insert_eq, Hp. by constructor.
  - rewrite lookup_insert_ne by done. destruct (heap s !! q); constructor. apply alike_refl.
Qed.

Lemma same_back s s' p se' : same_registry s s' → heap s' !! p = Some se' → ∃ se, heap s !! p = Some se ∧ alike se se'.
Proof. intros (_ & _ & _ & H) Hp. specialize (H p). rewrite Hp in H. inversion H; subst. eauto. Qed.
Lemma same_forth s s' p se : same_registry s s' → heap s !! p = Some se → ∃ se', heap s' !! p = Some se' ∧ alike se se'.
Proof. intros (_ & _ & _ & H) Hp. specialize (H p). rewrite Hp in H. inversion H; subst. eauto. Qed.
Lemma same_owned s s' owner : same_registry s s' → owned s' owner = owned s owner.
Proof. intros (_ & _ & H & _). unfold owned. by rewrite H. Qed.

Lemma registry_same s s' R : registry s R → same_registry s s' → registry s' R.
Proof.
  intros HI Hs. pose proof Hs as (Hc & Hr & Ho & _). constructor.
  - rewrite <- Hc. apply HI.
  - intros owner. rewrite <- Hc, (same_owned s s') by done. apply HI.
  - intros id p. rewrite <- Hr. intros Hp. destruct (reg_registered _ _ HI id p Hp) as (se & Hse & Hid & Hin).
    destruct (same_forth s s' p se Hs Hse) as (se' & Hse' & Ei & Eo & _). exists se'. rewrite <- Ei, <- Eo, (same_owned s s') by done. done.
  - intros p1 p2 se1 se2 H1 H2 He. destruct (same_back s s' p1 se1 Hs H1) as (x1 & Hx1 & E1 & _). destruct (same_back s s' p2 se2 Hs H2) as (x2 & Hx2 & E2 & _).
    apply (reg_ids _ _ HI p1 p2 x1 x2 Hx1 Hx2). by rewrite E1, E2.
  - intros p se' Hp. destruct (same_back s s' p se' Hs Hp) as (se & Hse & Ei & _ & Eo & Ep & Et).
    unfold ended. rewrite <- Ei, <- Eo, <- Ep, <- Et, <- Hr. apply (reg_phase _ _ HI p se Hse).
  - intros t r Ht. pose proof (reg_role _ _ HI t r Ht) as Hok. destruct r as [|owner id shell|id p|stage id p]; cbn in *; [done|..].
    + destruct Hok as (Hin & Hsh & Hf). rewrite (same_owned s s') by done. split_and!; try done.
      intros p se' Hp. destruct (same_back s s' p se' Hs Hp) as (se & Hse & Ei & _). rewrite <- Ei. eauto.
    + destruct Hok as (se & Hse & Hid). destruct (same_forth s s' p se Hs Hse) as (se' & Hse' & Ei & _). exists se'. by rewrite <- Ei.
    + destruct Hok as (se & Hse & Hid & Hon & Hl & He). destruct (same_forth s s' p se Hs Hse) as (se' & Hse' & Ei & _ & Eo & Ep & Et).
      exists se'. unfold ended in *. rewrite <- Ei, <- Eo, <- Ep, <- Et, <- Hr. done.
  - apply HI.
  - intros owner id. rewrite (same_owned s s'), <- Hr by done. intros Hin. destruct (reg_exact _ _ HI owner id Hin) as [?|(p & se & Hl & Hse & He)]; [by left|].
    right. destruct (same_forth s s' p se Hs Hse) as (se' & Hse' & _ & Eo & _). exists p, se'. by rewrite <- Eo.
Qed.

(** A goroutine that is not exclusive changes or goes. *)
Lemma registry_roles s R R' : registry s R → (∀ t r, R' !! t = Some r → role_ok s r) →
  (∀ t r, is_Some (exclusive r) → R' !! t = Some r ↔ R !! t = Some r) → registry s R'.
Proof.
  intros HI Hok Hx. constructor; try apply HI; [|done|..].
  - intros p se Hp. destruct (reg_phase _ _ HI p se Hp) as [Hsh H]. split; [done|]. destruct (s_once se); [done| |done].
    destruct H as (t & stage & Ht). exists t, stage. by apply Hx.
  - intros t1 t2 r1 r2 k H1 H2 E1 E2. apply (reg_unique _ _ HI t1 t2 r1 r2 k); try done; apply Hx; eauto.
  - intros owner id Hin. destruct (reg_exact _ _ HI owner id Hin) as [(t & shell & Ht)|?]; [|by right]. left. exists t, shell. by apply Hx.
Qed.

Lemma registry_put s R t r : registry s R → (∀ r0, R !! t = Some r0 → exclusive r0 = None) → role_ok s r → exclusive r = None →
  registry s (<[t := r]> R).
Proof.
  intros HI H0 Hok Hn. eapply registry_roles; [done|..].
  - intros t' r'. destruct (decide (t' = t)) as [->|?]; [rewrite lookup_insert_eq; by intros [= <-]|rewrite lookup_insert_ne by done; apply HI].
  - intros t' r' [k Hk]. destruct (decide (t' = t)) as [->|?]; [|by rewrite lookup_insert_ne].
    rewrite lookup_insert_eq. split; [intros [= <-]; congruence|]. intros H. apply H0 in H. congruence.
Qed.

Lemma registry_gone s R t : registry s R → (∀ r0, R !! t = Some r0 → exclusive r0 = None) → registry s (delete t R).
Proof.
  intros HI H0. eapply registry_roles; [done|..].
  - intros t' r' [_ H]%lookup_delete_Some. by apply HI in H.
  - intros t' r' [k Hk]. rewrite lookup_delete_Some. split; [tauto|]. intros H. split; [|done]. intros ->. apply H0 in H. congruence.
Qed.

(** The end of a session moves one session and the goroutine that ends it. *)
Lemma registry_advance s s' R t p se se' r0 r' :
  registry s R → heap s !! p = Some se → s_info se' = s_info se → s_owner se' = s_owner se →
  t_cfg s' = t_cfg s → t_sessions s' = t_sessions s → t_owners s' = t_owners s → heap s' = <[p := se']> (heap s) →
  R !! t = Some r0 → (∀ k, exclusive r0 = Some k → k = inr p) → (∀ k, exclusive r' = Some k → k = inr p) →
  (∀ t' r, R !! t' = Some r → exclusive r = Some (inr p) → t' = t) → role_ok s' r' →
  match s_once se' with
  | NotStarted => False
  | Running => ∃ stage, r' = Ending stage (info_id (s_info se')) p
  | Finished => t_sessions s !! info_id (s_info se') = None ∧ ended se'
  end → registry s' (<[t := r']> R).
Proof.
  intros HI Hp Ei Eo Hc Hr Ho Hh Ht Hx0 Hx' Hu Hok Hph.
  assert (∀ o, owned s' o = owned s o) as Hw by (intros o; unfold owned; by rewrite Ho).
  assert (∀ q x, heap s' !! q = Some x → ∃ y, heap s !! q = Some y ∧ s_info x = s_info y ∧ s_owner x = s_owner y) as Hb.
  { intros q x. rewrite Hh. destruct (decide (q = p)) as [->|?]; [rewrite lookup_insert_eq; intros [= <-]; eauto|rewrite lookup_insert_ne by done; eauto]. }
  assert (∀ q y, heap s !! q = Some y → ∃ x, heap s' !! q = Some x ∧ s_info x = s_info y ∧ s_owner x = s_owner y) as Hf.
  { intros q y Hy. rewrite Hh. destruct (decide (q = p)) as [->|?]; [rewrite lookup_insert_eq; simplify_eq; eauto|rewrite lookup_insert_ne by done; eauto]. }
  constructor.
  - rewrite Hc. apply HI.
  - intros o. rewrite Hc, Hw. apply HI.
  - intros id q. rewrite Hr. intros Hq. destruct (reg_registered _ _ HI id q Hq) as (y & Hy & Hid & Hin). destruct (Hf q y Hy) as (x & Hx & E1 & E2).
    exists x. by rewrite E1, E2, Hw.
  - intros p1 p2 x1 x2 H1 H2 He. destruct (Hb _ _ H1) as (y1 & Hy1 & E1 & _). destruct (Hb _ _ H2) as (y2 & Hy2 & E2 & _).
    apply (reg_ids _ _ HI p1 p2 y1 y2 Hy1 Hy2). by rewrite <- E1, <- E2.
  - intros q x Hq. rewrite Hr. rewrite Hh in Hq. destruct (decide (q = p)) as [->|Hne].
    + rewrite lookup_insert_eq in Hq. injection Hq as <-. split; [rewrite Ei; by apply (reg_phase _ _ HI p se)|].
      destruct (s_once se'); [done| |done]. destruct Hph as [stage ->]. exists t, stage. by rewrite lookup_insert_eq.
    + rewrite lookup_insert_ne in Hq by done. destruct (reg_phase _ _ HI q x Hq) as [Hsh H]. split; [done|].
      destruct (s_once x); [done| |done]. destruct H as (t' & stage & Ht'). exists t', stage. rewrite lookup_insert_ne; [done|].
      intros <-. rewrite Ht' in Ht. injection Ht as <-. specialize (Hx0 (inr q) eq_refl). congruence.
  - intros t' r. destruct (decide (t' = t)) as [->|Hne]; [rewrite lookup_insert_eq; by intros [= <-]|]. rewrite lookup_insert_ne by done. intros Hr'.
    pose proof (reg_role _ _ HI t' r Hr') as H. destruct r as [|o id sh|id q|stage id q]; cbn in *; [done|..].
    + rewrite Hw. destruct H as (? & ? & Hfr). split_and!; try done. intros q x Hq. destruct (Hb q x Hq) as (y & Hy & -> & _). eauto.
    + destruct H as (y & Hy & ?). destruct (Hf q y Hy) as (x & ? & E & _). exists x. by rewrite E.
    + destruct H as (y & Hy & H). exists y. rewrite Hr, Hh, lookup_insert_ne; [done|]. intros ->. apply Hne. by eapply Hu.
  - intros t1 t2 r1 r2 k H1 H2 E1 E2. destruct (decide (t1 = t)) as [->|N1], (decide (t2 = t)) as [->|N2]; [done|..].
    + rewrite lookup_insert_eq in H1. injection H1 as <-. rewrite lookup_insert_ne in H2 by done. rewrite (Hx' k E1) in E2. symmetry. by eapply Hu.
    + rewrite lookup_insert_eq in H2. injection H2 as <-. rewrite lookup_insert_ne in H1 by done. rewrite (Hx' k E2) in E1. by eapply Hu.
    + rewrite lookup_insert_ne in H1 by done. rewrite lookup_insert_ne in H2 by done. by eapply (reg_unique _ _ HI).
  - intros o id. rewrite Hw, Hr. intros Hin. destruct (reg_exact _ _ HI o id Hin) as [(t' & sh & Ht')|(q & y & Hl & Hy & He)].
    + left. exists t', sh. rewrite lookup_insert_ne; [done|]. intros <-. rewrite Ht' in Ht. injection Ht as <-. by specialize (Hx0 _ eq_refl).
    + right. destruct (Hf q y Hy) as (x & Hx & _ & E). exists q, x. by rewrite E.
Qed.

Lemma reserve_Ok owner id s s' : reserveOwnerSession owner id s = (Ok tt, s') →
  t_cfg s' = t_cfg s ∧ t_sessions s' = t_sessions s ∧ heap s' = heap s ∧ attachments s' = attachments s ∧ written s' = written s ∧ hooked s' = hooked s ∧
  Z.of_nat (size (owned s owner)) < MaxSessionsPerOwner (t_cfg s) ∧
  ∀ o, owned s' o = if bool_decide (o = owner) then {[id]} ∪ owned s owner else owned s o.
Proof.
  unfold reserveOwnerSession. set (s0 := with_owners s _).
  assert (∀ o, owned s0 o = owned s o) as Hw.
  { intros o. unfold owned at 1. cbn. destruct (decide (o = owner)) as [->|?]; [by rewrite lookup_insert_eq|by rewrite lookup_insert_ne]. }
  destruct (_ <=? _) eqn:E; [done|]. apply Z.leb_gt in E. rewrite Hw in E. intros [= <-]. split_and!; try done. intros o.
  unfold owned at 1. cbn [with_owners t_owners]. case_bool_decide; [subst; rewrite lookup_insert_eq; cbn; by rewrite Hw|].
  rewrite lookup_insert_ne by done. apply Hw.
Qed.

Lemma refuse_same owner id s e s' : reserveOwnerSession owner id s = (Err e, s') → 
  t_cfg s' = t_cfg s ∧ t_sessions s' = t_sessions s ∧ heap s' = heap s ∧ attachments s' = attachments s ∧ written s' = written s ∧ hooked s' = hooked s ∧
  ∀ o, owned s' o = owned s o.
Proof.
  unfold reserveOwnerSession. destruct (_ <=? _); [|done]. intros [= _ <-]. split_and!; try done.
  intros o. unfold owned at 1. cbn. destruct (decide (o = owner)) as [->|?]; [by rewrite lookup_insert_eq|by rewrite lookup_insert_ne].
Qed.

Lemma release_owned owner id s : let s' := releaseOwnerSession owner id s in
  t_cfg s' = t_cfg s ∧ t_sessions s' = t_sessions s ∧ heap s' = heap s ∧ attachments s' = attachments s ∧ written s' = written s ∧ hooked s' = hooked s ∧
  ∀ o, owned s' o = if bool_decide (o = owner) then owned s owner ∖ {[id]} else owned s o.
Proof.
  cbn zeta. unfold releaseOwnerSession. destruct (t_owners s !! owner) as [ids|] eqn:E.
  - split_and!; try done. intros o. unfold owned. cbn [with_owners t_owners]. destruct (decide (o = owner)) as [->|Hne].
    + rewrite (bool_decide_eq_true_2 (owner = owner)), E by done. cbn. case_bool_decide as He; [by rewrite lookup_delete_eq, He|by rewrite lookup_insert_eq].
    + rewrite (bool_decide_eq_false_2 (o = owner)) by done. case_bool_decide; [by rewrite lookup_delete_ne|by rewrite lookup_insert_ne].
  - split_and!; try done. intros o. case_bool_decide as Ho; [subst|done]. unfold owned. rewrite E. cbn. set_solver.
Qed.

(** *** Opening *)

Lemma registry_reserve s s' R t owner id shell : registry s R → reserveOwnerSession owner id s = (Ok tt, s') → R !! t = None → shell ∈ shells →
  (∀ p se, heap s !! p = Some se → info_id (s_info se) ≠ id) → (∀ t' o sh, R !! t' = Some (Opening o id sh) → False) →
  registry s' (<[t := Opening owner id shell]> R).
Proof.
  intros HI Hr Ht Hsh Hf Hn. apply reserve_Ok in Hr as (Hc & Hs & Hh & _ & _ & _ & Hlt & Hw).
  assert (∀ o, owned s o ⊆ owned s' o) as Hsub by (intros o; rewrite Hw; case_bool_decide; subst; set_solver).
  constructor.
  - rewrite Hc. apply HI.
  - intros o. rewrite Hc, Hw. case_bool_decide; [|apply HI]. pose proof (size_union_alt {[id]} (owned s owner)) as E. rewrite size_singleton in E.
    assert (size (owned s owner ∖ {[id]}) ≤ size (owned s owner))%nat by (apply subseteq_size; set_solver). lia.
  - intros i p. rewrite Hs, Hh. intros Hp. destruct (reg_registered _ _ HI i p Hp) as (se & ? & ? & Hin). exists se. split_and!; try done. by apply Hsub.
  - rewrite Hh. apply HI.
  - intros p se. rewrite Hs, Hh. intros Hp. destruct (reg_phase _ _ HI p se Hp) as [? H]. split; [done|]. destruct (s_once se); [done| |done].
    destruct H as (t' & stage & Ht'). exists t', stage. rewrite lookup_insert_ne; [done|congruence].
  - intros t' r. destruct (decide (t' = t)) as [->|?].
    + rewrite lookup_insert_eq. intros [= <-]. cbn. rewrite Hw, Hh. rewrite bool_decide_eq_true_2 by done. split_and!; try done. set_solver.
    + rewrite lookup_insert_ne by done. intros Hr. pose proof (reg_role _ _ HI t' r Hr) as H.
      destruct r; cbn in *; rewrite ?Hh, ?Hs; try done. destruct H as (? & ? & ?). split_and!; try done. by apply Hsub.
  - intros t1 t2 r1 r2 k H1 H2 E1 E2. destruct (decide (t1 = t)) as [->|N1], (decide (t2 = t)) as [->|N2]; [done|..].
    + exfalso. rewrite lookup_insert_eq in H1. injection H1 as <-. rewrite lookup_insert_ne in H2 by done. cbn in E1. injection E1 as <-.
      destruct r2; try done. cbn in E2. injection E2 as ->. eauto.
    + exfalso. rewrite lookup_insert_eq in H2. injection H2 as <-. rewrite lookup_insert_ne in H1 by done. cbn in E2. injection E2 as <-.
      destruct r1; try done. cbn in E1. injection E1 as ->. eauto.
    + rewrite lookup_insert_ne in H1 by done. rewrite lookup_insert_ne in H2 by done. by eapply (reg_unique _ _ HI).
  - intros o i. rewrite Hw, Hs, Hh. intros Hin. assert (o = owner ∧ i = id ∨ i ∈ owned s o) as [[-> ->]|Hold].
    { case_bool_decide as Ho; [subst|by right]. set_solver. }
    + left. exists t, shell. by rewrite lookup_insert_eq.
    + destruct (reg_exact _ _ HI o i Hold) as [(t' & sh & Ht')|?]; [|by right]. left. exists t', sh. rewrite lookup_insert_ne; [done|congruence].
Qed.

(** The slot of a session that was not registered is given back. *)
Lemma registry_release s R t owner id shell : registry s R → R !! t = Some (Opening owner id shell) →
  registry (releaseOwnerSession owner id s) (delete t R).
Proof.
  intros HI Ht. pose proof (reg_role _ _ HI t _ Ht) as (Hin & _ & Hf).
  destruct (release_owned owner id s) as (Hc & Hs & Hh & _ & _ & _ & Hw). set (s' := releaseOwnerSession owner id s) in *.
  assert (∀ o i, i ∈ owned s o → i ≠ id → i ∈ owned s' o) as Hkeep by (intros o i ??; rewrite Hw; case_bool_decide; subst; set_solver).
  constructor.
  - rewrite Hc. apply HI.
  - intros o. rewrite Hc, Hw. pose proof (reg_slots _ _ HI o). case_bool_decide; [subst|done].
    assert (size (owned s owner ∖ {[id]}) ≤ size (owned s owner))%nat by (apply subseteq_size; set_solver). lia.
  - intros i p. rewrite Hs, Hh. intros Hp. destruct (reg_registered _ _ HI i p Hp) as (se & Hse & <- & Hi). exists se. split_and!; try done.
    apply Hkeep; [done|]. eauto.
  - rewrite Hh. apply HI.
  - intros p se. rewrite Hs, Hh. intros Hp. destruct (reg_phase _ _ HI p se Hp) as [? H]. split; [done|]. destruct (s_once se); [done| |done].
    destruct H as (t' & stage & Ht'). exists t', stage. rewrite lookup_delete_ne; [done|congruence].
  - intros t' r [Hne Hr]%lookup_delete_Some. pose proof (reg_role _ _ HI t' r Hr) as H.
    destruct r as [|o i sh| |]; cbn in *; rewrite ?Hh, ?Hs; try done. destruct H as (? & ? & ?). split_and!; try done. apply Hkeep; [done|].
    intros ->. apply Hne. eapply (reg_unique _ _ HI t t'); done.
  - intros t1 t2 r1 r2 k [_ H1]%lookup_delete_Some [_ H2]%lookup_delete_Some. by eapply (reg_unique _ _ HI).
  - intros o i. rewrite Hw, Hs, Hh. intros Hi. assert (i ∈ owned s o ∧ (o = owner → i ≠ id)) as [Hold Hni].
    { case_bool_decide; [subst|done]. set_solver. }
    destruct (reg_exact _ _ HI o i Hold) as [(t' & sh & Ht')|?]; [|by right]. left. exists t', sh. rewrite lookup_delete_ne; [done|].
    intros <-. rewrite Ht in Ht'. injection Ht' as <- <- <-. by apply Hni.
Qed.

Lemma registry_register s R t p a owner i attachmentID connection size : registry s R → R !! t = Some (Opening owner (info_id i) (info_shell i)) →
  heap s !! p = None → registry (registerSession p a owner i attachmentID connection size s) (<[t := Plain]> R).
Proof.
  intros HI Ht Hp. pose proof (reg_role _ _ HI t _ Ht) as (Hin & Hsh & Hf). set (s' := registerSession _ _ _ _ _ _ _ _).
  set (se := mkSession i owner (Some a) true None NotStarted true false size).
  assert (heap s' = <[p := se]> (heap s)) as Hh by done. assert (t_sessions s' = <[info_id i := p]> (t_sessions s)) as Hs by done.
  assert (∀ o, owned s' o = owned s o) as Hw by done.
  assert (∀ q x, heap s !! q = Some x → heap s' !! q = Some x ∧ t_sessions s' !! info_id (s_info x) = t_sessions s !! info_id (s_info x)) as Hold.
  { intros q x Hx. rewrite Hh, Hs, lookup_insert_ne by congruence. rewrite lookup_insert_ne; [done|]. intros E. by apply (Hf q x). }
  constructor.
  - apply HI.
  - apply HI.
  - intros id q. rewrite Hs. destruct (decide (id = info_id i)) as [->|?].
    + rewrite lookup_insert_eq. intros [= <-]. exists se. rewrite Hh, lookup_insert_eq. done.
    + rewrite lookup_insert_ne by done. intros Hq. destruct (reg_registered _ _ HI id q Hq) as (x & Hx & ? & ?). exists x. split; [by apply Hold|done].
  - intros p1 p2 x1 x2. rewrite Hh. destruct (decide (p1 = p)) as [->|?], (decide (p2 = p)) as [->|?]; [done|..].
    + rewrite lookup_insert_eq, lookup_insert_ne by done. intros [= <-] Hx E. by apply Hf in Hx.
    + rewrite lookup_insert_eq, lookup_insert_ne by done. intros Hx [= <-] E. by apply Hf in Hx.
    + rewrite !lookup_insert_ne by done. apply HI.
  - intros q x. rewrite Hh. destruct (decide (q = p)) as [->|?]; [rewrite lookup_insert_eq; intros [= <-]; cbn; by rewrite lookup_insert_eq|].
    rewrite lookup_insert_ne by done. intros Hx. destruct (reg_phase _ _ HI q x Hx) as [? H]. split; [done|]. rewrite (proj2 (Hold q x Hx)).
    destruct (s_once x); [done| |done]. destruct H as (t' & stage & Ht'). exists t', stage. rewrite lookup_insert_ne; [done|congruence].
  - intros t' r. destruct (decide (t' = t)) as [->|Hne]; [rewrite lookup_insert_eq; by intros [= <-]|]. rewrite lookup_insert_ne by done. intros Hr.
    pose proof (reg_role _ _ HI t' r Hr) as H. destruct r as [|o id sh|id q|stage id q]; cbn in *; [done|..].
    + destruct H as (? & ? & Hfr). split_and!; try done. intros q x. destruct (decide (q = p)) as [->|?]; [|rewrite lookup_insert_ne by done; apply Hfr].
      rewrite lookup_insert_eq. intros [= <-] E. cbn in E. apply Hne. by eapply (reg_unique _ _ HI t' t _ _ (inl id)); [done..|cbn; by rewrite E].
    + destruct H as (x & Hx & ?). exists x. split; [by apply Hold|done].
    + destruct H as (x & Hx & Hid & H). exists x. split; [by apply Hold|]. subst id. destruct (Hold q x Hx) as [_ E]. cbn in E. by rewrite E.
  - intros t1 t2 r1 r2 k. destruct (decide (t1 = t)) as [->|], (decide (t2 = t)) as [->|]; rewrite ?lookup_insert_eq, ?(lookup_insert_ne R) by done;
      try (intros [= <-]; done); try (intros ? [= <-]; done). apply HI.
  - intros o id. rewrite Hw, Hs. intros Hid. destruct (decide (id = info_id i)) as [->|Hne].
    + destruct (reg_exact _ _ HI o _ Hid) as [(t' & sh & Ht')|(q & x & Hl & _)].
      * right. exists p, se. rewrite lookup_insert_eq, Hh, lookup_insert_eq. split_and!; try done. cbn.
        assert (t' = t) as -> by (by eapply (reg_unique _ _ HI)). congruence.
      * exfalso. destruct (reg_registered _ _ HI _ _ Hl) as (y & Hy & E & _). by apply Hf in Hy.
    + rewrite lookup_insert_ne by done. destruct (reg_exact _ _ HI o id Hid) as [(t' & sh & Ht')|(q & x & Hl & Hx & ?)].
      * left. exists t', sh. rewrite lookup_insert_ne; [done|congruence].
      * right. exists q, x. split_and!; try done. by apply Hold.
Qed.

(** *** Ending *)

Lemma endSection_heap n p code reason s s' se : heap s !! p = Some se → endSection n p code reason s = Some s' →
  t_cfg s' = t_cfg s ∧ t_sessions s' = t_sessions s ∧ t_owners s' = t_owners s ∧ written s' = written s ∧ hooked s' = hooked s ∧
  ∃ d, heap s' = <[p := set_once (set_timers (set_current se None) false d) Running]> (heap s).
Proof.
  intros Hp. unfold endSection. rewrite Hp. cbn [mbind option_bind]. destruct (dismiss _ _ _ _) as [m|]; cbn; [|done].
  intros [= <-]. split_and!; try done. cbn. eauto.
Qed.

Lemma registry_once n s s' R t id p code reason se : registry s R → R !! t = Some (Found id p) → heap s !! p = Some se → s_once se = NotStarted →
  endSection n p code reason s = Some s' → registry s' (<[t := Ending 0 id p]> R).
Proof.
  intros HI Ht Hp Ho He. apply (endSection_heap _ _ _ _ _ _ se) in He as (Hc & Hs & Hw & _ & _ & d & Hh); [|done].
  pose proof (reg_role _ _ HI t _ Ht) as (se0 & Hp0 & Hid). rewrite Hp in Hp0. injection Hp0 as <-.
  destruct (reg_phase _ _ HI p se Hp) as [_ H]. rewrite Ho in H. destruct H as (Hl & _ & _).
  refine (registry_advance s s' R t p se _ _ _ HI Hp _ _ Hc Hs Hw Hh Ht _ _ _ _ _); try done.
  - cbn. congruence.
  - intros t' r Hr Hx. exfalso. destruct r as [| | |stage id' p']; try done. injection Hx as ->. destruct (reg_role _ _ HI _ _ Hr) as (y & Hy & _ & E & _). congruence.
  - cbn. rewrite Hh, Hs, lookup_insert_eq. eexists. split; [done|]. subst id. done.
  - cbn. subst id. eauto.
Qed.

Lemma registry_terminate s R t id p : registry s R → R !! t = Some (Ending 0 id p) → registry (terminate p s) (<[t := Ending 1 id p]> R).
Proof.
  intros HI Ht. pose proof (reg_role _ _ HI t _ Ht) as (se & Hp & Hid & Ho & Hl & _).
  refine (registry_advance s _ R t p se (set_ended se) _ _ HI Hp _ _ _ _ _ _ Ht _ _ _ _ _); try done.
  - cbn. apply map_eq. intros q. destruct (decide (q = p)) as [->|?]; [by rewrite lookup_alter_eq, lookup_insert_eq, Hp|by rewrite lookup_alter_ne, lookup_insert_ne].
  - cbn. congruence.
  - cbn. congruence.
  - intros t' r Hr Hx. by eapply (reg_unique _ _ HI t' t).
  - cbn. rewrite lookup_alter_eq, Hp. cbn. eexists. split; [done|]. done.
  - cbn. rewrite Ho. subst id. eauto.
Qed.

Lemma registry_unregister s R t id p : registry s R → R !! t = Some (Ending 1 id p) → registry (unregister id p s) (<[t := Ending 2 id p]> R).
Proof.
  intros HI Ht. pose proof (reg_role _ _ HI t _ Ht) as (se & Hp & Hid & Ho & Hl & He). unfold unregister. cbn [heap with_registered]. rewrite Hp.
  destruct (release_owned (s_owner se) id (with_registered s (delete id (t_sessions s)))) as (Hc & Hs & Hh & _ & _ & _ & Hw).
  set (s' := releaseOwnerSession _ _ _) in *. cbn [t_cfg t_sessions heap with_registered] in Hc, Hs, Hh.
  change (∀ o, owned s' o = if bool_decide (o = s_owner se) then owned s (s_owner se) ∖ {[id]} else owned s o) in Hw. cbn in Hl.
  assert (∀ o i, i ∈ owned s o → i ≠ id → i ∈ owned s' o) as Hkeep by (intros o i ??; rewrite Hw; case_bool_decide; subst; set_solver).
  assert (∀ q x, heap s !! q = Some x → q ≠ p → info_id (s_info x) ≠ id) as Hother.
  { intros q x Hx Hne E. apply Hne. apply (reg_ids _ _ HI q p x se Hx Hp). congruence. }
  assert (∀ q x, heap s !! q = Some x → q ≠ p → t_sessions s' !! info_id (s_info x) = t_sessions s !! info_id (s_info x)) as Hsame.
  { intros q x Hx Hne. rewrite Hs, lookup_delete_ne; [done|]. intros E. by apply (Hother q x Hx Hne). }
  constructor.
  - rewrite Hc. apply HI.
  - intros o. rewrite Hc, Hw. pose proof (reg_slots _ _ HI o). case_bool_decide; [subst o|done].
    assert (size (owned s (s_owner se) ∖ {[id]}) ≤ size (owned s (s_owner se)))%nat by (apply subseteq_size; set_solver). lia.
  - intros i q. rewrite Hs, Hh. intros [Hne Hq]%lookup_delete_Some. destruct (reg_registered _ _ HI i q Hq) as (x & Hx & Hi & Hin).
    exists x. split_and!; try done. by apply Hkeep.
  - rewrite Hh. apply HI.
  - intros q x. rewrite Hh. intros Hx. destruct (reg_phase _ _ HI q x Hx) as [? H]. split; [done|]. destruct (decide (q = p)) as [->|Hne].
    + rewrite Hp in Hx. injection Hx as <-. rewrite Ho. exists t, 2%nat. by rewrite lookup_insert_eq, Hid.
    + rewrite (Hsame q x Hx Hne). destruct (s_once x); [done| |done]. destruct H as (t' & stage & Ht'). exists t', stage. rewrite lookup_insert_ne; [done|congruence].
  - intros t' r. destruct (decide (t' = t)) as [->|Hne].
    + rewrite lookup_insert_eq. intros [= <-]. cbn. rewrite Hh, Hs, lookup_delete_eq. exists se. split_and!; try done. intros _. by apply He.
    + rewrite lookup_insert_ne by done. intros Hr. pose proof (reg_role _ _ HI t' r Hr) as H. destruct r as [|o i sh|i q|stage i q]; cbn in *; rewrite ?Hh; try done.
      * destruct H as (? & ? & Hfr). split_and!; try done. apply Hkeep; [done|]. intros ->. by apply (Hfr p se).
      * destruct H as (x & Hx & <- & H). exists x. rewrite (Hsame q x Hx); [done|]. intros ->. apply Hne. by eapply (reg_unique _ _ HI t' t).
  - intros t1 t2 r1 r2 k H1 H2 E1 E2. destruct (decide (t1 = t)) as [->|N1], (decide (t2 = t)) as [->|N2]; [done|..];
      rewrite ?lookup_insert_eq in *; rewrite ?(lookup_insert_ne R) in * by done; simplify_eq.
    + by eapply (reg_unique _ _ HI).
    + by eapply (reg_unique _ _ HI).
    + by eapply (reg_unique _ _ HI).
  - intros o i. rewrite Hw, Hs, Hh. intros Hi. assert (i ∈ owned s o ∧ (o = s_owner se → i ≠ id)) as [Hold Hni].
    { case_bool_decide; [subst o|done]. set_solver. }
    destruct (reg_exact _ _ HI o i Hold) as [(t' & sh & Ht')|(q & x & Hq & Hx & Ho')].
    + left. exists t', sh. rewrite lookup_insert_ne; [done|congruence].
    + right. exists q, x. rewrite lookup_delete_ne; [done|]. intros <-. rewrite Hl in Hq. injection Hq as <-. rewrite Hp in Hx. injection Hx as <-. by apply Hni.
Qed.

Lemma registry_closed s R t id p reason : registry s R → R !! t = Some (Ending 2 id p) → registry (closed p reason s) (<[t := Plain]> R).
Proof.
  intros HI Ht. pose proof (reg_role _ _ HI t _ Ht) as (se & Hp & Hid & Ho & Hl & He). unfold closed. rewrite Hp. cbn in Hl.
  refine (registry_advance s _ R t p se (set_once se Finished) _ _ HI Hp _ _ _ _ _ _ Ht _ _ _ _ _); try done.
  - cbn. congruence.
  - intros t' r Hr Hx. by eapply (reg_unique _ _ HI t' t).
  - cbn. subst id. split; [done|]. by apply He.
Qed.

(** *** Every step *)

Definition roles (c : conf) : gmap nat role := role_of <$> threads c.
Definition registry_inv (c : conf) : Prop := registry (svc c) (roles c).

Lemma lookupOwned_Ok owner id s p : lookupOwnedSession owner id s = Ok p →
  t_sessions s !! id = Some p ∧ ∃ se, heap s !! p = Some se ∧ s_owner se = owner.
Proof.
  unfold lookupOwnedSession. destruct (t_sessions s !! id) as [q|]; [|done]. destruct (heap s !! q) as [se|] eqn:E; [|done].
  destruct (str_eqb (s_owner se) owner) eqn:Eo; [|done]. intros [= <-]. boolify. eauto.
Qed.

Lemma begins_plain s th : begins s th → role_of th = Plain.
Proof. by inversion 1. Qed.

(** The sections that the registry does not see. *)
Lemma attach_same n p a attachmentID connection size setsize s r s' : attachSection n p a attachmentID connection size setsize s = Some (r, s') → same_registry s s'.
Proof.
  unfold attachSection. destruct (heap s !! p) as [se|] eqn:Hp; cbn; [|done]. destruct (dismiss _ _ _ _) as [m|]; cbn; [|done].
  destruct setsize as [e|]; cbn; intros [= _ <-]; (eapply (same_registry_update s _ p se); [reflexivity|reflexivity|reflexivity|exact Hp| |reflexivity]; done).
Qed.
Lemma detach_same p attachmentID s s' : detachSection p attachmentID s = Some s' → same_registry s s'.
Proof.
  unfold detachSection. destruct (heap s !! p) as [se|] eqn:Hp; cbn; [|done]. destruct (s_current se) as [a|]; [|intros [= <-]; by apply same_registry_refl].
  destruct (attachments s !! a) as [x|]; cbn; [|done]. destruct (negb _); [intros [= <-]; by apply same_registry_refl|].
  destruct (closeAttachmentLocked x) as [y|]; cbn; [|done]. intros [= <-]. eapply (same_registry_update s _ p se); [reflexivity|reflexivity|reflexivity|exact Hp| |reflexivity]; done.
Qed.
Lemma input_same owner p data s s' : inputSection owner p data s = Some s' → same_registry s s'.
Proof. unfold inputSection. destruct (heap s !! p) as [se|] eqn:Hp; cbn; [|done]. intros [= <-]. eapply (same_registry_update s _ p se); [reflexivity|reflexivity|reflexivity|exact Hp| |reflexivity]; done. Qed.
Lemma resize_same p size setsize s s' : resizeSection p size setsize s = Some s' → same_registry s s'.
Proof. unfold resizeSection. destruct (heap s !! p) as [se|] eqn:Hp; cbn; [|done]. intros [= <-]. eapply (same_registry_update s _ p se); [reflexivity|reflexivity|reflexivity|exact Hp| |reflexivity]; by destruct setsize. Qed.
Lemma output_same p chunk s s' : outputSection p chunk s = Some s' → same_registry s s'.
Proof.
  unfold outputSection. destruct (heap s !! p) as [se|] eqn:Hp; cbn; [|done]. destruct (s_current se) as [a|]; [|intros [= <-]; by apply same_registry_refl].
  destruct (attachments s !! a) as [x|]; cbn; [|done]. destruct (at_closed x); [intros [= <-]; by apply same_registry_refl|].
  destruct (select_send _ _) as [[y ?]|]; cbn; [|done]. intros [= <-]. by apply same_registry_refl.
Qed.

Lemma runs_registry s th s' th' t R : registry s R → R !! t = Some (role_of th) → runs s th s' th' →
  registry s' (match th' with Some th' => <[t := role_of th']> R | None => delete t R end).
Proof.
  intros HI Ht Hr. destruct Hr; cbn in Ht;
    try (match goal with H : _ = Some ?s' |- registry ?s' _ =>
      first [apply attach_same in H|apply detach_same in H|apply input_same in H|apply resize_same in H|apply output_same in H];
      apply (registry_same _ _ _) with (2 := H) in HI end);
    try (match goal with H : attachSection _ _ _ _ _ _ _ _ = Some (_, ?s') |- _ => apply attach_same in H; apply (registry_same _ _ _) with (2 := H) in HI end);
    try (match goal with |- registry ?x (delete _ _) => apply registry_gone; [done|by intros r0; rewrite Ht; intros [= <-]] end);
    try (match goal with |- registry ?x (<[_ := role_of _]> _) => apply registry_put; [done|by intros r0; rewrite Ht; intros [= <-]|done|done] end).
  - by eapply registry_release.
  - cbn. by apply registry_register.
  - apply registry_gone; [|by intros r0; rewrite Ht; intros [= <-]]. eapply registry_same; [done|]. by apply same_registry_refl.
  - destruct (t_sessions s !! id); cbn.
    + apply registry_put; [done|by intros r0; rewrite Ht; intros [= <-]|done|done].
    + apply registry_gone; [done|by intros r0; rewrite Ht; intros [= <-]].
  - destruct (t_sessions s !! id); cbn.
    + apply registry_put; [done|by intros r0; rewrite Ht; intros [= <-]|done|done].
    + apply registry_gone; [done|by intros r0; rewrite Ht; intros [= <-]].
  - cbn. apply registry_put; [done|by intros r0; rewrite Ht; intros [= <-]| |done]. destruct (reg_registered _ _ HI _ _ H) as (se & ? & ? & _). cbn. eauto.
  - cbn. by eapply registry_once.
  - cbn. by apply registry_terminate.
  - cbn. by apply registry_unregister.
  - cbn. by eapply registry_closed.
Qed.

Lemma lookup_role (m : gmap nat thread) t : (role_of <$> m) !! t = role_of <$> m !! t.
Proof. apply lookup_fmap. Qed.

Lemma step_registry c c' : registry_inv c → step c c' → registry_inv c'.
Proof.
  unfold registry_inv, roles. intros HI Hs. destruct Hs; cbn [svc threads].
  - rewrite fmap_insert. destruct H0 as [Hf Hn]. eapply registry_reserve; try done.
    + by rewrite lookup_role, H.
    + unfold normalizeShell in H1. destruct (str_in shell _); [injection H1 as <-; set_solver|]. destruct (str_eqb shell "/bin/bash"); [injection H1 as <-; set_solver|done].
    + intros t' o sh. rewrite lookup_role, fmap_Some. intros (th & Ht & E). destruct th; try done. injection E as -> -> _. by eapply Hn.
  - apply refuse_same in H as (Hc & Hr & Hh & _ & _ & _ & Hw). destruct HI. constructor; rewrite ?Hc, ?Hr, ?Hh in *; try done.
    + intros o. by rewrite Hw.
    + intros id' p Hp. destruct (reg_registered0 id' p Hp) as (se & ? & ? & ?). exists se. by rewrite Hw.
    + intros t r Ht. specialize (reg_role0 t r Ht). destruct r; cbn in *; rewrite ?Hw, ?Hh, ?Hr; done.
    + intros o id'. rewrite Hw. apply reg_exact0.
  - rewrite !fmap_insert, fmap_delete.
    assert (registry (emitLifecycle (lifecycle "opened" i "") (svc c)) (role_of <$> threads c)) as HI' by (eapply registry_same; [done|by apply same_registry_refl]).
    apply registry_put; [apply registry_put; [apply registry_gone; [done|]|..]|..]; try done.
    + intros r. rewrite lookup_role, H. by intros [= <-].
    + intros r [_ Hr]%lookup_delete_Some. by rewrite lookup_role, H1 in Hr.
    + intros r. rewrite lookup_insert_ne by done. intros [_ Hr]%lookup_delete_Some. by rewrite lookup_role, H0 in Hr.
  - rewrite fmap_insert, (begins_plain _ _ H0). apply registry_put; try done. intros r. by rewrite lookup_role, H.
  - assert ((role_of <$> threads c) !! t = Some (role_of th)) as Ht by (by rewrite lookup_role, H).
    pose proof (runs_registry _ _ _ _ t _ HI Ht H0) as Hr. destruct th'; by rewrite ?fmap_insert, ?fmap_delete.
  - rewrite fmap_insert. apply registry_put; try done; [|intros r; by rewrite lookup_role, H]. eapply registry_same; [done|].
    eapply (same_registry_update _ _ p se); [reflexivity|reflexivity|reflexivity|done| |reflexivity]; done.
  - rewrite fmap_insert. apply registry_put; try done; [|intros r; by rewrite lookup_role, H]. eapply registry_same; [done|].
    eapply (same_registry_update _ _ p se); [reflexivity|reflexivity|reflexivity|done| |reflexivity]; done.
  - eapply registry_same; [done|]. by apply same_registry_refl.
Qed.

Lemma reachable_registry cfg c : reachable cfg c → registry_inv c.
Proof.
  apply rtc_ind_r; [|intros y z _ Hs HI; by eapply step_registry]. constructor; try done.
  - cbn. destruct (MaxSessionsPerOwner cfg <=? 0) eqn:E; lia.
  - intros o. change (Z.of_nat (size (∅ : gset string)) <= MaxSessionsPerOwner (t_cfg (NewService cfg))). rewrite size_empty. cbn. destruct (MaxSessionsPerOwner cfg <=? 0) eqn:E; lia.
Qed.

(** *** Sessions only move forward *)

Definition onward (se se' : session) : Prop :=
  s_info se' = s_info se ∧ s_owner se' = s_owner se ∧ (ended se → ended se') ∧ (s_once se ≠ NotStarted → s_once se' ≠ NotStarted).

Lemma onward_refl se : onward se se.
Proof. done. Qed.
Lemma onward_trans x y z : onward x y → onward y z → onward x z.
Proof. unfold onward. intros (-> & -> & ? & ?) (-> & -> & ? & ?). split_and!; auto. Qed.

Lemma same_onward s s' p se : same_registry s s' → heap s !! p = Some se → ∃ se', heap s' !! p = Some se' ∧ onward se se'.
Proof.
  intros Hs Hp. destruct (same_forth s s' p se Hs Hp) as (se' & Hp' & E1 & E2 & E3 & E4 & E5). exists se'. split; [done|].
  unfold onward, ended. rewrite E1, E2, E3, E4, E5. done.
Qed.

Lemma update_onward s s' q x y p se : heap s !! q = Some x → heap s' = <[q := y]> (heap s) → onward x y → heap s !! p = Some se →
  ∃ se', heap s' !! p = Some se' ∧ onward se se'.
Proof.
  intros Hq Hh Ho Hp. rewrite Hh. destruct (decide (p = q)) as [->|?].
  - rewrite lookup_insert_eq. simplify_eq. eauto.
  - rewrite lookup_insert_ne by done. eauto using onward_refl.
Qed.

Lemma runs_onward s th s' th' p se : runs s th s' th' → heap s !! p = Some se → ∃ se', heap s' !! p = Some se' ∧ onward se se'.
Proof.
  intros Hr Hp. assert (∀ s1, heap s1 = heap s → ∃ se', heap s1 !! p = Some se' ∧ onward se se') as Hsame by (intros s1 ->; eauto using onward_refl).
  destruct Hr; try (by apply Hsame);
    try (match goal with H : _ = Some ?s' |- ∃ _, heap ?s' !! _ = _ ∧ _ =>
      first [apply attach_same in H|apply detach_same in H|apply input_same in H|apply resize_same in H|apply output_same in H]; by eapply same_onward end);
    try (match goal with H : attachSection _ _ _ _ _ _ _ _ = Some (_, ?s') |- _ => apply attach_same in H; by eapply same_onward end).
  - apply Hsame. by destruct (release_owned owner (info_id i) s) as (_ & _ & ? & _).
  - cbn. rewrite lookup_insert_ne by congruence. eauto using onward_refl.
  - apply (endSection_heap _ _ _ _ _ _ se0) in H1 as (_ & _ & _ & _ & _ & d & Hh); [|done]. eapply (update_onward s s' p0 se0); [done|exact Hh| |done]. unfold onward, ended. cbn. by rewrite H0.
  - cbn. destruct (decide (p = p0)) as [->|?]; [rewrite lookup_alter_eq, Hp; cbn; eexists; split; [done|]; done|rewrite lookup_alter_ne by done; eauto using onward_refl].
  - apply Hsame. unfold unregister. cbn. destruct (heap s !! p0) as [x|]; [|done].
    by destruct (release_owned (s_owner x) id (with_registered s (delete id (t_sessions s)))) as (_ & _ & ? & _).
  - unfold closed. destruct (heap s !! p0) as [x|] eqn:E; [|eauto using onward_refl]. by eapply (update_onward s _ p0 x); [done|reflexivity|..].
Qed.

Lemma step_onward c c' p se : step c c' → heap (svc c) !! p = Some se → ∃ se', heap (svc c') !! p = Some se' ∧ onward se se'.
Proof.
  intros Hs Hp. destruct Hs; cbn [svc]; try (by eauto using onward_refl).
  - apply reserve_Ok in H2 as (_ & _ & -> & _). eauto using onward_refl.
  - apply refuse_same in H as (_ & _ & -> & _). eauto using onward_refl.
  - by eapply runs_onward.
  - by eapply (update_onward (svc c) _ p0 se0); [done|reflexivity|..].
  - by eapply (update_onward (svc c) _ p0 se0); [done|reflexivity|..].
Qed.

(** *** The sessions that a goroutine is to end *)

Definition todo (th : thread) : list string :=
  match th with
  | TEnd ids _ _ => ids
  | TOnce id _ rest _ _ | TTerminate id _ rest _ _ | TUnregister id _ rest _ _ | TClosed id _ rest _ _ => id :: rest
  | _ => []
  end.

(** The shell of a session is gone: its PTY is closed, its process was told to
    end, and nobody can find it any more. *)
Definition gone (c : conf) (p : nat) : Prop :=
  ∃ se, heap (svc c) !! p = Some se ∧ ended se ∧ t_sessions (svc c) !! info_id (s_info se) = None.

Lemma runs_sessions s th s' th' id q : runs s th s' th' → t_sessions s' !! id = Some q → t_sessions s !! id = Some q ∨ heap s !! q = None.
Proof.
  intros Hr. destruct Hr; try (by left);
    try (match goal with H : _ = Some ?s' |- _ =>
      first [apply attach_same in H|apply detach_same in H|apply input_same in H|apply resize_same in H|apply output_same in H]; destruct H as (_ & -> & _); by left end).
  - destruct (release_owned owner (info_id i) s) as (_ & -> & _). by left.
  - cbn. destruct (decide (id = info_id i)) as [->|?]; [rewrite lookup_insert_eq; intros [= <-]; by right|rewrite lookup_insert_ne by done; by left].
  - apply (endSection_heap _ _ _ _ _ _ se) in H1 as (_ & -> & _); [|done]. by left.
  - unfold unregister. cbn. destruct (heap s !! p) as [x|].
    + destruct (release_owned (s_owner x) id0 (with_registered s (delete id0 (t_sessions s)))) as (_ & -> & _). cbn. rewrite lookup_delete_Some. tauto.
    + cbn. rewrite lookup_delete_Some. tauto.
  - unfold closed. destruct (heap s !! p); by left.
Qed.

Lemma step_sessions c c' id q : step c c' → t_sessions (svc c') !! id = Some q → t_sessions (svc c) !! id = Some q ∨ heap (svc c) !! q = None.
Proof.
  intros Hs. destruct Hs; cbn [svc]; try (by left).
  - apply reserve_Ok in H2 as (_ & -> & _). by left.
  - apply refuse_same in H as (_ & -> & _). by left.
  - by eapply runs_sessions.
Qed.

Lemma gone_step c c' p : registry_inv c → gone c p → step c c' → gone c' p.
Proof.
  intros HI (se & Hp & He & Hn) Hs. pose proof (step_registry _ _ HI Hs) as HI'. destruct (step_onward c c' p se Hs Hp) as (se' & Hp' & Ei & _ & Ho & _).
  exists se'. split_and!; [done|by apply Ho|]. rewrite Ei. destruct (t_sessions (svc c') !! _) as [q|] eqn:Eq; [|done]. exfalso.
  destruct (reg_registered _ _ HI' _ _ Eq) as (x & Hx & Hid & _). assert (q = p) as -> by (apply (reg_ids _ _ HI' q p x se' Hx Hp'); by rewrite Ei).
  destruct (step_sessions c c' _ _ Hs Eq); congruence.
Qed.

(** An unregistered session is gone. *)
Lemma unregistered_gone c p se : registry_inv c → heap (svc c) !! p = Some se → t_sessions (svc c) !! info_id (s_info se) = None → gone c p.
Proof.
  intros HI Hp Hn. exists se. split_and!; try done. destruct (reg_phase _ _ HI p se Hp) as [_ H]. destruct (s_once se).
  - by destruct H as [? _]; simplify_eq.
  - destruct H as (t & stage & Ht). destruct (reg_role _ _ HI _ _ Ht) as (x & Hx & _ & _ & Hl & Hs). simplify_eq. apply Hs. intros ->. by rewrite Hn in Hl.
  - by destruct H.
Qed.

Lemma runs_todo s th s' th' p se c : svc c = s → registry_inv c → (∃ t, threads c !! t = Some th) → runs s th s' th' →
  heap s !! p = Some se → info_id (s_info se) ∈ todo th → gone c p ∨ ∃ th2, th' = Some th2 ∧ info_id (s_info se) ∈ todo th2.
Proof.
  intros Hc HI [t Ht] Hr Hp Hin. assert (roles c !! t = Some (role_of th)) as Hrole by (unfold roles; by rewrite lookup_role, Ht).
  destruct Hr; cbn in Hin; try (by apply elem_of_nil in Hin); eauto; subst s.
  - apply elem_of_cons in Hin as [E|Hin]; [|eauto]. left. subst id. by eapply unregistered_gone.
  - apply elem_of_cons in Hin as [E|Hin]; [|eauto]. left. destruct (reg_role _ _ HI _ _ Hrole) as (x & Hx & Hid).
    assert (p = p0) as -> by (apply (reg_ids _ _ HI p p0 se x Hp Hx); congruence). rewrite Hp in H. injection H as <-.
    destruct (reg_phase _ _ HI p0 se Hp) as [_ Hph]. rewrite H0 in Hph. exists se. tauto.
  - apply elem_of_cons in Hin as [E|Hin]; [|eauto]. left. destruct (reg_role _ _ HI _ _ Hrole) as (x & Hx & Hid & _ & Hl & He). subst id.
    assert (p = p0) as -> by (apply (reg_ids _ _ HI p p0 se x Hp Hx); congruence). rewrite Hp in Hx. injection Hx as <-.
    exists se. split; [done|]. split; [by apply He|done].
Qed.

(** The goroutine of a step, and the others. *)
Lemma step_todo c c' t th p se : registry_inv c → step c c' → threads c !! t = Some th → heap (svc c) !! p = Some se → info_id (s_info se) ∈ todo th →
  gone c' p ∨ ∃ th', threads c' !! t = Some th' ∧ info_id (s_info se) ∈ todo th'.
Proof.
  intros HI Hs Ht Hp Hin. pose proof (λ H, gone_step c c' p HI H Hs) as Hg. destruct Hs; cbn [threads];
    try (right; exists th; rewrite lookup_insert_ne by congruence; done); try (right; by exists th).
  - assert (t0 ≠ t) by (intros ->; rewrite Ht in H; injection H as ->; by apply elem_of_nil in Hin).
    right. exists th. rewrite lookup_insert_ne, lookup_insert_ne, lookup_delete_ne by congruence. done.
  - destruct (decide (t0 = t)) as [->|Hne].
    + rewrite Ht in H. injection H as <-. destruct (runs_todo _ th s' th' p se c eq_refl HI (ex_intro _ t Ht) H0 Hp Hin) as [H|(th2 & -> & H)]; [left; by apply Hg|].
      right. exists th2. by rewrite lookup_insert_eq.
    + right. exists th. destruct th'; [by rewrite lookup_insert_ne|by rewrite lookup_delete_ne].
Qed.

(** *** Timers *)

(** Every session that may be alive has an idle timer or a goroutine that is
    about to end it. *)
Definition watched (c : conf) : Prop :=
  ∀ p se, heap (svc c) !! p = Some se → s_once se = NotStarted →
    s_idle se = true ∨ ∃ t th, threads c !! t = Some th ∧ info_id (s_info se) ∈ todo th.

Lemma runs_idle s th s' th' p se se' : runs s th s' th' → heap s !! p = Some se → heap s' !! p = Some se' →
  s_idle se' = s_idle se ∨ s_idle se' = true ∨ s_once se' ≠ NotStarted.
Proof.
  assert (∀ s1, heap s1 = heap s → heap s !! p = Some se → heap s1 !! p = Some se' → s_idle se' = s_idle se ∨ s_idle se' = true ∨ s_once se' ≠ NotStarted) as Hsame
    by (intros s1 -> ??; simplify_eq; by left).
  assert (∀ s1 q x y, heap s !! q = Some x → heap s1 = <[q := y]> (heap s) → s_idle y = s_idle x ∨ s_idle y = true ∨ s_once y ≠ NotStarted →
    heap s !! p = Some se → heap s1 !! p = Some se' → s_idle se' = s_idle se ∨ s_idle se' = true ∨ s_once se' ≠ NotStarted) as Hup.
  { intros s1 q x y Hq -> Hy Hp. destruct (decide (p = q)) as [->|?]; [rewrite lookup_insert_eq; intros [= <-]; simplify_eq; done|].
    rewrite lookup_insert_ne by done. intros ?. simplify_eq. by left. }
  intros Hr. destruct Hr; try (by apply Hsame).
  - apply Hsame. by destruct (release_owned owner (info_id i) s) as (_ & _ & ? & _).
  - cbn. intros Hp. rewrite lookup_insert_ne by congruence. intros ?. simplify_eq. by left.
  - unfold attachSection in H0. destruct (heap s !! p0) as [x|] eqn:E; cbn in H0; [|done]. destruct (dismiss _ _ _ _); cbn in H0; [|done].
    destruct setsize; cbn in H0; [done|]. injection H0 as _ <-. eapply (Hup _ p0 x); [done|reflexivity|]. by right; left.
  - unfold attachSection in H0. destruct (heap s !! p0) as [x|] eqn:E; cbn in H0; [|done]. destruct (dismiss _ _ _ _); cbn in H0; [|done].
    destruct setsize; cbn in H0; [|done]. injection H0 as _ <-. eapply (Hup _ p0 x); [done|reflexivity|]. by right; left.
  - unfold detachSection in H. destruct (heap s !! p0) as [x|] eqn:E; cbn in H; [|done]. destruct (s_current x); [|injection H as <-; by apply Hsame].
    destruct (attachments s !! n) as [a|]; cbn in H; [|done]. destruct (negb _); [injection H as <-; by apply Hsame|].
    destruct (closeAttachmentLocked a); cbn in H; [|done]. injection H as <-. eapply (Hup _ p0 x); [done|reflexivity|]. by left.
  - unfold inputSection in H. destruct (heap s !! p0) as [x|] eqn:E; cbn in H; [|done]. injection H as <-. eapply (Hup _ p0 x); [done|reflexivity|]. by right; left.
  - unfold resizeSection in H. destruct (heap s !! p0) as [x|] eqn:E; cbn in H; [|done]. injection H as <-. eapply (Hup _ p0 x); [done|reflexivity|]. right; left. by destruct setsize.
  - unfold outputSection in H. destruct (heap s !! p0) as [x|] eqn:E; cbn in H; [|done]. destruct (s_current x); [|injection H as <-; by apply Hsame].
    destruct (attachments s !! n) as [a|]; cbn in H; [|done]. destruct (at_closed a); [injection H as <-; by apply Hsame|].
    destruct (select_send _ _) as [[y ?]|]; cbn in H; [|done]. injection H as <-. by apply Hsame.
  - apply (endSection_heap _ _ _ _ _ _ se0) in H1 as (_ & _ & _ & _ & _ & d & Hh); [|done]. eapply (Hup _ p0 se0); [done|exact Hh|]. by right; right.
  - cbn. intros Hp. destruct (decide (p = p0)) as [->|?]; [rewrite lookup_alter_eq, Hp; cbn; intros [= <-]; by left|rewrite lookup_alter_ne by done; intros ?; simplify_eq; by left].
  - apply Hsame. unfold unregister. cbn. destruct (heap s !! p0) as [x|]; [|done].
    by destruct (release_owned (s_owner x) id (with_registered s (delete id (t_sessions s)))) as (_ & _ & ? & _).
  - unfold closed. destruct (heap s !! p0) as [x|] eqn:E; [|by apply Hsame]. eapply (Hup _ p0 x); [done|reflexivity|]. by left.
Qed.

Lemma runs_new s th s' th' p se' : runs s th s' th' → heap s !! p = None → heap s' !! p = Some se' → s_idle se' = true.
Proof.
  intros Hr Hn. assert (∀ s1, same_registry s s1 → heap s1 !! p = Some se' → s_idle se' = true) as Hsame.
  { intros s1 Hs Hp. destruct (same_back s s1 p se' Hs Hp) as (? & ? & _). congruence. }
  destruct Hr; try (intros ?; congruence);
    try (match goal with H : _ = Some ?s' |- _ =>
      first [apply attach_same in H|apply detach_same in H|apply input_same in H|apply resize_same in H|apply output_same in H]; by apply Hsame end).
  - destruct (release_owned owner (info_id i) s) as (_ & _ & -> & _). congruence.
  - cbn. destruct (decide (p = p0)) as [->|?]; [rewrite lookup_insert_eq; by intros [= <-]|rewrite lookup_insert_ne by done; congruence].
  - cbn. congruence.
  - apply (endSection_heap _ _ _ _ _ _ se) in H1 as (_ & _ & _ & _ & _ & d & ->); [|done]. rewrite lookup_insert_ne by congruence. congruence.
  - cbn. destruct (decide (p = p0)) as [->|?]; [rewrite lookup_alter_eq, Hn; done|rewrite lookup_alter_ne by done; congruence].
  - unfold unregister. cbn. destruct (heap s !! p0) as [x|]; [|cbn; congruence].
    destruct (release_owned (s_owner x) id (with_registered s (delete id (t_sessions s)))) as (_ & _ & -> & _). cbn. congruence.
  - unfold closed. destruct (heap s !! p0) as [x|] eqn:E; cbn; [|congruence]. rewrite lookup_insert_ne by congruence. congruence.
Qed.

Lemma watched_step c c' : registry_inv c → watched c → step c c' → watched c'.
Proof.
  intros HI HW Hs p se' Hp' Ho. pose proof (step_registry _ _ HI Hs) as HI'. destruct (heap (svc c) !! p) as [se|] eqn:Hp.
  2:{ left. destruct Hs; cbn [svc] in Hp'; try (cbn in Hp'; congruence).
    - apply reserve_Ok in H2 as (_ & _ & E & _). congruence.
    - apply refuse_same in H as (_ & _ & E & _). congruence.
    - by eapply runs_new.
    - cbn in Hp'. rewrite lookup_insert_ne in Hp' by congruence. congruence.
    - cbn in Hp'. rewrite lookup_insert_ne in Hp' by congruence. congruence. }
  destruct (step_onward c c' p se Hs Hp) as (x & Hx & Ei & _ & _ & Hon). rewrite Hp' in Hx. injection Hx as <-.
  destruct (HW p se Hp) as [Hi|(t & th & Ht & Hin)].
  - destruct (s_once se); [done|by destruct Hon..].
  - assert (s_idle se' = true ∨ s_once se' ≠ NotStarted ∨ ∃ t th, threads c' !! t = Some th ∧ info_id (s_info se) ∈ todo th) as [?|[?|(t & th & ? & ?)]].
    { destruct Hs; cbn [svc threads] in *; try (cbn in Hp'; simplify_eq; by left).
      - apply reserve_Ok in H2 as (_ & _ & E & _). rewrite E in Hp'. simplify_eq. by left.
      - apply refuse_same in H as (_ & _ & E & _). rewrite E in Hp'. simplify_eq. by left.
      - destruct (runs_idle _ _ _ _ _ _ _ H0 Hp Hp') as [->|[?|?]]; auto.
      - cbn in Hp'. destruct (decide (p = p0)) as [->|?].
        + rewrite lookup_insert_eq in Hp'. simplify_eq. right; right. exists t. eexists. rewrite lookup_insert_eq. split; [done|]. cbn. set_solver.
        + rewrite lookup_insert_ne in Hp' by done. simplify_eq. by left.
      - cbn in Hp'. destruct (decide (p = p0)) as [->|?]; [rewrite lookup_insert_eq in Hp'|rewrite lookup_insert_ne in Hp' by done]; simplify_eq; by left. }
    + by left.
    + done.
    + right. exists t, th. by rewrite Ei.
  - destruct (step_todo c c' t th p se HI Hs Ht Hp Hin) as [(y & Hy & He & _)|(th' & ? & ?)].
    + exfalso. rewrite Hp' in Hy. injection Hy as <-. destruct (reg_phase _ _ HI' p se' Hp') as [_ H]. rewrite Ho in H. destruct He as [E _]. destruct H as (_ & E' & _). congruence.
    + right. exists t, th'. by rewrite Ei.
Qed.

(** *** Channels *)

(** Everything that was sent to the receiver, in order. *)
Definition stream (x : attachment) : list Event := ch_received (at_events x) ++ ch_buffer (at_events x).

Definition attachment_ok (x : attachment) : Prop :=
  at_closed x = ch_closed (at_events x) ∧ (length (ch_buffer (at_events x)) ≤ eventCapacity)%nat.

Definition channels_ok (s : Service) : Prop :=
  (∀ a x, attachments s !! a = Some x → attachment_ok x) ∧
  (∀ p se a, heap s !! p = Some se → s_current se = Some a → ∃ x, attachments s !! a = Some x ∧ at_closed x = false) ∧
  (∀ p1 p2 se1 se2 a, heap s !! p1 = Some se1 → heap s !! p2 = Some se2 → s_current se1 = Some a → s_current se2 = Some a → p1 = p2).

Lemma closeAttachment_ok x : attachment_ok x → ∃ y, closeAttachmentLocked x = Some y ∧ attachment_ok y ∧ at_closed y = true ∧ stream y = stream x.
Proof.
  intros [E L]. unfold closeAttachmentLocked, attachment_ok. destruct (at_closed x) eqn:Ec; [exists x; rewrite Ec; done|]. rewrite <- E. eexists. split; [done|]. done.
Qed.

Lemma select_send_open e got buf : select_send e (mkChannel got buf false) =
  if (length buf <? eventCapacity)%nat then Some (mkChannel got (buf ++ [e]) false, true) else Some (mkChannel got buf false, false).
Proof. done. Qed.

(** The farewell is always sent, and costs at most the oldest waiting event. *)
Lemma sendAndClose_ok n x e : attachment_ok x → at_closed x = false → ∃ y, sendAndCloseAttachmentLocked n x e = Some y ∧ attachment_ok y ∧ at_closed y = true ∧
  ∃ before lost rest, stream x = before ++ lost ++ rest ∧ stream y = before ++ rest ++ [e] ∧ (length lost ≤ 1)%nat.
Proof.
  intros [E L] Hc. destruct x as [id k [got buf cl] cld]. unfold stream, attachment_ok in *. cbn in E, L, Hc. subst cl cld.
  unfold sendAndCloseAttachmentLocked. cbn [at_closed at_events]. rewrite select_send_open.
  destruct (length buf <? eventCapacity)%nat eqn:El; cbn [mbind option_bind fmap option_fmap option_map fst].
  - apply Nat.ltb_lt in El. eexists. split; [reflexivity|]. cbn. rewrite length_app. cbn. split; [lia|]. split; [done|].
    exists (got ++ buf), [], []. cbn. split; [by rewrite app_nil_r|]. split; [by rewrite app_assoc|lia].
  - apply Nat.ltb_ge in El. unfold select_receive, taken. cbn [ch_received ch_buffer ch_closed]. rewrite select_send_open.
    assert (length (drop 1 (drop n buf)) < eventCapacity)%nat as Hl by (rewrite !length_drop; unfold eventCapacity in *; lia).
    rewrite (proj2 (Nat.ltb_lt _ _) Hl).
    exists (mkAttachment id k (mkChannel (got ++ take n buf) (drop 1 (drop n buf) ++ [e]) true) true). split; [reflexivity|]. cbn [at_closed at_events ch_closed ch_buffer ch_received].
    split; [split; [done|rewrite length_app; cbn [length]; lia]|]. split; [done|].
    exists (got ++ take n buf), (take 1 (drop n buf)), (drop 1 (drop n buf)). rewrite <- !app_assoc. split_and!; try done.
    + by rewrite take_drop, take_drop.
    + rewrite length_take. lia.
Qed.

Lemma dismiss_ok n e s p se : channels_ok s → heap s !! p = Some se → ∃ m, dismiss n e se (attachments s) = Some m ∧
  (∀ a, s_current se ≠ Some a → m !! a = attachments s !! a) ∧
  (∀ a, s_current se = Some a → ∃ x y, attachments s !! a = Some x ∧ m !! a = Some y ∧ attachment_ok y ∧ at_closed y = true ∧
    ∃ before lost rest, stream x = before ++ lost ++ rest ∧ stream y = before ++ rest ++ [e] ∧ (length lost ≤ 1)%nat).
Proof.
  intros (Hok & Hc & _) Hp. unfold dismiss. destruct (s_current se) as [a|] eqn:E; [|by eexists].
  destruct (Hc p se a Hp E) as (x & Hx & Hcl). rewrite Hx. cbn. destruct (sendAndClose_ok n x e (Hok a x Hx) Hcl) as (y & -> & Hy & Hyc & Hl). cbn.
  eexists. split; [done|]. split.
  - intros a' Hne. rewrite lookup_insert_ne by congruence. done.
  - intros a' [= <-]. exists x, y. by rewrite lookup_insert_eq.
Qed.

(** A section changes one session, its attachment, and creates attachments. *)
Lemma channels_put s s' p se se' : channels_ok s → heap s !! p = Some se → heap s' = <[p := se']> (heap s) →
  (∀ a x, attachments s' !! a = Some x → attachment_ok x) →
  (∀ q x a, q ≠ p → heap s !! q = Some x → s_current x = Some a → attachments s' !! a = attachments s !! a) →
  (∀ a, s_current se' = Some a → (∃ x, attachments s' !! a = Some x ∧ at_closed x = false) ∧ ∀ q x, q ≠ p → heap s !! q = Some x → s_current x ≠ Some a) →
  channels_ok s'.
Proof.
  intros (_ & Hc & Hu) Hp Hh Hok Hoth Hnew. split_and!; [done|..].
  - intros q x a. rewrite Hh. destruct (decide (q = p)) as [->|?]; [rewrite lookup_insert_eq; intros [= <-] Ha; by apply Hnew|].
    rewrite lookup_insert_ne by done. intros Hq Ha. rewrite (Hoth q x a) by done. eauto.
  - intros q1 q2 x1 x2 a. rewrite Hh. destruct (decide (q1 = p)) as [->|?], (decide (q2 = p)) as [->|?]; [done|..].
    + rewrite lookup_insert_eq, lookup_insert_ne by done. intros [= <-] H2 E1 E2. exfalso. by eapply (proj2 (Hnew a E1) q2).
    + rewrite lookup_insert_eq, lookup_insert_ne by done. intros H1 [= <-] E1 E2. exfalso. by eapply (proj2 (Hnew a E2) q1).
    + rewrite !lookup_insert_ne by done. apply Hu.
Qed.

(** What a section leaves of a closed attachment: all of it. *)
Definition keeps_closed (s s' : Service) : Prop := ∀ a x, attachments s !! a = Some x → at_closed x = true → attachments s' !! a = Some x.

Definition chan_good (s s' : Service) : Prop := channels_ok s' ∧ keeps_closed s s'.

Lemma chan_good_same s s' : channels_ok s → attachments s' = attachments s → (∀ p se', heap s' !! p = Some se' → ∃ se, heap s !! p = Some se ∧ s_current se' = s_current se) → chan_good s s'.
Proof.
  intros (Hok & Hc & Hu) Ea Hh. split; [|by unfold keeps_closed; rewrite Ea]. unfold channels_ok. rewrite Ea. split_and!; [done|..].
  - intros p se' a Hp' E. destruct (Hh p se' Hp') as (se & Hp & Ec). rewrite Ec in E. eauto.
  - intros p1 p2 se1 se2 a H1 H2 E1 E2. destruct (Hh _ _ H1) as (x1 & ? & Ex1). destruct (Hh _ _ H2) as (x2 & ? & Ex2). rewrite Ex1 in E1. rewrite Ex2 in E2. eauto.
Qed.

Lemma chan_good_refl s : channels_ok s → chan_good s s.
Proof. intros ?. split; [done|]. by intros a x. Qed.

Lemma newAttachment_ok id connection : attachment_ok (newAttachment id connection).
Proof. split; [done|]. cbn. unfold eventCapacity. lia. Qed.

Lemma attach_good n p a attachmentID connection size setsize s : channels_ok s → is_Some (heap s !! p) → attachments s !! a = None →
  ∃ r s', attachSection n p a attachmentID connection size setsize s = Some (r, s') ∧ chan_good s s'.
Proof.
  intros HC [se Hp] Ha. unfold attachSection. rewrite Hp. cbn [mbind option_bind]. destruct (dismiss_ok n replaced s p se HC Hp) as (m & -> & Hm & Hd).
  cbn [mbind option_bind]. pose proof HC as (Hok & Hc & Hu).
  assert (s_current se ≠ Some a) as Hne by (intros E; destruct (Hc p se a Hp E) as (? & ? & _); congruence).
  assert (∀ b x, m !! b = Some x → attachment_ok x) as Hmok.
  { intros b x Hb. destruct (decide (s_current se = Some b)) as [E|E]; [destruct (Hd b E) as (? & y & _ & Hy & ? & _); congruence|]. rewrite Hm in Hb by done. eauto. }
  assert (∀ q x b, q ≠ p → heap s !! q = Some x → s_current x = Some b → b ≠ a ∧ m !! b = attachments s !! b) as Hoth.
  { intros q x b Hqp Hq E. split; [intros ->; destruct (Hc q x a Hq E) as (? & ? & _); congruence|]. apply Hm. intros E'. apply Hqp. by eapply Hu. }
  assert (∀ b x, attachments s !! b = Some x → at_closed x = true → b ≠ a ∧ m !! b = Some x) as Hkc.
  { intros b x Hb Hcl. split; [congruence|]. rewrite Hm; [done|]. intros E. destruct (Hc p se b Hp E) as (? & ? & ?). congruence. }
  destruct setsize as [message|]; cbn.
  - do 2 eexists. split; [reflexivity|]. split.
    + eapply (channels_put s _ p se); [done|done|reflexivity|..]; cbn.
      * intros b x. destruct (decide (b = a)) as [->|?]; [rewrite lookup_insert_eq; intros [= <-]; split; [done|cbn; unfold eventCapacity; lia]|rewrite lookup_insert_ne by done; apply Hmok].
      * intros q x b Hqp Hq E. destruct (Hoth q x b Hqp Hq E) as [? Eb]. by rewrite lookup_insert_ne.
      * done.
    + intros b x Hb Hcl. destruct (Hkc b x Hb Hcl) as [? ?]. cbn. by rewrite lookup_insert_ne.
  - do 2 eexists. split; [reflexivity|]. split.
    + eapply (channels_put s _ p se); [done|done|reflexivity|..]; cbn.
      * intros b x. destruct (decide (b = a)) as [->|?]; [rewrite lookup_insert_eq; intros [= <-]; apply newAttachment_ok|rewrite lookup_insert_ne by done; apply Hmok].
      * intros q x b Hqp Hq E. destruct (Hoth q x b Hqp Hq E) as [? Eb]. by rewrite lookup_insert_ne.
      * intros b [= <-]. rewrite lookup_insert_eq. split; [eauto|]. intros q x Hqp Hq E. by destruct (Hoth q x a Hqp Hq E).
    + intros b x Hb Hcl. destruct (Hkc b x Hb Hcl) as [? ?]. cbn. by rewrite lookup_insert_ne.
Qed.

(** A section that replaces the current attachment of a session. *)
Lemma current_good s s' p se se' a x y : channels_ok s → heap s !! p = Some se → s_current se = Some a → attachments s !! a = Some x →
  attachment_ok y → attachments s' = <[a := y]> (attachments s) → heap s' = <[p := se']> (heap s) →
  (s_current se' = None ∨ s_current se' = Some a ∧ at_closed y = false) → chan_good s s'.
Proof.
  intros HC Hp E Hx Hy Ha Hh Hcur. pose proof HC as (Hok & Hc & Hu). split.
  - eapply (channels_put s s' p se se'); try done.
    + intros b z. rewrite Ha. destruct (decide (b = a)) as [->|?]; [rewrite lookup_insert_eq; by intros [= <-]|rewrite lookup_insert_ne by done; apply Hok].
    + intros q z b Hqp Hq Eb. rewrite Ha, lookup_insert_ne; [done|]. intros <-. apply Hqp. by eapply Hu.
    + intros b Eb. destruct Hcur as [?|[Ec Hcl]]; [congruence|]. rewrite Ec in Eb. injection Eb as <-. rewrite Ha, lookup_insert_eq. split; [eauto|].
      intros q z Hqp Hq Ez. apply Hqp. by eapply Hu.
  - intros b z Hb Hcl. rewrite Ha, lookup_insert_ne; [done|]. intros <-. destruct (Hc p se a Hp E) as (? & ? & ?). congruence.
Qed.

Lemma detach_good p attachmentID s : channels_ok s → is_Some (heap s !! p) → ∃ s', detachSection p attachmentID s = Some s' ∧ chan_good s s'.
Proof.
  intros HC [se Hp]. unfold detachSection. rewrite Hp. cbn [mbind option_bind]. destruct (s_current se) as [a|] eqn:E; [|exists s; split; [done|by apply chan_good_refl]].
  destruct (proj1 (proj2 HC) p se a Hp E) as (x & Hx & Hcl). rewrite Hx. cbn [mbind option_bind]. destruct (negb _); [exists s; split; [done|by apply chan_good_refl]|].
  destruct (closeAttachment_ok x (proj1 HC a x Hx)) as (y & -> & Hy & _). cbn. eexists. split; [reflexivity|].
  eapply (current_good s _ p se _ a x y); try done. by left.
Qed.

Lemma output_good p chunk s : channels_ok s → is_Some (heap s !! p) → ∃ s', outputSection p chunk s = Some s' ∧ chan_good s s'.
Proof.
  intros HC [se Hp]. unfold outputSection. rewrite Hp. cbn [mbind option_bind]. destruct (s_current se) as [a|] eqn:E; [|exists s; split; [done|by apply chan_good_refl]].
  destruct (proj1 (proj2 HC) p se a Hp E) as (x & Hx & Hcl). rewrite Hx. cbn [mbind option_bind]. rewrite Hcl.
  destruct x as [id k [got buf cl] cld]. pose proof (proj1 HC a _ Hx) as [Ecl Hlen]. cbn in Ecl, Hlen, Hcl. subst cl cld. cbn [at_events at_id at_connection]. rewrite select_send_open.
  destruct (length buf <? eventCapacity)%nat eqn:El; cbn [mbind option_bind]; (eexists; split; [reflexivity|]);
    (eapply (current_good s _ p se se a _ (mkAttachment id k _ false) HC Hp E Hx); [|reflexivity|cbn; by rewrite insert_id|by right]).
  - split; [done|]. cbn. rewrite length_app. apply Nat.ltb_lt in El. cbn. lia.
  - by split.
Qed.

Lemma end_good n p code reason s : channels_ok s → is_Some (heap s !! p) → ∃ s', endSection n p code reason s = Some s' ∧ chan_good s s'.
Proof.
  intros HC [se Hp]. unfold endSection. rewrite Hp. cbn [mbind option_bind]. destruct (dismiss_ok n (mkEvent "exited" "" code reason) s p se HC Hp) as (m & -> & Hm & Hd).
  cbn [mbind option_bind]. pose proof HC as (Hok & Hc & Hu). eexists. split; [reflexivity|]. split.
  - eapply (channels_put s _ p se); [done|done|reflexivity|..]; cbn; [| |done].
    + intros b x Hb. destruct (decide (s_current se = Some b)) as [E|E]; [destruct (Hd b E) as (? & y & _ & Hy & ? & _); congruence|]. rewrite Hm in Hb by done. eauto.
    + intros q x b Hqp Hq E. apply Hm. intros E'. apply Hqp. by eapply Hu.
  - intros b x Hb Hcl. cbn. rewrite Hm; [done|]. intros E. destruct (Hc p se b Hp E) as (? & ? & ?). congruence.
Qed.

Lemma runs_good s th s' th' : channels_ok s → runs s th s' th' → chan_good s s'.
Proof.
  intros HC Hr. assert (∀ s1, attachments s1 = attachments s → heap s1 = heap s → chan_good s s1) as Hsame.
  { intros s1 Ea Eh. apply chan_good_same; [done..|]. rewrite Eh. eauto. }
  assert (∀ s1 q x y, attachments s1 = attachments s → heap s !! q = Some x → heap s1 = <[q := y]> (heap s) → s_current y = s_current x → chan_good s s1) as Hup.
  { intros s1 q x y Ea Hq Eh Ec. apply chan_good_same; [done..|]. intros p z. rewrite Eh. destruct (decide (p = q)) as [->|?];
      [rewrite lookup_insert_eq; intros [= <-]; eauto|rewrite lookup_insert_ne by done; eauto]. }
  destruct Hr; try (by apply chan_good_refl); try (by apply Hsame).
  - destruct (release_owned owner (info_id i) s) as (_ & _ & ? & ? & _). by apply Hsame.
  - pose proof HC as (Hok & Hc & Hu). split; [split_and!|].
    + intros b x. cbn. destruct (decide (b = a)) as [->|?]; [rewrite lookup_insert_eq; intros [= <-]; apply newAttachment_ok|rewrite lookup_insert_ne by done; apply Hok].
    + intros q x b. cbn. destruct (decide (q = p)) as [->|?].
      * rewrite lookup_insert_eq. intros [= <-] [= <-]. rewrite lookup_insert_eq. eauto.
      * rewrite lookup_insert_ne by done. intros Hq E. destruct (Hc q x b Hq E) as (y & Hy & ?). exists y. rewrite lookup_insert_ne by congruence. done.
    + intros q1 q2 x1 x2 b. cbn. destruct (decide (q1 = p)) as [->|?], (decide (q2 = p)) as [->|?]; [done|..].
      * rewrite lookup_insert_eq, lookup_insert_ne by done. intros [= <-] H2 [= <-] E2. destruct (Hc _ _ _ H2 E2) as (? & ? & _). congruence.
      * rewrite lookup_insert_eq, lookup_insert_ne by done. intros H1 [= <-] E1 [= <-]. destruct (Hc _ _ _ H1 E1) as (? & ? & _). congruence.
      * rewrite !lookup_insert_ne by done. apply Hu.
    + intros b x Hb _. cbn. rewrite lookup_insert_ne by congruence. done.
  - assert (is_Some (heap s !! p)) as Hp by (unfold attachSection in H0; destruct (heap s !! p); [eauto|done]).
    destruct (attach_good n p a attachmentID connection size setsize s HC Hp H) as (r & s1 & E & Hg). congruence.
  - assert (is_Some (heap s !! p)) as Hp by (unfold attachSection in H0; destruct (heap s !! p); [eauto|done]).
    destruct (attach_good n p a attachmentID connection size setsize s HC Hp H) as (r & s1 & E & Hg). congruence.
  - assert (is_Some (heap s !! p)) as Hp by (unfold detachSection in H; destruct (heap s !! p); [eauto|done]).
    destruct (detach_good p attachmentID s HC Hp) as (s1 & E & Hg). congruence.
  - unfold inputSection in H. destruct (heap s !! p) as [x|] eqn:E; cbn in H; [|done]. injection H as <-. by eapply (Hup _ p x).
  - unfold resizeSection in H. destruct (heap s !! p) as [x|] eqn:E; cbn in H; [|done]. injection H as <-. eapply (Hup _ p x); [done|done|reflexivity|]. by destruct setsize.
  - assert (is_Some (heap s !! p)) as Hp by (unfold outputSection in H; destruct (heap s !! p); [eauto|done]).
    destruct (output_good p chunk s HC Hp) as (s1 & E & Hg). congruence.
  - destruct (end_good n p code reason s HC (ex_intro _ se H)) as (s1 & E & Hg). congruence.
  - apply chan_good_same; [done..|]. intros q z. cbn. destruct (decide (q = p)) as [->|?];
      [rewrite lookup_alter_eq, fmap_Some; intros (x & ? & ->); eauto|rewrite lookup_alter_ne by done; eauto].
  - unfold unregister. cbn. destruct (heap s !! p) as [x|]; [|by apply Hsame].
    destruct (release_owned (s_owner x) id (with_registered s (delete id (t_sessions s)))) as (_ & _ & ? & ? & _). by apply Hsame.
  - unfold closed. destruct (heap s !! p) as [x|] eqn:E; [|by apply Hsame]. by eapply (Hup _ p x).
Qed.

(** A receiver only moves events from the buffer to what it has received. *)
Lemma taken_ok n x : let y := mkAttachment (at_id x) (at_connection x) (taken n (at_events x)) (at_closed x) in
  (attachment_ok x → attachment_ok y) ∧ at_closed y = at_closed x ∧ stream y = stream x.
Proof.
  cbn zeta. unfold attachment_ok, stream. cbn. rewrite length_drop. split_and!; [intros [? ?]; split; [done|lia]|done|]. rewrite <- app_assoc. by rewrite take_drop.
Qed.

Lemma step_channels c c' : channels_ok (svc c) → step c c' → channels_ok (svc c') ∧
  ∀ a x, attachments (svc c) !! a = Some x → at_closed x = true → ∃ y, attachments (svc c') !! a = Some y ∧ at_closed y = true ∧ stream y = stream x.
Proof.
  intros HC Hs.
  assert (chan_good (svc c) (svc c') → channels_ok (svc c') ∧
    ∀ a x, attachments (svc c) !! a = Some x → at_closed x = true → ∃ y, attachments (svc c') !! a = Some y ∧ at_closed y = true ∧ stream y = stream x) as Hg.
  { intros [H1 H2]. split; [done|]. intros a x Hx Hcl. exists x. split; [by apply H2|done]. }
  assert (∀ s q x y, attachments s = attachments (svc c) → heap (svc c) !! q = Some x → heap s = <[q := y]> (heap (svc c)) → s_current y = s_current x → chan_good (svc c) s) as Hup.
  { intros s1 q x y Ea Hq Eh Ec. apply chan_good_same; [done..|]. intros p z. rewrite Eh. destruct (decide (p = q)) as [->|?];
      [rewrite lookup_insert_eq; intros [= <-]; eauto|rewrite lookup_insert_ne by done; eauto]. }
  destruct Hs; cbn [svc] in *; try (apply Hg; apply chan_good_same; [done|done|cbn; eauto]; fail).
  - apply reserve_Ok in H2 as (_ & _ & Hh & Ha & _). apply Hg, chan_good_same; [done..|]. rewrite Hh. eauto.
  - apply refuse_same in H as (_ & _ & Hh & Ha & _). apply Hg, chan_good_same; [done..|]. rewrite Hh. eauto.
  - apply Hg. by eapply runs_good.
  - apply Hg. by eapply (Hup _ p se).
  - apply Hg. by eapply (Hup _ p se).
  - destruct (taken_ok n at_) as (Hok' & Hcl' & Hst'). set (y := mkAttachment _ _ _ _) in *. pose proof HC as (Hok & Hc & Hu). split; [split_and!|].
    + intros b z. cbn. destruct (decide (b = a)) as [->|?]; [rewrite lookup_insert_eq; intros [= <-]; eauto|rewrite lookup_insert_ne by done; apply Hok].
    + intros p se b. cbn. intros Hp E. destruct (Hc p se b Hp E) as (z & Hz & Hzc). destruct (decide (b = a)) as [->|?];
        [rewrite lookup_insert_eq; simplify_eq; eauto|rewrite lookup_insert_ne by done; eauto].
    + apply Hu.
    + intros b z Hb Hz. cbn. destruct (decide (b = a)) as [->|?]; [rewrite lookup_insert_eq; simplify_eq; eauto|rewrite lookup_insert_ne by done; eauto].
Qed.

(** *** Requests act for their owner *)

Definition pointer (th : thread) : option nat :=
  match th with
  | TAttach p _ | TDetach p _ | TInput _ p _ | TResize p _ | TForwarding p | TWaiting _ p => Some p
  | TOnce _ p _ _ _ | TTerminate _ p _ _ _ | TUnregister _ p _ _ _ | TClosed _ p _ _ _ => Some p
  | _ => None
  end.
Definition requester (th : thread) : option string := match th with TInput owner _ _ => Some owner | _ => None end.

Definition belongs (s : Service) (p : nat) (owner : string) : Prop := ∃ se, heap s !! p = Some se ∧ s_owner se = owner.

Record requests_ok (c : conf) : Prop := {
  req_pointer t th p : threads c !! t = Some th → pointer th = Some p → is_Some (heap (svc c) !! p);
  req_owner t th p owner : threads c !! t = Some th → pointer th = Some p → requester th = Some owner → belongs (svc c) p owner;
  req_written owner p data : (owner, p, data) ∈ written (svc c) → belongs (svc c) p owner }.

Lemma begins_pointer c th p : registry_inv c → begins (svc c) th → pointer th = Some p →
  is_Some (heap (svc c) !! p) ∧ ∀ owner, requester th = Some owner → belongs (svc c) p owner.
Proof.
  intros HI Hb. destruct Hb; cbn; intros [= <-];
    (match goal with H : lookupOwnedSession _ _ _ = Ok _ |- _ => apply lookupOwned_Ok in H as (_ & se & ? & ?) end); (split; [eauto|]); intros o [= <-].
  by exists se.
Qed.

Lemma runs_pointer c t th s' th' th2 p : registry_inv c → requests_ok c → threads c !! t = Some th → runs (svc c) th s' th' → th' = Some th2 → pointer th2 = Some p →
  is_Some (heap (svc c) !! p) ∧ requester th2 = None.
Proof.
  intros HI HR Ht Hr. pose proof (req_pointer _ HR t th) as Hp. remember (svc c) as s eqn:Es. destruct Hr; subst s; intros E;
    try (injection E as <-); cbn; try done; try (intros [= <-]; split; [by eapply Hp|done]).
  - destruct (t_sessions (svc c) !! id) as [q|] eqn:El; [|done]. injection E as <-. intros [= <-].
    split; [|done]. destruct (reg_registered _ _ HI _ _ El) as (? & ? & _). eauto.
  - destruct (t_sessions (svc c) !! id) as [q|] eqn:El; [|done]. injection E as <-. intros [= <-].
    split; [|done]. destruct (reg_registered _ _ HI _ _ El) as (? & ? & _). eauto.
  - intros [= <-]. split; [|done]. destruct (reg_registered _ _ HI _ _ H) as (? & ? & _). eauto.
Qed.

Lemma runs_written s th s' th' : runs s th s' th' → written s' = written s ∨ ∃ owner p data, th = TInput owner p data ∧ written s' = written s ++ [(owner, p, data)].
Proof.
  intros Hr. destruct Hr; try (by left).
  - left. by destruct (release_owned owner (info_id i) s) as (_ & _ & _ & _ & ? & _).
  - left. unfold attachSection in H0. destruct (heap s !! p); cbn in H0; [|done]. destruct (dismiss _ _ _ _); cbn in H0; [|done]. destruct setsize; cbn in H0; try done; by injection H0 as _ <-.
  - left. unfold attachSection in H0. destruct (heap s !! p); cbn in H0; [|done]. destruct (dismiss _ _ _ _); cbn in H0; [|done]. destruct setsize; cbn in H0; try done; by injection H0 as _ <-.
  - left. unfold detachSection in H. destruct (heap s !! p) as [x|]; cbn in H; [|done]. destruct (s_current x); [|by injection H as <-].
    destruct (attachments s !! n) as [a|]; cbn in H; [|done]. destruct (negb _); [by injection H as <-|]. destruct (closeAttachmentLocked a); cbn in H; [|done]. by injection H as <-.
  - right. exists owner, p, data. split; [done|]. unfold inputSection in H. destruct (heap s !! p); cbn in H; [|done]. by injection H as <-.
  - left. unfold resizeSection in H. destruct (heap s !! p); cbn in H; [|done]. by injection H as <-.
  - left. unfold outputSection in H. destruct (heap s !! p) as [x|]; cbn in H; [|done]. destruct (s_current x); [|by injection H as <-].
    destruct (attachments s !! n) as [a|]; cbn in H; [|done]. destruct (at_closed a); [by injection H as <-|]. destruct (select_send _ _) as [[y ?]|]; cbn in H; [|done]. by injection H as <-.
  - left. by apply (endSection_heap _ _ _ _ _ _ se) in H1 as (_ & _ & _ & ? & _).
  - left. unfold unregister. cbn. destruct (heap s !! p) as [x|]; [|done].
    by destruct (release_owned (s_owner x) id (with_registered s (delete id (t_sessions s)))) as (_ & _ & _ & _ & ? & _).
  - left. unfold closed. by destruct (heap s !! p).
Qed.

Lemma belongs_step c c' p owner : step c c' → belongs (svc c) p owner → belongs (svc c') p owner.
Proof. intros Hs (se & Hp & Ho). destruct (step_onward c c' p se Hs Hp) as (se' & Hp' & _ & E & _). exists se'. by rewrite E. Qed.

Lemma requests_step c c' : registry_inv c → requests_ok c → step c c' → requests_ok c'.
Proof.
  intros HI HR Hs.
  assert (∀ p, is_Some (heap (svc c) !! p) → is_Some (heap (svc c') !! p)) as Hex.
  { intros p [se Hp]. destruct (step_onward c c' p se Hs Hp) as (se' & ? & _). eauto. }
  pose proof (λ p o, belongs_step c c' p o Hs) as Hbel.
  assert (∀ t th p, threads c' !! t = Some th → pointer th = Some p →
    is_Some (heap (svc c') !! p) ∧ ∀ owner, requester th = Some owner → belongs (svc c') p owner) as Hth.
  { assert (∀ t th p, threads c !! t = Some th → pointer th = Some p → is_Some (heap (svc c') !! p) ∧ ∀ owner, requester th = Some owner → belongs (svc c') p owner) as Hold.
    { intros t th p Ht Hp. split; [apply Hex; by eapply (req_pointer _ HR)|]. intros o Ho. apply Hbel. by eapply (req_owner _ HR). }
    assert (∀ t0 th0, threads c' = <[t0 := th0]> (threads c) → pointer th0 = None →
      ∀ t th p, threads c' !! t = Some th → pointer th = Some p → is_Some (heap (svc c') !! p) ∧ ∀ owner, requester th = Some owner → belongs (svc c') p owner) as Hins.
    { intros t0 th0 -> H0 t th p. destruct (decide (t = t0)) as [->|?]; [rewrite lookup_insert_eq; intros [= <-]; congruence|]. rewrite lookup_insert_ne by done. eauto. }
    destruct Hs; cbn [threads svc] in *; try (by eapply Hins); try done.
    - intros t' th p. destruct (decide (t' = t1)) as [->|?]; [rewrite lookup_insert_eq; by intros [= <-]|]. rewrite lookup_insert_ne by done.
      destruct (decide (t' = t2)) as [->|?]; [rewrite lookup_insert_eq; by intros [= <-]|]. rewrite lookup_insert_ne by done. intros [_ Ht]%lookup_delete_Some. eauto.
    - intros t' th' p. destruct (decide (t' = t)) as [->|?]; [|rewrite lookup_insert_ne by done; eauto]. rewrite lookup_insert_eq. intros [= <-]. by apply begins_pointer.
    - intros t' th2 p. destruct th' as [th3|].
      + destruct (decide (t' = t)) as [->|?]; [|rewrite lookup_insert_ne by done; eauto]. rewrite lookup_insert_eq. intros [= <-] Hp.
        destruct (runs_pointer c t th s' _ th3 p HI HR H H0 eq_refl Hp) as [? E]. split; [by apply Hex|]. by rewrite E.
      + intros [_ Ht]%lookup_delete_Some. eauto. }
  constructor.
  - intros t th p Ht Hp. by apply (Hth t th p Ht Hp).
  - intros t th p owner Ht Hp. by apply (Hth t th p Ht Hp).
  - intros owner p data Hin. clear Hth Hex.
    assert ((owner, p, data) ∈ written (svc c) ∨ belongs (svc c) p owner) as [?|?]; [|by apply Hbel, (req_written _ HR owner p data)|by apply Hbel].
    destruct Hs; cbn [svc] in *; try (left; exact Hin).
    + left. by apply reserve_Ok in H2 as (_ & _ & _ & _ & <- & _).
    + left. by apply refuse_same in H as (_ & _ & _ & _ & <- & _).
    + destruct (runs_written _ _ _ _ H0) as [E|(o & q & d & -> & E)]; rewrite E in Hin; [by left|].
      apply elem_of_app in Hin as [?|Hin]; [by left|]. right. apply list_elem_of_singleton in Hin. injection Hin as -> -> ->. by eapply (req_owner _ HR).
Qed.

(** ** The invariant of every interleaving *)

Record terminal_inv (c : conf) : Prop := {
  ti_registry : registry_inv c;
  ti_watched : watched c;
  ti_channels : channels_ok (svc c);
  ti_requests : requests_ok c }.

Lemma terminal_step_inv c c' : terminal_inv c → step c c' → terminal_inv c'.
Proof.
  intros [HR HW HC HQ] Hs. constructor; [by eapply step_registry|by eapply watched_step|by eapply step_channels|by eapply requests_step].
Qed.

Lemma reachable_terminal_inv cfg c : reachable cfg c → terminal_inv c.
Proof.
  apply rtc_ind_r; [|intros y z _ Hs HI; by eapply terminal_step_inv].
  constructor; [by apply (reachable_registry cfg), rtc_refl|by intros ??|split_and!; done|]. constructor; cbn; try done. intros ??? H. by apply elem_of_nil in H.
Qed.

Lemma steps_inv c c' : terminal_inv c → rtc step c c' → terminal_inv c'.
Proof. intros HI Hs. revert HI. induction Hs; eauto using terminal_step_inv. Qed.

(** *** Completion of the end of a session *)

Lemma step_on c t th s' th' : threads c !! t = Some th → runs (svc c) th s' (Some th') → step c (mkConf s' (<[t := th']> (threads c))).
Proof. intros Ht Hr. exact (step_runs c t th s' (Some th') Ht Hr). Qed.

(** The goroutine is through with a session, and the others are where they were. *)
Definition finished_one (c : conf) (t : nat) (id : string) (rest : list string) (code : option Z) (reason : string) (c' : conf) : Prop :=
  rtc step c c' ∧ threads c' = <[t := TEnd rest code reason]> (threads c) ∧ t_sessions (svc c') !! id = None ∧
  ∀ i, t_sessions (svc c) !! i = None → t_sessions (svc c') !! i = None.

Lemma finished_step c c1 t th' id rest code reason c' : step c c1 → threads c1 = <[t := th']> (threads c) →
  (∀ i, t_sessions (svc c) !! i = None → t_sessions (svc c1) !! i = None) → finished_one c1 t id rest code reason c' → finished_one c t id rest code reason c'.
Proof.
  intros Hs Ht Hk (Hr & Hth & Hn & Hk'). split_and!; [by eapply rtc_l| |done|eauto]. rewrite Hth, Ht. by rewrite insert_insert_eq.
Qed.

Lemma finish_closed c t id p rest code reason : terminal_inv c → threads c !! t = Some (TClosed id p rest code reason) → ∃ c', finished_one c t id rest code reason c'.
Proof.
  intros HI Ht. pose proof (step_on c t _ _ _ Ht (runs_closed id p rest code reason (svc c))) as Hs. eexists. split; [by apply rtc_once|]. split; [done|].
  destruct (reg_role _ _ (ti_registry _ HI) t (Ending 2 id p)) as (se & Hp & _ & _ & Hl & _); [unfold roles; by rewrite lookup_role, Ht|].
  cbn. unfold closed. rewrite Hp. split; [done|]. done.
Qed.

Lemma finish_unregister c t id p rest code reason : terminal_inv c → threads c !! t = Some (TUnregister id p rest code reason) → ∃ c', finished_one c t id rest code reason c'.
Proof.
  intros HI Ht. pose proof (step_on c t _ _ _ Ht (runs_unregister id p rest code reason (svc c))) as Hs.
  destruct (finish_closed _ t id p rest code reason (terminal_step_inv _ _ HI Hs)) as (c' & Hc'); [by cbn; rewrite lookup_insert_eq|].
  exists c'. eapply finished_step; [exact Hs|done| |done]. intros i Hi. cbn. unfold unregister. cbn.
  destruct (heap (svc c) !! p) as [x|]; [|cbn; rewrite lookup_delete_None; by right].
  destruct (release_owned (s_owner x) id (with_registered (svc c) (delete id (t_sessions (svc c))))) as (_ & -> & _). cbn. rewrite lookup_delete_None. by right.
Qed.

Lemma finish_terminate c t id p rest code reason : terminal_inv c → threads c !! t = Some (TTerminate id p rest code reason) → ∃ c', finished_one c t id rest code reason c'.
Proof.
  intros HI Ht. pose proof (step_on c t _ _ _ Ht (runs_terminate id p rest code reason (svc c))) as Hs.
  destruct (finish_unregister _ t id p rest code reason (terminal_step_inv _ _ HI Hs)) as (c' & Hc'); [by cbn; rewrite lookup_insert_eq|].
  exists c'. by eapply finished_step; [exact Hs|..].
Qed.

(** Whichever goroutine ends a session can finish it. *)
Lemma finish_ending c t stage id p : terminal_inv c → roles c !! t = Some (Ending stage id p) →
  ∃ rest code reason c', finished_one c t id rest code reason c' ∧ (∃ se, heap (svc c') !! p = Some se ∧ s_once se ≠ Running).
Proof.
  intros HI Hr. unfold roles in Hr. rewrite lookup_role, fmap_Some in Hr. destruct Hr as (th & Ht & Hr).
  destruct (reg_role _ _ (ti_registry _ HI) t (Ending stage id p)) as (se & Hp & Hid & _); [unfold roles; by rewrite lookup_role, Ht, Hr|].
  assert (∀ rest code reason, (∃ c', finished_one c t id rest code reason c') →
    ∃ rest code reason c', finished_one c t id rest code reason c' ∧ (∃ se, heap (svc c') !! p = Some se ∧ s_once se ≠ Running)) as Hgo.
  { intros rest code reason (c' & Hs & Hth & Hn & Hk). exists rest, code, reason, c'. split; [done|].
    pose proof (steps_inv _ _ HI Hs) as HI'. assert (∃ se', heap (svc c') !! p = Some se' ∧ onward se se') as (se' & Hp' & _).
    { clear -Hs Hp. induction Hs as [|x y z H1 _ IH] in se, Hp |- *; [eauto using onward_refl|]. destruct (step_onward x y p se H1 Hp) as (s1 & Hp1 & Ho1).
      destruct (IH s1 Hp1) as (s2 & Hp2 & Ho2). eauto using onward_trans. }
    exists se'. split; [done|]. intros Hrun. destruct (reg_phase _ _ (ti_registry _ HI') p se' Hp') as [_ Hph]. rewrite Hrun in Hph. destruct Hph as (t' & st & Ht').
    unfold roles in Ht'. rewrite lookup_role, Hth in Ht'. destruct (decide (t' = t)) as [->|Hne]; [by rewrite lookup_insert_eq in Ht'|].
    rewrite lookup_insert_ne in Ht' by done. apply Hne. eapply (reg_unique _ _ (ti_registry _ HI) t' t _ (Ending stage id p) (inr p)); [unfold roles; rewrite lookup_role; exact Ht'|unfold roles; by rewrite lookup_role, Ht, Hr|done|done]. }
  destruct th; try done; injection Hr as -> -> ->; (eapply Hgo; first [by eapply finish_terminate|by eapply finish_unregister|by eapply finish_closed]).
Qed.

(** A goroutine that is to end a session gets past it. *)
Lemma finish_next c t id rest code reason : terminal_inv c → threads c !! t = Some (TEnd (id :: rest) code reason) →
  ∃ c', rtc step c c' ∧ threads c' !! t = Some (TEnd rest code reason) ∧ t_sessions (svc c') !! id = None ∧
    ∀ i, t_sessions (svc c) !! i = None → t_sessions (svc c') !! i = None.
Proof.
  intros HI Ht. destruct (t_sessions (svc c) !! id) as [p|] eqn:Hl.
  2:{ eexists. split; [apply rtc_once; exact (step_on c t _ _ _ Ht (runs_gone _ _ _ _ _ Hl))|]. cbn. by rewrite lookup_insert_eq. }
  destruct (reg_registered _ _ (ti_registry _ HI) id p Hl) as (se & Hp & Hid & _).
  pose proof (step_on c t _ _ _ Ht (runs_found id p rest code reason (svc c) Hl)) as Hs1. set (c1 := mkConf _ _) in Hs1.
  pose proof (terminal_step_inv _ _ HI Hs1) as HI1. assert (threads c1 !! t = Some (TOnce id p rest code reason)) as Ht1 by (cbn; by rewrite lookup_insert_eq).
  assert (heap (svc c1) !! p = Some se) as Hp1 by done.
  destruct (reg_phase _ _ (ti_registry _ HI1) p se Hp1) as [_ Hph]. destruct (s_once se) eqn:Ho.
  - destruct (end_good 0 p code reason (svc c1) (ti_channels _ HI1) (ex_intro _ se Hp1)) as (s2 & He & _).
    pose proof (step_on c1 t _ _ _ Ht1 (runs_once 0 id p rest code reason se _ s2 Hp1 Ho He)) as Hs2.
    apply (endSection_heap _ _ _ _ _ _ se) in He as (_ & Es & _); [|done].
    destruct (finish_terminate _ t id p rest code reason (terminal_step_inv _ _ HI1 Hs2)) as (c' & Hs' & Hth & Hn & Hk); [by cbn; rewrite lookup_insert_eq|].
    exists c'. split; [eapply rtc_l; [exact Hs1|]; by eapply rtc_l|]. split; [by rewrite Hth, lookup_insert_eq|]. split; [done|].
    intros i Hi. apply Hk. cbn. by rewrite Es.
  - destruct Hph as (t2 & stage & Ht2). destruct (finish_ending c1 t2 stage _ p HI1 Ht2) as (r2 & cd2 & rs2 & c2 & (Hs2 & Hth2 & Hn2 & Hk2) & se2 & Hp2 & Ho2).
    assert (t2 ≠ t) as Hne by (intros ->; unfold roles in Ht2; by rewrite lookup_role, Ht1 in Ht2).
    assert (threads c2 !! t = Some (TOnce id p rest code reason)) as Htc2 by (by rewrite Hth2, lookup_insert_ne).
    pose proof (steps_inv _ _ HI1 Hs2) as HI2.
    assert (info_id (s_info se2) = id) as Hid2.
    { destruct (reg_role _ _ (ti_registry _ HI2) t (Found id p)) as (x & Hx & ?); [unfold roles; by rewrite lookup_role, Htc2|]. congruence. }
    destruct (reg_phase _ _ (ti_registry _ HI2) p se2 Hp2) as [_ Hph2]. rewrite Hid2 in Hph2. rewrite Hid in Hn2. destruct (s_once se2) eqn:E2; [by destruct Hph2; congruence|done|].
    eexists. split; [eapply rtc_l; [exact Hs1|]; eapply rtc_r; [exact Hs2|]; exact (step_on c2 t _ _ _ Htc2 (runs_done _ _ _ _ _ _ _ Hp2 E2))|]. cbn. by rewrite lookup_insert_eq.
  - destruct Hph as [Hph _]. cbn in Hph. congruence.
Qed.

(** A goroutine that is to end sessions can always come to its end. *)
Lemma closing_completes ids c t code reason : terminal_inv c → threads c !! t = Some (TEnd ids code reason) →
  ∃ c', rtc step c c' ∧ threads c' !! t = None ∧ (∀ i, i ∈ ids ∨ t_sessions (svc c) !! i = None → t_sessions (svc c') !! i = None).
Proof.
  revert c. induction ids as [|id rest IH]; intros c HI Ht.
  - exists (mkConf (svc c) (delete t (threads c))). split; [apply rtc_once; exact (step_runs c t _ _ None Ht (runs_ended _ _ _))|]. cbn. rewrite lookup_delete_eq. split; [done|].
    intros i [Hi|Hi]; [by apply elem_of_nil in Hi|done].
  - destruct (finish_next c t id rest code reason HI Ht) as (c1 & Hs & Ht1 & Hid & Hk). destruct (IH c1 (steps_inv c c1 HI Hs) Ht1) as (c' & Hs' & Hn & Hg).
    exists c'. split; [by etrans|]. split; [done|]. intros i [[->|Hi]%elem_of_cons|Hi]; apply Hg; [by right|by left|right; by apply Hk].
Qed.

(** ** Properties *)

Lemma steps_gone c c' p : terminal_inv c → rtc step c c' → gone c p → gone c' p.
Proof. intros HI Hs. revert HI. induction Hs; [done|]. intros HI Hg. eapply IHHs; [by eapply terminal_step_inv|]. eapply gone_step; [apply HI|done|done]. Qed.

(** What a goroutine was to end is gone once it has returned. *)
Lemma steps_todo c c' t th p se : terminal_inv c → rtc step c c' → threads c !! t = Some th → heap (svc c) !! p = Some se → info_id (s_info se) ∈ todo th →
  threads c' !! t = None → gone c' p.
Proof.
  intros HI Hs. revert th se HI. induction Hs as [|x y z H1 Hs IH]; intros th se HI Ht Hp Hin Hn; [congruence|].
  pose proof (terminal_step_inv _ _ HI H1) as HI'. destruct (step_todo x y t th p se (ti_registry _ HI) H1 Ht Hp Hin) as [Hg|(th' & Ht' & Hin')]; [by eapply steps_gone|].
  destruct (step_onward x y p se H1 Hp) as (se' & Hp' & Ei & _). eapply IH; try done. by rewrite Ei.
Qed.

Definition opens (th : thread) (owner id : string) : Prop := ∃ shell, role_of th = Opening owner id shell.

(** C11: in every interleaving the slots of an owner are within the limit and
    are exactly its registered sessions and those being opened; only the two
    shells are ever started; a session that nobody can find has its PTY closed and
    its process told to end; and one that nobody has ended is registered, open, and
    has an armed idle timer or a goroutine about to end it. *)
Theorem sessions_accounted cfg c : reachable cfg c →
  (∀ owner, Z.of_nat (size (owned (svc c) owner)) <= MaxSessionsPerOwner (t_cfg (svc c))) ∧
  (∀ owner id, id ∈ owned (svc c) owner ↔ (∃ t th, threads c !! t = Some th ∧ opens th owner id) ∨ ∃ p, t_sessions (svc c) !! id = Some p ∧ belongs (svc c) p owner) ∧
  (∀ p se, heap (svc c) !! p = Some se → info_shell (s_info se) ∈ shells ∧ (t_sessions (svc c) !! info_id (s_info se) = None → ended se) ∧
     (s_once se = NotStarted → t_sessions (svc c) !! info_id (s_info se) = Some p ∧ s_open se = true ∧
        (s_idle se = true ∨ ∃ t th, threads c !! t = Some th ∧ info_id (s_info se) ∈ todo th))).
Proof.
  intros HR. pose proof (reachable_terminal_inv cfg c HR) as [HI HW _ _]. split; [apply HI|]. split.
  - intros owner id. split.
    + intros Hin. destruct (reg_exact _ _ HI owner id Hin) as [(t & shell & Ht)|(p & se & Hl & Hp & Ho)].
      * left. unfold roles in Ht. rewrite lookup_role, fmap_Some in Ht. destruct Ht as (th & ? & ?). exists t, th. split; [done|]. by exists shell.
      * right. exists p. split; [done|]. by exists se.
    + intros [(t & th & Ht & shell & Hr)|(p & Hl & se & Hp & Ho)].
      * pose proof (reg_role _ _ HI t (Opening owner id shell)) as Hok. unfold roles in Hok. rewrite lookup_role, Ht, <- Hr in Hok. specialize (Hok eq_refl). rewrite Hr in Hok. apply Hok.
      * destruct (reg_registered _ _ HI id p Hl) as (x & Hx & _ & Hin). simplify_eq. done.
  - intros p se Hp. destruct (reg_phase _ _ HI p se Hp) as [Hsh Hph]. split; [done|]. split.
    + intros Hn. destruct (unregistered_gone c p se HI Hp Hn) as (x & Hx & He & _). congruence.
    + intros Ho. rewrite Ho in Hph. destruct Hph as (? & ? & _). split_and!; try done. by apply (HW p).
Qed.

(** C24: [CloseOwner] ends every shell of its owner: when it returns, each
    session of the owner that was registered when it was called is gone for good,
    whoever ended it, and it can always return. *)
Theorem CloseOwner_ends_all cfg c t owner ids reason : reachable cfg c → threads c !! t = None → ids ≡ₚ elements (owned (svc c) owner) →
  let called := mkConf (svc c) (<[t := TEnd ids None reason]> (threads c)) in
  (∀ c', rtc step called c' → threads c' !! t = None → ∀ id p, t_sessions (svc c) !! id = Some p → belongs (svc c) p owner → gone c' p) ∧
  ∃ c', rtc step called c' ∧ threads c' !! t = None.
Proof.
  intros HR Ht Hids called. pose proof (reachable_terminal_inv cfg c HR) as HI.
  assert (step c called) as Hs by (apply step_begins; [done|by eapply begins_close_owner]).
  pose proof (terminal_step_inv _ _ HI Hs) as HI'. assert (threads called !! t = Some (TEnd ids None reason)) as Ht' by (cbn; by rewrite lookup_insert_eq). split.
  - intros c' Hs' Hn id p Hl (se & Hp & Ho). destruct (reg_registered _ _ (ti_registry _ HI) id p Hl) as (x & Hx & Hid & Hin). simplify_eq.
    eapply (steps_todo called c' t _ p se HI' Hs' Ht'); [done| |done]. cbn. rewrite Hids. by apply elem_of_elements.
  - destruct (closing_completes ids called t None reason HI' Ht') as (c' & ? & ? & _). eauto.
Qed.

(** the end of a session never panics, and the attached client is told: the
    exit is the last event of its channel, at the cost of at most one event that
    was waiting, and stays so whatever happens later. *)
Theorem exit_is_last_event cfg c n p se a code reason : reachable cfg c → heap (svc c) !! p = Some se → s_current se = Some a →
  ∃ s' x y, endSection n p code reason (svc c) = Some s' ∧ attachments (svc c) !! a = Some x ∧ attachments s' !! a = Some y ∧
    (∃ before lost rest, stream x = before ++ lost ++ rest ∧ stream y = before ++ rest ++ [mkEvent "exited" "" code reason] ∧ (length lost ≤ 1)%nat) ∧
    ∀ T c', rtc step (mkConf s' T) c' → ∃ z, attachments (svc c') !! a = Some z ∧ at_closed z = true ∧ stream z = stream y.
Proof.
  intros HR Hp Ha. pose proof (ti_channels _ (reachable_terminal_inv cfg c HR)) as HC.
  destruct (end_good n p code reason (svc c) HC (ex_intro _ se Hp)) as (s' & He & HC' & _).
  destruct (dismiss_ok n (mkEvent "exited" "" code reason) (svc c) p se HC Hp) as (m & Hm & _ & Hd).
  destruct (Hd a Ha) as (x & y & Hx & Hy & _ & Hcl & Hst).
  assert (attachments s' = m) as Em. { unfold endSection in He. rewrite Hp in He. cbn [mbind option_bind] in He. rewrite Hm in He. cbn in He. by injection He as <-. }
  exists s', x, y. split; [done|]. split; [done|]. split; [by rewrite Em|]. split; [done|]. intros T c' Hs.
  assert (∃ z, attachments (svc (mkConf s' T)) !! a = Some z ∧ at_closed z = true ∧ stream z = stream y) as H0 by (exists y; cbn; by rewrite Em).
  assert (channels_ok (svc (mkConf s' T))) as HC0 by done. revert HC0 H0. induction Hs as [|c1 c2 c3 H12 _ IH]; [done|]. intros HC1 (z & Hz & Hzc & Hzs).
  destruct (step_channels c1 c2 HC1 H12) as [HC2 Hk]. apply IH; [done|]. destruct (Hk a z Hz Hzc) as (z' & ? & ? & Es). exists z'. by rewrite Es.
Qed.

(** C25: requests act only on sessions of their owner and never panic: whatever
    was written to a PTY was asked for by its owner, and every section that a
    goroutine is about to run on a session has a result. *)
Theorem requests_isolated cfg c : reachable cfg c →
  (∀ owner p data, (owner, p, data) ∈ written (svc c) → belongs (svc c) p owner) ∧
  (∀ t th p, threads c !! t = Some th → pointer th = Some p →
     (∀ owner, requester th = Some owner → belongs (svc c) p owner) ∧
     (∀ n a id k size e, attachments (svc c) !! a = None → is_Some (attachSection n p a id k size e (svc c))) ∧
     (∀ id, is_Some (detachSection p id (svc c))) ∧ (∀ owner data, is_Some (inputSection owner p data (svc c))) ∧
     (∀ size e, is_Some (resizeSection p size e (svc c))) ∧
     (∀ chunk, is_Some (outputSection p chunk (svc c))) ∧ (∀ n code reason, is_Some (endSection n p code reason (svc c)))).
Proof.
  intros HR. pose proof (reachable_terminal_inv cfg c HR) as [_ _ HC HQ]. split; [apply HQ|]. intros t th p Ht Hp. split; [intros owner; by eapply (req_owner _ HQ)|].
  pose proof (req_pointer _ HQ t th p Ht Hp) as Hex. split_and!.
  - intros n a id k size e Ha. destruct (attach_good n p a id k size e (svc c) HC Hex Ha) as (r & s' & -> & _). eauto.
  - intros id. destruct (detach_good p id (svc c) HC Hex) as (s' & -> & _). eauto.
  - intros owner data. destruct Hex as [se Hse]. unfold inputSection. rewrite Hse. eauto.
  - intros size e. destruct Hex as [se Hse]. unfold resizeSection. rewrite Hse. eauto.
  - intros chunk. destruct (output_good p chunk (svc c) HC Hex) as (s' & -> & _). eauto.
  - intros n code reason. destruct (end_good n p code reason (svc c) HC Hex) as (s' & -> & _). eauto.
Qed.

(** ** The operations are runs of the interleaving semantics *)

Lemma end_as_steps n id rest code reason s s' t T : T !! t = Some (TEnd (id :: rest) code reason) → endSessionWithCode n id code reason s = Some s' →
  (∀ p se, t_sessions s !! id = Some p → heap s !! p = Some se → s_once se ≠ Running) →
  rtc step (mkConf s T) (mkConf s' (<[t := TEnd rest code reason]> T)).
Proof.
  intros Ht He Hn. unfold endSessionWithCode in He. destruct (t_sessions s !! id) as [p|] eqn:Hl.
  2:{ injection He as <-. apply rtc_once. exact (step_on (mkConf s T) t _ _ _ Ht (runs_gone id rest code reason s Hl)). }
  destruct (heap s !! p) as [se|] eqn:Hp; cbn in He; [|done]. specialize (Hn p se eq_refl Hp).
  eapply rtc_l; [exact (step_on (mkConf s T) t _ _ _ Ht (runs_found id p rest code reason s Hl))|]. cbn [svc threads].
  set (T1 := <[t := TOnce id p rest code reason]> T). assert (T1 !! t = Some (TOnce id p rest code reason)) as H1 by (by unfold T1; rewrite lookup_insert_eq).
  destruct (s_once se) eqn:Ho; [|done|].
  2:{ injection He as <-. replace (<[t := TEnd rest code reason]> T) with (<[t := TEnd rest code reason]> T1) by (unfold T1; by rewrite insert_insert_eq).
      apply rtc_once. exact (step_on (mkConf s T1) t _ _ _ H1 (runs_done id p rest code reason se s Hp Ho)). }
  destruct (endSection n p code reason s) as [s1|] eqn:E1; cbn in He; [|done]. injection He as <-.
  eapply rtc_l; [exact (step_on (mkConf s T1) t _ _ _ H1 (runs_once n id p rest code reason se s s1 Hp Ho E1))|]. cbn [svc threads].
  set (T2 := <[t := TTerminate id p rest code reason]> T1).
  eapply rtc_l; [refine (step_on (mkConf s1 T2) t _ _ _ _ (runs_terminate id p rest code reason s1)); by unfold T2; cbn; rewrite lookup_insert_eq|]. cbn [svc threads].
  set (s2 := terminate p s1). set (T3 := <[t := TUnregister id p rest code reason]> T2).
  eapply rtc_l; [refine (step_on (mkConf s2 T3) t _ _ _ _ (runs_unregister id p rest code reason s2)); by unfold T3; cbn; rewrite lookup_insert_eq|]. cbn [svc threads].
  set (s3 := unregister id p s2). set (T4 := <[t := TClosed id p rest code reason]> T3).
  replace (<[t := TEnd rest code reason]> T) with (<[t := TEnd rest code reason]> T4) by (unfold T4, T3, T2, T1; by rewrite !insert_insert_eq).
  apply rtc_once. refine (step_on (mkConf s3 T4) t _ _ _ _ (runs_closed id p rest code reason s3)). by unfold T4; cbn; rewrite lookup_insert_eq.
Qed.

Lemma delete_new (T : gmap nat thread) t th : T !! t = None → delete t (<[t := th]> T) = T.
Proof. intros H. by rewrite delete_insert_id. Qed.

(** A request that looks a session up and runs one section. *)
Lemma request_steps s s' t th T : T !! t = None → begins s th → runs s th s' None → rtc step (mkConf s T) (mkConf s' T).
Proof.
  intros Ht Hb Hr. eapply rtc_l; [exact (step_begins (mkConf s T) t th Ht Hb)|]. cbn [svc threads].
  pose proof (step_runs (mkConf s (<[t := th]> T)) t th s' None (lookup_insert_eq _ _ _) Hr) as Hs. cbn [threads] in Hs. rewrite delete_new in Hs by done. by apply rtc_once.
Qed.

(** every operation, run without interruption, is a run of the interleaving
    semantics: opening, attaching, detaching, input, resizing and ending. *)
Theorem operations_are_steps s T t t1 t2 : T !! t = None → T !! t1 = None → T !! t2 = None → t1 ≠ t2 → t ≠ t1 → t ≠ t2 →
  (∀ owner stack container shell cols rows connection tokens p a i aid s',
     Open owner stack container shell cols rows connection tokens None p a s = (Ok (i, aid), s') →
     fresh_id (mkConf s T) ("term_" +:+ tokens.1) → heap s !! p = None → attachments s !! a = None →
     rtc step (mkConf s T) (mkConf s' (<[t1 := TForward (info_id i)]> (<[t2 := TWait (info_id i)]> T)))) ∧
  (∀ n owner id cols rows connection token a setsize r s',
     Attach n owner id cols rows connection token a setsize s = Some (r, s') → attachments s !! a = None →
     (∀ p se, heap s !! p = Some se → s_open se = true) → rtc step (mkConf s T) (mkConf s' T)) ∧
  (∀ owner id aid s', Detach owner id aid s = Some s' → rtc step (mkConf s T) (mkConf s' T)) ∧
  (∀ owner id data write r s', Input owner id data write s = Some (r, s') → rtc step (mkConf s T) (mkConf s' T)) ∧
  (∀ owner id cols rows setsize r s', Resize owner id cols rows setsize s = Some (r, s') → rtc step (mkConf s T) (mkConf s' T)) ∧
  (∀ n owner id reason r s', Close n owner id reason s = Some (r, s') →
     (∀ p se, heap s !! p = Some se → s_once se ≠ Running) → rtc step (mkConf s T) (mkConf s' T)).
Proof.
  intros Ht Ht1 Ht2 H12 Htt1 Htt2. split_and!.
  - intros owner stack container shell cols rows connection tokens p a i aid s' Ho Hf Hp Ha. unfold Open in Ho.
    destruct (normalizeShell shell) as [shell'|] eqn:Esh; [|done]. cbn zeta in Ho. cbn [info_id] in Ho. destruct (reserveOwnerSession _ _ s) as [[[]|] s1] eqn:Er; [|done].
    injection Ho as <- <- <-. set (i := mkInfo _ _ _ _) in *. pose proof (reserve_Ok _ _ _ _ Er) as (_ & _ & Hh & Hat & _).
    eapply rtc_l; [exact (step_open (mkConf s T) t owner stack container shell shell' connection _ s1 Ht Hf Esh Er)|]. cbn [svc threads]. fold i.
    eapply rtc_l; [refine (step_on (mkConf s1 (<[t := TOpenStart owner i connection]> T)) t _ _ _ _ (runs_register owner i connection p a ("attach_" +:+ tokens.2) cols rows s1 _ _)); [cbn; by rewrite lookup_insert_eq|by rewrite Hh|by rewrite Hat]|].
    cbn [svc threads]. rewrite insert_insert_eq. set (s2 := registerSession _ _ _ _ _ _ _ _).
    pose proof (step_opened (mkConf s2 (<[t := TOpened i]> T)) t t1 t2 i) as Hs. cbn [svc threads] in Hs. rewrite delete_new in Hs by done. apply rtc_once, Hs; [by rewrite lookup_insert_eq|by rewrite lookup_insert_ne..|done].
  - intros n owner id cols rows connection token a setsize r s' Ha Hfr Hop. unfold Attach in Ha. destruct (lookupOwnedSession owner id s) as [p|] eqn:El; [|by injection Ha as _ <-].
    destruct (attachSection _ _ _ _ _ _ _ _) as [[[i|e] s1]|] eqn:Es; cbn in Ha; [| |done]; injection Ha as _ <-.
    + eapply rtc_l; [exact (step_begins (mkConf s T) t _ Ht (begins_attach _ owner id p connection El))|]. cbn [svc threads].
      eapply rtc_l; [refine (step_on (mkConf s (<[t := TAttach p connection]> T)) t _ _ _ _ (runs_attach _ _ _ _ _ _ _ _ _ _ Hfr Es _)); [cbn; by rewrite lookup_insert_eq|intros se; apply Hop]|].
      cbn [svc threads]. rewrite insert_insert_eq.
      pose proof (step_runs (mkConf s1 (<[t := TAttached i]> T)) t _ _ None (lookup_insert_eq _ _ _) (runs_attached i s1)) as Hs. cbn [threads] in Hs. rewrite delete_new in Hs by done. by apply rtc_once.
    + eapply request_steps; [done|by eapply begins_attach|by eapply runs_attach_failed].
  - intros owner id aid s' Hd. unfold Detach in Hd. destruct (lookupOwnedSession owner id s) as [p|] eqn:El; [|by injection Hd as <-].
    eapply request_steps; [done|by eapply begins_detach|by eapply runs_detach].
  - intros owner id data write r s' Hd. unfold Input in Hd. destruct (lookupOwnedSession owner id s) as [p|] eqn:El; [|by injection Hd as _ <-].
    destruct (inputSection owner p data s) as [s1|] eqn:Es; cbn in Hd; [|done]. injection Hd as _ <-. eapply request_steps; [done|by eapply begins_input|by eapply runs_input].
  - intros owner id cols rows setsize r s' Hd. unfold Resize in Hd. destruct (lookupOwnedSession owner id s) as [p|] eqn:El; [|by injection Hd as _ <-].
    destruct (resizeSection _ _ _ s) as [s1|] eqn:Es; cbn in Hd; [|done]. injection Hd as _ <-. eapply request_steps; [done|by eapply begins_resize|by eapply runs_resize].
  - intros n owner id reason r s' Hd Hn. unfold Close in Hd. destruct (lookupOwnedSession owner id s) as [p|] eqn:El; [|by injection Hd as _ <-].
    destruct (endSessionWithCode n id None reason s) as [s1|] eqn:Es; cbn in Hd; [|done]. injection Hd as _ <-.
    eapply rtc_l; [exact (step_begins (mkConf s T) t _ Ht (begins_close _ owner id p reason El))|]. cbn [svc threads].
    etrans; [eapply (end_as_steps n id [] None reason s s1 t); [by rewrite lookup_insert_eq|done|intros q se _; apply Hn]|]. rewrite insert_insert_eq.
    pose proof (step_runs (mkConf s1 (<[t := TEnd [] None reason]> T)) t _ _ None (lookup_insert_eq _ _ _) (runs_ended None reason s1)) as Hs. cbn [threads] in Hs. rewrite delete_new in Hs by done. by apply rtc_once.
Qed.

(** ** Concrete runs *)

Definition demoTerminalConfig : Config := mkTerminalConfig 0 0 0.
Definition demoInfo : SessionInfo := mkInfo "term_a" "web" "c1" "/bin/sh".
Definition demoStart : Service := NewService demoTerminalConfig.
Definition demoReserved : Service := (reserveOwnerSession "owner" "term_a" demoStart).2.
Definition demoOpening : conf := mkConf demoReserved (<[0%nat := TOpenStart "owner" demoInfo "conn"]> ∅).
Definition demoRegistered : Service := registerSession 0 0 "owner" demoInfo "attach_a" "conn" (winsize 0 0) demoReserved.
Definition demoOpen : conf := mkConf demoRegistered (<[0%nat := TOpened demoInfo]> (threads demoOpening)).

Lemma demoOpening_reachable : reachable demoTerminalConfig demoOpening.
Proof.
  apply rtc_once. apply (step_open (mkConf demoStart ∅) 0 "owner" "web" "c1" "" "/bin/sh" "conn" "term_a" demoReserved); done.
Qed.

Lemma demoOpen_reachable : reachable demoTerminalConfig demoOpen.
Proof.
  eapply rtc_r; [exact demoOpening_reachable|].
  exact (step_on demoOpening 0 _ _ _ eq_refl (runs_register "owner" demoInfo "conn" 0 0 "attach_a" 0 0 demoReserved eq_refl eq_refl)).
Qed.

Lemma sessions_accounted_witness : owned (svc demoOpen) "owner" = {["term_a"]} ∧ Z.of_nat (size (owned (svc demoOpen) "owner")) <= 5.
Proof. split; [vm_compute; reflexivity|]. exact (proj1 (sessions_accounted demoTerminalConfig demoOpen demoOpen_reachable) "owner"). Defined.

Lemma CloseOwner_ends_all_witness : ∃ c', rtc step (mkConf (svc demoOpen) (<[1%nat := TEnd ["term_a"] None "auth_logout"]> (threads demoOpen))) c' ∧ threads c' !! 1%nat = None.
Proof.
  apply (proj2 (CloseOwner_ends_all demoTerminalConfig demoOpen 1 "owner" ["term_a"] "auth_logout" demoOpen_reachable eq_refl
    (reflexivity (R := Permutation) (elements (owned (svc demoOpen) "owner"))))).
Defined.

Lemma exit_is_last_event_witness : ∃ s', endSection 0 0 (Some 0) "process_exit" (svc demoOpen) = Some s' ∧ attachments (svc demoOpen) !! 0%nat = Some (newAttachment "attach_a" "conn").
Proof.
  destruct (exit_is_last_event demoTerminalConfig demoOpen 0 0 _ 0 (Some 0) "process_exit" demoOpen_reachable eq_refl eq_refl) as (s' & x & y & He & Hx & _).
  exists s'. split; [exact He|reflexivity].
Defined.

Definition demoTyping : conf := mkConf (svc demoOpen) (<[1%nat := TInput "owner" 0 "ls"]> (threads demoOpen)).
Lemma demoTyping_reachable : reachable demoTerminalConfig demoTyping.
Proof. eapply rtc_r; [exact demoOpen_reachable|]. exact (step_begins demoOpen 1 (TInput "owner" 0 "ls") eq_refl (begins_input (svc demoOpen) "owner" "term_a" 0 "ls" eq_refl)). Qed.

Lemma requests_isolated_witness : belongs (svc demoTyping) 0 "owner" ∧ is_Some (inputSection "owner" 0 "ls" (svc demoTyping)).
Proof.
  destruct (proj2 (requests_isolated demoTerminalConfig demoTyping demoTyping_reachable) 1%nat (TInput "owner" 0 "ls") 0%nat eq_refl eq_refl) as (Ho & _ & _ & Hi & _).
  split; [exact (Ho "owner" eq_refl)|exact (Hi "owner" "ls")].
Defined.

Lemma operations_are_steps_witness : rtc step (mkConf demoStart ∅)
  (mkConf (Open "owner" "web" "c1" "" 80 24 "conn" ("a", "b") None 0 0 demoStart).2 (<[1%nat := TForward "term_a"]> (<[2%nat := TWait "term_a"]> ∅))).
Proof.
  refine (proj1 (operations_are_steps demoStart ∅ 0 1 2 eq_refl eq_refl eq_refl _ _ _) "owner" "web" "c1" "" 80 24 "conn" ("a", "b") 0%nat 0%nat demoInfo "attach_b" _ _ _ eq_refl eq_refl);
    [discriminate|discriminate|discriminate|reflexivity|]. split; [intros p se H; discriminate H|intros t o i k H; discriminate H].
Defined.

(** A session that is being opened while [CloseOwner] runs is missed: it is not
    registered yet, and is registered after the call has returned. *)
Lemma open_escapes_CloseOwner : ∃ c c', reachable demoTerminalConfig c ∧ threads c !! 1%nat = Some (TEnd (elements (owned (svc c) "owner")) None "auth_logout") ∧
  rtc step c c' ∧ threads c' !! 1%nat = None ∧ t_sessions (svc c') !! "term_a" = Some 0%nat ∧ belongs (svc c') 0 "owner".
Proof.
  set (c1 := mkConf (svc demoOpening) (<[1%nat := TEnd ["term_a"] None "auth_logout"]> (threads demoOpening))).
  set (c2 := mkConf (svc c1) (<[1%nat := TEnd [] None "auth_logout"]> (threads c1))). set (c3 := mkConf (svc c2) (delete 1%nat (threads c2))).
  set (c4 := mkConf demoRegistered (<[0%nat := TOpened demoInfo]> (threads c3))). exists c1, c4. split_and!.
  - eapply rtc_r; [exact demoOpening_reachable|]. refine (step_begins demoOpening 1 (TEnd ["term_a"] None "auth_logout") eq_refl (begins_close_owner (svc demoOpening) "owner" ["term_a"] _ _)). done.
  - vm_compute. reflexivity.
  - eapply rtc_l; [exact (step_on c1 1 _ _ _ eq_refl (runs_gone "term_a" [] None "auth_logout" (svc c1) eq_refl))|].
    eapply rtc_l; [exact (step_runs c2 1 _ _ None eq_refl (runs_ended None "auth_logout" (svc c2)))|]. apply rtc_once.
    exact (step_on c3 0 _ _ _ eq_refl (runs_register "owner" demoInfo "conn" 0 0 "attach_a" 0 0 demoReserved eq_refl eq_refl)).
  - reflexivity.
  - reflexivity.
  - by eexists.
Qed.

(** A connection that attaches while the session ends, before its PTY is closed,
    is attached to a session that is gone: it is never told. *)
Definition demoAttaching : conf := mkConf demoRegistered (<[1%nat := TAttach 0 "conn2"]> (threads demoOpen)).
Definition demoEnding : conf := mkConf demoRegistered (<[2%nat := TOnce "term_a" 0 [] None "idle_timeout"]> (<[2%nat := TEnd ["term_a"] None "idle_timeout"]> (threads demoAttaching))).
Definition demoSection : Service := default demoRegistered (endSection 0 0 None "idle_timeout" demoRegistered).
Definition demoAttachedLate : Service := from_option snd demoSection (attachSection 0 0 1 "attach_c" "conn2" (80, 24) None demoSection).
Definition demoGone : Service := closed 0 "idle_timeout" (unregister "term_a" 0 (terminate 0 demoAttachedLate)).

Definition demoLate : list conf :=
  let T := threads demoEnding in
  let put th := <[2%nat := th "term_a" 0%nat ([] : list string) (None : option Z) "idle_timeout"]> in
  let T1 := put TTerminate T in let T2 := <[1%nat := TAttached demoInfo]> T1 in let T3 := put TUnregister T2 in let T4 := put TClosed T3 in
  [mkConf demoSection T1; mkConf demoAttachedLate T2; mkConf (terminate 0 demoAttachedLate) T3; mkConf (unregister "term_a" 0 (terminate 0 demoAttachedLate)) T4;
   mkConf demoGone (<[2%nat := TEnd [] None "idle_timeout"]> T4)].
Definition late (n : nat) : conf := nth n demoLate demoEnding.

Lemma demoEnding_reachable : reachable demoTerminalConfig demoEnding.
Proof.
  eapply rtc_r; [eapply rtc_r; [eapply rtc_r; [exact demoOpen_reachable|]|]|].
  - exact (step_begins demoOpen 1 (TAttach 0 "conn2") eq_refl (begins_attach (svc demoOpen) "owner" "term_a" 0 "conn2" eq_refl)).
  - refine (step_begins demoAttaching 2 (TEnd ["term_a"] None "idle_timeout") eq_refl (begins_close_all (svc demoAttaching) ["term_a"] _ _)). done.
  - refine (step_on (mkConf demoRegistered (<[2%nat := TEnd ["term_a"] None "idle_timeout"]> (threads demoAttaching))) 2 _ _ _ _ (runs_found "term_a" 0 [] None "idle_timeout" demoRegistered eq_refl)).
    vm_compute. reflexivity.
Qed.

Lemma late_0 : step demoEnding (late 0).
Proof.
  refine (step_on demoEnding 2 (TOnce "term_a" 0 [] None "idle_timeout") demoSection _ _ (runs_once 0 "term_a" 0 [] None "idle_timeout" _ demoRegistered demoSection eq_refl eq_refl _));
    vm_compute; reflexivity.
Qed.
Lemma late_1 : step (late 0) (late 1).
Proof.
  refine (step_on (late 0) 1 (TAttach 0 "conn2") demoAttachedLate _ _ (runs_attach 0 0 1 "attach_c" "conn2" (80, 24) None demoInfo demoSection demoAttachedLate _ _ _));
    [vm_compute; reflexivity..|]. intros se H. vm_compute in H. injection H as <-. reflexivity.
Qed.
Lemma late_2 : step (late 1) (late 2).
Proof. refine (step_on (late 1) 2 (TTerminate "term_a" 0 [] None "idle_timeout") _ _ _ (runs_terminate "term_a" 0 [] None "idle_timeout" demoAttachedLate)). vm_compute; reflexivity. Qed.
Lemma late_3 : step (late 2) (late 3).
Proof. refine (step_on (late 2) 2 (TUnregister "term_a" 0 [] None "idle_timeout") _ _ _ (runs_unregister "term_a" 0 [] None "idle_timeout" _)). vm_compute; reflexivity. Qed.
Lemma late_4 : step (late 3) (late 4).
Proof. refine (step_on (late 3) 2 (TClosed "term_a" 0 [] None "idle_timeout") _ _ _ (runs_closed "term_a" 0 [] None "idle_timeout" _)). vm_compute; reflexivity. Qed.

Lemma attach_outlives_session : ∃ c se x, reachable demoTerminalConfig c ∧ gone c 0 ∧ heap (svc c) !! 0%nat = Some se ∧ s_once se = Finished ∧ s_current se = Some 1%nat ∧
  attachments (svc c) !! 1%nat = Some x ∧ at_closed x = false ∧ stream x = [].
Proof.
  exists (late 4). eexists. eexists. split.
  - exact (rtc_r _ _ _ (rtc_r _ _ _ (rtc_r _ _ _ (rtc_r _ _ _ (rtc_r _ _ _ demoEnding_reachable late_0) late_1) late_2) late_3) late_4).
  - split; [eexists; split; [vm_compute; reflexivity|split; [done|vm_compute; reflexivity]]|]. split; [vm_compute; reflexivity|]. split; [reflexivity|]. split; [reflexivity|].
    split; [vm_compute; reflexivity|done].
Qed.
