(* ===== verification/FileSystem.v ===== *)
(** * A file system, and internal/atomicfile/write.go

    What the workspaces use of the operating system and of [os] and
    [path/filepath]: directories, regular files, symbolic links and other nodes
    at locations, the resolution of paths through links, and the operations that
    look at or change entries.  These model the system and the standard library;
    [stage], [snapshotMetadata] and [commit] are atomicfile/write.go.

    A location is the list of names that lead to a node from the root of the file
    system, through directories only.  An absolute, clean path is a list of names
    too, but its names may be links.  The operations run one after another: a file
    system that changes while one of them runs is outside the model. *)

From stdpp Require Import gmap strings list.
From Stdlib Require Import ZArith Ascii.
From S2P Require Import Prelude GoStrings GoPath GoTime.

Local Open Scope Z_scope.

Abbreviation location := (list string).

Inductive errno := ENOENT | ENOTDIR | EACCES | ELOOP | EEXIST | EISDIR | EESCAPE | EIO (message : string).
#[global] Instance errno_eq_dec : EqDecision errno.
Proof. solve_decision. Defined.

Record fileNode := mkFileNode { f_content : string; f_mode : Z; f_modified : Time }.
Inductive node := NDir | NFile (f : fileNode) | NLink (target : string) | NOther.

(** The nodes, what the process may do at a location (search a directory, read,
    write), and the modification times of nodes that are not regular files. *)
Record fs := mkFS {
  nodes : gmap location node; searchable : location → bool; readable : location → bool; writable : location → bool; stamps : location → Time }.

Definition with_nodes (m : fs) (n : gmap location node) : fs := mkFS n (searchable m) (readable m) (writable m) (stamps m).

(** The names that an entry of a directory can have. *)
Definition name_ok (n : string) : Prop := component n ∧ n ≠ "." ∧ n ≠ "..".

Definition fs_ok (m : fs) : Prop :=
  nodes m !! [] = Some NDir ∧
  ∀ l n, is_Some (nodes m !! (l ++ [n])) → nodes m !! l = Some NDir ∧ name_ok n.

(** ** Resolution of paths *)

(** The entry of a directory. *)
Definition entry (m : fs) (dir : location) (name : string) : res errno node :=
  if negb (searchable m dir) then Err EACCES
  else match nodes m !! (dir ++ [name]) with Some n => Ok n | None => Err ENOENT end.

(** The walk below [base], which [..] and absolute links leave only when it is
    not [rooted]; [links] is how many links may be followed. *)
Fixpoint walk (links : nat) (rooted : bool) (base : location) (m : fs) : location → list string → res errno location :=
  fix go (dest : location) (path : list string) : res errno location :=
    match path with
    | [] => Ok (base ++ dest)
    | p :: rest =>
      if str_in p [""; "."] then go dest rest
      else if str_eqb p ".." then
        match dest with
        | [] => if rooted then Err EESCAPE else go [] rest
        | _ => go (removelast dest) rest
        end
      else
        match entry m (base ++ dest) p with
        | Err e => Err e
        | Ok NDir => go (dest ++ [p]) rest
        | Ok (NLink target) =>
          match links with
          | O => Err ELOOP
          | S k =>
            if is_abs target then if rooted then Err EESCAPE else walk k rooted base m [] (split target "/" ++ rest)
            else walk k rooted base m dest (split target "/" ++ rest)
          end
        | Ok _ => if bool_decide (rest = []) then Ok (base ++ dest ++ [p]) else Err ENOTDIR
        end
    end.

(** The limits of [filepath.EvalSymlinks] and of the kernel. *)
Definition EvalSymlinks (m : fs) (path : list string) : res errno location := walk 255 false [] m [] path.
Definition resolve (m : fs) (path : list string) : res errno location := walk 40 false [] m [] path.

Definition Stat (m : fs) (path : list string) : res errno (location * node) :=
  let? loc := resolve m path in
  match nodes m !! loc with Some n => Ok (loc, n) | None => Err ENOENT end.

(** The directory of a path, and the last name, which is not followed. *)
Definition parent_of (m : fs) (path : list string) : res errno location :=
  let? loc := resolve m (removelast path) in
  match nodes m !! loc with Some NDir => Ok loc | Some _ => Err ENOTDIR | None => Err ENOENT end.

Definition Lstat (m : fs) (path : list string) : res errno node :=
  match last path with
  | None => match nodes m !! [] with Some n => Ok n | None => Err ENOENT end
  | Some name => let? dir := parent_of m path in entry m dir name
  end.

(** ** Changes *)

Definition Mkdir (m : fs) (path : list string) : res errno fs :=
  match last path with
  | None => Err EEXIST
  | Some name =>
    let? dir := parent_of m path in
    match entry m dir name with
    | Ok _ => Err EEXIST
    | Err ENOENT => if writable m dir then Ok (with_nodes m (<[dir ++ [name] := NDir]> (nodes m))) else Err EACCES
    | Err e => Err e
    end
  end.

(** [os.MkdirAll], on the reversed path. *)
Fixpoint mkdirAll (m : fs) (rpath : list string) : option errno * fs :=
  match Stat m (rev rpath) with
  | Ok (_, NDir) => (None, m)
  | Ok _ => (Some ENOTDIR, m)
  | Err e0 =>
    match rpath with
    | [] => (Some e0, m)
    | _ :: parent =>
      match mkdirAll m parent with
      | (Some e, m) => (Some e, m)
      | (None, m) =>
        match Mkdir m (rev rpath) with
        | Ok m => (None, m)
        | Err e => match Lstat m (rev rpath) with Ok NDir => (None, m) | _ => (Some e, m) end
        end
      end
    end
  end.
Definition MkdirAll (m : fs) (path : list string) : option errno * fs := mkdirAll m (rev path).

(** ** internal/atomicfile/write.go *)

(** The name of the temporary file and the errors of the steps: writing it with
    its metadata, renaming it, and syncing the directory. *)
Record writeEnv := mkWriteEnv {
  we_temp : string; we_now : Time; we_fail : option string; we_rename : option string; we_sync : option string }.

Definition defaultFileMode : Z := 420.

Definition snapshotMetadata (m : fs) (path : list string) : res errno Z :=
  match Stat m path with
  | Err ENOENT => Ok defaultFileMode
  | Err e => Err e
  | Ok (_, NFile f) => Ok (f_mode f)
  | Ok _ => Err (EIO "destination is not a regular file")
  end.

(** The staged replacement: the directory and the name of the temporary file. *)
Definition stage (env : writeEnv) (path : list string) (content : string) (m : fs) : res errno location * fs :=
  match MkdirAll m (removelast path) with
  | (Some e, m) => (Err e, m)
  | (None, m) =>
    match snapshotMetadata m path with
    | Err e => (Err e, m)
    | Ok mode =>
      match parent_of m path with
      | Err e => (Err e, m)
      | Ok dir =>
        match entry m dir (we_temp env) with
        | Ok _ => (Err EEXIST, m)
        | Err ENOENT =>
          if negb (writable m dir) then (Err EACCES, m)
          else match we_fail env with
          | Some message => (Err (EIO message), m)
          | None => (Ok dir, with_nodes m (<[dir ++ [we_temp env] := NFile (mkFileNode content mode (we_now env))]> (nodes m)))
          end
        | Err e => (Err e, m)
        end
      end
    end
  end.

(** [commit], which always removes the temporary name. *)
Definition commit (env : writeEnv) (path : list string) (dir : location) (m : fs) : option errno * fs :=
  let temp := dir ++ [we_temp env] in
  let renamed :=
    match we_rename env, last path, nodes m !! temp with
    | Some message, _, _ => Err (EIO message)
    | None, Some name, Some n =>
      match nodes m !! (dir ++ [name]) with
      | Some NDir => Err EISDIR
      | _ => Ok (with_nodes m (<[dir ++ [name] := n]> (delete temp (nodes m))))
      end
    | None, _, _ => Err ENOENT
    end in
  match renamed with
  | Err e => (Some e, with_nodes m (delete temp (nodes m)))
  | Ok m => (EIO <$> we_sync env, with_nodes m (delete temp (nodes m)))
  end.

Definition WriteStringAdoptingOwnership (env : writeEnv) (path : list string) (content : string) (m : fs) : option errno * fs :=
  match stage env path content m with
  | (Err e, m) => (Some e, m)
  | (Ok dir, m) => commit env path dir m
  end.

(** ** Lemmas *)

Lemma walk_nil links rooted base m dest : walk links rooted base m dest [] = Ok (base ++ dest).
Proof. by destruct links. Qed.

Lemma walk_cons links rooted base m dest p rest : walk links rooted base m dest (p :: rest) =
  if str_in p [""; "."] then walk links rooted base m dest rest
  else if str_eqb p ".." then
    match dest with
    | [] => if rooted then Err EESCAPE else walk links rooted base m [] rest
    | _ => walk links rooted base m (removelast dest) rest
    end
  else
    match entry m (base ++ dest) p with
    | Err e => Err e
    | Ok NDir => walk links rooted base m (dest ++ [p]) rest
    | Ok (NLink target) =>
      match links with
      | O => Err ELOOP
      | S k =>
        if is_abs target then if rooted then Err EESCAPE else walk k rooted base m [] (split target "/" ++ rest)
        else walk k rooted base m dest (split target "/" ++ rest)
      end
    | Ok _ => if bool_decide (rest = []) then Ok (base ++ dest ++ [p]) else Err ENOTDIR
    end.
Proof. by destruct links. Qed.

Lemma entry_Ok m dir name n : entry m dir name = Ok n → nodes m !! (dir ++ [name]) = Some n.
Proof. unfold entry. destruct (negb _); [done|]. destruct (nodes m !! _); [|done]. by intros [= ->]. Qed.

(** Everything above a node is a directory. *)
Lemma above_dir m l1 l2 : fs_ok m → is_Some (nodes m !! (l1 ++ l2)) → l2 ≠ [] → nodes m !! l1 = Some NDir.
Proof.
  intros [_ Hok]. revert l1. induction l2 as [|x l2 IH] using rev_ind; intros l1 Hs Hne; [done|]. rewrite app_assoc in Hs.
  destruct (Hok _ _ Hs) as [Hd _]. destruct (decide (l2 = [])) as [->|?]; [by rewrite app_nil_r in Hd|]. apply IH; [by eexists|done].
Qed.

Lemma names_ok m l : fs_ok m → is_Some (nodes m !! l) → Forall name_ok l.
Proof.
  intros Hok. induction l as [|x l IH] using rev_ind; intros Hs; [constructor|]. destruct (proj2 Hok _ _ Hs) as [Hd Hx].
  apply Forall_app. split; [apply IH; by eexists|by constructor].
Qed.

(** A node that is not a link. *)
Definition real (m : fs) (l : location) : Prop := ∃ n, nodes m !! l = Some n ∧ ∀ t, n ≠ NLink t.

Lemma real_root m : fs_ok m → real m [].
Proof. intros [H _]. by exists NDir. Qed.

Lemma dir_real m l : nodes m !! l = Some NDir → real m l.
Proof. intros H. by exists NDir. Qed.

Lemma removelast_dir m base dest : fs_ok m → nodes m !! (base ++ dest) = Some NDir → nodes m !! base = Some NDir → nodes m !! (base ++ removelast dest) = Some NDir.
Proof.
  intros Hok Hd Hb. destruct dest as [|x dest _] using rev_ind; [by rewrite app_nil_r|]. rewrite removelast_last. apply (above_dir m _ [x] Hok); [|done].
  rewrite <- app_assoc. by eexists.
Qed.

(** A walk ends at a node that is not a link, below its base. *)
Lemma walk_real links rooted base m dest path loc : fs_ok m → nodes m !! base = Some NDir → nodes m !! (base ++ dest) = Some NDir →
  walk links rooted base m dest path = Ok loc → real m loc ∧ base `prefix_of` loc.
Proof.
  intros Hok Hb. revert dest path. induction links as [links IHl] using lt_wf_ind. intros dest path. revert dest.
  induction path as [|p rest IH]; intros dest Hd.
  - rewrite walk_nil. intros [= <-]. split; [by apply dir_real|by apply prefix_app_r].
  - rewrite walk_cons. destruct (str_in p _); [by apply IH|]. destruct (str_eqb p "..").
    + destruct dest as [|x dest]; [destruct rooted; [done|by apply IH]|]. apply IH. by apply removelast_dir.
    + destruct (entry m (base ++ dest) p) as [n|e] eqn:E; [|done]. apply entry_Ok in E. rewrite <- app_assoc in E. destruct n as [|f|target|].
      * apply IH. done.
      * case_bool_decide; [|done]. intros [= <-]. split; [by eexists|by apply prefix_app_r].
      * destruct links as [|k]; [done|]. destruct (is_abs target); [destruct rooted; [done|]|]; intros H; [refine (IHl k _ [] _ _ H); [lia|by rewrite app_nil_r]|refine (IHl k _ dest _ Hd H); lia].
      * case_bool_decide; [|done]. intros [= <-]. split; [by eexists|by apply prefix_app_r].
Qed.

Lemma EvalSymlinks_real m path loc : fs_ok m → EvalSymlinks m path = Ok loc → real m loc.
Proof. unfold EvalSymlinks. intros Hok H. pose proof (proj1 Hok) as Hr. exact (proj1 (walk_real 255 false [] m [] path loc Hok Hr Hr H)). Qed.
Lemma resolve_real m path loc : fs_ok m → resolve m path = Ok loc → real m loc.
Proof. unfold resolve. intros Hok H. pose proof (proj1 Hok) as Hr. exact (proj1 (walk_real 40 false [] m [] path loc Hok Hr Hr H)). Qed.

Lemma name_ok_plain n : name_ok n → str_in n [""; "."] = false ∧ str_eqb n ".." = false.
Proof.
  intros ([Hne _] & Hd & Hdd). split; apply bool_decide_eq_false_2; [|done]. rewrite !elem_of_cons. intros [?|[?|Hx]]; [done..|by apply elem_of_nil in Hx].
Qed.

(** A path without links leads to where it says, unless a directory may not be
    searched. *)
Lemma walk_straight links m dest rest : fs_ok m → real m (dest ++ rest) →
  walk links false [] m dest rest = Ok (dest ++ rest) ∨ walk links false [] m dest rest = Err EACCES.
Proof.
  intros Hok. revert dest. induction rest as [|p rest IH]; intros dest Hr; [left; by rewrite walk_nil, app_nil_r|].
  pose proof Hr as (n & Hn & Hl). assert (Forall name_ok (dest ++ p :: rest)) as Hnames by (apply (names_ok m); [done|by eexists]).
  apply Forall_app in Hnames as [_ [Hp _]%Forall_cons]. apply name_ok_plain in Hp as [E1 E2].
  rewrite walk_cons, E1, E2. cbn [app]. unfold entry. destruct (negb (searchable m dest)); [by right|].
  destruct (decide (rest = [])) as [->|Hne].
  - rewrite Hn. destruct n as [|f|t|]; [|by left|by specialize (Hl t)|by left]. rewrite walk_nil. by left.
  - assert (nodes m !! (dest ++ [p]) = Some NDir) as ->. { apply (above_dir m _ rest Hok); [rewrite <- app_assoc; by eexists|done]. }
    specialize (IH (dest ++ [p])). rewrite <- app_assoc in IH. by apply IH.
Qed.

Lemma EvalSymlinks_straight m loc : fs_ok m → real m loc → EvalSymlinks m loc = Ok loc ∨ EvalSymlinks m loc = Err EACCES.
Proof. intros Hok Hr. exact (walk_straight 255 m [] loc Hok Hr). Qed.
Lemma resolve_straight m loc : fs_ok m → real m loc → resolve m loc = Ok loc ∨ resolve m loc = Err EACCES.
Proof. intros Hok Hr. exact (walk_straight 40 m [] loc Hok Hr). Qed.
#[global] Opaque walk.

Lemma Stat_straight m loc n : fs_ok m → nodes m !! loc = Some n → (∀ t, n ≠ NLink t) → Stat m loc = Ok (loc, n) ∨ Stat m loc = Err EACCES.
Proof.
  intros Hok Hn Hl. unfold Stat. destruct (resolve_straight m loc Hok) as [-> | ->]; [by eexists| |by right]. cbn. rewrite Hn. by left.
Qed.

Lemma parent_straight m dir name : fs_ok m → nodes m !! dir = Some NDir → parent_of m (dir ++ [name]) = Ok dir ∨ parent_of m (dir ++ [name]) = Err EACCES.
Proof.
  intros Hok Hd. unfold parent_of. rewrite removelast_last. destruct (resolve_straight m dir Hok (dir_real _ _ Hd)) as [-> | ->]; [|by right]. cbn. rewrite Hd. by left.
Qed.

(** Making a directory that exists changes nothing. *)
Lemma mkdirAll_there m dir : fs_ok m → nodes m !! dir = Some NDir → ∃ e, MkdirAll m dir = (e, m).
Proof.
  intros Hok. unfold MkdirAll. rewrite <- (List.rev_involutive dir) at 1. generalize (rev dir) as rpath. clear dir.
  induction rpath as [|x rpath IH]; intros Hd.
  - cbn. destruct (Stat_straight m [] NDir Hok Hd) as [-> | ->]; [done|by eexists|by eexists].
  - cbn [mkdirAll]. destruct (Stat_straight m (rev (x :: rpath)) NDir Hok Hd) as [-> | ->]; [done|by eexists|].
    cbn [rev] in *. destruct IH as [e ->]; [apply (above_dir m _ [x] Hok); [by eexists|done]|]. destruct e as [e|]; [by eexists|].
    unfold Mkdir, Lstat. rewrite last_snoc. assert (nodes m !! rev rpath = Some NDir) as Hp by (apply (above_dir m _ [x] Hok); [by eexists|done]).
    destruct (parent_straight m (rev rpath) x Hok Hp) as [-> | ->]; [|by eexists]. cbn. unfold entry. destruct (negb _); [by eexists|]. rewrite Hd. by eexists.
Qed.

Lemma parent_dir m path dir : fs_ok m → parent_of m path = Ok dir → nodes m !! dir = Some NDir.
Proof.
  intros Hok. unfold parent_of. destruct (resolve m (removelast path)) as [loc|]; cbn; [|done]. destruct (nodes m !! loc) as [[]|] eqn:E; try done. by intros [= <-].
Qed.

(** A new entry of a directory. *)
Lemma insert_ok m dir name n : fs_ok m → nodes m !! dir = Some NDir → name_ok name → (n = NDir ∨ nodes m !! (dir ++ [name]) ≠ Some NDir) →
  fs_ok (with_nodes m (<[dir ++ [name] := n]> (nodes m))).
Proof.
  intros Hok Hd Hn Hkeep. pose proof Hok as [Hr Hc]. split.
  - cbn. rewrite lookup_insert_ne by (by destruct dir). done.
  - intros l k. cbn. destruct (decide (l ++ [k] = dir ++ [name])) as [E|Hne].
    + apply app_inj_tail in E as [-> ->]. intros _. split; [|done]. destruct (decide (dir ++ [name] = dir)) as [E|?]; [|by rewrite lookup_insert_ne].
      exfalso. apply (f_equal length) in E. rewrite length_app in E. cbn in E. lia.
    + rewrite lookup_insert_ne by done. intros Hs. destruct (Hc l k Hs) as [Hl Hk]. split; [|done].
      destruct (decide (dir ++ [name] = l)) as [<-|?]; [|by rewrite lookup_insert_ne]. rewrite lookup_insert_eq. destruct Hkeep as [->|Hx]; [done|].
      by rewrite Hl in Hx.
Qed.

Lemma delete_ok m dir name : fs_ok m → nodes m !! (dir ++ [name]) ≠ Some NDir → fs_ok (with_nodes m (delete (dir ++ [name]) (nodes m))).
Proof.
  intros [Hr Hc] Hn. split.
  - cbn. rewrite lookup_delete_ne by (by destruct dir). done.
  - intros l k. cbn. intros [n [Hne Hs]%lookup_delete_Some]. destruct (Hc l k) as [Hl Hk]; [by eexists|]. split; [|done].
    rewrite lookup_delete_ne; [done|]. intros <-. congruence.
Qed.

(** A path none of whose names is a link. *)
Definition straight (m : fs) (root : location) (rel : list string) : Prop := ∀ q t, q `prefix_of` rel → nodes m !! (root ++ q) ≠ Some (NLink t).

Lemma straight_app m root rel x : straight m root (rel ++ [x]) → straight m root rel.
Proof. intros H q t Hq. apply H. etrans; [done|by apply prefix_app_r]. Qed.

Lemma straight_real m loc : fs_ok m → real m loc → straight m [] loc.
Proof.
  intros Hok (n & Hn & Hl) q t [k ->]. destruct (decide (k = [])) as [->|Hne]; [rewrite app_nil_r in Hn; cbn; rewrite Hn; intros [= ->]; by apply (Hl t)|].
  cbn. by rewrite (above_dir m q k Hok (ex_intro _ n Hn) Hne).
Qed.

Lemma prefix_app_or {A} (q l1 l2 : list A) : q `prefix_of` l1 ++ l2 → q `prefix_of` l1 ∨ ∃ k, q = l1 ++ k ∧ k `prefix_of` l2.
Proof.
  intros [r E]. apply app_eq_inv in E as [(k & -> & ->)|(k & -> & ->)]; [left; by apply prefix_app_r|right].
  exists k. split; [done|]. by apply prefix_app_r.
Qed.

Lemma straight_from m root rel : fs_ok m → real m root → straight m root rel → straight m [] (root ++ rel).
Proof.
  intros Hok Hr Hs q t Hq. cbn. destruct (prefix_app_or q root rel Hq) as [Hq'|(k & -> & Hk)].
  - by apply (straight_real m root Hok Hr q t).
  - by apply Hs.
Qed.

Lemma walk_no_links links m dest rest loc : (∀ q t, q `prefix_of` rest → nodes m !! (dest ++ q) ≠ Some (NLink t)) → Forall name_ok rest →
  walk links false [] m dest rest = Ok loc → loc = dest ++ rest.
Proof.
  revert dest. induction rest as [|p rest IH]; intros dest Hs Hn; [rewrite walk_nil; intros [= <-]; by rewrite app_nil_r|].
  apply Forall_cons in Hn as [Hp Hn]. apply name_ok_plain in Hp as [E1 E2]. rewrite walk_cons, E1, E2. cbn [app].
  destruct (entry m dest p) as [n|e] eqn:E; [|done]. apply entry_Ok in E.
  assert (∀ t, n ≠ NLink t) as Hl. { intros t ->. apply (Hs [p] t); [apply prefix_cons, prefix_nil|done]. }
  destruct n as [|f|t|]; [|case_bool_decide; [|done]; intros [= <-]; by subst|by specialize (Hl t)|case_bool_decide; [|done]; intros [= <-]; by subst].
  intros H. apply IH in H as ->; [by rewrite <- app_assoc| |done]. intros q t Hq. rewrite <- app_assoc. apply (Hs (p :: q)). by apply prefix_cons.
Qed.

Lemma resolve_no_links m path loc : straight m [] path → Forall name_ok path → resolve m path = Ok loc → loc = path.
Proof. unfold resolve. intros Hs Hn H. exact (walk_no_links 40 m [] path loc Hs Hn H). Qed.

(** Only new directories on the way to [root ++ rel]. *)
Definition grown (m m' : fs) (root : location) (rel : list string) : Prop :=
  ∀ l, nodes m' !! l = nodes m !! l ∨ (nodes m !! l = None ∧ nodes m' !! l = Some NDir ∧ ∃ q, q ≠ [] ∧ q `prefix_of` rel ∧ l = root ++ q).

Lemma grown_refl m root rel : grown m m root rel.
Proof. intros l. by left. Qed.

Lemma grown_straight m m' root rel rel' : grown m m' root rel → straight m root rel' → straight m' root rel'.
Proof. intros Hg Hs q t Hq. destruct (Hg (root ++ q)) as [-> |(_ & -> & _)]; [by apply Hs|done]. Qed.

Lemma mkdirAll_straight rel m root : fs_ok m → nodes m !! root = Some NDir → Forall name_ok rel → straight m root rel →
  ∃ e m', MkdirAll m (root ++ rel) = (e, m') ∧ fs_ok m' ∧ grown m m' root rel ∧ (e = None → nodes m' !! (root ++ rel) = Some NDir) ∧ m' = with_nodes m (nodes m').
Proof.
  intros Hok Hroot. assert (Forall name_ok root) as Hrn by (apply (names_ok m); [done|by eexists]).
  unfold MkdirAll. induction rel as [|x rel IH] using rev_ind; intros Hn Hs.
  - rewrite app_nil_r. destruct (mkdirAll_there m root Hok Hroot) as [e He]. unfold MkdirAll in He. exists e, m. rewrite He. split_and!; [done|done|apply grown_refl|done|by destruct m].
  - apply Forall_app in Hn as [Hn Hx]. apply Forall_cons in Hx as [Hx _]. specialize (IH Hn (straight_app _ _ _ _ Hs)).
    assert (rev (root ++ rel ++ [x]) = x :: rev (root ++ rel)) as E by (rewrite app_assoc, rev_app_distr; done). rewrite E. cbn [mkdirAll].
    assert (rev (x :: rev (root ++ rel)) = root ++ rel ++ [x]) as E' by (cbn [rev]; rewrite List.rev_involutive; by rewrite <- app_assoc). rewrite E'.
    assert (Forall name_ok (root ++ rel ++ [x])) as Hall by (rewrite !Forall_app; split_and!; [done|done|by constructor]).
    destruct (Stat m (root ++ rel ++ [x])) as [[loc n]|e0] eqn:Est.
    { unfold Stat in Est. destruct (resolve m _) as [loc'|] eqn:Er; cbn in Est; [|done]. destruct (nodes m !! loc') eqn:El; [|done]. injection Est as -> ->.
      apply resolve_no_links in Er; [|by apply straight_from; [|by apply dir_real|]|done]. subst loc.
      destruct n; (eexists; exists m; split; [reflexivity|]; split_and!; [done|apply grown_refl|done|by destruct m]). }
    destruct IH as (e & m1 & -> & Hok1 & Hg1 & Hd1 & Hm1). destruct e as [e|].
    { exists (Some e), m1. split_and!; try done. intros l. destruct (Hg1 l) as [?|(? & ? & q & ? & Hq & ?)]; [by left|right]. split_and!; try done.
      exists q. split_and!; try done. etrans; [done|by apply prefix_app_r]. }
    assert (grown m m1 root (rel ++ [x])) as Hg1'.
    { intros l. destruct (Hg1 l) as [?|(? & ? & q & ? & Hq & ?)]; [by left|right]. split_and!; try done. exists q. split_and!; try done. etrans; [done|by apply prefix_app_r]. }
    specialize (Hd1 eq_refl).
    assert (nodes m1 !! root = Some NDir) as Hroot1 by (destruct (Hg1 root) as [-> |(? & ? & _)]; congruence).
    assert (straight m1 root rel) as Hs1 by (eapply grown_straight; [done|by eapply straight_app]).
    unfold Mkdir, Lstat. rewrite app_assoc, last_snoc. rewrite Forall_app in Hall.
    destruct (parent_straight m1 (root ++ rel) x Hok1 Hd1) as [-> | ->]; cbn [res_bind].
    2:{ exists (Some EACCES), m1. split_and!; done. }
    destruct (entry m1 (root ++ rel) x) as [n|e] eqn:Een; cbn.
    { apply entry_Ok in Een. destruct n; (eexists; exists m1; split; [reflexivity|]; split_and!; done). }
    destruct e; try (eexists; exists m1; split; [reflexivity|]; split_and!; done).
    destruct (writable m1 (root ++ rel)); [|eexists; exists m1; split; [reflexivity|]; split_and!; done].
    eexists None, _. split; [reflexivity|]. unfold entry in Een. destruct (negb _); [done|]. destruct (nodes m1 !! ((root ++ rel) ++ [x])) eqn:En; [done|]. split_and!.
    + apply insert_ok; try done. by left.
    + intros l. cbn. destruct (decide (l = (root ++ rel) ++ [x])) as [->|?]; [|rewrite lookup_insert_ne by done; apply Hg1'].
      right. rewrite lookup_insert_eq. split_and!; [|done|].
      * destruct (Hg1 ((root ++ rel) ++ [x])) as [<- |(? & ? & _)]; [done|congruence].
      * exists (rel ++ [x]). split_and!; [by destruct rel|done|by rewrite app_assoc].
    + intros _. cbn. by rewrite lookup_insert_eq.
    + rewrite Hm1. done.
Qed.

(** Replacing a file: only the entry itself changes, to the new content. *)
Lemma write_spec env dir name content m : fs_ok m → nodes m !! dir = Some NDir → name_ok name → name_ok (we_temp env) →
  ∃ e m', WriteStringAdoptingOwnership env (dir ++ [name]) content m = (e, m') ∧ fs_ok m' ∧ m' = with_nodes m (nodes m') ∧
    (nodes m' = nodes m ∧ (e = None → we_temp env = name ∧ nodes m !! (dir ++ [name]) = None) ∨
     ∃ mode, nodes m' = <[dir ++ [name] := NFile (mkFileNode content mode (we_now env))]> (nodes m) ∧ nodes m !! (dir ++ [name]) ≠ Some NDir).
Proof.
  intros Hok Hd Hn Ht. unfold WriteStringAdoptingOwnership, stage. rewrite removelast_last. destruct (mkdirAll_there m dir Hok Hd) as [e ->].
  assert (∀ e, ∃ e' m', (Some e : option errno, m) = (e', m') ∧ fs_ok m' ∧ m' = with_nodes m (nodes m') ∧
    (nodes m' = nodes m ∧ (e' = None → we_temp env = name ∧ nodes m !! (dir ++ [name]) = None) ∨ ∃ mode, nodes m' = <[dir ++ [name] := NFile (mkFileNode content mode (we_now env))]> (nodes m) ∧ nodes m !! (dir ++ [name]) ≠ Some NDir)) as Hfail.
  { intros e0. exists (Some e0), m. split_and!; [done|done|by destruct m|by left]. }
  destruct e as [e|]; [apply Hfail|]. destruct (snapshotMetadata m (dir ++ [name])) as [mode|]; [|apply Hfail].
  destruct (parent_straight m dir name Hok Hd) as [-> | ->]; [|apply Hfail]. destruct (entry m dir (we_temp env)) as [n|e] eqn:Ee; [apply Hfail|].
  destruct e; try apply Hfail. destruct (negb (writable m dir)); [apply Hfail|]. destruct (we_fail env); [apply Hfail|].
  assert (nodes m !! (dir ++ [we_temp env]) = None) as Hnone by (unfold entry in Ee; destruct (negb _); [done|]; by destruct (nodes m !! (dir ++ [we_temp env]))).
  unfold commit. cbn [nodes with_nodes]. rewrite last_snoc, lookup_insert_eq.
  set (new := NFile (mkFileNode content mode (we_now env))).
  assert (delete (dir ++ [we_temp env]) (<[dir ++ [we_temp env] := new]> (nodes m)) = nodes m) as Hdel by (by rewrite delete_insert_id).
  destruct (we_rename env) as [msg|].
  { eexists (Some _), _. split; [reflexivity|]. cbn. rewrite Hdel. split_and!; [by destruct m|done|left; split; [done|discriminate]]. }
  destruct (decide (name = we_temp env)) as [->|Hne].
  { rewrite lookup_insert_eq. cbn. rewrite Hdel. eexists _, _. split; [reflexivity|]. cbn. rewrite delete_insert_id by done. split_and!; [by destruct m|done|]. left. split; [done|done]. }
  assert (dir ++ [name] ≠ dir ++ [we_temp env]) as Hne' by (intros E; apply app_inj_tail in E as [_ ?]; done).
  rewrite lookup_insert_ne by done. destruct (nodes m !! (dir ++ [name])) as [old|] eqn:Eo.
  - assert (old = NDir ∨ old ≠ NDir) as [->|Hnd] by (destruct old; auto).
    { eexists (Some _), _. split; [reflexivity|]. cbn. rewrite Hdel. split_and!; [by destruct m|done|left; split; [done|discriminate]]. }
    assert (∀ A (a b : A), match old with NDir => a | _ => b end = b) as Hm by (intros; by destruct old). rewrite Hm. cbn [with_nodes nodes]. rewrite Hdel.
    eexists _, _. split; [reflexivity|]. cbn. rewrite (delete_id (<[dir ++ [name] := new]> (nodes m))) by (by rewrite lookup_insert_ne).
    split_and!; [change (fs_ok (with_nodes m (<[dir ++ [name] := new]> (nodes m)))); apply insert_ok; try done; right; rewrite Eo; congruence|done|right; exists mode; split; [done|congruence]].
  - cbn [with_nodes nodes]. rewrite Hdel. eexists _, _. split; [reflexivity|]. cbn. rewrite (delete_id (<[dir ++ [name] := new]> (nodes m))) by (by rewrite lookup_insert_ne).
    split_and!; [change (fs_ok (with_nodes m (<[dir ++ [name] := new]> (nodes m)))); apply insert_ok; try done; right; by rewrite Eo|done|right; exists mode; done].
Qed.

(** More links may be followed without another result. *)
Lemma walk_mono k k' m dest path loc : (k ≤ k')%nat → walk k false [] m dest path = Ok loc → walk k' false [] m dest path = Ok loc.
Proof.
  revert k' dest path. induction k as [k IHk] using lt_wf_ind. intros k' dest path Hle. revert dest. induction path as [|p rest IH]; intros dest; [by rewrite !walk_nil|].
  rewrite !walk_cons. destruct (str_in p _); [apply IH|]. destruct (str_eqb p ".."); [destruct dest; apply IH|].
  destruct (entry m ([] ++ dest) p) as [[|f|target|]|]; try done; [apply IH|]. destruct k as [|k]; [done|]. destruct k' as [|k']; [lia|].
  destruct (is_abs target); apply IHk; lia.
Qed.

(** A walk passes through the directory of its last name. *)
Lemma walk_last k m dest l x loc : fs_ok m → nodes m !! dest = Some NDir → name_ok x → walk k false [] m dest (l ++ [x]) = Ok loc →
  ∃ j d, (j ≤ k)%nat ∧ walk k false [] m dest l = Ok d ∧ nodes m !! d = Some NDir ∧ walk j false [] m d [x] = Ok loc.
Proof.
  intros Hok. revert dest l. induction k as [k IHk] using lt_wf_ind. intros dest l. revert dest. induction l as [|p l IH]; intros dest Hd Hx.
  - cbn [app]. intros H. exists k, dest. rewrite walk_nil. done.
  - cbn [app]. rewrite !walk_cons. destruct (str_in p _); [by apply IH|]. destruct (str_eqb p "..").
    { destruct dest as [|y dest]; [by apply IH|]. apply IH; [|done]. apply (removelast_dir m [] (y :: dest) Hok Hd (proj1 Hok)). }
    cbn [app]. destruct (entry m dest p) as [[|f|target|]|] eqn:E; try done.
    + apply entry_Ok in E. by apply IH.
    + rewrite bool_decide_eq_false_2; [done|by destruct l].
    + destruct k as [|k]; [done|]. rewrite app_assoc.
      destruct (is_abs target); intros H; [apply (IHk k) in H as (j & d & Hj & H1 & H2 & H3); [|lia|apply Hok|done]|apply (IHk k) in H as (j & d & Hj & H1 & H2 & H3); [|lia|done|done]];
        (exists j, d; split_and!; [lia|done|done|done]).
    + rewrite bool_decide_eq_false_2; [done|by destruct l].
Qed.

(** Nothing is lost: a file system with more entries, where files may have another content. *)
Definition extends (m m' : fs) : Prop :=
  searchable m' = searchable m ∧ ∀ l n, nodes m !! l = Some n → nodes m' !! l = Some n ∨ ∃ f f', n = NFile f ∧ nodes m' !! l = Some (NFile f').

Lemma extends_dir m m' l : extends m m' → nodes m !! l = Some NDir → nodes m' !! l = Some NDir.
Proof. intros [_ H] Hl. destruct (H l _ Hl) as [?|(f & f' & ? & _)]; done. Qed.

Lemma entry_extends m m' d p n : extends m m' → entry m d p = Ok n → entry m' d p = Ok n ∨ ∃ f f', n = NFile f ∧ entry m' d p = Ok (NFile f').
Proof.
  intros [Hs H]. unfold entry. rewrite Hs. destruct (negb _); [done|]. destruct (nodes m !! (d ++ [p])) as [k|] eqn:E; [|done]. intros [= <-].
  destruct (H _ _ E) as [-> |(f & f' & -> & ->)]; eauto.
Qed.

(** A walk that succeeds still does where nothing was lost. *)
Lemma walk_extends k m m' dest path loc : extends m m' → walk k false [] m dest path = Ok loc → walk k false [] m' dest path = Ok loc.
Proof.
  intros Hx. revert dest path. induction k as [k IHk] using lt_wf_ind. intros dest path. revert dest. induction path as [|p rest IH]; intros dest; [by rewrite !walk_nil|].
  rewrite !walk_cons. destruct (str_in p _); [apply IH|]. destruct (str_eqb p ".."); [destruct dest; apply IH|]. cbn [app].
  destruct (entry m dest p) as [n|] eqn:E; [|done]. destruct (entry_extends m m' dest p n Hx E) as [-> |(f & f' & -> & ->)]; [|done].
  destruct n as [|f|target|]; try done; [apply IH|]. destruct k as [|k]; [done|]. destruct (is_abs target); apply IHk; lia.
Qed.

(** Where every directory may be searched, a path without links is resolved. *)
Lemma walk_open links rooted base m dest rest : fs_ok m → (∀ l, searchable m l = true) → real m (base ++ dest ++ rest) →
  walk links rooted base m dest rest = Ok (base ++ dest ++ rest).
Proof.
  intros Hok Hs. revert dest. induction rest as [|p rest IH]; intros dest Hr; [by rewrite walk_nil, app_nil_r|].
  pose proof Hr as (n & Hn & Hl). assert (Forall name_ok (base ++ dest ++ p :: rest)) as Hnames by (apply (names_ok m); [done|by eexists]).
  rewrite !Forall_app, Forall_cons in Hnames. destruct Hnames as (_ & _ & [E1 E2]%name_ok_plain & _). rewrite walk_cons, E1, E2. unfold entry. rewrite Hs. cbn [negb].
  rewrite <- app_assoc. destruct (decide (rest = [])) as [->|Hne].
  - rewrite Hn. destruct n as [|f|t|]; [by rewrite walk_nil|by rewrite bool_decide_eq_true_2|by specialize (Hl t)|by rewrite bool_decide_eq_true_2].
  - assert (nodes m !! (base ++ dest ++ [p]) = Some NDir) as ->. { apply (above_dir m _ rest Hok); [rewrite <- !app_assoc; by eexists|done]. }
    rewrite IH; rewrite <- (app_assoc dest); done.
Qed.

Lemma Stat_open m loc n : fs_ok m → (∀ l, searchable m l = true) → nodes m !! loc = Some n → (∀ t, n ≠ NLink t) → Stat m loc = Ok (loc, n).
Proof. intros Hok Hs Hn Hl. unfold Stat, resolve. rewrite (walk_open 40 false [] m [] loc Hok Hs) by (by exists n). cbn. by rewrite Hn. Qed.

Lemma Stat_eval m path loc n : Stat m path = Ok (loc, n) → EvalSymlinks m path = Ok loc ∧ nodes m !! loc = Some n.
Proof.
  unfold Stat, resolve, EvalSymlinks. destruct (walk 40 false [] m [] path) as [l|] eqn:Ew; cbn [res_bind]; [|discriminate]. destruct (nodes m !! l) eqn:En; [|discriminate].
  intros [= <- <-]. split; [|done]. apply (walk_mono 40 255); [lia|done].
Qed.

Lemma mkdirAll_stat m path loc : Stat m path = Ok (loc, NDir) → MkdirAll m path = (None, m).
Proof. intros H. unfold MkdirAll. destruct (rev path) as [|x r] eqn:E; cbn [mkdirAll]; [rewrite <- (List.rev_involutive path), E in H; by rewrite H|]. rewrite <- E, List.rev_involutive. by rewrite H. Qed.
