(* ===== verification/WorkspaceFiles.v ===== *)
(** * internal/workspacefiles, and what the two workspaces share

    Paths of requests, text samples and the checks on resolved paths.  The packages
    stackworkspace and configworkspace both declare these helpers, with the same
    bodies; they are defined once.  The permission repairer, git and
    [strings.ToLower] are outside. *)

From stdpp Require Import gmap strings list.
From Stdlib Require Import ZArith Ascii Lia.
From S2P Require Import Prelude GoStrings GoPath GoTime LimitedIO FileSystem.

Local Open Scope Z_scope.

(** ** Data *)

Inductive workspace_error :=
| ErrNotFound
| ErrPathOutsideWorkspace
| ErrPathNotDirectory
| ErrPathNotFile
| ErrBinaryNotEditable
| ErrPermissionDenied
| ErrReservedPath
| ErrConflict
| ErrValidation
| ErrContent (e : go_error)
| ErrSystem (e : errno).

Inductive EntryType := EntryTypeDirectory | EntryTypeTextFile | EntryTypeBinaryFile | EntryTypeUnknownFile.
#[global] Instance EntryType_eq_dec : EqDecision EntryType.
Proof. solve_decision. Defined.

Record Permissions := mkPermissions { Readable : bool; Writable : bool }.
Record TreeEntry := mkTreeEntry {
  te_name : string; te_path : string; te_type : EntryType; te_size : Z; te_modified : Time; te_permissions : Permissions }.
Record TreeResponse := mkTreeResponse { tr_current : string; tr_parent : option string; tr_items : list TreeEntry }.
Record FileResponse := mkFileResponse {
  fr_path : string; fr_name : string; fr_type : EntryType; fr_content : option string; fr_size : Z; fr_modified : Time;
  fr_readable : bool; fr_writable : bool; fr_blocked : option string; fr_permissions : Permissions }.
Record SaveFileRequest := mkSaveFileRequest {
  sf_path : string; sf_content : string; CreateParentDirectories : bool; ExpectedModifiedAt : option Time }.
Record SaveFileResponse := mkSaveFileResponse { sr_path : string; sr_modified : Time; sr_audit : string }.

Definition MaxFileContentBytes : Z := 2 ^ 20.

(** ** Paths of requests *)

(** [strings.ReplaceAll(value, "\\", "/")]. *)
Fixpoint slashes (s : string) : string :=
  match s with EmptyString => EmptyString | String c r => String (if Ascii.eqb c "\" then "/"%char else c) (slashes r) end.

(** The loop over the parts of a relative path. *)
Fixpoint cleanParts (parts : list string) : res workspace_error (list string) :=
  match parts with
  | [] => Ok []
  | p :: rest =>
    if str_in p [""; "."] then cleanParts rest
    else if str_eqb p ".." then Err ErrPathOutsideWorkspace
    else let? l := cleanParts rest in Ok (p :: l)
  end.

Definition normalizeRelativePath (value : string) : res workspace_error string :=
  let trimmed := trim_space (slashes value) in
  if str_in trimmed [""; "."] then Ok ""
  else if has_prefix trimmed "/" then Err ErrPathOutsideWorkspace
  else let? parts := cleanParts (split trimmed "/") in Ok (join "/" parts).

Definition normalizeRequiredFilePath (value : string) : res workspace_error string :=
  let? normalized := normalizeRelativePath value in
  if str_empty normalized then Err ErrPathNotFile else Ok normalized.
Definition normalizeRequiredRepairPath (value : string) : res workspace_error string :=
  let? normalized := normalizeRelativePath value in
  if str_empty normalized then Err ErrPathOutsideWorkspace else Ok normalized.

Definition joinRelativePath (basePath name : string) : string := if str_empty basePath then name else basePath +:+ "/" +:+ name.
Definition parentRelativePath (relativePath : string) : string :=
  if str_empty relativePath then "" else let parent := Dir relativePath in if str_eqb parent "." then "" else parent.

Definition isReservedDefinitionPath (relativePath : string) : bool := str_in relativePath ["compose.yaml"; ".env"].

(** [filepath.Join(root, rel)] with an absolute root. *)
Definition joinPath (root : location) (rel : string) : list string := clean_parts true (rev root) (split rel "/").

(** [filepath.Rel] on absolute clean paths, as the list of its names. *)
Fixpoint Rel (base target : list string) : list string :=
  match base, target with
  | [], _ => target
  | _, [] => (λ _, "..") <$> base
  | b :: base', t :: target' => if str_eqb b t then Rel base' target' else ((λ _, "..") <$> base) ++ target
  end.

(** ** Text samples (workspacefiles/files.go) *)

(** [utf8.Valid]. *)
Fixpoint utf8_valid (s : string) : bool :=
  match s with
  | EmptyString => true
  | String a r =>
    if byte_of a <? 128 then utf8_valid r
    else match r with
    | EmptyString => false
    | String b r =>
      if between 194 223 a then cont b && utf8_valid r
      else match r with
      | EmptyString => false
      | String c r =>
        if between 224 239 a then
          (if byte_of a =? 224 then between 160 191 b else if byte_of a =? 237 then between 128 159 b else cont b) && cont c && utf8_valid r
        else match r with
        | EmptyString => false
        | String d r =>
          between 240 244 a && (if byte_of a =? 240 then between 144 191 b else if byte_of a =? 244 then between 128 143 b else cont b)
          && cont c && cont d && utf8_valid r
        end
      end
    end
  end.

(** [utf8.UTFMax] is 4: up to three bytes of a character may be cut off. *)
Definition ValidTextSample (sample : string) (truncated : bool) : bool :=
  if utf8_valid sample then true
  else truncated && existsb (λ trim, (trim <? slen sample) && utf8_valid (str_take (slen sample - trim) sample)) [1; 2; 3].

Fixpoint has_nul (s : string) : bool := match s with EmptyString => false | String c r => Ascii.eqb c "000" || has_nul r end.

(** ** What [os.Stat] tells of a resolved path *)

Definition isDir (n : node) : bool := match n with NDir => true | _ => false end.
Definition isRegular (n : node) : bool := match n with NFile _ => true | _ => false end.
Definition nodeSize (n : node) : Z := match n with NFile f => slen (f_content f) | _ => 0 end.
Definition nodeTime (m : fs) (loc : location) (n : node) : Time := match n with NFile f => f_modified f | _ => stamps m loc end.

(** [fsmeta.Inspect]: what the process may do (owner and mode are left out). *)
Definition Inspect (m : fs) (loc : location) : Permissions := mkPermissions (readable m loc) (writable m loc).

Definition detectEntryType (m : fs) (loc : location) (n : node) : EntryType :=
  match n with
  | NDir => EntryTypeDirectory
  | NFile f =>
    if nodeSize n =? 0 then EntryTypeTextFile
    else if negb (readable m loc) then EntryTypeUnknownFile
    else
      let sample := str_take 8192 (f_content f) in
      if has_nul sample || negb (ValidTextSample sample (slen sample <? nodeSize n)) then EntryTypeBinaryFile else EntryTypeTextFile
  | _ => EntryTypeUnknownFile
  end.

Definition blockedReason (can_read can_write : bool) (t : EntryType) : option string :=
  if negb can_read then Some "not_readable"
  else if bool_decide (t = EntryTypeTextFile) && negb can_write then Some "not_writable"
  else None.

(** [os.Stat] with the errors of the workspaces. *)
Definition statPath (m : fs) (path : list string) : res workspace_error (location * node) :=
  match Stat m path with Ok r => Ok r | Err ENOENT => Err ErrNotFound | Err e => Err (ErrSystem e) end.

(** [errors.Is(err, os.ErrPermission)]. *)
Fixpoint IsPermission (e : go_error) : bool :=
  match e with OtherError message => str_eqb message "permission denied" | WrapError _ inner => IsPermission inner | _ => false end.

(** [limitedio.ReadFile] on a file of the model. *)
Definition readFile (m : fs) (loc : location) (n : node) : res go_error string :=
  match n with
  | NFile f => ReadFile (mkFile (if readable m loc then None else Some "permission denied") (Ok (slen (f_content f))) (f_content f) None) MaxFileContentBytes
  | _ => Err (OtherError "not a regular file")
  end.

(** [EnsureExpectedModifiedAt]. *)
Definition EnsureExpectedModifiedAt (m : fs) (path : list string) (expected : option Time) : res workspace_error unit :=
  match expected with
  | None => Ok tt
  | Some t =>
    match Stat m path with
    | Err ENOENT => Err ErrConflict
    | Err e => Err (ErrSystem e)
    | Ok (loc, n) => guard_err (negb (nodeTime m loc n =? t)) ErrConflict
    end
  end.

(** [ensureWithinRoot] of both packages. *)
Definition ensureWithinRoot (m : fs) (root target : list string) : res workspace_error unit :=
  let rootAbsolute := match EvalSymlinks m root with Ok r => r | Err _ => root end in
  let targetAbsolute := match EvalSymlinks m target with Ok r => r | Err _ => target end in
  guard_err (match Rel rootAbsolute targetAbsolute with p :: _ => str_eqb p ".." | [] => false end) ErrPathOutsideWorkspace.

(** [os.ReadDir]: the names, sorted. *)
Definition names (m : fs) (loc : location) : list string :=
  sort_strings (omap (λ e, match last e.1 with Some n => if bool_decide (e.1 = loc ++ [n]) then Some n else None | None => None end) (map_to_list (nodes m))).
Definition ReadDir (m : fs) (loc : location) : res errno (list string) := if readable m loc then Ok (names m loc) else Err EACCES.

(** ** Lemmas on paths *)

Lemma cleanParts_Ok parts l : cleanParts parts = Ok l → Forall (λ p, free_of "/" p = true) parts → Forall name_ok l.
Proof.
  revert l. induction parts as [|p parts IH]; cbn; intros l H Hf; [injection H as <-; constructor|]. apply Forall_cons in Hf as [Hp Hf].
  destruct (str_in p [""; "."]) eqn:E1; [by apply IH|]. destruct (str_eqb p "..") eqn:E2; [done|]. destruct (cleanParts parts) as [l'|]; cbn in H; [|done].
  injection H as <-. constructor; [|by apply IH]. apply bool_decide_eq_false in E1, E2. rewrite !elem_of_cons in E1. repeat split; [|done|..]; naive_solver.
Qed.

(** A normalized path is a list of plain names. *)
Lemma normalizeRelative_Ok value r : normalizeRelativePath value = Ok r → ∃ parts, Forall name_ok parts ∧ r = join "/" parts.
Proof.
  unfold normalizeRelativePath. destruct (str_in _ _); [intros [= <-]; by exists []|]. destruct (has_prefix _ _); [done|].
  destruct (cleanParts _) as [l|] eqn:E; cbn; [|done]. intros [= <-]. exists l. split; [|done]. eapply cleanParts_Ok; [done|]. by apply split_at_parts.
Qed.

Lemma names_component l : Forall name_ok l → Forall component l.
Proof. intros H. eapply Forall_impl; [exact H|]. by intros x [? _]. Qed.

Lemma join_empty l : Forall name_ok l → join "/" l = "" → l = [].
Proof.
  intros Hn. destruct l as [|x l]; [done|]. apply Forall_cons in Hn as [[[Hx _] _] _]. destruct l as [|y l]; cbn [join]; [done|].
  intros E. exfalso. destruct x; [done|discriminate E].
Qed.

Lemma normalizeRequired_Ok value r : normalizeRequiredFilePath value = Ok r → ∃ parts, parts ≠ [] ∧ Forall name_ok parts ∧ r = join "/" parts.
Proof.
  unfold normalizeRequiredFilePath. destruct (normalizeRelativePath value) as [x|] eqn:E; cbn; [|done]. apply normalizeRelative_Ok in E as (parts & Hn & ->).
  destruct (str_empty (join "/" parts)) eqn:Ee; [done|]. intros [= <-]. exists parts. split_and!; try done. intros ->. done.
Qed.

Lemma clean_names acc l : Forall name_ok l → clean_parts true acc l = rev acc ++ l.
Proof.
  revert acc. induction l as [|x l IH]; intros acc Hn; cbn [clean_parts]; [by rewrite app_nil_r|]. apply Forall_cons in Hn as [Hx Hn].
  destruct (name_ok_plain x Hx) as [E1 E2]. rewrite E1, E2, IH by done. cbn [rev]. by rewrite <- app_assoc.
Qed.

Lemma joinPath_names root l : Forall name_ok l → joinPath root (join "/" l) = root ++ l.
Proof.
  intros Hn. unfold joinPath. destruct l as [|x l]; [cbn; by rewrite List.rev_involutive, app_nil_r|].
  rewrite split_join by (done || by apply names_component). rewrite clean_names by done. by rewrite List.rev_involutive.
Qed.

Lemma joinPath_name root x : name_ok x → joinPath root x = root ++ [x].
Proof. intros Hx. apply (joinPath_names root [x]). by constructor. Qed.

Lemma rev_string_app (s t : string) : String.rev (s +:+ t) = String.rev t +:+ String.rev s.
Proof. apply rev_app. Qed.

Lemma rev_slash x : String.rev (String "/" x) = String.rev x +:+ "/".
Proof. exact (rev_string_app "/" x). Qed.

Lemma after_slash_free s t : free_of "/" s = true → after_slash (s +:+ t) = after_slash t.
Proof. induction s as [|c s IH]; [done|]. rewrite str_app_cons. cbn. destruct (Ascii.eqb c "/"); [done|]. exact IH. Qed.
Lemma until_slash_free s t : free_of "/" s = true → until_slash (s +:+ String "/" t) = s.
Proof. induction s as [|c s IH]; [done|]. rewrite str_app_cons. cbn. destruct (Ascii.eqb c "/"); [done|]. intros H. by rewrite IH. Qed.
Lemma until_slash_all s : free_of "/" s = true → until_slash s = s.
Proof. induction s as [|c s IH]; [done|]. cbn. destruct (Ascii.eqb c "/"); [done|]. intros H. by rewrite IH. Qed.
Lemma trim_slashes_free s t : s ≠ "" → free_of "/" s = true → trim_slashes (s +:+ t) = s +:+ t.
Proof. destruct s as [|c s]; [done|]. rewrite str_app_cons. cbn. by destruct (Ascii.eqb c "/"). Qed.

Lemma join_snoc l x : l ≠ [] → join "/" (l ++ [x]) = join "/" l +:+ String "/" x.
Proof. intros Hl. by rewrite join_app. Qed.

Lemma rev_nonempty s : s ≠ "" → String.rev s ≠ "".
Proof. intros Hs E. apply Hs. rewrite <- (rev_involutive s), E. done. Qed.

Lemma Base_names l x : Forall name_ok (l ++ [x]) → Base (join "/" (l ++ [x])) = x.
Proof.
  intros [Hl Hx]%Forall_app. apply Forall_cons in Hx as [[[Hne Hf] _] _]. assert (free_of "/" (String.rev x) = true) as Hfr by (by rewrite free_of_rev).
  pose proof (rev_nonempty x Hne) as Hnr. unfold Base. destruct l as [|y l].
  - cbn [app join]. unfold str_empty, str_eqb. rewrite (bool_decide_eq_false_2 (x = "")) by done.
    pose proof (trim_slashes_free (String.rev x) "" Hnr Hfr) as E. rewrite !str_app_nil_r in E. rewrite E, until_slash_all, rev_involutive by done.
    by rewrite bool_decide_eq_false_2.
  - rewrite join_snoc by done. set (j := join "/" (y :: l)). assert (j +:+ String "/" x ≠ "") as Hj by (by destruct j).
    unfold str_empty, str_eqb. rewrite (bool_decide_eq_false_2 (j +:+ String "/" x = "")) by done. rewrite rev_string_app, rev_slash.
    rewrite str_app_assoc, trim_slashes_free by done. change ("/" +:+ String.rev j) with (String "/" (String.rev j)). rewrite until_slash_free, rev_involutive by done. by rewrite bool_decide_eq_false_2.
Qed.

Lemma parent_names l x : Forall name_ok (l ++ [x]) → parentRelativePath (join "/" (l ++ [x])) = join "/" l.
Proof.
  intros [Hl Hx]%Forall_app. apply Forall_cons in Hx as [[[Hne Hf] _] _]. assert (free_of "/" (String.rev x) = true) as Hfr by (by rewrite free_of_rev).
  unfold parentRelativePath, Dir. destruct l as [|y l].
  - cbn [app join]. unfold str_empty, str_eqb. rewrite (bool_decide_eq_false_2 (x = "")) by done.
    pose proof (after_slash_free (String.rev x) "" Hfr) as E. rewrite str_app_nil_r in E. rewrite E. done.
  - rewrite join_snoc by done. set (j := join "/" (y :: l)). assert (j +:+ String "/" x ≠ "") as Hj by (by destruct j).
    unfold str_empty, str_eqb at 1. rewrite (bool_decide_eq_false_2 (j +:+ String "/" x = "")) by done. rewrite rev_string_app.
    rewrite rev_slash.
    rewrite str_app_assoc, after_slash_free by done. cbn [after_slash]. change ("/" +:+ String.rev j) with (String "/" (String.rev j)). cbn [after_slash].
    rewrite Ascii.eqb_refl, rev_slash, rev_involutive.
    apply Forall_cons in Hl as Hy. destruct Hy as [Hy _].
    assert (is_abs (j +:+ "/") = false) as Ha.
    { unfold is_abs. destruct (has_prefix (j +:+ "/") "/") eqn:Ep; [|done]. exfalso. apply has_prefix_iff in Ep as [r Er]. destruct Hy as [[Hy1 Hy2] _].
      destruct y as [|c y]; [done|]. unfold j in Er. destruct l; cbn in Er; injection Er as Ec _; subst c; done. }
    assert (path_parts (j +:+ "/") = y :: l) as Hpp.
    { unfold path_parts. rewrite Ha. rewrite (split_app "/" j ""). unfold j. rewrite split_join by (done || by apply names_component).
      assert (∀ b acc k, Forall name_ok k → clean_parts b acc (k ++ [""]) = rev acc ++ k) as Hc.
      { intros b acc k. revert acc. induction k as [|z k IH]; intros acc Hk; cbn; [by rewrite app_nil_r|]. apply Forall_cons in Hk as [Hz Hk].
        destruct (name_ok_plain z Hz) as [E1 E2]. rewrite E1, E2, IH by done. cbn. by rewrite <- app_assoc. }
      by rewrite Hc. }
    unfold Clean. rewrite Ha, Hpp. fold j. assert (str_eqb j "." = false) as ->; [|done]. apply bool_decide_eq_false_2. intros E.
    assert (split j "/" = y :: l) as Hsp by (unfold j; by rewrite split_join by (done || by apply names_component)). rewrite E in Hsp. cbn in Hsp. injection Hsp as <- <-. by destruct Hy as (_ & ? & _).
Qed.

(** [Rel] points upwards exactly when the target is not below the base. *)
Lemma Rel_below base target : Forall name_ok target →
  match Rel base target with p :: _ => str_eqb p ".." | [] => false end = false ↔ base `prefix_of` target.
Proof.
  revert target. induction base as [|b base IH]; intros target Hn.
  - cbn. destruct target as [|t target]; [split; [by intros _; apply prefix_nil|done]|]. apply Forall_cons in Hn as [(_ & _ & Ht) _].
    unfold str_eqb. rewrite bool_decide_eq_false_2 by done. split; [by intros _; apply prefix_nil|done].
  - destruct target as [|t target]; cbn [Rel].
    + cbn. split; [done|]. intros [k E]. done.
    + destruct (str_eqb b t) eqn:E.
      * apply bool_decide_eq_true in E as ->. apply Forall_cons in Hn as [_ Hn]. rewrite IH by done. split; [apply prefix_cons|apply prefix_cons_inv_2].
      * apply bool_decide_eq_false in E. cbn. split; [done|]. intros H. apply prefix_cons_inv_1 in H. done.
Qed.

(** ** What requests can reach *)

Lemma within_Ok m root target : ensureWithinRoot m root target = Ok tt → fs_ok m → real m target →
  (match EvalSymlinks m root with Ok r => r | Err _ => root end) `prefix_of` target.
Proof.
  unfold ensureWithinRoot. intros H Hok Hr. apply guard_err_Ok in H.
  assert (match EvalSymlinks m target with Ok r => r | Err _ => target end = target) as E by (destruct (EvalSymlinks_straight m target Hok Hr) as [-> | ->]; done).
  rewrite E in H. apply Rel_below in H; [done|]. destruct Hr as (n & Hn & _). by apply (names_ok m); [done|eexists].
Qed.

(** A real root is compared as it is. *)
Lemma within_real m root target : ensureWithinRoot m root target = Ok tt → fs_ok m → real m root → real m target → root `prefix_of` target.
Proof.
  intros H Hok Hroot Hr. apply within_Ok in H; [|done|done]. destruct (EvalSymlinks_straight m root Hok Hroot) as [E|E]; by rewrite E in H.
Qed.

Lemma statPath_straight m loc n : fs_ok m → nodes m !! loc = Some n → (∀ t, n ≠ NLink t) → statPath m loc = Ok (loc, n) ∨ statPath m loc = Err (ErrSystem EACCES).
Proof. intros Hok Hn Hl. unfold statPath. destruct (Stat_straight m loc n Hok Hn Hl) as [-> | ->]; auto. Qed.

Lemma statPath_real m loc l n : fs_ok m → real m loc → statPath m loc = Ok (l, n) → l = loc ∧ nodes m !! loc = Some n.
Proof. intros Hok (k & Hk & Hl) H. destruct (statPath_straight m loc k Hok Hk Hl) as [E|E]; rewrite E in H; [|done]. by injection H as <- <-. Qed.

Lemma readFile_content m loc n c : readFile m loc n = Ok c → ∃ f, n = NFile f ∧ c = f_content f.
Proof.
  unfold readFile, ReadFile. destruct n as [|f|t|]; try done. destruct (readable m loc); cbn [open_error stat res_bind]; [|done]. unfold guard_err.
  destruct (MaxFileContentBytes <? slen (f_content f)) eqn:E; cbn [res_bind]; [done|]. apply Z.ltb_ge in E.
  change (wrap64 (MaxFileContentBytes + 1)) with (MaxFileContentBytes + 1). unfold readLimited. cbn [bytes read_error].
  change (MaxFileContentBytes + 1 <=? 0) with false. cbv iota.
  assert ((MaxFileContentBytes + 1 <=? slen (f_content f)) = false) as -> by (apply Z.leb_gt; lia). cbn [res_bind].
  rewrite (proj2 (Z.ltb_ge _ _) E). cbn. intros [= <-]. eauto.
Qed.

(** ** Text that is cut off *)

Lemma str_take_cons n c s : 0 < n → str_take n (String c s) = String c (str_take (n - 1) s).
Proof. intros H. unfold str_take. destruct (Z.to_nat n) as [|k] eqn:E; [lia|]. cbn. by replace (Z.to_nat (n - 1)) with k by lia. Qed.

Lemma utf8_valid_cut s n : utf8_valid s = true → 0 <= n → ∃ t, 0 <= t <= 3 ∧ t <= n ∧ utf8_valid (str_take (n - t) s) = true.
Proof.
  remember (String.length s) as k eqn:Hk. revert s n Hk. induction k as [k IH] using lt_wf_ind. intros s n -> Hv Hn.
  assert (∀ t, 0 <= t <= 3 → n = t → ∃ t, 0 <= t <= 3 ∧ t <= n ∧ utf8_valid (str_take (n - t) s) = true) as Hcut.
  { intros t Ht ->. exists t. split; [done|]. split; [lia|]. by rewrite str_take_nonpos by lia. }
  assert (∀ r j, (String.length r < String.length s)%nat → utf8_valid r = true → 0 <= j <= n →
    ∃ t, 0 <= t <= 3 ∧ t <= n - j ∧ utf8_valid (str_take (n - j - t) r) = true) as Hrec.
  { intros r j Hr Hvr Hj. apply (IH (String.length r) ltac:(lia) r (n - j) eq_refl Hvr). lia. }
  destruct (decide (n = 0)) as [->|]; [by apply (Hcut 0)|].
  destruct s as [|a r]; [by apply (Hrec "" 0) || (exists 0; split; [lia|]; split; [lia|]; by rewrite str_take_all by (unfold slen; cbn; lia))|].
  cbn [utf8_valid] in Hv. cbn [String.length] in Hrec. destruct (byte_of a <? 128) eqn:E1.
  { destruct (Hrec r 1 ltac:(lia) Hv ltac:(lia)) as (t & Ht & Htn & H). exists t. split; [done|]. split; [lia|]. destruct (decide (n - t <= 0)); [by rewrite str_take_nonpos|].
    rewrite str_take_cons by lia. cbn [utf8_valid]. rewrite E1. by replace (n - t - 1) with (n - 1 - t) by lia. }
  destruct (decide (n = 1)) as [->|]; [by apply (Hcut 1)|]. destruct r as [|b r]; [done|]. destruct (between 194 223 a) eqn:E2.
  { apply andb_true_iff in Hv as [Hb Hv]. destruct (Hrec r 2 ltac:(cbn; lia) Hv ltac:(lia)) as (t & Ht & Htn & H). exists t. split; [done|]. split; [lia|].
    destruct (decide (n - t <= 0)); [by rewrite str_take_nonpos|]. rewrite !str_take_cons by lia. cbn [utf8_valid]. rewrite E1, E2, Hb.
    by replace (n - t - 1 - 1) with (n - 2 - t) by lia. }
  destruct (decide (n = 2)) as [->|]; [by apply (Hcut 2)|]. destruct r as [|c r]; [done|]. destruct (between 224 239 a) eqn:E3.
  { apply andb_true_iff in Hv as [Hb Hv]. destruct (Hrec r 3 ltac:(cbn; lia) Hv ltac:(lia)) as (t & Ht & Htn & H). exists t. split; [done|]. split; [lia|].
    destruct (decide (n - t <= 0)); [by rewrite str_take_nonpos|]. rewrite !str_take_cons by lia. cbn [utf8_valid]. rewrite E1, E2, E3, Hb.
    by replace (n - t - 1 - 1 - 1) with (n - 3 - t) by lia. }
  destruct (decide (n = 3)) as [->|]; [by apply (Hcut 3)|]. destruct r as [|d r]; [done|].
  apply andb_true_iff in Hv as [Hb Hv]. destruct (Hrec r 4 ltac:(cbn; lia) Hv ltac:(lia)) as (t & Ht & Htn & H). exists t. split; [done|]. split; [lia|].
  destruct (decide (n - t <= 0)); [by rewrite str_take_nonpos|]. rewrite !str_take_cons by lia. cbn [utf8_valid]. rewrite E1, E2, E3, Hb.
  by replace (n - t - 1 - 1 - 1 - 1) with (n - 4 - t) by lia.
Qed.

Lemma has_nul_take n s : has_nul s = false → has_nul (str_take n s) = false.
Proof.
  revert n. induction s as [|c s IH]; intros n; [by destruct (Z.to_nat n) eqn:E; unfold str_take; rewrite E|]. cbn [has_nul].
  intros [Hc Hs]%orb_false_iff. destruct (decide (n <= 0)); [by rewrite str_take_nonpos|]. rewrite str_take_cons by lia. cbn [has_nul]. by rewrite Hc, IH.
Qed.

Lemma str_take_take k n s : k <= n → str_take k (str_take n s) = str_take k s.
Proof.
  revert k n. induction s as [|c s IH]; intros k n H.
  - unfold str_take. by destruct (Z.to_nat n), (Z.to_nat k).
  - destruct (decide (k <= 0)); [by rewrite !str_take_nonpos|]. rewrite !str_take_cons by lia. rewrite IH; [done|lia].
Qed.

(** Valid text without zero bytes is recognized from its first 8192 bytes. *)
Lemma detect_text m loc f : utf8_valid (f_content f) = true → has_nul (f_content f) = false → readable m loc = true → detectEntryType m loc (NFile f) = EntryTypeTextFile.
Proof.
  intros Hu Hn Hr. unfold detectEntryType. cbn [nodeSize]. destruct (slen (f_content f) =? 0); [done|]. rewrite Hr, has_nul_take by done. cbn [negb orb].
  unfold ValidTextSample. pose proof (slen_nonneg (f_content f)). destruct (decide (slen (f_content f) <= 8192)) as [Hle|Hgt]; [by rewrite str_take_all, Hu|].
  assert (slen (str_take 8192 (f_content f)) = 8192) as El by (rewrite str_take_length; lia). rewrite El. destruct (utf8_valid (str_take 8192 (f_content f))) eqn:E0; [done|].
  rewrite (proj2 (Z.ltb_lt _ _)) by lia. destruct (utf8_valid_cut (f_content f) 8192 Hu ltac:(lia)) as (t & Ht & _ & Hv).
  assert (∀ t, 0 <= t → str_take (8192 - t) (str_take 8192 (f_content f)) = str_take (8192 - t) (f_content f)) as Etake by (intros; apply str_take_take; lia).
  cbn [andb existsb]. rewrite !Etake by lia. change (1 <? 8192) with true. change (2 <? 8192) with true. change (3 <? 8192) with true. cbn [andb].
  assert (t = 0 ∨ t = 1 ∨ t = 2 ∨ t = 3) as [-> |[-> |[-> | ->]]] by lia; [rewrite Z.sub_0_r in Hv; congruence|..]; rewrite Hv; cbn [orb]; by rewrite ?orb_true_r.
Qed.

Lemma within_intro m root target : fs_ok m → real m target → (match EvalSymlinks m root with Ok r => r | Err _ => root end) `prefix_of` target → ensureWithinRoot m root target = Ok tt.
Proof.
  intros Hok Hr Hp. unfold ensureWithinRoot, guard_err.
  assert (match EvalSymlinks m target with Ok r => r | Err _ => target end = target) as -> by (destruct (EvalSymlinks_straight m target Hok Hr) as [-> | ->]; done).
  apply Rel_below in Hp as ->; [done|]. destruct Hr as (n & Hn & _). by apply (names_ok m); [done|eexists].
Qed.

Lemma extends_real m m' l : extends m m' → real m l → real m' l.
Proof. intros [_ H] (n & Hn & Hl). destruct (H l n Hn) as [?|(f & f' & _ & ?)]; [by exists n|by exists (NFile f')]. Qed.

Lemma readFile_all m loc f : readable m loc = true → slen (f_content f) <= MaxFileContentBytes → readFile m loc (NFile f) = Ok (f_content f).
Proof.
  intros Hr Hl. unfold readFile, ReadFile. rewrite Hr. cbn [open_error stat res_bind]. unfold guard_err. rewrite (proj2 (Z.ltb_ge _ _) Hl). cbn [res_bind].
  change (wrap64 (MaxFileContentBytes + 1)) with (MaxFileContentBytes + 1). unfold readLimited. cbn [bytes read_error]. change (MaxFileContentBytes + 1 <=? 0) with false. cbv iota.
  assert ((MaxFileContentBytes + 1 <=? slen (f_content f)) = false) as -> by (apply Z.leb_gt; lia). cbn [res_bind]. by rewrite (proj2 (Z.ltb_ge _ _) Hl).
Qed.
