(* ===== verification/StackWorkspace.v ===== *)
(** * internal/stackworkspace: files of the directory of a stack

    Listing, reading and saving files below the directory of a stack, on the file
    system of FileSystem.  A request names a path relative to the root; what it may
    touch is decided after symbolic links are resolved.  [order] is the result of
    [sort.Slice] on the listed items; the permission repairer is outside. *)

From stdpp Require Import gmap strings list.
From Stdlib Require Import ZArith Ascii Lia.
From S2P Require Import Prelude GoStrings GoPath GoTime LimitedIO FileSystem WorkspaceFiles.

Local Open Scope Z_scope.

Record Service := mkService { rootDir : list string }.

(** [stackIDRegexp]: lower-case words and digits joined by single dashes. *)
Definition word_char (c : ascii) : bool := between 97 122 c || is_digit c.
Fixpoint word (s : string) : bool := match s with EmptyString => true | String c r => word_char c && word r end.
Definition IsValidStackID (value : string) : bool := forallb (λ w, negb (str_empty w) && word w) (split value "-").

Definition NewService (configRoot : list string) : Service := mkService (configRoot ++ ["stacks"]).

Definition stackRoot (s : Service) (m : fs) (stackID : string) : res workspace_error location :=
  if negb (IsValidStackID stackID) then Err ErrNotFound
  else
    let path := rootDir s ++ [stackID] in
    match Lstat m path with
    | Err ENOENT => Err ErrNotFound
    | Err e => Err (ErrSystem e)
    | Ok (NLink _) => Err ErrPathOutsideWorkspace
    | Ok NDir =>
      match EvalSymlinks m path with
      | Err ENOENT => Err ErrNotFound
      | Err e => Err (ErrSystem e)
      | Ok resolvedRoot => let? _ := ensureWithinRoot m (rootDir s) resolvedRoot in Ok resolvedRoot
      end
    | Ok _ => Err ErrNotFound
    end.

Definition resolveExistingPath (m : fs) (root : location) (relativePath : string) : res workspace_error location :=
  let targetPath := if str_empty relativePath then root else joinPath root relativePath in
  match EvalSymlinks m targetPath with
  | Err ENOENT => Err ErrNotFound
  | Err e => Err (ErrSystem e)
  | Ok resolved => let? _ := ensureWithinRoot m root resolved in Ok resolved
  end.

(** One entry of a listing; entries that are gone or lead outside are left out. *)
Definition treeItem (m : fs) (root : location) (normalized name : string) : res workspace_error (option TreeEntry) :=
  let childPath := joinRelativePath normalized name in
  match resolveExistingPath m root childPath with
  | Err ErrPathOutsideWorkspace | Err ErrNotFound => Ok None
  | Err e => Err e
  | Ok child =>
    match statPath m child with
    | Err ErrNotFound => Ok None
    | Err e => Err e
    | Ok (loc, n) =>
      Ok (Some (mkTreeEntry name childPath (detectEntryType m loc n) (if isDir n then 0 else nodeSize n) (nodeTime m loc n) (Inspect m loc)))
    end
  end.

Fixpoint treeItems (m : fs) (root : location) (normalized : string) (l : list string) : res workspace_error (list TreeEntry) :=
  match l with
  | [] => Ok []
  | name :: rest =>
    let? item := treeItem m root normalized name in
    let? items := treeItems m root normalized rest in
    Ok (match item with Some i => i :: items | None => items end)
  end.

Definition Tree (order : list TreeEntry → list TreeEntry) (s : Service) (m : fs) (stackID currentPath : string) : res workspace_error TreeResponse :=
  let? root := stackRoot s m stackID in
  let? normalized := normalizeRelativePath currentPath in
  let? resolved := resolveExistingPath m root normalized in
  let? ln := statPath m resolved in
  if negb (isDir ln.2) then Err ErrPathNotDirectory
  else
    match ReadDir m ln.1 with
    | Err EACCES => Err ErrPermissionDenied
    | Err e => Err (ErrSystem e)
    | Ok l =>
      let? items := treeItems m root normalized l in
      Ok (mkTreeResponse normalized (if str_empty normalized then None else Some (parentRelativePath normalized)) (order items))
    end.

(** The response for a path that was resolved. *)
Definition fileAt (m : fs) (normalized : string) (loc : location) (n : node) : res workspace_error FileResponse :=
  let t := detectEntryType m loc n in
  let can := Inspect m loc in
  let response content can_read can_write reason :=
    mkFileResponse normalized (Base normalized) t content (nodeSize n) (nodeTime m loc n) can_read can_write reason can in
  let reason := blockedReason (Readable can) (Writable can) t in
  if bool_decide (t = EntryTypeTextFile) && Readable can then
    match readFile m loc n with
    | Ok content => Ok (response (Some content) true (Writable can) reason)
    | Err e => if IsPermission e then Ok (response None false false (Some "not_readable")) else Err (ErrContent e)
    end
  else Ok (response None (Readable can) false reason).

Definition File (s : Service) (m : fs) (stackID filePath : string) : res workspace_error FileResponse :=
  let? root := stackRoot s m stackID in
  let? normalized := normalizeRequiredFilePath filePath in
  if isReservedDefinitionPath normalized then Err ErrReservedPath
  else
    let? resolved := resolveExistingPath m root normalized in
    let? ln := statPath m resolved in
    if isDir ln.2 then Err ErrPathNotFile else fileAt m normalized ln.1 ln.2.

(** The target of a save, and the file system after parents were created. *)
Definition saveExisting (m : fs) (path : location) : res workspace_error location :=
  match Stat m path with
  | Err e => Err (ErrSystem e)
  | Ok (loc, n) =>
    if isDir n then Err ErrPathNotFile
    else if negb (readable m loc) || negb (writable m loc) then Err ErrPermissionDenied
    else if negb (bool_decide (detectEntryType m loc n = EntryTypeTextFile)) then Err ErrBinaryNotEditable
    else Ok path
  end.

Definition saveBelow (m : fs) (root : location) (parent : list string) (normalizedPath : string) : res workspace_error (list string) :=
  let? ln := statPath m parent in
  if negb (isDir ln.2) then Err ErrPathNotDirectory
  else if negb (writable m ln.1) then Err ErrPermissionDenied
  else
    let target := joinPath parent (Base normalizedPath) in
    let? _ := ensureWithinRoot m root target in Ok target.

Definition resolveSaveTarget (m : fs) (root : location) (normalizedPath : string) (create : bool) : res workspace_error (list string) * fs :=
  match resolveExistingPath m root normalizedPath with
  | Ok path => (saveExisting m path, m)
  | Err ErrNotFound =>
    let parentPath := parentRelativePath normalizedPath in
    match resolveExistingPath m root parentPath with
    | Ok parent => (saveBelow m root parent normalizedPath, m)
    | Err ErrNotFound =>
      if create then
        let parent := joinPath root parentPath in
        match ensureWithinRoot m root parent with
        | Err e => (Err e, m)
        | Ok _ =>
          match MkdirAll m parent with
          | (Some e, m) => (Err (ErrSystem e), m)
          | (None, m) => (saveBelow m root parent normalizedPath, m)
          end
        end
      else (Err ErrNotFound, m)
    | Err e => (Err e, m)
    end
  | Err e => (Err e, m)
  end.

(** The end of [SaveFile], with the audit action of the package. *)
Definition writeTarget (env : writeEnv) (audit normalized : string) (request : SaveFileRequest) (target : list string) (m : fs)
    : res workspace_error SaveFileResponse * fs :=
  match EnsureExpectedModifiedAt m target (ExpectedModifiedAt request) with
  | Err e => (Err e, m)
  | Ok _ =>
    match WriteStringAdoptingOwnership env target (sf_content request) m with
    | (Some e, m) => (Err (ErrSystem e), m)
    | (None, m) =>
      match Stat m target with
      | Err e => (Err (ErrSystem e), m)
      | Ok (loc, n) => (Ok (mkSaveFileResponse normalized (nodeTime m loc n) audit), m)
      end
    end
  end.

Definition SaveFile (env : writeEnv) (s : Service) (stackID : string) (request : SaveFileRequest) (m : fs) : res workspace_error SaveFileResponse * fs :=
  match CheckString (sf_content request) MaxFileContentBytes with
  | Err e => (Err (ErrContent e), m)
  | Ok _ =>
    match stackRoot s m stackID with
    | Err e => (Err e, m)
    | Ok root =>
      match normalizeRequiredFilePath (sf_path request) with
      | Err e => (Err e, m)
      | Ok normalized =>
        if isReservedDefinitionPath normalized then (Err ErrReservedPath, m)
        else
          match resolveSaveTarget m root normalized (CreateParentDirectories request) with
          | (Err e, m) => (Err e, m)
          | (Ok target, m) => writeTarget env "save_stack_file" normalized request target m
          end
      end
    end
  end.

(** [RepairPermissions] up to the call of the repairer: what it is asked for. *)
Definition repairTarget (s : Service) (m : fs) (stackID path : string) : res workspace_error location :=
  let? root := stackRoot s m stackID in
  let? normalized := normalizeRequiredRepairPath path in
  resolveExistingPath m root normalized.

(** ** What requests can reach *)

Lemma resolveExisting_sound m root rel loc : fs_ok m → real m root → resolveExistingPath m root rel = Ok loc → real m loc ∧ root `prefix_of` loc.
Proof.
  intros Hok Hroot. unfold resolveExistingPath. destruct (EvalSymlinks m _) as [l|e] eqn:E; [|by destruct e].
  destruct (ensureWithinRoot m root l) as [[]|] eqn:Ew; cbn; [|done]. intros [= <-]. assert (real m l) as Hr by (by eapply EvalSymlinks_real).
  split; [done|]. by eapply within_real.
Qed.

(** The root of a stack is the directory of that name below the real root of
    the service. *)
Lemma stackRoot_sound s m id root : fs_ok m → Forall name_ok (rootDir s) → stackRoot s m id = Ok root →
  ∃ d, EvalSymlinks m (rootDir s) = Ok d ∧ nodes m !! d = Some NDir ∧ root = d ++ [id] ∧ nodes m !! root = Some NDir.
Proof.
  intros Hok Hn. unfold stackRoot. destruct (IsValidStackID id); [|done]. cbn [negb].
  unfold Lstat. rewrite last_snoc. unfold parent_of. rewrite removelast_last.
  destruct (resolve m (rootDir s)) as [d|[]] eqn:Er; cbn [res_bind]; try done.
  destruct (nodes m !! d) as [[]|] eqn:Ed; cbn [res_bind]; try done.
  destruct (entry m d id) as [[]|[]] eqn:Ee; try done. apply entry_Ok in Ee.
  destruct (EvalSymlinks m (rootDir s ++ [id])) as [r|[]] eqn:Ev; try done. destruct (ensureWithinRoot m _ r); cbn; [|done]. intros [= <-].
  assert (name_ok id) as Hid by (eapply (proj2 Hok d id); by eexists).
  unfold EvalSymlinks in Ev. apply walk_last in Ev as (j & d' & _ & H1 & H2 & H3); [|done|apply Hok|done].
  unfold resolve in Er. apply (walk_mono 40 255) in Er; [|lia]. rewrite Er in H1. injection H1 as <-.
  assert (r = d ++ [id]) as ->.
  { eapply (walk_no_links j m d [id]); [|by constructor|done]. intros q t [k E]. destruct q as [|y q]; [by rewrite app_nil_r, Ed|]. destruct q; [|done]. injection E as <- <-. by rewrite Ee. }
  exists d. unfold EvalSymlinks. done.
Qed.

(** ** Properties *)

(** A location that is as it was, or is a new directory below the root. *)
Definition kept (root : location) (m m' : fs) (l : location) : Prop :=
  nodes m' !! l = nodes m !! l ∨ (root `prefix_of` l ∧ nodes m !! l = None ∧ nodes m' !! l = Some NDir).

(** Only new directories below the root, and the file of one location below it. *)
Definition saved_below (root : location) (content : string) (ok : bool) (m m' : fs) : Prop :=
  ∃ loc, root `prefix_of` loc ∧ root ≠ loc ∧ (∀ l, l ≠ loc → kept root m m' l) ∧
    (ok = false ∧ kept root m m' loc ∨ ∃ f, nodes m' !! loc = Some (NFile f) ∧ f_content f = content).

Lemma prefix_last (root loc : location) : root `prefix_of` loc → root ≠ loc → ∃ dir name, loc = dir ++ [name] ∧ root `prefix_of` dir.
Proof.
  intros [k ->] Hne. destruct k as [|x k _] using rev_ind; [by rewrite app_nil_r in Hne|]. exists (root ++ k), x. split; [by rewrite app_assoc|by apply prefix_app_r].
Qed.

(** Writing to an entry of a directory below the root. *)
Lemma writeTarget_confined env audit normalized request dir name root m : fs_ok m → nodes m !! dir = Some NDir → name_ok name → name_ok (we_temp env) → root `prefix_of` dir →
  ∃ r m', writeTarget env audit normalized request (dir ++ [name]) m = (r, m') ∧ fs_ok m' ∧ m' = with_nodes m (nodes m') ∧
    (∀ resp, r = Ok resp → sr_path resp = normalized ∧ is_ok (Stat m' (dir ++ [name])) = true) ∧
    (nodes m' = nodes m ∧ (is_ok r = true → we_temp env = name ∧ nodes m !! (dir ++ [name]) = None) ∨
     ∃ mode, nodes m' = <[dir ++ [name] := NFile (mkFileNode (sf_content request) mode (we_now env))]> (nodes m) ∧
       ∀ resp, r = Ok resp → sr_modified resp = we_now env).
Proof.
  intros Hok Hd Hn Ht Hp. unfold writeTarget. destruct (EnsureExpectedModifiedAt m _ _) as [[]|e].
  2:{ exists (Err e), m. split_and!; [done|done|by destruct m|done|by left]. }
  destruct (write_spec env dir name (sf_content request) m Hok Hd Hn Ht) as (e & m' & -> & Hok' & Hm & Hc). destruct e as [e|].
  - eexists _, m'. split; [reflexivity|]. split_and!; try done. destruct Hc as [[E1 E2]|(mode & E & _)]; [by left|right]. by exists mode.
  - destruct (Stat m' (dir ++ [name])) as [[loc n]|e] eqn:Es; eexists _, m'; (split; [reflexivity|]); (split_and!; try done).
    + intros ? [= <-]. by rewrite Es.
    + destruct Hc as [[E1 E2]|(mode & E & _)]; [left; split; [done|]; intros _; by apply E2|right]. exists mode. split; [done|]. intros ? [= <-]. cbn.
      destruct (Stat_straight m' (dir ++ [name]) (NFile (mkFileNode (sf_content request) mode (we_now env))) Hok') as [E'|E'];
        [by rewrite E, lookup_insert_eq|done| |]; rewrite E' in Es; [|done]. by injection Es as <- <-.
    + destruct Hc as [[E1 E2]|(mode & E & _)]; [by left|right]. by exists mode.
Qed.

(** The target of a save that does not go through links outside: an entry of a
    directory below the root, which exists or is new with the requested name. *)
Definition good_target (root : location) (x : string) (m : fs) (target : list string) : Prop :=
  ∃ dir name, target = dir ++ [name] ∧ nodes m !! dir = Some NDir ∧ name_ok name ∧ root `prefix_of` dir ∧ (name = x ∨ is_Some (nodes m !! target)).

Lemma saveExisting_good m root x path target : fs_ok m → nodes m !! root = Some NDir → real m path → root `prefix_of` path →
  saveExisting m path = Ok target → good_target root x m target ∧ target = path ∧ ∃ f, nodes m !! path = Some (NFile f).
Proof.
  intros Hok Hroot Hr Hp. unfold saveExisting. destruct Hr as (n & Hn & Hl). destruct (Stat_straight m path n Hok Hn Hl) as [-> | ->]; [|done].
  destruct (isDir n) eqn:Ed; [done|]. destruct (_ || _); [done|]. destruct (negb (bool_decide _)) eqn:Et; [done|]. intros [= <-]. boolify.
  destruct n as [|f|t|]; try done. destruct (prefix_last root path Hp) as (dir & name & -> & Hpd); [intros <-; congruence|]. split; [|eauto].
  destruct (proj2 Hok dir name) as [Hd Hnm]; [by eexists|]. exists dir, name. split_and!; try done. right. by eexists.
Qed.

Lemma saveBelow_good m root parent l x target : fs_ok m → nodes m !! parent = Some NDir → root `prefix_of` parent → Forall name_ok (l ++ [x]) →
  saveBelow m root parent (join "/" (l ++ [x])) = Ok target → good_target root x m target ∧ target = parent ++ [x].
Proof.
  intros Hok Hd Hp Hn. unfold saveBelow. rewrite (Base_names l x Hn). apply Forall_app in Hn as [_ Hx]. apply Forall_cons in Hx as [Hx _].
  destruct (statPath m parent) as [ln|]; cbn; [|done]. destruct (negb (isDir ln.2)); [done|]. destruct (negb (writable m ln.1)); [done|].
  rewrite joinPath_name by done. destruct (ensureWithinRoot m root _); cbn; [|done]. intros [= <-]. split; [|done]. exists parent, x. split_and!; try done. by left.
Qed.

Lemma saveBelow_dir m root parent normalized target : fs_ok m → real m parent → saveBelow m root parent normalized = Ok target → nodes m !! parent = Some NDir.
Proof.
  intros Hok Hr. unfold saveBelow. destruct (statPath m parent) as [[l n]|] eqn:E; cbn [res_bind]; [|done].
  apply statPath_real in E as [-> Hn]; [|done|done]. cbn [fst snd]. destruct n; done.
Qed.

(** A save whose parents exist, or whose path has no links. *)
Lemma resolveSaveTarget_good m root l x create : fs_ok m → nodes m !! root = Some NDir → Forall name_ok (l ++ [x]) → (create = true → straight m root (l ++ [x])) →
  ∃ r m', resolveSaveTarget m root (join "/" (l ++ [x])) create = (r, m') ∧ fs_ok m' ∧ (∀ k, kept root m m' k) ∧ m' = with_nodes m (nodes m') ∧ (create = false → m' = m) ∧
    ∀ target, r = Ok target → good_target root x m' target.
Proof.
  intros Hok Hroot Hn Hs. pose proof (dir_real m root Hroot) as Hrr. unfold resolveSaveTarget. rewrite (parent_names l x Hn).
  assert (∀ r : res workspace_error (list string), (∀ target, r = Ok target → good_target root x m target) →
    ∃ r' m', (r, m) = (r', m') ∧ fs_ok m' ∧ (∀ k, kept root m m' k) ∧ m' = with_nodes m (nodes m') ∧ (create = false → m' = m) ∧ ∀ target, r' = Ok target → good_target root x m' target) as Hsame.
  { intros r Hr. exists r, m. split_and!; [done|done|by intros k; left|by destruct m|done|done]. }
  destruct (resolveExistingPath m root (join "/" (l ++ [x]))) as [path|e] eqn:E1.
  { apply Hsame. intros target Ht. apply resolveExisting_sound in E1 as [Hr Hp]; [|done|done]. by eapply saveExisting_good. }
  destruct e; try (by apply Hsame). destruct (resolveExistingPath m root (join "/" l)) as [parent|e] eqn:E2.
  { apply Hsame. intros target Ht. apply resolveExisting_sound in E2 as [Hr Hp]; [|done|done]. pose proof (saveBelow_dir _ _ _ _ _ Hok Hr Ht) as Hd. by eapply saveBelow_good in Ht as [? _]. }
  destruct e; try (by apply Hsame). destruct create; [|by apply Hsame]. specialize (Hs eq_refl).
  destruct (ensureWithinRoot m root _); [|by apply Hsame]. apply Forall_app in Hn as Hn'. destruct Hn' as [Hl _]. rewrite (joinPath_names root l Hl).
  destruct (mkdirAll_straight l m root Hok Hroot Hl (straight_app _ _ _ _ Hs)) as (e & m1 & -> & Hok1 & Hg & Hd & Hm1).
  assert (∀ k, kept root m m1 k) as Hout.
  { intros k. destruct (Hg k) as [?|(? & ? & q & _ & _ & ->)]; [by left|right]. split; [by apply prefix_app_r|done]. }
  destruct e as [e|].
  - exists (Err (ErrSystem e)), m1. split_and!; done.
  - eexists _, m1. split; [reflexivity|]. split_and!; try done. intros target Ht. by eapply saveBelow_good in Ht as [? _]; [|done|by apply Hd|by apply prefix_app_r|done].
Qed.

Lemma kept_saved root content m m' : (∀ l, kept root m m' l) → saved_below root content false m m'.
Proof.
  intros H. exists (root ++ ["a"]). split_and!; [by apply prefix_app_r| |by intros l _|by left].
  intros E. apply (f_equal length) in E. rewrite length_app in E. cbn in E. lia.
Qed.

(** Writing to a good target after directories were made. *)
Lemma write_good env audit normalized request root x target m m1 : fs_ok m1 → (∀ l, kept root m m1 l) → name_ok (we_temp env) → we_temp env ≠ x → good_target root x m1 target →
  ∃ r m', writeTarget env audit normalized request target m1 = (r, m') ∧ fs_ok m' ∧ saved_below root (sf_content request) (is_ok r) m m' ∧
    ∀ resp, r = Ok resp → sr_path resp = normalized ∧ sr_modified resp = we_now env.
Proof.
  intros Hok1 Hk Ht Hne (dir & name & -> & Hd & Hn & Hp & Hx).
  destruct (writeTarget_confined env audit normalized request dir name root m1 Hok1 Hd Hn Ht Hp) as (r & m' & E & Hok' & Hm & Hpath & Hc).
  exists r, m'. split; [done|]. split; [done|]. destruct Hc as [[E1 E2]|(mode & E1 & Hmod)].
  - assert (is_ok r = false) as Hr. { destruct (is_ok r); [|done]. exfalso. destruct (E2 eq_refl) as [Hnm Hnone]. rewrite Hnone in Hx. destruct Hx as [->|[? ?]]; congruence. }
    rewrite Hr. split; [apply kept_saved; intros l; unfold kept; rewrite E1; apply Hk|]. intros resp ->. done.
  - split; [|by intros resp ->; split; [apply Hpath|apply Hmod]]. exists (dir ++ [name]). split_and!.
    + destruct Hp as [k ->]. rewrite <- app_assoc. by apply prefix_app_r.
    + intros Eq. destruct Hp as [k ->]. apply (f_equal length) in Eq. rewrite !length_app in Eq. cbn in Eq. lia.
    + intros l Hl. unfold kept. rewrite E1, lookup_insert_ne by done. apply Hk.
    + right. eexists. rewrite E1, lookup_insert_eq. done.
Qed.

(** C12: saving a file changes, besides directories that it makes below the directory of the stack, at most one entry below that directory; a save that
    succeeds leaves the content of the request there, with the time of the write in the answer, and one that fails leaves the entry as it was or with that content.
    Requests that may create parent directories are covered where the requested path has no symbolic links. *)
Theorem SaveFile_confined env s id request m root normalized :
  fs_ok m → Forall name_ok (rootDir s) → name_ok (we_temp env) → we_temp env ≠ Base normalized →
  stackRoot s m id = Ok root → normalizeRequiredFilePath (sf_path request) = Ok normalized →
  (CreateParentDirectories request = true → straight m root (split normalized "/")) →
  ∃ r m', SaveFile env s id request m = (r, m') ∧ fs_ok m' ∧ saved_below root (sf_content request) (is_ok r) m m' ∧
    ∀ resp, r = Ok resp → sr_path resp = normalized ∧ sr_modified resp = we_now env.
Proof.
  intros Hok Hrd Ht Hne Hroot Hnorm Hs. unfold SaveFile. rewrite Hroot, Hnorm.
  assert (∀ e : workspace_error, ∃ r m', (@Err workspace_error SaveFileResponse e, m) = (r, m') ∧ fs_ok m' ∧ saved_below root (sf_content request) (is_ok r) m m' ∧
    ∀ resp, r = Ok resp → sr_path resp = normalized ∧ sr_modified resp = we_now env) as Hfail.
  { intros e. exists (Err e), m. split_and!; [done|done|apply kept_saved; by left|done]. }
  destruct (CheckString _ _); [|apply Hfail]. destruct (isReservedDefinitionPath normalized); [apply Hfail|].
  apply normalizeRequired_Ok in Hnorm as (parts & Hp & Hn & ->). destruct (exists_last Hp) as (l & x & ->).
  rewrite (Base_names l x Hn) in Hne. rewrite split_join in Hs by (done || by apply names_component).
  apply stackRoot_sound in Hroot as (d & _ & _ & _ & Hdir); [|done|done].
  destruct (resolveSaveTarget_good m root l x (CreateParentDirectories request) Hok Hdir Hn Hs) as (r & m1 & -> & Hok1 & Hk & _ & _ & Hg).
  destruct r as [target|e].
  - apply (write_good env _ _ request root x target m m1); try done. by apply Hg.
  - exists (Err e), m1. split_and!; [done|done|by apply kept_saved|done].
Qed.

Lemma fileAt_content m normalized loc n fr c : fileAt m normalized loc n = Ok fr → fr_content fr = Some c →
  fr_path fr = normalized ∧ ∃ f, n = NFile f ∧ c = f_content f.
Proof.
  unfold fileAt. destruct (_ && _); [|intros [= <-]; done]. destruct (readFile m loc n) as [content|e] eqn:E.
  - intros [= <-] [= <-]. split; [done|]. by eapply readFile_content.
  - destruct (IsPermission e); [|done]. by intros [= <-].
Qed.

Lemma treeItems_In m root normalized l items e : treeItems m root normalized l = Ok items → e ∈ items →
  ∃ name, name ∈ l ∧ treeItem m root normalized name = Ok (Some e).
Proof.
  revert items. induction l as [|name l IH]; cbn [treeItems]; intros items H He; [injection H as <-; by apply elem_of_nil in He|].
  destruct (treeItem m root normalized name) as [o|] eqn:Ei; cbn in H; [|done].
  destruct (treeItems m root normalized l) as [rest|]; cbn in H; [|done]. injection H as <-.
  destruct o as [i|]; [apply elem_of_cons in He as [->|He]; [exists name; split; [by left|done]|]|];
    (destruct (IH rest eq_refl He) as (x & ? & ?); exists x; split; [by right|done]).
Qed.

Lemma treeItem_sound m root normalized name e : fs_ok m → real m root → treeItem m root normalized name = Ok (Some e) →
  ∃ loc n, root `prefix_of` loc ∧ nodes m !! loc = Some n ∧ te_path e = joinRelativePath normalized name ∧ te_type e = detectEntryType m loc n ∧
    te_modified e = nodeTime m loc n ∧ te_permissions e = Inspect m loc.
Proof.
  intros Hok Hroot. unfold treeItem. destruct (resolveExistingPath m root _) as [child|e'] eqn:Er; [|by destruct e'].
  apply resolveExisting_sound in Er as [Hr Hp]; [|done|done]. destruct (statPath m child) as [[loc n]|e'] eqn:Es; [|by destruct e'].
  apply statPath_real in Es as [-> Hn]; [|done|done]. intros [= <-]. by exists child, n.
Qed.

(** C26: whatever a request names, the content that [File] returns is that of a regular file below the directory of the stack, every entry that [Tree] lists
    describes a node below it, and the permission repairer is only asked to work on a node below it that is not a symbolic link; [File] never answers for the
    definition files by their own names. *)
Theorem reads_confined order s m id root path :
  fs_ok m → Forall name_ok (rootDir s) → stackRoot s m id = Ok root → (∀ l : list TreeEntry, order l ⊆ l) →
  (∀ fr c, File s m id path = Ok fr → fr_content fr = Some c →
     isReservedDefinitionPath (fr_path fr) = false ∧ ∃ loc f, root `prefix_of` loc ∧ nodes m !! loc = Some (NFile f) ∧ f_content f = c) ∧
  (∀ tr e, Tree order s m id path = Ok tr → e ∈ tr_items tr →
     ∃ loc n, root `prefix_of` loc ∧ nodes m !! loc = Some n ∧ te_type e = detectEntryType m loc n ∧ te_modified e = nodeTime m loc n ∧ te_permissions e = Inspect m loc) ∧
  (∀ loc, repairTarget s m id path = Ok loc → root `prefix_of` loc ∧ real m loc).
Proof.
  intros Hok Hrd Hroot Hord. pose proof Hroot as Hroot'. apply stackRoot_sound in Hroot' as (d & _ & _ & _ & Hdir%dir_real); [|done|done]. split_and!.
  - intros fr c. unfold File. rewrite Hroot. cbn [res_bind]. destruct (normalizeRequiredFilePath path) as [normalized|]; cbn [res_bind]; [|done].
    destruct (isReservedDefinitionPath normalized) eqn:Eres; [done|]. destruct (resolveExistingPath m root normalized) as [resolved|] eqn:Er; cbn [res_bind]; [|done].
    apply resolveExisting_sound in Er as [Hr Hp]; [|done|done]. destruct (statPath m resolved) as [[loc n]|] eqn:Es; cbn [res_bind fst snd]; [|done].
    apply statPath_real in Es as [-> Hn]; [|done|done]. destruct (isDir n); [done|]. intros Hf Hc. destruct (fileAt_content _ _ _ _ _ _ Hf Hc) as (-> & f & -> & ->). eauto 6.
  - intros tr e. unfold Tree. rewrite Hroot. cbn [res_bind]. destruct (normalizeRelativePath path) as [normalized|]; cbn [res_bind]; [|done].
    destruct (resolveExistingPath m root normalized) as [resolved|]; cbn [res_bind]; [|done]. destruct (statPath m resolved) as [ln|]; cbn [res_bind]; [|done].
    destruct (negb (isDir ln.2)); [done|]. destruct (ReadDir m ln.1) as [l|e']; [|by destruct e'].
    destruct (treeItems m root normalized l) as [items|] eqn:Ei; cbn [res_bind]; [|done]. intros [= <-] He%Hord.
    destruct (treeItems_In _ _ _ _ _ _ Ei He) as (name & _ & Hi). apply treeItem_sound in Hi as (loc & n & ? & ? & _ & ? & ? & ?); [|done|done]. by exists loc, n.
  - intros loc. unfold repairTarget. rewrite Hroot. cbn [res_bind]. destruct (normalizeRequiredRepairPath path) as [normalized|]; cbn [res_bind]; [|done].
    intros Hl. apply resolveExisting_sound in Hl as [? ?]; done.
Qed.

(** ** Reading what was saved *)

Lemma stackRoot_extends s m m' id root : fs_ok m → fs_ok m' → Forall name_ok (rootDir s) → extends m m' →
  stackRoot s m id = Ok root → stackRoot s m' id = Ok root.
Proof.
  intros Hok Hok' Hn Hx H. pose proof (stackRoot_sound _ _ _ _ Hok Hn H) as (d & Hd & Hdd & Hroot & Hdir).
  assert (ensureWithinRoot m' (rootDir s) root = Ok tt) as Hw.
  { apply within_intro; [done|by apply (extends_real m _ _ Hx), dir_real|]. unfold EvalSymlinks in *. rewrite (walk_extends _ _ _ _ _ _ Hx Hd). subst root. by apply prefix_app_r. }
  clear d Hd Hdd Hroot. revert H.
  unfold stackRoot. destruct (IsValidStackID id); cbn [negb]; [|discriminate].
  unfold Lstat. rewrite last_snoc. unfold parent_of. rewrite removelast_last.
  destruct (resolve m (rootDir s)) as [d'|[]] eqn:Er; cbn [res_bind]; try discriminate. destruct (nodes m !! d') as [[]|] eqn:Ed; cbn [res_bind]; try discriminate.
  destruct (entry m d' id) as [[]|[]] eqn:Ee; try discriminate. destruct (EvalSymlinks m (rootDir s ++ [id])) as [r|[]] eqn:Ev; try discriminate.
  destruct (ensureWithinRoot m _ r); cbn [res_bind]; [|discriminate]. intros [= ->].
  unfold resolve in *. rewrite (walk_extends _ _ _ _ _ _ Hx Er). cbn [res_bind]. rewrite (extends_dir _ _ _ Hx Ed). cbn [res_bind].
  destruct (entry_extends _ _ _ _ _ Hx Ee) as [-> |(? & ? & ? & _)]; [|discriminate]. unfold EvalSymlinks in Ev. unfold EvalSymlinks. rewrite (walk_extends _ _ _ _ _ _ Hx Ev).
  rewrite Hw. reflexivity.
Qed.

(** A path without links is resolved to itself. *)
Lemma resolveExisting_straight m root parts loc : fs_ok m → nodes m !! root = Some NDir → Forall name_ok parts → straight m root parts →
  resolveExistingPath m root (join "/" parts) = Ok loc → loc = root ++ parts.
Proof.
  intros Hok Hd Hn Hs. unfold resolveExistingPath.
  assert ((if str_empty (join "/" parts) then root else joinPath root (join "/" parts)) = root ++ parts) as ->.
  { destruct (str_empty (join "/" parts)) eqn:E; [|by apply joinPath_names]. apply bool_decide_eq_true in E. apply join_empty in E as ->; [by rewrite app_nil_r|done]. }
  destruct (EvalSymlinks m (root ++ parts)) as [r|[]] eqn:E; try done. destruct (ensureWithinRoot m root r); cbn; [|done]. intros [= ->].
  unfold EvalSymlinks in E. apply walk_no_links in E; [done| |].
  - apply (straight_from m root parts Hok (dir_real _ _ Hd) Hs).
  - apply Forall_app. split; [|done]. apply (names_ok m); [done|by eexists].
Qed.

Lemma resolveExisting_missing m root parts : fs_ok m → nodes m !! root = Some NDir → Forall name_ok parts → straight m root parts →
  resolveExistingPath m root (join "/" parts) = Err ErrNotFound → nodes m !! (root ++ parts) = None.
Proof.
  intros Hok Hd Hn Hs. unfold resolveExistingPath.
  assert ((if str_empty (join "/" parts) then root else joinPath root (join "/" parts)) = root ++ parts) as ->.
  { destruct (str_empty (join "/" parts)) eqn:E; [|by apply joinPath_names]. apply bool_decide_eq_true in E. apply join_empty in E as ->; [by rewrite app_nil_r|done]. }
  destruct (nodes m !! (root ++ parts)) as [n|] eqn:E; [|done]. assert (real m (root ++ parts)) as Hr. { exists n. split; [done|]. intros t ->. by apply (Hs parts t). }
  destruct (EvalSymlinks_straight m _ Hok Hr) as [-> | ->]; [|done]. rewrite within_intro; [done|done|done|].
  destruct (EvalSymlinks_straight m root Hok (dir_real _ _ Hd)) as [-> | ->]; by apply prefix_app_r.
Qed.

(** The target of a save of a path without links: the path itself, at a regular file or at no node. *)
Lemma resolveSaveTarget_straight m root l x create target m1 : fs_ok m → nodes m !! root = Some NDir → Forall name_ok (l ++ [x]) → straight m root (l ++ [x]) →
  resolveSaveTarget m root (join "/" (l ++ [x])) create = (Ok target, m1) →
  target = root ++ l ++ [x] ∧ (nodes m !! target = None ∨ ∃ f, nodes m !! target = Some (NFile f)).
Proof.
  intros Hok Hroot Hn Hs. unfold resolveSaveTarget. rewrite (parent_names l x Hn).
  destruct (resolveExistingPath m root (join "/" (l ++ [x]))) as [path|e] eqn:E1.
  { intros [= Ht <-]. pose proof (resolveExisting_straight _ _ _ _ Hok Hroot Hn Hs E1) as ->. apply resolveExisting_sound in E1 as [Hr Hp]; [|done|by apply dir_real].
    apply (saveExisting_good m root x) in Ht as (_ & -> & ?); auto. }
  destruct e; try done. apply resolveExisting_missing in E1; [|done..]. pose proof Hn as Hn'. apply Forall_app in Hn' as [Hl Hx]. apply Forall_cons in Hx as [Hx _].
  assert (∀ m2 target, saveBelow m2 root (root ++ l) (join "/" (l ++ [x])) = Ok target → target = root ++ l ++ [x]) as Hb.
  { intros m2 t. unfold saveBelow. rewrite (Base_names l x Hn). destruct (statPath m2 _); cbn [res_bind]; [|done].
    destruct (negb _); [done|]. destruct (negb _); [done|]. rewrite joinPath_name by done. destruct (ensureWithinRoot m2 root _); cbn; [|done]. intros [= <-]. by rewrite app_assoc. }
  destruct (resolveExistingPath m root (join "/" l)) as [parent|e] eqn:E2.
  { pose proof (resolveExisting_straight _ _ _ _ Hok Hroot Hl (straight_app _ _ _ _ Hs) E2) as ->. intros [= Ht _]. apply Hb in Ht as ->. auto. }
  destruct e; try done. destruct create; [|done]. rewrite (joinPath_names root l Hl). destruct (ensureWithinRoot m root _); [|done].
  destruct (MkdirAll m (root ++ l)) as [[e|] m2]; [done|]. intros [= Ht _]. apply Hb in Ht as ->. auto.
Qed.

(** A text file that can be read is answered with its content. *)
Lemma File_text s m id path root parts f : fs_ok m → stackRoot s m id = Ok root → nodes m !! root = Some NDir →
  normalizeRequiredFilePath path = Ok (join "/" parts) → isReservedDefinitionPath (join "/" parts) = false → parts ≠ [] → Forall name_ok parts →
  Stat m (root ++ parts) = Ok (root ++ parts, NFile f) → readable m (root ++ parts) = true → utf8_valid (f_content f) = true → has_nul (f_content f) = false →
  slen (f_content f) <= MaxFileContentBytes →
  ∃ fr, File s m id path = Ok fr ∧ fr_content fr = Some (f_content f) ∧ fr_modified fr = f_modified f ∧ fr_path fr = join "/" parts.
Proof.
  intros Hok Hroot Hdir Hp Hres Hne Hn Hst Hr Hu Hz Hl. unfold File. rewrite Hroot. cbn [res_bind]. rewrite Hp. cbn [res_bind]. rewrite Hres.
  assert (resolveExistingPath m root (join "/" parts) = Ok (root ++ parts)) as ->.
  { unfold resolveExistingPath. destruct (str_empty (join "/" parts)) eqn:E; [apply bool_decide_eq_true in E; by apply join_empty in E|].
    rewrite joinPath_names by done. assert (EvalSymlinks m (root ++ parts) = Ok (root ++ parts)) as ->.
    { unfold Stat, resolve in Hst. destruct (walk 40 false [] m [] (root ++ parts)) as [loc|] eqn:Ew; cbn [res_bind] in Hst; [|discriminate]. destruct (nodes m !! loc) eqn:En; [|discriminate].
      injection Hst as -> ->. unfold EvalSymlinks. apply (walk_mono 40 255) in Ew; [exact Ew|lia]. }
    assert (real m (root ++ parts)) as Hreal.
    { unfold Stat in Hst. destruct (resolve m _) as [loc|]; cbn [res_bind] in Hst; [|discriminate]. destruct (nodes m !! loc) eqn:En; [|discriminate]. injection Hst as -> ->. by eexists. }
    rewrite within_intro; [reflexivity|done|done|]. destruct (EvalSymlinks_straight m root Hok (dir_real _ _ Hdir)) as [-> | ->]; by apply prefix_app_r. }
  cbn [res_bind]. unfold statPath. rewrite Hst. cbn [res_bind fst snd isDir]. unfold fileAt. rewrite detect_text by done. cbn [Inspect Readable]. rewrite Hr.
  rewrite bool_decide_eq_true_2 by done. cbn [andb]. rewrite readFile_all by done. eexists. split; [reflexivity|]. done.
Qed.

(** C30: a text that was saved to a path without symbolic links is what the next [File] of that path returns, with the modification time that the save reported. *)
Theorem save_read_roundtrip env s id request m root normalized resp m' :
  fs_ok m → Forall name_ok (rootDir s) → name_ok (we_temp env) → we_temp env ≠ Base normalized →
  stackRoot s m id = Ok root → normalizeRequiredFilePath (sf_path request) = Ok normalized →
  straight m root (split normalized "/") → readable m (root ++ split normalized "/") = true →
  utf8_valid (sf_content request) = true → has_nul (sf_content request) = false →
  SaveFile env s id request m = (Ok resp, m') →
  ∃ fr, File s m' id (sf_path request) = Ok fr ∧
    fr_content fr = Some (sf_content request) ∧ fr_modified fr = sr_modified resp ∧ fr_path fr = sr_path resp.
Proof.
  intros Hok Hrd Ht Hne Hroot Hnorm Hs Hread Hu Hz. unfold SaveFile. rewrite Hroot, Hnorm. unfold CheckString, guard_err.
  destruct (MaxFileContentBytes <? slen (sf_content request)) eqn:Hsize; [discriminate|]. apply Z.ltb_ge in Hsize.
  destruct (isReservedDefinitionPath normalized) eqn:Hres; [discriminate|].
  pose proof Hnorm as Hnorm'. apply normalizeRequired_Ok in Hnorm' as (parts & Hp & Hn & ->). destruct (exists_last Hp) as (l & x & ->).
  rewrite (Base_names l x Hn) in Hne. rewrite split_join in Hs, Hread by (done || by apply names_component).
  pose proof (stackRoot_sound _ _ _ _ Hok Hrd Hroot) as (d & _ & _ & _ & Hdir).
  destruct (resolveSaveTarget_good m root l x (CreateParentDirectories request) Hok Hdir Hn (λ _, Hs)) as (r & m1 & Er & Hok1 & Hk & Hm1 & _ & Hg).
  rewrite Er. destruct r as [target|e]; [|discriminate]. destruct (resolveSaveTarget_straight _ _ _ _ _ _ _ Hok Hdir Hn Hs Er) as [Et Hold].
  destruct (Hg target eq_refl) as (dir & name & -> & Hd & Hnm & Hpd & Hx).
  destruct (writeTarget_confined env "save_stack_file" (join "/" (l ++ [x])) request dir name root m1 Hok1 Hd Hnm Ht Hpd) as (r & m2 & -> & Hok2 & Hm2 & Hpath & Hc).
  intros [= -> ->]. destruct Hc as [[_ E2]|(mode & E1 & Hmod)].
  { exfalso. destruct (E2 eq_refl) as [Hnm' Hnone]. rewrite app_assoc in Et. apply app_inj_tail in Et as [_ ->]. congruence. }
  set (f := mkFileNode (sf_content request) mode (we_now env)) in *. rewrite Et in E1, Hold.
  assert (nodes m' !! (root ++ l ++ [x]) = Some (NFile f)) as Hf by (by rewrite E1, lookup_insert_eq).
  assert (extends m m') as Hx'.
  { split; [by rewrite Hm2, Hm1|]. intros k n Hkn. rewrite E1. destruct (decide (k = root ++ l ++ [x])) as [->|Hdiff].
    - right. rewrite lookup_insert_eq. destruct Hold as [Hnone|[f0 Hf0]]; [congruence|]. exists f0, f. split; [congruence|done].
    - left. rewrite lookup_insert_ne by done. destruct (Hk k) as [-> |(_ & ? & _)]; congruence. }
  destruct (Hpath _ eq_refl) as [-> Hst]. rewrite (Hmod _ eq_refl). change (we_now env) with (f_modified f). change (sf_content request) with (f_content f).
  refine (File_text s m' id _ root (l ++ [x]) f Hok2 _ (extends_dir m m' root Hx' Hdir) Hnorm Hres Hp Hn _ _ Hu Hz Hsize).
  - exact (stackRoot_extends s m m' id root Hok Hok2 Hrd Hx' Hroot).
  - rewrite Et in Hst. destruct (Stat_straight m' _ _ Hok2 Hf) as [E|E]; [done|exact E|]. rewrite E in Hst. discriminate.
  - rewrite Hm2, Hm1. exact Hread.
Qed.

(** ** A small file system *)

Definition bare : fs := mkFS {[ [] := NDir ]} (λ _, true) (λ _, true) (λ _, true) (λ _, 7).
Definition add (dir : location) (name : string) (n : node) (m : fs) : fs := with_nodes m (<[dir ++ [name] := n]> (nodes m)).
Definition textFile (content : string) : node := NFile (mkFileNode content 420 5).
Definition web : location := ["srv"; "stacks"; "web"].
Definition demo : fs :=
  add ["srv"; "config"] "app.conf" (textFile "a=1") (add ["srv"] "config" NDir
  (add web "alias" (NLink "compose.yaml") (add web "link" (NLink "/out")
  (add web "notes.txt" (textFile "old") (add web "compose.yaml" (textFile "services: {}")
  (add ["srv"; "stacks"] "web" NDir (add ["srv"] "stacks" NDir (add [] "out" NDir (add [] "srv" NDir bare))))))))).
Definition demoService : Service := NewService ["srv"].
Definition demoEnv : writeEnv := mkWriteEnv ".stacklab-stack-1" 9 None None None.

Lemma bare_ok : fs_ok bare.
Proof.
  split; [done|]. intros l n [k H]. exfalso. cbn in H. apply lookup_singleton_Some in H as [E _]. by destruct l.
Qed.

Lemma add_ok dir name n m : fs_ok m → nodes m !! dir = Some NDir → name_ok name → nodes m !! (dir ++ [name]) = None → fs_ok (add dir name n m).
Proof. intros Hok Hd Hn Hnone. apply insert_ok; try done. right. by rewrite Hnone. Qed.

Lemma demo_ok : fs_ok demo.
Proof. unfold demo. repeat (apply add_ok; [|vm_compute; reflexivity|by repeat split|vm_compute; reflexivity]). exact bare_ok. Qed.

(** where a request may create parent directories, a symbolic link inside of the workspace leads a save outside of it: with a link to a directory [/out] in the
    directory of the stack, saving [link/new/file] makes the directory [/out/new] and writes the file there. *)
Theorem save_escapes_through_link :
  nodes demo !! ["out"; "new"] = None ∧
  match SaveFile demoEnv demoService "web" (mkSaveFileRequest "link/new/file" "data" true None) demo with
  | (Ok _, m') => nodes m' !! ["out"; "new"; "file"] = Some (NFile (mkFileNode "data" 420 9)) ∧ File demoService m' "web" "link/new/file" = Err ErrPathOutsideWorkspace
  | _ => False
  end.
Proof. split; [vm_compute; reflexivity|]. vm_compute. split; reflexivity. Qed.

(** The check for the definition files looks at the requested name only: a link to
    one of them is read and saved as another file. *)
Theorem alias_reaches_definition :
  File demoService demo "web" "compose.yaml" = Err ErrReservedPath ∧
  match SaveFile demoEnv demoService "web" (mkSaveFileRequest "alias" "services: []" false None) demo with
  | (Ok _, m') => nodes m' !! (web ++ ["compose.yaml"]) = Some (NFile (mkFileNode "services: []" 420 9))
  | _ => False
  end.
Proof. split; [vm_compute; reflexivity|]. vm_compute. reflexivity. Qed.

(** ** Witnesses *)

Definition demoSave (path : string) : SaveFileRequest := mkSaveFileRequest path "new text" false (Some 5).

Lemma demo_root : stackRoot demoService demo "web" = Ok web.
Proof. vm_compute. reflexivity. Qed.
Lemma demo_rootDir : Forall name_ok (rootDir demoService).
Proof. repeat constructor; done. Qed.
Lemma demo_notes : normalizeRequiredFilePath "./notes.txt" = Ok "notes.txt".
Proof. vm_compute. reflexivity. Qed.
Lemma demo_straight : straight demo web (split "notes.txt" "/").
Proof.
  intros q t [k E]. destruct q as [|x q]; [vm_compute; discriminate|]. change (split "notes.txt" "/") with ["notes.txt"] in E. injection E as <- E. destruct q; [|done]. vm_compute. discriminate.
Qed.

Lemma SaveFile_confined_witness :
  ∃ r m', SaveFile demoEnv demoService "web" (demoSave "./notes.txt") demo = (r, m') ∧ fs_ok m' ∧ saved_below web "new text" (is_ok r) demo m' ∧
    ∀ resp, r = Ok resp → sr_path resp = "notes.txt" ∧ sr_modified resp = 9.
Proof.
  apply (SaveFile_confined demoEnv demoService "web" (demoSave "./notes.txt") demo web "notes.txt" demo_ok demo_rootDir);
    [by repeat split|discriminate|exact demo_root|exact demo_notes|discriminate].
Defined.

Lemma demo_repair : repairTarget demoService demo "web" "notes.txt" = Ok (web ++ ["notes.txt"]).
Proof. vm_compute. reflexivity. Qed.

Lemma reads_confined_witness : web `prefix_of` web ++ ["notes.txt"] ∧ real demo (web ++ ["notes.txt"]).
Proof.
  apply (proj2 (proj2 (reads_confined (λ l, l) demoService demo "web" web "notes.txt" demo_ok demo_rootDir demo_root (λ l, reflexivity l)))). exact demo_repair.
Defined.

Lemma demo_saved : SaveFile demoEnv demoService "web" (demoSave "./notes.txt") demo =
  (Ok (mkSaveFileResponse "notes.txt" 9 "save_stack_file"), snd (SaveFile demoEnv demoService "web" (demoSave "./notes.txt") demo)).
Proof. apply injective_projections; [vm_compute; reflexivity|reflexivity]. Qed.

Lemma save_read_roundtrip_witness :
  ∃ fr, File demoService (snd (SaveFile demoEnv demoService "web" (demoSave "./notes.txt") demo)) "web" "./notes.txt" = Ok fr ∧
    fr_content fr = Some "new text" ∧ fr_modified fr = 9 ∧ fr_path fr = "notes.txt".
Proof.
  apply (save_read_roundtrip demoEnv demoService "web" (demoSave "./notes.txt") demo web "notes.txt" (mkSaveFileResponse "notes.txt" 9 "save_stack_file") _ demo_ok demo_rootDir);
    [by repeat split|discriminate|exact demo_root|exact demo_notes|exact demo_straight|reflexivity|reflexivity|reflexivity|exact demo_saved].
Defined.
