(* ===== verification/ConfigWorkspace.v ===== *)
(** * internal/configworkspace: files of the configuration directory

    Listing, reading, saving and deleting files below the configuration directory,
    on the file system of FileSystem.  Every resolution first creates the root, so
    the operations thread the file system.  [order] is the result of [sort.Slice]
    on the listed items, [ignored] the answer of git; the permission repairer is
    outside. *)

From stdpp Require Import gmap strings list.
From Stdlib Require Import ZArith Ascii Lia.
From S2P Require Import Prelude GoStrings GoPath GoTime LimitedIO FileSystem WorkspaceFiles StackWorkspace.

Local Open Scope Z_scope.

Record Service := mkService { repoRoot : list string; workspaceRoot : list string }.

Definition NewService (configRoot : list string) : Service := mkService configRoot (configRoot ++ ["config"]).

(** Entries and files with the stack they belong to and whether git ignores them. *)
Record ConfigEntry := mkConfigEntry { ce_entry : TreeEntry; ce_stack : option string; ce_ignored : bool }.
Record ConfigTree := mkConfigTree { ct_current : string; ct_parent : option string; ct_items : list ConfigEntry }.
Record ConfigFile := mkConfigFile { cf_file : FileResponse; cf_stack : option string; cf_ignored : bool }.
Record DeleteFileRequest := mkDeleteFileRequest { df_path : string; df_expected : Time }.

Definition deriveStackID (relativePath : string) : option string :=
  if str_empty relativePath then None
  else match split relativePath "/" with
       | first :: _ => if StackWorkspace.IsValidStackID first then Some first else None
       | [] => None
       end.

(** Every resolution first makes sure that the root exists. *)
Definition resolveExistingPath (s : Service) (m : fs) (relativePath : string) : res workspace_error location * fs :=
  match MkdirAll m (workspaceRoot s) with
  | (Some e, m) => (Err (ErrSystem e), m)
  | (None, m) =>
    let targetPath := if str_empty relativePath then workspaceRoot s else joinPath (workspaceRoot s) relativePath in
    (match EvalSymlinks m targetPath with
     | Err ENOENT => Err ErrNotFound
     | Err e => Err (ErrSystem e)
     | Ok resolved => let? _ := ensureWithinRoot m (workspaceRoot s) resolved in Ok resolved
     end, m)
  end.

Definition treeItem (s : Service) (m : fs) (normalized name : string) : res workspace_error (option TreeEntry) * fs :=
  let childPath := joinRelativePath normalized name in
  match resolveExistingPath s m childPath with
  | (Err ErrPathOutsideWorkspace, m) | (Err ErrNotFound, m) => (Ok None, m)
  | (Err e, m) => (Err e, m)
  | (Ok child, m) =>
    (match statPath m child with
     | Err ErrNotFound => Ok None
     | Err e => Err e
     | Ok (loc, n) =>
       Ok (Some (mkTreeEntry name childPath (detectEntryType m loc n) (if isDir n then 0 else nodeSize n) (nodeTime m loc n) (Inspect m loc)))
     end, m)
  end.

Fixpoint treeItems (s : Service) (m : fs) (normalized : string) (l : list string) : res workspace_error (list TreeEntry) * fs :=
  match l with
  | [] => (Ok [], m)
  | name :: rest =>
    match treeItem s m normalized name with
    | (Err e, m) => (Err e, m)
    | (Ok item, m) =>
      match treeItems s m normalized rest with
      | (Err e, m) => (Err e, m)
      | (Ok items, m) => (Ok (match item with Some i => i :: items | None => items end), m)
      end
    end
  end.

Definition markEntry (ignored : string → bool) (e : TreeEntry) : ConfigEntry := mkConfigEntry e (deriveStackID (te_path e)) (ignored (te_path e)).

Definition Tree (order : list ConfigEntry → list ConfigEntry) (ignored : string → bool) (s : Service) (m : fs) (currentPath : string)
    : res workspace_error ConfigTree * fs :=
  match MkdirAll m (workspaceRoot s) with
  | (Some e, m) => (Err (ErrSystem e), m)
  | (None, m) =>
    match normalizeRelativePath currentPath with
    | Err e => (Err e, m)
    | Ok normalized =>
      match resolveExistingPath s m normalized with
      | (Err e, m) => (Err e, m)
      | (Ok resolved, m) =>
        match statPath m resolved with
        | Err e => (Err e, m)
        | Ok (loc, n) =>
          if negb (isDir n) then (Err ErrPathNotDirectory, m)
          else
            match ReadDir m loc with
            | Err EACCES => (Err ErrPermissionDenied, m)
            | Err e => (Err (ErrSystem e), m)
            | Ok l =>
              match treeItems s m normalized l with
              | (Err e, m) => (Err e, m)
              | (Ok items, m) =>
                (Ok (mkConfigTree normalized (if str_empty normalized then None else Some (parentRelativePath normalized)) (order (markEntry ignored <$> items))), m)
              end
            end
        end
      end
    end
  end.

Definition File (ignored : string → bool) (s : Service) (m : fs) (filePath : string) : res workspace_error ConfigFile * fs :=
  match normalizeRequiredFilePath filePath with
  | Err e => (Err e, m)
  | Ok normalized =>
    match resolveExistingPath s m normalized with
    | (Err e, m) => (Err e, m)
    | (Ok resolved, m) =>
      (let? ln := statPath m resolved in
       if isDir ln.2 then Err ErrPathNotFile
       else let? r := StackWorkspace.fileAt m normalized ln.1 ln.2 in Ok (mkConfigFile r (deriveStackID normalized) (ignored normalized)), m)
    end
  end.

Definition saveBelow (s : Service) (m : fs) (parent : list string) (normalizedPath : string) : res workspace_error (list string) :=
  let? ln := statPath m parent in
  if negb (isDir ln.2) then Err ErrPathNotDirectory
  else if negb (writable m ln.1) then Err ErrPermissionDenied
  else
    let target := joinPath parent (Base normalizedPath) in
    let? _ := ensureWithinRoot m (workspaceRoot s) target in Ok target.

Definition resolveSaveTarget (s : Service) (m : fs) (normalizedPath : string) (create : bool) : res workspace_error (list string) * fs :=
  match resolveExistingPath s m normalizedPath with
  | (Ok path, m) => (StackWorkspace.saveExisting m path, m)
  | (Err ErrNotFound, m) =>
    match MkdirAll m (workspaceRoot s) with
    | (Some e, m) => (Err (ErrSystem e), m)
    | (None, m) =>
      let parentPath := parentRelativePath normalizedPath in
      match resolveExistingPath s m parentPath with
      | (Ok parent, m) => (saveBelow s m parent normalizedPath, m)
      | (Err ErrNotFound, m) =>
        if create then
          let parent := joinPath (workspaceRoot s) parentPath in
          match ensureWithinRoot m (workspaceRoot s) parent with
          | Err e => (Err e, m)
          | Ok _ =>
            match MkdirAll m parent with
            | (Some e, m) => (Err (ErrSystem e), m)
            | (None, m) => (saveBelow s m parent normalizedPath, m)
            end
          end
        else (Err ErrNotFound, m)
      | (Err e, m) => (Err e, m)
      end
    end
  | (Err e, m) => (Err e, m)
  end.

Definition SaveFile (env : writeEnv) (s : Service) (request : SaveFileRequest) (m : fs) : res workspace_error SaveFileResponse * fs :=
  match CheckString (sf_content request) MaxFileContentBytes with
  | Err e => (Err (ErrContent e), m)
  | Ok _ =>
    match normalizeRequiredFilePath (sf_path request) with
    | Err e => (Err e, m)
    | Ok normalized =>
      match resolveSaveTarget s m normalized (CreateParentDirectories request) with
      | (Err e, m) => (Err e, m)
      | (Ok target, m) => StackWorkspace.writeTarget env "save_config_file" normalized request target m
      end
    end
  end.

Definition configDeleteError (e : workspace_error) : workspace_error :=
  match e with
  | ErrSystem ENOENT => ErrNotFound
  | ErrSystem EACCES => ErrPermissionDenied
  | e => e
  end.

(** [os.OpenRoot] and [Root.OpenRoot]: a directory, below another one. *)
Definition openRoot (m : fs) (path : list string) : res errno location :=
  let? ln := Stat m path in if isDir ln.2 then Ok ln.1 else Err ENOTDIR.
Definition openBelow (m : fs) (root : location) (rel : list string) : res errno location :=
  let? loc := walk 255 true root m [] rel in
  match nodes m !! loc with Some NDir => Ok loc | _ => Err ENOTDIR end.
Definition Remove (m : fs) (dir : location) (name : string) : res errno fs :=
  if writable m dir then Ok (with_nodes m (delete (dir ++ [name]) (nodes m))) else Err EACCES.

(** The rooted part of [DeleteFile]; [cancelled] is the error of the context. *)
Definition deleteIn (m : fs) (parent : location) (name : string) (expected : Time) (cancelled : option string) : res workspace_error fs :=
  match entry m parent name with
  | Err e => Err (configDeleteError (ErrSystem e))
  | Ok (NFile f) =>
    if negb (f_modified f =? expected) then Err ErrConflict
    else match cancelled with
    | Some message => Err (ErrSystem (EIO message))
    | None => match Remove m parent name with Ok m => Ok m | Err e => Err (configDeleteError (ErrSystem e)) end
    end
  | Ok _ => Err ErrPathNotFile
  end.

Definition DeleteFile (s : Service) (request : DeleteFileRequest) (cancelled : option string) (m : fs) : res workspace_error string * fs :=
  if is_zero (df_expected request) then (Err ErrValidation, m)
  else
    match normalizeRequiredFilePath (df_path request) with
    | Err e => (Err e, m)
    | Ok normalized =>
      match resolveExistingPath s m normalized with
      | (Err e, m) => (Err (configDeleteError e), m)
      | (Ok _, m) =>
        match resolveExistingPath s m "" with
        | (Err e, m) => (Err (configDeleteError e), m)
        | (Ok rootPath, m) =>
          match resolveExistingPath s m (parentRelativePath normalized) with
          | (Err e, m) => (Err (configDeleteError e), m)
          | (Ok parentPath, m) =>
            match openRoot m rootPath with
            | Err e => (Err (configDeleteError (ErrSystem e)), m)
            | Ok root =>
              match openBelow m root (Rel rootPath parentPath) with
              | Err e => (Err (configDeleteError (ErrSystem e)), m)
              | Ok parent =>
                match deleteIn m parent (Base normalized) (df_expected request) cancelled with
                | Err e => (Err e, m)
                | Ok m => (Ok normalized, m)
                end
              end
            end
          end
        end
      end
    end.

(** [RepairPermissions] up to the call of the repairer: what it is asked for. *)
Definition repairTarget (s : Service) (m : fs) (path : string) : res workspace_error location * fs :=
  match normalizeRequiredRepairPath path with
  | Err e => (Err e, m)
  | Ok normalized => resolveExistingPath s m normalized
  end.

(** ** Properties *)

(** With a root that exists, resolving a path changes nothing. *)
Lemma config_resolve s m root rel : Stat m (workspaceRoot s) = Ok (root, NDir) → fs_ok m →
  ∃ r, resolveExistingPath s m rel = (r, m) ∧ ∀ loc, r = Ok loc → real m loc ∧ root `prefix_of` loc.
Proof.
  intros Hst Hok. unfold resolveExistingPath. rewrite (mkdirAll_stat _ _ _ Hst). eexists. split; [reflexivity|]. intros loc.
  destruct (EvalSymlinks m _) as [l|[]] eqn:E; try discriminate. destruct (ensureWithinRoot m _ l) as [[]|] eqn:Ew; cbn [res_bind]; [|discriminate]. intros [= ->].
  assert (real m loc) as Hr by (by eapply EvalSymlinks_real). split; [done|]. apply within_Ok in Ew; [|done|done]. by rewrite (proj1 (Stat_eval _ _ _ _ Hst)) in Ew.
Qed.

Lemma config_resolve_there s m parts : fs_ok m → (∀ l, searchable m l = true) → nodes m !! workspaceRoot s = Some NDir → Forall name_ok parts →
  real m (workspaceRoot s ++ parts) → resolveExistingPath s m (join "/" parts) = (Ok (workspaceRoot s ++ parts), m).
Proof.
  intros Hok Hs Hd Hn Hr. assert (∀ t, NDir ≠ NLink t) as Hl by done. pose proof (Stat_open _ _ _ Hok Hs Hd Hl) as Hst.
  unfold resolveExistingPath. rewrite (mkdirAll_stat _ _ _ Hst).
  assert ((if str_empty (join "/" parts) then workspaceRoot s else joinPath (workspaceRoot s) (join "/" parts)) = workspaceRoot s ++ parts) as ->.
  { destruct (str_empty (join "/" parts)) eqn:E; [|by apply joinPath_names]. apply bool_decide_eq_true in E. apply join_empty in E as ->; [by rewrite app_nil_r|done]. }
  unfold EvalSymlinks. rewrite (walk_open 255 false [] m [] _ Hok Hs Hr). cbn [app]. rewrite within_intro; [reflexivity|done|done|].
  rewrite (proj1 (Stat_eval _ _ _ _ Hst)). by apply prefix_app_r.
Qed.

(** [DeleteFile] of the configuration workspace removes exactly one regular file, with the requested name, below the real root of the workspace, and only when its
    modification time is the one the client saw; in every other case it changes nothing. *)
Theorem DeleteFile_exact s request cancelled m root r m' :
  fs_ok m → Stat m (workspaceRoot s) = Ok (root, NDir) → DeleteFile s request cancelled m = (r, m') →
  match r with
  | Err _ => m' = m
  | Ok normalized => normalizeRequiredFilePath (df_path request) = Ok normalized ∧ fs_ok m' ∧ cancelled = None ∧
    ∃ dir f, root `prefix_of` dir ∧ nodes m !! (dir ++ [Base normalized]) = Some (NFile f) ∧ f_modified f = df_expected request ∧
      m' = with_nodes m (delete (dir ++ [Base normalized]) (nodes m))
  end.
Proof.
  intros Hok Hst. unfold DeleteFile. destruct (is_zero _); [by intros [= <- <-]|]. destruct (normalizeRequiredFilePath _) as [normalized|]; [|by intros [= <- <-]].
  destruct (config_resolve s m root normalized Hst Hok) as (r1 & -> & _). destruct r1; [|by intros [= <- <-]].
  destruct (config_resolve s m root "" Hst Hok) as (r2 & -> & H2). destruct r2 as [rootPath|]; [|by intros [= <- <-]]. destruct (H2 rootPath eq_refl) as [Hr2 Hp2].
  destruct (config_resolve s m root (parentRelativePath normalized) Hst Hok) as (r3 & -> & _). destruct r3 as [parentPath|]; [|by intros [= <- <-]].
  destruct (openRoot m rootPath) as [base|] eqn:Eo; [|by intros [= <- <-]]. destruct (openBelow m base _) as [parent|] eqn:Eb; [|by intros [= <- <-]].
  assert (base = rootPath ∧ nodes m !! base = Some NDir) as [-> Hbase].
  { unfold openRoot in Eo. destruct (Stat m rootPath) as [[l n]|] eqn:Es; cbn [res_bind fst snd] in Eo; [|discriminate]. destruct (isDir n) eqn:Ed; [|discriminate].
    injection Eo as ->. destruct Hr2 as (k & Hk & Hl). destruct (Stat_straight m rootPath k Hok Hk Hl) as [E|E]; rewrite E in Es; [|discriminate]. injection Es as <- <-. by destruct k. }
  assert (nodes m !! parent = Some NDir ∧ root `prefix_of` parent) as [Hpar Hpp].
  { unfold openBelow in Eb. destruct (walk 255 true rootPath m [] _) as [l|] eqn:Ew; cbn [res_bind] in Eb; [|discriminate].
    apply walk_real in Ew as [_ Hpre]; [|done|done|by rewrite app_nil_r]. destruct (nodes m !! l) as [[]|] eqn:El; try discriminate. injection Eb as ->. split; [done|]. by etrans. }
  unfold deleteIn. destruct (entry m parent (Base normalized)) as [[|f| |]|] eqn:Ee; try (by intros [= <- <-]). apply entry_Ok in Ee.
  destruct (f_modified f =? _) eqn:Et; cbn [negb]; [|by intros [= <- <-]]. destruct cancelled; [by intros [= <- <-]|]. unfold Remove.
  destruct (writable m parent); [|by intros [= <- <-]]. intros [= <- <-]. split; [done|]. split; [apply delete_ok; [done|congruence]|]. split; [done|].
  exists parent, f. split_and!; [done|done|by apply Z.eqb_eq|done].
Qed.

Lemma Rel_prefix base target : Rel base (base ++ target) = target.
Proof. induction base as [|b base IH]; cbn; [done|]. unfold str_eqb. by rewrite bool_decide_eq_true_2. Qed.

(** a regular file below the configuration root, on a path without links, is deleted when its time is the expected one, its directory is writable and the
    request was not cancelled; nothing else changes. *)
Theorem DeleteFile_deletes s request l x f m :
  fs_ok m → (∀ k, searchable m k = true) → nodes m !! workspaceRoot s = Some NDir →
  normalizeRequiredFilePath (df_path request) = Ok (join "/" (l ++ [x])) → Forall name_ok (l ++ [x]) →
  nodes m !! (workspaceRoot s ++ l ++ [x]) = Some (NFile f) → f_modified f = df_expected request →
  is_zero (df_expected request) = false → writable m (workspaceRoot s ++ l) = true →
  DeleteFile s request None m = (Ok (join "/" (l ++ [x])), with_nodes m (delete (workspaceRoot s ++ l ++ [x]) (nodes m))).
Proof.
  intros Hok Hs Hd Hnorm Hn Hf Ht Hz Hw. unfold DeleteFile. rewrite Hz, Hnorm, (parent_names l x Hn), (Base_names l x Hn). set (root := workspaceRoot s) in *.
  assert (real m (root ++ l ++ [x])) as Hr by (by eexists). assert (nodes m !! (root ++ l) = Some NDir) as Hp.
  { apply (above_dir m _ [x] Hok); [rewrite <- app_assoc; by eexists|done]. }
  apply Forall_app in Hn as Hl. destruct Hl as [Hl _].
  rewrite config_resolve_there by done. change "" with (join "/" []). rewrite config_resolve_there; [|done..|rewrite app_nil_r; by apply dir_real].
  rewrite config_resolve_there; [|done..|by apply dir_real]. fold root. rewrite app_nil_r. unfold openRoot. rewrite (Stat_open m root NDir) by done. cbn [res_bind fst snd isDir].
  rewrite Rel_prefix. unfold openBelow. rewrite walk_open; [|done|done|by apply dir_real]. cbn [res_bind app]. rewrite Hp.
  unfold deleteIn, entry. rewrite Hs, <- app_assoc, Hf. cbn [negb]. rewrite Ht, Z.eqb_refl. cbn [negb]. unfold Remove. by rewrite Hw, <- app_assoc.
Qed.

(** ** Witnesses *)

Definition demoConfig : Service := NewService ["srv"].
Definition demoDelete : DeleteFileRequest := mkDeleteFileRequest "app.conf" 5.

Lemma demo_config_root : Stat demo (workspaceRoot demoConfig) = Ok (["srv"; "config"], NDir).
Proof. vm_compute. reflexivity. Qed.
Lemma demo_config_dir : nodes demo !! workspaceRoot demoConfig = Some NDir.
Proof. vm_compute. reflexivity. Qed.
Lemma demo_config_file : nodes demo !! (workspaceRoot demoConfig ++ [] ++ ["app.conf"]) = Some (NFile (mkFileNode "a=1" 420 5)).
Proof. vm_compute. reflexivity. Qed.
Lemma demo_config_norm : normalizeRequiredFilePath "app.conf" = Ok (join "/" ([] ++ ["app.conf"])).
Proof. vm_compute. reflexivity. Qed.

Lemma DeleteFile_deletes_witness :
  DeleteFile demoConfig demoDelete None demo = (Ok "app.conf", with_nodes demo (delete ["srv"; "config"; "app.conf"] (nodes demo))).
Proof.
  apply (DeleteFile_deletes demoConfig demoDelete [] "app.conf" (mkFileNode "a=1" 420 5) demo demo_ok);
    [done|exact demo_config_dir|exact demo_config_norm|by repeat constructor|exact demo_config_file|reflexivity..].
Defined.

Lemma demo_deleted : DeleteFile demoConfig demoDelete None demo = (Ok "app.conf", snd (DeleteFile demoConfig demoDelete None demo)).
Proof. apply injective_projections; [vm_compute; reflexivity|reflexivity]. Qed.

Lemma DeleteFile_exact_witness :
  normalizeRequiredFilePath "app.conf" = Ok "app.conf" ∧ fs_ok (snd (DeleteFile demoConfig demoDelete None demo)) ∧ (None : option string) = None ∧
    ∃ dir f, ["srv"; "config"] `prefix_of` dir ∧ nodes demo !! (dir ++ ["app.conf"]) = Some (NFile f) ∧ f_modified f = 5 ∧
      snd (DeleteFile demoConfig demoDelete None demo) = with_nodes demo (delete (dir ++ ["app.conf"]) (nodes demo)).
Proof. exact (DeleteFile_exact demoConfig demoDelete None demo ["srv"; "config"] (Ok "app.conf") _ demo_ok demo_config_root demo_deleted). Defined.
