(* ===== verification/Stacks.v ===== *)
(** * internal/stacks: Compose definitions, containers and the state of a stack

    The part of stacks/service.go, stacks/lint.go and stacks/types.go that computes
    on values: the services and the metadata of a Compose document, the advisory
    lint, the containers that Docker reports, and what is derived from both: the
    runtime state, the health, the actions that are offered, and the list of
    stacks with its summary.  What reads the file system and runs commands is in
    StackReader.

    Parameters ([lib]): the YAML decoder, [net/url], [strings.ToLower] and the
    decoder of the JSON that [docker inspect] prints. *)

From stdpp Require Import gmap strings list sorting.
From Stdlib Require Import Ascii ZArith Lia.
From S2P Require Import Prelude GoStrings GoPath GoTime StoreAuth StackWorkspace.

Local Open Scope Z_scope.

(** ** Data (types.go) *)

Inductive RuntimeState :=
| RuntimeStateDefined | RuntimeStateRunning | RuntimeStatePartial | RuntimeStateStopped | RuntimeStateError | RuntimeStateOrphaned.
Inductive ConfigState := ConfigStateUnknown | ConfigStateInSync | ConfigStateDrifted | ConfigStateInvalid.
Inductive ActivityState := ActivityStateIdle | ActivityStateLocked.
Inductive ServiceMode := ServiceModeImage | ServiceModeBuild | ServiceModeHybrid.
#[global] Instance RuntimeState_eq_dec : EqDecision RuntimeState.
Proof. solve_decision. Defined.
#[global] Instance ConfigState_eq_dec : EqDecision ConfigState.
Proof. solve_decision. Defined.
#[global] Instance ServiceMode_eq_dec : EqDecision ServiceMode.
Proof. solve_decision. Defined.

Record PortMapping := mkPort { pm_published : Z; pm_target : Z; pm_protocol : string }.
#[global] Instance PortMapping_eq_dec : EqDecision PortMapping.
Proof. solve_decision. Defined.
Record VolumeMount := mkVolume { vm_source : string; vm_target : string }.
Record Service := mkService {
  sv_name : string; sv_mode : ServiceMode; sv_image : option string; sv_build : option string; sv_dockerfile : option string;
  sv_ports : list PortMapping; sv_volumes : list VolumeMount; sv_depends : list string; sv_healthcheck : bool }.
Record Container := mkContainer {
  ct_id : string; ct_name : string; ct_service : string; ct_status : string; ct_health : option string; ct_started : option Time;
  ct_image : string; ct_image_ref : string; ct_ports : list PortMapping; ct_networks : list string }.
Record HealthSummary := mkHealth { hs_healthy : Z; hs_unhealthy : Z; hs_unknown : Z }.
Record StackMetaLink := mkLink { ml_label : string; ml_url : string }.
Record StackMetadata := mkMetadata { md_icon : string; md_links : list StackMetaLink }.
Record ImageUpdateState := mkUpdateState { iu_state : string; iu_checked : Time }.
Record StackUpdates := mkUpdates { su_state : string; su_count : Z; su_checked : Time }.
Record ComposeWarning := mkWarning { cw_code : string; cw_service : string }.

(** ** Decoded documents

    A value of type [any] as yaml.v3 decodes it.  [VInt] is an [int] (an [int64]
    does not occur where [int] has 64 bits); of a float only its conversion to
    [int] is used; [VMap] is a mapping whose keys are strings, distinct, and
    [VOther] is everything else. *)

Inductive value :=
| VNull
| VString (s : string)
| VInt (z : Z)
| VFloat (truncated : Z)
| VList (l : list value)
| VMap (m : list (string * value))
| VOther.

(** [m[key]]. *)
Fixpoint field (m : list (string * value)) (key : string) : option value :=
  match m with [] => None | (k, v) :: rest => if str_eqb k key then Some v else field rest key end.
(** [s, _ := v.(string)]. *)
Definition stringOr (v : option value) : string := match v with Some (VString s) => s | _ => "" end.

(** [composeDefinition], [composeXStacklab] and [composeService]; an absent value is [VNull]. *)
Record composeService := mkComposeService {
  cs_image : string; cs_build : value; cs_ports : list value; cs_volumes : list value; cs_depends : value; cs_healthcheck : value }.
Record composeXStacklab := mkXStacklab { xs_icon : string; xs_links : list (string * string) }.
Record composeDefinition := mkComposeDefinition { cd_services : gmap string composeService; cd_xstacklab : option composeXStacklab }.
Record lintService := mkLintService { ls_restart : string; ls_healthcheck : value; ls_network_mode : string; ls_ports : list value }.

Record dockerInspectContainer := mkInspect {
  ic_id : string; ic_name : string; ic_image : string; ic_config_image : string; ic_labels : gmap string string; ic_status : string;
  ic_started : string; ic_health : option string; ic_ports : gmap string (list string); ic_networks : gset string }.

Record parsedURL := mkURL { u_scheme : string; u_host : string; u_text : string }.
Record lib := mkLib {
  ToLower : string → string;
  yaml_compose : string → res string composeDefinition;
  yaml_lint : string → option (gmap string lintService);
  url_parse : string → option parsedURL;
  json_inspect : string → option (list dockerInspectContainer) }.

(** ** Helpers of the standard library *)

(** [strings.SplitN(s, sep, 2)]. *)
Definition SplitN2 (s : string) (sep : ascii) : string * option string :=
  match Cut s sep with Some (a, b) => (a, Some b) | None => (s, None) end.
(** [filepath.Join]. *)
Definition Join (elems : list string) : string :=
  match filter (λ e, e ≠ "") elems with [] => "" | l => Clean (join "/" l) end.
(** The first occurrence of each element: the loops with a [seen] map. *)
Fixpoint distinct {A} `{EqDecision A} (seen l : list A) : list A :=
  match l with
  | [] => []
  | x :: r => if bool_decide (x ∈ seen) then distinct seen r else x :: distinct (x :: seen) r
  end.

(** ** The services of a Compose document *)

Section compose.
Variable L : lib.

Definition resolvePath (root v : string) : string := if is_abs v then v else Clean (Join [root; v]).
Definition resolveMaybeRelativePath (root v : string) : string :=
  if str_empty v then "" else if has_prefix v "/" then v else if has_prefix v "." then resolvePath root v else v.

Definition toInt (v : option value) : option Z :=
  match v with
  | Some (VInt z) => Some z
  | Some (VFloat z) => Some z
  | Some (VString s) => atoi s
  | _ => None
  end.

Definition port_leb (p q : PortMapping) : bool :=
  if pm_published p =? pm_published q then
    if pm_target p =? pm_target q then bool_decide (String.le (pm_protocol p) (pm_protocol q))
    else pm_target p <? pm_target q
  else pm_published p <? pm_published q.
Definition port_le (p q : PortMapping) : Prop := port_leb p q = true.
#[global] Instance port_le_dec : RelDecision port_le.
Proof using. intros p q. exact (decide (port_leb p q = true)). Defined.

Definition normalizePort (p : PortMapping) : PortMapping :=
  let protocol := ToLower L (trim_space (pm_protocol p)) in
  mkPort (pm_published p) (pm_target p) (if str_empty protocol then "tcp" else protocol).
Definition normalizePortMappings (ports : list PortMapping) : list PortMapping :=
  merge_sort port_le (distinct [] (normalizePort <$> ports)).

Definition parseShortPortMapping (v : string) : option PortMapping :=
  let '(portSpec, suffix) := SplitN2 v "/" in
  let protocol := match suffix with Some p => if str_empty p then "tcp" else p | None => "tcp" end in
  match rev (split portSpec ":") with
  | [] => None
  | lastToken :: before =>
    match atoi lastToken with
    | None => None
    | Some target =>
      let published := match before with t :: _ => default target (atoi t) | [] => target end in
      Some (mkPort published target protocol)
    end
  end.

Definition parseComposePort (v : value) : option PortMapping :=
  match v with
  | VString s => parseShortPortMapping s
  | VInt z => Some (mkPort z z "tcp")
  | VMap m =>
    match toInt (field m "target") with
    | None => None
    | Some target =>
      let published := default target (toInt (field m "published")) in
      let protocol := stringOr (field m "protocol") in
      Some (mkPort published target (if str_empty protocol then "tcp" else protocol))
    end
  | _ => None
  end.
Definition parseComposePorts (values : list value) : list PortMapping := normalizePortMappings (omap parseComposePort values).

Definition parseComposeVolume (stackRoot : string) (v : value) : option VolumeMount :=
  match v with
  | VString s =>
    match split s ":" with
    | source :: target :: _ => Some (mkVolume (resolveMaybeRelativePath stackRoot source) target)
    | [target] => Some (mkVolume "" target)
    | [] => None
    end
  | VMap m =>
    let target := stringOr (field m "target") in
    if str_empty target then None else Some (mkVolume (resolveMaybeRelativePath stackRoot (stringOr (field m "source"))) target)
  | _ => None
  end.
Definition parseComposeVolumes (stackRoot : string) (values : list value) : list VolumeMount := omap (parseComposeVolume stackRoot) values.

Definition parseDependsOn (v : value) : list string :=
  match v with
  | VList l => sort_strings (omap (λ item, match item with VString name => if str_empty name then None else Some name | _ => None end) l)
  | VMap m => sort_strings m.*1
  | _ => []
  end.

(** The mode, the image, the build context and the Dockerfile. *)
Definition parseServiceSource (stackRoot image : string) (build : value) : ServiceMode * option string * option string * option string :=
  let imageRef := if str_empty image then None else Some image in
  let '(buildContext, dockerfilePath) :=
    match build with
    | VString v => (Some (resolvePath stackRoot v), None)
    | VMap m =>
      let contextValue := stringOr (field m "context") in
      if str_empty contextValue then (None, None)
      else
        let resolved := resolvePath stackRoot contextValue in
        let dockerfile := stringOr (field m "dockerfile") in
        (Some resolved, if str_empty dockerfile then None else Some (if is_abs dockerfile then dockerfile else Join [resolved; dockerfile]))
    | _ => (None, None)
    end in
  match imageRef, buildContext with
  | Some _, Some _ => (ServiceModeHybrid, imageRef, buildContext, dockerfilePath)
  | None, Some _ => (ServiceModeBuild, None, buildContext, dockerfilePath)
  | _, None => (ServiceModeImage, imageRef, None, None)
  end.

Definition metadataMaxLinks : nat := 8.
(** [^[a-z0-9][a-z0-9-]{0,63}$]. *)
Definition metadataIcon (s : string) : bool :=
  match s with
  | EmptyString => false
  | String c r => word_char c && all_chars (λ d, word_char d || Ascii.eqb d "-") r && (slen r <=? 63)
  end.
Fixpoint metadataLinks (room : nat) (links : list (string * string)) : list StackMetaLink :=
  match room, links with
  | O, _ | _, [] => []
  | S room', (label, url) :: rest =>
    let label := trim_space label in
    match url_parse L (trim_space url) with
    | Some u =>
      if str_empty label || negb (str_in (u_scheme u) ["http"; "https"]) || str_empty (u_host u) then metadataLinks room rest
      else mkLink label (u_text u) :: metadataLinks room' rest
    | None => metadataLinks room rest
    end
  end.
Definition parseStackMetadata (x : option composeXStacklab) : option StackMetadata :=
  match x with
  | None => None
  | Some x =>
    let icon := if metadataIcon (xs_icon x) then xs_icon x else "" in
    let links := metadataLinks metadataMaxLinks (xs_links x) in
    if str_empty icon && bool_decide (length links = 0%nat) then None else Some (mkMetadata icon links)
  end.

Definition isNull (v : value) : bool := match v with VNull => true | _ => false end.
Definition composeServiceOf (stackRoot name : string) (raw : composeService) : Service :=
  let '(mode, imageRef, buildContext, dockerfilePath) := parseServiceSource stackRoot (cs_image raw) (cs_build raw) in
  mkService name mode imageRef buildContext dockerfilePath (parseComposePorts (cs_ports raw)) (parseComposeVolumes stackRoot (cs_volumes raw))
    (parseDependsOn (cs_depends raw)) (negb (isNull (cs_healthcheck raw))).
Definition parseComposeServices (stackRoot content : string) : res string (list Service * option StackMetadata) :=
  let? doc := yaml_compose L content in
  Ok ((λ e : string * composeService, composeServiceOf stackRoot e.1 e.2) <$> sort_by fst (map_to_list (cd_services doc)), parseStackMetadata (cd_xstacklab doc)).

(** ** The lint (lint.go) *)

Fixpoint trimBrackets (s : string) : string :=
  match s with String c r => if Ascii.eqb c "[" || Ascii.eqb c "]" then trimBrackets r else s | EmptyString => s end.
Definition publicPortBind (entry : value) : bool :=
  match entry with
  | VString v =>
    match rev (split v ":") with
    | [] | [_] | [_; _] => true
    | _ :: _ :: host => str_in (String.rev (trimBrackets (String.rev (trimBrackets (join ":" (rev host)))))) ["0.0.0.0"; "::"]
    end
  | VInt _ => true
  | VMap m => match field m "published" with None => false | Some _ => str_in (stringOr (field m "host_ip")) [""; "0.0.0.0"; "::"] end
  | _ => false
  end.
Definition lintOne (name : string) (s : lintService) : list ComposeWarning :=
  (if isNull (ls_healthcheck s) then [mkWarning "missing_healthcheck" name] else [])
  ++ (if str_in (ls_restart s) [""; "no"] then [mkWarning "missing_restart_policy" name] else [])
  ++ (if existsb publicPortBind (ls_ports s) then [mkWarning "public_port_bind" name] else []).
Definition LintCompose (content : string) : list ComposeWarning :=
  match yaml_lint L content with
  | None => []
  | Some services => concat ((λ e : string * lintService, lintOne e.1 e.2) <$> sort_by fst (map_to_list services))
  end.
End compose.

(** ** Containers *)

Definition parseExposedPort (v : string) : Z * string :=
  let '(first, suffix) := SplitN2 v "/" in
  match atoi first with
  | None => (0, "")
  | Some target => (target, match suffix with Some p => if str_empty p then "tcp" else p | None => "tcp" end)
  end.

Definition normalizeContainerStatus (state : string) : string :=
  if str_in state ["created"; "running"; "restarting"; "paused"; "exited"; "dead"] then state else "created".

Section runtime.
Context (L : lib) `{!MapRange string (list string)}.

(** The mappings of one exposed port; a binding without a number is skipped. *)
Definition exposedPorts (e : string * list string) : list PortMapping :=
  let '(target, protocol) := parseExposedPort e.1 in
  if target =? 0 then []
  else match e.2 with
  | [] => [mkPort target target protocol]
  | bindings => omap (λ hostPort, (λ published, mkPort published target protocol) <$> atoi hostPort) bindings
  end.

Definition containerOf (c : dockerInspectContainer) (serviceName : string) : Container :=
  mkContainer (ic_id c) (default (ic_name c) (strip_prefix "/" (ic_name c))) serviceName (normalizeContainerStatus (ic_status c)) (ic_health c)
    (if str_empty (ic_started c) || has_prefix (ic_started c) "0001-01-01" then None else parse_rfc3339nano (ic_started c))
    (ic_image c) (ic_config_image c) (normalizePortMappings L (concat (exposedPorts <$> range_list (ic_ports c)))) (sort_strings (elements (ic_networks c))).

(** The project of a container and the container, when both labels are usable. *)
Definition managedContainer (c : dockerInspectContainer) : option (string * Container) :=
  let projectID := default "" (ic_labels c !! "com.docker.compose.project") in
  let serviceName := default "" (ic_labels c !! "com.docker.compose.service") in
  if negb (IsValidStackID projectID) || str_empty serviceName then None else Some (projectID, containerOf c serviceName).

(** [scanRuntime] after the two commands. *)
Definition groupContainers (inspected : list dockerInspectContainer) : gmap string (list Container) :=
  sort_by ct_name <$> foldl (λ m (e : string * Container), <[e.1 := default [] (m !! e.1) ++ [e.2]]> m) ∅ (omap managedContainer inspected).
End runtime.

(** ** What is derived *)

Definition serviceStatusPriority (status : string) : Z :=
  if str_in status ["restarting"; "dead"] then 5
  else if str_eqb status "running" then 4
  else if str_eqb status "paused" then 3
  else if str_eqb status "created" then 2
  else if str_eqb status "exited" then 1
  else 0.

(** The most important status of a container of each service. *)
Definition noteStatus (m : gmap string string) (c : Container) : gmap string string :=
  let current := default "" (m !! ct_service c) in
  if str_empty current || (serviceStatusPriority current <? serviceStatusPriority (ct_status c)) then <[ct_service c := ct_status c]> m else m.
Definition statusByService (containers : list Container) : gmap string string := foldl noteStatus ∅ containers.

Definition isError (status : string) : bool := str_in status ["restarting"; "dead"].
Definition isRunning (status : string) : bool := str_eqb status "running".
Definition countIf {A} (f : A → bool) (l : list A) : Z := Z.of_nat (length (List.filter f l)).

Definition deriveRuntimeState (definitionExists : bool) (services : list Service) (containers : list Container) : RuntimeState :=
  if negb definitionExists && negb (bool_decide (length containers = 0%nat)) then RuntimeStateOrphaned
  else if bool_decide (length containers = 0%nat) then RuntimeStateDefined
  else
    let statuses := (map_to_list (statusByService containers)).*2 in
    let runningServices := countIf isRunning statuses in
    if existsb isError statuses then RuntimeStateError
    else if runningServices =? 0 then RuntimeStateStopped
    else if negb (bool_decide (length services = 0%nat)) && (runningServices <? Z.of_nat (length services)) then RuntimeStatePartial
    else if bool_decide (length services = 0%nat) && (runningServices <? Z.of_nat (length statuses)) then RuntimeStatePartial
    else RuntimeStateRunning.

Definition calculateHealthSummary (containers : list Container) : HealthSummary :=
  foldl (λ h c,
    if bool_decide (ct_health c = Some "healthy") then mkHealth (hs_healthy h + 1) (hs_unhealthy h) (hs_unknown h)
    else if bool_decide (ct_health c = Some "unhealthy") then mkHealth (hs_healthy h) (hs_unhealthy h + 1) (hs_unknown h)
    else mkHealth (hs_healthy h) (hs_unhealthy h) (hs_unknown h + 1)) (mkHealth 0 0 0) containers.

(** The earliest and the latest instant; zero when there is none. *)
Definition widen (r : Time * Time) (t : Time) : Time * Time :=
  (if is_zero r.1 || before t r.1 then t else r.1, if is_zero r.2 || after t r.2 then t else r.2).
Definition runtimeTimeRange (containers : list Container) : Time * Time := foldl widen (zero_time, zero_time) (omap ct_started containers).
(** [timeRange] on the modification times of the files that could be read. *)
Definition timeRange (times : list (option Time)) : Time * Time := foldl widen (zero_time, zero_time) (omap id times).
Definition mergeTimes (existing candidate : Time * Time) : Time * Time :=
  (if is_zero existing.1 || (negb (is_zero candidate.1) && before candidate.1 existing.1) then candidate.1 else existing.1,
   if is_zero existing.2 || (negb (is_zero candidate.2) && after candidate.2 existing.2) then candidate.2 else existing.2).

(** ** A discovered stack *)

Record discoveredStack := mkStack {
  st_id : string; st_root : list string; st_compose : list string; st_env : list string; st_config_path : list string; st_data_path : list string;
  st_services : list Service; st_metadata : option StackMetadata; st_containers : list Container;
  st_runtime : RuntimeState; st_config : ConfigState; st_activity : ActivityState; st_health : HealthSummary;
  st_created : Time; st_updated : Time; st_deployed : option Time; st_defined : bool }.

Record definitionSnapshot := mkSnapshot {
  df_services : list Service; df_metadata : option StackMetadata; df_config : ConfigState; df_compose : string; df_compose_sha : string;
  df_env : string; df_env_exists : bool; df_env_sha : string; df_created : Time; df_updated : Time }.

(** [stackPaths]. *)
Record stackPathSet := mkPaths { RootPath : list string; ComposeFilePath : list string; EnvFilePath : list string; ConfigPath : list string; DataPath : list string }.
Definition stackPaths (rootDir : list string) (stackID : string) : stackPathSet :=
  let root := rootDir ++ ["stacks"; stackID] in
  mkPaths root (root ++ ["compose.yaml"]) (root ++ [".env"]) (rootDir ++ ["config"; stackID]) (rootDir ++ ["data"; stackID]).

(** The configuration state against the last deploy: [hashes] are those of the
    current files, [None] when they cannot be read. *)
Definition deployState (state : ConfigState) (baseline : option Baseline) (hashes : option (string * string)) : ConfigState :=
  match baseline with
  | None => state
  | Some b =>
    if bool_decide (state = ConfigStateInvalid) then state
    else match hashes with
    | Some (compose, env) => if str_eqb (ComposeSHA256 b) compose && str_eqb (EnvSHA256 b) env then ConfigStateInSync else ConfigStateDrifted
    | None => ConfigStateDrifted
    end
  end.

(** The body of the loop of [readStacks] for one stack. *)
Definition discover (rootDir : list string) (now : Time) (id : string) (definition : option definitionSnapshot) (baseline : option Baseline)
    (hashes : option (string * string)) (containers : option (list Container)) : discoveredStack :=
  let paths := stackPaths rootDir id in
  let definitionExists := bool_decide (is_Some definition) in
  let services := match definition with Some d => df_services d | None => [] end in
  let running := default [] containers in
  let config := match definition with Some d => deployState (df_config d) baseline hashes | None => ConfigStateUnknown end in
  let times := match definition with Some d => (df_created d, df_updated d) | None => (zero_time, zero_time) end in
  let times := match containers with Some cs => mergeTimes times (runtimeTimeRange cs) | None => times end in
  let runtime := deriveRuntimeState definitionExists services running in
  let created := if is_zero times.1 then times.2 else times.1 in
  let updated := if is_zero times.2 then created else times.2 in
  let '(created, updated) := if is_zero created then (now, now) else (created, updated) in
  mkStack id (RootPath paths) (ComposeFilePath paths) (EnvFilePath paths) (ConfigPath paths) (DataPath paths)
    services (definition ≫= df_metadata) running runtime (if bool_decide (runtime = RuntimeStateOrphaned) then ConfigStateUnknown else config) ActivityStateIdle
    (match containers with Some cs => calculateHealthSummary cs | None => mkHealth 0 0 0 end) created updated (LastDeployedAt <$> baseline) definitionExists.

Definition runningContainers (s : discoveredStack) : list Container := List.filter (λ c, isRunning (ct_status c)) (st_containers s).
Definition runningContainerCount (s : discoveredStack) : Z := Z.of_nat (length (runningContainers s)).
Definition runningServiceCount (s : discoveredStack) : Z := Z.of_nat (size (list_to_set (ct_service <$> runningContainers s) : gset string)).

Record StackCapabilities := mkCapabilities { CanEditDefinition : bool; CanViewLogs : bool; CanViewStats : bool; CanOpenTerminal : bool }.
Definition capabilities (s : discoveredStack) : StackCapabilities := mkCapabilities (negb (bool_decide (st_runtime s = RuntimeStateOrphaned))) true true true.

Definition availableActions (s : discoveredStack) : list string :=
  if bool_decide (st_runtime s = RuntimeStateOrphaned) then ["down"]
  else if bool_decide (st_config s = ConfigStateInvalid) then
    ["validate"; "save_definition"] ++ (if bool_decide (length (st_containers s) = 0%nat) then [] else ["stop"; "down"])
  else match st_runtime s with
  | RuntimeStateDefined => ["validate"; "up"; "pull"; "build"; "save_definition"; "remove_stack_definition"]
  | RuntimeStateStopped => ["validate"; "up"; "down"; "pull"; "build"; "recreate"; "save_definition"; "remove_stack_definition"]
  | _ => ["validate"; "up"; "restart"; "stop"; "down"; "pull"; "build"; "recreate"; "save_definition"; "remove_stack_definition"]
  end.

Record StackHeader := mkHeader {
  sh_id : string; sh_name : string; sh_created : Time; sh_updated : Time; sh_display : RuntimeState; sh_runtime : RuntimeState; sh_config : ConfigState;
  sh_activity : ActivityState; sh_health : HealthSummary; sh_metadata : option StackMetadata }.
Definition header (s : discoveredStack) : StackHeader :=
  mkHeader (st_id s) (st_id s) (st_created s) (st_updated s) (st_runtime s) (st_runtime s) (st_config s) (st_activity s) (st_health s) (st_metadata s).

(** [rollupUpdates] over the services whose image has a known state. *)
Definition imageStates (services : list Service) (statusByImage : gmap string ImageUpdateState) : list ImageUpdateState :=
  omap (λ s, sv_image s ≫= λ ref, statusByImage !! ref) services.
Definition rollupUpdates (services : list Service) (statusByImage : gmap string ImageUpdateState) : option StackUpdates :=
  let known := imageStates services statusByImage in
  let withUpdates := countIf (λ u, str_eqb (iu_state u) "available") known in
  let upToDate := countIf (λ u, str_eqb (iu_state u) "up_to_date") known in
  if bool_decide (length known = 0%nat) then None
  else Some (mkUpdates (if 0 <? withUpdates then "available" else if upToDate =? Z.of_nat (length known) then "up_to_date" else "unknown")
               withUpdates (foldl (λ t u, if after (iu_checked u) t then iu_checked u else t) zero_time known)).

(** ** The list of stacks *)

Record ListQuery := mkListQuery { lq_search : string; lq_sort : string }.
Record ContainerRollup := mkRollup { cr_running : Z; cr_total : Z }.
Record StackListSummary := mkSummary {
  ss_stacks : Z; ss_running : Z; ss_stopped : Z; ss_error : Z; ss_defined : Z; ss_orphaned : Z; ss_containers : ContainerRollup }.
Record ServiceCount := mkServiceCount { sc_defined : Z; sc_running : Z }.
Record StackListItem (Stats : Type) := mkListItem {
  li_header : StackHeader; li_services : ServiceCount; li_stats : option Stats; li_updates : option StackUpdates }.
Arguments mkListItem {Stats}. Arguments li_header {Stats}. Arguments li_services {Stats}. Arguments li_stats {Stats}. Arguments li_updates {Stats}.

Definition stateOrder (s : RuntimeState) : Z :=
  match s with
  | RuntimeStateError => 0 | RuntimeStatePartial => 1 | RuntimeStateRunning => 2 | RuntimeStateStopped => 3 | RuntimeStateDefined => 4 | RuntimeStateOrphaned => 5
  end.

Section list.
Context {Stats : Type} (lower : string → string) (statsByProject : gmap string Stats) (statusByImage : gmap string ImageUpdateState).

Definition item_leb (sortBy : string) (a b : StackListItem Stats) : bool :=
  let left := stateOrder (sh_runtime (li_header a)) in
  let right := stateOrder (sh_runtime (li_header b)) in
  if str_eqb sortBy "state" && negb (left =? right) then left <? right
  else bool_decide (String.le (sh_name (li_header a)) (sh_name (li_header b))).
Definition item_le (sortBy : string) (a b : StackListItem Stats) : Prop := item_leb sortBy a b = true.
#[global] Instance item_le_dec sortBy : RelDecision (item_le sortBy).
Proof using. intros a b. exact (decide (item_leb sortBy a b = true)). Defined.
Definition sortStackListItems (items : list (StackListItem Stats)) (sortBy : string) : list (StackListItem Stats) := merge_sort (item_le sortBy) items.

Definition listItem (s : discoveredStack) : StackListItem Stats :=
  mkListItem (header s) (mkServiceCount (Z.of_nat (length (st_services s))) (runningServiceCount s))
    (if 0 <? runningContainerCount s then statsByProject !! st_id s else None) (rollupUpdates (st_services s) statusByImage).

Definition bumpIf (b : bool) (n : Z) : Z := if b then n + 1 else n.
Definition summarize (u : StackListSummary) (s : discoveredStack) : StackListSummary :=
  let inState state := bool_decide (st_runtime s = state) in
  mkSummary (ss_stacks u + 1) (bumpIf (inState RuntimeStateRunning) (ss_running u)) (bumpIf (inState RuntimeStateStopped) (ss_stopped u))
    (bumpIf (inState RuntimeStateError) (ss_error u)) (bumpIf (inState RuntimeStateDefined) (ss_defined u)) (bumpIf (inState RuntimeStateOrphaned) (ss_orphaned u))
    (mkRollup (cr_running (ss_containers u) + runningContainerCount s) (cr_total (ss_containers u) + Z.of_nat (length (st_containers s)))).

Definition matchesSearch (search : string) (s : discoveredStack) : bool := str_empty search || contains (st_id s) (lower search).
Definition listStacks (query : ListQuery) (allStacks : list discoveredStack) : list (StackListItem Stats) * StackListSummary :=
  let shown := List.filter (matchesSearch (lq_search query)) allStacks in
  (sortStackListItems (listItem <$> shown) (lq_sort query), foldl summarize (mkSummary 0 0 0 0 0 0 (mkRollup 0 0)) shown).
End list.

(** ** Port mappings are canonical *)

Lemma distinct_elem {A} `{EqDecision A} (seen l : list A) x : x ∈ distinct seen l ↔ x ∈ l ∧ x ∉ seen.
Proof.
  revert seen. induction l as [|y l IH]; intros seen; cbn; [rewrite elem_of_nil; naive_solver|].
  case_bool_decide as Hy; rewrite ?elem_of_cons, IH, ?elem_of_cons; [naive_solver|]. destruct (decide (x = y)); naive_solver.
Qed.

Lemma distinct_NoDup {A} `{EqDecision A} (seen l : list A) : NoDup (distinct seen l).
Proof.
  revert seen. induction l as [|y l IH]; intros seen; cbn; [constructor|]. case_bool_decide as Hy; [apply IH|].
  constructor; [|apply IH]. rewrite distinct_elem. intros [_ []]. by left.
Qed.

#[global] Instance port_le_total : Total port_le.
Proof.
  intros p q. unfold port_le, port_leb. destruct (Z.lt_total (pm_published p) (pm_published q)) as [H|[H|H]].
  1,3: repeat match goal with |- context [Z.eqb ?a ?b] => destruct (Z.eqb_spec a b); [lia|] end; rewrite !Z.ltb_lt; lia.
  rewrite H, Z.eqb_refl. destruct (Z.lt_total (pm_target p) (pm_target q)) as [Ht|[Ht|Ht]].
  1,3: repeat match goal with |- context [Z.eqb ?a ?b] => destruct (Z.eqb_spec a b); [lia|] end; rewrite !Z.ltb_lt; lia.
  rewrite Ht, Z.eqb_refl, !bool_decide_eq_true. apply (total String.le).
Qed.
Lemma port_le_iff p q : port_le p q ↔
  pm_published p < pm_published q ∨ pm_published p = pm_published q ∧
    (pm_target p < pm_target q ∨ pm_target p = pm_target q ∧ String.le (pm_protocol p) (pm_protocol q)).
Proof.
  unfold port_le, port_leb. destruct (Z.eqb_spec (pm_published p) (pm_published q)); [|rewrite Z.ltb_lt; lia].
  destruct (Z.eqb_spec (pm_target p) (pm_target q)); [rewrite bool_decide_eq_true|rewrite Z.ltb_lt]; intuition lia.
Qed.
#[global] Instance port_le_trans : Transitive port_le.
Proof.
  intros p q r. rewrite !port_le_iff. intros Hpq Hqr. destruct Hpq as [?|[? [?|[? H1]]]], Hqr as [?|[? [?|[? H2]]]]; try lia.
  right. split; [lia|]. right. split; [lia|]. by etrans.
Qed.
#[global] Instance port_le_anti : AntiSymm (=) port_le.
Proof.
  intros [] []. rewrite !port_le_iff. cbn. intros Hpq Hqp. destruct Hpq as [?|[? [?|[? H1]]]], Hqp as [?|[? [?|[? H2]]]]; try lia.
  f_equal; [done..|]. by apply (anti_symm String.le).
Qed.

Lemma normalizePortMappings_elem L l p : p ∈ normalizePortMappings L l ↔ p ∈ normalizePort L <$> l.
Proof. unfold normalizePortMappings. rewrite merge_sort_Permutation, distinct_elem, elem_of_nil. naive_solver. Qed.

Lemma sorted_same {A} (R : relation A) `{!Transitive R, !AntiSymm (=) R} (l k : list A) :
  Sorted R l → Sorted R k → NoDup l → NoDup k → (∀ x, x ∈ l ↔ x ∈ k) → l = k.
Proof. intros Hl Hk Nl Nk He. apply (Sorted_unique R); [done..|]. by apply NoDup_Permutation. Qed.

Lemma normalizePortMappings_NoDup L l : NoDup (normalizePortMappings L l).
Proof. unfold normalizePortMappings. rewrite merge_sort_Permutation. apply distinct_NoDup. Qed.
Lemma normalizePortMappings_Sorted L l : Sorted port_le (normalizePortMappings L l).
Proof. apply Sorted_merge_sort, _. Qed.

Lemma normalizePortMappings_same L l k : (∀ p, p ∈ l ↔ p ∈ k) → normalizePortMappings L l = normalizePortMappings L k.
Proof.
  intros He. apply (sorted_same port_le); try apply normalizePortMappings_Sorted; try apply normalizePortMappings_NoDup.
  intros p. rewrite !normalizePortMappings_elem, !list_elem_of_fmap. split; intros (q & -> & Hq); exists q; (split; [done|]); by apply He.
Qed.

(** ** The runtime state *)

(** The statuses that [scanRuntime] reports. *)
Definition known_status (status : string) : Prop := 0 < serviceStatusPriority status.

Lemma normalized_known state : known_status (normalizeContainerStatus state).
Proof.
  unfold normalizeContainerStatus, known_status, serviceStatusPriority. destruct (str_in state _) eqn:E; [|vm_compute; done].
  apply bool_decide_eq_true in E. rewrite !elem_of_cons in E. destruct E as [->|[->|[->|[->|[->|[->|E%elem_of_nil]]]]]]; done.
Qed.

Lemma known_nonempty status : known_status status → str_empty status = false.
Proof. intros H. apply bool_decide_eq_false. by intros ->. Qed.

(** What is noted for a service is the status of one of its containers, and none
    is more important. *)
Lemma statusByService_spec cs svc : Forall (λ c, known_status (ct_status c)) cs →
  match statusByService cs !! svc with
  | Some st => (∃ c, c ∈ cs ∧ ct_service c = svc ∧ ct_status c = st) ∧
               ∀ c, c ∈ cs → ct_service c = svc → serviceStatusPriority (ct_status c) <= serviceStatusPriority st
  | None => ∀ c, c ∈ cs → ct_service c ≠ svc
  end.
Proof.
  unfold statusByService. induction cs as [|c cs IH] using rev_ind; intros Hk; [cbn [foldl]; rewrite lookup_empty; by intros c ?%elem_of_nil|].
  apply Forall_app in Hk as [Hk Hc]. apply Forall_cons in Hc as [Hc _]. specialize (IH Hk). rewrite foldl_app. cbn [foldl].
  set (m := foldl noteStatus ∅ cs) in *. unfold noteStatus. destruct (decide (ct_service c = svc)) as [Es|Ne].
  - subst svc. destruct (m !! ct_service c) as [st|] eqn:Em; cbv zeta; cbn [from_option id]; unfold id.
    + destruct IH as [(d & Hd & Eds & Est) Hmax].
      assert (str_empty st = false) as -> by (subst st; apply known_nonempty; rewrite Forall_forall in Hk; by apply Hk). cbn [orb].
      destruct (Z.ltb_spec (serviceStatusPriority st) (serviceStatusPriority (ct_status c))).
      * rewrite lookup_insert_eq. split; [exists c; rewrite elem_of_app, list_elem_of_singleton; by eauto|].
        intros e He Hse. apply elem_of_app in He as [He|He%list_elem_of_singleton]; [|subst; lia]. specialize (Hmax e He Hse). lia.
      * rewrite Em. split; [exists d; rewrite elem_of_app; eauto|]. intros e He Hse. apply elem_of_app in He as [He|He%list_elem_of_singleton]; [by apply Hmax|subst; lia].
    + assert (str_empty "" = true) as -> by done. cbn [orb]. rewrite lookup_insert_eq. split; [exists c; rewrite elem_of_app, list_elem_of_singleton; by eauto|].
      intros e He Hse. apply elem_of_app in He as [He|He%list_elem_of_singleton]; [by destruct (IH e He)|subst; lia].
  - assert (∀ b : bool, (if b then <[ct_service c := ct_status c]> m else m) !! svc = m !! svc) as -> by (intros []; [by rewrite lookup_insert_ne|done]).
    destruct (m !! svc) as [st|].
    + destruct IH as [(d & Hd & ? & ?) Hmax]. split; [exists d; rewrite elem_of_app; eauto|].
      intros e He Hse. apply elem_of_app in He as [He|He%list_elem_of_singleton]; [by apply Hmax|by subst].
    + intros e He. apply elem_of_app in He as [He|He%list_elem_of_singleton]; [by apply IH|by subst].
Qed.

Lemma isError_priority status : isError status = true ↔ serviceStatusPriority status = 5.
Proof. unfold serviceStatusPriority, isError. destruct (str_in status _); [done|]. repeat case_match; split; intros; (done || lia). Qed.
Lemma isRunning_iff status : isRunning status = true ↔ status = "running".
Proof. apply bool_decide_eq_true. Qed.
Lemma running_priority status : serviceStatusPriority status = 4 ↔ status = "running".
Proof.
  split; [|by intros ->]. unfold serviceStatusPriority. destruct (str_in status _); [done|]. destruct (str_eqb status "running") eqn:E; [by apply bool_decide_eq_true in E|].
  repeat case_match; intros; lia.
Qed.
Lemma priority_le status : serviceStatusPriority status <= 5.
Proof. unfold serviceStatusPriority. repeat case_match; lia. Qed.

(** The services with a running container and none in an error state. *)
Definition runningNames (cs : list Container) : list string := (filter (λ e : string * string, e.2 = "running") (map_to_list (statusByService cs))).*1.

Lemma countIf_running (l : list (string * string)) : countIf isRunning l.*2 = Z.of_nat (length (filter (λ e : string * string, e.2 = "running") l).*1).
Proof.
  unfold countIf. f_equal. rewrite length_fmap. induction l as [|[k v] l IH]; [done|]. cbn [fmap list_fmap snd List.filter]. rewrite filter_cons. cbn [snd].
  case_decide as Hv; [apply isRunning_iff in Hv as ->; cbn; by rewrite IH|]. destruct (isRunning v) eqn:E; [by apply isRunning_iff in E|done].
Qed.

Definition broken (cs : list Container) : Prop := ∃ c, c ∈ cs ∧ isError (ct_status c) = true.
Definition up (cs : list Container) (name : string) : Prop := ∃ c, c ∈ cs ∧ ct_service c = name ∧ ct_status c = "running".

Lemma status_error cs : Forall (λ c, known_status (ct_status c)) cs → existsb isError (map_to_list (statusByService cs)).*2 = true ↔ broken cs.
Proof.
  intros Hk. rewrite existsb_exists. split.
  - intros (st & Hin & He). apply list_elem_of_In, list_elem_of_fmap in Hin as ([svc st'] & -> & Hin). apply elem_of_map_to_list in Hin. cbn in *.
    pose proof (statusByService_spec cs svc Hk) as H. rewrite Hin in H. destruct H as [(c & ? & ? & <-) _]. by exists c.
  - intros (c & Hc & He). pose proof (statusByService_spec cs (ct_service c) Hk) as H. destruct (statusByService cs !! ct_service c) as [st|] eqn:Em; [|by destruct (H c Hc)].
    destruct H as [_ Hmax]. exists st. split; [apply list_elem_of_In, list_elem_of_fmap; exists (ct_service c, st); by rewrite elem_of_map_to_list|].
    apply isError_priority. apply isError_priority in He. specialize (Hmax c Hc eq_refl). pose proof (priority_le st). lia.
Qed.

Lemma runningNames_up cs name : Forall (λ c, known_status (ct_status c)) cs → ¬ broken cs → name ∈ runningNames cs ↔ up cs name.
Proof.
  intros Hk Hb. unfold runningNames. pose proof (statusByService_spec cs name Hk) as H. rewrite list_elem_of_fmap. split.
  - intros ([k st] & -> & Hin). apply list_elem_of_filter in Hin as [Hst Hin]. apply elem_of_map_to_list in Hin. cbn in *. rewrite Hin in H.
    destruct H as [(c & ? & ? & ?) _]. exists c. split_and!; [done|done|congruence].
  - intros (c & Hc & Hs & Hr). destruct (statusByService cs !! name) as [st|] eqn:Em; [|by destruct (H c Hc)]. destruct H as [(d & Hd & ? & Hst) Hmax].
    exists (name, st). rewrite list_elem_of_filter, elem_of_map_to_list. split_and!; [done| |done]. cbn. apply running_priority. specialize (Hmax c Hc Hs). rewrite Hr in Hmax.
    assert (serviceStatusPriority st ≠ 5) as Hne by (rewrite <- isError_priority; intros He; apply Hb; exists d; by rewrite Hst).
    pose proof (priority_le st). change (serviceStatusPriority "running") with 4 in Hmax. lia.
Qed.

Lemma runningNames_NoDup cs : NoDup (runningNames cs).
Proof.
  unfold runningNames. assert (sublist (filter (λ e : string * string, e.2 = "running") (map_to_list (statusByService cs))).*1 (map_to_list (statusByService cs)).*1) as Hs by apply fmap_sublist, sublist_filter.
  eapply sublist_NoDup; [apply (NoDup_fst_map_to_list (statusByService cs))|exact Hs].
Qed.

(** The runtime state of a defined stack whose containers all belong to its
    services is what the containers say: [error] when one of them is restarting or
    dead, and otherwise [running] exactly when every service has a running container,
    [stopped] when there are containers and none runs, [partial] when some service
    runs and some does not, [defined] when there is no container.  Without a
    definition, containers make an orphan. *)
Theorem runtime_state_exact services cs : NoDup (sv_name <$> services) → Forall (λ c, known_status (ct_status c)) cs →
  (∀ c, c ∈ cs → ct_service c ∈ sv_name <$> services) →
  match deriveRuntimeState true services cs with
  | RuntimeStateDefined => cs = []
  | RuntimeStateError => broken cs
  | RuntimeStateStopped => cs ≠ [] ∧ ¬ broken cs ∧ ∀ c, c ∈ cs → ct_status c ≠ "running"
  | RuntimeStatePartial => ¬ broken cs ∧ (∃ s, s ∈ services ∧ up cs (sv_name s)) ∧ ∃ s, s ∈ services ∧ ¬ up cs (sv_name s)
  | RuntimeStateRunning => cs ≠ [] ∧ ¬ broken cs ∧ ∀ s, s ∈ services → up cs (sv_name s)
  | RuntimeStateOrphaned => False
  end ∧ (cs ≠ [] → deriveRuntimeState false services cs = RuntimeStateOrphaned).
Proof.
  intros Hnd Hk Hin. split; [|intros Hne; unfold deriveRuntimeState; by destruct cs].
  unfold deriveRuntimeState. cbn [negb andb]. case_bool_decide as Hlen; [by destruct cs|]. assert (cs ≠ []) as Hne by (intros ->; by destruct Hlen).
  pose proof (status_error cs Hk) as Herr. destruct (existsb isError _); [by apply Herr|]. assert (¬ broken cs) as Hb by (intros Hb; by apply Herr in Hb).
  rewrite countIf_running. fold (runningNames cs). assert (∀ name, name ∈ runningNames cs → name ∈ sv_name <$> services) as Hsub.
  { intros name (c & Hc & <- & _)%runningNames_up; [by apply Hin|done..]. }
  assert (runningNames cs ⊆+ sv_name <$> services) as Hle by (apply NoDup_submseteq; [apply runningNames_NoDup|done]).
  pose proof (submseteq_length _ _ Hle) as Hl. rewrite length_fmap in Hl.
  assert (length services ≠ 0%nat) as Hs0 by (destruct cs as [|c cs']; [done|]; specialize (Hin c ltac:(by left)); intros E%nil_length_inv; rewrite E in Hin; by apply elem_of_nil in Hin).
  destruct (Z.eqb_spec (Z.of_nat (length (runningNames cs))) 0) as [E0|E0].
  { split_and!; [done..|]. intros c Hc Hr. assert (ct_service c ∈ runningNames cs) as Hx by (apply runningNames_up; [done..|]; by exists c).
    destruct (runningNames cs); [by apply elem_of_nil in Hx|done]. }
  rewrite !(bool_decide_eq_false_2 (length services = 0%nat)) by done. cbn [negb andb].
  destruct (Z.ltb_spec (Z.of_nat (length (runningNames cs))) (Z.of_nat (length services))) as [Hlt|Hge].
  - split; [done|]. split.
    + assert (∃ n, n ∈ runningNames cs) as [n Hn] by (destruct (runningNames cs) as [|n l]; [done|exists n; by left]).
      pose proof (proj1 (runningNames_up cs n Hk Hb) Hn) as Hup. apply Hsub, list_elem_of_fmap in Hn as (s & -> & Hs). by exists s.
    + destruct (decide (Exists (λ s, sv_name s ∉ runningNames cs) services)) as [(s & Hs & Hns)%Exists_exists|Hall].
      * exists s. split; [done|]. by rewrite <- runningNames_up.
      * exfalso. apply not_Exists_Forall in Hall; [|apply _]. rewrite Forall_forall in Hall.
        assert (sv_name <$> services ⊆+ runningNames cs) as Hle2. { apply NoDup_submseteq; [done|]. intros n (s & -> & Hs)%list_elem_of_fmap. specialize (Hall s Hs). cbn in Hall. by apply dec_stable. }
        apply submseteq_length in Hle2. rewrite length_fmap in Hle2. lia.
  - split; [done|]. split; [done|]. intros s Hs. apply runningNames_up; [done..|].
    assert (sv_name <$> services ≡ₚ runningNames cs) as <-. { symmetry. apply submseteq_length_Permutation; [done|]. rewrite length_fmap. lia. }
    apply list_elem_of_fmap. by exists s.
Qed.

(** ** Examples *)

Definition demoLib : lib := mkLib (λ s, s) (λ _, Err "no document") (λ _, None) (λ _, None) (λ _, None).
Definition demoContainer (name svc status : string) : Container := mkContainer name name svc status None None "" "" [] [].
Definition demoServices : list Service :=
  [mkService "db" ServiceModeImage (Some "postgres:17") None None [] [] [] false; mkService "web" ServiceModeImage (Some "nginx") None None [] [] ["db"] true].
Definition demoContainers : list Container :=
  [demoContainer "web-1" "web" "running"; demoContainer "db-1" "db" "exited"; demoContainer "web-2" "web" "exited"].

Lemma runtime_state_exact_witness :
  deriveRuntimeState true demoServices demoContainers = RuntimeStatePartial ∧ ¬ broken demoContainers.
Proof.
  assert (deriveRuntimeState true demoServices demoContainers = RuntimeStatePartial) as E by (vm_compute; reflexivity). split; [exact E|].
  pose proof (runtime_state_exact demoServices demoContainers) as H. rewrite E in H. refine (proj1 (proj1 (H _ _ _))).
  - apply (bool_decide_unpack _). vm_compute. exact I.
  - unfold demoContainers. rewrite !Forall_cons, Forall_nil. split_and!; vm_compute; done.
  - clear H E. intros c Hc. unfold demoContainers in Hc. rewrite !elem_of_cons, elem_of_nil in Hc.
    destruct Hc as [-> |[-> |[-> |[]]]]; apply (bool_decide_unpack _); vm_compute; exact I.
Defined.

(** A container that the definition no longer names stands in for a missing one. *)
Example leftover_masks_missing :
  deriveRuntimeState true demoServices [demoContainer "web-1" "web" "running"; demoContainer "cache-1" "cache" "running"] = RuntimeStateRunning.
Proof. vm_compute. reflexivity. Qed.

Example port_examples :
  parseShortPortMapping "127.0.0.1:8080:80/udp" = Some (mkPort 8080 80 "udp") ∧ parseShortPortMapping "80" = Some (mkPort 80 80 "tcp") ∧
  parseShortPortMapping "a-b:80" = Some (mkPort 80 80 "tcp") ∧ parseShortPortMapping "x" = None ∧
  parseComposePorts demoLib [VString "443:8443"; VInt 80; VString "443:8443/tcp"] = [mkPort 80 80 "tcp"; mkPort 443 8443 "tcp"].
Proof. vm_compute. repeat split. Qed.
Example bind_examples :
  publicPortBind (VString "127.0.0.1:80:80") = false ∧ publicPortBind (VString "[::]:80:80") = true ∧ publicPortBind (VString "8080:80") = true ∧
  publicPortBind (VMap [("target", VInt 80)]) = false ∧ publicPortBind (VMap [("target", VInt 80); ("published", VInt 80)]) = true.
Proof. vm_compute. repeat split. Qed.
