(* ===== verification/StackReader.v ===== *)
(** * internal/stacks/service.go: reading the stacks and running commands on them

    [readStacks] joins what the file system defines, what Docker runs and what was
    deployed last; the actions and the steps of maintenance turn a discovered stack
    into Docker or Compose commands.

    The world of an operation is the file system, the database, the cache of the
    Compose command and the commands run so far; what each command answers, the
    clock, the store and the end of the context are given for every moment
    ([host]).  Docker does not change the modelled files.  SHA-256 is a parameter;
    warnings are not logged. *)

From stdpp Require Import gmap strings list sorting.
From Stdlib Require Import Ascii ZArith Lia.
From S2P Require Import Prelude GoStrings GoPath GoTime Effects LimitedIO FileSystem WorkspaceFiles Store StoreAuth StackWorkspace Stacks.

Local Open Scope Z_scope.

(** ** Data *)

Inductive stack_error :=
| ErrNotFound
| ErrInvalidState (why : string)
| ErrConflict
| ErrUnsupportedAction
| ErrDockerUnavailable (message : string)
| ErrSystem (what : string) (e : errno)
| ErrContent (what : string) (e : go_error)
| ErrStore (e : store_error)
| ErrText (message : string)
| ErrJoin (e1 e2 : stack_error).

Record composeCLI := mkCLI { cli_command : string; cli_prefix : list string }.
Record command := mkCommand { co_name : string; co_args : list string; co_dir : option (list string); co_stdin : option string }.
Record cmdOutcome := mkOutcome { oc_output : string; oc_err : option string }.

(** What the surroundings answer at each moment, and SHA-256 in hexadecimal. *)
Record host := mkHost {
  h_run : nat → command → cmdOutcome; h_cancelled : nat → bool; h_io : nat → IO; h_now : nat → Time; h_temp : nat → string; h_sha256 : string → string }.
Record world := mkWorld { w_fs : fs; w_db : DB; w_cli : option composeCLI; w_tick : nat; w_calls : list command }.
Record ServiceReader := mkReader { rd_root : list string; rd_data : list string; rd_store : bool }.

Record ErrorDetail := mkErrorDetail { ed_code : string; ed_message : string; ed_max : option Z }.
Record ResolvedConfigResponse := mkResolved {
  rc_id : string; rc_valid : bool; rc_content : string; rc_error : option ErrorDetail; rc_warnings : list ComposeWarning }.
Record MaintenanceStepOptions := mkStepOptions { so_orphans : bool; so_services : list string }.

Definition MaxDefinitionFileBytes : Z := 2 * 1024 * 1024.
Definition MaxComposeOutputBytes : Z := 4 * 1024 * 1024.

Abbreviation W := (eff world stack_error).

(** ** Files *)

Definition pathText (path : list string) : string := "/" +:+ join "/" path.

(** [limitedio.ReadFile]: a file that does not exist is told apart ([os.IsNotExist]). *)
Inductive read_error := Missing | ReadFailed (e : go_error).
Definition errnoText (e : errno) : string :=
  match e with
  | ENOENT => "no such file or directory" | ENOTDIR => "not a directory" | EACCES => "permission denied" | ELOOP => "too many levels of symbolic links"
  | EEXIST => "file exists" | EISDIR => "is a directory" | EESCAPE => "path escapes from parent" | EIO message => message
  end.
Definition readLimitedFile (m : fs) (path : list string) (limit : Z) : res read_error string :=
  match Stat m path with
  | Err ENOENT => Err Missing
  | Err e => Err (ReadFailed (OtherError (errnoText e)))
  | Ok (loc, NFile f) =>
    match ReadFile (mkFile (if readable m loc then None else Some (errnoText EACCES)) (Ok (slen (f_content f))) (f_content f) None) limit with
    | Ok c => Ok c
    | Err e => Err (ReadFailed e)
    end
  | Ok (_, NDir) => Err (ReadFailed (OtherError (errnoText EISDIR)))
  | Ok _ => Err (ReadFailed (OtherError "not a regular file"))
  end.
Definition readDefinitionFile (m : fs) (path : list string) : res read_error string := readLimitedFile m path MaxDefinitionFileBytes.

Definition fileExists (m : fs) (path : option (list string)) : bool :=
  match path with None => false | Some p => match Stat m p with Ok (_, NDir) => false | Ok _ => true | Err _ => false end end.
Definition pathExists (m : fs) (path : list string) : res stack_error bool :=
  match Stat m path with Ok _ => Ok true | Err ENOENT => Ok false | Err e => Err (ErrSystem "" e) end.
Definition modTime (m : fs) (path : list string) : option Time :=
  match Stat m path with Ok (loc, n) => Some (nodeTime m loc n) | Err _ => None end.

Definition ValidateDefinitionContent (compose env : string) : res stack_error unit :=
  match CheckString compose MaxDefinitionFileBytes with
  | Err e => Err (ErrContent "compose definition" e)
  | Ok _ => match CheckString env MaxDefinitionFileBytes with Err e => Err (ErrContent "environment definition" e) | Ok _ => Ok tt end
  end.

Definition crlf : string := String (chr 13) (str1 (chr 10)).

Section reader.
Context (L : lib) (H : host) (s : ServiceReader) `{!MapRange string (list string)} `{!MapRange string unit}.

Definition stacksRoot : list string := rd_root s ++ ["stacks"].

Definition validateStackRoot (m : fs) (stackID : string) (allowMissing : bool) : res stack_error unit :=
  if negb (IsValidStackID stackID) then Err ErrNotFound
  else
    let stackRoot := stacksRoot ++ [stackID] in
    match Lstat m stackRoot with
    | Err ENOENT => if allowMissing then Ok tt else Err ErrNotFound
    | Err e => Err (ErrSystem "stat stack root" e)
    | Ok NDir =>
      match EvalSymlinks m stacksRoot with
      | Err e => Err (ErrSystem "resolve stacks root" e)
      | Ok canonicalStacksRoot =>
        match EvalSymlinks m stackRoot with
        | Err e => Err (ErrSystem "resolve stack root" e)
        | Ok canonicalStackRoot =>
          match Rel canonicalStacksRoot canonicalStackRoot with
          | [] => Err (ErrInvalidState "stack root escapes the managed stacks directory")
          | p :: _ => guard_err (str_eqb p "..") (ErrInvalidState "stack root escapes the managed stacks directory")
          end
        end
      end
    | Ok _ => Err (ErrInvalidState "stack root must be a real directory")
    end.

Definition contentSHA256 (content : string) : string := h_sha256 H (ReplaceAll content crlf (str1 (chr 10))).

(** The environment text; a missing file is empty. *)
Definition readEnv (m : fs) (path : list string) : res go_error (string * bool) :=
  match readDefinitionFile m path with
  | Ok c => Ok (c, true)
  | Err Missing => Ok ("", false)
  | Err (ReadFailed e) => Err e
  end.
Definition currentDefinitionHashes (m : fs) (composePath envPath : list string) : option (string * string) :=
  match readDefinitionFile m composePath, readEnv m envPath with
  | Ok compose, Ok (env, _) => Some (contentSHA256 compose, contentSHA256 env)
  | _, _ => None
  end.

(** ** [readStacks] *)

Definition scanDefinition (m : fs) (name : string) : option definitionSnapshot :=
  if negb (is_ok (validateStackRoot m name false)) then None
  else
    let paths := stackPaths (rd_root s) name in
    match Stat m (ComposeFilePath paths) with
    | Err _ => None
    | Ok _ =>
      let '(created, updated) := timeRange [modTime m (RootPath paths); modTime m (ComposeFilePath paths); modTime m (EnvFilePath paths)] in
      let invalid := mkSnapshot [] None ConfigStateInvalid "" "" "" false "" created updated in
      match readDefinitionFile m (ComposeFilePath paths), readEnv m (EnvFilePath paths) with
      | Ok content, Ok (env, envExists) =>
        let '(services, metadata, state) :=
          match parseComposeServices L (pathText (RootPath paths)) content with
          | Ok (services, metadata) => (services, metadata, ConfigStateUnknown)
          | Err _ => ([], None, ConfigStateInvalid)
          end in
        Some (mkSnapshot services metadata state content (contentSHA256 content) env envExists (contentSHA256 env) created updated)
      | _, _ => Some invalid
      end
    end.
Definition isDirectory (m : fs) (loc : location) : bool := match nodes m !! loc with Some NDir => true | _ => false end.
(** [os.ReadDir] on a path. *)
Definition readDir (m : fs) (path : list string) : res errno (location * list string) :=
  match Stat m path with
  | Err e => Err e
  | Ok (loc, NDir) => let? l := ReadDir m loc in Ok (loc, l)
  | Ok _ => Err ENOTDIR
  end.
Definition scanDefinitions (m : fs) : res stack_error (gmap string definitionSnapshot) :=
  match readDir m stacksRoot with
  | Err ENOENT => Ok ∅
  | Err e => Err (ErrSystem "read stacks directory" e)
  | Ok (loc, entries) =>
    Ok (list_to_map (omap (λ name,
      if negb (isDirectory m (loc ++ [name])) || negb (IsValidStackID name) then None else (λ d, (name, d)) <$> scanDefinition m name) entries))
  end.

(** A statement of the store, and a command. *)
Definition io : W IO := λ w, (Ok (h_io H (w_tick w)), mkWorld (w_fs w) (w_db w) (w_cli w) (S (w_tick w)) (w_calls w)).
Definition storeRead {A} (f : IO → DB → res store_error A) : W A :=
  do! o := io in λ w, (match f o (w_db w) with Ok a => Ok a | Err e => Err (ErrStore e) end, w).
Definition storeWrite (f : IO → DB → res store_error DB) : W unit :=
  do! o := io in λ w,
    match f o (w_db w) with Ok db => (Ok tt, mkWorld (w_fs w) db (w_cli w) (w_tick w) (w_calls w)) | Err e => (Err (ErrStore e), w) end.
Definition run (c : command) : W cmdOutcome :=
  λ w, (Ok (h_run H (w_tick w) c), mkWorld (w_fs w) (w_db w) (w_cli w) (S (w_tick w)) (w_calls w ++ [c])).
Definition onFiles {A} (f : fs → res stack_error A) : W A := λ w, (f (w_fs w), w).
Definition cancelled : W bool := λ w, (Ok (h_cancelled H (w_tick w)), w).
Definition clock : W Time := λ w, (Ok (h_now H (w_tick w)), w).

Definition docker (args : list string) : command := mkCommand "docker" args None None.
Definition messageOr (output err : string) : string := let message := trim_space output in if str_empty message then err else message.

Definition loadDeployBaselines : W (gmap string Baseline) :=
  if negb (rd_store s) then returns ∅
  else do! items := storeRead ListStackDeployBaselines in returns (list_to_map ((λ b, (BaselineStackID b, b)) <$> items)).

Definition listDockerContainerIDs : W (list string) :=
  do! c := run (docker ["ps"; "-aq"; "--filter"; "label=com.docker.compose.project"]) in
  match oc_err c with
  | Some e => throws (ErrDockerUnavailable (messageOr (oc_output c) e))
  | None => returns (Fields (trim_space (oc_output c)))
  end.
Definition inspectDockerContainers (ids : list string) : W (list dockerInspectContainer) :=
  do! c := run (docker ("inspect" :: ids)) in
  match oc_err c with
  | Some e => throws (ErrText e)
  | None => match json_inspect L (oc_output c) with Some l => returns l | None => throws (ErrText "decode docker inspect") end
  end.
(** Containers that cannot be listed are none. *)
Definition scanRuntime : W (gmap string (list Container)) :=
  do! ids := attempts listDockerContainerIDs in
  match ids with
  | Err _ | Ok [] => returns ∅
  | Ok ids =>
    do! inspected := attempts (inspectDockerContainers ids) in
    returns (match inspected with Ok l => groupContainers L l | Err _ => ∅ end)
  end.

Definition readStack (m : fs) (now : Time) (defined : gmap string definitionSnapshot) (baselines : gmap string Baseline) (runtime : gmap string (list Container)) (id : string) : discoveredStack :=
  let paths := stackPaths (rd_root s) id in
  discover (rd_root s) now id (defined !! id) (baselines !! id) (currentDefinitionHashes m (ComposeFilePath paths) (EnvFilePath paths)) (runtime !! id).
Definition readStacks : W (list discoveredStack) :=
  do! defined := onFiles scanDefinitions in
  do! baselines := loadDeployBaselines in
  do! runtime := scanRuntime in
  do! now := clock in
  let ids := ((λ _, tt) <$> defined) ∪ ((λ _, tt) <$> runtime) : gmap string unit in
  onFiles (λ m, Ok (sort_by st_id (omap (λ e : string * unit,
    if is_ok (validateStackRoot m e.1 true) then Some (readStack m now defined baselines runtime e.1) else None) (range_list ids)))).

Definition findStack (stackID : string) : W discoveredStack :=
  do! _ := liftRes (guard_err (negb (IsValidStackID stackID)) ErrNotFound) in
  do! _ := onFiles (λ m, validateStackRoot m stackID true) in
  do! allStacks := readStacks in
  match find_index_from (λ st, str_eqb (st_id st) stackID) 0 allStacks with
  | Some i => match allStacks !! i with Some st => returns st | None => throws ErrNotFound end
  | None => throws ErrNotFound
  end.
End reader.

(** ** Commands *)

Section commands.
Context (L : lib) (H : host) (s : ServiceReader) `{!MapRange string (list string)} `{!MapRange string unit}.

Definition remember (cli : composeCLI) : W composeCLI := λ w, (Ok cli, mkWorld (w_fs w) (w_db w) (Some cli) (w_tick w) (w_calls w)).
Definition fallbackCLI : composeCLI := mkCLI "docker" ["compose"].
Fixpoint tryCLIs (candidates : list composeCLI) : W composeCLI :=
  match candidates with
  | [] => remember fallbackCLI
  | candidate :: rest =>
    do! c := run H (mkCommand (cli_command candidate) (cli_prefix candidate ++ ["version"]) None None) in
    match oc_err c with
    | None => remember candidate
    | Some _ => do! stopped := cancelled H in if stopped : bool then returns fallbackCLI else tryCLIs rest
    end
  end.
Definition detectComposeCLI : W composeCLI := λ w,
  match w_cli w with
  | Some cli => (Ok cli, w)
  | None => if h_cancelled H (w_tick w) then (Ok fallbackCLI, w) else tryCLIs [fallbackCLI; mkCLI "docker-compose" []] w
  end.

(** The Compose command in a project directory. *)
Definition composeCommand (projectDir : list string) (composeArg : string) (envPath : option (list string)) : W (string * list string) :=
  do! cli := detectComposeCLI in
  onFiles (λ m, Ok (cli_command cli, cli_prefix cli ++ ["--project-directory"; pathText projectDir; "-f"; composeArg]
    ++ match envPath with Some p => if fileExists m (Some p) then ["--env-file"; pathText p] else [] | None => [] end)).

(** The output that fits the limit, and the error. *)
Definition runCombinedOutput (c : command) (limit : Z) : W (string * option (string + go_error)) :=
  do! o := run H c in
  let buffer := snd (Write (NewBuffer limit) (oc_output o)) in
  returns (Bytes buffer, match BufferErr buffer with Some e => Some (inr e) | None => inl <$> oc_err o end).

(** What a caller reports for a finished command. *)
Definition trimmedOutput (r : string * option (string + go_error)) : W string :=
  match r.2 with
  | None => returns (trim_space r.1)
  | Some (inr e) => throws (ErrContent "" e)
  | Some (inl e) => throws (ErrText (messageOr r.1 e))
  end.

Definition runComposeConfig (projectDir : list string) (composeArg : string) (envPath : option (list string)) (stdinContent : string) : W string :=
  do! _ := liftRes (if str_eqb composeArg "-" then
      match CheckString stdinContent MaxDefinitionFileBytes with Err e => Err (ErrContent "compose input" e) | Ok _ => Ok tt end else Ok tt) in
  do! (name, args) := composeCommand projectDir composeArg envPath in
  do! r := runCombinedOutput (mkCommand name (args ++ ["config"]) (Some projectDir) (if str_eqb composeArg "-" then Some stdinContent else None)) MaxComposeOutputBytes in
  match r.2 with
  | None => returns r.1
  | Some (inr e) => throws (ErrContent "" e)
  | Some (inl e) => throws (ErrText (messageOr r.1 e))
  end.

Definition runComposeActionOutput (stack : discoveredStack) (action : string) (extraArgs : list string) : W string :=
  do! (name, args) := composeCommand (st_root stack) (pathText (st_compose stack)) (Some (st_env stack)) in
  do! r := runCombinedOutput (mkCommand name (args ++ action :: extraArgs) (Some (st_root stack)) None) MaxComposeOutputBytes in
  trimmedOutput r.
Definition runContainerActionOutput (stack : discoveredStack) (action : string) (extraArgs : list string) : W string :=
  match ct_id <$> st_containers stack with
  | [] => returns ""
  | containerIDs => do! r := runCombinedOutput (docker (action :: extraArgs ++ containerIDs)) MaxComposeOutputBytes in trimmedOutput r
  end.
Definition removeRuntimeOutput (stack : discoveredStack) : W string :=
  match st_containers stack with
  | [] => returns ""
  | _ =>
    if bool_decide (st_runtime stack = RuntimeStateOrphaned) || bool_decide (st_config stack = ConfigStateInvalid)
    then runContainerActionOutput stack "rm" ["-f"]
    else runComposeActionOutput stack "down" ["--remove-orphans"]
  end.

(** [errors.Is(err, ErrContentTooLarge)], and the limit. *)
Definition tooLarge (e : stack_error) : option Z :=
  match e with ErrContent _ g => let '(limit, ok) := MaxBytes g in if ok : bool then Some limit else None | _ => None end.
Definition readErrorOf (e : read_error) : stack_error :=
  match e with Missing => ErrSystem "" ENOENT | ReadFailed g => ErrContent "" g end.
(** [err.Error()]: the text is not used by the code. *)
Definition errorText (e : stack_error) : string :=
  match e with ErrText message => message | ErrDockerUnavailable message => "docker unavailable: " +:+ message | ErrSystem _ e => errnoText e | _ => "" end.
Definition resolvedConfigFailure (stackID : string) (e : stack_error) : ResolvedConfigResponse :=
  match tooLarge e with
  | Some limit => mkResolved stackID false "" (Some (mkErrorDetail "content_too_large" (errorText e) (Some limit))) []
  | None => mkResolved stackID false "" (Some (mkErrorDetail "validation_failed" (errorText e) None)) []
  end.

Definition resolveCurrent (stack : discoveredStack) : W ResolvedConfigResponse := λ w,
  match readDefinitionFile (w_fs w) (st_compose stack) with
  | Err e => (Ok (resolvedConfigFailure (st_id stack) (readErrorOf e)), w)
  | Ok composeContent =>
    let exists_ := fileExists (w_fs w) (Some (st_env stack)) in
    match (if exists_ then readDefinitionFile (w_fs w) (st_env stack) else Ok "") with
    | Err e => (Ok (resolvedConfigFailure (st_id stack) (readErrorOf e)), w)
    | Ok _ =>
      match runComposeConfig (st_root stack) (pathText (st_compose stack)) (if exists_ then Some (st_env stack) else None) "" w with
      | (Err e, w) => (Ok (resolvedConfigFailure (st_id stack) e), w)
      | (Ok content, w) => (Ok (mkResolved (st_id stack) true content None (LintCompose L composeContent)), w)
      end
    end
  end.

(** ** Temporary environments and drafts *)

Definition setFiles (m : fs) : W unit := λ w, (Ok tt, mkWorld m (w_db w) (w_cli w) (w_tick w) (w_calls w)).
(** The path of the temporary file. *)
Definition writeTempEnvFile (content : string) : W (list string) := λ w,
  match CheckString content MaxDefinitionFileBytes with
  | Err e => (Err (ErrContent "temporary environment" e), w)
  | Ok _ =>
    match MkdirAll (w_fs w) (rd_data s) with
    | (Some e, m) => (Err (ErrSystem "create data dir for temp env" e), snd (setFiles m w))
    | (None, m) =>
      let name := h_temp H (w_tick w) in
      match parent_of m (rd_data s ++ [name]) with
      | Err e => (Err (ErrSystem "create temp env file" e), snd (setFiles m w))
      | Ok dir =>
        match entry m dir name with
        | Err ENOENT =>
          if writable m dir
          then (Ok (rd_data s ++ [name]), snd (setFiles (with_nodes m (<[dir ++ [name] := NFile (mkFileNode content 384 (h_now H (w_tick w)))]> (nodes m))) w))
          else (Err (ErrSystem "create temp env file" EACCES), snd (setFiles m w))
        | Err e => (Err (ErrSystem "create temp env file" e), snd (setFiles m w))
        | Ok _ => (Err (ErrSystem "create temp env file" EEXIST), snd (setFiles m w))
        end
      end
    end
  end.
(** [os.Remove] on a file, whatever it answers. *)
Definition discardFile (path : list string) : W unit := λ w,
  let m := w_fs w in
  match last path, parent_of m path with
  | Some name, Ok dir =>
    match entry m dir name with
    | Ok NDir | Err _ => (Ok tt, w)
    | Ok _ => if writable m dir then setFiles (with_nodes m (delete (dir ++ [name]) (nodes m))) w else (Ok tt, w)
    end
  | _, _ => (Ok tt, w)
  end.

(** The configuration of given texts: [resolveLastValid] and [ResolvedConfigDraft]
    after their checks. *)
Definition resolveTexts (stack : discoveredStack) (compose env : string) : W ResolvedConfigResponse :=
  do! _ := liftRes (ValidateDefinitionContent compose env) in
  do! envPath := writeTempEnvFile env in
  do! resolved := attempts (runComposeConfig (st_root stack) "-" (Some envPath) compose) in
  do! _ := discardFile envPath in
  match resolved with
  | Ok content => returns (mkResolved (st_id stack) true content None (LintCompose L compose))
  | Err e => match tooLarge e with Some _ => throws e | None => returns (mkResolved (st_id stack) false "" (Some (mkErrorDetail "validation_failed" (errorText e) None)) []) end
  end.
Definition presentStack (stackID : string) : W discoveredStack :=
  do! stack := findStack L H s stackID in
  do! _ := liftRes (guard_err (bool_decide (st_runtime stack = RuntimeStateOrphaned)) (ErrInvalidState "")) in
  returns stack.
Definition resolveLastValid (stack : discoveredStack) : W ResolvedConfigResponse :=
  if negb (rd_store s) then throws (ErrInvalidState "")
  else
    do! baseline := storeRead H (λ o db, StackDeployBaseline o db (st_id stack)) in
    match baseline with None => throws (ErrInvalidState "") | Some b => resolveTexts stack (ComposeYAML b) (Env b) end.
Definition ResolvedConfigDraft (stackID compose env : string) : W ResolvedConfigResponse :=
  do! stack := presentStack stackID in resolveTexts stack compose env.
Definition ResolvedConfigCurrent (stackID source : string) : W ResolvedConfigResponse :=
  do! stack := presentStack stackID in
  if str_eqb source "last_valid" then resolveLastValid stack
  else
    do! response := resolveCurrent stack in
    match rc_error response with
    | Some e => if str_eqb (ed_code e) "content_too_large" then throws (ErrContent "" (NewLimitError (default MaxComposeOutputBytes (ed_max e)))) else returns response
    | None => returns response
    end.

(** ** Actions *)

Definition knownActions : list string := ["validate"; "up"; "down"; "stop"; "restart"; "pull"; "build"; "recreate"].
Definition performAction (stack : discoveredStack) (action : string) : W string :=
  let invalid := bool_decide (st_config stack = ConfigStateInvalid) in
  if str_eqb action "validate" then
    do! resolved := resolveCurrent stack in
    if rc_valid resolved then returns ""
    else throws (ErrText ("validate current config: " +:+ match rc_error resolved with Some e => ed_message e | None => "" end))
  else if str_eqb action "up" then runComposeActionOutput stack "up" ["-d"]
  else if str_eqb action "down" then removeRuntimeOutput stack
  else if str_eqb action "stop" then if invalid then runContainerActionOutput stack "stop" [] else runComposeActionOutput stack "stop" []
  else if str_eqb action "restart" then if invalid then runContainerActionOutput stack "restart" [] else runComposeActionOutput stack "restart" []
  else if str_eqb action "pull" then runComposeActionOutput stack "pull" []
  else if str_eqb action "build" then runComposeActionOutput stack "build" []
  else if str_eqb action "recreate" then runComposeActionOutput stack "up" ["-d"; "--force-recreate"]
  else throws ErrUnsupportedAction.
(** The guards in front of an action on a found stack. *)
Definition actionOn (stack : discoveredStack) (action : string) (perform : W string) : W string :=
  if negb (str_in action knownActions) then throws ErrUnsupportedAction
  else if negb (str_in action (availableActions stack)) then throws (ErrInvalidState "")
  else perform.
Definition RunActionWithOutput (stackID action : string) : W string :=
  do! stack := findStack L H s stackID in actionOn stack action (performAction stack action).

(** The arguments of a step of maintenance. *)
Definition maintenanceArgs (action : string) (options : MaintenanceStepOptions) : option (string * list string) :=
  if str_eqb action "pull" then Some ("pull", so_services options)
  else if str_eqb action "build" then Some ("build", so_services options)
  else if str_eqb action "up" then Some ("up", ["-d"] ++ (if so_orphans options then ["--remove-orphans"] else []) ++ so_services options)
  else None.
Definition RunMaintenanceStep (stackID action : string) (options : MaintenanceStepOptions) : W string :=
  do! stack := findStack L H s stackID in
  if negb (str_in "up" (availableActions stack)) then throws (ErrInvalidState "")
  else match maintenanceArgs action options with
  | Some (name, args) => runComposeActionOutput stack name args
  | None => throws ErrUnsupportedAction
  end.
Definition MaintenanceNeedsBuild (stackID : string) : W bool :=
  do! stack := findStack L H s stackID in
  returns (existsb (λ v, bool_decide (sv_mode v = ServiceModeBuild) || bool_decide (sv_mode v = ServiceModeHybrid)) (st_services stack)).
Definition RemoveRuntime (stackID : string) : W unit :=
  do! stack := findStack L H s stackID in
  do! _ := listDockerContainerIDs H in
  do! _ := removeRuntimeOutput stack in returns tt.

(** ** Listing and details *)

Record StackDetail := mkDetail {
  dt_header : StackHeader; dt_paths : stackPathSet; dt_capabilities : StackCapabilities; dt_actions : list string; dt_services : list Service;
  dt_containers : list Container; dt_deployed : option Time; dt_updates : option StackUpdates }.
Definition List {Stats : Type} (statsByProject : gmap string Stats) (statusByImage : gmap string ImageUpdateState) (query : ListQuery) :
    W (list (StackListItem Stats) * StackListSummary) :=
  do! allStacks := readStacks L H s in returns (listStacks (ToLower L) statsByProject statusByImage query allStacks).
Definition detailOf (statusByImage : gmap string ImageUpdateState) (stack : discoveredStack) : StackDetail :=
  mkDetail (header stack) (mkPaths (st_root stack) (st_compose stack) (st_env stack) (st_config_path stack) (st_data_path stack)) (capabilities stack) (availableActions stack)
    (st_services stack) (st_containers stack) (st_deployed stack) (rollupUpdates (st_services stack) statusByImage).
Definition Get (statusByImage : gmap string ImageUpdateState) (stackID : string) : W StackDetail :=
  do! stack := findStack L H s stackID in returns (detailOf statusByImage stack).

(** ** Images and deploys *)

Definition imageRefs (services : list Service) : list string :=
  sort_strings (distinct [] (omap (λ v, match sv_image v with Some ref => if str_empty ref then None else Some ref | None => None end) services)).
Definition AllImageRefs : W (list string) :=
  do! stacks := readStacks L H s in returns (imageRefs (concat (st_services <$> stacks))).
Definition imageRefsForStack (stackID : string) (serviceNames : list string) : W (list string) :=
  do! stack := findStack L H s stackID in
  returns (imageRefs (List.filter (λ v, bool_decide (length serviceNames = 0%nat) || str_in (sv_name v) serviceNames) (st_services stack))).
Fixpoint unknownStatuses (now : Time) (refs : list string) : W (list ImageUpdateStatus) :=
  match refs with
  | [] => returns []
  | ref :: rest =>
    let status := mkImageStatus ref "" "" "unknown" now in
    do! _ := storeWrite H (λ o db, UpsertImageUpdateStatus o db status) in
    do! statuses := unknownStatuses now rest in returns (status :: statuses)
  end.
(** The statuses written, which the cache of image updates is told. *)
Definition InvalidateImageUpdateStatus (stackID : string) (serviceNames : list string) : W (list ImageUpdateStatus) :=
  if negb (rd_store s) then returns []
  else
    do! refs := imageRefsForStack stackID serviceNames in
    do! now := clock H in
    unknownStatuses now refs.

Definition RecordDeployBaseline (stackID jobID : string) (deployedAt : Time) : W unit :=
  if negb (rd_store s) then returns tt
  else if negb (IsValidStackID stackID) then throws ErrNotFound
  else
    do! _ := onFiles (λ m, validateStackRoot s m stackID false) in
    let paths := stackPaths (rd_root s) stackID in
    do! compose := onFiles (λ m, match readDefinitionFile m (ComposeFilePath paths) with Ok c => Ok c | Err e => Err (readErrorOf e) end) in
    do! (env, envExists) := onFiles (λ m, match readEnv m (EnvFilePath paths) with Ok c => Ok c | Err e => Err (ErrContent "read env file for deploy baseline" e) end) in
    storeWrite H (λ o db, UpsertStackDeployBaseline o db (mkBaseline stackID (contentSHA256 H compose) (contentSHA256 H env) compose env envExists deployedAt jobID)).
End commands.

(** ** What the commands may be *)

(** Only commands that satisfy [P] are run, and nothing is written. *)
Definition issues (P : command → Prop) (w w' : world) : Prop :=
  w_fs w' = w_fs w ∧ w_db w' = w_db w ∧ ∃ new, w_calls w' = w_calls w ++ new ∧ Forall P new.
#[global] Instance issues_refl P : Reflexive (issues P).
Proof. intros w. split_and!; [done..|]. exists []. by rewrite app_nil_r. Qed.
#[global] Instance issues_trans P : Transitive (issues P).
Proof.
  intros w1 w2 w3 (E1 & D1 & n1 & C1 & F1) (E2 & D2 & n2 & C2 & F2). split_and!; [congruence..|]. exists (n1 ++ n2).
  rewrite C2, C1, app_assoc. split; [done|]. by apply Forall_app.
Qed.
Lemma issues_mono (P Q : command → Prop) w w' : (∀ c, P c → Q c) → issues P w w' → issues Q w w'.
Proof. intros HPQ (E & D & new & C & F). split_and!; [done..|]. exists new. split; [done|]. by eapply Forall_impl. Qed.

(** The two commands that look at the runtime, and the probes for Compose. *)
Definition looks (c : command) : Prop :=
  c = docker ["ps"; "-aq"; "--filter"; "label=com.docker.compose.project"] ∨ ∃ ids, c = docker ("inspect" :: ids).
Definition probes (c : command) : Prop := ∃ cli, c = mkCommand (cli_command cli) (cli_prefix cli ++ ["version"]) None None.
(** A Compose command in the directory of a stack, on its own definition. *)
Definition composes (stack : discoveredStack) (tail : list string) (c : command) : Prop :=
  ∃ cli opts, c = mkCommand (cli_command cli) ((cli_prefix cli ++ ["--project-directory"; pathText (st_root stack); "-f"; pathText (st_compose stack)] ++ opts) ++ tail) (Some (st_root stack)) None ∧
    (opts = [] ∨ opts = ["--env-file"; pathText (st_env stack)]).
(** A Docker command on exactly the containers of a stack. *)
Definition containerWise (stack : discoveredStack) (sub : list string) (c : command) : Prop := c = docker (sub ++ (ct_id <$> st_containers stack)).
(** Compose is trusted with a definition that is there and can be read. *)
Definition usable (stack : discoveredStack) : Prop := st_runtime stack ≠ RuntimeStateOrphaned ∧ st_config stack ≠ ConfigStateInvalid.

(** An action, or a step of an update; what a stack offers in its state; and the
    command that carries it out. *)
Inductive request := Action (action : string) | Step (action : string) (options : MaintenanceStepOptions).

Definition offers (stack : discoveredStack) (q : request) : Prop :=
  let deployed := usable stack ∧ st_runtime stack ≠ RuntimeStateDefined in
  let started := deployed ∧ st_runtime stack ≠ RuntimeStateStopped in
  let broken := st_runtime stack ≠ RuntimeStateOrphaned ∧ st_config stack = ConfigStateInvalid ∧ st_containers stack ≠ [] in
  match q with
  | Action "validate" => st_runtime stack ≠ RuntimeStateOrphaned
  | Action "up" | Action "pull" | Action "build" => usable stack
  | Action "recreate" => deployed
  | Action "restart" => started
  | Action "stop" => started ∨ broken
  | Action "down" => deployed ∨ broken ∨ st_runtime stack = RuntimeStateOrphaned
  | Step "pull" _ | Step "build" _ | Step "up" _ => usable stack
  | _ => False
  end.

Definition composeTail (q : request) : option (list string) :=
  match q with
  | Action "validate" => Some ["config"]
  | Action "up" => Some ["up"; "-d"]
  | Action "down" => Some ["down"; "--remove-orphans"]
  | Action "stop" => Some ["stop"]
  | Action "restart" => Some ["restart"]
  | Action "pull" => Some ["pull"]
  | Action "build" => Some ["build"]
  | Action "recreate" => Some ["up"; "-d"; "--force-recreate"]
  | Step "pull" options => Some ("pull" :: so_services options)
  | Step "build" options => Some ("build" :: so_services options)
  | Step "up" options => Some (["up"; "-d"] ++ (if so_orphans options then ["--remove-orphans"] else []) ++ so_services options)
  | _ => None
  end.
Definition carriesOut (stack : discoveredStack) (q : request) (c : command) : Prop :=
  ((usable stack ∨ q = Action "validate") ∧ ∃ tail, composeTail q = Some tail ∧ composes stack tail c) ∨
  (¬ usable stack ∧ (q = Action "stop" ∧ containerWise stack ["stop"] c ∨ q = Action "down" ∧ containerWise stack ["rm"; "-f"] c)).

Create HintDb issuing.
#[export] Hint Resolve issues_refl issues_trans : issuing.

Section issued.
Context (L : lib) (H : host) (s : ServiceReader) `{!MapRange string (list string)} `{!MapRange string unit}.

Lemma keeps_run P c : P c → keeps (issues P) (run H c).
Proof using. intros Hc w r w' [= _ <-]. split_and!; [done..|]. exists [c]. split; [done|]. by constructor. Qed.
Lemma keeps_onFiles {A} P (f : fs → res stack_error A) : keeps (issues P) (onFiles f).
Proof using. intros w r w' [= _ <-]. reflexivity. Qed.
Lemma keeps_clock P : keeps (issues P) (clock H).
Proof using. intros w r w' [= _ <-]. reflexivity. Qed.
Lemma keeps_cancelled P : keeps (issues P) (cancelled H).
Proof using. intros w r w' [= _ <-]. reflexivity. Qed.
Lemma keeps_remember P cli : keeps (issues P) (remember cli).
Proof using. intros w r w' [= _ <-]. split_and!; [done..|]. exists []. by rewrite app_nil_r. Qed.
Lemma keeps_storeRead {A} P (f : IO → DB → res store_error A) : keeps (issues P) (storeRead H f).
Proof using.
  apply keeps_andThen; [apply _| |].
  - intros w r w' [= _ <-]. split_and!; [done..|]. exists []. by rewrite app_nil_r.
  - intros o w r w' [= _ <-]. reflexivity.
Qed.
#[local] Hint Resolve keeps_onFiles keeps_clock keeps_cancelled keeps_remember keeps_storeRead : effects.

(** Goes through an operation one step at a time. *)
Ltac issuing :=
  repeat (intros; lazymatch goal with
    | |- keeps _ (andThen _ _) => apply keeps_andThen; [apply _| |]
    | |- keeps _ (attempts _) => apply keeps_attempts
    | |- keeps _ (match ?x with _ => _ end) => destruct x
    | |- keeps _ _ => solve [apply keeps_returns; apply _ | apply keeps_throws; apply _ | apply keeps_liftRes; apply _ | auto 1 with effects]
    end).

Lemma listIDs_issues (P : command → Prop) : (∀ c, looks c → P c) → keeps (issues P) (listDockerContainerIDs H).
Proof using. intros HP. unfold listDockerContainerIDs. issuing. apply keeps_run, HP. by left. Qed.
Lemma inspect_issues (P : command → Prop) ids : (∀ c, looks c → P c) → keeps (issues P) (inspectDockerContainers L H ids).
Proof using. intros HP. unfold inspectDockerContainers. issuing. apply keeps_run, HP. right. by exists ids. Qed.
Lemma readStacks_issues (P : command → Prop) : (∀ c, looks c → P c) → keeps (issues P) (readStacks L H s).
Proof using.
  intros HP. unfold readStacks, loadDeployBaselines, scanRuntime. issuing; first [by apply listIDs_issues|by apply inspect_issues].
Qed.
Lemma findStack_issues (P : command → Prop) id : (∀ c, looks c → P c) → keeps (issues P) (findStack L H s id).
Proof using. intros HP. unfold findStack. issuing; by apply readStacks_issues. Qed.

Lemma detect_issues (P : command → Prop) : (∀ c, probes c → P c) → keeps (issues P) (detectComposeCLI H).
Proof using.
  intros HP. assert (∀ l, keeps (issues P) (tryCLIs H l)) as Ht.
  { induction l as [|candidate l IH]; cbn [tryCLIs]; issuing; try done. apply keeps_run, HP. by exists candidate. }
  intros w r w'. unfold detectComposeCLI. destruct (w_cli w); [intros [= _ <-]; reflexivity|]. destruct (h_cancelled H _); [intros [= _ <-]; reflexivity|]. apply Ht.
Qed.
Lemma composeCommand_issues (P : command → Prop) dir arg env : (∀ c, probes c → P c) → keeps (issues P) (composeCommand H dir arg env).
Proof using. intros HP. unfold composeCommand. issuing. by apply detect_issues. Qed.

(** The shape of the command that is built. *)
Lemma composeCommand_Ok dir arg env w name args w' : composeCommand H dir arg env w = (Ok (name, args), w') →
  ∃ cli opts, name = cli_command cli ∧ args = cli_prefix cli ++ ["--project-directory"; pathText dir; "-f"; arg] ++ opts ∧
    (opts = [] ∨ ∃ p, env = Some p ∧ opts = ["--env-file"; pathText p]).
Proof using.
  unfold composeCommand. intros E. apply andThen_inv in E as [(e & _ & ?)|(cli & w1 & _ & E)]; [done|]. injection E as <- <- _. exists cli. eexists.
  split; [done|]. split; [reflexivity|]. destruct env as [p|]; [|by left]. case_match; [right; by exists p|by left].
Qed.

(** The continuation may use what the first operation returned. *)
Lemma keeps_andThen_Ok {A B} (R : world → world → Prop) `{!Transitive R} (c : W A) (k : A → W B) :
  keeps R c → (∀ a w w', c w = (Ok a, w') → keeps R (k a)) → keeps R (andThen c k).
Proof using.
  intros Hc Hk w r w' E. apply andThen_inv in E as [(e & E & _)|(a & w1 & E1 & E2)]; [by eapply Hc|]. etransitivity; [by eapply Hc|by eapply Hk].
Qed.

Lemma here {A} P (x r : res stack_error A) w w' : (x, w) = (r, w') → issues P w w'.
Proof using. intros E. apply (f_equal snd) in E. cbn [snd] in E. subst w'. apply issues_refl. Qed.

(** [c] runs probes and commands of [P] only, and when it succeeds its last command
    is one of [P] and ended without an error. *)
Definition settles {A} (P : command → Prop) (c : W A) : Prop := ∀ w r w', c w = (r, w') →
  issues (λ c, probes c ∨ P c) w w' ∧ (is_ok r = true → ∃ n c, last (w_calls w') = Some c ∧ P c ∧ oc_err (h_run H n c) = None).

Lemma settles_mono {A} (P Q : command → Prop) (c : W A) : (∀ x, P x → Q x) → settles P c → settles Q c.
Proof using.
  intros HPQ Hc w r w' [Hi Hl]%Hc. split; [eapply issues_mono; [|exact Hi]; intros x [?|?]; [by left|right; by apply HPQ]|].
  intros (n & x & ? & ? & ?)%Hl. exists n, x. auto.
Qed.
Lemma settles_after {A B} P (c : W A) (k : A → W B) : keeps (issues probes) c → (∀ a w w', c w = (Ok a, w') → settles P (k a)) → settles P (andThen c k).
Proof using.
  intros Hc Hk w r w' [(e & E & ->)|(a & w1 & E1 & E2)]%andThen_inv.
  - split; [|done]. apply Hc in E. eapply issues_mono; [|exact E]. by left.
  - destruct (Hk _ _ _ E1 _ _ _ E2) as [Hi Hl]. split; [|done]. etransitivity; [|exact Hi]. apply Hc in E1. eapply issues_mono; [|exact E1]. by left.
Qed.
(** One command, and the report about it. *)
Lemma settles_combined {A} (P : command → Prop) c limit (k : string * option (string + go_error) → W A) : P c →
  (∀ r w, (k r w).2 = w ∧ (is_ok (k r w).1 = true → r.2 = None)) → settles P (andThen (runCombinedOutput H c limit) k).
Proof using.
  intros Hc Hk w r w' [(e & E & _)|(a & w1 & E1 & E2)]%andThen_inv; unfold runCombinedOutput in *; [by apply andThen_inv in E as [(? & ? & _)|(? & ? & _ & ?)]|].
  apply andThen_inv in E1 as [(? & ? & ?)|(o & w2 & E0 & E1)]; [done|]. injection E0 as <- <-. injection E1 as <- <-.
  destruct (Hk (Bytes (Write (NewBuffer limit) (oc_output (h_run H (w_tick w) c))).2,
    match BufferErr (Write (NewBuffer limit) (oc_output (h_run H (w_tick w) c))).2 with Some e => Some (inr e) | None => inl <$> oc_err (h_run H (w_tick w) c) end)
    (mkWorld (w_fs w) (w_db w) (w_cli w) (S (w_tick w)) (w_calls w ++ [c]))) as [Hw Ho]. rewrite E2 in Hw, Ho. cbn in Hw, Ho. subst w'. split.
  - split_and!; [done..|]. exists [c]. split; [done|]. constructor; [by right|done].
  - intros Hr. specialize (Ho Hr). exists (w_tick w), c. split; [apply last_snoc|]. split; [done|].
    destruct (BufferErr _); [done|]. by destruct (oc_err _).
Qed.
Lemma settles_trimmed P c limit : P c → settles P (andThen (runCombinedOutput H c limit) trimmedOutput).
Proof using. intros Hc. apply settles_combined; [done|]. intros [o [[e|e]|]] w; by split. Qed.

Lemma composeAction_settles stack action args : settles (composes stack (action :: args)) (runComposeActionOutput H stack action args).
Proof using.
  unfold runComposeActionOutput. apply settles_after; [by apply composeCommand_issues|]. intros [name opts] w w' (cli & opts' & -> & -> & Hopts)%composeCommand_Ok.
  apply settles_trimmed. exists cli, opts'. split; [done|]. destruct Hopts as [?|(p & [= ->] & ?)]; [by left|by right].
Qed.
Lemma containerAction_settles stack action args : st_containers stack ≠ [] → settles (containerWise stack (action :: args)) (runContainerActionOutput H stack action args).
Proof using.
  intros Hne. unfold runContainerActionOutput. destruct (ct_id <$> st_containers stack) as [|x l] eqn:E; [by apply fmap_nil_inv in E|].
  apply settles_trimmed. unfold containerWise. by rewrite E.
Qed.
Lemma config_settles stack env : (env = None ∨ env = Some (st_env stack)) →
  settles (composes stack ["config"]) (runComposeConfig H (st_root stack) (pathText (st_compose stack)) env "").
Proof using.
  intros Henv. unfold runComposeConfig. assert (str_eqb (pathText (st_compose stack)) "-" = false) as -> by (by apply bool_decide_eq_false).
  apply settles_after; [apply keeps_returns, _|]. intros _ _ _ _. apply settles_after; [by apply composeCommand_issues|].
  intros [name args] w w' (cli & opts & -> & -> & Hopts)%composeCommand_Ok. apply settles_combined; [|by intros [o [[e|e]|]] ?].
  exists cli, opts. split; [done|]. destruct Hopts as [?|(p & -> & ?)]; [by left|right]. by destruct Henv as [?|[= <-]].
Qed.

(** The resolved configuration is valid only when Compose accepted it. *)
Lemma resolveCurrent_settles stack w r w' : resolveCurrent L H stack w = (r, w') →
  issues (λ c, probes c ∨ composes stack ["config"] c) w w' ∧
  ∃ resolved, r = Ok resolved ∧ (rc_valid resolved = true → ∃ n c, last (w_calls w') = Some c ∧ composes stack ["config"] c ∧ oc_err (h_run H n c) = None).
Proof using.
  assert (∀ e, (Ok (resolvedConfigFailure (st_id stack) e), w) = (r, w') → issues (λ c, probes c ∨ composes stack ["config"] c) w w' ∧
    ∃ resolved, r = Ok resolved ∧ (rc_valid resolved = true → ∃ n c, last (w_calls w') = Some c ∧ composes stack ["config"] c ∧ oc_err (h_run H n c) = None)) as Hf.
  { intros e [= <- <-]. split; [done|]. eexists. split; [done|]. unfold resolvedConfigFailure. by destruct (tooLarge e). }
  unfold resolveCurrent. destruct (readDefinitionFile (w_fs w) (st_compose stack)) as [content|]; [|apply Hf].
  destruct (if fileExists _ _ then _ else _) as [text|]; [|apply Hf].
  destruct (runComposeConfig H _ _ _ _ w) as [x w1] eqn:E. apply (config_settles stack) in E as [Hi Hl]; [|case_match; auto].
  destruct x as [c|e]; intros [= <- <-]; (split; [done|]); eexists; (split; [done|]); [intros _; by apply Hl|]. unfold resolvedConfigFailure. by destruct (tooLarge e).
Qed.

(** What the code offers is the table above. *)
Lemma action_offered stack action : str_in action knownActions && str_in action (availableActions stack) = true ↔ offers stack (Action action).
Proof using.
  destruct (str_in action knownActions) eqn:Hk; cbn [andb].
  - apply bool_decide_eq_true in Hk. unfold offers, usable, availableActions. cbn zeta. unfold knownActions in Hk.
    destruct (st_runtime stack), (st_config stack), (st_containers stack); cbn [length];
      repeat (apply elem_of_cons in Hk as [-> | Hk]; [vm_compute; clear; intuition congruence|]); by apply elem_of_nil in Hk.
  - split; [done|]. intros Ho. exfalso. apply bool_decide_eq_false in Hk. apply Hk. unfold offers in Ho. unfold knownActions. repeat (case_match; try done); set_solver.
Qed.
Lemma step_offered stack action options : str_in "up" (availableActions stack) && bool_decide (is_Some (maintenanceArgs action options)) = true ↔ offers stack (Step action options).
Proof using.
  assert (str_in "up" (availableActions stack) = true ↔ usable stack) as Hu by exact (action_offered stack "up").
  rewrite andb_true_iff, Hu, bool_decide_eq_true. unfold maintenanceArgs.
  repeat match goal with |- context [str_eqb action ?x] => let E := fresh in destruct (str_eqb action x) eqn:E; [apply bool_decide_eq_true in E; subst action; cbn; split; [by intros []|intros ?; split; [done|by eexists]]|] end.
  split; [by intros [_ [? ?]]|]. intros Ho. exfalso. unfold str_eqb in *. repeat match goal with E : bool_decide _ = false |- _ => apply bool_decide_eq_false in E end.
  unfold offers in Ho. repeat (case_match; try done).
Qed.

Lemma perform_settles stack action : offers stack (Action action) →
  (action = "down" ∧ st_containers stack = [] ∧ ∀ w, performAction L H stack action w = (Ok "", w)) ∨
  settles (carriesOut stack (Action action)) (performAction L H stack action).
Proof using.
  intros Ho. assert (∀ name args, usable stack → composeTail (Action action) = Some (name :: args) →
    settles (carriesOut stack (Action action)) (runComposeActionOutput H stack name args)) as Hc.
  { intros name args Hu Ht. eapply settles_mono; [|apply composeAction_settles]. intros c Hc. left. split; [by left|]. by eexists. }
  assert (¬ offers stack (Action action) → False) as Hno by auto. revert Hc Hno Ho. unfold performAction.
  repeat match goal with |- context [str_eqb action ?x] => let E := fresh in destruct (str_eqb action x) eqn:E; [apply bool_decide_eq_true in E; subst action|] end; intros Hc Hno Ho.
  - right. intros w r w' [(e & E1 & ->)|(resolved & w1 & E1 & E2)]%andThen_inv; apply resolveCurrent_settles in E1 as (Hi & res & Hr & Hl); [done|].
    injection Hr as <-. assert (w' = w1) as -> by (revert E2; by destruct (rc_valid resolved); intros [= _ <-]).
    split; [eapply issues_mono; [|exact Hi]; intros c [?|?]; [by left|right; left; split; [by right|by eexists]]|].
    intros Hok. destruct Hl as (n & c & ? & ? & ?); [by destruct (rc_valid resolved); [|injection E2 as <-]|].
    exists n, c. split; [done|]. split; [|done]. left. split; [by right|by eexists].
  - right. by apply Hc.
  - unfold removeRuntimeOutput. destruct (st_containers stack) as [|c0 l] eqn:Ec; [by left|right].
    destruct (_ || _) eqn:Ex.
    + eapply settles_mono; [|by apply containerAction_settles; rewrite Ec]. intros c Hw. right. split; [|by right].
      intros [Hr1 Hr2]. apply orb_prop in Ex as [?%bool_decide_eq_true|?%bool_decide_eq_true]; done.
    + apply orb_false_elim in Ex as [?%bool_decide_eq_false ?%bool_decide_eq_false]. by apply Hc.
  - right. cbn in Ho. case_bool_decide as Ei.
    + eapply settles_mono; [|apply containerAction_settles; by destruct Ho as [[[[] _] _]|(_ & _ & ?)]]. intros c Hw. right. split; [by intros []|by left].
    + apply Hc; [|done]. by destruct Ho as [[[? _] _]|(_ & ? & _)].
  - right. cbn in Ho. case_bool_decide as Ei; [by destruct Ho as [[[] _] _]|]. apply Hc; [|done]. by destruct Ho as [[? _] _].
  - right. by apply Hc.
  - right. by apply Hc.
  - right. apply Hc; [|done]. by destruct Ho.
  - exfalso. apply action_offered in Ho. apply andb_true_iff in Ho as [Hk _]. apply bool_decide_eq_true in Hk. unfold str_eqb in *.
    repeat match goal with E : bool_decide _ = false |- _ => apply bool_decide_eq_false in E end. unfold knownActions in Hk. set_solver.
Qed.
Lemma step_settles stack action options name args : usable stack → maintenanceArgs action options = Some (name, args) →
  settles (carriesOut stack (Step action options)) (runComposeActionOutput H stack name args).
Proof using.
  intros Hu Hm. eapply settles_mono; [|apply composeAction_settles]. intros c Hc. left. split; [by left|]. exists (name :: args). split; [|done].
  revert Hm. unfold maintenanceArgs.
  repeat match goal with |- context [str_eqb action ?x] => let E := fresh in destruct (str_eqb action x) eqn:E; [apply bool_decide_eq_true in E; subst action; by intros [= <- <-]|] end. done.
Qed.
End issued.

(** ** What a stack is made of *)

Section found.
Context (L : lib) (H : host) (s : ServiceReader) `{!MapRange string (list string)} {RU : MapRange string unit}.

Lemma groupContainers_own inspected id cs c : groupContainers L inspected !! id = Some cs → c ∈ cs →
  ∃ ic, ic ∈ inspected ∧ managedContainer L ic = Some (id, c).
Proof using.
  unfold groupContainers. rewrite lookup_fmap. intros Hcs Hc.
  assert (∀ (l : list (string * Container)) (m : gmap string (list Container)), (∀ k ds d, m !! k = Some ds → d ∈ ds → (k, d) ∈ omap (managedContainer L) inspected) → l ⊆ omap (managedContainer L) inspected →
    ∀ k ds d, foldl (λ m (e : string * Container), <[e.1 := default [] (m !! e.1) ++ [e.2]]> m) m l !! k = Some ds → d ∈ ds → (k, d) ∈ omap (managedContainer L) inspected) as Hf.
  { induction l as [|[k0 d0] l IH]; intros m Hm Hl; [exact Hm|]. cbn [foldl fst snd]. apply IH; [|intros x Hx; apply Hl; by right].
    intros k ds d. destruct (decide (k = k0)) as [->|?]; [rewrite lookup_insert_eq; intros [= <-] Hd|rewrite lookup_insert_ne by done; apply Hm].
    apply elem_of_app in Hd as [Hd|Hd%list_elem_of_singleton]; [|subst d0; apply Hl; by left].
    destruct (m !! k0) as [ds0|] eqn:E; [by eapply Hm|by apply elem_of_nil in Hd]. }
  destruct (foldl _ ∅ _ !! id) as [ds|] eqn:E; [|done]. injection Hcs as <-. rewrite sort_by_elem in Hc.
  eapply Hf in E; [|intros k ds0 d; by rewrite lookup_empty|done|exact Hc]. by apply list_elem_of_omap in E.
Qed.

(** A container that Docker reported as one of the project's. *)
Definition reported (id : string) (c : Container) : Prop :=
  ∃ n ids l ic, json_inspect L (oc_output (h_run H n (docker ("inspect" :: ids)))) = Some l ∧ ic ∈ l ∧
    ic_labels ic !! "com.docker.compose.project" = Some id ∧ ct_id c = ic_id ic ∧ known_status (ct_status c).
Lemma managed_label ic id c : managedContainer L ic = Some (id, c) →
  ic_labels ic !! "com.docker.compose.project" = Some id ∧ ct_id c = ic_id ic ∧ known_status (ct_status c).
Proof using.
  unfold managedContainer. destruct (negb _ || _) eqn:E; [done|]. intros [= <- <-]. apply orb_false_elim in E as [E%negb_false_iff _].
  split_and!; [|done|apply normalized_known]. destruct (ic_labels ic !! _); [done|]. by vm_compute in E.
Qed.

Lemma scanRuntime_reported w r w' : scanRuntime L H w = (r, w') →
  ∃ runtime, r = Ok runtime ∧ ∀ id cs c, runtime !! id = Some cs → c ∈ cs → reported id c.
Proof using.
  unfold scanRuntime. intros E. apply andThen_inv in E as [(e & E & _)|(ids & w1 & _ & E)]; [unfold attempts in E; by destruct (listDockerContainerIDs H w)|].
  assert (∀ w0, (Ok (∅ : gmap string (list Container)), w0) = (r, w') → ∃ runtime, r = Ok runtime ∧ ∀ id cs c, runtime !! id = Some cs → c ∈ cs → reported id c) as Hno.
  { intros w0 [= <- _]. exists ∅. split; [done|]. intros id cs c. by rewrite lookup_empty. }
  destruct ids as [[|x ids]|e]; [by eapply Hno| |by eapply Hno]. apply andThen_inv in E as [(e & E & _)|(inspected & w2 & E1 & E2)]; [unfold attempts in E; by destruct (inspectDockerContainers L H _ w1)|].
  destruct inspected as [l|e]; [|by eapply Hno]. injection E2 as <- _. eexists. split; [done|]. intros id cs c Hcs Hc. destruct (groupContainers_own _ _ _ _ Hcs Hc) as (ic & Hic & Hm).
  unfold attempts in E1. destruct (inspectDockerContainers L H (x :: ids) w1) as [y w3] eqn:Ei. injection E1 as -> _. unfold inspectDockerContainers in Ei.
  apply andThen_inv in Ei as [(e & _ & ?)|(o & w4 & Er & Ei)]; [done|]. injection Er as <- _. destruct (oc_err _); [done|]. destruct (json_inspect L _) as [l'|] eqn:Ej; [|done].
  injection Ei as -> _. exists (w_tick w1), (x :: ids), l, ic. split_and!; [done|done|by eapply managed_label..].
Qed.

(** What [readStacks] found, for the files of [m]. *)
Definition stacks_from (m : fs) (l : list discoveredStack) (baselines : gmap string Baseline) : Prop :=
  ∃ defined runtime now, scanDefinitions L H s m = Ok defined ∧ (∀ id cs c, runtime !! id = Some cs → c ∈ cs → reported id c) ∧
    ∀ st, st ∈ l ↔ ∃ id, (is_Some (defined !! id) ∨ is_Some (runtime !! id)) ∧ is_ok (validateStackRoot s m id true) = true ∧ st = readStack H s m now defined baselines runtime id.

Lemma readStacks_Ok w l w' : readStacks L H s w = (Ok l, w') →
  ∃ baselines w0, loadDeployBaselines H s w = (Ok baselines, w0) ∧ stacks_from (w_fs w) l baselines.
Proof using.
  unfold readStacks. intros E. apply andThen_inv in E as [(e & _ & ?)|(defined & w1 & E1 & E)]; [done|]. injection E1 as Hd <-.
  apply andThen_inv in E as [(e & _ & ?)|(baselines & w2 & E2 & E)]; [done|].
  assert (issues (λ _, False) w w2) as (F2 & _) by (revert E2; unfold loadDeployBaselines; case_match; [apply here|];
    apply keeps_andThen; [apply _|apply keeps_storeRead|intros; apply keeps_returns, _]).
  apply andThen_inv in E as [(e & _ & ?)|(runtime & w3 & E3 & E)]; [done|].
  assert (issues (λ _, True) w2 w3) as (F3 & _). { revert E3. unfold scanRuntime. eapply keeps_andThen; [apply _|apply keeps_attempts, listIDs_issues; done|]. intros []; [|apply keeps_returns, _].
    destruct a; [apply keeps_returns, _|]. apply keeps_andThen; [apply _|by apply keeps_attempts, inspect_issues|]. intros; apply keeps_returns, _. }
  destruct (scanRuntime_reported _ _ _ E3) as (rt & [= <-] & Hrep).
  apply andThen_inv in E as [(e & _ & ?)|(now & w4 & E4 & E)]; [done|]. injection E4 as _ <-. injection E as <- _. rewrite F3, F2.
  exists baselines, w2. split; [done|]. exists defined, runtime, now. split_and!; [done..|]. intros st. rewrite sort_by_elem, list_elem_of_omap.
  set (ids := ((λ _, tt) <$> defined) ∪ ((λ _, tt) <$> runtime) : gmap string unit).
  assert (∀ id u, (id, u) ∈ range_list ids ↔ is_Some (defined !! id) ∨ is_Some (runtime !! id)) as Hids.
  { intros id []. rewrite range_list_elem. unfold ids. rewrite lookup_union_Some_raw, !lookup_fmap. destruct (defined !! id), (runtime !! id); cbn; naive_solver eauto. }
  split.
  - intros ([id u] & Hin & Hx). apply Hids in Hin. cbn [fst] in Hx. destruct (is_ok _) eqn:Ev; [|done]. injection Hx as <-. by exists id.
  - intros (id & Hs & Hv & ->). exists (id, tt). split; [by apply Hids|]. cbn [fst]. by rewrite Hv.
Qed.

Lemma findStack_Ok id w st w' : findStack L H s id w = (Ok st, w') →
  ∃ baselines w0 defined runtime now, loadDeployBaselines H s w = (Ok baselines, w0) ∧ scanDefinitions L H s (w_fs w) = Ok defined ∧ IsValidStackID id = true ∧
    validateStackRoot s (w_fs w) id true = Ok tt ∧ st = readStack H s (w_fs w) now defined baselines runtime id ∧ ∀ c, c ∈ st_containers st → reported id c.
Proof using.
  unfold findStack. intros E. apply andThen_inv in E as [(e & _ & ?)|([] & w1 & E1 & E)]; [done|].
  injection E1 as Hv <-. apply guard_err_Ok, negb_false_iff in Hv. apply andThen_inv in E as [(e & _ & ?)|([] & w2 & E2 & E)]; [done|]. injection E2 as Hr <-.
  apply andThen_inv in E as [(e & _ & ?)|(l & w3 & E3 & E)]; [done|]. apply readStacks_Ok in E3 as (baselines & w0 & Hb & defined & runtime & now & Hd & Hrep & Hl).
  destruct (find_index_from _ 0 l) as [i|] eqn:Ei; [|done]. apply find_index_first in Ei as (x & Hx & Hid & _). destruct (l !! i) as [st'|] eqn:Ex; [|done]. injection E as -> _.
  injection Hx as <-. apply bool_decide_eq_true in Hid. assert (st ∈ l) as Hin by (by eapply list_elem_of_lookup_2). apply Hl in Hin as (id' & _ & _ & Est).
  assert (id' = id) as ->. { rewrite <- Hid, Est. unfold readStack, discover. by repeat case_match. }
  exists baselines, w0, defined, runtime, now. split_and!; try done. intros c Hc.
  assert (st_containers st = default [] (runtime !! id)) as Ec by (rewrite Est; unfold readStack, discover; by repeat case_match). rewrite Ec in Hc.
  destruct (runtime !! id) as [cs|] eqn:Er; [by eapply Hrep|by apply elem_of_nil in Hc].
Qed.
End found.

Section actions.
Context (L : lib) (H : host) (s : ServiceReader) `{!MapRange string (list string)} {RU : MapRange string unit}.

(** The stack of an id, in its own directory and with its own containers. *)
Definition own (id : string) (stack : discoveredStack) : Prop :=
  st_id stack = id ∧ st_root stack = RootPath (stackPaths (rd_root s) id) ∧ st_compose stack = ComposeFilePath (stackPaths (rd_root s) id) ∧
  st_env stack = EnvFilePath (stackPaths (rd_root s) id) ∧ ∀ c, c ∈ st_containers stack → reported L H id c.

Lemma readStack_paths m now defined baselines runtime id : let st := readStack H s m now defined baselines runtime id in
  st_id st = id ∧ st_root st = RootPath (stackPaths (rd_root s) id) ∧ st_compose st = ComposeFilePath (stackPaths (rd_root s) id) ∧ st_env st = EnvFilePath (stackPaths (rd_root s) id).
Proof using. cbn zeta. unfold readStack, discover. by repeat case_match. Qed.
Lemma findStack_own id w st w' : findStack L H s id w = (Ok st, w') → own id st.
Proof using.
  intros (baselines & w0 & defined & runtime & now & _ & _ & _ & _ & -> & Hc)%findStack_Ok.
  destruct (readStack_paths (w_fs w) now defined baselines runtime id) as (? & ? & ? & ?). done.
Qed.

Definition serve (id : string) (q : request) : W string :=
  match q with Action action => RunActionWithOutput L H s id action | Step action options => RunMaintenanceStep L H s id action options end.
Definition served (q : request) (stack : discoveredStack) : W string :=
  match q with
  | Action action => actionOn stack action (performAction L H stack action)
  | Step action options =>
    if negb (str_in "up" (availableActions stack)) then throws (ErrInvalidState "")
    else match maintenanceArgs action options with Some (name, args) => runComposeActionOutput H stack name args | None => throws ErrUnsupportedAction end
  end.

Lemma serve_eq id q : serve id q = andThen (findStack L H s id) (served q).
Proof using. by destruct q. Qed.
Lemma served_spec q stack : (¬ offers stack q ∧ ∀ w, ∃ e, served q stack w = (Err e, w)) ∨
  (offers stack q ∧ ((q = Action "down" ∧ st_containers stack = [] ∧ ∀ w, served q stack w = (Ok "", w)) ∨ settles H (carriesOut stack q) (served q stack))).
Proof using.
  destruct q as [action|action options]; cbn [served].
  - unfold actionOn. pose proof (action_offered stack action) as Ho.
    destruct (str_in action knownActions); cbn [negb andb] in *; [destruct (str_in action (availableActions stack)); cbn [negb]|]; [right|left..]; (split; [naive_solver|]); [|by eexists..].
    destruct (perform_settles L H stack action) as [(-> & ? & ?)|?]; [by apply Ho|by left|by right].
  - pose proof (step_offered stack action options) as Ho.
    destruct (str_in "up" (availableActions stack)) eqn:Eu; cbn [negb andb] in *; [|left; split; [naive_solver|by eexists]].
    destruct (maintenanceArgs action options) as [[name args]|] eqn:Em.
    + right. split; [apply Ho; by apply bool_decide_eq_true_2|]. right. apply step_settles; [|done]. exact (proj1 (action_offered stack "up") Eu).
    + left. split; [|by eexists]. intros H'. apply Ho, bool_decide_eq_true in H' as [? ?]. done.
Qed.

End actions.

(** ** Concrete runs

    The stack [web] of the file system of StackWorkspace, with one service, and one
    container under each of the projects [web] and [gone]; [gone] has no definition. *)

#[local] Instance demo_ids_range : MapRange string unit := default_range string unit.
#[local] Instance demo_fields_range : MapRange string (list string) := default_range string (list string).

Definition demoInspect (id project : string) : dockerInspectContainer :=
  mkInspect id ("/" +:+ project +:+ "-app-1") "sha256:1" "nginx" {["com.docker.compose.project" := project; "com.docker.compose.service" := "app"]} "running" "" None ∅ ∅.
Definition demoHostLib : lib :=
  mkLib (λ s, s) (λ _, Ok (mkComposeDefinition {["app" := mkComposeService "nginx" VNull [] [] VNull VNull]} None)) (λ _, None) (λ _, None)
    (λ _, Some [demoInspect "c1" "web"; demoInspect "c2" "gone"]).
Definition demoHost : host := mkHost (λ _ c, mkOutcome (if str_in "ps" (co_args c) then "c1 c2" else "done") None) (λ _, false) (λ _, None) (λ _, 1000) (λ _, "tmp") (λ s, s).
Definition demoReader : ServiceReader := mkReader ["srv"] ["srv"; "data"] true.
Definition demoWorld : world := mkWorld demo emptyDB None 0 [].
Definition demoServed (id : string) (q : request) : res stack_error string * world := serve demoHostLib demoHost demoReader id q demoWorld.

Example demo_up : co_args <$> w_calls (demoServed "web" (Action "up")).2 =
  [["ps"; "-aq"; "--filter"; "label=com.docker.compose.project"]; ["inspect"; "c1"; "c2"]; ["compose"; "version"];
   ["compose"; "--project-directory"; "/srv/stacks/web"; "-f"; "/srv/stacks/web/compose.yaml"; "up"; "-d"]].
Proof. vm_compute. reflexivity. Qed.
Example demo_down_orphan : co_args <$> w_calls (demoServed "gone" (Action "down")).2 =
  [["ps"; "-aq"; "--filter"; "label=com.docker.compose.project"]; ["inspect"; "c1"; "c2"]; ["rm"; "-f"; "c2"]].
Proof. vm_compute. reflexivity. Qed.
Example demo_up_orphan : is_ok (demoServed "gone" (Action "up")).1 = false.
Proof. vm_compute. reflexivity. Qed.

Lemma demo_down_ok : is_ok (demoServed "gone" (Action "down")).1 = true.
Proof. vm_compute. reflexivity. Qed.

