(* ===== verification/Notifications.v ===== *)
(** * internal/notifications: settings, channels and job notifications

    The stored settings with their legacy form, validation, delivery over the two
    channels with redacted errors, the choice of the event for a finished job, and
    the protection events of the backup module.  The background monitors are in
    NotificationMonitors.

    An operation is a function on a [world]: the database and the log of attempted
    deliveries.  What the surroundings answer during one operation is an [Env]: the
    outcome of each store call, of each delivery, and the clock.  [encoding/json] is
    [DocText]; [net/url], the inspection of stacks and the stored backup runs are
    parameters. *)

From stdpp Require Import gmap strings list pretty.
From Stdlib Require Import Ascii ZArith Lia.
From S2P Require Import Prelude GoStrings GoPath GoTime Store.

Local Open Scope Z_scope.

(** ** Data *)

Record EventToggles := mkToggles {
  JobFailed : bool; JobSucceededWithWarnings : bool; MaintenanceSucceeded : bool; PostUpdateRecoveryFailed : bool;
  StacklabServiceError : bool; RuntimeHealthDegraded : bool; RuntimeLogErrorBurst : bool }.
Record WebhookSettings := mkWebhook { wh_enabled : bool; wh_url : string }.
Record TelegramSettings := mkTelegram { tg_enabled : bool; BotToken : string; ChatID : string }.
Record Channels := mkChannels { Webhook : WebhookSettings; Telegram : TelegramSettings }.
Record Settings := mkSettings { Events : EventToggles; SChannels : Channels }.

Record ChannelsRequest := mkChannelsRequest { rq_webhook : option WebhookSettings; rq_telegram : option TelegramSettings }.
Record UpdateSettingsRequest := mkUpdate { rq_enabled : bool; rq_url : string; rq_events : EventToggles; rq_channels : option ChannelsRequest }.
Record TestRequest := mkTest { tr_channel : string; tr_update : UpdateSettingsRequest }.
Record TestResponse := mkTestResponse { Sent : bool; Channel : string }.

Record WebhookView := mkWebhookView { wv_enabled : bool; wv_configured : bool; wv_url : string }.
Record TelegramView := mkTelegramView { tv_enabled : bool; tv_configured : bool; BotTokenConfigured : bool; tv_chat : string }.
Record SettingsResponse := mkSettingsResponse {
  sr_enabled : bool; sr_configured : bool; sr_url : string; sr_events : EventToggles; sr_webhook : WebhookView; sr_telegram : TelegramView }.

(** [persistedCompat]: the stored document, with the fields of the first version. *)
Record persistedCompat := mkCompat { pc_enabled : option bool; pc_url : string; pc_events : EventToggles; pc_channels : Channels }.

Record WebhookJob := mkWebhookJob {
  wj_id : string; wj_action : string; wj_state : string; wj_stack : option string; wj_requested : Time;
  wj_started : option Time; wj_finished : option Time; wj_code : string; wj_message : string; wj_duration : option Z }.
Record PostUpdateFailure := mkPostUpdateFailure {
  pu_stack : string; pu_runtime : string; pu_display : string; pu_unhealthy : nat; pu_running : nat; pu_total : nat; pu_reason : string }.
Record StacklabServiceAlert := mkServiceAlert {
  sa_count : nat; sa_first : Time; sa_last : Time; sa_samples : list string; sa_cursor : string; sa_cooldown : Z }.
Record RuntimeHealthFailure := mkHealthFailure {
  hf_stack : string; hf_runtime : string; hf_display : string; hf_unhealthy : nat; hf_restarting : nat; hf_running : nat; hf_total : nat;
  hf_reasons : list string }.
Record RuntimeLogFailure := mkLogFailure {
  lf_stack : string; lf_count : nat; lf_containers_count : nat; lf_containers : list string; lf_samples : list string }.
Record RuntimeLogSummary := mkLogSummary { ls_start : Time; ls_end : Time; ls_stacks : list RuntimeLogFailure }.
Record BackupSummary := mkBackupSummary {
  bs_reasons : list string; bs_plan : string; bs_plan_name : string; bs_destination : string; bs_destination_name : string;
  bs_destinations : list string; bs_due : option Time }.
Record WebhookPayload := mkPayload {
  Event : string; SentAt : Time; Summary : string; Backup : option BackupSummary; PJob : option WebhookJob; WarningCount : nat;
  PostUpdate : option (list PostUpdateFailure); StacklabService : option StacklabServiceAlert;
  RuntimeHealth : option (list RuntimeHealthFailure); RuntimeLog : option RuntimeLogSummary }.

(** What [StackInspector] reports of a stack. *)
Record Container := mkContainer { ct_id : string; ct_name : string; ct_status : string }.
Record StackDetail := mkDetail { sd_id : string; sd_runtime : string; sd_display : string; sd_unhealthy : nat; sd_containers : list Container }.
Record StackInspector := mkInspector { List : res string (list string); Get : string → res string StackDetail }.

Inductive notify_error :=
| ErrDatabase (e : store_error)
| ErrInvalidConfig (message : string)
| ErrParse (message : string)
| ErrSend (messages : list string)
| ErrSource (message : string)
| ErrProtection (message : string).

(** ** The world of an operation *)

Inductive delivery := ToWebhook (target : string) (payload : WebhookPayload) | ToTelegram (botToken chatID text : string).

(** The database, and every attempted delivery with its error. *)
Record world := mkWorld { w_db : DB; w_log : list (delivery * option string) }.
Record Env := mkEnv { e_io : nat → IO; e_now : nat → Time; e_send : delivery → option string }.

Definition M (A : Type) : Type := world → res notify_error A * world.
Definition ret {A} (a : A) : M A := λ w, (Ok a, w).
Definition fail {A} (e : notify_error) : M A := λ w, (Err e, w).
Definition bind {A B} (c : M A) (k : A → M B) : M B := λ w, match c w with (Ok a, w) => k a w | (Err e, w) => (Err e, w) end.
Notation "'let!' x := c 'in' k" := (bind c (λ x, k)) (at level 10, x pattern, c at level 200, k at level 200).

Definition of_store {A} (r : DB → res store_error A) : M A := λ w, (match r (w_db w) with Ok a => Ok a | Err e => Err (ErrDatabase e) end, w).
Definition write_store (r : DB → res store_error DB) : M unit :=
  λ w, match r (w_db w) with Ok db => (Ok tt, mkWorld db (w_log w)) | Err e => (Err (ErrDatabase e), w) end.
Definition attempt (env : Env) (d : delivery) : M (option string) := λ w, (Ok (e_send env d), mkWorld (w_db w) (w_log w ++ [(d, e_send env d)])).

(** A document of the settings table, and its replacement. *)
Definition loadDoc {D} `{DocText D} (io : IO) (key message : string) : M (option D) :=
  let! raw := of_store (λ db, AppSetting io db key) in
  match raw with
  | None => ret None
  | Some text => match doc_parse text with Some d => ret (Some d) | None => fail (ErrParse message) end
  end.
Definition saveDoc {D} `{DocText D} (io : IO) (now : Time) (key : string) (d : D) : M unit := write_store (λ db, SetAppSetting io db key (doc_text d) now).

(** ** Sending *)

(** How the request ended: it could not be built or sent, or a status came back. *)
Inductive httpResult := BuildFailed (message : string) | SendFailed (message : string) | Status (code : nat).

Definition redactTelegramError (message botToken : string) : string := if str_empty botToken then message else ReplaceAll message botToken "<redacted>".
Definition sendTelegramMessage (post : string → string → string → httpResult) (botToken chatID text : string) : option string :=
  match post ("https://api.telegram.org/bot" +:+ botToken +:+ "/sendMessage") chatID text with
  | BuildFailed message => Some ("build telegram request: " +:+ redactTelegramError message botToken)
  | SendFailed message => Some ("send telegram request: " +:+ redactTelegramError message botToken)
  | Status code => if (code <? 200)%nat || (300 <=? code)%nat then Some ("telegram returned status " +:+ pretty code) else None
  end.

(** What [url.Parse] tells: scheme, host and the text of the parsed address. *)
Record urlParts := mkURL { url_scheme : string; url_host : string; url_text : string }.

Definition redactWebhookTarget (parse_url : string → option urlParts) (target : string) : string :=
  match parse_url target with
  | Some u => if str_empty (url_scheme u) || str_empty (url_host u) then "<redacted-webhook-url>" else url_scheme u +:+ "://" +:+ url_host u +:+ "/<redacted>"
  | None => "<redacted-webhook-url>"
  end.
Definition redactWebhookError (parse_url : string → option urlParts) (message target : string) : string :=
  if str_empty target then message
  else
    let redacted := redactWebhookTarget parse_url target in
    let message := ReplaceAll message target redacted in
    match parse_url target with
    | Some u => if str_empty (url_text u) then message else ReplaceAll message (url_text u) redacted
    | None => message
    end.
Definition sendWebhookMessage (parse_url : string → option urlParts) (post : string → WebhookPayload → httpResult) (target : string) (payload : WebhookPayload) : option string :=
  match post target payload with
  | BuildFailed message => Some ("build webhook request: " +:+ redactWebhookError parse_url message target)
  | SendFailed message => Some ("send webhook request: " +:+ redactWebhookError parse_url message target)
  | Status code => if (code <? 200)%nat || (300 <=? code)%nat then Some ("webhook returned status " +:+ pretty code) else None
  end.

Definition line_if (b : bool) (l : list string) : list string := if b then l else [].
Definition opt_lines {A} (o : option A) (f : A → list string) : list string := match o with Some a => f a | None => [] end.

Definition jobLines (j : WebhookJob) : list string :=
  ["Action: " +:+ wj_action j] ++ opt_lines (wj_stack j) (λ id, ["Stack: " +:+ id]) ++ ["State: " +:+ wj_state j] ++
  line_if (negb (str_empty (wj_message j))) ["Error: " +:+ wj_message j].

Definition newline : string := str1 (chr 10).
Definition buildTelegramText (p : WebhookPayload) : string :=
  join newline (
    [Summary p] ++
    opt_lines (PJob p) jobLines ++
    line_if (0 <? WarningCount p)%nat ["Warnings: " +:+ pretty (WarningCount p)] ++
    opt_lines (PostUpdate p) (λ failed, line_if (negb (bool_decide (failed = [])))
      ("Failed stacks:" :: ((λ f, "- " +:+ pu_stack f +:+ " (" +:+ (if str_empty (pu_runtime f) then pu_reason f else pu_runtime f) +:+ ")") <$> failed))) ++
    opt_lines (StacklabService p) (λ a, ["Entries: " +:+ pretty (sa_count a)] ++
      line_if (negb (bool_decide (sa_samples a = []))) ("Samples:" :: ((λ m, "- " +:+ m) <$> sa_samples a))) ++
    opt_lines (RuntimeHealth p) (λ affected, line_if (negb (bool_decide (affected = [])))
      ("Affected stacks:" :: ((λ f, let reason := join ", " (hf_reasons f) in
        "- " +:+ hf_stack f +:+ " (" +:+ (if str_empty reason then hf_runtime f else reason) +:+ ")") <$> affected))) ++
    opt_lines (RuntimeLog p) (λ s, line_if (negb (bool_decide (ls_stacks s = [])))
      ("Affected stacks:" :: concat ((λ f, ("- " +:+ lf_stack f +:+ " (" +:+ pretty (lf_count f) +:+ " matching log lines)") ::
        ((λ m, "  • " +:+ m) <$> lf_samples f)) <$> ls_stacks s)))).

(** ** Settings *)

Definition settingsKey : string := "notifications_v2".
Definition legacySettingsKey : string := "notifications_webhook_v1".

Definition defaultSettings : Settings :=
  mkSettings (mkToggles true true false false false false false) (mkChannels (mkWebhook false "") (mkTelegram false "" "")).

Definition settingsResponse (s : Settings) : SettingsResponse :=
  let '(mkChannels w t) := SChannels s in
  let configured := negb (str_empty (wh_url w)) in
  mkSettingsResponse (wh_enabled w) configured (wh_url w) (Events s) (mkWebhookView (wh_enabled w) configured (wh_url w))
    (mkTelegramView (tg_enabled t) (negb (str_empty (BotToken t)) && negb (str_empty (ChatID t))) (negb (str_empty (BotToken t))) (ChatID t)).

Definition hasConfiguredNotificationChannel (s : Settings) : bool :=
  let '(mkChannels w t) := SChannels s in
  (wh_enabled w && negb (str_empty (wh_url w))) || (tg_enabled t && negb (str_empty (BotToken t)) && negb (str_empty (ChatID t))).

(** The settings of a stored document: the fields of the first version win. *)
Definition fromCompat (c : persistedCompat) : Settings :=
  let '(mkChannels w t) := pc_channels c in
  let enabled := match pc_enabled c with Some b => b | None => wh_enabled w end in
  let url := if str_empty (trim_space (pc_url c)) then wh_url w else trim_space (pc_url c) in
  mkSettings (pc_events c) (mkChannels (mkWebhook enabled (trim_space url)) (mkTelegram (tg_enabled t) (trim_space (BotToken t)) (trim_space (ChatID t)))).

(** The JSON text of settings has none of the fields of the first version. *)
Definition toCompat (s : Settings) : persistedCompat := mkCompat None "" (Events s) (SChannels s).

Section notifications.
Context `{!DocText persistedCompat} (parse_url : string → option urlParts).

Definition loadSettings (io1 io2 : IO) : M Settings :=
  let! raw := of_store (λ db, AppSetting io1 db settingsKey) in
  let! raw := match raw with Some text => ret (Some text) | None => of_store (λ db, AppSetting io2 db legacySettingsKey) end in
  match raw with
  | None => ret defaultSettings
  | Some text => match doc_parse text with Some c => ret (fromCompat c) | None => fail (ErrParse "parse notification settings") end
  end.

Definition saveSettings (io : IO) (now : Time) (s : Settings) : M unit := saveDoc io now settingsKey (toCompat s).

Definition validateSettings (s : Settings) : res notify_error unit :=
  let '(mkChannels w t) := SChannels s in
  let? _ :=
    if wh_enabled w || negb (str_empty (trim_space (wh_url w))) then
      if str_empty (trim_space (wh_url w)) then Err (ErrInvalidConfig "webhook_url is required")
      else match parse_url (wh_url w) with
      | None => Err (ErrInvalidConfig "webhook_url must be a valid absolute URL")
      | Some u =>
        if str_empty (url_scheme u) || str_empty (url_host u) then Err (ErrInvalidConfig "webhook_url must be a valid absolute URL")
        else guard_err (negb (str_in (url_scheme u) ["http"; "https"])) (ErrInvalidConfig "webhook_url must use http or https")
      end
    else Ok tt in
  if tg_enabled t || negb (str_empty (BotToken t)) || negb (str_empty (ChatID t)) then
    if str_empty (BotToken t) then Err (ErrInvalidConfig "telegram bot_token is required")
    else guard_err (str_empty (ChatID t)) (ErrInvalidConfig "telegram chat_id is required")
  else Ok tt.

(** The channels of a request; the webhook of the first version when it has none. *)
Definition requestedChannels (request : UpdateSettingsRequest) (c : Channels) : Channels :=
  match rq_channels request with
  | None => mkChannels (mkWebhook (rq_enabled request) (trim_space (rq_url request))) (Telegram c)
  | Some r =>
    mkChannels
      (match rq_webhook r with Some w => mkWebhook (wh_enabled w) (trim_space (wh_url w)) | None => Webhook c end)
      (match rq_telegram r with Some t => mkTelegram (tg_enabled t) (trim_space (BotToken t)) (trim_space (ChatID t)) | None => Telegram c end)
  end.

Definition settingsFromUpdateRequest (env : Env) (request : UpdateSettingsRequest) : M Settings :=
  let! settings := loadSettings (e_io env 0) (e_io env 1) in
  ret (mkSettings (rq_events request) (requestedChannels request (SChannels settings))).

Definition of_res {A} (r : res notify_error A) : M A := λ w, (r, w).

Definition GetSettings (env : Env) : M SettingsResponse :=
  let! settings := loadSettings (e_io env 0) (e_io env 1) in ret (settingsResponse settings).

Definition UpdateSettings (env : Env) (request : UpdateSettingsRequest) : M SettingsResponse :=
  let! settings := settingsFromUpdateRequest env request in
  let! _ := of_res (validateSettings settings) in
  let! _ := saveSettings (e_io env 2) (e_now env 0) settings in
  ret (settingsResponse settings).

Definition plainPayload (event summary : string) (now : Time) : WebhookPayload := mkPayload event now summary None None 0 None None None None.

Definition SendTest (env : Env) (request : TestRequest) : M TestResponse :=
  let! settings := settingsFromUpdateRequest env (tr_update request) in
  let! _ := of_res (validateSettings settings) in
  let payload := plainPayload "test_notification" "Stacklab test notification" (e_now env 0) in
  let channel := if str_empty (trim_space (tr_channel request)) then "webhook" else trim_space (tr_channel request) in
  let '(mkChannels wh tg) := SChannels settings in
  let send d := let! failed := attempt env d in match failed with Some message => fail (ErrSend [message]) | None => ret (mkTestResponse true channel) end in
  if str_eqb channel "webhook" then send (ToWebhook (wh_url wh) payload)
  else if str_eqb channel "telegram" then send (ToTelegram (BotToken tg) (ChatID tg) (buildTelegramText payload))
  else fail (ErrInvalidConfig "unsupported channel").

(** ** Delivery *)

Definition attempt_if (env : Env) (b : bool) (d : delivery) : M (list string) :=
  if b then let! failed := attempt env d in ret (match failed with Some message => [message] | None => [] end) else ret [].

Definition dispatchPayload (env : Env) (settings : Settings) (payload : WebhookPayload) : M unit :=
  let '(mkChannels w t) := SChannels settings in
  let! e1 := attempt_if env (wh_enabled w && negb (str_empty (wh_url w))) (ToWebhook (wh_url w) payload) in
  let! e2 := attempt_if env (tg_enabled t && negb (str_empty (BotToken t)) && negb (str_empty (ChatID t)))
               (ToTelegram (BotToken t) (ChatID t) (buildTelegramText payload)) in
  match e1 ++ e2 with [] => ret tt | errs => fail (ErrSend errs) end.

(** ** Jobs *)

Definition isMaintenanceAction (action : string) : bool := str_in action ["update_stacks"; "prune"; "backup_restore"].

Definition buildSummary (eventType : string) (job : Job) (warningCount : nat) : string :=
  let target := if str_empty (job_stack job) then job_action job else job_action job +:+ " · " +:+ job_stack job in
  if str_eqb eventType "job_failed" then "Stacklab job failed: " +:+ target
  else if str_eqb eventType "job_succeeded_with_warnings" then
    "Stacklab job succeeded with warnings: " +:+ target +:+ " (" +:+ pretty warningCount +:+ " warnings)"
  else if str_eqb eventType "maintenance_succeeded" then "Stacklab maintenance completed: " +:+ target
  else if str_eqb eventType "post_update_recovery_failed" then "Stacklab post-update recovery failed: " +:+ target
  else if str_eqb eventType "stacklab_service_error" then "Stacklab service logged new errors"
  else if str_eqb eventType "runtime_health_degraded" then "One or more stacks became unhealthy"
  else if str_eqb eventType "runtime_log_error_burst" then "One or more stacks started logging repeated errors"
  else "Stacklab notification".

Definition countStatus (status : string) (l : list Container) : nat := length (filter (λ c, ct_status c = status) l).

(** The stacks that an update touched, sorted. *)
Definition updateTargets (job : Job) : list string :=
  let targets := match job_workflow job with
    | Some wf => filter (λ id, id ≠ "") (step_target <$> Steps wf)
    | None => []
    end in
  let targets := if bool_decide (targets = []) then (if str_empty (job_stack job) then [] else [job_stack job]) else targets in
  sort_strings (remove_dups targets).

Definition postUpdateFailure (inspector : StackInspector) (id : string) : option PostUpdateFailure :=
  match Get inspector id with
  | Err _ => Some (mkPostUpdateFailure id "" "" 0 0 0 "stack_lookup_failed")
  | Ok d =>
    if str_eqb (sd_runtime d) "running" && (sd_unhealthy d =? 0)%nat then None
    else Some (mkPostUpdateFailure (sd_id d) (sd_runtime d) (sd_display d) (sd_unhealthy d) (countStatus "running" (sd_containers d))
                 (length (sd_containers d)) "stack_not_healthy_after_update")
  end.
Definition inspectPostUpdateFailures (inspector : option StackInspector) (job : Job) : list PostUpdateFailure :=
  match inspector with None => [] | Some i => omap (postUpdateFailure i) (updateTargets job) end.

(** The event of a job, if any, with the stacks that did not come back. *)
Definition jobEvent (inspector : option StackInspector) (toggles : EventToggles) (job : Job) (warnings : nat) : option (string * option (list PostUpdateFailure)) :=
  if (str_eqb (job_state job) "failed" || (has_prefix (job_action job) "backup_" && str_eqb (job_state job) "timed_out")) && JobFailed toggles
  then Some ("job_failed", None)
  else if str_eqb (job_state job) "succeeded" then
    let failures :=
      if str_eqb (job_action job) "update_stacks" && PostUpdateRecoveryFailed toggles then inspectPostUpdateFailures inspector job else [] in
    match failures with
    | _ :: _ => Some ("post_update_recovery_failed", Some failures)
    | [] =>
      if (0 <? warnings)%nat && JobSucceededWithWarnings toggles then Some ("job_succeeded_with_warnings", None)
      else if isMaintenanceAction (job_action job) && MaintenanceSucceeded toggles then Some ("maintenance_succeeded", None)
      else None
    end
  else None.


(** The runs and the names of the destinations of the stored backup state. *)
Record backupRun := mkBackupRun { br_job : string; br_plan : string; br_plan_name : string; br_copies : list string }.
Context `{!MapRange string backupRun} (parse_backup : string → option (gmap string backupRun * gmap string string)).

Definition backupJobSummary (io : IO) (job : Job) (db : DB) : option BackupSummary :=
  match AppSetting io db "backup.v1" with
  | Ok (Some raw) =>
    match parse_backup raw with
    | Some (runs, destinations) =>
      match find (λ r, str_eqb (br_job r) (job_id job)) (snd <$> range_list runs) with
      | Some r => Some (mkBackupSummary [] (br_plan r) (br_plan_name r) "" "" (omap (λ id, destinations !! id) (br_copies r)) None)
      | None => None
      end
    | None => None
    end
  | _ => None
  end.

Definition isBackupAction (job : Job) : bool := has_prefix (job_action job) "backup_".

Definition buildJobPayload (env : Env) (inspector : option StackInspector) (settings : Settings) (job : Job) : M (option WebhookPayload) :=
  let! events := of_store (λ db, ListJobEvents (e_io env 2) db (job_id job)) in
  let warnings := length (filter (λ e, ev_event e = "job_warning") events) in
  match jobEvent inspector (Events settings) job warnings with
  | None => ret None
  | Some (event, failures) => λ w,
    let duration := match job_started_at job, job_finished_at job with
      | Some started, Some finished => Some (Milliseconds (Sub finished started))
      | _, _ => None
      end in
    let backup := if isBackupAction job then backupJobSummary (e_io env 3) job (w_db w) else None in
    let summary := buildSummary event job warnings +:+
      match backup with Some b => ": " +:+ bs_plan_name b +:+ " (" +:+ join ", " (bs_destinations b) +:+ ")" | None => "" end in
    (Ok (Some (mkPayload event (e_now env 0) summary backup
      (Some (mkWebhookJob (job_id job) (job_action job) (job_state job) (if str_empty (job_stack job) then None else Some (job_stack job))
        (job_requested_at job) (job_started_at job) (job_finished_at job) (job_error_code job) (job_error_message job) duration))
      warnings failures None None None)), w)
  end.

Definition DispatchJob (env : Env) (inspector : option StackInspector) (job : Job) : M unit :=
  let! settings := loadSettings (e_io env 0) (e_io env 1) in
  let! payload := buildJobPayload env inspector settings job in
  match payload with Some p => dispatchPayload env settings p | None => ret tt end.

(** ** Protection events of the backup module; [format] is [Format(time.RFC3339)]. *)

Definition protectionSummary (format : Time → string) (event : string) (b : BackupSummary) : res notify_error string :=
  if str_eqb event "backup_copy_overdue" then
    match bs_due b with
    | None => Err (ErrProtection "backup overdue notification requires a due time")
    | Some due => Ok ("Backup copy overdue: " +:+ bs_plan_name b +:+ " → " +:+ bs_destination_name b +:+ " (due " +:+ format due +:+ ")")
    end
  else if str_eqb event "backup_copy_resolved" then
    Ok ("Backup protection restored: " +:+ bs_plan_name b +:+ " → " +:+ bs_destination_name b +:+ " has a fresh, usable copy.")
  else if str_eqb event "backup_protection_paused" then
    Ok ("Automatic backup and retention are paused: " +:+ join ", " (bs_reasons b) +:+
        ". Review Backup settings and Service recovery; protection monitoring continues.")
  else if str_eqb event "backup_protection_resumed" then
    Ok "Automatic backup and retention have resumed. Copy freshness is monitored separately."
  else Err (ErrProtection "unsupported backup protection notification").

Definition DispatchBackupProtection (env : Env) (format : Time → string) (event : string) (b : BackupSummary) : M unit :=
  let! settings := loadSettings (e_io env 0) (e_io env 1) in
  if negb (JobFailed (Events settings)) || negb (hasConfiguredNotificationChannel settings)
  then fail (ErrProtection "backup protection notifications are not enabled")
  else
    let! summary := of_res (protectionSummary format event b) in
    dispatchPayload env settings (mkPayload event (e_now env 0) summary (Some b) None 0 None None None None).

Definition DispatchBackupAlert (env : Env) (format : Time → string) (planID planName destinationID destinationName : string) (due : Time) : M unit :=
  DispatchBackupProtection env format "backup_copy_overdue" (mkBackupSummary [] planID planName destinationID destinationName [] (Some due)).

End notifications.

(** ** Redaction *)

Fixpoint no_digits (s : string) : bool := match s with EmptyString => true | String c r => negb (is_digit c) && no_digits r end.

(** The form of a token of the Bot API: it starts with a digit and has a colon. *)
Definition botTokenForm (token : string) : Prop :=
  match token with EmptyString => False | String c _ => is_digit c = true end ∧ free_of ":" token = false ∧ free_of "<" token = true.

Lemma contains_skip u x token : no_digits u = true → botTokenForm token → contains (u +:+ x) token = contains x token.
Proof.
  intros Hu (Hd & _). destruct token as [|t token]; [done|]. induction u as [|c u IH]; [done|]. rewrite str_app_cons. cbn in Hu. apply andb_true_iff in Hu as [Hc Hu].
  cbn [contains]. rewrite IH by done. unfold has_prefix. cbn [strip_prefix]. destruct (Ascii.eqb t c) eqn:E; [|done]. apply Ascii.eqb_eq in E as ->. by rewrite Hd in Hc.
Qed.

Lemma replace_prefix k old new s p : (∃ r, new = String "<" r) → free_of "<" p = true → has_prefix (replace_from k old new s) p = true → has_prefix s p = true.
Proof.
  intros [rn ->]. revert s p. induction k as [|k IH]; intros s p Hp; [done|]. cbn [replace_from]. destruct p as [|a p]; [by destruct s|].
  cbn in Hp. destruct (Ascii.eqb a "<") eqn:Ea; [done|]. destruct (strip_prefix old s) as [r|].
  - rewrite str_app_cons. unfold has_prefix. cbn [strip_prefix]. by rewrite Ea.
  - destruct s as [|c s]; [done|]. unfold has_prefix. cbn [strip_prefix]. destruct (Ascii.eqb a c); [|done]. intros H. by apply (IH s p Hp).
Qed.

Lemma strip_prefix_shorter p s r : p ≠ "" → strip_prefix p s = Some r → (String.length r < String.length s)%nat.
Proof. intros Hp ->%strip_prefix_app. rewrite str_app_length. destruct p; [done|]. cbn. lia. Qed.

Lemma replace_removes k token s : (String.length s ≤ k)%nat → botTokenForm token → contains (replace_from k token "<redacted>" s) token = false.
Proof.
  intros Hk Ht. assert (token ≠ "") as Hne by (destruct Ht as [H _]; by destruct token). revert s Hk. induction k as [|k IH]; intros s Hk.
  - destruct s; [|cbn in Hk; lia]. cbn. unfold has_prefix. by destruct token.
  - cbn [replace_from]. destruct (strip_prefix token s) as [r|] eqn:E.
    + rewrite contains_skip by done. apply IH. pose proof (strip_prefix_shorter _ _ _ Hne E). lia.
    + destruct s as [|c s]; [unfold contains, has_prefix; by destruct token|]. cbn [contains]. rewrite IH by (cbn in Hk; lia). apply orb_false_iff. split; [|done].
      destruct (has_prefix (String c (replace_from k token "<redacted>" s)) token) eqn:Eh; [|done]. exfalso.
      assert (has_prefix (String c s) token = true) as Hs.
      { apply (replace_prefix (S k) token "<redacted>"); [by eexists|apply Ht|]. cbn [replace_from]. by rewrite E. }
      unfold has_prefix in Hs. by rewrite E in Hs.
Qed.

Lemma contains_free s p c : contains s p = true → free_of c s = true → free_of c p = true.
Proof.
  induction s as [|d s IH]; cbn [contains].
  - rewrite orb_false_r. unfold has_prefix. by destruct p.
  - intros [H|H]%orb_true_iff Hf.
    + unfold has_prefix in H. destruct (strip_prefix p (String d s)) as [r|] eqn:E; [|done]. apply strip_prefix_app in E. rewrite E, free_of_app in Hf. by apply andb_true_iff in Hf as [? _].
    + apply IH; [done|]. cbn in Hf. by destruct (Ascii.eqb d c).
Qed.

Lemma pretty_no_colon n : free_of ":" (pretty (n : nat)) = true.
Proof.
  unfold pretty, pretty_nat. generalize (N.of_nat n) as m. clear n. intros m. unfold pretty, pretty_N. case_decide; [done|].
  assert (∀ k acc, free_of ":" acc = true → free_of ":" (pretty_N_go k acc) = true) as Hgo; [|by apply Hgo].
  intros k. induction (N.lt_wf_0 k) as [k _ IH]. intros acc Ha. destruct (decide (0 < k)%N) as [Hk|Hk]; [|replace k with 0%N by lia; by rewrite pretty_N_go_0].
  rewrite pretty_N_go_step by done. apply IH; [apply N.div_lt; lia|]. cbn [free_of].
  assert (pretty_N_char (k `mod` 10) ≠ ":"%char) as Hc by (unfold pretty_N_char; repeat case_match; done). by destruct (Ascii.eqb_spec (pretty_N_char (k `mod` 10)) ":").
Qed.

(** whatever the HTTP client reports, the error of a Telegram delivery does not contain the bot token. *)
Theorem telegram_token_redacted post token chat text message :
  botTokenForm token → sendTelegramMessage post token chat text = Some message → contains message token = false.
Proof.
  intros Ht. unfold sendTelegramMessage, redactTelegramError. assert (str_empty token = false) as -> by (destruct Ht as [H _]; by destruct token).
  destruct (post _ _ _) as [m|m|code].
  - intros [= <-]. rewrite contains_skip by done. by apply replace_removes.
  - intros [= <-]. rewrite contains_skip by done. by apply replace_removes.
  - destruct (_ || _); [|done]. intros [= <-]. rewrite contains_skip by done. destruct (contains (pretty code) token) eqn:E; [|done].
    apply (contains_free _ _ ":") in E; [|apply pretty_no_colon]. destruct Ht as (_ & Hc & _). congruence.
Qed.

(** ** Settings *)

#[local] Arguments trim_space : simpl never.
#[local] Arguments str_empty : simpl never.

Definition trimmed (s : Settings) : Prop :=
  trim_space (wh_url (Webhook (SChannels s))) = wh_url (Webhook (SChannels s)) ∧
  trim_space (BotToken (Telegram (SChannels s))) = BotToken (Telegram (SChannels s)) ∧
  trim_space (ChatID (Telegram (SChannels s))) = ChatID (Telegram (SChannels s)).

Lemma fromCompat_trimmed c : trimmed (fromCompat c).
Proof. destruct c as [e u ev [w t]]. unfold trimmed, fromCompat. cbn. by rewrite !trim_space_idem. Qed.

Lemma fromCompat_toCompat s : trimmed s → fromCompat (toCompat s) = s.
Proof. destruct s as [ev [[we wu] [te tb tc]]]. unfold trimmed, fromCompat, toCompat. cbn. change (str_empty (trim_space "")) with true. cbn. by intros (-> & -> & ->). Qed.

Lemma requested_trimmed request s : trimmed s → trimmed (mkSettings (rq_events request) (requestedChannels request (SChannels s))).
Proof.
  intros Hs. unfold requestedChannels. destruct (rq_channels request) as [[w t]|]; unfold trimmed in *; cbn.
  - destruct w as [w|], t as [t|]; cbn; rewrite ?trim_space_idem; tauto.
  - rewrite trim_space_idem. tauto.
Qed.

Section settings.
Context `{!DocText persistedCompat} (parse_url : string → option urlParts).

Lemma loadSettings_inv io1 io2 w s w' : loadSettings io1 io2 w = (Ok s, w') → w' = w ∧ trimmed s.
Proof.
  unfold loadSettings, bind, of_store. destruct (AppSetting io1 (w_db w) settingsKey) as [[text|]|]; cbn; [| |done].
  - destruct (doc_parse text); [|done]. intros [= <- <-]. split; [done|apply fromCompat_trimmed].
  - destruct (AppSetting io2 (w_db w) legacySettingsKey) as [[text|]|]; cbn; [| |done].
    + destruct (doc_parse text); [|done]. intros [= <- <-]. split; [done|apply fromCompat_trimmed].
    + intros [= <- <-]. done.
Qed.

Lemma loadSettings_world io1 io2 w : (loadSettings io1 io2 w).2 = w.
Proof.
  unfold loadSettings, bind, of_store. destruct (AppSetting io1 (w_db w) settingsKey) as [[text|]|]; cbn; [by destruct (doc_parse text)| |done].
  destruct (AppSetting io2 (w_db w) legacySettingsKey) as [[text|]|]; cbn; [by destruct (doc_parse text)|done|done].
Qed.

(** an update of the notification settings either changes nothing or is read back exactly as it was answered, however the text was padded; it stores only
    its own setting and sends nothing. *)
Theorem UpdateSettings_roundtrip env env' request w r w' :
  UpdateSettings parse_url env request w = (r, w') → e_io env' 0 = None →
  match r with
  | Err _ => w' = w
  | Ok response => GetSettings env' w' = (Ok response, w') ∧ w_log w' = w_log w ∧
      ∀ key, key ≠ settingsKey → app_settings (w_db w') !! key = app_settings (w_db w) !! key
  end.
Proof.
  unfold UpdateSettings, settingsFromUpdateRequest, bind at 1 2. pose proof (loadSettings_world (e_io env 0) (e_io env 1) w) as Hw.
  destruct (loadSettings (e_io env 0) (e_io env 1) w) as [[s|e] w0] eqn:El; cbn in Hw; subst w0; [|by intros [= <- <-]].
  apply loadSettings_inv in El as [_ Ht]. cbn [ret]. set (s' := mkSettings _ _). pose proof (requested_trimmed request s Ht) as Ht'. fold s' in Ht'.
  unfold bind, of_res. destruct (validateSettings parse_url s'); [|by intros [= <- <-]]. unfold saveSettings, saveDoc, write_store, SetAppSetting, driver.
  destruct (e_io env 2); [by intros [= <- <-]|]. intros [= <- <-] Hio. cbn [w_db w_log]. split_and!; [|done|].
  - unfold GetSettings, loadSettings, bind, of_store, AppSetting, driver. rewrite Hio. cbn. rewrite lookup_insert_eq. cbn. rewrite doc_parse_text. cbn.
    by rewrite fromCompat_toCompat.
  - intros key Hk. cbn. by rewrite lookup_insert_ne.
Qed.

(** an update whose Telegram token is left empty while the channel stays enabled or keeps its chat is always refused: a configured token is never kept. *)
Theorem empty_token_not_kept env request channels t w :
  rq_channels request = Some channels → rq_telegram channels = Some t → trim_space (BotToken t) = "" → (tg_enabled t = true ∨ trim_space (ChatID t) ≠ "") →
  ∃ e, UpdateSettings parse_url env request w = (Err e, w).
Proof.
  intros Hc Htg Hb Hen. unfold UpdateSettings, settingsFromUpdateRequest, bind at 1 2. pose proof (loadSettings_world (e_io env 0) (e_io env 1) w) as Hw.
  destruct (loadSettings (e_io env 0) (e_io env 1) w) as [[s|e] w0]; cbn in Hw; subst w0; [|by eexists]. cbn [ret]. unfold requestedChannels. rewrite Hc, Htg.
  unfold bind, of_res, validateSettings. cbn [SChannels]. rewrite Hb. match goal with |- context [res_bind ?c _] => destruct c as [[]|e]; [|by eexists] end. cbn [res_bind tg_enabled BotToken ChatID].
  assert (tg_enabled t || negb (str_empty "") || negb (str_empty (trim_space (ChatID t))) = true) as ->.
  { destruct Hen as [->|Hne]; [done|]. unfold str_empty, str_eqb. rewrite (bool_decide_eq_false_2 (trim_space (ChatID t) = "")) by done. by rewrite orb_true_r. }
  by eexists.
Qed.
End settings.

(** ** Deliveries *)

(** The channels that are enabled and complete. *)
Definition targets (s : Settings) (p : WebhookPayload) : list delivery :=
  let '(mkChannels w t) := SChannels s in
  (if wh_enabled w && negb (str_empty (wh_url w)) then [ToWebhook (wh_url w) p] else []) ++
  (if tg_enabled t && negb (str_empty (BotToken t)) && negb (str_empty (ChatID t)) then [ToTelegram (BotToken t) (ChatID t) (buildTelegramText p)] else []).

Lemma targets_configured s p : hasConfiguredNotificationChannel s = true ↔ targets s p ≠ [].
Proof. unfold hasConfiguredNotificationChannel, targets. destruct (SChannels s) as [w t]. by destruct (_ && _), (_ && _ && _). Qed.

Lemma dispatch_spec env s p w : ∃ r, dispatchPayload env s p w = (r, mkWorld (w_db w) (w_log w ++ ((λ d, (d, e_send env d)) <$> targets s p))) ∧
  (is_ok r = true ↔ ∀ d, d ∈ targets s p → e_send env d = None).
Proof.
  unfold dispatchPayload, targets, attempt_if. destruct (SChannels s) as [wh tg]. set (d1 := ToWebhook _ _). set (d2 := ToTelegram _ _ _).
  destruct (wh_enabled wh && _), (tg_enabled tg && _ && _); unfold bind, attempt, ret, fail; cbn; rewrite <- ?app_assoc, ?app_nil_r;
    destruct (e_send env d1) eqn:E1, (e_send env d2) eqn:E2; cbn; (eexists; split; [destruct w; reflexivity|]); cbn;
    rewrite <- Forall_forall, ?Forall_cons, ?Forall_nil, ?E1, ?E2; naive_solver congruence.
Qed.

Section jobs.
Context `{!DocText persistedCompat, !MapRange string backupRun} (parse_backup : string → option (gmap string backupRun * gmap string string)).

Definition warningsOf (events : list JobEvent) : nat := length (filter (λ e, ev_event e = "job_warning") events).

Lemma buildJobPayload_spec env inspector s job w events :
  ListJobEvents (e_io env 2) (w_db w) (job_id job) = Ok events →
  match jobEvent inspector (Events s) job (warningsOf events) with
  | None => buildJobPayload parse_backup env inspector s job w = (Ok None, w)
  | Some (event, failures) => ∃ p, buildJobPayload parse_backup env inspector s job w = (Ok (Some p), w) ∧
      Event p = event ∧ PostUpdate p = failures ∧ WarningCount p = warningsOf events ∧ (wj_id <$> PJob p) = Some (job_id job) ∧ (wj_state <$> PJob p) = Some (job_state job)
  end.
Proof.
  intros He. unfold buildJobPayload, bind, of_store. rewrite He. fold (warningsOf events).
  destruct (jobEvent inspector (Events s) job (warningsOf events)) as [[event failures]|]; [|done]. eexists. split; [reflexivity|]. done.
Qed.

(** The stacks an update worked on: those its workflow names, or the one of the job. *)
Definition worked_on (job : Job) (id : string) : Prop :=
  let named id := ∃ wf st, job_workflow job = Some wf ∧ st ∈ Steps wf ∧ step_target st = id ∧ id ≠ "" in
  named id ∨ (∀ other, ¬ named other) ∧ job_stack job = id ∧ id ≠ "".

(** The report on the stacks that did not come back: those the inspector does not
    find, and those that are not running or have an unhealthy container. *)
Definition reported_down (inspector : option StackInspector) (job : Job) (down : list PostUpdateFailure) : Prop :=
  ∀ f, f ∈ down ↔ ∃ i id, inspector = Some i ∧ worked_on job id ∧
    match Get i id with
    | Err _ => f = mkPostUpdateFailure id "" "" 0 0 0 "stack_lookup_failed"
    | Ok d => (sd_runtime d ≠ "running" ∨ sd_unhealthy d ≠ 0%nat) ∧ pu_stack f = sd_id d ∧ pu_runtime f = sd_runtime d ∧ pu_display f = sd_display d ∧
        pu_unhealthy f = sd_unhealthy d ∧ pu_running f = length (filter (λ c, ct_status c = "running") (sd_containers d)) ∧
        pu_total f = length (sd_containers d) ∧ pu_reason f = "stack_not_healthy_after_update"
    end.

Lemma updateTargets_worked job id : id ∈ updateTargets job ↔ worked_on job id.
Proof using.
  unfold updateTargets, worked_on, sort_strings. rewrite sort_by_elem, elem_of_remove_dups.
  set (l := match job_workflow job with Some wf => _ | None => _ end).
  assert (∀ x, x ∈ l ↔ ∃ wf st, job_workflow job = Some wf ∧ st ∈ Steps wf ∧ step_target st = x ∧ x ≠ "") as Hl.
  { intros x. subst l. destruct (job_workflow job) as [wf|]; [|by split; [intros ?%elem_of_nil|intros (? & ? & ? & _)]].
    rewrite list_elem_of_filter, list_elem_of_fmap. split.
    - intros [Hx (st & -> & Hst)]. by exists wf, st.
    - intros (wf' & st & [= <-] & Hst & <- & Hx). split; [done|by exists st]. }
  setoid_rewrite <- Hl. destruct l as [|x l']; cbn [bool_decide].
  - rewrite bool_decide_eq_true_2 by done. unfold str_empty, str_eqb. case_bool_decide as E.
    + rewrite E. split; [by intros ?%elem_of_nil|]. by intros [?%elem_of_nil|(_ & <- & ?)].
    + rewrite list_elem_of_singleton. split; [intros ->; right; split; [by intros ? ?%elem_of_nil|done]|]. by intros [?%elem_of_nil|(_ & -> & _)].
  - rewrite bool_decide_eq_false_2 by done. split; [by left|]. intros [H|[H _]]; [done|]. exfalso. apply (H x). by left.
Qed.

Lemma inspectPostUpdateFailures_spec inspector job : reported_down inspector job (inspectPostUpdateFailures inspector job).
Proof using.
  intros f. unfold inspectPostUpdateFailures. destruct inspector as [i|]; [|by split; [intros ?%elem_of_nil|intros (? & ? & ? & _)]].
  rewrite list_elem_of_omap. setoid_rewrite updateTargets_worked. unfold postUpdateFailure, countStatus. split.
  - intros (id & Hid & Hf). exists i, id. split; [done|]. split; [done|]. destruct (Get i id) as [d|e]; [|by injection Hf as <-].
    destruct (str_eqb _ _ && _) eqn:E; [done|]. injection Hf as <-. split; [|done].
    apply andb_false_iff in E as [E|E]; [left; by apply bool_decide_eq_false in E|right; by apply Nat.eqb_neq].
  - intros (i' & id & [= <-] & Hid & Hf). exists id. split; [done|]. destruct (Get i id) as [d|e]; [|by rewrite Hf].
    destruct Hf as (Hd & H1 & H2 & H3 & H4 & H5 & H6 & H7). assert (str_eqb (sd_runtime d) "running" && (sd_unhealthy d =? 0)%nat = false) as ->.
    { apply andb_false_iff. destruct Hd as [Hd|Hd]; [left; by apply bool_decide_eq_false_2|right; by apply Nat.eqb_neq]. }
    destruct f. cbn in *. by subst.
Qed.

(** When a job is announced, and as what: the table of the notification settings.
    [down] are the stacks an update left unhealthy. *)
Inductive announced (toggles : EventToggles) (job : Job) (warnings : nat) (down : list PostUpdateFailure) : string → option (list PostUpdateFailure) → Prop :=
| announced_failed :
    job_state job = "failed" → JobFailed toggles = true → announced toggles job warnings down "job_failed" None
| announced_timeout :
    job_state job = "timed_out" → has_prefix (job_action job) "backup_" = true → JobFailed toggles = true → announced toggles job warnings down "job_failed" None
| announced_recovery :
    job_state job = "succeeded" → job_action job = "update_stacks" → PostUpdateRecoveryFailed toggles = true → down ≠ [] →
    announced toggles job warnings down "post_update_recovery_failed" (Some down)
| announced_warnings :
    job_state job = "succeeded" → job_action job ≠ "update_stacks" ∨ PostUpdateRecoveryFailed toggles = false ∨ down = [] →
    (0 < warnings)%nat → JobSucceededWithWarnings toggles = true → announced toggles job warnings down "job_succeeded_with_warnings" None
| announced_maintenance :
    job_state job = "succeeded" → job_action job ≠ "update_stacks" ∨ PostUpdateRecoveryFailed toggles = false ∨ down = [] →
    warnings = 0%nat ∨ JobSucceededWithWarnings toggles = false →
    job_action job ∈ ["update_stacks"; "prune"; "backup_restore"] → MaintenanceSucceeded toggles = true → announced toggles job warnings down "maintenance_succeeded" None.

Lemma jobEvent_sound inspector toggles job warnings event failures : jobEvent inspector toggles job warnings = Some (event, failures) →
  announced toggles job warnings (inspectPostUpdateFailures inspector job) event failures.
Proof.
  unfold jobEvent, isMaintenanceAction. destruct (_ && JobFailed toggles) eqn:E1.
  { intros [= <- <-]. apply andb_true_iff in E1 as [[E|[E1 E]%andb_true_iff]%orb_true_iff Ht]; apply bool_decide_eq_true in E; by constructor. }
  destruct (str_eqb (job_state job) "succeeded") eqn:E2; [|done]. apply bool_decide_eq_true in E2.
  destruct (str_eqb (job_action job) "update_stacks" && PostUpdateRecoveryFailed toggles) eqn:E3.
  - apply andb_true_iff in E3 as [E3 Ht]. apply bool_decide_eq_true in E3. destruct (inspectPostUpdateFailures inspector job) as [|f l] eqn:Ei.
    + destruct (_ && JobSucceededWithWarnings toggles) eqn:E4; [apply andb_true_iff in E4 as [E4%Nat.ltb_lt ?]; intros [= <- <-]; constructor; auto|].
      destruct (_ && MaintenanceSucceeded toggles) eqn:E5; [|done]. apply andb_true_iff in E5 as [E5 ?]. apply bool_decide_eq_true in E5. intros [= <- <-].
      apply announced_maintenance; auto. apply andb_false_iff in E4 as [E4%Nat.ltb_ge|?]; [left; lia|by right].
    + intros [= <- <-]. by constructor.
  - assert (job_action job ≠ "update_stacks" ∨ PostUpdateRecoveryFailed toggles = false ∨ inspectPostUpdateFailures inspector job = []) as Hn.
    { apply andb_false_iff in E3 as [E3|?]; [left; by apply bool_decide_eq_false in E3|auto]. }
    destruct (_ && JobSucceededWithWarnings toggles) eqn:E4; [apply andb_true_iff in E4 as [E4%Nat.ltb_lt ?]; intros [= <- <-]; by constructor|].
    destruct (_ && MaintenanceSucceeded toggles) eqn:E5; [|done]. apply andb_true_iff in E5 as [E5 ?]. apply bool_decide_eq_true in E5. intros [= <- <-].
    apply announced_maintenance; auto. apply andb_false_iff in E4 as [E4%Nat.ltb_ge|?]; [left; lia|by right].
Qed.

Lemma jobEvent_complete inspector toggles job warnings event failures : announced toggles job warnings (inspectPostUpdateFailures inspector job) event failures →
  jobEvent inspector toggles job warnings = Some (event, failures).
Proof.
  unfold jobEvent, isMaintenanceAction. intros H. destruct H as [Hs Ht|Hs Hp Ht|Hs Ha Ht Hd|Hs Hn Hw Ht|Hs Hn Hw Ha Ht]; rewrite Hs; cbn -[has_prefix Nat.ltb]; rewrite ?Hp, ?andb_false_r, ?Ht; cbn [andb orb]; try done.
  - rewrite Ha. cbn. by destruct (inspectPostUpdateFailures inspector job).
  - rewrite (proj2 (Nat.ltb_lt _ _) Hw). cbn [andb]. destruct Hn as [Hn|[Hn|Hn]].
    + unfold str_eqb. rewrite (bool_decide_eq_false_2 _ Hn). done.
    + by rewrite Hn, andb_false_r.
    + rewrite Hn. by destruct (str_eqb _ "update_stacks" && _).
  - assert ((0 <? warnings)%nat && JobSucceededWithWarnings toggles = false) as -> by (destruct Hw as [-> | ->]; [done|by rewrite andb_false_r]).
    unfold str_in. rewrite (bool_decide_eq_true_2 _ Ha). cbn [andb]. destruct Hn as [Hn|[Hn|Hn]].
    + unfold str_eqb. rewrite (bool_decide_eq_false_2 _ Hn). done.
    + by rewrite Hn, andb_false_r.
    + rewrite Hn. by destruct (str_eqb _ "update_stacks" && _).
Qed.

(** C32: a finished job is announced exactly as the table says ([announced]: the state, the action, the number of warnings, the stacks that are not running or not healthy
    after an update, and the toggle of each event): when the table has an event for
    it, one attempt is made on every enabled and complete channel, whether or not another channel fails, with the event and the identity of the job, and an error is returned
    exactly when an attempt failed; when the table has none nothing is sent.  When the settings or the events of the job cannot be loaded an error is returned and
    nothing is sent.  The database is never changed, and jobs that neither failed, succeeded nor timed out, cancelled ones in particular, are never announced. *)
Theorem DispatchJob_exact env inspector job w :
  match loadSettings (e_io env 0) (e_io env 1) w, ListJobEvents (e_io env 2) (w_db w) (job_id job) with
  | (Ok s, _), Ok events =>
    ∃ down, reported_down inspector job down ∧
    let says := announced (Events s) job (length (filter (λ e, ev_event e = "job_warning") events)) down in
    (∀ event failures, says event failures → job_state job ∈ ["failed"; "succeeded"; "timed_out"] ∧
       ∃ p r, DispatchJob parse_backup env inspector job w = (r, mkWorld (w_db w) (w_log w ++ ((λ d, (d, e_send env d)) <$> targets s p))) ∧
         Event p = event ∧ PostUpdate p = failures ∧ (wj_id <$> PJob p) = Some (job_id job) ∧
         (is_ok r = true ↔ ∀ d, d ∈ targets s p → e_send env d = None)) ∧
    ((∀ event failures, ¬ says event failures) → DispatchJob parse_backup env inspector job w = (Ok tt, w))
  | _, _ => ∃ e, DispatchJob parse_backup env inspector job w = (Err e, w)
  end.
Proof.
  pose proof (loadSettings_world (e_io env 0) (e_io env 1) w) as Hw. destruct (loadSettings (e_io env 0) (e_io env 1) w) as [[s|e] w0] eqn:Hs; cbn in Hw; subst w0.
  2:{ exists e. unfold DispatchJob, bind. by rewrite Hs. }
  assert (DispatchJob parse_backup env inspector job w = bind (buildJobPayload parse_backup env inspector s job)
    (λ payload, match payload with Some p => dispatchPayload env s p | None => ret tt end) w) as Heq by (unfold DispatchJob, bind at 1; by rewrite Hs).
  rewrite Heq. clear Heq. destruct (ListJobEvents (e_io env 2) (w_db w) (job_id job)) as [events|e] eqn:He.
  2:{ unfold buildJobPayload, bind, of_store. rewrite He. by eexists. }
  pose proof (buildJobPayload_spec env inspector s job w events He) as Hp.
  exists (inspectPostUpdateFailures inspector job). split; [apply inspectPostUpdateFailures_spec|]. fold (warningsOf events). unfold bind. split.
  - intros event failures H. split; [by destruct H as [Hj|Hj|Hj|Hj|Hj]; rewrite Hj; set_solver|]. apply jobEvent_complete in H. rewrite H in Hp.
    destruct Hp as (p & Hb & H1 & H2 & _ & H3 & _). destruct (dispatch_spec env s p w) as (r & Hd & Hr). exists p, r. by rewrite Hb.
  - intros Hnone. destruct (jobEvent inspector (Events s) job (warningsOf events)) as [[event failures]|] eqn:Ej; [|by rewrite Hp].
    exfalso. by eapply Hnone, jobEvent_sound.
Qed.
End jobs.

(** ** Concrete runs *)

#[global] Instance EventToggles_eq_dec : EqDecision EventToggles.
Proof. solve_decision. Defined.
#[global] Instance WebhookSettings_eq_dec : EqDecision WebhookSettings.
Proof. solve_decision. Defined.
#[global] Instance TelegramSettings_eq_dec : EqDecision TelegramSettings.
Proof. solve_decision. Defined.
#[global] Instance Channels_eq_dec : EqDecision Channels.
Proof. solve_decision. Defined.
#[global] Instance persistedCompat_eq_dec : EqDecision persistedCompat.
Proof. solve_decision. Defined.
#[global] Instance persistedCompat_countable : Countable persistedCompat.
Proof.
  apply (inj_countable'
    (λ c, let '(mkCompat e u (mkToggles a b c d f g h) (mkChannels (mkWebhook w1 w2) (mkTelegram t1 t2 t3))) := c in
      (e, u, (a, b, c, d, f, g, h), (w1, w2), (t1, t2, t3)))
    (λ p, let '(e, u, (a, b, c, d, f, g, h), (w1, w2), (t1, t2, t3)) := p in
      mkCompat e u (mkToggles a b c d f g h) (mkChannels (mkWebhook w1 w2) (mkTelegram t1 t2 t3)))).
  by intros [? ? [] [[] []]].
Defined.
#[local] Existing Instance countable_text.
#[local] Instance demo_run_range : MapRange string backupRun := default_range string backupRun.

Definition demoParse (s : string) : option urlParts := Some (mkURL "https" "example.org" s).
Definition demoEnv : Env := mkEnv (λ _, None) (λ _, 1000 * Second) (λ _, None).
Definition demoToggles : EventToggles := mkToggles true true false false true true true.
Definition demoRequest : UpdateSettingsRequest :=
  mkUpdate false "" demoToggles (Some (mkChannelsRequest (Some (mkWebhook true " https://example.org/hook ")) (Some (mkTelegram true "7:abc" "42")))).
Definition demoWorld : world := snd (UpdateSettings demoParse demoEnv demoRequest (mkWorld emptyDB [])).
Definition demoStored : Settings := mkSettings demoToggles (mkChannels (mkWebhook true "https://example.org/hook") (mkTelegram true "7:abc" "42")).

Lemma demo_updated : UpdateSettings demoParse demoEnv demoRequest (mkWorld emptyDB []) = (Ok (settingsResponse demoStored), demoWorld).
Proof. apply injective_projections; [vm_compute; reflexivity|reflexivity]. Qed.
Lemma demo_settings_loaded : loadSettings None None demoWorld = (Ok demoStored, demoWorld).
Proof. apply injective_projections; [vm_compute; reflexivity|vm_compute; reflexivity]. Qed.

Lemma telegram_token_redacted_witness : contains "send telegram request: Post https://api.telegram.org/bot<redacted>/sendMessage: timeout" "7:abc" = false.
Proof.
  apply (telegram_token_redacted (λ url _ _, SendFailed ("Post " +:+ url +:+ ": timeout")) "7:abc" "42" "text"); [by repeat split|vm_compute; reflexivity].
Defined.

Lemma UpdateSettings_roundtrip_witness :
  GetSettings demoEnv demoWorld = (Ok (settingsResponse demoStored), demoWorld) ∧ w_log demoWorld = [] ∧
  ∀ key, key ≠ settingsKey → app_settings (w_db demoWorld) !! key = app_settings emptyDB !! key.
Proof. exact (UpdateSettings_roundtrip demoParse demoEnv demoEnv demoRequest (mkWorld emptyDB []) (Ok (settingsResponse demoStored)) demoWorld demo_updated eq_refl). Defined.

Definition keepToken : UpdateSettingsRequest := mkUpdate false "" demoToggles (Some (mkChannelsRequest None (Some (mkTelegram true "" "42")))).
Lemma empty_token_not_kept_witness : ∃ e, UpdateSettings demoParse demoEnv keepToken demoWorld = (Err e, demoWorld).
Proof. apply (empty_token_not_kept demoParse demoEnv keepToken (mkChannelsRequest None (Some (mkTelegram true "" "42"))) (mkTelegram true "" "42") demoWorld); [reflexivity|reflexivity|vm_compute; reflexivity|by left]. Defined.

Definition demoFailed : Job := mkJob "job_1" "web" "up" "failed" "local" "" 0 None None None "stack_action_failed" "docker compose up failed".
Example demo_announced : (λ d, (match d.1 with ToWebhook _ p => Event p | ToTelegram token _ _ => token end)) <$> w_log (snd (DispatchJob (λ _, None) demoEnv None demoFailed demoWorld)) =
  ["job_failed"; "7:abc"].
Proof. vm_compute. reflexivity. Qed.
