(* ===== verification/HostLogs.v ===== *)
(** * internal/hostinfo/service.go: the journal of the service

    [StacklabLogs]: the call of [journalctl], the entries in its output, the levels
    of journal and application, the filter and the page that is returned.
    [journalctl], [json.Unmarshal] and [strings.ToLower] are parameters. *)

From stdpp Require Import gmap strings list pretty.
From Stdlib Require Import Ascii ZArith Lia.
From S2P Require Import Prelude GoStrings GoPath GoTime.

Local Open Scope Z_scope.

Record StacklabLogEntry := mkEntry { le_time : Time; le_level : string; le_message : string; le_cursor : string }.
Inductive logs_error := ErrLogsUnavailable | ErrLogs (message : string).
Record LogsQuery := mkQuery { lq_limit : Z; lq_cursor : string; lq_level : string; lq_search : string; IncludeHTTPAccess : bool }.
Record StacklabLogsResponse := mkLogs { lr_items : list StacklabLogEntry; NextCursor : string; HasMore : bool }.

Definition filteredJournalScanMultiplier : Z := 10.
Definition maxJournalRawEntries : Z := 5000.
Definition maxJournalLine : Z := 2 * 1024 * 1024.

(** A decoded JSON value: a number stands for its conversion to [int64]. *)
Inductive journalValue := JString (s : string) | JNumber (z : Z) | JList (l : list journalValue) | JOther.

Fixpoint journalValueToString (value : journalValue) : string :=
  match value with
  | JString s => s
  | JNumber z => pretty z
  | JList l => (fix each l := match l with [] => "" | v :: rest => journalValueToString v +:+ each rest end) l
  | JOther => ""
  end.

Definition normalizeJournalLevel (value : journalValue) : string :=
  let raw := journalValueToString value in
  if str_in raw ["0"; "1"; "2"; "3"] then "error"
  else if str_eqb raw "4" then "warn"
  else if str_in raw ["5"; "6"] then "info"
  else if str_eqb raw "7" then "debug"
  else "info".

(** [time.Time{}] for a value that is no number. *)
Definition parseJournalTimestamp (value : journalValue) : Time :=
  let raw := journalValueToString value in
  if str_empty raw then zero_time else match atoi raw with Some micros => micros * 1000 | None => zero_time end.

Definition rawJournalLimit (limit : Z) (query : LogsQuery) : Z :=
  let rawLimit :=
    if negb (IncludeHTTPAccess query) || negb (str_empty (trim_space (lq_level query))) || negb (str_empty (trim_space (lq_search query)))
    then limit * filteredJournalScanMultiplier else limit in
  if maxJournalRawEntries <? rawLimit then maxJournalRawEntries else rawLimit.

Lemma rawJournalLimit_range limit query : 1 <= limit <= 1000 → limit <= rawJournalLimit limit query <= 5000.
Proof. unfold rawJournalLimit, filteredJournalScanMultiplier, maxJournalRawEntries. intros H. destruct (_ || _), (5000 <? _) eqn:E; rewrite ?Z.ltb_lt, ?Z.ltb_ge in E; lia. Qed.

Section logs.
(** [ToLower]; the decoding of a line of the journal and of the [level] of a JSON
    message; and the output of [journalctl] for a cursor and a number of lines. *)
Context (ToLower : string → string) (unmarshal : string → option (gmap string journalValue)) (unmarshal_level : string → option string)
  (journalctl : string → Z → option string).

Definition normalizeApplicationLogLevel (value : string) : option string :=
  let normalized := ToLower (trim_space value) in
  find (has_prefix normalized) ["debug"; "info"; "warn"; "error"].

Fixpoint levelField (fields : list string) : option string :=
  match fields with
  | [] => None
  | field :: rest => match strip_prefix "level=" field with None => levelField rest | Some value => normalizeApplicationLogLevel (Trim quote value) end
  end.
Definition parseApplicationLogLevel (message : string) : option string :=
  let trimmed := trim_space message in
  match (if has_prefix trimmed "{" then unmarshal_level trimmed else None) with
  | Some level => normalizeApplicationLogLevel level
  | None => levelField (Fields trimmed)
  end.

(** A line of the output: blank lines, lines that are no object and entries without
    a message are left out. *)
Definition field (raw : gmap string journalValue) (name : string) : journalValue := default JOther (raw !! name).
Definition parseJournalLine (line : string) : option StacklabLogEntry :=
  let line := trim_space line in
  if str_empty line || str_eqb line "-- No entries --" then None
  else match unmarshal line with
  | None => None
  | Some raw =>
    let message := journalValueToString (field raw "MESSAGE") in
    let level := default (normalizeJournalLevel (field raw "PRIORITY")) (parseApplicationLogLevel message) in
    if str_empty message then None
    else Some (mkEntry (parseJournalTimestamp (field raw "__REALTIME_TIMESTAMP")) level message (journalValueToString (field raw "__CURSOR")))
  end.
(** A line that does not fit into the buffer of the scanner is an error. *)
Definition parseJournalEntries (output : string) : option (list StacklabLogEntry) :=
  let lines := split output (chr 10) in
  if existsb (λ line, maxJournalLine <=? slen line) lines then None else Some (omap parseJournalLine lines).

Definition isHTTPAccessLogEntry (message : string) : bool :=
  let q := String quote EmptyString in
  let normalized := ToLower (trim_space message) in
  str_eqb normalized "http request" || contains normalized ("msg=" +:+ q +:+ "http request" +:+ q) ||
  contains normalized (q +:+ "msg" +:+ q +:+ ":" +:+ q +:+ "http request" +:+ q) || contains normalized "msg=http request".

Definition keepsLogEntry (level search : string) (includeHTTPAccess : bool) (entry : StacklabLogEntry) : bool :=
  (str_empty level || str_eqb (le_level entry) level) && (str_empty search || contains (ToLower (le_message entry)) search) &&
  negb (negb includeHTTPAccess && str_eqb (le_level entry) "info" && isHTTPAccessLogEntry (le_message entry)).
Definition filterLogEntries (entries : list StacklabLogEntry) (level search : string) (includeHTTPAccess : bool) : list StacklabLogEntry :=
  List.filter (keepsLogEntry level search includeHTTPAccess) entries.

Definition StacklabLogs (query : LogsQuery) : res logs_error StacklabLogsResponse :=
  let limit := if lq_limit query <=? 0 then 200 else lq_limit query in
  let limit := if 1000 <? limit then 1000 else limit in
  let rawLimit := rawJournalLimit limit query in
  match journalctl (lq_cursor query) rawLimit with
  | None => Err ErrLogsUnavailable
  | Some output =>
    match parseJournalEntries output with
    | None => Err (ErrLogs "parse journal output: bufio.Scanner: token too long")
    | Some entries =>
      let filtered := filterLogEntries entries (trim_space (ToLower (lq_level query))) (trim_space (ToLower (lq_search query))) (IncludeHTTPAccess query) in
      let items := if limit <? Z.of_nat (length filtered) then drop (length filtered - Z.to_nat limit) filtered else filtered in
      let next := match last items with Some e => le_cursor e | None => match last entries with Some e => le_cursor e | None => "" end end in
      Ok (mkLogs items next ((limit <? Z.of_nat (length filtered)) || (rawLimit <=? Z.of_nat (length entries))))
    end
  end.

(** ** The page is the end of what was found *)

(** a page holds at most as many entries as asked for, every one of which passes the filter, and it is the end of the filtered output: when it is not full
    nothing was left out, and when [HasMore] is false nothing was left out and [journalctl] gave all it had. *)
Theorem StacklabLogs_page query response : StacklabLogs query = Ok response → 1 <= lq_limit query <= 1000 →
  ∃ output entries skipped, journalctl (lq_cursor query) (rawJournalLimit (lq_limit query) query) = Some output ∧ parseJournalEntries output = Some entries ∧
    filterLogEntries entries (trim_space (ToLower (lq_level query))) (trim_space (ToLower (lq_search query))) (IncludeHTTPAccess query) = skipped ++ lr_items response ∧
    Z.of_nat (length (lr_items response)) <= lq_limit query ∧ (skipped ≠ [] → Z.of_nat (length (lr_items response)) = lq_limit query ∧ HasMore response = true) ∧
    (HasMore response = false → skipped = [] ∧ Z.of_nat (length entries) < rawJournalLimit (lq_limit query) query).
Proof.
  unfold StacklabLogs. intros H Hr. replace (lq_limit query <=? 0) with false in H by (symmetry; apply Z.leb_gt; lia).
  replace (1000 <? lq_limit query) with false in H by (symmetry; apply Z.ltb_ge; lia). destruct (journalctl _ _) as [output|]; [|done].
  destruct (parseJournalEntries output) as [entries|] eqn:Ep; [|done]. injection H as <-. cbn [lr_items HasMore]. set (l := filterLogEntries _ _ _ _).
  exists output, entries. destruct (Z.ltb_spec (lq_limit query) (Z.of_nat (length l))) as [Hl|Hl]; cbn [orb].
  - exists (take (length l - Z.to_nat (lq_limit query)) l). rewrite take_drop, length_drop. split_and!; [done..|lia| |done]. intros _. split; [lia|done].
  - exists []. split_and!; [done..|lia|done|]. intros Hb. split; [done|]. by apply Z.leb_gt in Hb.
Qed.
End logs.

(** ** A burst *)

(** A journal of 201 errors after the cursor [c0], one line each. *)
Definition demoLines : list string := (λ n : nat, "e" +:+ pretty n) <$> seq 0 201.
Definition demoJournal (cursor : string) (n : Z) : option string := Some (if str_eqb cursor "c0" then join (str1 (chr 10)) demoLines else "").
Definition demoUnmarshal (line : string) : option (gmap string journalValue) :=
  Some {["MESSAGE" := JString line; "PRIORITY" := JString "3"; "__CURSOR" := JString line]}.
Definition demoLogs : LogsQuery → res logs_error StacklabLogsResponse := StacklabLogs (λ s, s) demoUnmarshal (λ _, None) demoJournal.

(** The page of the monitor's query leaves the first of them out, and asks the
    reader to go on after the last. *)
Example burst_page : (λ r, (length (lr_items r), le_cursor <$> head (lr_items r), NextCursor r, HasMore r)) <$> (match demoLogs (mkQuery 200 "c0" "" "" false) with Ok r => Some r | Err _ => None end) =
  Some (200%nat, Some "e1", "e200", true).
Proof. vm_compute. reflexivity. Qed.

Lemma StacklabLogs_page_witness : ∃ skipped : list StacklabLogEntry, skipped ≠ [] ∧ match demoLogs (mkQuery 200 "c0" "" "" false) with Ok r => Z.of_nat (length (lr_items r)) = 200 | Err _ => False end.
Proof.
  destruct (demoLogs (mkQuery 200 "c0" "" "" false)) as [r|e] eqn:E; [|by vm_compute in E].
  destruct (StacklabLogs_page (λ s, s) demoUnmarshal (λ _, None) demoJournal (mkQuery 200 "c0" "" "" false) r E ltac:(cbn; lia)) as (output & entries & skipped & H1 & H2 & H3 & H4 & H5 & _).
  exists skipped. assert (skipped ≠ []) as Hs; [|split; [done|]; by destruct (H5 Hs)].
  intros ->. injection H1 as <-. vm_compute in H2. injection H2 as <-. apply (f_equal length) in H3. cbn [app] in H3.
  assert ((length (lr_items r) ≤ 200)%nat) as Hle by (cbn in H4; lia). rewrite <- H3 in Hle. vm_compute in Hle. lia.
Defined.
