(* ===== verification/NotificationMonitors.v ===== *)
(** * internal/notifications: the background monitors

    The three polls of [runStacklabSelfHealthLoop]: errors in the service's own
    journal, degraded stacks, and bursts of error lines in container logs.  Each
    keeps a document in the settings table that decides what is reported next.
    The journal, the inspection of stacks and [docker logs] are parameters, and so
    are [strings.ToLower] and the iteration order of maps. *)

From stdpp Require Import gmap strings list pretty sorting.
From Stdlib Require Import Ascii ZArith Lia.
From S2P Require Import Prelude GoStrings GoPath GoTime Store Notifications HostLogs.

Local Open Scope Z_scope.

(** ** Data *)

Definition LogReader := LogsQuery → res logs_error StacklabLogsResponse.

Record stacklabJournalState := mkJournalState { js_cursor : string; js_fingerprint : string; js_notified : Time }.
Record runtimeHealthState := mkHealthState { hs_fingerprint : string; hs_notified : Time }.
Record runtimeLogState := mkLogState { rl_checked : Time; rl_fingerprint : string; rl_notified : Time }.
Record runtimeContainerLogEntry := mkLogEntry { ce_time : Time; ce_message : string }.

Definition stacklabJournalStateKey : string := "notifications_stacklab_journal_state_v1".
Definition runtimeHealthStateKey : string := "notifications_runtime_health_state_v1".
Definition runtimeLogStateKey : string := "notifications_runtime_log_state_v1".
Definition stacklabJournalPollLimit : Z := 200.
Definition stacklabJournalMaxBatchFetch : nat := 5.
Definition runtimeLogErrorThreshold : nat := 3.

(** The part of [Service] that does not change. *)
Record Monitor := mkMonitor { alertCooldown : Duration; stacklabLogs : option LogReader; stackInspector : option StackInspector;
  readLogs : option (string → Time → res string (list runtimeContainerLogEntry)) }.

(** A notification with this fingerprint was sent less than a cooldown ago. *)
Definition repeated (m : Monitor) (fingerprint old : string) (notified now : Time) : bool :=
  str_eqb old fingerprint && negb (is_zero notified) && (Sub now notified <? alertCooldown m).

(** ** Messages *)

(** How often each message occurs. *)
Definition tally (messages : list string) : gmap string nat :=
  foldl (λ counts m, if str_empty m then counts else <[m := S (default 0%nat (counts !! m))]> counts) ∅ messages.

Record messageCount := mkCount { mc_message : string; mc_count : nat }.
Definition count_before (a b : messageCount) : Prop :=
  if (mc_count a =? mc_count b)%nat then String.le (mc_message a) (mc_message b) else (mc_count b < mc_count a)%nat.
#[global] Instance count_before_dec a b : Decision (count_before a b).
Proof. unfold count_before. destruct (_ =? _)%nat; apply _. Defined.

Definition countText (c : messageCount) : string :=
  if (1 <? mc_count c)%nat then mc_message c +:+ " (x" +:+ pretty (mc_count c) +:+ ")" else mc_message c.

Section monitors.
Context `{!DocText persistedCompat, !DocText stacklabJournalState, !DocText runtimeHealthState, !DocText runtimeLogState, !MapRange string nat, !MapRange string unit}
  (ToLower : string → string).

(** The three most frequent messages, [summary[:limit]]. *)
Definition summarizeMessages (counts : gmap string nat) : list string :=
  countText <$> take 3 (merge_sort count_before ((λ e, mkCount e.1 e.2) <$> range_list counts)).

(** ** The journal of the service *)

Definition loadStacklabJournalState (io : IO) : M stacklabJournalState :=
  let! d := loadDoc io stacklabJournalStateKey "parse stacklab journal state" in ret (default (mkJournalState "" "" zero_time) d).
Definition saveStacklabJournalState (io : IO) (now : Time) (s : stacklabJournalState) : M unit := saveDoc io now stacklabJournalStateKey s.

(** The loop that reads at most five batches. *)
Fixpoint fetchFrom (batches : nat) (read : LogReader) (cursor : string) (entries : list StacklabLogEntry) : res logs_error (list StacklabLogEntry * string) :=
  match batches with
  | O => Ok (entries, cursor)
  | S k =>
    let? response := read (mkQuery stacklabJournalPollLimit cursor "" "" false) in
    match last (lr_items response) with
    | None => Ok (entries, cursor)
    | Some e =>
      let entries := entries ++ lr_items response in
      if HasMore response then fetchFrom k read (le_cursor e) entries else Ok (entries, le_cursor e)
    end
  end.
Definition fetchNewStacklabLogEntries (read : LogReader) (cursor : string) : res logs_error (list StacklabLogEntry * string) :=
  fetchFrom stacklabJournalMaxBatchFetch read cursor [].

Definition filterStacklabErrorEntries (entries : list StacklabLogEntry) : list StacklabLogEntry := filter (λ e, le_level e = "error") entries.

Definition normalizeStacklabErrorMessage (message : string) : string := join " " (Fields (trim_space (ToLower message))).
Definition stacklabErrorFingerprint (entries : list StacklabLogEntry) : string :=
  join "|" (sort_strings ((λ e, e.1 +:+ "#" +:+ pretty e.2) <$> range_list (tally ((λ e, normalizeStacklabErrorMessage (le_message e)) <$> entries)))).

Definition summarizeStacklabErrorMessages (entries : list StacklabLogEntry) : list string :=
  summarizeMessages (tally ((λ e, trim_space (le_message e)) <$> entries)).

Definition buildStacklabServiceErrorPayload (entries : list StacklabLogEntry) (cursor : string) (cooldown : Z) (now : Time) : WebhookPayload :=
  mkPayload "stacklab_service_error" now ("Stacklab service logged " +:+ pretty (length entries) +:+ " new errors") None None 0 None
    (Some (mkServiceAlert (length entries) (default zero_time (le_time <$> head entries)) (default zero_time (le_time <$> last entries))
      (summarizeStacklabErrorMessages entries) cursor cooldown)) None None.

Definition withCursor (s : stacklabJournalState) (cursor : string) : stacklabJournalState := mkJournalState cursor (js_fingerprint s) (js_notified s).

(** The part of the poll that has entries to look at. *)
Definition reportErrors (env : Env) (m : Monitor) (state : stacklabJournalState) (errors : list StacklabLogEntry) (nextCursor : string) : M unit :=
  let save := saveStacklabJournalState (e_io env 3) (e_now env 1) in
  let! settings := loadSettings (e_io env 1) (e_io env 2) in
  if negb (StacklabServiceError (Events settings)) then save state
  else if negb (hasConfiguredNotificationChannel settings) then save state
  else
    let fingerprint := stacklabErrorFingerprint errors in
    let now := e_now env 0 in
    if repeated m fingerprint (js_fingerprint state) (js_notified state) now then save state
    else
      let payload := buildStacklabServiceErrorPayload errors nextCursor (Z.quot (alertCooldown m) Second) now in
      let! _ := dispatchPayload env settings payload in
      save (mkJournalState (js_cursor state) fingerprint now).

Definition pollStacklabServiceErrors (env : Env) (m : Monitor) : M unit :=
  match stacklabLogs m with
  | None => ret tt
  | Some read =>
    let! state := loadStacklabJournalState (e_io env 0) in
    let save := saveStacklabJournalState (e_io env 3) (e_now env 1) in
    if str_empty (js_cursor state) then
      match read (mkQuery 1 "" "" "" false) with
      | Err ErrLogsUnavailable => ret tt
      | Err (ErrLogs message) => fail (ErrSource message)
      | Ok latest => match last (lr_items latest) with None => ret tt | Some e => save (withCursor state (le_cursor e)) end
      end
    else
      match fetchNewStacklabLogEntries read (js_cursor state) with
      | Err ErrLogsUnavailable => ret tt
      | Err (ErrLogs message) => fail (ErrSource message)
      | Ok (entries, nextCursor) =>
        let state := if str_empty nextCursor then state else withCursor state nextCursor in
        match filterStacklabErrorEntries entries with
        | [] => save state
        | errors => reportErrors env m state errors nextCursor
        end
      end
  end.

(** ** Degraded stacks *)

Definition healthFailure (d : StackDetail) : option RuntimeHealthFailure :=
  let restarting := countStatus "restarting" (sd_containers d) in
  let reasons := (if (0 <? sd_unhealthy d)%nat then ["unhealthy_containers"] else []) ++ (if (0 <? restarting)%nat then ["restart_loop"] else []) in
  match reasons with
  | [] => None
  | _ => Some (mkHealthFailure (sd_id d) (sd_runtime d) (sd_display d) (sd_unhealthy d) restarting (countStatus "running" (sd_containers d))
                 (length (sd_containers d)) reasons)
  end.

(** Stacks that cannot be inspected are left out; [sort.Slice] by id. *)
Definition inspectRuntimeHealth (inspector : StackInspector) : res string (list RuntimeHealthFailure) :=
  let? ids := List inspector in
  Ok (sort_by hf_stack (omap (λ id, match Get inspector id with Ok d => healthFailure d | Err _ => None end) ids)).

Definition healthPart (f : RuntimeHealthFailure) : string :=
  hf_stack f +:+ "|" +:+ join "," (sort_strings (hf_reasons f)) +:+ "|" +:+ pretty (hf_unhealthy f) +:+ "|" +:+ pretty (hf_restarting f).
Definition runtimeHealthFingerprint (failures : list RuntimeHealthFailure) : string :=
  match failures with [] => "" | _ => join ";" (sort_strings (healthPart <$> failures)) end.

Definition loadRuntimeHealthState (io : IO) : M runtimeHealthState :=
  let! d := loadDoc io runtimeHealthStateKey "parse runtime health state" in ret (default (mkHealthState "" zero_time) d).
Definition saveRuntimeHealthState (io : IO) (now : Time) (s : runtimeHealthState) : M unit := saveDoc io now runtimeHealthStateKey s.

Definition healthPayload (failures : list RuntimeHealthFailure) (now : Time) : WebhookPayload :=
  mkPayload "runtime_health_degraded" now (pretty (length failures) +:+ " stack(s) became unhealthy") None None 0 None None (Some failures) None.

Definition pollRuntimeHealthAlerts (env : Env) (m : Monitor) : M unit :=
  match stackInspector m with
  | None => ret tt
  | Some inspector =>
    let! current := of_res (match inspectRuntimeHealth inspector with Ok l => Ok l | Err message => Err (ErrSource message) end) in
    let! state := loadRuntimeHealthState (e_io env 0) in
    let save := saveRuntimeHealthState (e_io env 3) (e_now env 1) in
    let fingerprint := runtimeHealthFingerprint current in
    let fresh := str_empty (hs_fingerprint state) && is_zero (hs_notified state) in
    if str_empty fingerprint then if fresh then ret tt else save (mkHealthState "" zero_time)
    else if fresh then save (mkHealthState fingerprint zero_time)
    else
      let! settings := loadSettings (e_io env 1) (e_io env 2) in
      if negb (RuntimeHealthDegraded (Events settings)) then save (mkHealthState fingerprint (hs_notified state))
      else if negb (hasConfiguredNotificationChannel settings) then save (mkHealthState fingerprint (hs_notified state))
      else
        let now := e_now env 0 in
        if repeated m fingerprint (hs_fingerprint state) (hs_notified state) now then save (mkHealthState fingerprint (hs_notified state))
        else
          let! _ := dispatchPayload env settings (healthPayload current now) in
          save (mkHealthState fingerprint now)
  end.

(** ** Bursts of error lines *)

(** The pattern [(?i)\b(error|fatal|panic|exception|traceback|critical)\b]: letters
    match without case, and [k] also matches the Kelvin sign. *)
Definition errorWords : list string := ["error"; "fatal"; "panic"; "exception"; "traceback"; "critical"].
Definition kelvinSign : string := String (chr 226) (String (chr 132) (String (chr 170) EmptyString)).
Definition same_fold (a c : ascii) : bool := (byte_of a =? byte_of c) || (byte_of a =? byte_of c + 32) && (65 <=? byte_of c) && (byte_of c <=? 90).
Definition word_byte (c : ascii) : bool :=
  is_digit c || ((65 <=? byte_of c) && (byte_of c <=? 90)) || ((97 <=? byte_of c) && (byte_of c <=? 122)) || (byte_of c =? 95).
Definition starts_word (s : string) : bool := match s with String c _ => word_byte c | EmptyString => false end.

(** What follows a match of the word, and whether it ends in a word character. *)
Fixpoint match_fold (w s : string) (word : bool) : option (string * bool) :=
  match w with
  | EmptyString => Some (s, word)
  | String a w' =>
    match s with
    | EmptyString => None
    | String c r =>
      if same_fold a c then match_fold w' r true
      else if Ascii.eqb a "k" then match strip_prefix kelvinSign s with Some r => match_fold w' r false | None => None end
      else None
    end
  end.
Definition word_at (s w : string) : bool := match match_fold w s false with Some (rest, word) => negb (Bool.eqb word (starts_word rest)) | None => false end.
Fixpoint pattern_in (after_word : bool) (s : string) : bool :=
  (negb after_word && existsb (word_at s) errorWords) || match s with String c r => pattern_in (word_byte c) r | EmptyString => false end.

Definition isRuntimeLogErrorMessage (message : string) : bool :=
  let normalized := trim_space message in if str_empty normalized then false else pattern_in false normalized.

(** [bufio.Scanner] stops at a line that does not fit into its buffer. *)
Fixpoint scanLines (lines : list string) : list string :=
  match lines with [] => [] | x :: rest => if MaxScanTokenSize <=? slen x then [] else x :: scanLines rest end.

(** [strings.SplitN(line, " ", 2)], when there is a space. *)
Fixpoint cut_space (acc s : string) : option (string * string) :=
  match s with EmptyString => None | String c r => if Ascii.eqb c " " then Some (String.rev acc, r) else cut_space (String c acc) r end.
Definition splitRuntimeLogLine (line : string) (fallback : Time) : Time * string :=
  match cut_space "" line with
  | None => (fallback, line)
  | Some (stamp, rest) => match parse_rfc3339nano stamp with None => (fallback, line) | Some t => (t, trim_space rest) end
  end.
Definition parseRuntimeContainerLogOutput (output : string) (fallback : Time) : list runtimeContainerLogEntry :=
  omap (λ raw, let line := trim_space raw in
    if str_empty line then None else let '(t, message) := splitRuntimeLogLine line fallback in Some (mkLogEntry t message))
    (scanLines (split output (chr 10))).

(** The reader that [NewService] installs, around the output of [docker logs]. *)
Definition dockerLogs (docker : string → Time → res string string) (id : string) (since : Time) : res string (list runtimeContainerLogEntry) :=
  match docker id since with Ok output => Ok (parseRuntimeContainerLogOutput output since) | Err message => Err ("docker logs " +:+ id +:+ ": " +:+ message) end.

Definition containerMatches (read : string → Time → res string (list runtimeContainerLogEntry)) (since : Time) (c : Container) : list string :=
  if str_in (ct_status c) ["exited"; "dead"] then []
  else match read (ct_id c) since with
  | Err _ => []
  | Ok entries => filter (λ message, isRuntimeLogErrorMessage message = true) (ce_message <$> entries)
  end.

Definition logFailure (read : string → Time → res string (list runtimeContainerLogEntry)) (since : Time) (d : StackDetail) : option RuntimeLogFailure :=
  let matches := containerMatches read since in
  let all := concat (matches <$> sd_containers d) in
  let containers := remove_dups (ct_name <$> filter (λ c, matches c ≠ []) (sd_containers d)) in
  if (length all <? runtimeLogErrorThreshold)%nat then None
  else Some (mkLogFailure (sd_id d) (length all) (length containers) (sort_strings containers) (summarizeMessages (tally (trim_space <$> all)))).

Definition inspectRuntimeLogFailures (inspector : StackInspector) (read : string → Time → res string (list runtimeContainerLogEntry)) (since : Time)
    : res string (list RuntimeLogFailure) :=
  let? ids := List inspector in
  Ok (sort_by lf_stack (omap (λ id, match Get inspector id with Ok d => logFailure read since d | Err _ => None end) ids)).

Definition runtimeLogFingerprint (failures : list RuntimeLogFailure) : string :=
  join ";" (sort_strings ((λ f, lf_stack f +:+ "|runtime_log_error_burst") <$> failures)).

Definition loadRuntimeLogState (io : IO) : M runtimeLogState :=
  let! d := loadDoc io runtimeLogStateKey "parse runtime log state" in ret (default (mkLogState zero_time "" zero_time) d).
Definition saveRuntimeLogState (io : IO) (now : Time) (s : runtimeLogState) : M unit := saveDoc io now runtimeLogStateKey s.

Definition logPayload (failures : list RuntimeLogFailure) (start now : Time) : WebhookPayload :=
  mkPayload "runtime_log_error_burst" now (pretty (length failures) +:+ " stack(s) started logging repeated errors") None None 0 None None None
    (Some (mkLogSummary start now failures)).

Definition pollRuntimeLogAlerts (env : Env) (m : Monitor) : M unit :=
  match stackInspector m, readLogs m with
  | Some inspector, Some read =>
    let! state := loadRuntimeLogState (e_io env 0) in
    let save := saveRuntimeLogState (e_io env 3) (e_now env 1) in
    let now := e_now env 0 in
    if is_zero (rl_checked state) then save (mkLogState now (rl_fingerprint state) (rl_notified state))
    else
      let! failures := of_res (match inspectRuntimeLogFailures inspector read (rl_checked state) with Ok l => Ok l | Err message => Err (ErrSource message) end) in
      match failures with
      | [] => save (mkLogState now "" (rl_notified state))
      | _ =>
        let fingerprint := runtimeLogFingerprint failures in
        let! settings := loadSettings (e_io env 1) (e_io env 2) in
        if negb (RuntimeLogErrorBurst (Events settings)) then save (mkLogState now fingerprint (rl_notified state))
        else if negb (hasConfiguredNotificationChannel settings) then save (mkLogState now fingerprint (rl_notified state))
        else if repeated m fingerprint (rl_fingerprint state) (rl_notified state) now then save (mkLogState now (rl_fingerprint state) (rl_notified state))
        else
          let! _ := dispatchPayload env settings (logPayload failures (rl_checked state) now) in
          save (mkLogState now fingerprint now)
      end
  | _, _ => ret tt
  end.

(** ** One round of the loop: errors of a poll are logged and do not stop the others. *)
Definition pollRound (env1 env2 env3 : Env) (m : Monitor) (w : world) : world :=
  let w := (pollStacklabServiceErrors env1 m w).2 in
  let w := (pollRuntimeHealthAlerts env2 m w).2 in
  (pollRuntimeLogAlerts env3 m w).2.

End monitors.

Example pattern_examples :
  isRuntimeLogErrorMessage "2026 ERROR: x" = true ∧ isRuntimeLogErrorMessage "errors" = false ∧ isRuntimeLogErrorMessage "no_error" = false ∧
  isRuntimeLogErrorMessage "go Panic!" = true ∧ Fields "  a b   c " = ["a"; "b"; "c"].
Proof. vm_compute. repeat split. Qed.

(** ** Documents *)

(** The stored document of a key, with what is used when there is none. *)
Definition stored {D} `{DocText D} (key : string) (none : D) (w : world) : option D :=
  match app_settings (w_db w) !! key with None => Some none | Some row => doc_parse (set_value row) end.

Lemma loadDoc_inv {D} `{DocText D} io key message none w (d : option D) w' :
  loadDoc io key message w = (Ok d, w') → w' = w ∧ stored key none w = Some (default none d).
Proof.
  unfold loadDoc, bind, of_store, AppSetting, driver, stored. destruct io; [done|]. cbn. destruct (app_settings (w_db w) !! key) as [row|]; cbn.
  - destruct (doc_parse (set_value row)) as [x|]; [|done]. by intros [= <- <-].
  - by intros [= <- <-].
Qed.

Lemma loadDoc_world {D} `{DocText D} io key message w : (loadDoc (D := D) io key message w).2 = w.
Proof.
  unfold loadDoc, bind, of_store. destruct (AppSetting io (w_db w) key) as [[text|]|]; cbn; [by destruct (doc_parse text)|done|done].
Qed.

Lemma loadDoc_Ok {D} `{DocText D} key message none w (x : D) : stored key none w = Some x →
  ∃ d, loadDoc None key message w = (Ok d, w) ∧ default none d = x.
Proof.
  unfold stored, loadDoc, bind, of_store, AppSetting, driver. destruct (app_settings (w_db w) !! key) as [row|]; cbn.
  - intros ->. by exists (Some x).
  - intros [= <-]. by exists None.
Qed.

(** Saving fails without effect or replaces the document. *)
Lemma saveDoc_cases {D} `{DocText D} io now key (d : D) w : ∃ r w', saveDoc io now key d w = (r, w') ∧ w_log w' = w_log w ∧
  (is_ok r = false ∧ w' = w ∨ is_ok r = true ∧ ∀ k, k ≠ key → app_settings (w_db w') !! k = app_settings (w_db w) !! k) ∧
  (is_ok r = true → ∀ none, stored key none w' = Some d) ∧ (io = None → is_ok r = true).
Proof.
  unfold saveDoc, write_store, SetAppSetting, driver. destruct io as [e|].
  - eexists _, w. split; [reflexivity|]. split_and!; [done|by left|done|done].
  - eexists _, _. split; [reflexivity|]. split_and!; [done| | |done].
    + right. split; [done|]. intros k Hk. cbn. by rewrite lookup_insert_ne.
    + intros _ none. unfold stored. cbn. rewrite lookup_insert_eq. cbn. by rewrite doc_parse_text.
Qed.

Lemma saveDoc_stored {D} `{DocText D} now key (d : D) w : ∃ w', saveDoc None now key d w = (Ok tt, w') ∧ w_log w' = w_log w ∧ (∀ none, stored key none w' = Some d) ∧
  ∀ k, k ≠ key → app_settings (w_db w') !! k = app_settings (w_db w) !! k.
Proof.
  destruct (saveDoc_cases None now key d w) as (r & w' & Hs & Hl & Hc & Hd & Hr). assert (r = Ok tt) as -> by (destruct r as [[]|]; [done|by specialize (Hr eq_refl)]).
  exists w'. split_and!; [done|done|by apply Hd|]. destruct Hc as [[? _]|[_ Hc]]; [done|exact Hc].
Qed.

Lemma dispatch_db env s p w r w' : dispatchPayload env s p w = (r, w') → w_db w' = w_db w.
Proof. destruct (dispatch_spec env s p w) as (r0 & -> & _). by intros [= _ <-]. Qed.

Lemma stored_same {D} `{DocText D} key (none : D) w w' : app_settings (w_db w') !! key = app_settings (w_db w) !! key → stored key none w' = stored key none w.
Proof. unfold stored. by intros ->. Qed.

(** ** Counting messages *)

Definition tally_step (counts : gmap string nat) (m : string) : gmap string nat := if str_empty m then counts else <[m := S (default 0%nat (counts !! m))]> counts.

Lemma tally_step_comm counts a b : tally_step (tally_step counts a) b = tally_step (tally_step counts b) a.
Proof.
  unfold tally_step. destruct (str_empty a), (str_empty b); try done. destruct (decide (a = b)) as [->|Hne]; [done|].
  rewrite !lookup_insert_ne by done. by apply insert_insert_ne.
Qed.

Lemma tally_perm l k : l ≡ₚ k → tally l = tally k.
Proof.
  unfold tally. fold tally_step. intros Hp. generalize (∅ : gmap string nat) as acc. induction Hp as [|x l k _ IH|x y l|l k n _ IH1 _ IH2]; intros acc; cbn [foldl]; [done|apply IH| |by rewrite IH1].
  by rewrite tally_step_comm.
Qed.

Lemma tally_lookup l m : tally l !! m = if str_empty m || (count_occ String.string_dec l m =? 0)%nat then None else Some (count_occ String.string_dec l m).
Proof.
  induction l as [|x l IH] using rev_ind; [by rewrite orb_true_r|]. unfold tally in *. rewrite foldl_app. cbn [foldl].
  rewrite count_occ_app. cbn [count_occ]. destruct (str_empty x) eqn:Ex.
  - rewrite IH. destruct (String.string_dec x m) as [<-|_]; [by rewrite Ex|by rewrite Nat.add_0_r].
  - destruct (String.string_dec x m) as [<-|Hne]; [|by rewrite lookup_insert_ne, IH, Nat.add_0_r].
    rewrite lookup_insert_eq, IH, Ex, Nat.add_1_r. cbn [orb Nat.eqb]. by destruct (count_occ _ _ _).
Qed.

(** ** The journal *)

Definition noJournal : stacklabJournalState := mkJournalState "" "" zero_time.

Section journal.
Context `{!DocText persistedCompat, !DocText stacklabJournalState, !MapRange string nat} (ToLower : string → string).

(** What the journal hands out after a cursor, in at most so many pages: all the
    entries of all the pages, and the cursor of the last entry. *)
Inductive handed (read : LogReader) : nat → string → list StacklabLogEntry → string → Prop :=
| handed_enough cursor : handed read 0 cursor [] cursor
| handed_none k cursor page :
    read (mkQuery 200 cursor "" "" false) = Ok page → lr_items page = [] → handed read (S k) cursor [] cursor
| handed_last k cursor page e :
    read (mkQuery 200 cursor "" "" false) = Ok page → last (lr_items page) = Some e → HasMore page = false →
    handed read (S k) cursor (lr_items page) (le_cursor e)
| handed_more k cursor page e rest next :
    read (mkQuery 200 cursor "" "" false) = Ok page → last (lr_items page) = Some e → HasMore page = true →
    handed read k (le_cursor e) rest next → handed read (S k) cursor (lr_items page ++ rest) next.

Lemma fetchFrom_handed batches read cursor before entries next : fetchFrom batches read cursor before = Ok (entries, next) →
  ∃ new, entries = before ++ new ∧ handed read batches cursor new next.
Proof using.
  revert cursor before. induction batches as [|k IH]; intros cursor before; cbn [fetchFrom].
  { intros [= <- <-]. exists []. rewrite app_nil_r. split; [done|constructor]. }
  unfold stacklabJournalPollLimit. destruct (read (mkQuery 200 cursor "" "" false)) as [page|] eqn:Er; cbn; [|done].
  destruct (last (lr_items page)) as [e|] eqn:El.
  - destruct (HasMore page) eqn:Em; [|intros [= <- <-]; exists (lr_items page); split; [done|by eapply handed_last]].
    intros (new & -> & Hn)%IH. exists (lr_items page ++ new). rewrite app_assoc. split; [done|by eapply handed_more].
  - intros [= <- <-]. exists []. rewrite app_nil_r. split; [done|]. eapply handed_none; [done|]. by apply last_None in El.
Qed.

(** Some page of this poll could not be read. *)
Definition unreadable (read : LogReader) : Prop := ∃ cursor, read (mkQuery 200 cursor "" "" false) = Err ErrLogsUnavailable.
Lemma fetchFrom_unreadable batches read cursor before : fetchFrom batches read cursor before = Err ErrLogsUnavailable → unreadable read.
Proof using.
  revert cursor before. induction batches as [|k IH]; intros cursor before; cbn [fetchFrom]; [done|]. unfold stacklabJournalPollLimit.
  destruct (read (mkQuery 200 cursor "" "" false)) as [page|e] eqn:Er; cbn; [|intros [= ->]; by exists cursor].
  destruct (last (lr_items page)); [|done]. destruct (HasMore page); [apply IH|done].
Qed.

(** The text that identifies a set of errors: every normalized message that occurs,
    with the number of times it does. *)
Definition tells (errors : list StacklabLogEntry) (text : string) : Prop :=
  ∃ counts : list (string * nat), NoDup counts ∧ text = join "|" (sort_strings ((λ c, c.1 +:+ "#" +:+ pretty c.2) <$> counts)) ∧
    ∀ message n, (message, n) ∈ counts ↔
      message ≠ "" ∧ n ≠ 0%nat ∧ n = count_occ String.string_dec ((λ e, join " " (Fields (trim_space (ToLower (le_message e))))) <$> errors) message.

Lemma fingerprint_tells errors : tells errors (stacklabErrorFingerprint ToLower errors).
Proof using.
  eexists. split; [|split; [reflexivity|]]; [rewrite range_perm; apply NoDup_map_to_list|]. intros message n. rewrite range_perm, elem_of_map_to_list, tally_lookup.
  unfold normalizeStacklabErrorMessage, str_empty, str_eqb. destruct (decide (message = "")) as [->|Hne]; [by split; [|intros (? & _)]|].
  rewrite (bool_decide_eq_false_2 _ Hne). cbn [orb]. destruct (_ =? 0)%nat eqn:E; [apply Nat.eqb_eq in E|apply Nat.eqb_neq in E].
  - split; [done|]. by intros (_ & Hn & ->).
  - split; [by intros [= <-]|]. by intros (_ & _ & ->).
Qed.

(** The same errors were reported less than a cooldown ago. *)
Definition repetition (m : Monitor) (state : stacklabJournalState) (errors : list StacklabLogEntry) (now : Time) : Prop :=
  tells errors (js_fingerprint state) ∧ js_notified state ≠ zero_time ∧ Sub now (js_notified state) < alertCooldown m.

Lemma repeated_repetition m state errors now :
  repeated m (stacklabErrorFingerprint ToLower errors) (js_fingerprint state) (js_notified state) now = true → repetition m state errors now.
Proof using.
  unfold repeated, repetition, is_zero. intros [[E Hz]%andb_true_iff Hc%Z.ltb_lt]%andb_true_iff. apply bool_decide_eq_true in E as ->.
  split; [apply fingerprint_tells|]. split; [|done]. intros E. by rewrite E in Hz.
Qed.

(** Why a poll may pass over errors of the journal: they were delivered to every
    enabled channel now, in an alert that counts them all, or they are not wanted,
    or they are a repetition. *)
Definition accounted (env : Env) (m : Monitor) (state : stacklabJournalState) (errors : list StacklabLogEntry) (next : string) (w w' : world) : Prop :=
  errors = [] ∨ ∃ settings, loadSettings (e_io env 1) (e_io env 2) w = (Ok settings, w) ∧
    (StacklabServiceError (Events settings) = false ∨ hasConfiguredNotificationChannel settings = false ∨ repetition m state errors (e_now env 0) ∨
     let p := buildStacklabServiceErrorPayload errors next (Z.quot (alertCooldown m) Second) (e_now env 0) in
     Event p = "stacklab_service_error" ∧ (sa_count <$> StacklabService p) = Some (length errors) ∧
     (∀ d, d ∈ targets settings p → e_send env d = None) ∧ w_log w' = w_log w ++ ((λ d, (d, e_send env d)) <$> targets settings p) ∧
     ∃ text, tells errors text ∧ stored stacklabJournalStateKey noJournal w' = Some (mkJournalState (js_cursor state) text (e_now env 0))).

Lemma loadSettings_case io1 io2 w : (∃ s, loadSettings io1 io2 w = (Ok s, w)) ∨ ∃ e, loadSettings io1 io2 w = (Err e, w).
Proof using. pose proof (loadSettings_world io1 io2 w) as H. destruct (loadSettings io1 io2 w) as [[s|e] w']; cbn in H; subst w'; eauto. Qed.

Lemma journal_save env d w r w' : saveStacklabJournalState (e_io env 3) (e_now env 1) d w = (r, w') →
  match r with Err _ => w' = w | Ok _ => w_log w' = w_log w ∧ stored stacklabJournalStateKey noJournal w' = Some d end.
Proof using.
  unfold saveStacklabJournalState. destruct (saveDoc_cases (e_io env 3) (e_now env 1) stacklabJournalStateKey d w) as (r0 & w0 & -> & Hl & Hc & Hd & _). intros [= <- <-].
  destruct r0; [split; [done|by apply Hd]|]. by destruct Hc as [[_ ?]|[? _]].
Qed.

(** The poll after the entries were read. *)
Lemma reportErrors_spec env m state errors next w r w' : reportErrors ToLower env m state errors next w = (r, w') →
  match r with
  | Err _ => w_db w' = w_db w
  | Ok _ => accounted env m state errors next w w' ∧ ∃ s, stored stacklabJournalStateKey noJournal w' = Some s ∧ js_cursor s = js_cursor state
  end.
Proof using.
  unfold reportErrors, bind at 1. destruct (loadSettings_case (e_io env 1) (e_io env 2) w) as [[settings Hs]|[e Hs]]; [|rewrite Hs; by intros [= <- <-]].
  rewrite Hs. destruct (StacklabServiceError (Events settings)) eqn:Et; cbn [negb].
  2:{ intros Hsave%journal_save. destruct r; [|by subst]. destruct Hsave as [_ Hst]. split; [right; exists settings; by auto|by eexists]. }
  destruct (hasConfiguredNotificationChannel settings) eqn:Ec; cbn [negb].
  2:{ intros Hsave%journal_save. destruct r; [|by subst]. destruct Hsave as [_ Hst]. split; [right; exists settings; by auto|by eexists]. }
  destruct (repeated m _ _ _ _) eqn:Er.
  { apply repeated_repetition in Er. intros Hsave%journal_save. destruct r; [|by subst]. destruct Hsave as [_ Hst]. split; [right; exists settings; by auto|by eexists]. }
  unfold bind. destruct (dispatch_spec env settings (buildStacklabServiceErrorPayload errors next (Z.quot (alertCooldown m) Second) (e_now env 0)) w) as (rd & -> & Hd).
  destruct rd as [[]|e]; [|by intros [= <- <-]]. intros Hsave%journal_save. destruct r; [|by rewrite Hsave]. destruct Hsave as [Hl Hst]. cbn [w_log] in Hl. split; [|by eexists].
  right. exists settings. split; [done|]. do 3 right. split; [done|]. split; [done|]. split; [by apply Hd|]. split; [done|]. eexists. split; [apply fingerprint_tells|done].
Qed.

End journal.

(** ** Degraded stacks *)

Definition noHealth : runtimeHealthState := mkHealthState "" zero_time.

Lemma Sub_lt t u c : min_int64 < c <= max_int64 → (Sub t u <? c) = (t - u <? c).
Proof.
  intros H. unfold Sub. unfold min_int64, max_int64 in *. destruct (t - u <? c) eqn:E; [apply Z.ltb_lt in E|apply Z.ltb_ge in E]; [apply Z.ltb_lt|apply Z.ltb_ge]; lia.
Qed.

Section health.
Context `{!DocText persistedCompat, !DocText runtimeHealthState}.

Lemma loadSettings_keys io1 io2 w w' : app_settings (w_db w') !! settingsKey = app_settings (w_db w) !! settingsKey →
  app_settings (w_db w') !! legacySettingsKey = app_settings (w_db w) !! legacySettingsKey → loadSettings io1 io2 w' = ((loadSettings io1 io2 w).1, w').
Proof using.
  intros H1 H2. unfold loadSettings, bind, of_store, AppSetting, driver. destruct io1; [done|]. rewrite H1.
  destruct (app_settings (w_db w) !! settingsKey) as [row|]; cbn; [by destruct (doc_parse (set_value row))|].
  destruct io2; [done|]. cbn. rewrite H2. destruct (app_settings (w_db w) !! legacySettingsKey) as [row|]; cbn; [by destruct (doc_parse (set_value row))|done].
Qed.

(** A poll that reaches the store and every channel, at a time that is set. *)
Definition reaches (env : Env) : Prop := (∀ n, e_io env n = None) ∧ (∀ d, e_send env d = None) ∧ e_now env 0 ≠ zero_time.

(** What a poll sees: the failures it would report. *)
Definition sees (m : Monitor) (failures : list RuntimeHealthFailure) : Prop := ∃ i, stackInspector m = Some i ∧ inspectRuntimeHealth i = Ok failures.

Definition wants (settings : Settings) : bool := RuntimeHealthDegraded (Events settings) && hasConfiguredNotificationChannel settings.

(** One poll that sees degraded stacks, from every stored state. *)
Lemma health_poll env m failures w state settings : reaches env → sees m failures → runtimeHealthFingerprint failures ≠ "" →
  stored runtimeHealthStateKey noHealth w = Some state → loadSettings None None w = (Ok settings, w) →
  ∃ w', pollRuntimeHealthAlerts env m w = (Ok tt, w') ∧ loadSettings None None w' = (Ok settings, w') ∧
    let fingerprint := runtimeHealthFingerprint failures in
    let fresh := str_empty (hs_fingerprint state) && is_zero (hs_notified state) in
    if fresh then w_log w' = w_log w ∧ stored runtimeHealthStateKey noHealth w' = Some (mkHealthState fingerprint zero_time)
    else if negb (wants settings) || repeated m fingerprint (hs_fingerprint state) (hs_notified state) (e_now env 0)
    then w_log w' = w_log w ∧ stored runtimeHealthStateKey noHealth w' = Some (mkHealthState fingerprint (hs_notified state))
    else w_log w' = w_log w ++ ((λ d, (d, None)) <$> targets settings (healthPayload failures (e_now env 0))) ∧
         stored runtimeHealthStateKey noHealth w' = Some (mkHealthState fingerprint (e_now env 0)).
Proof using.
  intros (Hio & Hsend & Hnow) (i & Hi & Hf) Hne Hst Hset. unfold pollRuntimeHealthAlerts. rewrite Hi, Hf. unfold bind at 1, of_res. unfold bind at 1, loadRuntimeHealthState, bind at 1.
  rewrite !Hio. destruct (loadDoc_Ok runtimeHealthStateKey "parse runtime health state" noHealth w state Hst) as (d & -> & Hd). cbn [ret]. unfold noHealth in Hd. rewrite Hd. clear d Hd.
  assert (str_empty (runtimeHealthFingerprint failures) = false) as -> by (by apply bool_decide_eq_false_2).
  assert (∀ now s w0, loadSettings None None w0 = (Ok settings, w0) → ∃ w', saveRuntimeHealthState None now s w0 = (Ok tt, w') ∧ loadSettings None None w' = (Ok settings, w') ∧
    w_log w' = w_log w0 ∧ stored runtimeHealthStateKey noHealth w' = Some s) as Hsave.
  { intros now s w0 H0. destruct (saveDoc_stored now runtimeHealthStateKey s w0) as (w' & Hs & Hl & Hd & Hk). exists w'. split_and!; [done| |done|by apply Hd].
    rewrite (loadSettings_keys None None w0) by (by apply Hk). by rewrite H0. }
  destruct (str_empty (hs_fingerprint state) && is_zero (hs_notified state)).
  { destruct (Hsave (e_now env 1) (mkHealthState (runtimeHealthFingerprint failures) zero_time) w Hset) as (w' & ? & ? & ? & ?). by exists w'. }
  unfold bind at 1. rewrite Hset. unfold wants.
  destruct (RuntimeHealthDegraded (Events settings)), (hasConfiguredNotificationChannel settings); cbn [negb andb orb];
    try (destruct (Hsave (e_now env 1) (mkHealthState (runtimeHealthFingerprint failures) (hs_notified state)) w Hset) as (w' & ? & ? & ? & ?); by exists w').
  destruct (repeated m _ _ _ _).
  { destruct (Hsave (e_now env 1) (mkHealthState (runtimeHealthFingerprint failures) (hs_notified state)) w Hset) as (w' & ? & ? & ? & ?). by exists w'. }
  unfold bind. destruct (dispatch_spec env settings (healthPayload failures (e_now env 0)) w) as (r & Hdis & Hr). rewrite Hdis.
  assert (r = Ok tt) as -> by (destruct r as [[]|]; [done|]; by discriminate (proj2 Hr (λ d _, Hsend d))).
  set (w1 := mkWorld _ _). assert (loadSettings None None w1 = (Ok settings, w1)) as Hset1.
  { rewrite (loadSettings_keys None None w) by done. by rewrite Hset. }
  destruct (Hsave (e_now env 1) (mkHealthState (runtimeHealthFingerprint failures) (e_now env 0)) w1 Hset1) as (w' & ? & ? & Hl & ?). exists w'. split_and!; [done|done| |done].
  rewrite Hl. cbn. f_equal. apply list_fmap_ext. intros _ d _. by rewrite Hsend.
Qed.

(** The times of the polls that sent something. *)
Fixpoint alertTimes (polls : list (Env * Monitor)) (w : world) : list Time :=
  match polls with
  | [] => []
  | (env, m) :: rest =>
    let w' := (pollRuntimeHealthAlerts env m w).2 in
    (if bool_decide (length (w_log w') = length (w_log w)) then [] else [e_now env 0]) ++ alertTimes rest w'
  end.

Definition same_degradation (cooldown : Duration) (fingerprint : string) (p : Env * Monitor) : Prop :=
  reaches p.1 ∧ alertCooldown p.2 = cooldown ∧ ∃ failures, sees p.2 failures ∧ runtimeHealthFingerprint failures = fingerprint.

Lemma alertTimes_spaced cooldown fingerprint polls w state settings : 0 < cooldown <= max_int64 → fingerprint ≠ "" →
  stored runtimeHealthStateKey noHealth w = Some state → loadSettings None None w = (Ok settings, w) → Forall (same_degradation cooldown fingerprint) polls →
  Sorted (λ t u, cooldown <= u - t) (alertTimes polls w) ∧
  (hs_fingerprint state = fingerprint → is_zero (hs_notified state) = false → HdRel (λ t u, cooldown <= u - t) (hs_notified state) (alertTimes polls w)).
Proof using.
  intros Hc Hfp. revert w state. induction polls as [|[env m] polls IH]; intros w state Hst Hset Hall; [by split; [constructor|intros; constructor]|].
  apply Forall_cons in Hall as [(Hreach & Hcool & failures & Hsees & Hf) Hall]. cbn in Hreach, Hcool, Hsees. cbn [alertTimes].
  assert (runtimeHealthFingerprint failures ≠ "") as Hne by (by rewrite Hf).
  destruct (health_poll env m failures w state settings Hreach Hsees Hne Hst Hset) as (w' & -> & Hset' & Hcase). cbn [snd]. rewrite Hf in Hcase. cbv zeta in Hcase.
  destruct (str_empty (hs_fingerprint state) && is_zero (hs_notified state)) eqn:Efresh.
  { destruct Hcase as [Hl Hst']. rewrite Hl, bool_decide_eq_true_2 by done. destruct (IH w' _ Hst' Hset' Hall) as [Hs _]. split; [done|].
    intros Hsf Hz. apply andb_true_iff in Efresh as [_ Ez]. congruence. }
  destruct (negb (wants settings) || _) eqn:Eq.
  { destruct Hcase as [Hl Hst']. rewrite Hl, bool_decide_eq_true_2 by done. destruct (IH w' _ Hst' Hset' Hall) as [Hs Hh]. split; [done|]. intros _ Hz. by apply Hh. }
  apply orb_false_iff in Eq as [Ew Er]. destruct Hcase as [Hl Hst']. destruct (IH w' _ Hst' Hset' Hall) as [Hs Hh].
  rewrite bool_decide_eq_false_2.
  2:{ rewrite Hl, length_app, length_fmap. apply negb_false_iff, andb_true_iff in Ew as [_ Ew]. apply (targets_configured _ (healthPayload failures (e_now env 0))) in Ew.
      destruct (targets settings _); [done|]. cbn. lia. }
  cbn [app]. assert (HdRel (λ t u, cooldown <= u - t) (e_now env 0) (alertTimes polls w')) as Hhd.
  { apply Hh; [done|]. destruct Hreach as (_ & _ & Hnow). cbn. unfold is_zero. by apply Z.eqb_neq. }
  split; [by constructor|]. intros Hsf Hz. constructor. unfold repeated in Er. rewrite Hsf, Hz, Hcool in Er. unfold str_eqb in Er. rewrite bool_decide_eq_true_2 in Er by done.
  cbn in Er. rewrite Sub_lt in Er by (unfold min_int64; lia). apply Z.ltb_ge in Er. done.
Qed.

(** while the same stacks stay degraded, the operator is alerted at most once per cooldown: whatever was stored before, the times of two successive alerts are
    at least the cooldown apart, provided the store and the channels work. *)
Theorem health_alerts_spaced cooldown fingerprint polls w state settings :
  0 < cooldown <= max_int64 → fingerprint ≠ "" → stored runtimeHealthStateKey noHealth w = Some state → loadSettings None None w = (Ok settings, w) →
  Forall (same_degradation cooldown fingerprint) polls → Sorted (λ t u, cooldown <= u - t) (alertTimes polls w).
Proof using. intros. by eapply alertTimes_spaced. Qed.

(** a degradation that lasts for two polls is reported: from a clean state the first poll only records it and the second one sends it to every enabled channel,
    even if other stacks have degraded in between. *)
Theorem persistent_degradation_reported env1 env2 m1 m2 failures1 failures2 w settings :
  reaches env1 → reaches env2 → sees m1 failures1 → sees m2 failures2 → runtimeHealthFingerprint failures1 ≠ "" → runtimeHealthFingerprint failures2 ≠ "" →
  stored runtimeHealthStateKey noHealth w = Some noHealth → loadSettings None None w = (Ok settings, w) → wants settings = true →
  ∃ w1 w2, pollRuntimeHealthAlerts env1 m1 w = (Ok tt, w1) ∧ w_log w1 = w_log w ∧ pollRuntimeHealthAlerts env2 m2 w1 = (Ok tt, w2) ∧
    w_log w2 = w_log w ++ ((λ d, (d, None)) <$> targets settings (healthPayload failures2 (e_now env2 0))) ∧ targets settings (healthPayload failures2 (e_now env2 0)) ≠ [].
Proof using.
  intros Hr1 Hr2 Hs1 Hs2 Hf1 Hf2 Hst Hset Hw. destruct (health_poll env1 m1 failures1 w noHealth settings Hr1 Hs1 Hf1 Hst Hset) as (w1 & Hp1 & Hset1 & Hc1).
  cbn in Hc1. destruct Hc1 as [Hl1 Hst1]. destruct (health_poll env2 m2 failures2 w1 _ settings Hr2 Hs2 Hf2 Hst1 Hset1) as (w2 & Hp2 & _ & Hc2).
  exists w1, w2. cbn [hs_fingerprint hs_notified] in Hc2. cbv zeta in Hc2.
  assert (str_empty (runtimeHealthFingerprint failures1) = false) as Hne by (by apply bool_decide_eq_false_2). rewrite Hne in Hc2. cbn [andb] in Hc2.
  rewrite Hw in Hc2. unfold repeated in Hc2. change (is_zero zero_time) with true in Hc2. rewrite andb_false_r in Hc2. cbn [negb orb andb] in Hc2. destruct Hc2 as [Hl2 _].
  split_and!; [done|done|done|by rewrite Hl2, Hl1|]. apply targets_configured. unfold wants in Hw. by apply andb_true_iff in Hw as [_ ?].
Qed.
End health.

(** ** Fingerprints *)

Lemma sort_strings_perm l k : l ≡ₚ k → sort_strings l = sort_strings k.
Proof.
  intros Hp. apply (sort_by_unique (λ s, s)); [done| |apply sort_by_sorted]. unfold sort_strings. by rewrite sort_by_perm.
Qed.

(** the fingerprint of a burst of journal errors depends only on the multiset of normalized messages: neither the order of the entries nor the iteration order
    of Go maps matters, so that a repetition of the same errors is recognized. *)
Theorem fingerprint_canonical (R R' : MapRange string nat) ToLower entries entries' :
  (λ e, normalizeStacklabErrorMessage ToLower (le_message e)) <$> entries ≡ₚ (λ e, normalizeStacklabErrorMessage ToLower (le_message e)) <$> entries' →
  @stacklabErrorFingerprint R ToLower entries = @stacklabErrorFingerprint R' ToLower entries'.
Proof.
  intros Hp. unfold stacklabErrorFingerprint. rewrite (tally_perm _ _ Hp). f_equal. apply sort_strings_perm. by rewrite !range_perm.
Qed.

(** ** Concrete runs *)

#[global] Instance stacklabJournalState_eq_dec : EqDecision stacklabJournalState.
Proof. solve_decision. Defined.
#[global] Instance stacklabJournalState_countable : Countable stacklabJournalState.
Proof. apply (inj_countable' (λ s, (js_cursor s, js_fingerprint s, js_notified s)) (λ p, let '(a, b, c) := p in mkJournalState a b c)). by intros []. Defined.
#[global] Instance runtimeHealthState_eq_dec : EqDecision runtimeHealthState.
Proof. solve_decision. Defined.
#[global] Instance runtimeHealthState_countable : Countable runtimeHealthState.
Proof. apply (inj_countable' (λ s, (hs_fingerprint s, hs_notified s)) (λ p, let '(a, b) := p in mkHealthState a b)). by intros []. Defined.
#[local] Existing Instance countable_text.
#[local] Instance demo_count_range : MapRange string nat := default_range string nat.

(** A journal with one error after the cursor, and a stack that restarts. *)
Definition demoReader : LogReader := λ q,
  if str_eqb (lq_cursor q) "c1" then Ok (mkLogs [mkEntry 5 "error" "disk full" "c2"] "c2" false) else Ok (mkLogs [] "" false).
Definition demoInspector : StackInspector := mkInspector (Ok ["web"]) (λ id, Ok (mkDetail id "error" "error" 0 [mkContainer "id1" "web-1" "restarting"])).
Definition demoMonitor : Monitor := mkMonitor (900 * Second) (Some demoReader) (Some demoInspector) None.
Definition at_time (t : Time) : Env := mkEnv (λ _, None) (λ _, t) (λ _, None).
Definition journalWorld : world := snd (saveStacklabJournalState None 0 (mkJournalState "c1" "" zero_time) demoWorld).
Definition reportedWorld : world := snd (pollStacklabServiceErrors (λ s, s) (at_time (1000 * Second)) demoMonitor journalWorld).

Lemma demo_poll : pollStacklabServiceErrors (λ s, s) (at_time (1000 * Second)) demoMonitor journalWorld = (Ok tt, reportedWorld).
Proof. apply injective_projections; [vm_compute; reflexivity|reflexivity]. Qed.
Lemma demo_journal : stored stacklabJournalStateKey noJournal journalWorld = Some (mkJournalState "c1" "" zero_time).
Proof. vm_compute. reflexivity. Qed.


(** The reader of the host hands out the end of a burst: of 201 errors written since
    the last poll the monitor sees 200, and it goes on after the last of them. *)
Example burst_lost : (λ p, (length p.1, le_cursor <$> head p.1, p.2)) <$> (match fetchNewStacklabLogEntries demoLogs "c0" with Ok p => Some p | Err _ => None end) =
  Some (200%nat, Some "e1", "e200").
Proof. vm_compute. reflexivity. Qed.

Definition demoFailure : RuntimeHealthFailure := mkHealthFailure "web" "error" "error" 0 1 0 1 ["restart_loop"].
Lemma demo_reaches t : t ≠ zero_time → reaches (at_time t).
Proof. by intros H. Qed.
Lemma demo_sees : sees demoMonitor [demoFailure].
Proof. exists demoInspector. split; [reflexivity|vm_compute; reflexivity]. Qed.
Lemma demo_health : stored runtimeHealthStateKey noHealth demoWorld = Some noHealth.
Proof. vm_compute. reflexivity. Qed.
Lemma demo_fingerprint : runtimeHealthFingerprint [demoFailure] = "web|restart_loop|0|1".
Proof. vm_compute. reflexivity. Qed.

Lemma persistent_degradation_reported_witness :
  ∃ w1 w2, pollRuntimeHealthAlerts (at_time (1000 * Second)) demoMonitor demoWorld = (Ok tt, w1) ∧ w_log w1 = w_log demoWorld ∧
    pollRuntimeHealthAlerts (at_time (1030 * Second)) demoMonitor w1 = (Ok tt, w2) ∧
    w_log w2 = w_log demoWorld ++ ((λ d, (d, None)) <$> targets demoStored (healthPayload [demoFailure] (1030 * Second))) ∧
    targets demoStored (healthPayload [demoFailure] (1030 * Second)) ≠ [].
Proof.
  apply (persistent_degradation_reported (at_time (1000 * Second)) (at_time (1030 * Second)) demoMonitor demoMonitor [demoFailure] [demoFailure] demoWorld demoStored);
    [by apply demo_reaches|by apply demo_reaches|exact demo_sees|exact demo_sees|rewrite demo_fingerprint; discriminate..|exact demo_health|exact demo_settings_loaded|reflexivity].
Defined.

Definition demoPolls : list (Env * Monitor) := (λ t, (at_time (t * Second), demoMonitor)) <$> [1000; 1030; 1060; 1930].
Lemma demo_same : Forall (same_degradation (900 * Second) "web|restart_loop|0|1") demoPolls.
Proof. repeat constructor; try done; exists [demoFailure]; (split; [exact demo_sees|exact demo_fingerprint]). Qed.

Example demo_alerts : alertTimes demoPolls demoWorld = [1030 * Second; 1930 * Second].
Proof. vm_compute. reflexivity. Qed.

Lemma health_alerts_spaced_witness : Sorted (λ t u, 900 * Second <= u - t) (alertTimes demoPolls demoWorld).
Proof.
  apply (health_alerts_spaced (900 * Second) "web|restart_loop|0|1" demoPolls demoWorld noHealth demoStored);
    [unfold Second, max_int64; lia|discriminate|exact demo_health|exact demo_settings_loaded|exact demo_same].
Defined.

Lemma fingerprint_canonical_witness :
  stacklabErrorFingerprint (λ s, s) [mkEntry 1 "error" "a" "c1"; mkEntry 2 "error" " b" "c2"] = stacklabErrorFingerprint (λ s, s) [mkEntry 3 "error" "b " "c3"; mkEntry 4 "error" "a" "c4"].
Proof. apply (fingerprint_canonical demo_count_range demo_count_range). vm_compute. apply perm_swap. Defined.

(** A channel that keeps failing undoes the cooldown for the others: nothing is
    stored, so that the channel that works gets the same alert at every poll. *)
Definition telegramDown (t : Time) : Env := mkEnv (λ _, None) (λ _, t) (λ d, match d with ToTelegram _ _ _ => Some "timeout" | _ => None end).
Definition webhookPosts (w : world) : nat := length (List.filter (λ e, match e.1 with ToWebhook _ _ => true | _ => false end) (w_log w)).

Theorem failing_channel_repeats_alerts :
  let w1 := (pollStacklabServiceErrors (λ s, s) (telegramDown (1000 * Second)) demoMonitor journalWorld).2 in
  let w2 := (pollStacklabServiceErrors (λ s, s) (telegramDown (1030 * Second)) demoMonitor w1).2 in
  w_db w2 = w_db journalWorld ∧ webhookPosts w1 = 1%nat ∧ webhookPosts w2 = 2%nat.
Proof. vm_compute. repeat split. Qed.
