(* ===== verification/ImageUpdates.v ===== *)
(** * internal/imageupdates/service.go: are the pulled images behind their tags?

    Image references, the lookup of a remote digest with anonymous tokens, the
    policy that decides which addresses a registry may make the service connect to,
    and the check of a list of images with its cache and table.

    The lookup runs in a [net]: the name service and the servers answer differently
    at every call, as an attacker likes, and every opened connection is recorded.
    [net/url], [netip.ParseAddr], [encoding/json], [strings.ToLower] and the docker
    command are parameters; the connection pool is left out (a connection that is
    used again was opened under the same policy). *)

From stdpp Require Import gmap strings list.
From Stdlib Require Import Ascii ZArith Lia.
From S2P Require Import Prelude GoStrings GoPath GoTime Store StoreAuth.

Local Open Scope Z_scope.

(** ** Addresses *)

(** [netip.Addr]: an IPv6 address may have a zone; the zero value is invalid. *)
Inductive Addr := AInvalid | V4 (bits : Z) | V6 (bits : Z) (zone : string).
#[global] Instance Addr_eq_dec : EqDecision Addr.
Proof. solve_decision. Defined.

(** The first [len] of [width] bits agree. *)
Definition in_prefix (width len prefix bits : Z) : bool := Z.shiftr bits (width - len) =? Z.shiftr prefix (width - len).
Definition ip4 (a b c d : Z) : Z := ((a * 256 + b) * 256 + c) * 256 + d.
Definition ip6 (a b c : Z) : Z := Z.shiftl a 112 + Z.shiftl b 96 + Z.shiftl c 80.

Definition Unmap (a : Addr) : Addr :=
  match a with V6 bits zone => if Z.shiftr bits 32 =? 65535 then V4 (Z.land bits (2 ^ 32 - 1)) else a | _ => a end.

Definition IsLoopback (a : Addr) : bool := match a with V4 b => in_prefix 32 8 (ip4 127 0 0 0) b | V6 b _ => b =? 1 | AInvalid => false end.
Definition IsMulticast (a : Addr) : bool := match a with V4 b => in_prefix 32 4 (ip4 224 0 0 0) b | V6 b _ => in_prefix 128 8 (ip6 65280 0 0) b | AInvalid => false end.
Definition IsLinkLocalUnicast (a : Addr) : bool :=
  match a with V4 b => in_prefix 32 16 (ip4 169 254 0 0) b | V6 b _ => in_prefix 128 10 (ip6 65152 0 0) b | AInvalid => false end.
Definition IsPrivate (a : Addr) : bool :=
  match a with
  | V4 b => in_prefix 32 8 (ip4 10 0 0 0) b || in_prefix 32 12 (ip4 172 16 0 0) b || in_prefix 32 16 (ip4 192 168 0 0) b
  | V6 b _ => in_prefix 128 7 (ip6 64512 0 0) b
  | AInvalid => false
  end.
Definition IsGlobalUnicast (a : Addr) : bool :=
  match a with
  | AInvalid => false
  | V4 b => negb (b =? 0) && negb (b =? 2 ^ 32 - 1) && negb (IsLoopback a) && negb (IsMulticast a) && negb (IsLinkLocalUnicast a)
  | V6 b zone => negb ((b =? 0) && str_empty zone) && negb (IsLoopback a) && negb (IsMulticast a) && negb (IsLinkLocalUnicast a)
  end.

(** [nonPublicRegistryPrefixes]: documentation, carrier and test networks. *)
Inductive Prefix := P4 (bits len : Z) | P6 (bits len : Z).
Definition nonPublicRegistryPrefixes : list Prefix :=
  [P4 (ip4 100 64 0 0) 10; P4 (ip4 192 0 0 0) 24; P4 (ip4 192 0 2 0) 24; P4 (ip4 198 18 0 0) 15; P4 (ip4 198 51 100 0) 24; P4 (ip4 203 0 113 0) 24;
   P6 (ip6 100 65435 1) 48; P6 (ip6 256 0 0) 64; P6 (ip6 8193 3512 0) 32].
Definition Contains (p : Prefix) (a : Addr) : bool :=
  match p, a with
  | P4 bits len, V4 b => in_prefix 32 len bits b
  | P6 bits len, V6 b zone => str_empty zone && in_prefix 128 len bits b
  | _, _ => false
  end.
Definition isNonPublicAddress (a : Addr) : bool :=
  let a := Unmap a in negb (IsGlobalUnicast a) || IsPrivate a || existsb (λ p, Contains p a) nonPublicRegistryPrefixes.

Example address_examples :
  isNonPublicAddress (V4 (ip4 10 1 2 3)) = true ∧ isNonPublicAddress (V4 (ip4 127 0 0 1)) = true ∧ isNonPublicAddress (V4 (ip4 169 254 169 254)) = true ∧
  isNonPublicAddress (V6 (Z.shiftl 65535 32 + ip4 192 168 0 1) "") = true ∧ isNonPublicAddress (V4 (ip4 8 8 8 8)) = false ∧ isNonPublicAddress (V6 (ip6 8193 3512 7) "") = true ∧
  isNonPublicAddress (V6 (ip6 9731 0 0 + 1) "") = false ∧ isNonPublicAddress (V6 (ip6 64768 0 0) "") = true ∧ isNonPublicAddress (V4 (ip4 100 100 0 1)) = true.
Proof. vm_compute. repeat split. Qed.

(** ** Image references *)

Definition dockerHub : string := "registry-1.docker.io".

Definition splitImageRef (imageRef : string) : string * string * string :=
  let '(remainder, tag) := match Cut imageRef "@" with Some (name, digest) => (name, digest) | None => (imageRef, "") end in
  let '(registry, remainder) :=
    match Cut remainder "/" with
    | Some (first, rest) => if negb (free_of "." first) || negb (free_of ":" first) || str_eqb first "localhost" then (first, rest) else (dockerHub, remainder)
    | None => (dockerHub, remainder)
    end in
  let registry := if str_in registry ["docker.io"; "index.docker.io"] then dockerHub else registry in
  let '(remainder, tag) :=
    if str_empty tag then
      match Cut remainder ":" with
      | Some (name, parsed) => if free_of "/" parsed then (name, parsed) else (remainder, "latest")
      | None => (remainder, "latest")
      end
    else match Cut remainder ":" with Some (name, _) => (name, tag) | None => (remainder, tag) end in
  let remainder := if str_eqb registry dockerHub && free_of "/" remainder then "library/" +:+ remainder else remainder in
  (registry, remainder, tag).

Definition normalizeRepository (imageRef : string) : string := let '(registry, repository, _) := splitImageRef imageRef in registry +:+ "/" +:+ repository.

Example ref_examples :
  splitImageRef "nginx" = (dockerHub, "library/nginx", "latest") ∧ splitImageRef "docker.io/a/b:1" = (dockerHub, "a/b", "1") ∧
  splitImageRef "localhost:5000/x/y:2" = ("localhost:5000", "x/y", "2") ∧ splitImageRef "ghcr.io/o/r:v1@sha256:ab" = ("ghcr.io", "o/r", "sha256:ab").
Proof. vm_compute. repeat split. Qed.

(** ** Challenges *)

Record bearerChallenge := mkChallenge { Realm : string; ChService : string; Scope : string }.

Definition challengePart (c : bearerChallenge) (part : string) : bearerChallenge :=
  match Cut (trim_space part) "=" with
  | None => c
  | Some (key, value) =>
    let value := Trim quote value in
    if str_eqb key "realm" then mkChallenge value (ChService c) (Scope c)
    else if str_eqb key "service" then mkChallenge (Realm c) value (Scope c)
    else if str_eqb key "scope" then mkChallenge (Realm c) (ChService c) value
    else c
  end.
Definition parseBearerChallenge (header : string) : option bearerChallenge :=
  match strip_prefix "Bearer " header with
  | None => None
  | Some rest =>
    let c := foldl challengePart (mkChallenge "" "" "") (split rest ",") in
    if str_empty (Realm c) then None else Some c
  end.

(** ** Requests *)

(** What [url.Parse] tells of an address. *)
Record URL := mkURL { u_scheme : string; u_opaque : string; u_user : bool; u_hostname : string; u_port : string; u_path : string; u_query : string; u_fragment : string }.
Record httpResponse := mkResponse {
  rs_status : Z; rs_digest : string; rs_authenticate : string; rs_location : string; rs_length : Z; rs_body : res string string }.

(** The name service and the servers at each moment, and the opened connections
    with the endpoint they were opened for. *)
Record net := mkNet {
  n_now : nat; n_dns : nat → string → res string (list Addr); n_reach : nat → Addr → bool;
  n_serve : nat → Addr → bool → URL → string → res string httpResponse; n_dials : list (string * Addr) }.

Definition N (A : Type) : Type := net → res string A * net.
Definition nret {A} (a : A) : N A := λ n, (Ok a, n).
Definition nfail {A} (e : string) : N A := λ n, (Err e, n).
Definition nbind {A B} (c : N A) (k : A → N B) : N B := λ n, match c n with (Ok a, n) => k a n | (Err e, n) => (Err e, n) end.
Notation "'net!' x := c 'in' k" := (nbind c (λ x, k)) (at level 10, x pattern, c at level 200, k at level 200).
Definition of_result {A} (r : res string A) : N A := λ n, (r, n).

Definition elapsed (n : net) : net := mkNet (S (n_now n)) (n_dns n) (n_reach n) (n_serve n) (n_dials n).
Definition dns (host : string) : N (list Addr) := λ n, (n_dns n (n_now n) host, elapsed n).
(** An attempt to open a connection. *)
Definition connect (key : string) (a : Addr) : N bool :=
  λ n, (Ok (n_reach n (n_now n) a), mkNet (S (n_now n)) (n_dns n) (n_reach n) (n_serve n) (n_dials n ++ [(key, a)])).
Definition serve (a : Addr) (head : bool) (u : URL) (token : string) : N httpResponse := λ n, (n_serve n (n_now n) a head u token, elapsed n).

Record registryEndpoint := mkEndpoint { ep_host : string; ep_port : string; ep_key : string }.
Abbreviation registryRequestPolicy := (gmap string (list Addr)).

Definition TrimSuffix (s suffix : string) : string :=
  match strip_prefix (String.rev suffix) (String.rev s) with Some r => String.rev r | None => s end.
Definition JoinHostPort (host port : string) : string := if free_of ":" host then host +:+ ":" +:+ port else "[" +:+ host +:+ "]:" +:+ port.

Section lookup.
Context (ToLower idna : string → string) (parse_addr : string → option Addr) (parse_url : string → option URL) (url_string : URL → string)
  (encode_query : string → string → string → string) (resolve_ref : URL → string → option URL) (keep_token : URL → URL → bool)
  (parse_token : string → option (string * string)).

Definition parseRegistryEndpoint (u : URL) : res string registryEndpoint :=
  let? _ := guard_err (negb (str_eqb (ToLower (u_scheme u)) "https")) "registry URL must use HTTPS" in
  let? _ := guard_err (negb (str_empty (u_opaque u)) || u_user u || str_empty (u_hostname u) || negb (str_empty (u_fragment u))) "registry URL contains an invalid authority" in
  let host := ToLower (TrimSuffix (u_hostname u) ".") in
  let? _ := guard_err (str_empty host) "registry URL host is empty" in
  let port := if str_empty (u_port u) then "443" else u_port u in
  let? _ := guard_err (match atoi port with Some p => (p <? 1) || (65535 <? p) | None => true end) "registry URL has an invalid port" in
  Ok (mkEndpoint host port (JoinHostPort host port)).

Definition lookupEndpoint (ep : registryEndpoint) : N (list Addr) :=
  match parse_addr (ep_host ep) with
  | Some literal => nret [Unmap literal]
  | None =>
    net! addresses := dns (ep_host ep) in
    let result := reverse (remove_dups (reverse (filter (λ a, a ≠ AInvalid) (Unmap <$> addresses)))) in
    match result with [] => nfail ("registry endpoint " +:+ ep_key ep +:+ " did not resolve to an IP address") | _ => nret result end
  end.

Definition newRegistryRequestPolicy (u : URL) : N registryRequestPolicy :=
  net! ep := of_result (parseRegistryEndpoint u) in
  net! addresses := lookupEndpoint ep in
  let nonPublic := filter (λ a, isNonPublicAddress a = true) addresses in
  if (0 <? length nonPublic)%nat && negb (length nonPublic =? length addresses)%nat
  then nfail ("registry endpoint " +:+ ep_key ep +:+ " resolves to a mix of public and non-public addresses")
  else if (length nonPublic =? length addresses)%nat then nret {[ep_key ep := addresses]}
  else nret ∅.

Definition validateEndpointAddresses (p : registryRequestPolicy) (ep : registryEndpoint) (addresses : list Addr) : res string unit :=
  match p !! ep_key ep with
  | Some pinned => guard_err (existsb (λ a, negb (bool_decide (a ∈ pinned))) addresses) ("private registry endpoint " +:+ ep_key ep +:+ " changed address during the request")
  | None => guard_err (existsb isNonPublicAddress addresses) ("registry endpoint " +:+ ep_key ep +:+ " resolves to disallowed address")
  end.
Definition validateParsedURL (p : registryRequestPolicy) (u : URL) : N unit :=
  net! ep := of_result (parseRegistryEndpoint u) in
  net! addresses := lookupEndpoint ep in
  of_result (validateEndpointAddresses p ep addresses).
Definition validateURL (p : registryRequestPolicy) (raw : string) : N unit :=
  match parse_url raw with None => nfail "parse registry URL" | Some u => validateParsedURL p u end.

(** The addresses are tried in order. *)
Fixpoint dialEach (key : string) (addresses : list Addr) : N Addr :=
  match addresses with
  | [] => nfail ("dial registry endpoint " +:+ key)
  | a :: rest => net! ok := connect key a in if ok : bool then nret a else dialEach key rest
  end.
Definition dialContext (p : registryRequestPolicy) (host port : string) : N Addr :=
  let host := ToLower (TrimSuffix host ".") in
  let ep := mkEndpoint host port (JoinHostPort host port) in
  net! addresses := lookupEndpoint ep in
  net! _ := of_result (validateEndpointAddresses p ep addresses) in
  dialEach (ep_key ep) addresses.

(** [client.Do]: redirects are followed after [CheckRedirect], ten requests at most. *)
Definition isRedirect (r : httpResponse) : bool := bool_decide (rs_status r ∈ [301; 302; 303; 307; 308]) && negb (str_empty (rs_location r)).
Fixpoint doRequest (requests : nat) (p : registryRequestPolicy) (head : bool) (u : URL) (token : string) : N httpResponse :=
  match requests with
  | O => nfail "registry redirect limit exceeded"
  | S k =>
    net! a := dialContext p (idna (u_hostname u)) (if str_empty (u_port u) then "443" else u_port u) in
    net! r := serve a head u token in
    if isRedirect r then
      match resolve_ref u (rs_location r) with
      | None => nfail "failed to parse Location header"
      | Some next =>
        if (k =? 0)%nat then nfail "registry redirect limit exceeded"
        else
          net! _ := validateParsedURL p next in
          doRequest k p head next (if keep_token u next then token else "")
      end
    else nret r
  end.

Definition headManifest (p : registryRequestPolicy) (url token : string) : N (string * option bearerChallenge) :=
  net! _ := validateURL p url in
  match parse_url url with
  | None => nfail "build request"
  | Some u =>
    net! r := doRequest 10 p true u token in
    if rs_status r =? 200 then
      if str_empty (rs_digest r) then nfail "registry response missing Docker-Content-Digest" else nret (rs_digest r, None)
    else if (rs_status r =? 401) && str_empty token then
      match parseBearerChallenge (rs_authenticate r) with None => nfail "registry requires unsupported authentication" | Some c => nret ("", Some c) end
    else nfail "registry returned another status"
  end.

Definition maxRegistryTokenResponseBytes : Z := 2 ^ 16.
Definition maxRegistryTokenBytes : Z := 2 ^ 14.

Definition buildTokenURL (c : bearerChallenge) : res string URL :=
  match parse_url (Realm c) with
  | None => Err "parse registry token realm"
  | Some u => Ok (mkURL (u_scheme u) (u_opaque u) (u_user u) (u_hostname u) (u_port u) (u_path u) (encode_query (u_query u) (ChService c) (Scope c)) (u_fragment u))
  end.

Definition fetchAnonymousToken (p : registryRequestPolicy) (c : bearerChallenge) : N string :=
  net! u := of_result (buildTokenURL c) in
  net! _ := validateParsedURL p u in
  net! r := doRequest 10 p false u "" in
  if negb (rs_status r =? 200) then nfail "token endpoint returned another status"
  else if maxRegistryTokenResponseBytes <? rs_length r then nfail "token endpoint response too large"
  else
    net! body := of_result (rs_body r) in
    let body := str_take (maxRegistryTokenResponseBytes + 1) body in
    if maxRegistryTokenResponseBytes <? slen body then nfail "token endpoint response too large"
    else match parse_token body with
    | None => nfail "decode token"
    | Some (token, access) =>
      let token := if str_empty token then access else token in
      if str_empty token then nfail "token endpoint response did not contain a token"
      else if maxRegistryTokenBytes <? slen token then nfail "registry token too large" else nret token
    end.

Definition buildManifestURL (registry repository tag : string) : res string string :=
  match parse_url ("https://" +:+ registry) with
  | None => Err "parse registry URL"
  | Some u =>
    let? _ := guard_err (u_user u || str_empty (u_hostname u) || negb (str_empty (u_path u)) || negb (str_empty (u_query u)) || negb (str_empty (u_fragment u))) "invalid registry authority" in
    Ok (url_string (mkURL (u_scheme u) (u_opaque u) (u_user u) (u_hostname u) (u_port u) ("/v2/" +:+ repository +:+ "/manifests/" +:+ tag) (u_query u) (u_fragment u)))
  end.

Definition registryPolicy (manifestURL : string) : N registryRequestPolicy :=
  match parse_url manifestURL with None => nfail "parse manifest URL" | Some u => newRegistryRequestPolicy u end.

Definition remoteDigest (imageRef : string) : N string :=
  let '(registry, repository, tag) := splitImageRef imageRef in
  net! manifestURL := of_result (buildManifestURL registry repository tag) in
  net! policy := registryPolicy manifestURL in
  net! dc := headManifest policy manifestURL "" in
  if negb (str_empty dc.1) then nret dc.1
  else match dc.2 with
  | None => nfail "registry did not return a digest"
  | Some challenge =>
    net! token := fetchAnonymousToken policy challenge in
    net! dc := headManifest policy manifestURL token in
    if str_empty dc.1 then nfail "registry did not return a digest after auth" else nret dc.1
  end.
End lookup.

(** ** The check of a list of images *)

Definition StateUpToDate : string := "up_to_date".
Definition StateAvailable : string := "available".
Definition StateUnknown : string := "unknown".

(** [docker image inspect]: the digests the image is known by, if it is there. *)
Definition digestOf (repo entry : string) : option string :=
  match Cut entry "@" with Some (name, digest) => if str_eqb (normalizeRepository name) repo then Some digest else None | None => None end.
Definition localRepoDigests (inspected : option (list string)) (imageRef : string) : list string :=
  match inspected with
  | None => []
  | Some repoDigests =>
    match omap (digestOf (normalizeRepository imageRef)) repoDigests, repoDigests with
    | [], [entry] => match Cut entry "@" with Some (_, digest) => [digest] | None => [] end
    | digests, _ => digests
    end
  end.

Definition containsDigest (digests : list string) (candidate : string) : bool := existsb (λ d, str_eqb d candidate) digests.

(** [checkImage], with the remote lookup as an action of the network. *)
Definition checkImage (now : Time) (docker : string → option (list string)) (remote : string → N string) (imageRef : string) : net → ImageUpdateStatus * net := λ n,
  match localRepoDigests (docker imageRef) imageRef with
  | [] => (mkImageStatus imageRef "" "" StateUnknown now, n)
  | (local :: _) as digests =>
    match remote imageRef n with
    | (Err _, n) => (mkImageStatus imageRef local "" StateUnknown now, n)
    | (Ok d, n) => (if containsDigest digests d then mkImageStatus imageRef d d StateUpToDate now else mkImageStatus imageRef local d StateAvailable now, n)
    end
  end.

(** [uniqueSorted]: trimmed, without blanks and repetitions, in the given order. *)
Fixpoint unique (seen : list string) (values : list string) : list string :=
  match values with
  | [] => []
  | v :: rest =>
    let v := trim_space v in
    if str_empty v || str_in v seen then unique seen rest else v :: unique (v :: seen) rest
  end.
Definition uniqueSorted (values : list string) : list string := unique [] values.

Record Service := mkService { is_db : DB; is_cache : gmap string ImageUpdateStatus }.
Definition CacheStatuses (statuses : list ImageUpdateStatus) (s : Service) : Service :=
  mkService (is_db s) (foldl (λ c st, <[ImageRef st := st]> c) (is_cache s) statuses).
Definition Load (io : IO) (s : Service) : res store_error unit * Service :=
  match ListImageUpdateStatus io (is_db s) with
  | Err e => (Err e, s)
  | Ok items => (Ok tt, CacheStatuses items s)
  end.
Definition StatusByImage (s : Service) : gmap string ImageUpdateStatus := is_cache s.

(** What the surroundings of one image are: the clock, the outcome of the store and
    whether the context has ended before and after the check. *)
Record CheckEnv := mkCheckEnv { ck_now : Time; ck_io : IO; ck_before : bool; ck_after : bool }.

Fixpoint checkEach (envs : nat → CheckEnv) (docker : string → option (list string)) (remote : string → N string) (i : nat) (refs : list string) (s : Service) (n : net)
    : list ImageUpdateStatus * Service * net :=
  match refs with
  | [] => ([], s, n)
  | ref :: rest =>
    let env := envs i in
    if ck_before env then ([], s, n)
    else
      let '(status, n) := checkImage (ck_now env) docker remote ref n in
      if ck_after env then ([], s, n)
      else
        let db := match UpsertImageUpdateStatus (ck_io env) (is_db s) status with Ok db => db | Err _ => is_db s end in
        let s := CacheStatuses [status] (mkService db (is_cache s)) in
        let '(results, s, n) := checkEach envs docker remote (S i) rest s n in
        (status :: results, s, n)
  end.
Definition CheckImages (envs : nat → CheckEnv) (docker : string → option (list string)) (remote : string → N string) (imageRefs : list string) (s : Service) (n : net)
    : list ImageUpdateStatus * Service * net := checkEach envs docker remote 0 (uniqueSorted imageRefs) s n.

(** ** Which connections a lookup opens *)

(** Whatever happens, the computation only opens connections that [P] allows. *)
Definition opens {A} (P : string * Addr → Prop) (c : N A) : Prop := ∀ n r n', c n = (r, n') → ∃ new, n_dials n' = n_dials n ++ new ∧ Forall P new.

Create HintDb opens.

Lemma opens_result {A} P (r : res string A) : opens P (of_result r).
Proof. intros n r' n' [= <- <-]. exists []. by rewrite app_nil_r. Qed.
Lemma opens_ret {A} P (a : A) : opens P (nret a).
Proof. apply (opens_result P (Ok a)). Qed.
Lemma opens_fail {A} P e : opens P (nfail (A := A) e).
Proof. apply (opens_result P (Err e)). Qed.
Lemma opens_bind {A B} P (c : N A) (k : A → N B) : opens P c → (∀ a, opens P (k a)) → opens P (nbind c k).
Proof.
  intros Hc Hk n r n'. unfold nbind. destruct (c n) as [[a|e] n1] eqn:E; destruct (Hc _ _ _ E) as (l1 & E1 & H1).
  - intros H. destruct (Hk a _ _ _ H) as (l2 & E2 & H2). exists (l1 ++ l2). rewrite E2, E1, app_assoc. split; [done|by apply Forall_app].
  - intros [= <- <-]. by exists l1.
Qed.
Lemma opens_dns P host : opens P (dns host).
Proof. intros n r n' [= <- <-]. exists []. cbn. by rewrite app_nil_r. Qed.
Lemma opens_serve P a head u token : opens P (serve a head u token).
Proof. intros n r n' [= <- <-]. exists []. cbn. by rewrite app_nil_r. Qed.
Lemma opens_connect (P : string * Addr → Prop) key a : P (key, a) → opens P (connect key a).
Proof. intros HP n r n' [= <- <-]. exists [(key, a)]. split; [done|by constructor]. Qed.
#[export] Hint Resolve opens_result opens_ret opens_fail opens_bind opens_dns opens_serve opens_connect : opens.

(** The policy lets a connection through: one of the pinned addresses of the
    endpoint, or a public one. *)
Definition lets (p : registryRequestPolicy) (d : string * Addr) : Prop :=
  match p !! d.1 with Some pinned => d.2 ∈ pinned | None => isNonPublicAddress d.2 = false end.

Lemma validate_lets p ep addresses : validateEndpointAddresses p ep addresses = Ok tt → Forall (λ a, lets p (ep_key ep, a)) addresses.
Proof.
  unfold validateEndpointAddresses, lets. cbn [fst snd]. destruct (p !! ep_key ep) as [pinned|]; intros H%guard_err_Ok; rewrite existsb_false_iff in H; apply Forall_forall; intros a Ha; specialize (H a Ha).
  - by apply negb_false_iff, bool_decide_eq_true in H.
  - done.
Qed.

Lemma opens_dialEach P key addresses : Forall (λ a, P (key, a)) addresses → opens P (dialEach key addresses).
Proof.
  induction addresses as [|a rest IH]; intros H; cbn; [auto with opens|]. apply Forall_cons in H as [Ha H]. apply opens_bind; [auto with opens|].
  intros []; [auto with opens|by apply IH].
Qed.

Section policy.
Context (ToLower idna : string → string) (parse_addr : string → option Addr) (parse_url : string → option URL) (url_string : URL → string)
  (encode_query : string → string → string → string) (resolve_ref : URL → string → option URL) (keep_token : URL → URL → bool)
  (parse_token : string → option (string * string)).

Lemma opens_lookup P ep : opens P (lookupEndpoint parse_addr ep).
Proof using. unfold lookupEndpoint. destruct (parse_addr _); [auto with opens|]. apply opens_bind; [auto with opens|]. intros l. destruct (reverse _); auto with opens. Qed.
Hint Resolve opens_lookup : opens.

Lemma opens_validate P p u : opens P (validateParsedURL ToLower parse_addr p u).
Proof using. unfold validateParsedURL. auto 6 with opens. Qed.
Hint Resolve opens_validate : opens.

(** Addresses are checked again when the connection is made, so that another
    answer of the name service does not matter. *)
Lemma opens_dial p host port : opens (lets p) (dialContext ToLower parse_addr p host port).
Proof using.
  unfold dialContext. apply opens_bind; [auto with opens|]. intros addresses n r n'. unfold nbind, of_result.
  destruct (validateEndpointAddresses _ _ _) as [[]|e] eqn:E; [|intros [= <- <-]; exists []; by rewrite app_nil_r]. apply validate_lets in E. by apply opens_dialEach.
Qed.

Lemma opens_do k p head u token : opens (lets p) (doRequest ToLower idna parse_addr resolve_ref keep_token k p head u token).
Proof using.
  revert u token. induction k as [|k IH]; intros u token; cbn; [auto with opens|]. apply opens_bind; [apply opens_dial|]. intros a. apply opens_bind; [auto with opens|]. intros r.
  destruct (isRedirect r); [|auto with opens]. destruct (resolve_ref _ _) as [next|]; [|auto with opens]. destruct (k =? 0)%nat; [auto with opens|]. apply opens_bind; [auto with opens|]. intros _. apply IH.
Qed.
Hint Resolve opens_do : opens.

Lemma opens_head p url token : opens (lets p) (headManifest ToLower idna parse_addr parse_url resolve_ref keep_token p url token).
Proof using.
  unfold headManifest, validateURL. apply opens_bind; [destruct (parse_url url); auto with opens|]. intros _. destruct (parse_url url); [|auto with opens]. apply opens_bind; [auto with opens|].
  intros r. destruct (_ =? 200); [destruct (str_empty _); auto with opens|]. destruct (_ && _); [|auto with opens]. destruct (parseBearerChallenge _); auto with opens.
Qed.

Lemma opens_token p c : opens (lets p) (fetchAnonymousToken ToLower idna parse_addr parse_url encode_query resolve_ref keep_token parse_token p c).
Proof using.
  unfold fetchAnonymousToken. apply opens_bind; [auto with opens|]. intros u. apply opens_bind; [auto with opens|]. intros _. apply opens_bind; [auto with opens|]. intros r.
  destruct (negb _); [auto with opens|]. destruct (_ <? rs_length r); [auto with opens|]. apply opens_bind; [auto with opens|]. intros body. destruct (_ <? slen _); [auto with opens|].
  repeat case_match; auto with opens.
Qed.
Hint Resolve opens_head opens_token : opens.

(** The endpoint of a reference, and what its name resolves to at first. *)
Definition named_endpoint (imageRef : string) (n : net) (key : string) (addresses : list Addr) : Prop :=
  let '(registry, repository, tag) := splitImageRef imageRef in
  ∃ manifestURL u ep n', buildManifestURL parse_url url_string registry repository tag = Ok manifestURL ∧ parse_url manifestURL = Some u ∧
    parseRegistryEndpoint ToLower u = Ok ep ∧ ep_key ep = key ∧ lookupEndpoint parse_addr ep n = (Ok addresses, n').

Lemma newPolicy_inv u n p n' : newRegistryRequestPolicy ToLower parse_addr u n = (Ok p, n') →
  ∃ ep addresses, parseRegistryEndpoint ToLower u = Ok ep ∧ lookupEndpoint parse_addr ep n = (Ok addresses, n') ∧
    (p = ∅ ∨ p = {[ep_key ep := addresses]} ∧ Forall (λ a, isNonPublicAddress a = true) addresses).
Proof using.
  unfold newRegistryRequestPolicy, nbind, of_result. destruct (parseRegistryEndpoint ToLower u) as [ep|]; [|done].
  destruct (lookupEndpoint parse_addr ep n) as [[addresses|] n1] eqn:El; [|done]. set (np := filter _ addresses).
  destruct (_ && _); [done|]. destruct (length np =? length addresses)%nat eqn:E; intros [= <- <-]; exists ep, addresses; (split_and!; [done|done|]); [right|by left].
  split; [done|]. apply Nat.eqb_eq in E. apply Forall_forall. intros a Ha. assert (np = addresses) as Hnp.
  { unfold np in *. clear -E. induction addresses as [|b l IH]; [done|]. rewrite filter_cons in *. case_decide; cbn in E; [f_equal; apply IH; lia|].
    pose proof (length_filter (λ a, isNonPublicAddress a = true) l). lia. }
  rewrite <- Hnp in Ha. unfold np in Ha. by apply list_elem_of_filter in Ha as [? _].
Qed.

(** C10: looking up the remote digest of an image never opens a connection to an address that is not public, whatever the registry, its redirects, its token service
    and the name service answer, and however the answers change between calls; the only exception are the addresses of a private registry that the image
    reference names itself, at its own port, and only those that its name resolved to in the beginning. *)
Theorem lookup_stays_public imageRef n r n' :
  remoteDigest ToLower idna parse_addr parse_url url_string encode_query resolve_ref keep_token parse_token imageRef n = (r, n') →
  ∃ new, n_dials n' = n_dials n ++ new ∧
    Forall (λ d, isNonPublicAddress d.2 = false ∨ ∃ addresses, named_endpoint imageRef n d.1 addresses ∧ d.2 ∈ addresses ∧ Forall (λ a, isNonPublicAddress a = true) addresses) new.
Proof using.
  unfold remoteDigest, named_endpoint. destruct (splitImageRef imageRef) as [[registry repository] tag].
  unfold nbind at 1, of_result. destruct (buildManifestURL parse_url url_string registry repository tag) as [manifestURL|e] eqn:Em; [|intros [= <- <-]; exists []; by rewrite app_nil_r].
  unfold nbind at 1, registryPolicy. destruct (parse_url manifestURL) as [u|] eqn:Eu; [|intros [= <- <-]; exists []; by rewrite app_nil_r].
  destruct (newRegistryRequestPolicy ToLower parse_addr u n) as [[p|e] n1] eqn:Ep.
  2:{ intros [= <- <-]. assert (opens (λ _, False) (newRegistryRequestPolicy ToLower parse_addr u)) as Ho.
      { unfold newRegistryRequestPolicy. apply opens_bind; [auto with opens|]. intros ep. apply opens_bind; [auto with opens|]. intros l. repeat case_match; auto with opens. }
      destruct (Ho _ _ _ Ep) as (new & E & H). exists new. split; [done|]. eapply Forall_impl; [done|]. by intros. }
  apply newPolicy_inv in Ep as (ep & addresses & Hep & Hl & Hp). destruct (opens_lookup (λ _, False) ep _ _ _ Hl) as (new0 & E0 & H0).
  assert (new0 = []) as -> by (destruct new0; [done|by inversion H0]). rewrite app_nil_r in E0. intros H.
  assert (opens (lets p) (λ n1, match headManifest ToLower idna parse_addr parse_url resolve_ref keep_token p manifestURL "" n1 with
    | (Ok dc, n2) => (if negb (str_empty dc.1) then nret dc.1 else match dc.2 with None => nfail "registry did not return a digest" | Some challenge =>
        net! token := fetchAnonymousToken ToLower idna parse_addr parse_url encode_query resolve_ref keep_token parse_token p challenge in
        net! dc := headManifest ToLower idna parse_addr parse_url resolve_ref keep_token p manifestURL token in
        if str_empty dc.1 then nfail "registry did not return a digest after auth" else nret dc.1 end) n2
    | (Err e, n2) => (Err e, n2) end)) as Ho.
  { apply (opens_bind (lets p) (headManifest _ _ _ _ _ _ p manifestURL "")); [apply opens_head|]. intros dc. destruct (negb _); [auto with opens|]. destruct dc.2; [|auto with opens].
    apply opens_bind; [apply opens_token|]. intros t. apply opens_bind; [apply opens_head|]. intros dc'. destruct (str_empty _); auto with opens. }
  destruct (Ho n1 r n' H) as (new & E & Hf). exists new. rewrite E, E0. split; [done|]. eapply Forall_impl; [exact Hf|]. intros [key a]. unfold lets. cbn [fst snd].
  destruct Hp as [->|[-> Hall]]; [rewrite lookup_empty; by left|]. destruct (decide (ep_key ep = key)) as [<-|Hne]; [|rewrite lookup_singleton_ne by done; by left].
  rewrite lookup_singleton_eq. intros Ha. right. exists addresses. split_and!; [|done|done]. exists manifestURL, u, ep, n1. done.
Qed.
End policy.

(** ** References *)

Lemma cut_at_free sep acc a b : free_of sep a = true → cut_at sep acc (a +:+ String sep b) = Some (String.rev acc +:+ a, b).
Proof.
  revert acc. induction a as [|c a IH]; intros acc Hf.
  - change ("" +:+ String sep b) with (String sep b). cbn [cut_at]. rewrite Ascii.eqb_refl. by rewrite str_app_nil_r.
  - rewrite str_app_cons. cbn in Hf. cbn [cut_at]. destruct (Ascii.eqb c sep); [done|]. rewrite IH by done. rewrite rev_cons, str_app_assoc. done.
Qed.
Lemma Cut_first sep a b : free_of sep a = true → Cut (a +:+ String sep b) sep = Some (a, b).
Proof. intros Hf. unfold Cut. by rewrite cut_at_free. Qed.
Lemma cut_at_none sep acc s : free_of sep s = true → cut_at sep acc s = None.
Proof. revert acc. induction s as [|c s IH]; intros acc Hf; [done|]. cbn in *. destruct (Ascii.eqb c sep); [done|]. by apply IH. Qed.
Lemma Cut_none sep s : free_of sep s = true → Cut s sep = None.
Proof. apply cut_at_none. Qed.

Definition is_registry (r : string) : bool := negb (free_of "." r) || negb (free_of ":" r) || str_eqb r "localhost".
(** The printed reference, and the parts that can be printed. *)
Definition fullRef (registry repository tag digest : string) : string :=
  registry +:+ "/" +:+ repository +:+ (if str_empty tag then "" else ":" +:+ tag) +:+ (if str_empty digest then "" else "@" +:+ digest).
Definition printable (registry repository tag digest : string) : Prop :=
  is_registry registry = true ∧ str_in registry ["docker.io"; "index.docker.io"; dockerHub] = false ∧ free_of "/" registry = true ∧ free_of "@" registry = true ∧
  free_of "@" repository = true ∧ free_of ":" repository = true ∧ free_of "@" tag = true ∧ free_of "/" tag = true.

Lemma split_plain registry repository tag : printable registry repository tag "" →
  splitImageRef (registry +:+ "/" +:+ repository +:+ (if str_empty tag then "" else ":" +:+ tag)) = (registry, repository, if str_empty tag then "latest" else tag).
Proof.
  intros (Hr & Hh & H1 & H2 & H3 & H4 & H5 & H6). unfold splitImageRef.
  assert (free_of "@" (registry +:+ "/" +:+ repository +:+ (if str_empty tag then "" else ":" +:+ tag)) = true) as Hat.
  { rewrite !free_of_app, H2, H3. destruct (str_empty tag); [done|]. by rewrite free_of_app, H5. }
  rewrite Cut_none by done. change ("/" +:+ ?x) with (String "/" x). rewrite Cut_first by done. fold (is_registry registry). rewrite Hr.
  assert (str_in registry ["docker.io"; "index.docker.io"] = false ∧ str_eqb registry dockerHub = false) as [-> ->].
  { apply bool_decide_eq_false in Hh. split; apply bool_decide_eq_false_2; set_solver. }
  change (str_empty "") with true. cbn [andb]. destruct (str_empty tag) eqn:Et.
  - rewrite str_app_nil_r, Cut_none by done. done.
  - change (":" +:+ tag) with (String ":" tag). rewrite Cut_first by done. by rewrite H6.
Qed.

(** a reference that names its registry is taken apart into what it was put together from: the registry, the repository and the digest, or the tag, or [latest]. *)
Theorem splitImageRef_roundtrip registry repository tag digest : printable registry repository tag digest →
  splitImageRef (fullRef registry repository tag digest) = (registry, repository, if str_empty digest then (if str_empty tag then "latest" else tag) else digest).
Proof.
  intros Hp. unfold fullRef. destruct (str_empty digest) eqn:Ed.
  { rewrite str_app_nil_r. by apply split_plain. }
  pose proof Hp as (Hr & Hh & H1 & H2 & H3 & H4 & H5 & H6). set (base := registry +:+ "/" +:+ repository +:+ (if str_empty tag then "" else ":" +:+ tag)).
  assert (registry +:+ "/" +:+ repository +:+ (if str_empty tag then "" else ":" +:+ tag) +:+ ("@" +:+ digest) = base +:+ String "@" digest) as ->.
  { unfold base. rewrite !str_app_assoc. done. }
  assert (free_of "@" base = true) as Hat. { unfold base. rewrite !free_of_app, H2, H3. destruct (str_empty tag); [done|]. by rewrite free_of_app, H5. }
  unfold splitImageRef. rewrite Cut_first by done. unfold base. change ("/" +:+ ?x) with (String "/" x). rewrite Cut_first by done. fold (is_registry registry). rewrite Hr.
  assert (str_in registry ["docker.io"; "index.docker.io"] = false ∧ str_eqb registry dockerHub = false) as [-> ->].
  { apply bool_decide_eq_false in Hh. split; apply bool_decide_eq_false_2; set_solver. }
  rewrite Ed. cbn [andb]. destruct (str_empty tag).
  - rewrite str_app_nil_r, Cut_none by done. done.
  - change (":" +:+ tag) with (String ":" tag). rewrite Cut_first by done. done.
Qed.

(** ** The cache and the table *)

(** The cache holds exactly what the table says. *)
Definition coherent (s : Service) : Prop := ∀ ref,
  match image_update_status (is_db s) !! ref with
  | Some row => ∃ st, scanImageStatus (ref, row) = Ok st ∧ is_cache s !! ref = Some st
  | None => is_cache s !! ref = None
  end.

Lemma upsert_coherent st s db : rfc_range (CheckedAt st) → coherent s → UpsertImageUpdateStatus None (is_db s) st = Ok db → coherent (CacheStatuses [st] (mkService db (is_cache s))).
Proof.
  intros Ht Hc [= <-] ref. cbn. destruct (decide (ImageRef st = ref)) as [<-|Hne].
  - rewrite !lookup_insert_eq. exists st. split; [|done]. unfold scanImageStatus, parse_time. cbn. rewrite parse_rfc3339nano_fmt by done. cbn. destruct st as [a b c d e]; cbn.
    unfold nullIfEmpty. destruct (str_empty b) eqn:Eb, (str_empty c) eqn:Ec; cbn; rewrite ?(bool_decide_eq_true_1 _ Eb), ?(bool_decide_eq_true_1 _ Ec); done.
  - rewrite !lookup_insert_ne by done. apply Hc.
Qed.

(** What a status must say, given the digests of the local image and the answer of
    the registry to a lookup made in the network [m]. *)
Definition status_right (docker : string → option (list string)) (remote : string → N string) (m : net) (st : ImageUpdateStatus) : Prop :=
  let local := localRepoDigests (docker (ImageRef st)) (ImageRef st) in
  let answer := fst (remote (ImageRef st) m) in
  (ImageState st = "up_to_date" ∧ answer = Ok (RemoteDigest st) ∧ RemoteDigest st ∈ local ∧ LocalDigest st = RemoteDigest st) ∨
  (ImageState st = "available" ∧ answer = Ok (RemoteDigest st) ∧ (RemoteDigest st ∉ local) ∧ head local = Some (LocalDigest st)) ∨
  (ImageState st = "unknown" ∧ RemoteDigest st = "" ∧ (local = [] ∨ ∃ e, answer = Err e)).

(** A lookup of some image, as a step of the network. *)
Definition looked (remote : string → N string) (m m' : net) : Prop := ∃ ref r, remote ref m = (r, m').

Lemma containsDigest_iff l d : containsDigest l d = true ↔ d ∈ l.
Proof. unfold containsDigest. rewrite existsb_exists. setoid_rewrite <- list_elem_of_In. split; [intros (x & Hx & E); by apply bool_decide_eq_true in E as ->|intros H; exists d; split; [done|by apply bool_decide_eq_true_2]]. Qed.

Lemma checkImage_right now docker remote ref n st n' : checkImage now docker remote ref n = (st, n') →
  ImageRef st = ref ∧ CheckedAt st = now ∧ status_right docker remote n st ∧ rtc (looked remote) n n'.
Proof.
  unfold checkImage. destruct (localRepoDigests (docker ref) ref) as [|local digests] eqn:El.
  { intros [= <- <-]. split_and!; [done|done| |done]. right; right. cbn. by split_and!; [..|left]. }
  destruct (remote ref n) as [r n1] eqn:Er. assert (rtc (looked remote) n n1) as Hn by (apply rtc_once; by exists ref, r).
  destruct r as [d|e]; [|intros [= <- <-]; split_and!; [done|done| |done]; right; right; cbn; rewrite Er; split_and!; [done..|right; by exists e]].
  destruct (containsDigest (local :: digests) d) eqn:E; intros [= <- <-]; (split_and!; [done|done| |done]); unfold status_right; cbn [ImageRef ImageState RemoteDigest LocalDigest]; rewrite El, Er.
  - left. split_and!; [done|done|by apply containsDigest_iff|done].
  - right; left. split_and!; [done|done| |done]. intros H. apply containsDigest_iff in H. congruence.
Qed.

Lemma unique_NoDup seen l : NoDup (unique seen l) ∧ ∀ x, x ∈ unique seen l → x ∉ seen.
Proof.
  revert seen. induction l as [|v l IH]; intros seen; cbn; [split; [constructor|by intros x ?%elem_of_nil]|].
  destruct (_ || _) eqn:E; [apply IH|]. apply orb_false_iff in E as [_ E]. apply bool_decide_eq_false in E. destruct (IH (trim_space v :: seen)) as [Hn Hs]. split.
  - constructor; [|done]. intros H. apply Hs in H. set_solver.
  - intros x [->|H]%elem_of_cons; [done|]. apply Hs in H. set_solver.
Qed.

Definition runs_through (e : CheckEnv) : Prop := ck_before e = false ∧ ck_after e = false.

Lemma checkEach_spec envs docker remote refs i s n results s' n' :
  NoDup refs → checkEach envs docker remote i refs s n = (results, s', n') →
  (ImageRef <$> results) `prefix_of` refs ∧
  Forall (λ st, is_cache s' !! ImageRef st = Some st ∧ ∃ m, rtc (looked remote) n m ∧ status_right docker remote m st) results ∧
  (∀ ref, ref ∉ ImageRef <$> results → is_cache s' !! ref = is_cache s !! ref) ∧ ((∀ i, runs_through (envs i)) → ImageRef <$> results = refs) ∧
  ((∀ i, ck_io (envs i) = None ∧ rfc_range (ck_now (envs i))) → coherent s → coherent s').
Proof.
  revert i s n results s' n'. induction refs as [|ref refs IH]; intros i s n results s' n' Hnd; cbn [checkEach].
  { intros [= <- <- <-]. split_and!; done. }
  apply NoDup_cons in Hnd as [Hnin Hnd]. destruct (ck_before (envs i)) eqn:Eb.
  { intros [= <- <- <-]. split_and!; [apply prefix_nil|constructor|done| |done]. intros H. destruct (H i). congruence. }
  destruct (checkImage _ docker remote ref n) as [st n1] eqn:Ec. apply checkImage_right in Ec as (Href & Ht & Hright & Hn1).
  destruct (ck_after (envs i)) eqn:Ea.
  { intros [= <- <- <-]. split_and!; [apply prefix_nil|constructor|done| |done]. intros H. destruct (H i). congruence. }
  set (db := match UpsertImageUpdateStatus _ _ _ with Ok db => db | Err _ => _ end).
  destruct (checkEach envs docker remote (S i) refs _ n1) as [[rest s1] n2] eqn:Er. intros [= <- <- <-].
  destruct (IH _ _ _ _ _ _ Hnd Er) as (Hpre & Hall & Hother & Hfull & Hcoh). cbn [fmap list_fmap]. rewrite Href.
  assert (ref ∉ ImageRef <$> rest) as Hnr. { intros H. apply Hnin. destruct Hpre as [k ->]. by apply elem_of_app; left. }
  split_and!; [by apply prefix_cons| | | |].
  - constructor.
    + split; [|by exists n]. rewrite Href, Hother by done. cbn. by rewrite <- Href, lookup_insert_eq.
    + eapply Forall_impl; [exact Hall|]. intros st' (? & m & ? & ?). split; [done|]. exists m. split; [by etrans|done].
  - intros x Hx. apply not_elem_of_cons in Hx as [Hne Hx]. rewrite Hother by done. cbn. by rewrite lookup_insert_ne by (by rewrite Href).
  - intros H. by rewrite Hfull.
  - intros Henv Hc. apply Hcoh; [done|]. destruct (Henv i) as [Hio Hr]. subst db. rewrite Hio.
    destruct (UpsertImageUpdateStatus None (is_db s) st) as [db|] eqn:Eu; [|done]. apply upsert_coherent; [by rewrite Ht|done|done].
Qed.

(** C22: a check of images answers for a prefix of the distinct references, and for all of them when it is not cancelled; each answer is in the cache, and says [up_to_date] or
    [available] exactly when a lookup of this check returned a digest that is, or is not, among the local ones, and [unknown] when the lookup failed or there is no local
    digest; the cached status of no other image changes.  When every write of the store succeeds the cache stays equal to the table. *)
Theorem CheckImages_coherent envs docker remote imageRefs s n results s' n' :
  CheckImages envs docker remote imageRefs s n = (results, s', n') →
  (ImageRef <$> results) `prefix_of` uniqueSorted imageRefs ∧
  Forall (λ st, StatusByImage s' !! ImageRef st = Some st ∧ ∃ m, rtc (looked remote) n m ∧ status_right docker remote m st) results ∧
  (∀ ref, ref ∉ ImageRef <$> results → StatusByImage s' !! ref = StatusByImage s !! ref) ∧ ((∀ i, runs_through (envs i)) → ImageRef <$> results = uniqueSorted imageRefs) ∧
  ((∀ i, ck_io (envs i) = None ∧ rfc_range (ck_now (envs i))) → coherent s → coherent s').
Proof. intros H. eapply checkEach_spec; [|exact H]. apply unique_NoDup. Qed.

Lemma scanImageStatus_ref p st : scanImageStatus p = Ok st → ImageRef st = p.1.
Proof. unfold scanImageStatus. destruct (parse_time _ _); cbn; [|done]. by intros [= <-]. Qed.

Lemma cache_items items (c : gmap string ImageUpdateStatus) ref : NoDup (ImageRef <$> items) →
  foldl (λ c st, <[ImageRef st := st]> c) c items !! ref = match list_find (λ st, ImageRef st = ref) items with Some (_, st) => Some st | None => c !! ref end.
Proof.
  revert c. induction items as [|st items IH]; intros c Hnd; cbn [foldl fmap list_fmap list_find] in *; [done|]. apply NoDup_cons in Hnd as [Hnin Hnd]. rewrite IH by done.
  destruct (decide (ImageRef st = ref)) as [<-|Hne].
  - destruct (list_find _ items) as [[i x]|] eqn:E; [|by rewrite lookup_insert_eq]. exfalso. apply list_find_Some in E as (Hx & Hr & _). apply Hnin. rewrite <- Hr. apply list_elem_of_fmap.
    exists x. split; [done|]. by apply list_elem_of_lookup_2 in Hx.
  - destruct (list_find _ items) as [[i x]|]; cbn; [done|]. by rewrite lookup_insert_ne.
Qed.

(** after a start the cache is the table, however long it is. *)
Theorem Load_coherent io db s' : Load io (mkService db ∅) = (Ok tt, s') → coherent s'.
Proof.
  unfold Load, ListImageUpdateStatus, driver. destruct io; [done|]. cbn [is_db]. set (l := sort_by fst (map_to_list (image_update_status db))).
  destruct (scan_all scanImageStatus l) as [items|] eqn:E; [|done]. intros [= <-]. apply scan_all_Forall2 in E.
  assert (ImageRef <$> items = fst <$> l) as Hrefs by (clear -E; induction E as [|p st l bs H _ IH]; cbn; [done|]; by rewrite IH, (scanImageStatus_ref _ _ H)).
  assert (l ≡ₚ map_to_list (image_update_status db)) as Hp by apply sort_by_perm.
  assert (NoDup (ImageRef <$> items)) as Hnd by (rewrite Hrefs, Hp; apply NoDup_fst_map_to_list).
  intros ref. cbn [is_db is_cache CacheStatuses]. rewrite cache_items by done. destruct (image_update_status db !! ref) as [row|] eqn:Er.
  - assert ((ref, row) ∈ l) as Hin by (rewrite Hp; by apply elem_of_map_to_list). apply list_elem_of_lookup in Hin as [i Hi].
    destruct (Forall2_lookup_l _ _ _ _ _ E Hi) as (st & Hst & Hscan). exists st. split; [done|]. destruct (list_find _ items) as [[j x]|] eqn:Ef.
    + apply list_find_Some in Ef as (Hx & Hxr & _). assert (i = j) as ->; [|congruence]. apply (NoDup_lookup (ImageRef <$> items) i j ref Hnd); rewrite list_lookup_fmap.
      * rewrite Hst. cbn. by rewrite (scanImageStatus_ref _ _ Hscan).
      * rewrite Hx. cbn. by rewrite Hxr.
    + exfalso. apply list_find_None in Ef. rewrite Forall_forall in Ef. apply (Ef st); [by apply list_elem_of_lookup_2 in Hst|]. by rewrite (scanImageStatus_ref _ _ Hscan).
  - destruct (list_find _ items) as [[j x]|] eqn:Ef; [|done]. exfalso. apply list_find_Some in Ef as (Hx & Hxr & _).
    destruct (Forall2_lookup_r _ _ _ _ _ E Hx) as ([k row] & Hk & Hscan). apply scanImageStatus_ref in Hscan. cbn in Hscan. apply list_elem_of_lookup_2 in Hk. rewrite Hp in Hk.
    apply elem_of_map_to_list in Hk. congruence.
Qed.

(** ** Concrete runs *)

(** A registry on the local network that answers with a digest, and an attacker
    that names it in a challenge. *)
Definition demoURL (host path : string) : URL := mkURL "https" "" false host "" path "" "".
Definition demoParse (s : string) : option URL :=
  if str_in s ["https://reg.lan"; "https://reg.lan/v2/"] then Some (demoURL "reg.lan" (if str_eqb s "https://reg.lan" then "" else "/v2/")) else None.
Definition demoNet : net :=
  mkNet 0 (λ _ _, Ok [V4 (ip4 10 0 0 5)]) (λ _ _, true) (λ _ _ _ _ _, Ok (mkResponse 200 "sha256:ab" "" "" 0 (Ok ""))) [].
Definition demoLookup : string → N string :=
  remoteDigest (λ s, s) (λ s, s) (λ _, None) demoParse (λ _, "https://reg.lan/v2/") (λ q _ _, q) (λ _ _, None) (λ _ _, false) (λ _, None).

Lemma demo_lookup : demoLookup "reg.lan/app:1" demoNet = (Ok "sha256:ab", snd (demoLookup "reg.lan/app:1" demoNet)).
Proof. apply injective_projections; [vm_compute; reflexivity|reflexivity]. Qed.

Lemma lookup_stays_public_witness :
  ∃ new, n_dials (snd (demoLookup "reg.lan/app:1" demoNet)) = n_dials demoNet ++ new ∧
    Forall (λ d, isNonPublicAddress d.2 = false ∨ ∃ addresses, named_endpoint (λ s, s) (λ _, None) demoParse (λ _, "https://reg.lan/v2/") "reg.lan/app:1" demoNet d.1 addresses ∧
      d.2 ∈ addresses ∧ Forall (λ a, isNonPublicAddress a = true) addresses) new.
Proof.
  exact (lookup_stays_public (λ s, s) (λ s, s) (λ _, None) demoParse (λ _, "https://reg.lan/v2/") (λ q _ _, q) (λ _ _, None) (λ _ _, false) (λ _, None)
    "reg.lan/app:1" demoNet (Ok "sha256:ab") _ demo_lookup).
Defined.

Lemma splitImageRef_roundtrip_witness : splitImageRef (fullRef "localhost:5000" "team/app" "1.2" "") = ("localhost:5000", "team/app", "1.2").
Proof. apply (splitImageRef_roundtrip "localhost:5000" "team/app" "1.2" ""). by repeat split. Defined.

Definition demoService : Service := mkService emptyDB ∅.
Definition demoEnvs : nat → CheckEnv := λ _, mkCheckEnv 0 None false false.
Definition demoDocker (ref : string) : option (list string) := Some ["reg.lan/app@sha256:aa"].
Lemma demo_coherent : coherent demoService.
Proof. intros ref. done. Qed.
Definition demoChecked : list ImageUpdateStatus * Service * net := CheckImages demoEnvs demoDocker demoLookup ["reg.lan/app:1"; " reg.lan/app:1 "] demoService demoNet.
Lemma demo_checked : CheckImages demoEnvs demoDocker demoLookup ["reg.lan/app:1"; " reg.lan/app:1 "] demoService demoNet = (demoChecked.1.1, demoChecked.1.2, demoChecked.2).
Proof. unfold demoChecked. by destruct (CheckImages _ _ _ _ _ _) as [[? ?] ?]. Qed.

Lemma CheckImages_coherent_witness : coherent demoChecked.1.2 ∧ ImageRef <$> demoChecked.1.1 = ["reg.lan/app:1"] ∧
  Forall (λ st, StatusByImage demoChecked.1.2 !! ImageRef st = Some st ∧ ∃ m, rtc (looked demoLookup) demoNet m ∧ status_right demoDocker demoLookup m st) demoChecked.1.1.
Proof.
  destruct (CheckImages_coherent demoEnvs demoDocker demoLookup ["reg.lan/app:1"; " reg.lan/app:1 "] demoService demoNet demoChecked.1.1 demoChecked.1.2 demoChecked.2 demo_checked)
    as (_ & Hall & _ & Hfull & Hcoh).
  split; [apply Hcoh; [intros i; split; [reflexivity|by vm_compute]|exact demo_coherent]|split; [rewrite Hfull; [reflexivity|done]|exact Hall]].
Defined.

Example demo_available : ImageState <$> demoChecked.1.1 = ["available"].
Proof. vm_compute. reflexivity. Qed.

Lemma Load_coherent_witness : coherent (snd (Load None (mkService emptyDB ∅))).
Proof. apply (Load_coherent None emptyDB). reflexivity. Defined.
