(* ===== verification/Maintenance.v ===== *)
(** * internal/maintenance: images, networks, volumes and pruning

    The inventory of Docker objects, the creation and removal of networks and
    volumes, the prune commands and their preview.  The Docker command line is the
    world of an operation: what each command answers at each moment is given, and
    every command is recorded in order.

    Parameters ([lib]): the decoding of the JSON that Docker prints, the case
    mapping of package strings, and [strconv.ParseFloat] followed by the
    conversion to bytes. *)

From stdpp Require Import gmap strings list sorting.
From Stdlib Require Import Ascii ZArith Lia.
From S2P Require Import Prelude GoStrings GoPath GoTime Effects.

Local Open Scope Z_scope.

(** ** The Docker command line *)

Record cmdResult := mkCmd { cmd_output : string; cmd_err : option string }.
Record docker := mkDocker { d_now : nat; d_run : nat → list string → cmdResult; d_calls : list (list string) }.

Inductive maintenance_error :=
| ErrDockerUnavailable (cause : string)
| ErrInvalidName
| ErrAlreadyExists
| ErrNotFound
| ErrProtectedObject
| ErrObjectInUse
| ErrText (message : string).

(** [err.Error()]. *)
Definition error_text (e : maintenance_error) : string :=
  match e with
  | ErrDockerUnavailable cause => "docker unavailable: " +:+ cause
  | ErrInvalidName => "invalid maintenance object name"
  | ErrAlreadyExists => "maintenance object already exists"
  | ErrNotFound => "maintenance object not found"
  | ErrProtectedObject => "maintenance object is protected"
  | ErrObjectInUse => "maintenance object is in use"
  | ErrText message => message
  end.

Abbreviation D := (eff docker maintenance_error).

Definition runCommand (args : list string) : D cmdResult :=
  λ d, (Ok (d_run d (d_now d) args), mkDocker (S (d_now d)) (d_run d) (d_calls d ++ [args])).

(** ** Data *)

Record imageRow := mkImageRow { ir_id : string; ir_repository : string; ir_tag : string; ir_reference : string }.
Record imageMeta := mkImageMeta { im_id : string; im_created : Time; im_size : Z }.
Record networkRow := mkNetworkRow { nr_id : string; nr_name : string; nr_driver : string; nr_scope : string }.
Record volumeRow := mkVolumeRow { vr_name : string; vr_driver : string }.
Record dockerImageInspect := mkImageInspect { di_id : string; di_created : string; di_size : Z }.
Record dockerNetworkInspect := mkNetworkInspect {
  dn_id : string; dn_internal : bool; dn_attachable : bool; dn_ingress : bool; dn_labels : gmap string string }.
Record dockerVolumeInspect := mkVolumeInspect {
  dv_name : string; dv_mountpoint : string; dv_scope : string; dv_labels : gmap string string; dv_options : gmap string string; dv_size : Z }.
Record mount := mkMount { mt_name : string; mt_type : string }.
Record dockerContainerInspect := mkContainerInspect {
  dc_image : string; dc_labels : gmap string string; dc_mounts : list mount; dc_networks : gset string }.
Record systemDFRow := mkDFRow { df_type : string; df_total : string; df_active : string; df_size : string; df_reclaimable : string }.
Record systemDFSummary := mkDFSummary { TotalCount : Z; Active : Z; SizeBytes : Z; ReclaimableBytes : Z }.

(** [usageByObject], and [imageUsage] with the same fields. *)
Record usageByObject := mkUsage { us_count : nat; us_services : gmap string (gset string) }.
Record objectUsageResult := mkObjectUsage { ou_networks : gmap string usageByObject; ou_volumes : gmap string usageByObject }.

Record StackServiceUsage := mkStackUsage { su_stack : string; su_services : list string }.
Record ImageItem := mkImageItem {
  ii_id : string; ii_repository : string; ii_tag : string; ii_reference : string; ii_size : Z; ii_created : Time; ii_containers : nat;
  ii_stacks : list StackServiceUsage; ii_dangling : bool; ii_unused : bool; ii_source : string }.
Record NetworkItem := mkNetworkItem {
  ni_id : string; ni_name : string; ni_driver : string; ni_scope : string; ni_internal : bool; ni_attachable : bool; ni_ingress : bool;
  ni_containers : nat; ni_stacks : list StackServiceUsage; ni_unused : bool; ni_source : string }.
Record VolumeItem := mkVolumeItem {
  vi_name : string; vi_driver : string; vi_mountpoint : string; vi_scope : string; vi_size : Z; vi_options : nat; vi_containers : nat;
  vi_stacks : list StackServiceUsage; vi_unused : bool; vi_source : string }.
(** [ImagesQuery], [NetworksQuery] and [VolumesQuery]. *)
Record InventoryQuery := mkInventoryQuery { q_search : string; q_usage : string; q_origin : string; q_managed : list string }.
Record PrunePreviewItem := mkPreviewItem { pi_reference : string; pi_size : Z; pi_reason : string }.
Record PruneCategoryPreview := mkCategory { pc_count : Z; pc_bytes : Z; pc_items : list PrunePreviewItem }.
Record PrunePreviewQuery := mkPreviewQuery { pq_images : bool; pq_cache : bool; pq_containers : bool; pq_volumes : bool; pq_managed : list string }.
Record PrunePreviewResult := mkPreview {
  pp_images : PruneCategoryPreview; pp_cache : PruneCategoryPreview; pp_containers : PruneCategoryPreview; pp_volumes : PruneCategoryPreview; pp_total : Z }.

Definition zeroCategory : PruneCategoryPreview := mkCategory 0 0 [].
Definition zeroUsage : usageByObject := mkUsage 0 ∅.
Definition zeroSummary : systemDFSummary := mkDFSummary 0 0 0 0.
Definition ImageUsageAll : string := "all".
Definition ImageUsageUsed : string := "used".
Definition ImageUsageUnused : string := "unused".
Definition SourceStackManaged : string := "stack_managed".
Definition SourceExternal : string := "external".

Record lib := mkLib {
  ToLower : string → string; ToUpper : string → string;
  json_image : string → option (string * string * string);
  json_network : string → option networkRow;
  json_volume : string → option volumeRow;
  json_df : string → option systemDFRow;
  json_images : string → option (list dockerImageInspect);
  json_networks : string → option (list dockerNetworkInspect);
  json_volumes : string → option (list dockerVolumeInspect);
  json_containers : string → option (list dockerContainerInspect);
  (** [int64(parsed * multiplier)] for the number that [ParseFloat] reads. *)
  float_bytes : string → Z → option Z }.

Section maintenance.
Variable L : lib.

(** ** Listings *)

(** The loop over [bufio.Scanner]. *)
Fixpoint scanRows {A} (parse : string → option A) (what : string) (lines : list string) : res maintenance_error (list A) :=
  match lines with
  | [] => Ok []
  | x :: rest =>
    if MaxScanTokenSize <=? slen x then Err (ErrText ("scan docker " +:+ what +:+ " output"))
    else
      let line := trim_space x in
      if str_empty line then scanRows parse what rest
      else match parse line with
      | None => Err (ErrText ("parse docker " +:+ what +:+ " output"))
      | Some a => let? l := scanRows parse what rest in Ok (a :: l)
      end
  end.

(** A command whose failure means that Docker cannot be reached. *)
Definition query (args : list string) : D string :=
  do! c := runCommand args in
  match cmd_err c with Some e => throws (ErrDockerUnavailable e) | None => returns (cmd_output c) end.
Definition listRows {A} (parse : string → option A) (what : string) (args : list string) : D (list A) :=
  do! output := query args in liftRes (scanRows parse what (split output (chr 10))).
Definition inspectAll {A} (parse : string → option (list A)) (what : string) (args : list string) : D (list A) :=
  do! output := query args in
  match parse output with None => throws (ErrText ("parse docker " +:+ what +:+ " output")) | Some l => returns l end.

Definition imageRowOf (raw : string * string * string) : imageRow :=
  let '(id, repository, tag) := raw in mkImageRow id repository tag (if str_empty tag then repository else repository +:+ ":" +:+ tag).
Definition listImages : D (list imageRow) :=
  listRows (λ line, imageRowOf <$> json_image L line) "image ls" ["image"; "ls"; "--all"; "--no-trunc"; "--format"; "{{json .}}"].
Definition listNetworks : D (list networkRow) := listRows (json_network L) "network ls" ["network"; "ls"; "--no-trunc"; "--format"; "{{json .}}"].
Definition listVolumes : D (list volumeRow) := listRows (json_volume L) "volume ls" ["volume"; "ls"; "--format"; "{{json .}}"].

(** The first occurrence of each value. *)
Fixpoint firsts (seen : gset string) (l : list string) : list string :=
  match l with [] => [] | x :: rest => if decide (x ∈ seen) then firsts seen rest else x :: firsts ({[x]} ∪ seen) rest end.
Definition uniqueImageIDs (rows : list imageRow) : list string := firsts ∅ (ir_id <$> rows).
Definition uniqueNetworkIDs (rows : list networkRow) : list string := firsts ∅ (nr_id <$> rows).
Definition uniqueVolumeNames (rows : list volumeRow) : list string := firsts ∅ (vr_name <$> rows).

Definition index_by {A} (key : A → string) (l : list A) : gmap string A := foldl (λ m a, <[key a := a]> m) ∅ l.
Definition inspectImages (ids : list string) : D (gmap string imageMeta) :=
  match ids with
  | [] => returns ∅
  | _ =>
    do! inspected := inspectAll (json_images L) "image inspect" (["image"; "inspect"] ++ ids) in
    returns (index_by im_id ((λ i, mkImageMeta (di_id i) (default zero_time (parse_rfc3339nano (di_created i))) (di_size i)) <$> inspected))
  end.
Definition inspectNetworks (ids : list string) : D (gmap string dockerNetworkInspect) :=
  match ids with
  | [] => returns ∅
  | _ => do! inspected := inspectAll (json_networks L) "network inspect" (["network"; "inspect"] ++ ids) in returns (index_by dn_id inspected)
  end.
Definition inspectVolumes (names : list string) : D (gmap string dockerVolumeInspect) :=
  match names with
  | [] => returns ∅
  | _ => do! inspected := inspectAll (json_volumes L) "volume inspect" (["volume"; "inspect"] ++ names) in returns (index_by dv_name inspected)
  end.

Definition inspectAllContainers : D (list dockerContainerInspect) :=
  do! output := query ["ps"; "-aq"] in
  match Fields (trim_space output) with
  | [] => returns []
  | ids => inspectAll (json_containers L) "inspect" (["inspect"] ++ ids)
  end.

(** ** Who uses what *)

Definition label (labels : gmap string string) (key : string) : string := default "" (labels !! key).
Definition composeProject : string := "com.docker.compose.project".
Definition composeService : string := "com.docker.compose.service".
Definition managedStackIDSet (managedStackIDs : list string) : gset string := list_to_set managedStackIDs.

Definition addUsageStackService (usage : usageByObject) (stackID serviceName : string) : usageByObject :=
  mkUsage (us_count usage) (<[stackID := {[serviceName]} ∪ default ∅ (us_services usage !! stackID)]> (us_services usage)).
(** One more container uses the object. *)
Definition countUse (managed : bool) (project serviceName : string) (m : gmap string usageByObject) (name : string) : gmap string usageByObject :=
  let usage := default zeroUsage (m !! name) in
  let usage := mkUsage (S (us_count usage)) (us_services usage) in
  <[name := if managed then addUsageStackService usage project serviceName else usage]> m.
Definition managedService (managed : gset string) (c : dockerContainerInspect) : bool :=
  bool_decide (label (dc_labels c) composeProject ∈ managed) && negb (str_empty (label (dc_labels c) composeService)).

Definition useImage (managed : gset string) (m : gmap string usageByObject) (c : dockerContainerInspect) : gmap string usageByObject :=
  countUse (managedService managed c) (label (dc_labels c) composeProject) (label (dc_labels c) composeService) m (dc_image c).
Definition containerUsage (managedStackIDs : list string) : D (gmap string usageByObject) :=
  do! containers := inspectAllContainers in returns (foldl (useImage (managedStackIDSet managedStackIDs)) ∅ containers).

Definition volumeMounts (c : dockerContainerInspect) : list string :=
  mt_name <$> filter (λ m, mt_type m = "volume" ∧ mt_name m ≠ "") (dc_mounts c).
Definition useObjects (managed : gset string) (u : objectUsageResult) (c : dockerContainerInspect) : objectUsageResult :=
  let use := countUse (managedService managed c) (label (dc_labels c) composeProject) (label (dc_labels c) composeService) in
  mkObjectUsage (foldl use (ou_networks u) (elements (dc_networks c))) (foldl use (ou_volumes u) (volumeMounts c)).
Definition objectUsage (managedStackIDs : list string) : D objectUsageResult :=
  do! containers := inspectAllContainers in returns (foldl (useObjects (managedStackIDSet managedStackIDs)) (mkObjectUsage ∅ ∅) containers).

Definition usageMapToStackServiceUsage (items : gmap string (gset string)) : list StackServiceUsage :=
  sort_by su_stack ((λ p, mkStackUsage p.1 (sort_strings (elements p.2))) <$> map_to_list items).
Definition labelsToStackUsage (labels : gmap string string) (managedStackIDs : list string) : list StackServiceUsage :=
  let project := trim_space (label labels composeProject) in
  if str_empty project then []
  else if decide (project ∈ managedStackIDSet managedStackIDs) then [mkStackUsage project []] else [].
Definition mergeOne (merged : gmap string (gset string)) (item : StackServiceUsage) : gmap string (gset string) :=
  <[su_stack item := list_to_set (su_services item) ∪ default ∅ (merged !! su_stack item)]> merged.
Definition mergeStackServiceUsage (usages : list (list StackServiceUsage)) : list StackServiceUsage :=
  usageMapToStackServiceUsage (foldl mergeOne ∅ (concat usages)).
Definition stackUsageHaystack (items : list StackServiceUsage) : list string := concat ((λ u, su_stack u :: su_services u) <$> items).
Definition sourceOf (stacksUsing : list StackServiceUsage) : string := match stacksUsing with [] => SourceExternal | _ => SourceStackManaged end.

(** ** Filters and order *)

Definition matchesUsageOrigin (usage origin : string) (isUnused : bool) (source : string) : bool :=
  (if str_in usage [""; ImageUsageAll] then true
   else if str_eqb usage ImageUsageUsed then negb isUnused
   else if str_eqb usage ImageUsageUnused then isUnused else false) &&
  (if str_in origin [""; ImageUsageAll] then true
   else if str_eqb origin SourceStackManaged then str_eqb source SourceStackManaged
   else if str_eqb origin SourceExternal then str_eqb source SourceExternal else false).
Definition matchesInventoryFilters (search : string) (primary : list string) : bool :=
  str_empty search || existsb (λ candidate, contains (ToLower L candidate) search) primary.
Definition matchesImageFilters (item : ImageItem) (usage origin search : string) : bool :=
  matchesUsageOrigin usage origin (ii_unused item) (ii_source item) &&
  matchesInventoryFilters search ([ii_reference item; ii_repository item; ii_tag item] ++ stackUsageHaystack (ii_stacks item)).

(** [sort.Slice] by two keys; items that agree on both are left in the order of
    the rows, which the code does not promise. *)
Definition asc2 {A} (k1 k2 : A → string) : relation A := λ a b, String.le (k1 a) (k1 b) ∧ (k1 a = k1 b → String.le (k2 a) (k2 b)).
#[global] Instance asc2_dec {A} (k1 k2 : A → string) : RelDecision (asc2 k1 k2).
Proof. intros a b. unfold asc2. apply _. Defined.
#[global] Instance asc2_total {A} (k1 k2 : A → string) : Total (asc2 k1 k2).
Proof.
  intros a b. unfold asc2. destruct (decide (k1 a = k1 b)) as [E|E].
  - rewrite E. by destruct (total String.le (k2 a) (k2 b)); [left|right].
  - destruct (total String.le (k1 a) (k1 b)); [left|right]; split; done || congruence.
Qed.

(** ** The inventories *)

Definition searchOf (q : InventoryQuery) : string := ToLower L (trim_space (q_search q)).

Definition imageItem (meta : gmap string imageMeta) (usage : gmap string usageByObject) (row : imageRow) : option ImageItem :=
  match meta !! ir_id row with
  | None => None
  | Some m =>
    let u := default zeroUsage (usage !! ir_id row) in
    let stacksUsing := usageMapToStackServiceUsage (us_services u) in
    Some (mkImageItem (ir_id row) (ir_repository row) (ir_tag row) (ir_reference row) (im_size m) (im_created m) (us_count u) stacksUsing
      (str_eqb (ir_repository row) "<none>" || str_eqb (ir_tag row) "<none>") (us_count u =? 0)%nat (sourceOf stacksUsing))
  end.
Definition Images (q : InventoryQuery) : D (list ImageItem) :=
  do! rows := listImages in
  match rows with
  | [] => returns []
  | _ =>
    do! meta := inspectImages (uniqueImageIDs rows) in
    do! usage := containerUsage (q_managed q) in
    returns (merge_sort (asc2 ii_reference ii_id)
      (filter (λ i, matchesImageFilters i (q_usage q) (q_origin q) (searchOf q)) (omap (imageItem meta usage) rows)))
  end.

Definition networkItem (managed : list string) (meta : gmap string dockerNetworkInspect) (usage : gmap string usageByObject) (row : networkRow) : option NetworkItem :=
  match meta !! nr_id row with
  | None => None
  | Some m =>
    let u := default zeroUsage (usage !! nr_name row) in
    let stacksUsing := mergeStackServiceUsage [usageMapToStackServiceUsage (us_services u); labelsToStackUsage (dn_labels m) managed] in
    Some (mkNetworkItem (nr_id row) (nr_name row) (nr_driver row) (nr_scope row) (dn_internal m) (dn_attachable m) (dn_ingress m) (us_count u) stacksUsing
      (us_count u =? 0)%nat (sourceOf stacksUsing))
  end.
Definition Networks (q : InventoryQuery) : D (list NetworkItem) :=
  do! rows := listNetworks in
  match rows with
  | [] => returns []
  | _ =>
    do! meta := inspectNetworks (uniqueNetworkIDs rows) in
    do! usage := objectUsage (q_managed q) in
    returns (merge_sort (asc2 ni_name ni_id)
      (filter (λ i, matchesInventoryFilters (searchOf q) ([ni_name i; ni_driver i] ++ stackUsageHaystack (ni_stacks i)) &&
                    matchesUsageOrigin (q_usage q) (q_origin q) (ni_unused i) (ni_source i))
        (omap (networkItem (q_managed q) meta (ou_networks usage)) rows)))
  end.

Definition volumeItem (managed : list string) (meta : gmap string dockerVolumeInspect) (usage : gmap string usageByObject) (row : volumeRow) : option VolumeItem :=
  match meta !! vr_name row with
  | None => None
  | Some m =>
    let u := default zeroUsage (usage !! vr_name row) in
    let stacksUsing := mergeStackServiceUsage [usageMapToStackServiceUsage (us_services u); labelsToStackUsage (dv_labels m) managed] in
    Some (mkVolumeItem (vr_name row) (vr_driver row) (dv_mountpoint m) (dv_scope m) (dv_size m) (size (dv_options m)) (us_count u) stacksUsing
      (us_count u =? 0)%nat (sourceOf stacksUsing))
  end.
Definition Volumes (q : InventoryQuery) : D (list VolumeItem) :=
  do! rows := listVolumes in
  match rows with
  | [] => returns []
  | _ =>
    do! meta := inspectVolumes (uniqueVolumeNames rows) in
    do! usage := objectUsage (q_managed q) in
    returns (merge_sort (asc2 vi_name vi_mountpoint)
      (filter (λ i, matchesInventoryFilters (searchOf q) ([vi_name i; vi_driver i; vi_mountpoint i] ++ stackUsageHaystack (vi_stacks i)) &&
                    matchesUsageOrigin (q_usage q) (q_origin q) (vi_unused i) (vi_source i))
        (omap (volumeItem (q_managed q) meta (ou_volumes usage)) rows)))
  end.

(** ** Creation and removal *)

(** [^[A-Za-z0-9][A-Za-z0-9_.-]{0,127}$]. *)
Definition name_byte (c : ascii) : bool := alnum c || Ascii.eqb c "_" || Ascii.eqb c "." || Ascii.eqb c "-".
Definition isValidMaintenanceObjectName (value : string) : bool :=
  match value with EmptyString => false | String c r => alnum c && all_chars name_byte r && (slen r <=? 127) end.
Definition protectedNetworkNames : list string := ["bridge"; "host"; "none"; "ingress"].

Definition dockerMutationError (c : cmdResult) (err : string) : maintenance_error :=
  let message := trim_space (cmd_output c) in
  let message := if str_empty message then err else message in
  let lower := ToLower L message in
  let has := λ texts, existsb (contains lower) texts in
  if has ["executable file not found"; "command not found"] then ErrDockerUnavailable err
  else if has ["already exists"] then ErrAlreadyExists
  else if has ["not found"; "no such network"; "no such volume"] then ErrNotFound
  else if has ["is in use"; "has active endpoints"; "volume is in use"] then ErrObjectInUse
  else ErrText ("docker mutation failed: " +:+ err +:+ ": " +:+ message).
Definition mutate (args : list string) : D unit :=
  do! c := runCommand args in match cmd_err c with Some e => throws (dockerMutationError c e) | None => returns tt end.

(** The answers carry the name that was created or deleted. *)
Definition CreateNetwork (name : string) : D string :=
  let name := trim_space name in
  do! _ := liftRes (guard_err (negb (isValidMaintenanceObjectName name)) ErrInvalidName) in
  do! rows := listNetworks in
  do! _ := liftRes (guard_err (str_in name (nr_name <$> rows)) ErrAlreadyExists) in
  do! _ := mutate ["network"; "create"; name] in
  returns name.

Definition networkByName (name : string) (managedStackIDs : list string) : D NetworkItem :=
  do! networks := Networks (mkInventoryQuery "" ImageUsageAll ImageUsageAll managedStackIDs) in
  match List.find (λ i, str_eqb (ni_name i) name) networks with Some i => returns i | None => throws ErrNotFound end.
Definition DeleteNetwork (name : string) (managedStackIDs : list string) : D string :=
  let name := trim_space name in
  do! _ := liftRes (guard_err (negb (isValidMaintenanceObjectName name)) ErrInvalidName) in
  do! _ := liftRes (guard_err (str_in name protectedNetworkNames) ErrProtectedObject) in
  do! item := networkByName name managedStackIDs in
  do! _ := liftRes (guard_err (negb (str_eqb (ni_source item) SourceExternal)) ErrProtectedObject) in
  do! _ := liftRes (guard_err (negb (ni_unused item)) ErrObjectInUse) in
  do! _ := mutate ["network"; "rm"; name] in
  returns name.

Definition CreateVolume (name : string) : D string :=
  let name := trim_space name in
  do! _ := liftRes (guard_err (negb (isValidMaintenanceObjectName name)) ErrInvalidName) in
  do! rows := listVolumes in
  do! _ := liftRes (guard_err (str_in name (vr_name <$> rows)) ErrAlreadyExists) in
  do! _ := mutate ["volume"; "create"; name] in
  returns name.

Definition volumeByName (name : string) (managedStackIDs : list string) : D VolumeItem :=
  do! volumes := Volumes (mkInventoryQuery "" ImageUsageAll ImageUsageAll managedStackIDs) in
  match List.find (λ i, str_eqb (vi_name i) name) volumes with Some i => returns i | None => throws ErrNotFound end.
Definition DeleteVolume (name : string) (managedStackIDs : list string) : D string :=
  let name := trim_space name in
  do! _ := liftRes (guard_err (negb (isValidMaintenanceObjectName name)) ErrInvalidName) in
  do! item := volumeByName name managedStackIDs in
  do! _ := liftRes (guard_err (negb (str_eqb (vi_source item) SourceExternal)) ErrProtectedObject) in
  do! _ := liftRes (guard_err (negb (vi_unused item)) ErrObjectInUse) in
  do! _ := mutate ["volume"; "rm"; name] in
  returns name.

(** ** Pruning

    The output and the error of a step are both results. *)

Definition newline : string := str1 (chr 10).
Definition stepResult : Type := string * option maintenance_error.

Fixpoint removeVolumes (outputs : list string) (volumes : list VolumeItem) : D stepResult :=
  match volumes with
  | [] => returns (join newline outputs, None)
  | v :: rest =>
    do! c := runCommand ["volume"; "rm"; vi_name v] in
    let trimmed := trim_space (cmd_output c) in
    match cmd_err c with
    | Some e =>
      let trimmed := if str_empty trimmed then e else trimmed in
      returns (join newline (outputs ++ [trimmed]), Some (ErrText trimmed))
    | None => removeVolumes (outputs ++ [if str_empty trimmed then vi_name v else trimmed]) rest
    end
  end.
Definition pruneExternalVolumes (managedStackIDs : list string) : D stepResult :=
  do! volumes := attempts (Volumes (mkInventoryQuery "" ImageUsageUnused SourceExternal managedStackIDs)) in
  match volumes with
  | Err e => returns ("", Some e)
  | Ok [] => returns ("No unused external volumes to remove.", None)
  | Ok volumes => removeVolumes [] volumes
  end.

Definition pruneCommand (args : list string) : D stepResult :=
  do! c := runCommand args in
  let trimmed := trim_space (cmd_output c) in
  match cmd_err c with
  | Some e => let trimmed := if str_empty trimmed then e else trimmed in returns (trimmed, Some (ErrText trimmed))
  | None => returns (trimmed, None)
  end.
Definition RunPruneStep (action : string) (managedStackIDs : list string) : D stepResult :=
  if str_eqb action "prune_images" then pruneCommand ["image"; "prune"; "-af"]
  else if str_eqb action "prune_build_cache" then pruneCommand ["builder"; "prune"; "-af"]
  else if str_eqb action "prune_stopped_containers" then pruneCommand ["container"; "prune"; "-f"]
  else if str_eqb action "prune_volumes" then pruneExternalVolumes managedStackIDs
  else returns ("", Some (ErrText ("unsupported prune action: " +:+ action))).

Definition nonEmptyStrings (values : list string) : list string := filter (λ v, trim_space v ≠ "") values.
Definition RunSystemPrune (includeVolumes : bool) (managedStackIDs : list string) : D stepResult :=
  do! first := pruneCommand ["system"; "prune"; "-af"] in
  let '(trimmed, err) := first in
  match err with
  | Some _ => returns (trimmed, err)
  | None =>
    if negb includeVolumes then returns (trimmed, None)
    else
      do! second := pruneExternalVolumes managedStackIDs in
      let '(volumeOutput, err) := second in
      let combined := trim_space (join newline (nonEmptyStrings [trimmed; volumeOutput])) in
      match err with
      | Some e => returns (if str_empty combined then error_text e else combined, Some e)
      | None => returns (combined, None)
      end
  end.

(** ** The preview *)

Definition sizeUnits : list (string * Z) :=
  [("KIB", 1024); ("MIB", 1024 ^ 2); ("GIB", 1024 ^ 3); ("TIB", 1024 ^ 4); ("PIB", 1024 ^ 5);
   ("KB", 1000); ("MB", 1000 ^ 2); ("GB", 1000 ^ 3); ("TB", 1000 ^ 4); ("PB", 1000 ^ 5); ("B", 1)].
(** The callers ignore the errors and use 0. *)
Definition parseDockerSize (value : string) : Z :=
  let trimmed := trim_space value in
  if str_in trimmed [""; "0"; "0B"] then 0
  else
    let upper := ToUpper L trimmed in
    match List.find (λ u, has_suffix upper u.1) sizeUnits with
    | None => 0
    | Some (unit, multiplier) => default 0 (float_bytes L (trim_space (str_take (slen upper - slen unit) upper)) multiplier)
    end.
Fixpoint until_paren (s : string) : string :=
  match s with EmptyString => EmptyString | String c r => if Ascii.eqb c "(" then EmptyString else String c (until_paren r) end.
Definition parseDockerReclaimable (value : string) : Z := parseDockerSize (trim_space (until_paren (trim_space value))).

(** [strconv.Atoi] with its error ignored: a number out of range is clamped. *)
Definition atoi_value (s : string) : Z :=
  match atoi s with
  | Some v => v
  | None =>
    let body := λ neg r, match r with
      | EmptyString => 0
      | _ => match digits_val 0 r with Some _ => if (neg : bool) then min_int64 else max_int64 | None => 0 end
      end in
    match s with
    | EmptyString => 0
    | String c r => if Ascii.eqb c "-" then body true r else if Ascii.eqb c "+" then body false r else body false s
    end
  end.
Definition systemDF : D (gmap string systemDFSummary) :=
  do! rows := listRows (json_df L) "system df" ["system"; "df"; "--format"; "{{json .}}"] in
  returns (foldl (λ m row, <[ToLower L (trim_space (df_type row)) :=
    mkDFSummary (atoi_value (trim_space (df_total row))) (atoi_value (trim_space (df_active row)))
      (parseDockerSize (df_size row)) (parseDockerReclaimable (df_reclaimable row))]> m) ∅ rows).
Definition previewFromSystemDF (summary : systemDFSummary) : PruneCategoryPreview := mkCategory (TotalCount summary) (ReclaimableBytes summary) [].

Definition totalBytes (items : list PrunePreviewItem) : Z := foldl (λ total i, wrap64 (total + pi_size i)) 0 items.
(** The first item of each id. *)
Fixpoint firstsBy {A} (key : A → string) (seen : gset string) (l : list A) : list A :=
  match l with [] => [] | x :: rest => if decide (key x ∈ seen) then firstsBy key seen rest else x :: firstsBy key ({[key x]} ∪ seen) rest end.
Definition buildImagePrunePreview (items : list ImageItem) : PruneCategoryPreview :=
  let previewItems := (λ i, mkPreviewItem (ii_reference i) (ii_size i) "unused_image") <$> firstsBy ii_id ∅ items in
  mkCategory (Z.of_nat (length previewItems)) (totalBytes previewItems) (sort_by pi_reference previewItems).
Definition buildVolumePrunePreview (items : list VolumeItem) (fallback : systemDFSummary) : PruneCategoryPreview :=
  let previewItems := (λ i, mkPreviewItem (vi_name i) (vi_size i) "unused_external_volume") <$> firstsBy vi_name ∅ items in
  let total := totalBytes previewItems in
  let total := if (total =? 0) && negb (bool_decide (previewItems = [])) then ReclaimableBytes fallback else total in
  mkCategory (Z.of_nat (length previewItems)) total (sort_by pi_reference previewItems).

Definition stoppedPreview (summary : systemDFSummary) : PruneCategoryPreview :=
  let p := previewFromSystemDF summary in
  mkCategory (if Active summary <? pc_count p then wrap64 (pc_count p - Active summary) else 0) (pc_bytes p) (pc_items p).
Definition PrunePreview (q : PrunePreviewQuery) : D PrunePreviewResult :=
  do! df := systemDF in
  let summary := λ key, default zeroSummary (df !! key) in
  do! images := (if pq_images q
    then do! images := Images (mkInventoryQuery "" ImageUsageUnused ImageUsageAll (pq_managed q)) in returns (buildImagePrunePreview images)
    else returns zeroCategory) in
  let cache := if pq_cache q then previewFromSystemDF (summary "build cache") else zeroCategory in
  let containers := if pq_containers q then stoppedPreview (summary "containers") else zeroCategory in
  do! volumes := (if pq_volumes q
    then do! volumes := Volumes (mkInventoryQuery "" ImageUsageUnused SourceExternal (pq_managed q)) in
         returns (buildVolumePrunePreview volumes (summary "local volumes"))
    else returns zeroCategory) in
  returns (mkPreview images cache containers volumes
    (wrap64 (pc_bytes images + pc_bytes cache + pc_bytes containers + pc_bytes volumes))).
End maintenance.

(** ** Removal is safe *)

(** Commands that remove something. *)
Definition destructive (args : list string) : bool :=
  match args with
  | object :: rest =>
    str_in object ["rm"; "rmi"; "kill"; "stop"; "compose"] ||
    match rest with
    | verb :: _ => str_in object ["volume"; "network"; "image"; "container"; "builder"; "system"] && (str_eqb verb "rm" || str_eqb verb "prune")
    | [] => false
    end
  | [] => false
  end.

(** The commands of an operation, and that none of them removes anything. *)
Definition issues (d d' : docker) (new : list (list string)) : Prop :=
  d_run d' = d_run d ∧ d_calls d' = d_calls d ++ new ∧ d_now d' = (d_now d + length new)%nat.
Definition reading (d d' : docker) : Prop := ∃ new, issues d d' new ∧ Forall (λ a, destructive a = false) new.

Lemma issues_nil d : issues d d [].
Proof. unfold issues. rewrite app_nil_r. cbn. split_and!; [done..|lia]. Qed.
Lemma issues_app d d1 d2 l1 l2 : issues d d1 l1 → issues d1 d2 l2 → issues d d2 (l1 ++ l2).
Proof. intros (R1 & C1 & N1) (R2 & C2 & N2). unfold issues. rewrite R2, C2, N2, R1, C1, N1, length_app, app_assoc. split_and!; [done..|lia]. Qed.

#[global] Instance reading_refl : Reflexive reading.
Proof. intros d. exists []. split; [apply issues_nil|constructor]. Qed.
#[global] Instance reading_trans : Transitive reading.
Proof. intros d1 d2 d3 (l1 & H1 & F1) (l2 & H2 & F2). exists (l1 ++ l2). split; [by eapply issues_app|by apply Forall_app]. Qed.

Lemma runCommand_issues args d r d' : runCommand args d = (r, d') → r = Ok (d_run d (d_now d) args) ∧ issues d d' [args].
Proof. intros [= <- <-]. split; [done|]. unfold issues. cbn. split_and!; [done..|lia]. Qed.

Lemma runCommand_reading args : destructive args = false → keeps reading (runCommand args).
Proof. intros Hd d r d' [_ H]%runCommand_issues. exists [args]. split; [done|]. by apply Forall_singleton. Qed.
Lemma query_reading args : destructive args = false → keeps reading (query args).
Proof. intros Hd. apply keeps_andThen; [apply _|by apply runCommand_reading|]. intros c. case_match; [apply keeps_throws|apply keeps_returns]; apply _. Qed.

Lemma query_inv args d out d' : query args d = (Ok out, d') → d_run d (d_now d) args = mkCmd out None ∧ issues d d' [args].
Proof.
  intros [(e & _ & ?)|(c & d1 & H & Hk)]%andThen_inv; [done|]. apply runCommand_issues in H as [[= ->] Hi].
  destruct (d_run d (d_now d) args) as [o [e|]]; cbn in Hk; [done|]. by injection Hk as <- <-.
Qed.

Lemma listRows_reading {A} (parse : string → option A) what args : destructive args = false → keeps reading (listRows parse what args).
Proof. intros H. apply keeps_andThen; [apply _|by apply query_reading|]. intros ?. apply keeps_liftRes, _. Qed.
Lemma inspectAll_reading {A} (parse : string → option (list A)) what args : destructive args = false → keeps reading (inspectAll parse what args).
Proof. intros H. apply keeps_andThen; [apply _|by apply query_reading|]. intros ?. case_match; [apply keeps_returns, _|apply keeps_throws, _]. Qed.

(** The commands of the listings remove nothing. *)
Ltac reads :=
  repeat first [ apply query_reading; reflexivity | apply listRows_reading; reflexivity | apply inspectAll_reading; reflexivity
               | apply keeps_returns; exact reading_refl | apply keeps_throws; exact reading_refl | apply keeps_liftRes; exact reading_refl
               | solve [eauto with effects nocore] | apply keeps_andThen; [exact reading_trans| |intros ?] | apply keeps_attempts | progress case_match ].

Section facts.
Variable L : lib.

Lemma inspectAllContainers_reading : keeps reading (inspectAllContainers L).
Proof using. unfold inspectAllContainers. reads. Qed.
Lemma objectUsage_reading managed : keeps reading (objectUsage L managed).
Proof using. unfold objectUsage. pose proof inspectAllContainers_reading. reads. Qed.
Lemma Images_reading q : keeps reading (Images L q).
Proof using. unfold Images, listImages, inspectImages, containerUsage. pose proof inspectAllContainers_reading. reads. Qed.
Lemma Networks_reading q : keeps reading (Networks L q).
Proof using. unfold Networks, listNetworks, inspectNetworks. pose proof objectUsage_reading. reads. Qed.
Lemma Volumes_reading q : keeps reading (Volumes L q).
Proof using. unfold Volumes, listVolumes, inspectVolumes. pose proof objectUsage_reading. reads. Qed.
Lemma systemDF_reading : keeps reading (systemDF L).
Proof using. unfold systemDF. reads. Qed.
Lemma PrunePreview_reading q : keeps reading (PrunePreview L q).
Proof using. unfold PrunePreview. pose proof systemDF_reading. pose proof Images_reading. pose proof Volumes_reading. reads. Qed.

(** How often the containers use an object. *)
Definition uses (m : gmap string usageByObject) (name : string) : nat := us_count (default zeroUsage (m !! name)).

Lemma uses_countUse b p s m x n : uses (countUse b p s m x) n = if decide (n = x) then S (uses m n) else uses m n.
Proof using.
  unfold uses, countUse. destruct (decide (n = x)) as [->|Hne]; [rewrite lookup_insert_eq|by rewrite lookup_insert_ne]. by destruct b.
Qed.
Lemma uses_fold b p s names m n : (uses m n ≤ uses (foldl (countUse b p s) m names) n)%nat ∧ (n ∈ names → 0 < uses (foldl (countUse b p s) m names) n)%nat.
Proof using.
  revert m. induction names as [|x names IH]; intros m; cbn; [split; [done|by intros ?%elem_of_nil]|].
  destruct (IH (countUse b p s m x)) as [H1 H2]. rewrite uses_countUse in H1. split; [destruct (decide (n = x)); lia|].
  intros [->|Hin]%elem_of_cons; [|by apply H2]. rewrite decide_True in H1 by done. lia.
Qed.

(** An object with no use is not used by any of the containers. *)
Lemma useObjects_zero managed cs u n :
  let u' := foldl (useObjects managed) u cs in
  (uses (ou_volumes u') n = 0%nat → uses (ou_volumes u) n = 0%nat ∧ ∀ c, c ∈ cs → n ∉ volumeMounts c) ∧
  (uses (ou_networks u') n = 0%nat → uses (ou_networks u) n = 0%nat ∧ ∀ c, c ∈ cs → n ∉ dc_networks c).
Proof using.
  revert u. induction cs as [|c cs IH]; intros u; cbn; [by split; intros H; split; [done|intros c ?%elem_of_nil|done|intros c ?%elem_of_nil]|].
  destruct (IH (useObjects managed u c)) as [Hv Hn]. split; intros H.
  - destruct (Hv H) as [H0 Hcs]. cbn in H0.
    destruct (uses_fold (managedService managed c) (label (dc_labels c) composeProject) (label (dc_labels c) composeService) (volumeMounts c) (ou_volumes u) n) as [Hle Hin].
    split; [lia|]. intros x [->|Hx]%elem_of_cons; [|by apply Hcs]. intros Hi%Hin. lia.
  - destruct (Hn H) as [H0 Hcs]. cbn in H0.
    destruct (uses_fold (managedService managed c) (label (dc_labels c) composeProject) (label (dc_labels c) composeService) (elements (dc_networks c)) (ou_networks u) n) as [Hle Hin].
    split; [lia|]. intros x [->|Hx]%elem_of_cons; [|by apply Hcs]. intros Hi. apply elem_of_elements, Hin in Hi. lia.
Qed.

(** An external object carries no label of a managed stack. *)
Lemma mergeOne_empty l m : foldl mergeOne m l = ∅ → l = [] ∧ m = ∅.
Proof using.
  revert m. induction l as [|x l IH]; intros m H; [done|]. destruct (IH _ H) as [_ Hm]. unfold mergeOne in Hm. by apply insert_non_empty in Hm.
Qed.
Lemma usageMap_nil m : usageMapToStackServiceUsage m = [] → m = ∅.
Proof using.
  unfold usageMapToStackServiceUsage. intros H. assert (length ((λ p : string * gset string, mkStackUsage p.1 (sort_strings (elements p.2))) <$> map_to_list m) = 0%nat) as Hl
    by (rewrite <- (Permutation_length (sort_by_perm su_stack _)), H; done).
  rewrite length_fmap, length_map_to_list in Hl. by apply map_size_empty_iff.
Qed.
Lemma source_external u labels managed : sourceOf (mergeStackServiceUsage [u; labelsToStackUsage labels managed]) = SourceExternal → trim_space (label labels composeProject) ∉ managed ∨ trim_space (label labels composeProject) = "".
Proof using.
  destruct (mergeStackServiceUsage _) eqn:E; [intros _|done]. apply usageMap_nil, mergeOne_empty in E as [E _]. cbn in E. rewrite app_nil_r in E.
  apply app_eq_nil in E as [_ E]. unfold labelsToStackUsage in E. destruct (str_empty _) eqn:Es; [right; by boolify|]. case_decide as Hd; [done|]. left.
  unfold managedStackIDSet in Hd. by rewrite elem_of_list_to_set in Hd.
Qed.

(** ** What an operation has seen before it removes something *)

(** The containers that two commands from moment [t] on reported. *)
Definition seenContainers (run : nat → list string → cmdResult) (t : nat) (cs : list dockerContainerInspect) : Prop :=
  ∃ out, run t ["ps"; "-aq"] = mkCmd out None ∧
  match Fields (trim_space out) with
  | [] => cs = []
  | ids => ∃ out', run (S t) ("inspect" :: ids) = mkCmd out' None ∧ json_containers L out' = Some cs
  end.
(** The description of a volume, of a network, that a command at [t] reported. *)
Definition seenVolume (run : nat → list string → cmdResult) (t : nat) (m : dockerVolumeInspect) : Prop :=
  ∃ names out l, run t (["volume"; "inspect"] ++ names) = mkCmd out None ∧ json_volumes L out = Some l ∧ m ∈ l.
Definition seenNetwork (run : nat → list string → cmdResult) (t : nat) (m : dockerNetworkInspect) : Prop :=
  ∃ ids out l, run t (["network"; "inspect"] ++ ids) = mkCmd out None ∧ json_networks L out = Some l ∧ m ∈ l.

Definition listedNetwork (run : nat → list string → cmdResult) (t : nat) (name id : string) : Prop :=
  ∃ out rows, run t ["network"; "ls"; "--no-trunc"; "--format"; "{{json .}}"] = mkCmd out None ∧
    scanRows (json_network L) "network ls" (split out (chr 10)) = Ok rows ∧ ∃ row, row ∈ rows ∧ nr_name row = name ∧ nr_id row = id.

Definition unmanaged (managed : list string) (labels : gmap string string) : Prop :=
  trim_space (label labels composeProject) ∉ managed ∨ trim_space (label labels composeProject) = "".
(** The volume is known, belongs to no managed stack and no container mounts it. *)
Definition volumeFree (run : nat → list string → cmdResult) (t0 t1 : nat) (managed : list string) (name : string) : Prop :=
  (∃ t m, (t0 ≤ t < t1)%nat ∧ seenVolume run t m ∧ dv_name m = name ∧ unmanaged managed (dv_labels m)) ∧
  (∃ t cs, (t0 ≤ t < t1)%nat ∧ seenContainers run t cs ∧ ∀ c, c ∈ cs → name ∉ volumeMounts c).
Definition networkFree (run : nat → list string → cmdResult) (t0 t1 : nat) (managed : list string) (name : string) : Prop :=
  (∃ t t' m, (t0 ≤ t < t1)%nat ∧ (t0 ≤ t' < t1)%nat ∧ listedNetwork run t name (dn_id m) ∧ seenNetwork run t' m ∧ unmanaged managed (dn_labels m)) ∧
  (∃ t cs, (t0 ≤ t < t1)%nat ∧ seenContainers run t cs ∧ ∀ c, c ∈ cs → name ∉ dc_networks c).

Lemma index_by_elem {A} (key : A → string) l k a : index_by key l !! k = Some a → a ∈ l ∧ key a = k.
Proof using.
  unfold index_by. assert (∀ m : gmap string A, foldl (λ m a, <[key a := a]> m) m l !! k = Some a → (a ∈ l ∧ key a = k) ∨ m !! k = Some a) as H.
  { induction l as [|x l IH]; intros m Hm; cbn in Hm; [by right|]. destruct (IH _ Hm) as [[Hin Hk]|Hm']; [left; split; [by right|done]|].
    destruct (decide (key x = k)) as [<-|Hne]; [rewrite lookup_insert_eq in Hm'; injection Hm' as <-; left; split; [by left|done]|].
    rewrite lookup_insert_ne in Hm' by done. by right. }
  intros Hl. apply H in Hl as [?|Hl]; [done|]. by rewrite lookup_empty in Hl.
Qed.

Lemma inspectAll_inv {A} (parse : string → option (list A)) what args d l d' : inspectAll parse what args d = (Ok l, d') →
  issues d d' [args] ∧ ∃ out, d_run d (d_now d) args = mkCmd out None ∧ parse out = Some l.
Proof using.
  intros [(e & _ & ?)|(out & d1 & H & Hk)]%andThen_inv; [done|]. apply query_inv in H as [Hr Hi]. destruct (parse out) eqn:E; [|done].
  injection Hk as <- <-. eauto.
Qed.
Lemma listRows_inv {A} (parse : string → option A) what args d l d' : listRows parse what args d = (Ok l, d') →
  issues d d' [args] ∧ ∃ out, d_run d (d_now d) args = mkCmd out None ∧ scanRows parse what (split out (chr 10)) = Ok l.
Proof using.
  intros [(e & _ & ?)|(out & d1 & H & Hk)]%andThen_inv; [done|]. apply query_inv in H as [Hr Hi]. injection Hk as Hs <-. eauto.
Qed.

Lemma inspectAllContainers_inv d cs d' : inspectAllContainers L d = (Ok cs, d') →
  seenContainers (d_run d) (d_now d) cs ∧ ∃ new, issues d d' new ∧ new ≠ [].
Proof using.
  intros [(e & _ & ?)|(out & d1 & H & Hk)]%andThen_inv; [done|]. apply query_inv in H as [Hr Hi]. unfold seenContainers. destruct (Fields (trim_space out)) as [|id ids] eqn:E.
  - injection Hk as <- <-. split; [exists out; by rewrite E|eauto].
  - apply inspectAll_inv in Hk as [Hi' (out' & Hr' & Hp)]. pose proof (issues_app _ _ _ _ _ Hi Hi'). destruct Hi as (Hrun & _ & Hnow). split; [|eauto].
    exists out. split; [done|]. rewrite E. exists out'. rewrite Hrun, Hnow, Nat.add_1_r in Hr'. done.
Qed.

Lemma objectUsage_inv managed d u d' : objectUsage L managed d = (Ok u, d') →
  ∃ cs, seenContainers (d_run d) (d_now d) cs ∧ u = foldl (useObjects (managedStackIDSet managed)) (mkObjectUsage ∅ ∅) cs ∧ ∃ new, issues d d' new ∧ new ≠ [].
Proof using.
  intros [(e & _ & ?)|(cs & d1 & H & Hk)]%andThen_inv; [done|]. injection Hk as <- <-. apply inspectAllContainers_inv in H as [Hs Hn]. eauto.
Qed.

(** Every volume of the inventory that is unused and external may be removed. *)
Lemma Volumes_free q d items d' : Volumes L q d = (Ok items, d') →
  ∀ i, i ∈ items → vi_unused i = true → vi_source i = SourceExternal → volumeFree (d_run d) (d_now d) (d_now d') (q_managed q) (vi_name i).
Proof using.
  intros [(e & _ & ?)|(rows & d1 & Hl & Hk)]%andThen_inv i Hin Hu Hs; [done|]. apply listRows_inv in Hl as [Hi1 _].
  destruct rows as [|row rows]; [injection Hk as <- _; by apply elem_of_nil in Hin|]. remember (row :: rows) as all eqn:Eall. clear Eall row rows.
  apply andThen_inv in Hk as [(e & _ & ?)|(meta & d2 & Hm & Hk)]; [done|]. apply andThen_inv in Hk as [(e & _ & ?)|(u & d3 & Hou & Hk)]; [done|]. injection Hk as <- <-.
  rewrite merge_sort_Permutation in Hin. apply list_elem_of_filter in Hin as [_ Hin]. apply list_elem_of_omap in Hin as (r & _ & Hr). unfold volumeItem in Hr.
  destruct (meta !! vr_name r) as [m|] eqn:Em; [|done]. injection Hr as <-. cbn in *. apply Nat.eqb_eq in Hu.
  apply objectUsage_inv in Hou as (cs & Hcs & -> & new3 & Hi3 & Hne). unfold inspectVolumes in Hm. destruct (uniqueVolumeNames all) as [|nm names] eqn:En.
  { exfalso. injection Hm as <- _. by rewrite lookup_empty in Em. }
  apply andThen_inv in Hm as [(e & _ & ?)|(l & d2' & Hm & Hk)]; [done|]. injection Hk as <- <-. apply inspectAll_inv in Hm as [Hi2 (out & Hr2 & Hp)].
  apply index_by_elem in Em as [Hml Hmn]. destruct Hi1 as (R1 & _ & N1), Hi2 as (R2 & _ & N2), Hi3 as (R3 & _ & N3). cbn in N1, N2.
  assert (length new3 ≠ 0%nat) by (by destruct new3). split.
  - exists (d_now d1), m. split; [lia|]. rewrite <- R1. split; [exists (nm :: names), out, l; done|]. split; [done|]. by apply (source_external _ _ _ Hs).
  - exists (d_now d2'), cs. split; [lia|]. rewrite <- R1, <- R2. split; [done|]. by apply (useObjects_zero (managedStackIDSet (q_managed q)) cs (mkObjectUsage ∅ ∅) (vr_name r)).
Qed.

Lemma Networks_free q d items d' : Networks L q d = (Ok items, d') →
  ∀ i, i ∈ items → ni_unused i = true → ni_source i = SourceExternal → networkFree (d_run d) (d_now d) (d_now d') (q_managed q) (ni_name i).
Proof using.
  intros [(e & _ & ?)|(rows & d1 & Hl & Hk)]%andThen_inv i Hin Hu Hs; [done|]. apply listRows_inv in Hl as [Hi1 (out1 & Hr1 & Hsc)].
  destruct rows as [|row rows]; [injection Hk as <- _; by apply elem_of_nil in Hin|]. remember (row :: rows) as all eqn:Eall. clear Eall row rows.
  apply andThen_inv in Hk as [(e & _ & ?)|(meta & d2 & Hm & Hk)]; [done|]. apply andThen_inv in Hk as [(e & _ & ?)|(u & d3 & Hou & Hk)]; [done|]. injection Hk as <- <-.
  rewrite merge_sort_Permutation in Hin. apply list_elem_of_filter in Hin as [_ Hin]. apply list_elem_of_omap in Hin as (r & Hrow & Hr). unfold networkItem in Hr.
  destruct (meta !! nr_id r) as [m|] eqn:Em; [|done]. injection Hr as <-. cbn in *. apply Nat.eqb_eq in Hu.
  apply objectUsage_inv in Hou as (cs & Hcs & -> & new3 & Hi3 & Hne). unfold inspectNetworks in Hm. destruct (uniqueNetworkIDs all) as [|nm names] eqn:En.
  { exfalso. injection Hm as <- _. by rewrite lookup_empty in Em. }
  apply andThen_inv in Hm as [(e & _ & ?)|(l & d2' & Hm & Hk)]; [done|]. injection Hk as <- <-. apply inspectAll_inv in Hm as [Hi2 (out & Hr2 & Hp)].
  apply index_by_elem in Em as [Hml Hmn]. destruct Hi1 as (R1 & _ & N1), Hi2 as (R2 & _ & N2), Hi3 as (R3 & _ & N3). cbn in N1, N2.
  assert (length new3 ≠ 0%nat) by (by destruct new3). split.
  - exists (d_now d), (d_now d1), m. split; [lia|]. split; [lia|]. split; [exists out1, all; eauto 10|]. rewrite <- R1. split; [exists (nm :: names), out, l; done|].
    by apply (source_external _ _ _ Hs).
  - exists (d_now d2'), cs. split; [lia|]. rewrite <- R1, <- R2. split; [done|]. by apply (useObjects_zero (managedStackIDSet (q_managed q)) cs (mkObjectUsage ∅ ∅) (nr_name r)).
Qed.

(** ** Every operation *)

Inductive operation :=
| OpImages (q : InventoryQuery)
| OpNetworks (q : InventoryQuery)
| OpVolumes (q : InventoryQuery)
| OpCreateNetwork (name : string)
| OpDeleteNetwork (name : string) (managed : list string)
| OpCreateVolume (name : string)
| OpDeleteVolume (name : string) (managed : list string)
| OpPrunePreview (q : PrunePreviewQuery)
| OpPruneStep (action : string) (managed : list string)
| OpSystemPrune (includeVolumes : bool) (managed : list string).

Definition perform (op : operation) (d : docker) : docker :=
  match op with
  | OpImages q => snd (Images L q d)
  | OpNetworks q => snd (Networks L q d)
  | OpVolumes q => snd (Volumes L q d)
  | OpCreateNetwork name => snd (CreateNetwork L name d)
  | OpDeleteNetwork name managed => snd (DeleteNetwork L name managed d)
  | OpCreateVolume name => snd (CreateVolume L name d)
  | OpDeleteVolume name managed => snd (DeleteVolume L name managed d)
  | OpPrunePreview q => snd (PrunePreview L q d)
  | OpPruneStep action managed => snd (RunPruneStep L action managed d)
  | OpSystemPrune includeVolumes managed => snd (RunSystemPrune L includeVolumes managed d)
  end.

(** The managed stacks of an operation that may remove a volume or a network, and
    the prune command it stands for. *)
Definition removesVolumes (op : operation) : option (list string) :=
  match op with
  | OpDeleteVolume _ managed => Some managed
  | OpPruneStep action managed => if str_eqb action "prune_volumes" then Some managed else None
  | OpSystemPrune includeVolumes managed => if includeVolumes then Some managed else None
  | _ => None
  end.
Definition removesNetworks (op : operation) : option (list string) := match op with OpDeleteNetwork _ managed => Some managed | _ => None end.
Definition pruneOf (op : operation) : option (list string) :=
  match op with
  | OpPruneStep action _ =>
    if str_eqb action "prune_images" then Some ["image"; "prune"; "-af"]
    else if str_eqb action "prune_build_cache" then Some ["builder"; "prune"; "-af"]
    else if str_eqb action "prune_stopped_containers" then Some ["container"; "prune"; "-f"] else None
  | OpSystemPrune _ _ => Some ["system"; "prune"; "-af"]
  | _ => None
  end.
Definition permitted (op : operation) (run : nat → list string → cmdResult) (t0 t1 : nat) (args : list string) : Prop :=
  (∃ managed name, removesVolumes op = Some managed ∧ args = ["volume"; "rm"; name] ∧ volumeFree run t0 t1 managed name) ∨
  (∃ managed name, removesNetworks op = Some managed ∧ args = ["network"; "rm"; name] ∧ (name ∉ protectedNetworkNames) ∧ networkFree run t0 t1 managed name) ∨
  pruneOf op = Some args.

(** Every removing command of the step from [d] to [d'] is permitted by what was
    seen before it. *)
Definition careful (op : operation) (d d' : docker) : Prop :=
  ∃ new, issues d d' new ∧ ∀ i args, new !! i = Some args → destructive args = true → permitted op (d_run d) (d_now d) (d_now d + i) args.

Lemma reading_careful op d d' : reading d d' → careful op d d'.
Proof using.
  intros (new & Hi & Hf). exists new. split; [done|]. intros i args Hn Hd. rewrite Forall_lookup in Hf. by rewrite (Hf _ _ Hn) in Hd.
Qed.
Lemma permitted_wider op run a b t0 t1 args : (t0 ≤ a)%nat → (b ≤ t1)%nat → permitted op run a b args → permitted op run t0 t1 args.
Proof using.
  intros Ha Hb [(M & n & ? & ? & (t & m & ? & ?) & (t' & cs & ? & ?))|[(M & n & ? & ? & ? & (t & t' & m & ? & ? & ?) & (t'' & cs & ? & ?))|?]]; [left|right; left|by right; right].
  - exists M, n. split_and!; [done..|]. split; [exists t, m|exists t', cs]; (split; [lia|done]).
  - exists M, n. split_and!; [done..|]. split; [exists t, t', m; split; [lia|]; split; [lia|done]|exists t'', cs; split; [lia|done]].
Qed.
(** Commands that are permitted once the reading is done. *)
Lemma careful_then op d d1 d2 cmds : reading d d1 → issues d1 d2 cmds →
  (∀ args, args ∈ cmds → destructive args = true → permitted op (d_run d) (d_now d) (d_now d1) args) → careful op d d2.
Proof using.
  intros (new & Hi & Hf) Hc Hp. exists (new ++ cmds). split; [by eapply issues_app|]. intros i args Hn Hd. apply lookup_app_Some in Hn as [Hn|[Hle Hn]].
  - rewrite Forall_lookup in Hf. by rewrite (Hf _ _ Hn) in Hd.
  - destruct Hi as (_ & _ & N1). apply list_elem_of_lookup_2 in Hn. eapply permitted_wider; [| |by apply Hp]; lia.
Qed.
Lemma careful_first op d d1 d2 args : issues d d1 [args] → (destructive args = true → permitted op (d_run d) (d_now d) (d_now d) args) → careful op d1 d2 → careful op d d2.
Proof using.
  intros Hi Hp (new & Hi2 & Hnew). exists (args :: new). split; [by apply (issues_app _ d1 _ [args])|]. destruct Hi as (R & _ & N). intros [|i] a Ha Hd; cbn in Ha.
  - injection Ha as <-. rewrite Nat.add_0_r. by apply Hp.
  - specialize (Hnew i a Ha Hd). rewrite R, N in Hnew. eapply permitted_wider; [| |exact Hnew]; cbn; lia.
Qed.

Lemma Volumes_matches q d items d' i : Volumes L q d = (Ok items, d') → i ∈ items → matchesUsageOrigin (q_usage q) (q_origin q) (vi_unused i) (vi_source i) = true.
Proof using.
  intros [(e & _ & ?)|(rows & d1 & _ & Hk)]%andThen_inv Hin; [done|]. destruct rows as [|row rows]; [injection Hk as <- _; by apply elem_of_nil in Hin|].
  apply andThen_inv in Hk as [(e & _ & ?)|(meta & d2 & _ & Hk)]; [done|]. apply andThen_inv in Hk as [(e & _ & ?)|(u & d3 & _ & Hk)]; [done|].
  remember (row :: rows) as all. injection Hk as <- <-. rewrite merge_sort_Permutation in Hin. apply list_elem_of_filter in Hin as [Hm _].
  apply andb_prop_elim in Hm as [_ Hm]. by apply Is_true_true.
Qed.

Lemma mutate_issues args d r d' : mutate L args d = (r, d') → issues d d' [args].
Proof using.
  intros [(e & H & _)|(c & d1 & H & Hk)]%andThen_inv; apply runCommand_issues in H as [H Hi]; [done|]. destruct (cmd_err c); by injection Hk as _ <-.
Qed.
Lemma pruneCommand_issues args d r d' : pruneCommand args d = (r, d') → issues d d' [args].
Proof using.
  intros [(e & H & _)|(c & d1 & H & Hk)]%andThen_inv; apply runCommand_issues in H as [H Hi]; [done|]. destruct (cmd_err c); by injection Hk as _ <-.
Qed.
Lemma removeVolumes_issues volumes outputs d r d' : removeVolumes outputs volumes d = (r, d') →
  ∃ cmds, issues d d' cmds ∧ ∀ args, args ∈ cmds → ∃ v, v ∈ volumes ∧ args = ["volume"; "rm"; vi_name v].
Proof using.
  revert outputs d. induction volumes as [|v volumes IH]; intros outputs d H; cbn [removeVolumes] in H.
  { injection H as _ <-. exists []. split; [apply issues_nil|by intros ? ?%elem_of_nil]. }
  apply andThen_inv in H as [(e & H & _)|(c & d1 & H & Hk)]; apply runCommand_issues in H as [H Hi]; [done|]. destruct (cmd_err c).
  - injection Hk as _ <-. exists [["volume"; "rm"; vi_name v]]. split; [done|]. intros args ->%list_elem_of_singleton. exists v. split; [by left|done].
  - apply IH in Hk as (cmds & Hi2 & Hc). exists (["volume"; "rm"; vi_name v] :: cmds). split; [by apply (issues_app _ d1 _ [_])|].
    intros args [->|Ha]%elem_of_cons; [exists v; split; [by left|done]|]. destruct (Hc _ Ha) as (x & ? & ?). exists x. split; [by right|done].
Qed.

Lemma pruneExternalVolumes_careful op managed d r d' : removesVolumes op = Some managed → pruneExternalVolumes L managed d = (r, d') → careful op d d'.
Proof using.
  intros Hop [(e & H & _)|(vs & d1 & H & Hk)]%andThen_inv; unfold attempts in H; destruct (Volumes L _ d) as [x d0] eqn:Ev; [done|].
  injection H as <- <-. pose proof (Volumes_reading _ _ _ _ Ev) as Hr. destruct x as [items|e]; [|injection Hk as _ <-; by apply reading_careful].
  destruct items as [|i items]; [injection Hk as _ <-; by apply reading_careful|]. remember (i :: items) as all eqn:E. clear E i items.
  apply removeVolumes_issues in Hk as (cmds & Hi & Hc). eapply careful_then; [exact Hr|exact Hi|]. intros args (v & Hv & ->)%Hc _. left. exists managed, (vi_name v).
  split; [done|]. split; [done|]. pose proof (Volumes_matches _ _ _ _ _ Ev Hv) as Hm. apply andb_prop in Hm as [Hu Ho]. apply (Volumes_free _ _ _ _ Ev); [done|done|].
  revert Ho. change (str_eqb (vi_source v) SourceExternal = true → vi_source v = SourceExternal). intros Ho. by apply bool_decide_eq_true in Ho.
Qed.

Lemma RunPruneStep_careful action managed d r d' : RunPruneStep L action managed d = (r, d') → careful (OpPruneStep action managed) d d'.
Proof using.
  unfold RunPruneStep.
  destruct (str_eqb action "prune_images") eqn:E1; [|destruct (str_eqb action "prune_build_cache") eqn:E2; [|destruct (str_eqb action "prune_stopped_containers") eqn:E3;
    [|destruct (str_eqb action "prune_volumes") eqn:E4]]].
  1,2,3: intros H%pruneCommand_issues; (eapply careful_then; [reflexivity|exact H|]); intros args ->%list_elem_of_singleton _; right; right; cbn [pruneOf]; by rewrite ?E1, ?E2, ?E3.
  - apply pruneExternalVolumes_careful. cbn [removesVolumes]. by rewrite E4.
  - intros Hk. injection Hk as _ <-. by apply reading_careful.
Qed.

Lemma RunSystemPrune_careful includeVolumes managed d r d' : RunSystemPrune L includeVolumes managed d = (r, d') → careful (OpSystemPrune includeVolumes managed) d d'.
Proof using.
  intros [(e & H & _)|([trimmed err] & d1 & H & Hk)]%andThen_inv; apply pruneCommand_issues in H.
  { eapply careful_then; [reflexivity|exact H|]. intros args ->%list_elem_of_singleton _. by right; right. }
  eapply careful_first; [exact H|by right; right|]. destruct err; [injection Hk as _ <-; by apply reading_careful|]. destruct includeVolumes; [|injection Hk as _ <-; by apply reading_careful].
  cbn [negb] in Hk. apply andThen_inv in Hk as [(e & Hp & _)|([o err] & d2 & Hp & Hk)]; apply (pruneExternalVolumes_careful (OpSystemPrune true managed)) in Hp; try done.
  destruct err; by injection Hk as _ <-.
Qed.

(** The guards before a removal only read. *)
Lemma guard_inv {A} fails e (k : unit → D A) d r d' : andThen (liftRes (guard_err fails e)) k d = (r, d') →
  (fails = true ∧ d' = d) ∨ (fails = false ∧ k tt d = (r, d')).
Proof using. intros [(x & H & _)|(u & d1 & H & Hk)]%andThen_inv; destruct fails; injection H as H; subst; auto; [done|]. right. by destruct u. Qed.

Lemma DeleteVolume_careful name managed d r d' : DeleteVolume L name managed d = (r, d') → careful (OpDeleteVolume name managed) d d'.
Proof using.
  unfold DeleteVolume. intros [[_ ->]|[_ H]]%guard_inv; [by apply reading_careful|].
  apply andThen_inv in H as [(e & H & _)|(item & d1 & H & Hk)].
  { apply andThen_inv in H as [(e' & H & _)|(vs & d1 & H & Hk)]; [by apply Volumes_reading, (reading_careful (OpDeleteVolume name managed)) in H|]. apply Volumes_reading, (reading_careful (OpDeleteVolume name managed)) in H.
    destruct (List.find _ vs); by injection Hk as _ <-. }
  apply andThen_inv in H as [(e & _ & ?)|(vs & d1' & Hv & Hf)]; [done|]. destruct (List.find _ vs) as [i|] eqn:Ef; [|done]. injection Hf as -> ->.
  apply find_some in Ef as [Hin Hn]. apply list_elem_of_In in Hin. pose proof (Volumes_reading _ _ _ _ Hv) as Hr.
  apply guard_inv in Hk as [[_ ->]|[Hs Hk]]; [by apply reading_careful|]. apply guard_inv in Hk as [[_ ->]|[Hu Hk]]; [by apply reading_careful|]. apply negb_false_iff in Hs, Hu. boolify.
  apply andThen_inv in Hk as [(e & Hk & _)|(u & d2 & Hk & Hd)]; [|injection Hd as _ <-]; apply mutate_issues in Hk; (eapply careful_then; [exact Hr|exact Hk|]); intros args ->%list_elem_of_singleton _;
    left; exists managed, (vi_name item); (split; [done|]; split; [congruence|]); by apply (Volumes_free _ _ _ _ Hv).
Qed.

Lemma DeleteNetwork_careful name managed d r d' : DeleteNetwork L name managed d = (r, d') → careful (OpDeleteNetwork name managed) d d'.
Proof using.
  unfold DeleteNetwork. intros [[_ ->]|[_ H]]%guard_inv; [by apply reading_careful|]. apply guard_inv in H as [[_ ->]|[Hp H]]; [by apply reading_careful|].
  apply andThen_inv in H as [(e & H & _)|(item & d1 & H & Hk)].
  { apply andThen_inv in H as [(e' & H & _)|(vs & d1 & H & Hk)]; [by apply Networks_reading, (reading_careful (OpDeleteNetwork name managed)) in H|]. apply Networks_reading, (reading_careful (OpDeleteNetwork name managed)) in H.
    destruct (List.find _ vs); by injection Hk as _ <-. }
  apply andThen_inv in H as [(e & _ & ?)|(vs & d1' & Hv & Hf)]; [done|]. destruct (List.find _ vs) as [i|] eqn:Ef; [|done]. injection Hf as -> ->.
  apply find_some in Ef as [Hin Hn]. apply list_elem_of_In in Hin. pose proof (Networks_reading _ _ _ _ Hv) as Hr.
  apply guard_inv in Hk as [[_ ->]|[Hs Hk]]; [by apply reading_careful|]. apply guard_inv in Hk as [[_ ->]|[Hu Hk]]; [by apply reading_careful|]. apply negb_false_iff in Hs, Hu.
  unfold str_in in Hp. apply bool_decide_eq_false in Hp. boolify.
  apply andThen_inv in Hk as [(e & Hk & _)|(u & d2 & Hk & Hd)]; [|injection Hd as _ <-]; apply mutate_issues in Hk; (eapply careful_then; [exact Hr|exact Hk|]); intros args ->%list_elem_of_singleton _;
    right; left; exists managed, (ni_name item); (split; [done|]; split; [congruence|]; split; [congruence|]); by apply (Networks_free _ _ _ _ Hv).
Qed.

Lemma CreateNetwork_reading name : keeps reading (CreateNetwork L name).
Proof using. unfold CreateNetwork, listNetworks, mutate. pose proof (runCommand_reading ["network"; "create"; trim_space name] eq_refl). reads. Qed.
Lemma CreateVolume_reading name : keeps reading (CreateVolume L name).
Proof using. unfold CreateVolume, listVolumes, mutate. pose proof (runCommand_reading ["volume"; "create"; trim_space name] eq_refl). reads. Qed.

(** C15: whatever Docker answers, no operation of the maintenance service removes anything but what it was asked to remove and has just found free: a volume is removed only
    by an operation on volumes, after an inspection in which it carried no label of a managed stack and no container, running or stopped, mounted it; a network likewise, and never a built-in
    one; every other removing command is the prune command the operation stands for, which never includes volumes. *)
Theorem removals_safe op d : careful op d (perform op d).
Proof using.
  destruct op; cbn [perform].
  - apply reading_careful. destruct (Images L q d) eqn:E. by apply Images_reading in E.
  - apply reading_careful. destruct (Networks L q d) eqn:E. by apply Networks_reading in E.
  - apply reading_careful. destruct (Volumes L q d) eqn:E. by apply Volumes_reading in E.
  - apply reading_careful. destruct (CreateNetwork L name d) eqn:E. by apply CreateNetwork_reading in E.
  - destruct (DeleteNetwork L name managed d) eqn:E. by apply DeleteNetwork_careful in E.
  - apply reading_careful. destruct (CreateVolume L name d) eqn:E. by apply CreateVolume_reading in E.
  - destruct (DeleteVolume L name managed d) eqn:E. by apply DeleteVolume_careful in E.
  - apply reading_careful. destruct (PrunePreview L q d) eqn:E. by apply PrunePreview_reading in E.
  - destruct (RunPruneStep L action managed d) eqn:E. by apply RunPruneStep_careful in E.
  - destruct (RunSystemPrune L includeVolumes managed d) eqn:E. by apply RunSystemPrune_careful in E.
Qed.

(** ** The preview is the prune *)

(** Nothing changes between the two: reading commands answer the same at any time,
    each volume is listed once, and the removals succeed. *)
Definition steady (run : nat → list string → cmdResult) : Prop := ∀ t t' args, destructive args = false → run t args = run t' args.
Definition listsOnce (run : nat → list string → cmdResult) : Prop := ∀ t rows,
  scanRows (json_volume L) "volume ls" (split (cmd_output (run t ["volume"; "ls"; "--format"; "{{json .}}"])) (chr 10)) = Ok rows → NoDup (vr_name <$> rows).
Definition removes (run : nat → list string → cmdResult) : Prop := ∀ t name, cmd_err (run t ["volume"; "rm"; name]) = None.

(** The result does not depend on the moment. *)
Definition timeless {A} (c : D A) : Prop := ∀ d1 d2, d_run d1 = d_run d2 → steady (d_run d1) → fst (c d1) = fst (c d2) ∧ d_run (snd (c d1)) = d_run (snd (c d2)) ∧ d_run (snd (c d1)) = d_run d1.

Lemma timeless_returns {A} (a : A) : timeless (returns a).
Proof using. by intros d1 d2. Qed.
Lemma timeless_throws {A} e : timeless (@throws _ _ A e).
Proof using. by intros d1 d2. Qed.
Lemma timeless_liftRes {A} (x : res maintenance_error A) : timeless (liftRes x).
Proof using. by intros d1 d2. Qed.
Lemma timeless_andThen {A B} (c : D A) (k : A → D B) : timeless c → (∀ a, timeless (k a)) → timeless (andThen c k).
Proof using.
  intros Hc Hk d1 d2 Hr Hs. destruct (Hc d1 d2 Hr Hs) as (H1 & H2 & H3). unfold andThen. destruct (c d1) as [r1 d1'], (c d2) as [r2 d2']. cbn in *. subst r2.
  destruct r1 as [a|e]; [|by cbn]. destruct (Hk a d1' d2' H2) as (K1 & K2 & K3); [by rewrite H3|]. split; [done|]. split; [done|]. by rewrite K3.
Qed.
Lemma timeless_query args : destructive args = false → timeless (query args).
Proof using.
  intros Hd d1 d2 Hr Hs. unfold query, andThen, runCommand. rewrite <- Hr, (Hs (d_now d1) (d_now d2) args Hd). by destruct (cmd_err _).
Qed.
Lemma timeless_listRows {A} (parse : string → option A) what args : destructive args = false → timeless (listRows parse what args).
Proof using. intros H. apply timeless_andThen; [by apply timeless_query|]. intros ?. apply timeless_liftRes. Qed.
Lemma timeless_inspectAll {A} (parse : string → option (list A)) what args : destructive args = false → timeless (inspectAll parse what args).
Proof using. intros H. apply timeless_andThen; [by apply timeless_query|]. intros ?. case_match; [apply timeless_returns|apply timeless_throws]. Qed.

Lemma timeless_Volumes q : timeless (Volumes L q).
Proof using.
  unfold Volumes, listVolumes, inspectVolumes, objectUsage, inspectAllContainers.
  repeat first [ apply timeless_query; reflexivity | apply timeless_listRows; reflexivity | apply timeless_inspectAll; reflexivity | apply timeless_returns
               | apply timeless_throws | apply timeless_andThen; [|intros ?] | progress case_match ].
Qed.

Lemma Sorted_weaken {A} (R S : relation A) l : (∀ a b, R a b → S a b) → Sorted R l → Sorted S l.
Proof using. intros HRS. induction 1 as [|a l _ IH Ha]; constructor; [done|]. destruct Ha; constructor; auto. Qed.

Lemma Volumes_names q d items d' : listsOnce (d_run d) → Volumes L q d = (Ok items, d') → NoDup (vi_name <$> items) ∧ Sorted (key_le vi_name) items.
Proof using.
  intros Honce [(e & _ & ?)|(rows & d1 & Hl & Hk)]%andThen_inv; [done|]. apply listRows_inv in Hl as [_ (out & Hr & Hsc)].
  assert (NoDup (vr_name <$> rows)) as Hnd by (apply (Honce (d_now d)); by rewrite Hr).
  destruct rows as [|row rows]; [injection Hk as <- _; split; constructor|]. remember (row :: rows) as all eqn:Eall. clear Eall row rows.
  apply andThen_inv in Hk as [(e & _ & ?)|(meta & d2 & _ & Hk)]; [done|]. apply andThen_inv in Hk as [(e & _ & ?)|(u & d3 & _ & Hk)]; [done|]. injection Hk as <- _. split.
  - rewrite merge_sort_Permutation. apply (sublist_NoDup _ (vi_name <$> omap (volumeItem (q_managed q) meta (ou_volumes u)) all)); [|apply fmap_sublist, sublist_filter].
    apply (sublist_NoDup _ (vr_name <$> all)); [done|]. clear. induction all as [|r all IH]; [constructor|]. cbn. unfold volumeItem at 1. destruct (meta !! vr_name r); cbn; by constructor.
  - apply (Sorted_weaken (asc2 vi_name vi_mountpoint)); [by intros a b [H _]|apply Sorted_merge_sort, _].
Qed.

Lemma firstsBy_NoDup {A} (key : A → string) seen l : NoDup (key <$> l) → (∀ x, x ∈ l → key x ∉ seen) → firstsBy key seen l = l.
Proof using.
  revert seen. induction l as [|x l IH]; intros seen Hnd Hs; [done|]. cbn in *. apply NoDup_cons in Hnd as [Hx Hnd]. rewrite decide_False by (apply Hs; by left). f_equal.
  apply IH; [done|]. intros y Hy. rewrite elem_of_union, elem_of_singleton. intros [E|E]; [|revert E; apply Hs; by right]. apply Hx. rewrite <- E. by apply list_elem_of_fmap_2.
Qed.

Lemma preview_references items fallback : NoDup (vi_name <$> items) → Sorted (key_le vi_name) items →
  pi_reference <$> pc_items (buildVolumePrunePreview items fallback) = vi_name <$> items ∧ pc_count (buildVolumePrunePreview items fallback) = Z.of_nat (length items).
Proof using.
  intros Hnd Hs. unfold buildVolumePrunePreview. cbn [pc_items pc_count]. rewrite firstsBy_NoDup by (done || set_solver). set (f := λ i : VolumeItem, mkPreviewItem _ _ _).
  split; [|by rewrite length_fmap]. rewrite <- (sort_by_unique pi_reference (f <$> items) (f <$> items)); [by rewrite <- list_fmap_compose| |done|].
  - intros x y (a & -> & Ha)%list_elem_of_fmap (b & -> & Hb)%list_elem_of_fmap E. cbn in E. f_equal. apply list_elem_of_lookup in Ha as [i Hi], Hb as [j Hj].
    assert (i = j) as ->; [|congruence]. apply (NoDup_lookup _ _ _ (vi_name a) Hnd); rewrite list_lookup_fmap; [by rewrite Hi|rewrite Hj; cbn; by rewrite E].
  - clear Hnd. induction Hs as [|a l Hs IH Ha]; [constructor|]. cbn. constructor; [done|]. destruct Ha; cbn; by constructor.
Qed.

Lemma removeVolumes_all volumes outputs d : removes (d_run d) →
  ∃ out d', removeVolumes outputs volumes d = (Ok (out, None), d') ∧ issues d d' ((λ v, ["volume"; "rm"; vi_name v]) <$> volumes).
Proof using.
  revert outputs d. induction volumes as [|v volumes IH]; intros outputs d Hr; cbn [removeVolumes].
  { exists (join newline outputs), d. split; [done|apply issues_nil]. }
  unfold andThen, runCommand. rewrite (Hr (d_now d) (vi_name v)).
  edestruct IH as (out & d' & H & Hi); [|exists out, d'; split; [exact H|]]; [done|]. cbn. apply (issues_app _ (mkDocker (S (d_now d)) (d_run d) (d_calls d ++ [["volume"; "rm"; vi_name v]])) _ [_]); [|done].
  unfold issues. cbn. split_and!; [done..|lia].
Qed.

(** C31: the preview of a prune is what the prune does: when Docker's answers do not change in between, each volume is listed once and the removals succeed, the step
    [prune_volumes] removes exactly the volumes of the preview, in its order and each once, and reports no error. *)
Theorem preview_predicts_prune q d1 p d1' d2 :
  steady (d_run d1) → listsOnce (d_run d1) → removes (d_run d1) → d_run d2 = d_run d1 → pq_volumes q = true → PrunePreview L q d1 = (Ok p, d1') →
  ∃ out before d2', RunPruneStep L "prune_volumes" (pq_managed q) d2 = (Ok (out, None), d2') ∧ Forall (λ a, destructive a = false) before ∧
    d_calls d2' = d_calls d2 ++ before ++ ((λ i, ["volume"; "rm"; pi_reference i]) <$> pc_items (pp_volumes p)) ∧ pc_count (pp_volumes p) = Z.of_nat (length (pc_items (pp_volumes p))).
Proof using.
  intros Hst Honce Hrm Hrun Hq Hp. set (vq := mkInventoryQuery "" ImageUsageUnused SourceExternal (pq_managed q)).
  assert (∃ items fallback dv dv', Volumes L vq dv = (Ok items, dv') ∧ d_run dv = d_run d1 ∧ pp_volumes p = buildVolumePrunePreview items fallback) as (items & fb & dv & dv' & Hv & Hrv & Hpp).
  { apply andThen_inv in Hp as [(e & _ & ?)|(df & d3 & H1 & Hp)]; [done|]. apply andThen_inv in Hp as [(e & _ & ?)|(images & d4 & H2 & Hp)]; [done|].
    apply andThen_inv in Hp as [(e & _ & ?)|(volumes & d5 & H3 & Hp)]; [done|]. rewrite Hq in H3. apply andThen_inv in H3 as [(e & _ & ?)|(items & d6 & H3 & Hk)]; [done|].
    injection Hk as <- <-. injection Hp as <- _. exists items. eexists _, d4, d6. split; [exact H3|]. split; [|done].
    assert (reading d1 d3) as (n1 & (R1 & _) & _) by (by apply systemDF_reading in H1). assert (reading d3 d4) as (n2 & (R2 & _) & _).
    { revert H2. destruct (pq_images q); [|intros H2; injection H2 as _ <-; reflexivity]. intros [(e & _ & ?)|(im & d7 & H & Hk)]%andThen_inv; [done|]. injection Hk as _ <-. by apply Images_reading in H. }
    by rewrite R2. }
  destruct (timeless_Volumes vq dv d2) as (Hf & _ & _); [congruence|by rewrite Hrv|]. rewrite Hv in Hf. cbn in Hf.
  destruct (Volumes_names _ _ _ _ ltac:(by rewrite Hrv) Hv) as [Hnd Hsorted]. destruct (preview_references items fb Hnd Hsorted) as [Hrefs Hcount]. rewrite <- Hpp in Hrefs, Hcount.
  destruct (Volumes L vq d2) as [r d2v] eqn:Hv2. cbn in Hf. subst r. pose proof (Volumes_reading _ _ _ _ Hv2) as (before & (Rv & Cv & _) & Hb).
  assert (d_run d2v = d_run d1) as Hr2 by congruence.
  assert (∃ out d2', RunPruneStep L "prune_volumes" (pq_managed q) d2 = (Ok (out, None), d2') ∧ issues d2v d2' ((λ v, ["volume"; "rm"; vi_name v]) <$> items)) as (out & d2' & Hstep & _ & Cr & _).
  { change (RunPruneStep L "prune_volumes" (pq_managed q) d2) with (pruneExternalVolumes L (pq_managed q) d2). unfold pruneExternalVolumes, andThen, attempts. fold vq. rewrite Hv2.
    destruct items as [|i items]; [eexists _, d2v; split; [done|apply issues_nil]|]. apply removeVolumes_all. by rewrite Hr2. }
  exists out, before, d2'. split; [done|]. split; [done|]. split.
  - rewrite Cr, Cv, <- app_assoc. do 2 f_equal. change (λ i, ["volume"; "rm"; pi_reference i]) with ((λ n, ["volume"; "rm"; n]) ∘ pi_reference). rewrite list_fmap_compose, Hrefs, <- list_fmap_compose. done.
  - rewrite Hcount. f_equal. by rewrite <- (length_fmap pi_reference), Hrefs, length_fmap.
Qed.
End facts.

(** ** Concrete runs *)

(** Three volumes: one of the managed stack [web], one that a stopped container
    mounts, and one that nobody uses. *)
Definition demoVolumes : list dockerVolumeInspect :=
  [mkVolumeInspect "web_data" "/v/web_data" "local" {[composeProject := "web"]} ∅ 5; mkVolumeInspect "cache" "/v/cache" "local" ∅ ∅ 7;
   mkVolumeInspect "old" "/v/old" "local" ∅ ∅ 11].
Definition demoContainers : list dockerContainerInspect := [mkContainerInspect "sha256:1" ∅ [mkMount "cache" "volume"] {["bridge"]}].
Definition demoLib : lib :=
  mkLib (λ s, s) (λ s, s) (λ _, None) (λ _, None) (λ line, Some (mkVolumeRow line "local")) (λ _, None) (λ _, None) (λ _, None)
    (λ _, Some demoVolumes) (λ _, Some demoContainers) (λ _ _, None).
Definition demoOutput (args : list string) : string :=
  match args with
  | "volume" :: "ls" :: _ => join newline ["web_data"; "cache"; "old"]
  | ["ps"; "-aq"] => "c1"
  | _ => ""
  end.
Definition demoDocker : docker := mkDocker 0 (λ _ args, mkCmd (demoOutput args) None) [].

Example demo_prune_volumes :
  filter (λ a, destructive a = true) (d_calls (perform demoLib (OpPruneStep "prune_volumes" ["web"]) demoDocker)) = [["volume"; "rm"; "old"]].
Proof. vm_compute. reflexivity. Qed.
Example demo_delete_refused :
  fst (DeleteVolume demoLib "web_data" ["web"] demoDocker) = Err ErrProtectedObject ∧ fst (DeleteVolume demoLib "cache" ["web"] demoDocker) = Err ErrObjectInUse ∧
  fst (DeleteVolume demoLib "-x" ["web"] demoDocker) = Err ErrInvalidName ∧ fst (DeleteNetwork demoLib "host" [] demoDocker) = Err ErrProtectedObject.
Proof. vm_compute. done. Qed.

Lemma demo_steady : steady (d_run demoDocker).
Proof. done. Qed.
Lemma demo_once : listsOnce demoLib (d_run demoDocker).
Proof. intros t rows. vm_compute. intros [= <-]. repeat (constructor; [set_solver|]). constructor. Qed.
Definition demoQuery : PrunePreviewQuery := mkPreviewQuery false false false true ["web"].
Definition demoPreview : PrunePreviewResult :=
  mkPreview zeroCategory zeroCategory zeroCategory (mkCategory 1 11 [mkPreviewItem "old" 11 "unused_external_volume"]) 11.
Lemma demo_preview : PrunePreview demoLib demoQuery demoDocker = (Ok demoPreview, snd (PrunePreview demoLib demoQuery demoDocker)).
Proof. apply injective_projections; [vm_compute; reflexivity|reflexivity]. Qed.

Lemma preview_predicts_prune_witness :
  ∃ out before d2', RunPruneStep demoLib "prune_volumes" ["web"] demoDocker = (Ok (out, None), d2') ∧ Forall (λ a, destructive a = false) before ∧
    d_calls d2' = d_calls demoDocker ++ before ++ ((λ i, ["volume"; "rm"; pi_reference i]) <$> pc_items (pp_volumes demoPreview)) ∧
    pc_count (pp_volumes demoPreview) = Z.of_nat (length (pc_items (pp_volumes demoPreview))).
Proof. exact (preview_predicts_prune demoLib demoQuery demoDocker demoPreview _ demoDocker demo_steady demo_once (λ _ _, eq_refl) eq_refl eq_refl demo_preview). Defined.
