(* ===== verification/MaintenancePlan.v ===== *)
(** * internal/maintenancejobs/service.go: planning an update or a prune

    The targets of an update, the services it may touch, the workflow of steps and
    the start of the job that holds the stacks.  The stack reader and the prune
    runner are interfaces in the code ([stackReader], [pruneRunner]): here they are
    records of operations on a state [X] of their own, of which nothing is assumed.

    The execution of the workflow is in MaintenanceJobs. *)

From stdpp Require Import gmap strings list pretty.
From Stdlib Require Import Ascii ZArith Lia.
From S2P Require Import Prelude GoStrings GoPath GoTime Effects JobsResource JobsLocks Store JobsService SchedulerTime.

Local Open Scope Z_scope.

(** ** Data *)

(** An error: its text, and what [errors.Is] finds in it. *)
Record goError := mkErr { err_text : string; is_canceled : bool; is_deadline : bool }.

Record serviceInfo := mkServiceInfo { sv_name : string; sv_mode : string; sv_build : option string }.
Record stackInfo := mkStackInfo { sk_actions : list string; sk_runtime : string; sk_services : list serviceInfo }.
Record StepProgress := mkStepProgress { sp_completed : Z; sp_total : Z; sp_detail : string }.
Record MaintenanceStepOptions := mkStepOptions { so_orphans : bool; so_services : list string }.
(** What a step reported: its progress, its output and its error. *)
Record stepOutcome := mkOutcome { oc_progress : list StepProgress; oc_output : string; oc_err : option goError }.

Record stackReader (X : Type) := mkReader {
  ListStacks : eff X goError (list string);
  GetStack : string → eff X goError stackInfo;
  NeedsBuild : string → eff X goError bool;
  RunMaintenanceStepStreaming : string → string → MaintenanceStepOptions → X → stepOutcome * X;
  RecordDeployBaseline : string → string → Time → X → option goError * X;
  InvalidateImageUpdateStatus : string → list string → X → option goError * X }.
Record pruneRunner (X : Type) := mkRunner {
  RunPruneStep : string → list string → X → (string * option goError) * X;
  RunSystemPrune : bool → list string → X → (string * option goError) * X }.
Arguments ListStacks {X}. Arguments GetStack {X}. Arguments NeedsBuild {X}. Arguments RunMaintenanceStepStreaming {X}.
Arguments RecordDeployBaseline {X}. Arguments InvalidateImageUpdateStatus {X}. Arguments RunPruneStep {X}. Arguments RunSystemPrune {X}.

Record UpdateRequest := mkUpdateRequest { rq_target : UpdateTarget; rq_options : UpdateOptions; rq_trigger : string; rq_schedule : string }.
Record UpdateRun := mkUpdateRun { ur_request : UpdateRequest; ur_targets : list string; ur_managed : list string; ur_workflow : list JobWorkflowStep }.
Record PruneRequest := mkPruneRequest { pq_scope : PruneScope; pq_trigger : string; pq_schedule : string }.
Record PruneRun := mkPruneRun { pn_request : PruneRequest; pn_targets : list string; pn_workflow : list JobWorkflowStep }.

Inductive plan_error :=
| ErrBadRequest (message : string)
| ErrStackNotFound (stackID : string)
| ErrInvalidState (message : string)
| ErrReader (e : goError)
| ErrJobs (e : jobs_error).

(** ** The world of a maintenance job

    The state of the surroundings, the job service, the number of steps taken so
    far, the error of the context of the job once there is one, and the calls to
    the surroundings. *)

Inductive ctxError := CtxCanceled | CtxDeadlineExceeded.
Inductive call :=
| CallStep (stackID action : string) (options : MaintenanceStepOptions)
| CallSystemPrune (includeVolumes : bool) (managed : list string)
| CallPruneStep (action : string) (managed : list string)
| CallInvalidate (stackID : string) (services : list string)
| CallBaseline (stackID jobID : string).
Record world (X : Type) := mkWorld {
  w_x : X; w_jobs : Service; w_tick : nat; w_ctx : option ctxError; w_calls : list (call * option goError) }.
Arguments mkWorld {X}. Arguments w_x {X}. Arguments w_jobs {X}. Arguments w_tick {X}. Arguments w_ctx {X}. Arguments w_calls {X}.

(** What happens around the job at each step: the outcomes of the store calls made
    with the context of the job and of those made with a finalization context (and
    of the read after a refused transition), the clock, the tokens, what other
    goroutines do to the job service, and the end of the context. *)
Record Env := mkEnv {
  e_io : nat → IO; e_final : nat → IO; e_io2 : nat → IO; e_now : nat → Time; e_token : nat → string; e_others : nat → Service → Service; e_ctx : nat → option ctxError }.
(** The calls of the store no longer depend on the context of the job. *)
Definition jobFinalizationContext (env : Env) : Env :=
  mkEnv (e_final env) (e_final env) (e_io2 env) (e_now env) (e_token env) (e_others env) (e_ctx env).

(** ** Sets of names *)

Definition dedupeSortedStrings (values : list string) : list string :=
  sort_strings (elements (list_to_set (filter (λ v, v ≠ "") (trim_space <$> values)) : gset string)).
Definition dedupeSortedStackIDs := dedupeSortedStrings.
Definition containsString (items : list string) (needle : string) : bool := str_in needle items.
Definition hasServiceExclusions (excluded : gmap string (list string)) : bool := hasExcludedServices excluded.

(** ** Workflow steps *)

Definition queued (action stackID : string) (services : list string) : JobWorkflowStep := mkStep action "queued" stackID services.
Definition markWorkflowState (steps : list JobWorkflowStep) (index : nat) (state : string) : list JobWorkflowStep := alter (set_step_state state) index steps.
Definition markWorkflowRunning (steps : list JobWorkflowStep) (index : nat) : list JobWorkflowStep := markWorkflowState steps index "running".
Definition markWorkflowSucceeded (steps : list JobWorkflowStep) (index : nat) : list JobWorkflowStep := markWorkflowState steps index "succeeded".
Definition workflowStepRef (steps : list JobWorkflowStep) (index : nat) : option JobEventStep :=
  (λ st, mkEventStep (Z.of_nat index + 1) (Z.of_nat (length steps)) (step_action st) (step_state st) (step_target st) (step_services st)) <$> steps !! index.

Definition maintenanceActionLabel (action : string) : string :=
  if str_eqb action "pull" then "Pull" else if str_eqb action "build" then "Build" else if str_eqb action "up" then "Up"
  else if str_eqb action "prune" then "Prune" else if str_eqb action "skip" then "Skip"
  else if str_eqb action "preserve_inactive" then "Preserve inactive state" else if str_eqb action "prune_images" then "Prune images"
  else if str_eqb action "prune_build_cache" then "Prune build cache" else if str_eqb action "prune_stopped_containers" then "Prune stopped containers"
  else if str_eqb action "prune_volumes" then "Prune volumes" else action.

Section plan.
Context {X : Type} (ToLower : string → string) (reader : stackReader X) `{!MapRange Resource string}.
Abbreviation P := (eff (world X) plan_error).

Definition updateStepMessage (prefix : string) (st : JobWorkflowStep) : string :=
  let label := ToLower (maintenanceActionLabel (step_action st)) in
  if str_empty (step_target st) then prefix +:+ " " +:+ label +:+ "."
  else match step_services st with
  | [] => prefix +:+ " " +:+ label +:+ " for " +:+ step_target st +:+ "."
  | services => prefix +:+ " " +:+ label +:+ " for " +:+ step_target st +:+ " services " +:+ join ", " services +:+ "."
  end.
Definition pruneStepMessage (prefix : string) (st : JobWorkflowStep) : string :=
  prefix +:+ " " +:+ ToLower (maintenanceActionLabel (step_action st)) +:+ ".".

(** A call to the surroundings, and a critical section of the job service: other
    goroutines come first, and the context may have ended. *)
Definition reads {A} (c : eff X goError A) : P A := λ w,
  let '(r, x) := c (w_x w) in
  (match r with Ok a => Ok a | Err e => Err (ErrReader e) end, mkWorld x (w_jobs w) (w_tick w) (w_ctx w) (w_calls w)).
Definition withJobs {E A} (env : Env) (f : nat → Service → A * Service) : eff (world X) E A := λ w,
  let n := w_tick w in
  let '(a, s) := f n (e_others env n (w_jobs w)) in
  (Ok a, mkWorld (w_x w) s (S n) (match w_ctx w with Some e => Some e | None => e_ctx env n end) (w_calls w)).
Definition publish {E} (env : Env) (job : Job) (eventType message data : string) (step : option JobEventStep) : eff (world X) E unit :=
  withJobs env (λ n s, (tt, snd (PublishEvent (e_io env n) (e_now env n) s job eventType message data step))).

(** ** Targets *)

Fixpoint checkSelected (stackIDs : list string) : P unit :=
  match stackIDs with
  | [] => returns tt
  | stackID :: rest =>
    do! detail := reads (GetStack reader stackID) in
    do! _ := liftRes (guard_err (negb (containsString (sk_actions detail) "up")) (ErrInvalidState stackID)) in
    checkSelected rest
  end.
Fixpoint updatable (stackIDs : list string) : P (list string) :=
  match stackIDs with
  | [] => returns []
  | stackID :: rest =>
    do! detail := reads (GetStack reader stackID) in
    do! candidates := updatable rest in
    returns (if containsString (sk_actions detail) "up" then stackID :: candidates else candidates)
  end.
Definition ResolveTargetStacks (mode : string) (stackIDs : list string) : P (list string) :=
  if str_eqb mode "selected" then
    match stackIDs with
    | [] => throws (ErrBadRequest "target.stack_ids must be non-empty when mode = selected")
    | _ => let deduped := dedupeSortedStackIDs stackIDs in do! _ := checkSelected deduped in returns deduped
    end
  else if str_eqb mode "all" then
    do! ids := reads (ListStacks reader) in
    do! candidates := updatable ids in
    match candidates with [] => throws (ErrBadRequest "no updatable stacks found") | _ => returns (sort_strings candidates) end
  else throws (ErrBadRequest "target.mode must be one of: selected, all").
Definition listManagedStackIDs : P (list string) := do! ids := reads (ListStacks reader) in returns (sort_strings ids).

(** The services of each stack with exclusions that are left. *)
Fixpoint includedServices (stackIDs : list string) (excluded : gmap string (list string)) (result : gmap string (list string)) : P (gmap string (list string)) :=
  match stackIDs with
  | [] => returns result
  | stackID :: rest =>
    match dedupeSortedStrings (default [] (excluded !! stackID)) with
    | [] => includedServices rest excluded result
    | excludedForStack =>
      do! detail := reads (GetStack reader stackID) in
      let allServices := sv_name <$> sk_services detail in
      do! _ := liftRes (guard_err (existsb (λ s, negb (str_in s allServices)) excludedForStack) (ErrInvalidState stackID)) in
      includedServices rest excluded (<[stackID := sort_strings (filter (λ s, s ∉ excludedForStack) allServices)]> result)
    end
  end.
Definition resolveUpdateServiceTargets (stackIDs : list string) (excluded : gmap string (list string)) : P (gmap string (list string)) :=
  if negb (hasServiceExclusions excluded) then returns ∅
  else
    do! _ := liftRes (guard_err (existsb (λ e : string * list string, negb (bool_decide (e.2 = [])) && negb (str_in e.1 stackIDs)) (map_to_list excluded))
                 (ErrInvalidState "excluded services include a stack that is not a target")) in
    includedServices stackIDs excluded ∅.

(** [nil] is [None]: every service of the stack. *)
Definition maintenanceNeedsBuild (stackID : string) (serviceNames : option (list string)) : P bool :=
  match serviceNames with
  | None => reads (NeedsBuild reader stackID)
  | Some names =>
    do! detail := reads (GetStack reader stackID) in
    returns (existsb (λ s, str_in (sv_name s) names && (str_in (sv_mode s) ["build"; "hybrid"] || bool_decide (sv_build s ≠ None))) (sk_services detail))
  end.

(** ** The workflow *)

(** The steps of one stack.  The list of services of a step is empty exactly when
    it is [nil] in the code: a stack of which nothing is left is skipped. *)
Definition stackSteps (serviceNames : option (list string)) (options : UpdateOptions) (preserveInactive : bool) (stackID : string) : P (list JobWorkflowStep) :=
  match serviceNames with
  | Some [] => returns [queued "skip" stackID []]
  | _ =>
    let services := default [] serviceNames in
    do! keepInactive := (if preserveInactive
      then do! detail := reads (GetStack reader stackID) in returns (str_in (sk_runtime detail) ["defined"; "stopped"])
      else returns false) in
    let pull := if PullImages options then [queued "pull" stackID services] else [] in
    do! build := (if BuildImages options
      then do! needsBuild := maintenanceNeedsBuild stackID serviceNames in returns (if needsBuild : bool then [queued "build" stackID services] else [])
      else returns []) in
    returns (pull ++ build ++ [if keepInactive : bool then queued "preserve_inactive" stackID [] else queued "up" stackID services])
  end.
Fixpoint buildEach (targets : gmap string (list string)) (options : UpdateOptions) (preserveInactive : bool) (stackIDs : list string) : P (list JobWorkflowStep) :=
  match stackIDs with
  | [] => returns (if PruneAfter options then [queued "prune" "" []] else [])
  | stackID :: rest =>
    do! steps := stackSteps (targets !! stackID) options preserveInactive stackID in
    do! more := buildEach targets options preserveInactive rest in
    returns (steps ++ more)
  end.
Definition buildUpdateWorkflow (stackIDs : list string) (targets : gmap string (list string)) (options : UpdateOptions) (preserveInactive : bool) : P (list JobWorkflowStep) :=
  buildEach targets options preserveInactive stackIDs.

Definition buildPruneWorkflow (scope : PruneScope) : list JobWorkflowStep :=
  (if Images scope then [queued "prune_images" "" []] else []) ++ (if BuildCache scope then [queued "prune_build_cache" "" []] else []) ++
  (if StoppedContainers scope then [queued "prune_stopped_containers" "" []] else []) ++ (if Volumes scope then [queued "prune_volumes" "" []] else []).

(** ** Starting *)

Definition startJob (env : Env) (requestID action requestedBy : string) (workflow : list JobWorkflowStep) (resources : list Resource) : P Job :=
  do! r := withJobs env (λ n s, StartWithResourcesAndWorkflow (e_io env n) (e_token env n) (e_now env n) requestID s "" action requestedBy workflow resources) in
  match r with Ok job => returns job | Err e => throws (ErrJobs e) end.
Definition announceFirst (env : Env) (message : JobWorkflowStep → string) (job : Job) (workflow : list JobWorkflowStep) : P unit :=
  match workflow with
  | [] => returns tt
  | st :: _ => publish env job "job_step_started" (message st) "" (workflowStepRef workflow 0)
  end.

Definition StartUpdate (env : Env) (requestID : string) (request : UpdateRequest) (requestedBy : string) : P (Job * UpdateRun) :=
  let options := rq_options request in
  let target := rq_target request in
  do! _ := liftRes (guard_err (IncludeVolumes options && negb (PruneAfter options)) (ErrBadRequest "include_volumes requires prune_after = true")) in
  do! _ := liftRes (guard_err (RemoveOrphans options && hasServiceExclusions (ExcludedServices target))
              (ErrBadRequest "remove_orphans cannot be used with service exclusions")) in
  do! targets := ResolveTargetStacks (Mode target) (StackIDs target) in
  do! managed := (if PruneAfter options && IncludeVolumes options then listManagedStackIDs else returns targets) in
  do! serviceTargets := resolveUpdateServiceTargets targets (ExcludedServices target) in
  let preserveInactive := str_eqb (Mode target) "all" || str_eqb (rq_trigger request) "scheduled" || PreserveInactive options in
  do! workflow := buildUpdateWorkflow targets serviceTargets options preserveInactive in
  let workflow := markWorkflowRunning workflow 0 in
  let resources := match StackResources managed with [] => [GlobalResource] | l => l end in
  do! job := startJob env requestID "update_stacks" requestedBy workflow resources in
  do! _ := announceFirst env (updateStepMessage "Starting") job workflow in
  returns (job, mkUpdateRun request targets managed workflow).

Definition StartPrune (env : Env) (requestID : string) (request : PruneRequest) (requestedBy : string) (managedStackIDs : list string) : P (Job * PruneRun) :=
  let scope := pq_scope request in
  do! _ := liftRes (guard_err (negb (Images scope) && negb (BuildCache scope) && negb (StoppedContainers scope) && negb (Volumes scope))
              (ErrBadRequest "at least one prune scope must be enabled")) in
  let workflow := markWorkflowRunning (buildPruneWorkflow scope) 0 in
  do! job := startJob env requestID "prune" requestedBy workflow [GlobalResource] in
  do! _ := announceFirst env (pruneStepMessage "Starting") job workflow in
  returns (job, mkPruneRun request managedStackIDs workflow).
End plan.

(** ** The shape of a plan *)

(** What a step of the stack may be, given the services that are left of it. *)
Definition stepOf (services : option (list string)) (stackID : string) (st : JobWorkflowStep) : Prop :=
  step_target st = stackID ∧ step_state st = "queued" ∧
  ((services = Some [] ∧ step_action st = "skip" ∧ step_services st = []) ∨
   (services ≠ Some [] ∧ step_action st = "preserve_inactive" ∧ step_services st = []) ∨
   (services ≠ Some [] ∧ step_action st ∈ ["pull"; "build"; "up"] ∧ step_services st = default [] services)).
Definition planned (targets : gmap string (list string)) (options : UpdateOptions) (stackIDs : list string) (st : JobWorkflowStep) : Prop :=
  (st = queued "prune" "" [] ∧ PruneAfter options = true) ∨ (∃ stackID, stackID ∈ stackIDs ∧ stepOf (targets !! stackID) stackID st).

Section facts.
Context {X : Type} (reader : stackReader X).

Lemma stackSteps_shape services options keep stackID (w w' : world X) steps :
  stackSteps reader services options keep stackID w = (Ok steps, w') → Forall (stepOf services stackID) steps.
Proof using.
  unfold stackSteps. intros H. destruct (decide (services = Some [])) as [->|Hne].
  { injection H as <- _. apply Forall_singleton. split_and!; [done..|]. by left. }
  assert (∃ (b : bool) pull build, steps = pull ++ build ++ [if b then queued "preserve_inactive" stackID [] else queued "up" stackID (default [] services)] ∧
    (∀ st, st ∈ pull ++ build → st = queued "pull" stackID (default [] services) ∨ st = queued "build" stackID (default [] services))) as (b & pull & build & -> & Hpb).
  { assert ((do! keepInactive := (if keep
        then do! detail := reads (GetStack reader stackID) in returns (str_in (sk_runtime detail) ["defined"; "stopped"])
        else returns false) in
      do! build := (if BuildImages options
        then do! needsBuild := maintenanceNeedsBuild reader stackID services in returns (if needsBuild : bool then [queued "build" stackID (default [] services)] else [])
        else returns []) in
      returns ((if PullImages options then [queued "pull" stackID (default [] services)] else []) ++ build ++
        [if keepInactive : bool then queued "preserve_inactive" stackID [] else queued "up" stackID (default [] services)])) w = (Ok steps, w')) as H' by (by destruct services as [[|]|]).
    clear H. apply andThen_inv in H' as [(e & _ & ?)|(b & w1 & _ & H)]; [done|]. apply andThen_inv in H as [(e & _ & ?)|(bl & w2 & Hb & H)]; [done|]. injection H as <- _.
    exists b, (if PullImages options then [queued "pull" stackID (default [] services)] else []), bl. split; [done|].
    intros st [Hst|Hst]%elem_of_app; [left; destruct (PullImages options); [by apply list_elem_of_singleton in Hst|by apply elem_of_nil in Hst]|right].
    destruct (BuildImages options); [|injection Hb as <- _; by apply elem_of_nil in Hst]. apply andThen_inv in Hb as [(e & _ & ?)|(nb & w3 & _ & Hb)]; [done|]. injection Hb as <- _.
    destruct nb; [by apply list_elem_of_singleton in Hst|by apply elem_of_nil in Hst]. }
  rewrite app_assoc. apply Forall_app. split.
  - apply Forall_forall. intros st Hst. destruct (Hpb st Hst) as [-> | ->]; (split_and!; [done..|]); right; right; (split_and!; [done| |done]); cbn; set_solver.
  - apply Forall_singleton. destruct b; (split_and!; [done..|]); [by right; left|]. right; right. split_and!; [done| |done]. cbn. set_solver.
Qed.

Lemma buildEach_shape targets options keep ids (w w' : world X) steps :
  buildEach reader targets options keep ids w = (Ok steps, w') → Forall (planned targets options ids) steps.
Proof using.
  revert w w' steps. induction ids as [|stackID ids IH]; intros w w' steps H; cbn [buildEach] in H.
  { injection H as <- _. destruct (PruneAfter options) eqn:E; [|constructor]. apply Forall_singleton. by left. }
  apply andThen_inv in H as [(e & _ & ?)|(l1 & w1 & H1 & H)]; [done|]. apply andThen_inv in H as [(e & _ & ?)|(l2 & w2 & H2 & H)]; [done|]. injection H as <- _.
  apply Forall_app. split; [eapply Forall_impl; [by eapply stackSteps_shape|]|eapply Forall_impl; [by eapply IH|]].
  - intros st Hst. right. exists stackID. split; [by left|done].
  - intros st [?|(i & Hi & Hs)]; [by left|right]. exists i. split; [by right|done].
Qed.

(** Exactly the services that are not excluded are left. *)
Definition leftOver (excluded : gmap string (list string)) (stackIDs : list string) (result : gmap string (list string)) : Prop :=
  (∀ stackID l, result !! stackID = Some l → dedupeSortedStrings (default [] (excluded !! stackID)) ≠ [] ∧
     ∀ s, s ∈ l → s ∉ dedupeSortedStrings (default [] (excluded !! stackID))) ∧
  (∀ stackID, stackID ∈ stackIDs → dedupeSortedStrings (default [] (excluded !! stackID)) ≠ [] → is_Some (result !! stackID)).

Lemma includedServices_leftOver excluded ids done_ result (w w' : world X) result' : leftOver excluded done_ result →
  includedServices reader ids excluded result w = (Ok result', w') → leftOver excluded (done_ ++ ids) result'.
Proof using.
  revert done_ result w. induction ids as [|stackID ids IH]; intros done_ result w [L1 L2] H; cbn [includedServices] in H.
  { injection H as <- _. by rewrite app_nil_r. }
  rewrite cons_middle, app_assoc. destruct (dedupeSortedStrings (default [] (excluded !! stackID))) as [|x xs] eqn:E.
  - eapply IH; [|exact H]. split; [done|]. intros i [Hi|Hi%list_elem_of_singleton]%elem_of_app; [by apply L2|]. by subst i.
  - apply andThen_inv in H as [(e & _ & ?)|(detail & w1 & _ & H)]; [done|]. apply andThen_inv in H as [(e & _ & ?)|(u & w2 & _ & H)]; [done|].
    eapply IH; [|exact H]. split.
    + intros i l [[<- <-]|[Hne Hl]]%lookup_insert_Some; [|by apply L1]. rewrite E. split; [done|]. intros s Hs. unfold sort_strings in Hs. rewrite sort_by_elem in Hs. by apply list_elem_of_filter in Hs as [? _].
    + intros i Hi Hx. destruct (decide (i = stackID)) as [->|Hne]; [by rewrite lookup_insert_eq|]. rewrite lookup_insert_ne by done. apply L2; [|done].
      apply elem_of_app in Hi as [?|Hi%list_elem_of_singleton]; done.
Qed.

Lemma no_exclusions excluded stackID : hasServiceExclusions excluded = false → default [] (excluded !! stackID) = [].
Proof using.
  unfold hasServiceExclusions, hasExcludedServices. rewrite existsb_false_iff. intros H. destruct (excluded !! stackID) as [l|] eqn:E; [|done]. cbn.
  specialize (H (stackID, l)). rewrite elem_of_map_to_list in H. specialize (H E). by destruct l.
Qed.

Lemma resolveUpdateServiceTargets_leftOver ids excluded (w w' : world X) result : resolveUpdateServiceTargets reader ids excluded w = (Ok result, w') → leftOver excluded ids result.
Proof using.
  unfold resolveUpdateServiceTargets. destruct (hasServiceExclusions excluded) eqn:E; cbn [negb]; intros H.
  - apply andThen_inv in H as [(e & _ & ?)|(u & w1 & _ & H)]; [done|]. apply (includedServices_leftOver excluded ids [] ∅) in H; [done|]. split; [intros i l; by rewrite lookup_empty|by intros i ?%elem_of_nil].
  - injection H as <- _. split; [intros i l; by rewrite lookup_empty|]. intros i _. by rewrite (no_exclusions _ _ E).
Qed.

(** A question to the reader, which may change the state of the surroundings. *)
Inductive asks : X → X → Prop :=
| asks_list x r x' : ListStacks reader x = (r, x') → asks x x'
| asks_stack stackID x r x' : GetStack reader stackID x = (r, x') → asks x x'
| asks_build stackID x r x' : NeedsBuild reader stackID x = (r, x') → asks x x'.

(** Planning makes no call that changes anything: it only asks. *)
Definition quiet (w w' : world X) : Prop := w_calls w' = w_calls w ∧ rtc asks (w_x w) (w_x w').
#[local] Instance quiet_refl : Reflexive quiet.
Proof using. by intros w. Qed.
#[local] Instance quiet_trans : Transitive quiet.
Proof using. intros w1 w2 w3 [H1 A1] [H2 A2]. split; [congruence|by etrans]. Qed.
Lemma reads_quiet {A} (c : eff X goError A) : (∀ x r x', c x = (r, x') → asks x x') → keeps quiet (reads c).
Proof using.
  intros Hc w r w'. unfold reads. destruct (c (w_x w)) as [[a|e] x] eqn:E; intros [= _ <-]; (split; [done|]); by eapply rtc_once, Hc.
Qed.
Lemma withJobs_quiet {E A} env f : keeps quiet (withJobs (E:=E) (A:=A) (X:=X) env f).
Proof using. intros w r w'. unfold withJobs. destruct (f _ _). by intros [= _ <-]. Qed.
End facts.

(** Solves goals [keeps R c] for an operation built from the ones with a lemma. *)
Ltac keeps_tac refl trans base :=
  repeat first [ base | apply keeps_returns; apply refl | apply keeps_throws; apply refl | apply keeps_liftRes; apply refl
               | apply keeps_andThen; [apply trans| |intros ?] | progress case_match ].
Ltac quietly := keeps_tac quiet_refl quiet_trans ltac:(first [apply reads_quiet; solve [eauto using asks] | apply withJobs_quiet]).

Section starting.
Context {X : Type} (ToLower : string → string) (reader : stackReader X) `{!MapRange Resource string}.
#[local] Existing Instance quiet_refl.
#[local] Existing Instance quiet_trans.

Lemma checkSelected_quiet ids : keeps (quiet reader) (checkSelected reader ids).
Proof using. induction ids as [|i ids IH]; cbn [checkSelected]; quietly. exact IH. Qed.
Lemma updatable_quiet ids : keeps (quiet reader) (updatable reader ids).
Proof using. induction ids as [|i ids IH]; cbn [updatable]; quietly. exact IH. Qed.
Lemma includedServices_quiet ids excluded result : keeps (quiet reader) (includedServices reader ids excluded result).
Proof using. revert result. induction ids as [|i ids IH]; intros result; cbn [includedServices]; quietly; apply IH. Qed.
Lemma stackSteps_quiet services options keep stackID : keeps (quiet reader) (stackSteps reader services options keep stackID).
Proof using. unfold stackSteps, maintenanceNeedsBuild. quietly. Qed.
Lemma buildEach_quiet targets options keep ids : keeps (quiet reader) (buildEach reader targets options keep ids).
Proof using. induction ids as [|i ids IH]; cbn [buildEach]; quietly; [apply stackSteps_quiet|exact IH]. Qed.
Lemma ResolveTargetStacks_quiet mode ids : keeps (quiet reader) (ResolveTargetStacks reader mode ids).
Proof using. unfold ResolveTargetStacks. pose proof checkSelected_quiet. pose proof updatable_quiet. quietly; eauto. Qed.
Lemma resolveUpdateServiceTargets_quiet ids excluded : keeps (quiet reader) (resolveUpdateServiceTargets reader ids excluded).
Proof using. unfold resolveUpdateServiceTargets. quietly. apply includedServices_quiet. Qed.
Lemma announceFirst_quiet env message job workflow : keeps (quiet reader) (announceFirst (X:=X) env message job workflow).
Proof using. unfold announceFirst, publish. quietly. Qed.

Lemma guarded {A} fails e (k : unit → eff (world X) plan_error A) w r w' : andThen (liftRes (guard_err fails e)) k w = (Ok r, w') → fails = false ∧ k tt w = (Ok r, w').
Proof using. intros [(x & _ & ?)|(u & w1 & H & Hk)]%andThen_inv; [done|]. destruct fails; [done|]. injection H as <- <-. done. Qed.

(** The job has its resources the moment it is started. *)
Lemma startJob_inv env requestID action by_ workflow resources (w w' : world X) job : startJob env requestID action by_ workflow resources w = (Ok job, w') →
  quiet reader w w' ∧ job_workflow job = match workflow with [] => None | _ => Some (mkWorkflow workflow) end ∧
  ∃ rs, normalizeResources "" resources = Ok rs ∧ ∀ r, r ∈ rs → lockedByResource (locks (w_jobs w')) !! r = Some (job_id job).
Proof using.
  intros [(e & _ & ?)|(r & w1 & H & Hk)]%andThen_inv; [done|]. pose proof (withJobs_quiet reader _ _ _ _ _ H) as Hq. destruct r as [j|e]; [|done]. injection Hk as <- <-. split; [exact Hq|].
  unfold withJobs in H. destruct (StartWithResourcesAndWorkflow _ _ _ _ _ _ _ _ _ _) as [r s] eqn:Es. injection H as -> <-. cbn [w_jobs]. split.
  - unfold StartWithResourcesAndWorkflow, start in Es. repeat case_match; simplify_eq; done.
  - unfold StartWithResourcesAndWorkflow in Es. apply start_success in Es as (_ & (rs & Hn & _ & Hl) & _). exists rs. split; [done|exact Hl].
Qed.

Lemma listManaged_quiet : keeps (quiet reader) (listManagedStackIDs reader).
Proof using. unfold listManagedStackIDs. quietly. Qed.
Lemma listManaged_inv (w w' : world X) managed : listManagedStackIDs reader w = (Ok managed, w') →
  ∃ x ids x', ListStacks reader x = (Ok ids, x') ∧ managed = sort_strings ids.
Proof using.
  intros [(e & _ & ?)|(ids & w1 & H & Hk)]%andThen_inv; [done|]. injection Hk as <- _. unfold reads in H. destruct (ListStacks reader (w_x w)) as [[l|e] x] eqn:E; [|done].
  injection H as <- _. by exists (w_x w), l, x.
Qed.

(** The stacks a selection stands for. *)
Lemma dedupeSorted_elem l id : id ∈ dedupeSortedStrings l ↔ denotes l id.
Proof using.
  unfold dedupeSortedStrings, sort_strings, denotes. rewrite sort_by_elem, elem_of_elements, elem_of_list_to_set, list_elem_of_filter, list_elem_of_fmap. clear. naive_solver.
Qed.
Lemma ResolveTargets_selected ids (w w' : world X) targets : ResolveTargetStacks reader "selected" ids w = (Ok targets, w') → ∀ id, id ∈ targets ↔ denotes ids id.
Proof using.
  unfold ResolveTargetStacks. cbn [str_eqb]. destruct ids as [|i ids]; [done|]. intros H. change (str_eqb "selected" "selected") with true in H. cbn iota in H.
  apply andThen_inv in H as [(e & _ & ?)|([] & w1 & _ & H)]; [done|]. injection H as <- _. intros id. apply dedupeSorted_elem.
Qed.

Lemma StartUpdate_quiet env requestID request by_ : keeps (quiet reader) (StartUpdate ToLower reader env requestID request by_).
Proof using.
  unfold StartUpdate, listManagedStackIDs, startJob, buildUpdateWorkflow. pose proof ResolveTargetStacks_quiet. pose proof resolveUpdateServiceTargets_quiet. pose proof buildEach_quiet.
  pose proof announceFirst_quiet. quietly; eauto.
Qed.

Lemma StartUpdate_inv env requestID request by_ (w w' : world X) job run : StartUpdate ToLower reader env requestID request by_ w = (Ok (job, run), w') →
  ur_request run = request ∧ (RemoveOrphans (rq_options request) && hasServiceExclusions (ExcludedServices (rq_target request))) = false ∧ w_calls w' = w_calls w ∧
  (∃ targets steps, leftOver (ExcludedServices (rq_target request)) (ur_targets run) targets ∧ Forall (planned targets (rq_options request) (ur_targets run)) steps ∧
     ur_workflow run = markWorkflowRunning steps 0 ∧
     ∃ ws ws', rtc (asks reader) (w_x w) (w_x ws) ∧ buildEach reader targets (rq_options request)
       (str_eqb (Mode (rq_target request)) "all" || str_eqb (rq_trigger request) "scheduled" || PreserveInactive (rq_options request)) (ur_targets run) ws = (Ok steps, ws')) ∧
  (∃ wr wr', ResolveTargetStacks reader (Mode (rq_target request)) (StackIDs (rq_target request)) wr = (Ok (ur_targets run), wr')) ∧
  (if PruneAfter (rq_options request) && IncludeVolumes (rq_options request)
   then ∃ x ids x', ListStacks reader x = (Ok ids, x') ∧ ur_managed run = sort_strings ids
   else ur_managed run = ur_targets run) ∧
  (∃ wj, startJob env requestID "update_stacks" by_ (ur_workflow run) (match StackResources (ur_managed run) with [] => [GlobalResource] | l => l end) wj.1 = (Ok job, wj.2) ∧
     announceFirst env (updateStepMessage ToLower "Starting") job (ur_workflow run) wj.2 = (Ok tt, w')).
Proof using.
  intros H. split; [|split; [|split; [exact (proj1 (StartUpdate_quiet _ _ _ _ _ _ _ H))|]]]; revert H; unfold StartUpdate; intros [_ [Ho H]%guarded]%guarded;
  (apply andThen_inv in H as [(e & _ & ?)|(targets & w1 & H1 & H)]; [done|]; apply andThen_inv in H as [(e & _ & ?)|(managed & w2 & H2 & H)]; [done|];
   apply andThen_inv in H as [(e & _ & ?)|(services & w3 & H3 & H)]; [done|]; apply andThen_inv in H as [(e & _ & ?)|(steps & w4 & H4 & H)]; [done|];
   apply andThen_inv in H as [(e & _ & ?)|(j & w5 & H5 & H)]; [done|]; apply andThen_inv in H as [(e & _ & ?)|([] & w6 & H6 & H)]; [done|]; injection H as <- <- <-);
  cbn [ur_request ur_targets ur_workflow ur_managed]; [done..|].
  assert (quiet reader w w3) as Hq.
  { transitivity w1; [exact (ResolveTargetStacks_quiet _ _ _ _ _ H1)|]. transitivity w2; [|exact (resolveUpdateServiceTargets_quiet _ _ _ _ _ H3)].
    revert H2. destruct (PruneAfter _ && IncludeVolumes _); [|intros Hk; by injection Hk as _ <-]. apply listManaged_quiet. }
  split; [|split; [by eexists _, _|split; [|by exists (w4, w5)]]].
  - exists services, steps. split_and!; [by eapply resolveUpdateServiceTargets_leftOver|by eapply buildEach_shape|done|].
    exists w3, w4. split; [exact (proj2 Hq)|exact H4].
  - destruct (PruneAfter _ && IncludeVolumes _); [|by injection H2 as <- _]. by eapply listManaged_inv.
Qed.

(** Other goroutines leave the locks of a running job alone. *)
Definition keepsLocks (env : Env) (jobID : string) : Prop :=
  ∀ n s r, lockedByResource (locks s) !! r = Some jobID → lockedByResource (locks (e_others env n s)) !! r = Some jobID.

Lemma publish_locks env job eventType message data step (w w' : world X) r (x : res plan_error unit) : keepsLocks env (job_id job) →
  lockedByResource (locks (w_jobs w)) !! r = Some (job_id job) → publish env job eventType message data step w = (x, w') → lockedByResource (locks (w_jobs w')) !! r = Some (job_id job).
Proof using.
  intros Ho Hr. unfold publish, withJobs. intros [= _ <-]. cbn [w_jobs]. apply (Ho (w_tick w)) in Hr. unfold PublishEvent, PublishEventWithProgress. by destruct (AppendJobEvent _ _ _) as [[ev db]|e].
Qed.


(** The steps of a stack whose inactivity is to be preserved: it is only started
    when the reader has just said that it is neither defined nor stopped. *)
Lemma stackSteps_up services options stackID (w w' : world X) steps st :
  stackSteps reader services options true stackID w = (Ok steps, w') → st ∈ steps → step_action st = "up" →
  ∃ d x', GetStack reader stackID (w_x w) = (Ok d, x') ∧ sk_runtime d ∉ ["defined"; "stopped"].
Proof using.
  intros H Hst Hup. destruct (decide (services = Some [])) as [->|Hne]; [injection H as <- _; by apply list_elem_of_singleton in Hst as ->|].
  assert ((do! detail := reads (GetStack reader stackID) in
    do! build := (if BuildImages options
        then do! needsBuild := maintenanceNeedsBuild reader stackID services in returns (if needsBuild : bool then [queued "build" stackID (default [] services)] else [])
        else returns []) in
    returns ((if PullImages options then [queued "pull" stackID (default [] services)] else []) ++ build ++
        [if str_in (sk_runtime detail) ["defined"; "stopped"] then queued "preserve_inactive" stackID [] else queued "up" stackID (default [] services)])) w = (Ok steps, w')) as H'.
  { revert H. unfold stackSteps, andThen. destruct services as [[|s l]|]; [done|..]; by destruct (reads (GetStack reader stackID) w) as [[d|e] w1]. }
  clear H. apply andThen_inv in H' as [(e & _ & ?)|(d & w1 & Hd & H)]; [done|]. apply andThen_inv in H as [(e & _ & ?)|(bl & w2 & Hb & H)]; [done|]. injection H as <- _.
  unfold reads in Hd. destruct (GetStack reader stackID (w_x w)) as [[d0|e] x']; [|done]. injection Hd as -> _. exists d, x'. split; [done|]. intros Hrt.
  unfold str_in in Hst. rewrite bool_decide_true in Hst by done. apply elem_of_app in Hst as [Hst|[Hst|Hst]%elem_of_app].
  - destruct (PullImages options); [by apply list_elem_of_singleton in Hst as ->|by apply elem_of_nil in Hst].
  - destruct (BuildImages options); [|injection Hb as <- _; by apply elem_of_nil in Hst]. apply andThen_inv in Hb as [(e & _ & ?)|(nb & w3 & _ & Hb)]; [done|]. injection Hb as <- _.
    destruct nb; [by apply list_elem_of_singleton in Hst as ->|by apply elem_of_nil in Hst].
  - by apply list_elem_of_singleton in Hst as ->.
Qed.

Lemma buildEach_up targets options ids stackID (w w' : world X) steps st : stackID ≠ "" →
  buildEach reader targets options true ids w = (Ok steps, w') → st ∈ steps → step_target st = stackID → step_action st = "up" →
  ∃ x d x', rtc (asks reader) (w_x w) x ∧ GetStack reader stackID x = (Ok d, x') ∧ sk_runtime d ∉ ["defined"; "stopped"].
Proof using.
  intros Hne H Hst Ht Hup. revert w w' steps H Hst. induction ids as [|i ids IH]; intros w w' steps H Hst; cbn [buildEach] in H.
  { injection H as <- _. destruct (PruneAfter options); [by apply list_elem_of_singleton in Hst as ->|by apply elem_of_nil in Hst]. }
  apply andThen_inv in H as [(e & _ & ?)|(l1 & w1 & H1 & H)]; [done|]. apply andThen_inv in H as [(e & _ & ?)|(l2 & w2 & H2 & H)]; [done|]. injection H as <- _.
  apply elem_of_app in Hst as [Hst|Hst].
  - pose proof (stackSteps_shape _ _ _ _ _ _ _ _ H1) as Hshape. rewrite Forall_forall in Hshape. destruct (Hshape st Hst) as [Hi _].
    destruct (stackSteps_up _ _ _ _ _ _ _ H1 Hst Hup) as (d & x' & Hget & Hrt). exists (w_x w), d, x'. by rewrite <- Ht, Hi.
  - destruct (IH _ _ _ H2 Hst) as (x & d & x' & Hx & Hget). exists x, d, x'. split; [|done]. etrans; [|exact Hx]. exact (proj2 (stackSteps_quiet _ _ _ _ _ _ _ H1)).
Qed.
End starting.

(** ** A concrete host

    Two stacks: [web] runs, [old] is stopped.  The first command fails with a
    timeout.  The state of the surroundings counts the steps run. *)

#[local] Existing Instance demoRange.

Definition demoWeb : stackInfo := mkStackInfo ["up"; "stop"] "running" [mkServiceInfo "app" "image" None; mkServiceInfo "db" "image" None].
Definition demoOld : stackInfo := mkStackInfo ["up"] "stopped" [mkServiceInfo "main" "build" None].
Definition demoTimeout : goError := mkErr "dial tcp: i/o timeout" false false.
Definition demoStep (x : nat) : stepOutcome * nat := (mkOutcome [mkStepProgress 1 2 "layer"] "pulling" (match x with O => Some demoTimeout | S _ => None end), S x).
Definition demoReader : stackReader nat :=
  mkReader nat (returns ["web"; "old"])
    (λ stackID, if str_eqb stackID "web" then returns demoWeb else if str_eqb stackID "old" then returns demoOld else throws (mkErr "stack not found" false false))
    (λ _, returns false) (λ _ _ _, demoStep) (λ _ _ _ x, (None, x)) (λ _ _ x, (None, x)).
Definition demoRunner : pruneRunner nat := mkRunner nat (λ _ _ x, (("", None), x)) (λ _ _ x, (("", None), x)).
Definition demoEnv : Env := mkEnv (λ _, None) (λ _, None) (λ _, None) (λ n, (demoTime + Z.of_nat n * Second)%Z) (λ n, pretty n) (λ _ s, s) (λ _, None).
Definition demoWorld : world nat := mkWorld 0%nat demoService 0 None [].
Definition demoUpdate : UpdateRequest :=
  mkUpdateRequest (mkTarget "selected" ["web"; "old"] {["web" := ["db"]]}) (mkOptions true false false true true true) "manual" "".
Definition demoPlanned : res plan_error (Job * UpdateRun) * world nat := StartUpdate (λ s, s) demoReader demoEnv "req" demoUpdate "local" demoWorld.
Definition demoUpdateRun : UpdateRun :=
  mkUpdateRun demoUpdate ["old"; "web"] ["old"; "web"]
    [mkStep "pull" "running" "old" []; mkStep "preserve_inactive" "queued" "old" []; mkStep "pull" "queued" "web" ["app"]; mkStep "up" "queued" "web" ["app"]; mkStep "prune" "queued" "" []].
Definition demoUpdateJob : Job := match demoPlanned.1 with Ok (job, _) => job | Err _ => demoJob end.

Lemma demo_planned : StartUpdate (λ s, s) demoReader demoEnv "req" demoUpdate "local" demoWorld = (Ok (demoUpdateJob, demoUpdateRun), demoPlanned.2).
Proof. vm_compute. reflexivity. Qed.

