(* ===== verification/MaintenanceJobs.v ===== *)
(** * internal/maintenancejobs/service.go: executing an update or a prune

    The loop over the steps of a workflow: retries, failures that block only their
    stack, cancellation, the persisted states and the end of the job.  A step of
    the model is a call of the job service; before each of them other goroutines
    may change the service and the context of the job may end ([withJobs] in
    MaintenancePlan).  [strings.ToLower] and [encoding/json] are parameters;
    logging is left out. *)

From stdpp Require Import gmap strings list pretty.
From Stdlib Require Import Ascii ZArith Lia.
From S2P Require Import Prelude GoStrings GoPath GoTime Effects JobsResource JobsLocks Store JobsService StoreAudit AuditService SchedulerTime MaintenancePlan.

Local Open Scope Z_scope.

Definition maintenanceErrorSummaryLimit : nat := 1024.
Definition maintenanceErrorMessageLimit : nat := 4096.
Definition defaultUpdateStepRetryDelays : list Duration := [5 * Second; 20 * Second].

Record updateStepFailure := mkFailure { uf_stack : string; uf_action : string; uf_attempts : nat; uf_message : string }.
Record updateStepResult := mkStepResult { rs_attempts : nat; rs_output : string }.

Inductive maintenance_job_error :=
| ErrFinish (e : jobs_error)
| ErrJoined (e : jobs_error) (finish : option jobs_error)
| ErrStart (e : plan_error).

(** ** Texts *)

Definition newline : string := str1 (chr 10).
Definition ellipsis : string := String (chr 226) (String (chr 128) (str1 (chr 166))).
Definition truncateRunes (value : string) (limit : nat) : string :=
  let value := trim_space value in
  match limit with
  | O => ""
  | S most => let rs := runes value in if (length rs <=? limit)%nat then value else trim_space (String.concat "" (take most rs)) +:+ ellipsis
  end.
(** The last line that is not blank. *)
Definition summarizeMaintenanceError (output : string) (err : goError) : string :=
  let message := trim_space output in
  let message := if str_empty message then trim_space (err_text err) else message in
  let lines := split (ReplaceAll message (str1 (chr 13) +:+ newline) newline) (chr 10) in
  match filter (λ l, l ≠ "") (trim_space <$> reverse lines) with
  | line :: _ => truncateRunes line maintenanceErrorSummaryLimit
  | [] => "Maintenance step failed."
  end.
Definition updateStepTarget (st : JobWorkflowStep) : string := if str_empty (step_target st) then "workspace" else step_target st.
Definition updateFailureTarget (f : updateStepFailure) : string := if str_empty (uf_stack f) then "workspace" else uf_stack f.
Definition updateStepFailureMessage (f : updateStepFailure) : string :=
  maintenanceActionLabel (uf_action f) +:+ " failed for " +:+ updateFailureTarget f +:+ " after " +:+ pretty (uf_attempts f) +:+ " attempt(s): " +:+ uf_message f.
Definition aggregateUpdateFailureMessage (failures : list updateStepFailure) : string :=
  let label := match failures with [_] => "update step failed" | _ => "update steps failed" end in
  let parts := (λ f, updateFailureTarget f +:+ "/" +:+ uf_action f +:+ " after " +:+ pretty (uf_attempts f) +:+ " attempt(s): " +:+ uf_message f) <$> failures in
  truncateRunes (pretty (length failures) +:+ " " +:+ label +:+ ": " +:+ join "; " parts) maintenanceErrorMessageLimit.
(** [Duration.String] of a whole number of seconds below a minute. *)
Definition durationText (d : Duration) : string := pretty (d / Second) +:+ "s".
Definition TrimSuffix (s suffix : string) : string := if has_suffix s suffix then str_take (slen s - slen suffix) s else s.
Definition terminalStepVerb (terminalState : string) : string :=
  if str_eqb terminalState "cancelled" then "Cancelled" else if str_eqb terminalState "timed_out" then "Timed out" else "Failed".

(** ** Audit details *)

Definition DFlags (l : list (string * bool)) : detail := DMap l.*1 (DBool <$> l.*2).
Definition triggerDetails (trigger scheduleKey : string) (d : details) : details :=
  let d := if str_empty trigger then d else <["trigger" := DText trigger]> d in
  if str_empty scheduleKey then d else <["schedule_key" := DText scheduleKey]> d.
Definition normalizeExcludedServices (excluded : gmap string (list string)) : gmap string (list string) :=
  filter (λ e, e.2 ≠ []) (dedupeSortedStrings <$> excluded).
Definition updateAuditDetails (request : UpdateRequest) (stackIDs : list string) : details :=
  let o := rq_options request in
  let d := <["target_mode" := DText (Mode (rq_target request))]> (<["stack_ids" := DTexts stackIDs]> (<["options" := DFlags
    [("pull_images", PullImages o); ("build_images", BuildImages o); ("remove_orphans", RemoveOrphans o); ("preserve_inactive", PreserveInactive o);
     ("prune_after", PruneAfter o); ("include_volumes", IncludeVolumes o)]]> ∅)) in
  let excluded := map_to_list (normalizeExcludedServices (ExcludedServices (rq_target request))) in
  let d := if hasServiceExclusions (ExcludedServices (rq_target request)) then <["excluded_services" := DMap excluded.*1 (DTexts <$> excluded.*2)]> d else d in
  triggerDetails (rq_trigger request) (rq_schedule request) d.
Definition updateFailureAuditDetails (failures : list updateStepFailure) : detail :=
  DMaps ((λ f, DMap ["stack_id"; "action"; "attempts"; "message"] [DText (uf_stack f); DText (uf_action f); DNumber (Z.of_nat (uf_attempts f)); DText (uf_message f)]) <$> failures).
Definition pruneAuditDetails (request : PruneRequest) : details :=
  let s := pq_scope request in
  triggerDetails (pq_trigger request) (pq_schedule request)
    {["scope" := DFlags [("images", Images s); ("build_cache", BuildCache s); ("stopped_containers", StoppedContainers s); ("volumes", Volumes s)]]}.

(** ** Decisions *)

Definition updateStepInvalidatesImageUpdates (action : string) : bool := str_eqb action "pull" || str_eqb action "build".

(** The reason to skip a step. *)
Definition updateStepSkipReason (ToLower : string → string) (st : JobWorkflowStep) (failures : list updateStepFailure) (blocked : gmap string updateStepFailure) : string :=
  if str_eqb (step_action st) "prune" && negb (bool_decide (failures = [])) then "Skipped prune because one or more stack updates failed."
  else match blocked !! step_target st with
  | Some failure =>
    if str_empty (step_target st) then ""
    else "Skipped " +:+ ToLower (maintenanceActionLabel (step_action st)) +:+ " for " +:+ step_target st +:+ " because " +:+
         ToLower (maintenanceActionLabel (uf_action failure)) +:+ " failed."
  | None => ""
  end.

Definition retryMarkers : list string :=
  ["context deadline exceeded"; "tls handshake timeout"; "client.timeout exceeded"; "i/o timeout"; "connection reset by peer"; "connection refused";
   "unexpected eof"; "temporary failure in name resolution"; "no such host"; "server misbehaving"; "toomanyrequests"; "too many requests";
   "status code 429"; "retry-after"; "service unavailable"; "bad gateway"; "gateway timeout"].
Definition isRetryableUpdateStepError (ToLower : string → string) (ctx : option ctxError) (output : string) (err : goError) : bool :=
  if bool_decide (ctx ≠ None) || is_canceled err then false
  else if is_deadline err then true
  else existsb (contains (ToLower (trim_space (output +:+ newline +:+ err_text err)))) retryMarkers.

#[global] Instance ctxError_eq_dec : EqDecision ctxError.
Proof. solve_decision. Defined.
(** The state, the code and the message with which a job ends early. *)
Definition maintenanceFailure (ctx : option ctxError) (defaultCode : string) (err : goError) (cancelRequested : bool) : string * string * string :=
  if bool_decide (ctx = Some CtxDeadlineExceeded) || is_deadline err
  then ("timed_out", TrimSuffix defaultCode "_failed" +:+ "_timed_out", "Maintenance job timed out.")
  else if cancelRequested && (bool_decide (ctx = Some CtxCanceled) || is_canceled err)
  then ("cancelled", TrimSuffix defaultCode "_failed" +:+ "_cancelled", "Maintenance job was cancelled.")
  else ("failed", defaultCode, err_text err).

Definition progressUnit (action : string) : string :=
  if str_eqb action "pull" then "layers" else if str_eqb action "build" then "steps"
  else if str_in action ["up"; "skip"; "preserve_inactive"] then "services" else "items".

(** ** Execution *)

Section execute.
Context {X : Type} (ToLower : string → string) (Marshal : details → option string) (asError : jobs_error → goError)
  (reader : stackReader X) (runner : pruneRunner X) `{!MapRange Resource string}.

(** An early return is a thrown result. *)
Definition result : Type := res maintenance_job_error Job.
Abbreviation M := (eff (world X) result).

(** A call to the surroundings; meanwhile other goroutines run and the context may end. *)
Definition outside {A} (env : Env) (c : call) (err : A → option goError) (f : X → A * X) : M A := λ w,
  let n := w_tick w in
  let '(a, x) := f (w_x w) in
  (Ok a, mkWorld x (e_others env n (w_jobs w)) (S n) (match w_ctx w with Some e => Some e | None => e_ctx env n end) (w_calls w ++ [(c, err a)])).
Definition contextError : M (option ctxError) := λ w, (Ok (w_ctx w), w).
Definition ctxGoError (e : ctxError) : goError :=
  match e with CtxCanceled => mkErr "context canceled" true false | CtxDeadlineExceeded => mkErr "context deadline exceeded" false true end.
(** [waitForRetry]: the context ended during the wait, or the timer fired. *)
Definition waitForRetry (env : Env) : M (option goError) :=
  do! _ := withJobs env (λ _ s, (tt, s)) in do! ctx := contextError in returns (ctxGoError <$> ctx).

Definition updateWorkflow (env : Env) (job : Job) (steps : list JobWorkflowStep) : M (res jobs_error Job) :=
  withJobs env (λ n s, UpdateWorkflow (e_io env n) s job steps).
Definition jobCancelRequested (env : Env) (jobID : string) : M bool :=
  let env := jobFinalizationContext env in
  withJobs env (λ n s, (match Get (e_io env n) s jobID with Ok job => str_eqb (job_state job) "cancel_requested" | Err _ => false end, s)).
Definition recordJob (env : Env) (job : Job) (d : details) : M unit :=
  withJobs env (λ n s, (tt, match RecordJob Marshal (mkAuditEnv (e_io env n) (e_token env n) (e_now env n)) (store s) job d with Ok db => with_store s db | Err _ => s end)).
Definition finishMaintenanceJob (env : Env) (job : Job) (terminalState errorCode errorMessage : string) : M (res jobs_error Job) :=
  withJobs env (λ n s,
    if str_eqb terminalState "timed_out" then FinishTimedOut (e_io env n) (e_io2 env n) (e_now env n) s job errorCode errorMessage
    else if str_eqb terminalState "cancelled" then FinishCancelled (e_io env n) (e_io2 env n) (e_now env n) s job errorCode errorMessage
    else FinishFailed (e_io env n) (e_io2 env n) (e_now env n) s job errorCode errorMessage).

(** *** One step and its attempts *)

Definition progressPublisher (env : Env) (job : Job) (st : JobWorkflowStep) (stepRef : option JobEventStep) (p : StepProgress) : M unit :=
  withJobs env (λ n s, (tt, snd (PublishEventWithProgress (e_io env n) (e_now env n) s job "job_progress" (updateStepMessage ToLower "Progress" st) "" stepRef
    (Some (mkProgress (step_action st) (sp_completed p) (sp_total p) (progressUnit (step_action st)) (sp_detail p)))))).
Fixpoint publishProgress (env : Env) (job : Job) (st : JobWorkflowStep) (stepRef : option JobEventStep) (l : list StepProgress) : M unit :=
  match l with [] => returns tt | p :: rest => do! _ := progressPublisher env job st stepRef p in publishProgress env job st stepRef rest end.

Definition runUpdateWorkflowStep (env : Env) (st : JobWorkflowStep) (options : UpdateOptions) (managed : list string) : M stepOutcome :=
  if str_eqb (step_action st) "prune" then
    do! r := outside env (CallSystemPrune (IncludeVolumes options) managed) snd (RunSystemPrune runner (IncludeVolumes options) managed) in
    returns (mkOutcome [] r.1 r.2)
  else if str_eqb (step_action st) "skip" then
    returns (mkOutcome [] ("Skipped " +:+ step_target st +:+ " because all services are excluded.") None)
  else if str_eqb (step_action st) "preserve_inactive" then
    returns (mkOutcome [] ("Skipped deployment for " +:+ step_target st +:+ " because it was inactive before maintenance.") None)
  else
    let o := mkStepOptions (RemoveOrphans options) (step_services st) in
    outside env (CallStep (step_target st) (step_action st) o) oc_err (RunMaintenanceStepStreaming reader (step_target st) (step_action st) o).

(** [delays] are the waits that are left; the recursion is the loop over the attempts. *)
Fixpoint attemptStep (env : Env) (job : Job) (st : JobWorkflowStep) (stepRef : option JobEventStep) (options : UpdateOptions) (managed : list string)
    (delays : list Duration) (attempt : nat) : M (updateStepResult * option goError) :=
  let maxAttempts := (attempt + length delays)%nat in
  do! oc := runUpdateWorkflowStep env st options managed in
  do! _ := publishProgress env job st stepRef (oc_progress oc) in
  let output := oc_output oc in
  let message := updateStepMessage ToLower "Output" st in
  let message := if (1 <? attempt)%nat then TrimSuffix message "." +:+ " Attempt " +:+ pretty attempt +:+ "/" +:+ pretty maxAttempts +:+ "." else message in
  do! _ := (if str_empty (trim_space output) then returns tt else publish env job "job_log" message (trim_space output) stepRef) in
  let done := mkStepResult attempt output in
  match oc_err oc, delays with
  | None, _ => returns (done, None)
  | Some err, [] => returns (done, Some err)
  | Some err, delay :: rest =>
    do! ctx := contextError in
    if negb (isRetryableUpdateStepError ToLower ctx output err) then returns (done, Some err)
    else
      do! _ := publish env job "job_warning"
        (maintenanceActionLabel (step_action st) +:+ " attempt " +:+ pretty attempt +:+ "/" +:+ pretty maxAttempts +:+ " failed for " +:+ updateStepTarget st +:+
         "; retrying in " +:+ durationText delay +:+ ".")
        (summarizeMaintenanceError output err) stepRef in
      do! waited := waitForRetry env in
      match waited with Some waitErr => returns (done, Some waitErr) | None => attemptStep env job st stepRef options managed rest (S attempt) end
  end.
Definition retryDelays (st : JobWorkflowStep) : list Duration := if str_in (step_action st) ["pull"; "build"] then defaultUpdateStepRetryDelays else [].
Definition runUpdateWorkflowStepWithRetry (env : Env) (job : Job) (workflow : list JobWorkflowStep) (index : nat) (st : JobWorkflowStep) (options : UpdateOptions) (managed : list string)
    : M (updateStepResult * option goError) :=
  attemptStep env job st (workflowStepRef workflow index) options managed (retryDelays st) 1.

(** *** Ends *)

Definition with_state (job : Job) (state : string) : Job :=
  mkJob (job_id job) (job_stack job) (job_action job) state (job_requested_by job) (job_request_id job) (job_requested_at job) (job_started_at job)
    (job_finished_at job) (job_workflow job) (job_error_code job) (job_error_message job).
(** [finishUpdateFailure] and [finishPruneFailure]: the workflow is updated if
    possible, the step is announced as finished, then the job ends. *)
Definition finishFailure (env : Env) (message : string → JobWorkflowStep → string) (d : details) (job : Job) (workflow : list JobWorkflowStep) (index : nat)
    (terminalState errorCode errorMessage : string) : M (res jobs_error Job) :=
  let workflow := markWorkflowState workflow index terminalState in
  do! updated := updateWorkflow env job workflow in
  let job := match updated with Ok j => j | Err _ => job end in
  do! _ := (match workflow !! index with
    | Some st => publish env (with_state job terminalState) "job_step_finished" (message (terminalStepVerb terminalState) st) "" (workflowStepRef workflow index)
    | None => returns tt end) in
  do! finished := finishMaintenanceJob env job terminalState errorCode errorMessage in
  match finished with
  | Err e => returns (Err e)
  | Ok finishedJob => do! _ := recordJob env finishedJob d in returns (Ok finishedJob)
  end.
Definition fromFinish (r : res jobs_error Job) : result := match r with Ok job => Ok job | Err e => Err (ErrFinish e) end.

(** The job ends because of [err]. *)
Definition failWith (env : Env) (message : string → JobWorkflowStep → string) (d : details) (code : string) (job : Job) (workflow : list JobWorkflowStep) (index : nat) (err : goError)
    : M (res jobs_error Job) :=
  do! requested := jobCancelRequested env (job_id job) in
  do! ctx := contextError in
  let '(terminalState, errorCode, errorMessage) := maintenanceFailure ctx code err requested in
  finishFailure (jobFinalizationContext env) message d job workflow index terminalState errorCode errorMessage.
Definition joined (e : jobs_error) (r : res jobs_error Job) : result := Err (ErrJoined e (match r with Ok _ => None | Err f => Some f end)).

Definition updateFailed (env : Env) (run : UpdateRun) := failWith env (updateStepMessage ToLower) (updateAuditDetails (ur_request run) (ur_targets run)) "update_stacks_failed".
(** [updatedJob, updateErr := UpdateWorkflow(...)] with the early return. *)
Definition saveWorkflow (env : Env) (run : UpdateRun) (job : Job) (workflow : list JobWorkflowStep) (index : nat) : M Job :=
  do! updated := updateWorkflow env job workflow in
  match updated with
  | Ok job => returns job
  | Err e => do! r := updateFailed env run job workflow index (asError e) in throws (joined e r)
  end.

(** *** The loop of an update *)

Record loopState := mkLoop { ls_job : Job; ls_workflow : list JobWorkflowStep; ls_failures : list updateStepFailure; ls_blocked : gmap string updateStepFailure }.

Definition skipStep (env : Env) (run : UpdateRun) (index : nat) (reason : string) (l : loopState) : M loopState :=
  let workflow := markWorkflowState (ls_workflow l) index "skipped" in
  do! job := saveWorkflow env run (ls_job l) workflow index in
  do! _ := publish env job "job_step_finished" reason "" (workflowStepRef workflow index) in
  returns (mkLoop job workflow (ls_failures l) (ls_blocked l)).
Definition beginStep (env : Env) (run : UpdateRun) (index : nat) (st : JobWorkflowStep) (l : loopState) : M loopState :=
  if str_eqb (step_state st) "running" then returns l
  else
    let workflow := markWorkflowRunning (ls_workflow l) index in
    do! job := saveWorkflow env run (ls_job l) workflow index in
    do! _ := publish env job "job_step_started" (updateStepMessage ToLower "Starting" (set_step_state "running" st)) "" (workflowStepRef workflow index) in
    returns (mkLoop job workflow (ls_failures l) (ls_blocked l)).
Definition failStep (env : Env) (run : UpdateRun) (index : nat) (st : JobWorkflowStep) (r : updateStepResult) (err : goError) (l : loopState) : M loopState :=
  do! ctx := contextError in
  if bool_decide (ctx ≠ None) || is_canceled err then
    do! r := updateFailed env run (ls_job l) (ls_workflow l) index err in throws (fromFinish r)
  else
    let failure := mkFailure (step_target st) (step_action st) (rs_attempts r) (summarizeMaintenanceError (rs_output r) err) in
    let blocked := if str_empty (step_target st) then ls_blocked l else <[step_target st := failure]> (ls_blocked l) in
    let workflow := markWorkflowState (ls_workflow l) index "failed" in
    do! job := saveWorkflow env run (ls_job l) workflow index in
    do! _ := publish env job "job_error" (updateStepFailureMessage failure) "" (workflowStepRef workflow index) in
    do! _ := publish env job "job_step_finished" (updateStepMessage ToLower "Failed" st) "" (workflowStepRef workflow index) in
    returns (mkLoop job workflow (ls_failures l ++ [failure]) blocked).
Definition succeedStep (env : Env) (run : UpdateRun) (index : nat) (st : JobWorkflowStep) (l : loopState) : M loopState :=
  do! _ := (if negb (str_empty (step_target st)) && updateStepInvalidatesImageUpdates (step_action st)
    then do! _ := outside env (CallInvalidate (step_target st) (step_services st)) (λ e, e) (InvalidateImageUpdateStatus reader (step_target st) (step_services st)) in returns tt
    else returns tt) in
  do! _ := (if str_eqb (step_action st) "up" && negb (str_empty (step_target st)) && bool_decide (step_services st = [])
    then do! now := withJobs env (λ n s, (e_now env n, s)) in
         do! _ := outside env (CallBaseline (step_target st) (job_id (ls_job l))) (λ e, e) (RecordDeployBaseline reader (step_target st) (job_id (ls_job l)) now) in returns tt
    else returns tt) in
  let workflow := markWorkflowSucceeded (ls_workflow l) index in
  do! job := saveWorkflow env run (ls_job l) workflow index in
  do! _ := publish env job "job_step_finished" (updateStepMessage ToLower "Finished" st) "" (workflowStepRef workflow index) in
  returns (mkLoop job workflow (ls_failures l) (ls_blocked l)).

Definition stepOnce (env : Env) (run : UpdateRun) (index : nat) (l : loopState) : M loopState :=
  match ls_workflow l !! index with
  | None => returns l
  | Some st =>
    let reason := updateStepSkipReason ToLower st (ls_failures l) (ls_blocked l) in
    if negb (str_empty reason) then skipStep env run index reason l
    else
      do! l := beginStep env run index st l in
      let st := set_step_state "running" st in
      do! outcome := runUpdateWorkflowStepWithRetry env (ls_job l) (ls_workflow l) index st (rq_options (ur_request run)) (ur_managed run) in
      match outcome.2 with
      | Some err => failStep env run index st outcome.1 err l
      | None => succeedStep env run index st l
      end
  end.
Fixpoint updateLoop (env : Env) (run : UpdateRun) (indices : list nat) (l : loopState) : M loopState :=
  match indices with [] => returns l | index :: rest => do! l := stepOnce env run index l in updateLoop env run rest l end.

Definition updateBody (env : Env) (job : Job) (run : UpdateRun) : M result :=
  let workflow := ur_workflow run in
  do! l := updateLoop env run (seq 0 (length workflow)) (mkLoop job workflow [] ∅) in
  let failures := ls_failures l in
  let d := updateAuditDetails (ur_request run) (ur_targets run) in
  let env := jobFinalizationContext env in
  do! finished := withJobs env (λ n s, match failures with
    | [] => FinishSucceeded (e_io env n) (e_io2 env n) (e_now env n) s (ls_job l)
    | _ => FinishFailed (e_io env n) (e_io2 env n) (e_now env n) s (ls_job l) "update_stacks_failed" (aggregateUpdateFailureMessage failures) end) in
  match finished with
  | Err e => returns (Err (ErrFinish e))
  | Ok finishedJob =>
    do! _ := recordJob env finishedJob (match failures with [] => d | _ => <["failed_steps" := updateFailureAuditDetails failures]> d end) in
    returns (Ok finishedJob)
  end.

(** The cancel function is registered while the body runs. *)
Definition cancellable (env : Env) (jobID : string) (body : M result) (w : world X) : result * world X :=
  let w := snd (withJobs (E:=result) env (λ n s, (tt, RegisterCancel s jobID n)) w) in
  let '(r, w) := body w in
  let w := snd (withJobs (E:=result) env (λ _ s, (tt, unregisterCancel s jobID)) w) in
  (match r with Ok r => r | Err r => r end, w).
Definition ExecuteUpdate (env : Env) (job : Job) (run : UpdateRun) : world X → result * world X := cancellable env (job_id job) (updateBody env job run).

Definition RunUpdate (env : Env) (requestID : string) (request : UpdateRequest) (requestedBy : string) (w : world X) : result * world X :=
  match StartUpdate ToLower reader env requestID request requestedBy w with
  | (Err e, w) => (Err (ErrStart e), w)
  | (Ok (job, run), w) => ExecuteUpdate env job run w
  end.

(** *** A prune *)

Fixpoint pruneLoop (env : Env) (run : PruneRun) (indices : list nat) (job : Job) (workflow : list JobWorkflowStep) : M Job :=
  match indices with
  | [] => returns job
  | index :: rest =>
    match workflow !! index with
    | None => returns job
    | Some st =>
      let failed := failWith env (pruneStepMessage ToLower) (pruneAuditDetails (pn_request run)) "prune_failed" in
      do! r := outside env (CallPruneStep (step_action st) (pn_targets run)) snd (RunPruneStep runner (step_action st) (pn_targets run)) in
      do! _ := (if str_empty (trim_space r.1) then returns tt
        else publish env job "job_log" (pruneStepMessage ToLower "Output" st) (trim_space r.1) (workflowStepRef workflow index)) in
      match r.2 with
      | Some err => do! r := failed job workflow index err in throws (fromFinish r)
      | None =>
        let workflow := markWorkflowSucceeded workflow index in
        do! _ := publish env job "job_step_finished" (pruneStepMessage ToLower "Finished" st) "" (workflowStepRef workflow index) in
        let running := markWorkflowRunning workflow (S index) in
        do! _ := (match workflow !! S index with
          | Some next => publish env job "job_step_started" (pruneStepMessage ToLower "Starting" next) "" (workflowStepRef running (S index))
          | None => returns tt end) in
        do! updated := updateWorkflow env job running in
        match updated with
        | Ok job => pruneLoop env run rest job running
        | Err e => do! r := failed job running index (asError e) in throws (joined e r)
        end
      end
    end
  end.
Definition pruneBody (env : Env) (job : Job) (run : PruneRun) : M result :=
  do! job := pruneLoop env run (seq 0 (length (pn_workflow run))) job (pn_workflow run) in
  let env := jobFinalizationContext env in
  do! finished := withJobs env (λ n s, FinishSucceeded (e_io env n) (e_io2 env n) (e_now env n) s job) in
  match finished with
  | Err e => returns (Err (ErrFinish e))
  | Ok finishedJob => do! _ := recordJob env finishedJob (pruneAuditDetails (pn_request run)) in returns (Ok finishedJob)
  end.
Definition ExecutePrune (env : Env) (job : Job) (run : PruneRun) : world X → result * world X := cancellable env (job_id job) (pruneBody env job run).
Definition RunPrune (env : Env) (requestID : string) (request : PruneRequest) (requestedBy : string) (managedStackIDs : list string) (w : world X) : result * world X :=
  match StartPrune ToLower env requestID request requestedBy managedStackIDs w with
  | (Err e, w) => (Err (ErrStart e), w)
  | (Ok (job, run), w) => ExecutePrune env job run w
  end.
End execute.

(** ** Which calls an update makes *)

(** The steps without their states. *)
Definition erased (steps : list JobWorkflowStep) : list JobWorkflowStep := set_step_state "" <$> steps.
Lemma erased_mark steps i state : erased (markWorkflowState steps i state) = erased steps.
Proof. unfold erased, markWorkflowState. apply list_eq. intros j. rewrite !list_lookup_fmap. destruct (decide (i = j)) as [->|Hne];
  [rewrite list_lookup_alter_eq|by rewrite list_lookup_alter_ne]. by destruct (steps !! j). Qed.
Lemma erased_lookup steps steps0 i st : erased steps = erased steps0 → steps !! i = Some st → ∃ st0, steps0 !! i = Some st0 ∧ st = set_step_state (step_state st) st0.
Proof.
  intros He Hi. assert (erased steps0 !! i = Some (set_step_state "" st)) as H by (rewrite <- He; unfold erased; by rewrite list_lookup_fmap, Hi).
  unfold erased in H. rewrite list_lookup_fmap in H. destruct (steps0 !! i) as [st0|]; [|done]. exists st0. split; [done|].
  destruct st, st0. unfold set_step_state in *. cbn in *. congruence.
Qed.

(** A call belongs to a step of the workflow of the run. *)
Definition ofRun (run : UpdateRun) (c : call) : Prop :=
  let options := rq_options (ur_request run) in
  match c with
  | CallStep stackID action o => ∃ st, st ∈ ur_workflow run ∧ step_target st = stackID ∧ step_action st = action ∧ o = mkStepOptions (RemoveOrphans options) (step_services st) ∧
      action ∉ ["prune"; "skip"; "preserve_inactive"]
  | CallSystemPrune volumes managed => volumes = IncludeVolumes options ∧ managed = ur_managed run ∧ ∃ st, st ∈ ur_workflow run ∧ step_action st = "prune"
  | CallPruneStep _ _ => False
  | CallInvalidate stackID services => ∃ st, st ∈ ur_workflow run ∧ step_target st = stackID ∧ step_services st = services
  | CallBaseline stackID _ => ∃ st, st ∈ ur_workflow run ∧ step_target st = stackID ∧ step_action st = "up" ∧ step_services st = []
  end.

Section calls.
Context {X : Type} (ToLower : string → string) (Marshal : details → option string) (asError : jobs_error → goError)
  (reader : stackReader X) (runner : pruneRunner X) `{!MapRange Resource string}.

Definition makes (run : UpdateRun) (w w' : world X) : Prop := ∃ new, w_calls w' = w_calls w ++ new ∧ Forall (λ c, ofRun run c.1) new.
#[local] Instance makes_refl run : Reflexive (makes run).
Proof using. intros w. exists []. by rewrite app_nil_r. Qed.
#[local] Instance makes_trans run : Transitive (makes run).
Proof using. intros w1 w2 w3 (l1 & E1 & F1) (l2 & E2 & F2). exists (l1 ++ l2). rewrite E2, E1, app_assoc. split; [done|by apply Forall_app]. Qed.

Lemma withJobs_makes run {E A} env f : keeps (makes run) (withJobs (E:=E) (A:=A) (X:=X) env f).
Proof using. intros w r w'. unfold withJobs. destruct (f _ _). intros [= _ <-]. exists []. by rewrite app_nil_r. Qed.
Lemma publish_makes run {E} env job a b c d : keeps (makes run) (publish (X:=X) (E:=E) env job a b c d).
Proof using. apply withJobs_makes. Qed.
Lemma contextError_makes run : keeps (makes run) (contextError (X:=X)).
Proof using. intros w r w' [= _ <-]. reflexivity. Qed.
Lemma outside_makes run {A} env c (err : A → option goError) f : ofRun run c → keeps (makes run) (outside (X:=X) env c err f).
Proof using. intros Hc w r w'. unfold outside. destruct (f (w_x w)) as [a x]. intros [= _ <-]. exists [(c, err a)]. split; [done|]. by apply Forall_singleton. Qed.

Ltac makings run := keeps_tac (makes_refl run) (makes_trans run) ltac:(first [apply withJobs_makes | apply publish_makes | apply contextError_makes]).

Lemma failWith_makes run env message d code job workflow index err : keeps (makes run) (failWith (X:=X) Marshal env message d code job workflow index err).
Proof using. unfold failWith, finishFailure, updateWorkflow, finishMaintenanceJob, recordJob, jobCancelRequested. makings run. Qed.
Lemma saveWorkflow_makes run env run' job workflow index : keeps (makes run) (saveWorkflow (X:=X) ToLower Marshal asError env run' job workflow index).
Proof using. unfold saveWorkflow, updateWorkflow, updateFailed. makings run. Qed.
Lemma publishProgress_makes run env job st ref l : keeps (makes run) (publishProgress (X:=X) ToLower env job st ref l).
Proof using. induction l as [|p l IH]; cbn [publishProgress]; unfold progressPublisher; makings run. exact IH. Qed.

Definition belongs (run : UpdateRun) (st : JobWorkflowStep) : Prop :=
  ∃ st0, st0 ∈ ur_workflow run ∧ step_target st0 = step_target st ∧ step_action st0 = step_action st ∧ step_services st0 = step_services st.

Lemma runStep_makes run env st : belongs run st → keeps (makes run) (runUpdateWorkflowStep reader runner env st (rq_options (ur_request run)) (ur_managed run)).
Proof using.
  intros (st0 & Hin & Ht & Ha & Hs). unfold runUpdateWorkflowStep. destruct (str_eqb (step_action st) "prune") eqn:E.
  - apply keeps_andThen; [apply _| |intros ?; makings run]. apply outside_makes. cbn. boolify. split_and!; [done..|]. exists st0. split; [done|congruence].
  - destruct (str_eqb (step_action st) "skip") eqn:E1; [makings run|]. destruct (str_eqb (step_action st) "preserve_inactive") eqn:E2; [makings run|]. boolify.
    apply outside_makes. cbn. exists st0. split_and!; [done..|by rewrite Hs|]. rewrite !not_elem_of_cons. split_and!; [done..|apply not_elem_of_nil].
Qed.
Lemma attemptStep_makes run env job st ref delays attempt : belongs run st →
  keeps (makes run) (attemptStep ToLower reader runner env job st ref (rq_options (ur_request run)) (ur_managed run) delays attempt).
Proof using.
  intros Hb. pose proof (runStep_makes run env st Hb). pose proof (publishProgress_makes run env job st ref). revert attempt.
  induction delays as [|delay delays IH]; intros attempt; cbn [attemptStep]; unfold waitForRetry; makings run; eauto.
Qed.
Lemma succeedStep_makes run env index st l : belongs run st → keeps (makes run) (succeedStep ToLower Marshal asError reader env run index st l).
Proof using.
  intros (st0 & Hin & Ht & Ha & Hs). unfold succeedStep. pose proof (saveWorkflow_makes run env run). destruct (negb (str_empty (step_target st)) && updateStepInvalidatesImageUpdates (step_action st)).
  - apply keeps_andThen; [apply _| |intros _].
    { apply keeps_andThen; [apply _| |intros ?; makings run]. apply outside_makes. exists st0. by rewrite Ht, Hs. }
    destruct (str_eqb (step_action st) "up" && _ && _) eqn:E; [|makings run; eauto]. apply andb_prop in E as [[E1 _]%andb_prop E2]. boolify.
    apply keeps_andThen; [apply _| |intros _; makings run; eauto]. makings run. apply outside_makes. exists st0. split_and!; congruence.
  - apply keeps_andThen; [apply _|makings run|intros _].
    destruct (str_eqb (step_action st) "up" && _ && _) eqn:E; [|makings run; eauto]. apply andb_prop in E as [[E1 _]%andb_prop E2]. boolify.
    apply keeps_andThen; [apply _| |intros _; makings run; eauto]. makings run. apply outside_makes. exists st0. split_and!; congruence.
Qed.
Lemma stepOnce_makes run env index l : erased (ls_workflow l) = erased (ur_workflow run) → keeps (makes run) (stepOnce ToLower Marshal asError reader runner env run index l).
Proof using.
  intros He. unfold stepOnce. destruct (ls_workflow l !! index) as [st|] eqn:Hi; [|apply keeps_returns, _]. destruct (erased_lookup _ _ _ _ He Hi) as (st0 & Hi0 & Hst).
  assert (belongs run (set_step_state "running" st)) as Hb by (exists st0; rewrite Hst; split; [by eapply list_elem_of_lookup_2|done]).
  pose proof (saveWorkflow_makes run env run) as Hsave. destruct (negb (str_empty _)); [unfold skipStep; makings run; eauto|].
  apply keeps_andThen; [apply _|unfold beginStep; makings run; eauto|intros l1]. apply keeps_andThen; [apply _|by apply attemptStep_makes|intros outcome].
  destruct outcome.2; [unfold failStep, updateFailed; pose proof (failWith_makes run); makings run; eauto|by apply succeedStep_makes].
Qed.

(** A step of the loop only changes the states of the workflow. *)
Lemma stepOnce_erased env run index l w l' w' : stepOnce ToLower Marshal asError reader runner env run index l w = (Ok l', w') → erased (ls_workflow l') = erased (ls_workflow l).
Proof using.
  unfold stepOnce. destruct (ls_workflow l !! index) as [st|]; [|intros H; by injection H as <- _]. destruct (negb (str_empty _)).
  { unfold skipStep. intros [(e & _ & ?)|(job & w1 & _ & H)]%andThen_inv; [done|]. apply andThen_inv in H as [(e & _ & ?)|(u & w2 & _ & H)]; [done|]. injection H as <- _. apply erased_mark. }
  intros [(e & _ & ?)|(l1 & w1 & H1 & H)]%andThen_inv; [done|]. assert (erased (ls_workflow l1) = erased (ls_workflow l)) as He.
  { unfold beginStep in H1. destruct (str_eqb _ _); [by injection H1 as <- _|]. apply andThen_inv in H1 as [(e & _ & ?)|(job & w2 & _ & H1)]; [done|].
    apply andThen_inv in H1 as [(e & _ & ?)|(u & w3 & _ & H1)]; [done|]. injection H1 as <- _. apply erased_mark. }
  rewrite <- He. apply andThen_inv in H as [(e & _ & ?)|(outcome & w2 & _ & H)]; [done|]. destruct outcome.2.
  - unfold failStep in H. apply andThen_inv in H as [(e & _ & ?)|(ctx & w3 & _ & H)]; [done|]. destruct (_ || _).
    { by apply andThen_inv in H as [(e & _ & ?)|(x & w4 & _ & H)]. }
    apply andThen_inv in H as [(e & _ & ?)|(job & w4 & _ & H)]; [done|]. apply andThen_inv in H as [(e & _ & ?)|(u & w5 & _ & H)]; [done|].
    apply andThen_inv in H as [(e & _ & ?)|(u' & w6 & _ & H)]; [done|]. injection H as <- _. apply erased_mark.
  - unfold succeedStep in H. apply andThen_inv in H as [(e & _ & ?)|(x & w3 & _ & H)]; [done|]. apply andThen_inv in H as [(e & _ & ?)|(y & w4 & _ & H)]; [done|].
    apply andThen_inv in H as [(e & _ & ?)|(job & w5 & _ & H)]; [done|]. apply andThen_inv in H as [(e & _ & ?)|(u & w6 & _ & H)]; [done|]. injection H as <- _. apply erased_mark.
Qed.

Lemma updateLoop_makes run env indices l : erased (ls_workflow l) = erased (ur_workflow run) → keeps (makes run) (updateLoop ToLower Marshal asError reader runner env run indices l).
Proof using.
  revert l. induction indices as [|i indices IH]; intros l He; cbn [updateLoop]; [apply keeps_returns, _|].
  intros w r w' [(e & H & _)|(l' & w1 & H1 & H)]%andThen_inv; [by eapply stepOnce_makes|]. transitivity w1; [by eapply stepOnce_makes|]. eapply IH; [|exact H].
  rewrite (stepOnce_erased _ _ _ _ _ _ _ H1). done.
Qed.
Lemma ExecuteUpdate_makes env job run w r w' : ExecuteUpdate ToLower Marshal asError reader runner env job run w = (r, w') → makes run w w'.
Proof using.
  unfold ExecuteUpdate, cancellable. intros H. apply (f_equal snd) in H. destruct (updateBody _ _ _ _ _ _ _ _ _) as [r1 w1] eqn:Eb. cbn [snd] in H. subst w'.
  transitivity w1; [|by eapply (withJobs_makes run), injective_projections]. transitivity (withJobs (E:=result) env (λ n s, (tt, RegisterCancel s (job_id job) n)) w).2; [by eapply (withJobs_makes run), injective_projections|].
  refine ((_ : keeps (makes run) (updateBody ToLower Marshal asError reader runner env job run)) _ _ _ Eb).
  apply keeps_andThen; [apply _|by apply updateLoop_makes|intros l]. unfold recordJob. makings run.
Qed.
Lemma RunUpdate_makes env requestID request by_ w r w' : RunUpdate ToLower Marshal asError reader runner env requestID request by_ w = (r, w') →
  (∃ new, w_calls w' = w_calls w ++ new ∧ ∀ c, c ∈ new → ∃ w1 job run, StartUpdate ToLower reader env requestID request by_ w = (Ok (job, run), w1) ∧ ofRun run c.1).
Proof using.
  unfold RunUpdate. destruct (StartUpdate _ _ _ _ _ _ w) as [[[job run]|e] w1] eqn:Es.
  - intros H. apply ExecuteUpdate_makes in H as (new & Hc & Hf). pose proof (StartUpdate_inv _ _ _ _ _ _ _ _ _ _ Es) as (_ & _ & Hq & _). exists new. rewrite Hc, Hq. split; [done|].
    rewrite Forall_forall in Hf. intros c Hin. exists w1, job, run. split; [done|by apply Hf].
  - intros [= _ <-]. exists []. rewrite app_nil_r. split; [|by intros c ?%elem_of_nil]. exact (proj1 (StartUpdate_quiet _ _ _ _ _ _ _ _ _ Es)).
Qed.

(** The step that a call of a started update belongs to, as it was planned. *)
Lemma started_step env requestID request by_ w job run w1 stackID action o : StartUpdate ToLower reader env requestID request by_ w = (Ok (job, run), w1) →
  ofRun run (CallStep stackID action o) → ∃ targets steps st, leftOver (ExcludedServices (rq_target request)) (ur_targets run) targets ∧ planned targets (rq_options request) (ur_targets run) st ∧
    st ∈ steps ∧ step_target st = stackID ∧ step_action st = action ∧ o = mkStepOptions (RemoveOrphans (rq_options request)) (step_services st) ∧
    (action ∉ ["prune"; "skip"; "preserve_inactive"]) ∧ (RemoveOrphans (rq_options request) && hasServiceExclusions (ExcludedServices (rq_target request))) = false ∧
    ∃ ws ws', rtc (asks reader) (w_x w) (w_x ws) ∧ buildEach reader targets (rq_options request)
       (str_eqb (Mode (rq_target request)) "all" || str_eqb (rq_trigger request) "scheduled" || PreserveInactive (rq_options request)) (ur_targets run) ws = (Ok steps, ws').
Proof using.
  intros (Hreq & Ho & _ & (targets & steps & Hleft & Hsteps & Hwf & Hbuild) & _)%StartUpdate_inv (st & Hin & Ht & Ha & Hopt & Hact). rewrite Hreq in Hopt.
  apply list_elem_of_lookup in Hin as [i Hi]. assert (erased (ur_workflow run) = erased steps) as He by (rewrite Hwf; apply erased_mark).
  destruct (erased_lookup _ _ _ _ He Hi) as (st0 & Hi0 & Hst). rewrite Forall_forall in Hsteps. apply list_elem_of_lookup_2 in Hi0. exists targets, steps, st0. rewrite Hst in Ht, Ha, Hopt. cbn in *.
  split_and!; auto.
Qed.

(** C9: an excluded service is never touched: whatever a run of the update does, every command it gives for a stack with exclusions names services, none of them excluded,
    and does not remove orphans. *)
Theorem excluded_services_untouched env requestID request by_ w r w' : RunUpdate ToLower Marshal asError reader runner env requestID request by_ w = (r, w') →
  ∃ new, w_calls w' = w_calls w ++ new ∧ ∀ stackID action o e service, (CallStep stackID action o, e) ∈ new →
    service ∈ dedupeSortedStrings (default [] (ExcludedServices (rq_target request) !! stackID)) → so_services o ≠ [] ∧ (service ∉ so_services o) ∧ so_orphans o = false.
Proof using.
  intros (new & Hc & Hnew)%RunUpdate_makes. exists new. split; [done|]. intros stackID action o e service Hin Hex.
  destruct (Hnew _ Hin) as (w1 & job & run & Hs & Hof). destruct (started_step _ _ _ _ _ _ _ _ _ _ _ Hs Hof) as (targets & steps & st & [L1 L2] & Hplan & _ & Ht & Ha & -> & Hact & Ho & _).
  assert (dedupeSortedStrings (default [] (ExcludedServices (rq_target request) !! stackID)) ≠ []) as Hne by (intros E; rewrite E in Hex; by apply elem_of_nil in Hex). cbn [so_services so_orphans].
  assert (RemoveOrphans (rq_options request) = false) as Hro.
  { destruct (hasServiceExclusions _) eqn:E; [by rewrite andb_true_r in Ho|]. by rewrite (no_exclusions _ _ E) in Hne. }
  rewrite !not_elem_of_cons in Hact. destruct Hact as (Ha1 & Ha2 & Ha3 & _). destruct Hplan as [[-> _]|(id & Hid & Htarget & _ & Hshape)]; [by cbn in Ha|].
  rewrite Ht in Htarget. subst id. destruct (L2 stackID Hid Hne) as [l Hl]. rewrite Hl in Hshape. destruct (L1 _ _ Hl) as [_ Hdis].
  destruct Hshape as [(_ & ? & _)|[(_ & ? & _)|(Hl0 & _ & ->)]]; [congruence..|]. cbn. split_and!; [congruence| |done]. intros Hin'. by apply (Hdis service).
Qed.

(** C21: a stack that is down stays down: an update of all stacks, a scheduled one or one that asks for it gives an [up] for a stack only when, while it was planned (after
    nothing but questions to the reader, hence before the first command), the reader reported the stack as neither defined nor stopped.  Whatever the reader says once the
    commands have begun makes no difference. *)
Theorem inactive_stays_down env requestID request by_ w r w' stackID : RunUpdate ToLower Marshal asError reader runner env requestID request by_ w = (r, w') →
  Mode (rq_target request) = "all" ∨ rq_trigger request = "scheduled" ∨ PreserveInactive (rq_options request) = true → stackID ≠ "" →
  ∃ new, w_calls w' = w_calls w ++ new ∧ ∀ o e, (CallStep stackID "up" o, e) ∈ new →
    ∃ x d x', rtc (asks reader) (w_x w) x ∧ GetStack reader stackID x = (Ok d, x') ∧ sk_runtime d ∉ ["defined"; "stopped"].
Proof using.
  intros (new & Hc & Hnew)%RunUpdate_makes Hkeep Hne. exists new. split; [done|]. intros o e Hin. destruct (Hnew _ Hin) as (w1 & job & run & Hs & Hof).
  destruct (started_step _ _ _ _ _ _ _ _ _ _ _ Hs Hof) as (targets & steps & st & _ & _ & Hst & Ht & Ha & _ & _ & _ & ws & ws' & Hasked & Hbuild).
  assert (str_eqb (Mode (rq_target request)) "all" || str_eqb (rq_trigger request) "scheduled" || PreserveInactive (rq_options request) = true) as E.
  { destruct Hkeep as [->|[->| ->]]; [done|by rewrite orb_true_r|by rewrite orb_true_r]. }
  rewrite E in Hbuild. destruct (buildEach_up _ _ _ _ _ _ _ _ _ Hne Hbuild Hst Ht Ha) as (x & d & x' & Hx & Hd). exists x, d, x'. split; [by etrans|done].
Qed.
End calls.

(** ** A concrete run

    The update of MaintenancePlan: the first pull is retried, the stopped stack is
    not started, the excluded service [db] of [web] is left alone. *)

#[local] Existing Instance demoRange.

Definition demoAsError (e : jobs_error) : goError := mkErr "store failed" false false.
Definition demoRan : res maintenance_job_error Job * world nat :=
  RunUpdate (λ s, s) (λ _, Some "{}") demoAsError demoReader demoRunner demoEnv "req" demoUpdate "local" demoWorld.
Definition demoCalls : list (call * option goError) :=
  [(CallStep "old" "pull" (mkStepOptions false []), Some demoTimeout); (CallStep "old" "pull" (mkStepOptions false []), None); (CallInvalidate "old" [], None);
   (CallStep "web" "pull" (mkStepOptions false ["app"]), None); (CallInvalidate "web" ["app"], None); (CallStep "web" "up" (mkStepOptions false ["app"]), None);
   (CallSystemPrune true ["old"; "web"], None)].
Definition demoDoneJob : Job := match demoRan.1 with Ok job => job | Err _ => demoJob end.

Lemma demo_calls : w_calls demoRan.2 = demoCalls.
Proof. vm_compute. reflexivity. Qed.
Lemma demo_ran : RunUpdate (λ s, s) (λ _, Some "{}") demoAsError demoReader demoRunner demoEnv "req" demoUpdate "local" demoWorld = (Ok demoDoneJob, demoRan.2).
Proof.
  fold demoRan. assert (demoRan.1 = Ok demoDoneJob) as E by (vm_compute; reflexivity). rewrite <- E. apply surjective_pairing.
Qed.
Lemma excluded_services_untouched_witness :
  (CallStep "web" "up" (mkStepOptions false ["app"]), None) ∈ w_calls demoRan.2 ∧ "db" ∉ ["app"].
Proof.
  destruct (excluded_services_untouched _ _ _ _ _ _ _ _ _ _ _ _ demo_ran) as (new & Hc & Hnew). change (w_calls demoWorld ++ new) with new in Hc.
  assert ((CallStep "web" "up" (mkStepOptions false ["app"]), None) ∈ w_calls demoRan.2) as Hin by (rewrite demo_calls; apply (list_elem_of_lookup_2 _ 5); reflexivity).
  split; [exact Hin|]. rewrite Hc in Hin. refine (proj1 (proj2 (Hnew "web" "up" _ None "db" Hin _))). vm_compute. by left.
Defined.

Lemma inactive_stays_down_witness : w_calls demoRan.2 = demoCalls ∧ (CallStep "old" "up" (mkStepOptions false []), None) ∉ demoCalls.
Proof.
  pose proof (inactive_stays_down (λ s, s) (λ _, Some "{}") demoAsError demoReader demoRunner demoEnv "req" demoUpdate "local" demoWorld _ _ "old" demo_ran) as H.
  destruct H as (new & Hc & Hnew); [right; right; reflexivity|done|].
  change (w_calls demoWorld ++ new) with new in Hc. rewrite demo_calls in Hc. split; [exact demo_calls|]. rewrite Hc.
  intros (x & d & x' & _ & Hget & Hrt)%Hnew. injection Hget as <- _. apply Hrt. right. left.
Defined.
