(* ===== verification/MaintenanceOutcome.v ===== *)
(** * internal/maintenancejobs/service.go: how an update ends

    Theorems about MaintenanceJobs: the state each step of the workflow ends in
    (a failure stops the later steps of its own stack and the prune, nothing
    else), the number of attempts, and the end of the job. *)

From stdpp Require Import gmap strings list pretty.
From Stdlib Require Import Ascii ZArith Lia.
From S2P Require Import Prelude GoStrings GoPath GoTime Effects JobsResource JobsLocks Store JobsService StoreAudit AuditService SchedulerTime MaintenancePlan MaintenanceJobs.

Local Open Scope Z_scope.

(** ** The verdict of each step *)

(** The step [k] failed, and a step [st] after it must not run. *)
Definition blocks (failed st : JobWorkflowStep) : Prop :=
  step_state failed = "failed" ∧ (step_action st = "prune" ∨ step_target failed = step_target st ∧ step_target st ≠ "").
(** The first [n] steps have ended, and exactly those after a failure that blocks
    them were skipped. *)
Definition isolated (steps : list JobWorkflowStep) (n : nat) : Prop :=
  ∀ i st, (i < n)%nat → steps !! i = Some st → step_state st ∈ ["succeeded"; "failed"; "skipped"] ∧
    (step_state st = "skipped" ↔ ∃ k failed, (k < i)%nat ∧ steps !! k = Some failed ∧ blocks failed st).
Definition someFailed (steps : list JobWorkflowStep) (n : nat) (P : JobWorkflowStep → Prop) : Prop :=
  ∃ k st, (k < n)%nat ∧ steps !! k = Some st ∧ step_state st = "failed" ∧ P st.

Record verdicts (n : nat) (l : loopState) : Prop := {
  vd_isolated : isolated (ls_workflow l) n;
  vd_failures : ls_failures l ≠ [] ↔ someFailed (ls_workflow l) n (λ _, True);
  vd_blocked t : is_Some (ls_blocked l !! t) ↔ t ≠ "" ∧ someFailed (ls_workflow l) n (λ st, step_target st = t);
  vd_saved : n = 0%nat ∨ job_workflow (ls_job l) = Some (mkWorkflow (ls_workflow l)) }.

Lemma someFailed_mark steps n s P : someFailed (markWorkflowState steps n s) n P ↔ someFailed steps n P.
Proof. unfold someFailed, markWorkflowState. split; intros (k & st & Hk & Hl & H); exists k, st; (split; [done|]); [rewrite list_lookup_alter_ne in Hl by lia|rewrite list_lookup_alter_ne by lia]; done. Qed.
Lemma someFailed_S steps n P st : steps !! n = Some st → someFailed steps (S n) P ↔ someFailed steps n P ∨ step_state st = "failed" ∧ P st.
Proof.
  intros Hn. split.
  - intros (k & st' & Hk & Hl & H). destruct (decide (k = n)) as [->|Hne]; [right; by simplify_eq|left]. exists k, st'. split; [lia|done].
  - intros [(k & st' & Hk & H)|H]; [exists k, st'; split; [lia|done]|by exists n, st; split; [lia|]].
Qed.
Lemma marked steps n s st : steps !! n = Some st → markWorkflowState steps n s !! n = Some (set_step_state s st).
Proof. intros H. unfold markWorkflowState. by rewrite list_lookup_alter_eq, H. Qed.

Lemma skip_reason ToLower st failures (blocked : gmap string updateStepFailure) :
  updateStepSkipReason ToLower st failures blocked ≠ "" ↔ step_action st = "prune" ∧ failures ≠ [] ∨ step_target st ≠ "" ∧ is_Some (blocked !! step_target st).
Proof.
  unfold updateStepSkipReason. destruct (str_eqb (step_action st) "prune" && negb (bool_decide (failures = []))) eqn:E.
  { apply andb_prop in E as [E1 E2]. boolify. split; [by left|done]. }
  assert (¬ (step_action st = "prune" ∧ failures ≠ [])) as Hno.
  { intros [E1 E2]. unfold str_eqb in E. by rewrite !bool_decide_true in E by done; rewrite bool_decide_false in E by done. }
  destruct (blocked !! step_target st) as [f|] eqn:Eb; [|split; [done|intros [?|[_ [? ?]]]; done]].
  destruct (str_empty (step_target st)) eqn:Et; boolify.
  - split; [done|]. intros [?|[? _]]; by exfalso.
  - split; [|done]. intros _. right. split; [done|by eexists].
Qed.

Lemma set_set s s' st : set_step_state s (set_step_state s' st) = set_step_state s st.
Proof. done. Qed.
Lemma mark_mark steps n s s' : markWorkflowState (markWorkflowState steps n s') n s = markWorkflowState steps n s.
Proof. unfold markWorkflowState. apply list_eq. intros i. destruct (decide (n = i)) as [->|Hne]; [rewrite !list_lookup_alter_eq; by destruct (steps !! i)|by rewrite !list_lookup_alter_ne]. Qed.

Section verdict.
Context {X : Type} (ToLower : string → string) (Marshal : details → option string) (asError : jobs_error → goError)
  (reader : stackReader X) (runner : pruneRunner X) `{!MapRange Resource string}.

Lemma saveWorkflow_job env run job workflow index (w w' : world X) job' :
  saveWorkflow ToLower Marshal asError env run job workflow index w = (Ok job', w') → job_workflow job' = Some (mkWorkflow workflow).
Proof using.
  unfold saveWorkflow. intros [(e & _ & ?)|(r & w1 & H1 & H)]%andThen_inv; [done|]. destruct r as [j|e]; [|by apply andThen_inv in H as [(e' & _ & ?)|(x & w2 & _ & H)]].
  injection H as <- _. unfold updateWorkflow, withJobs in H1. destruct (UpdateWorkflow _ _ _ _) as [r s] eqn:Eu. injection H1 as -> _.
  unfold UpdateWorkflow in Eu. destruct (UpdateJobWorkflow _ _ _ _); [|done]. by injection Eu as <- _.
Qed.

(** What one turn of the loop does when it does not end the job. *)
Definition turned (n : nat) (st : JobWorkflowStep) (l l' : loopState) (s : string) : Prop :=
  ls_workflow l' = markWorkflowState (ls_workflow l) n s ∧ job_workflow (ls_job l') = Some (mkWorkflow (ls_workflow l')) ∧
  let blocked := updateStepSkipReason ToLower st (ls_failures l) (ls_blocked l) in
  (s = "skipped" ∧ blocked ≠ "" ∧ ls_failures l' = ls_failures l ∧ ls_blocked l' = ls_blocked l) ∨
  (s = "succeeded" ∧ blocked = "" ∧ ls_failures l' = ls_failures l ∧ ls_blocked l' = ls_blocked l) ∨
  (s = "failed" ∧ blocked = "" ∧ ∃ f, ls_failures l' = ls_failures l ++ [f] ∧
     ls_blocked l' = if str_empty (step_target st) then ls_blocked l else <[step_target st := f]> (ls_blocked l)).

Lemma stepOnce_turned env run n l st (w w' : world X) l' : ls_workflow l !! n = Some st →
  stepOnce ToLower Marshal asError reader runner env run n l w = (Ok l', w') → ∃ s, turned n st l l' s.
Proof using.
  intros Hst. unfold stepOnce, turned. rewrite Hst. destruct (negb (str_empty _)) eqn:Er; boolify.
  { intros [(e & _ & ?)|(job & w1 & H1 & H)]%andThen_inv; [done|]. apply andThen_inv in H as [(e & _ & ?)|(u & w2 & _ & H)]; [done|]. injection H as <- _.
    exists "skipped". split; [done|]. split; [by eapply saveWorkflow_job|]. by left. }
  intros [(e & _ & ?)|(l1 & w1 & H1 & H)]%andThen_inv; [done|].
  assert (ls_failures l1 = ls_failures l ∧ ls_blocked l1 = ls_blocked l ∧ ∀ s, markWorkflowState (ls_workflow l1) n s = markWorkflowState (ls_workflow l) n s) as (Hf & Hb & Hm).
  { unfold beginStep in H1. destruct (str_eqb _ _); [by injection H1 as <- _|]. apply andThen_inv in H1 as [(e & _ & ?)|(job & w2 & _ & H1)]; [done|].
    apply andThen_inv in H1 as [(e & _ & ?)|(u & w3 & _ & H1)]; [done|]. injection H1 as <- _. split_and!; [done..|]. intros s. apply mark_mark. }
  apply andThen_inv in H as [(e & _ & ?)|(outcome & w2 & _ & H)]; [done|]. destruct outcome.2.
  - unfold failStep in H. apply andThen_inv in H as [(e & _ & ?)|(ctx & w3 & _ & H)]; [done|]. destruct (_ || _).
    { by apply andThen_inv in H as [(e & _ & ?)|(x & w4 & _ & H)]. }
    apply andThen_inv in H as [(e & _ & ?)|(job & w4 & Hs & H)]; [done|]. apply andThen_inv in H as [(e & _ & ?)|(u & w5 & _ & H)]; [done|].
    apply andThen_inv in H as [(e & _ & ?)|(u' & w6 & _ & H)]; [done|]. injection H as <- _. exists "failed". cbn [ls_workflow ls_job ls_failures ls_blocked].
    split; [apply Hm|]. split; [by eapply saveWorkflow_job|]. right. right. split_and!; [done..|]. eexists. rewrite Hf, Hb. done.
  - unfold succeedStep in H. apply andThen_inv in H as [(e & _ & ?)|(x & w3 & _ & H)]; [done|]. apply andThen_inv in H as [(e & _ & ?)|(y & w4 & _ & H)]; [done|].
    apply andThen_inv in H as [(e & _ & ?)|(job & w5 & Hs & H)]; [done|]. apply andThen_inv in H as [(e & _ & ?)|(u & w6 & _ & H)]; [done|]. injection H as <- _.
    exists "succeeded". cbn [ls_workflow ls_job ls_failures ls_blocked]. split; [apply Hm|]. split; [by eapply saveWorkflow_job|]. right. left. by split_and!.
Qed.
End verdict.

Lemma isolated_snoc steps n st : steps !! n = Some st → isolated steps n → step_state st ∈ ["succeeded"; "failed"; "skipped"] →
  (step_state st = "skipped" ↔ ∃ k failed, (k < n)%nat ∧ steps !! k = Some failed ∧ blocks failed st) → isolated steps (S n).
Proof. intros Hn Hi Hs Hk i st' Hlt Hst. destruct (decide (i = n)) as [->|Hne]; [by simplify_eq|apply Hi; [lia|done]]. Qed.

(** The reason to skip says exactly that an earlier failure blocks the step. *)
Lemma reason_blocks ToLower n l st : verdicts n l →
  updateStepSkipReason ToLower st (ls_failures l) (ls_blocked l) ≠ "" ↔ ∃ k failed, (k < n)%nat ∧ ls_workflow l !! k = Some failed ∧ blocks failed st.
Proof.
  intros V. rewrite skip_reason, (vd_failures _ _ V), (vd_blocked _ _ V). unfold someFailed, blocks. split.
  - intros [[Hp (k & f & Hk & Hl & Hf & _)]|[Hne [_ (k & f & Hk & Hl & Hf & Ht)]]]; exists k, f; split_and!; auto.
  - intros (k & f & Hk & Hl & Hf & [Hp|[Ht Hne]]); [left|right]; (split; [done|]); [by exists k, f|]. split; [done|]. by exists k, f.
Qed.

Lemma verdicts_start job steps : verdicts 0 (mkLoop job steps [] ∅).
Proof.
  split; cbn [ls_workflow ls_failures ls_blocked].
  - intros i st Hi. lia.
  - split; [by intros []|]. intros (k & st & Hk & _). lia.
  - intros t. rewrite lookup_empty. split; [by intros [? ?]|]. intros [_ (k & st & Hk & _)]. lia.
  - by left.
Qed.
Lemma verdicts_turned ToLower n st l l' s : verdicts n l → ls_workflow l !! n = Some st → turned ToLower n st l l' s → verdicts (S n) l'.
Proof.
  intros V Hst (Hwf & Hsaved & Hcase). pose proof (marked _ _ s _ Hst) as Hn. pose proof (reason_blocks ToLower n l st V) as Hr. rewrite <- Hwf in Hn.
  assert (∀ P, someFailed (ls_workflow l') n P ↔ someFailed (ls_workflow l) n P) as Hsf by (intros P; rewrite Hwf; apply someFailed_mark).
  assert (∀ k, (k < n)%nat → ls_workflow l' !! k = ls_workflow l !! k) as Hlow by (intros k Hk; rewrite Hwf; unfold markWorkflowState; by rewrite list_lookup_alter_ne by lia).
  split; [| | |by right].
  - eapply isolated_snoc; [exact Hn| | |]; cbn [step_state set_step_state].
    + intros i st' Hi Hl. rewrite (Hlow i Hi) in Hl. destruct (vd_isolated _ _ V i st' Hi Hl) as [Hs Hk]. split; [done|]. rewrite Hk.
      split; intros (k & f & Hk' & Hf & Hb); exists k, f; (split; [done|]); [rewrite (Hlow k) by lia|rewrite (Hlow k) in Hf by lia]; done.
    + destruct Hcase as [[-> _]|[[-> _]|[-> _]]]; set_solver.
    + change (blocks ?f (set_step_state s st)) with (blocks f st). transitivity (updateStepSkipReason ToLower st (ls_failures l) (ls_blocked l) ≠ "").
      * destruct Hcase as [(-> & ? & _)|[(-> & E & _)|(-> & E & _)]]; [by split|rewrite E; by split..].
      * rewrite Hr. split; intros (k & f & Hk' & Hf & Hb); exists k, f; (split; [done|]); [rewrite (Hlow k) by lia|rewrite (Hlow k) in Hf by lia]; done.
  - rewrite (someFailed_S _ _ _ _ Hn), Hsf, <- (vd_failures _ _ V). cbn [step_state set_step_state].
    destruct Hcase as [(-> & _ & -> & _)|[(-> & _ & -> & _)|(-> & _ & f & -> & _)]]; [naive_solver..|]. split; [by right|]. intros _. by destruct (ls_failures l).
  - intros t. rewrite (someFailed_S _ _ _ _ Hn), Hsf. pose proof (vd_blocked _ _ V t) as Hb. cbn [step_state set_step_state step_target] in *.
    destruct Hcase as [(-> & _ & _ & ->)|[(-> & _ & _ & ->)|(-> & _ & f & _ & ->)]]; [naive_solver..|].
    destruct (str_empty (step_target st)) eqn:Et; boolify; [rewrite Et; naive_solver|].
    destruct (decide (t = step_target st)) as [->|Hne]; [rewrite lookup_insert_eq; naive_solver|rewrite lookup_insert_ne by done; naive_solver].
Qed.

Section outcome.
Context {X : Type} (ToLower : string → string) (Marshal : details → option string) (asError : jobs_error → goError)
  (reader : stackReader X) (runner : pruneRunner X) `{!MapRange Resource string}.

Lemma updateLoop_verdicts env run k n l (w w' : world X) l' : length (ls_workflow l) = (n + k)%nat → verdicts n l →
  updateLoop ToLower Marshal asError reader runner env run (seq n k) l w = (Ok l', w') → verdicts (n + k) l' ∧ length (ls_workflow l') = (n + k)%nat.
Proof using.
  revert n l w. induction k as [|k IH]; intros n l w Hlen V; cbn [seq updateLoop].
  { intros H. injection H as <- _. by rewrite Nat.add_0_r in *. }
  intros [(e & _ & ?)|(l1 & w1 & H1 & H)]%andThen_inv; [done|]. destruct (lookup_lt_is_Some_2 (ls_workflow l) n ltac:(lia)) as [st Hst].
  destruct (stepOnce_turned _ _ _ _ _ _ _ _ _ _ _ _ _ Hst H1) as [s Ht]. rewrite <- Nat.add_succ_comm. eapply IH; [|by eapply verdicts_turned|exact H].
  destruct Ht as [-> _]. unfold markWorkflowState. rewrite length_alter. lia.
Qed.

Lemma updateLoop_erased env run indices l (w w' : world X) l' :
  updateLoop ToLower Marshal asError reader runner env run indices l w = (Ok l', w') → erased (ls_workflow l') = erased (ls_workflow l).
Proof using.
  revert l w. induction indices as [|i indices IH]; intros l w; cbn [updateLoop]; [intros H; by injection H as <- _|].
  intros [(e & _ & ?)|(l1 & w1 & H1 & H)]%andThen_inv; [done|]. rewrite (IH _ _ H). by eapply stepOnce_erased.
Qed.

(** The context stays ended and the calls stay made. *)
Definition grows (w w' : world X) : Prop := (w_ctx w ≠ None → w_ctx w' ≠ None) ∧ (∀ c, c ∈ w_calls w → c ∈ w_calls w').
#[local] Instance grows_refl : Reflexive grows.
Proof using. by intros w. Qed.
#[local] Instance grows_trans : Transitive grows.
Proof using. intros w1 w2 w3 [A1 B1] [A2 B2]. split; auto. Qed.
Lemma withJobs_grows {E A} env f : keeps grows (withJobs (E:=E) (A:=A) (X:=X) env f).
Proof using. intros w r w'. unfold withJobs. destruct (f _ _). intros [= _ <-]. split; cbn; [by destruct (w_ctx w)|done]. Qed.
Lemma contextError_grows : keeps grows (contextError (X:=X)).
Proof using. intros w r w' [= _ <-]. reflexivity. Qed.
Lemma outside_grows {A} env c (err : A → option goError) f : keeps grows (outside (X:=X) env c err f).
Proof using. intros w r w'. unfold outside. destruct (f (w_x w)). intros [= _ <-]. split; cbn; [by destruct (w_ctx w)|set_solver]. Qed.
Ltac growing := keeps_tac grows_refl grows_trans ltac:(first [apply withJobs_grows | apply contextError_grows | apply outside_grows]).

Lemma failWith_grows env message d code job workflow index err : keeps grows (failWith (X:=X) Marshal env message d code job workflow index err).
Proof using. unfold failWith, finishFailure, updateWorkflow, finishMaintenanceJob, recordJob, jobCancelRequested, publish. growing. Qed.
Lemma saveWorkflow_grows env run job workflow index : keeps grows (saveWorkflow (X:=X) ToLower Marshal asError env run job workflow index).
Proof using. unfold saveWorkflow, updateWorkflow, updateFailed. growing. Qed.
Lemma publishProgress_grows env job st ref l : keeps grows (publishProgress (X:=X) ToLower env job st ref l).
Proof using. induction l as [|p l IH]; cbn [publishProgress]; unfold progressPublisher; growing. exact IH. Qed.
Lemma runStep_grows env st options managed : keeps grows (runUpdateWorkflowStep reader runner env st options managed).
Proof using. unfold runUpdateWorkflowStep. growing. Qed.
Lemma attemptStep_grows env job st ref options managed delays attempt : keeps grows (attemptStep ToLower reader runner env job st ref options managed delays attempt).
Proof using.
  revert attempt. induction delays as [|d delays IH]; intros attempt; cbn [attemptStep]; unfold publish, waitForRetry; growing;
    first [apply runStep_grows | apply publishProgress_grows | apply IH].
Qed.

(** The context ended, or something the job called reported a cancellation. *)
Definition interrupted (w : world X) : Prop := w_ctx w ≠ None ∨ ∃ c e, (c, Some e) ∈ w_calls w ∧ is_canceled e = true.
Lemma interrupted_grows w w' : grows w w' → interrupted w → interrupted w'.
Proof using. intros [H1 H2] [H|(c & e & H & He)]; [left; auto|right; eauto]. Qed.

Lemma runStep_error env st options managed (w w' : world X) oc err : runUpdateWorkflowStep reader runner env st options managed w = (Ok oc, w') → oc_err oc = Some err →
  ∃ c, (c, Some err) ∈ w_calls w'.
Proof using.
  unfold runUpdateWorkflowStep. destruct (str_eqb _ _).
  - intros [(e & _ & ?)|(r & w1 & H1 & H)]%andThen_inv; [done|]. injection H as <- <-. cbn. intros Hr. unfold outside in H1. destruct (RunSystemPrune _ _ _ _) as [a x]. injection H1 as <- <-.
    cbn. rewrite Hr. eexists. apply elem_of_app. right. by apply list_elem_of_singleton.
  - destruct (str_eqb _ _); [intros H; injection H as <- _; done|]. destruct (str_eqb _ _); [intros H; injection H as <- _; done|].
    unfold outside. destruct (RunMaintenanceStepStreaming _ _ _ _ _) as [a x]. intros H Hr. injection H as <- <-. cbn. rewrite Hr. eexists. apply elem_of_app. right. by apply list_elem_of_singleton.
Qed.

Lemma attemptStep_error env job st ref options managed delays attempt (w w' : world X) result err :
  attemptStep ToLower reader runner env job st ref options managed delays attempt w = (Ok (result, Some err), w') → is_canceled err = true → interrupted w'.
Proof using.
  revert attempt w. induction delays as [|d delays IH]; intros attempt w; cbn [attemptStep].
  all: intros [(e & _ & ?)|(oc & w1 & H1 & H)]%andThen_inv; [done|]; apply andThen_inv in H as [(e & _ & ?)|(u & w2 & H2 & H)]; [done|];
    apply andThen_inv in H as [(e & _ & ?)|(u' & w3 & H3 & H)]; [done|];
    assert (grows w1 w3) as Hg by
      (transitivity w2; [by eapply publishProgress_grows|]; revert H3; destruct (str_empty _); [intros H3; injection H3 as _ <-; reflexivity|apply withJobs_grows]).
  all: assert (∀ e, oc_err oc = Some e → is_canceled e = true → interrupted w3) as Hi by
      (intros e He Hc; eapply interrupted_grows; [exact Hg|]; right; destruct (runStep_error _ _ _ _ _ _ _ _ H1 He) as [c Hin]; by exists c, e).
  - destruct (oc_err oc) as [e|]; [|done]. injection H as _ <- <-. by apply Hi.
  - destruct (oc_err oc) as [e|]; [|done]. apply andThen_inv in H as [(x & _ & ?)|(ctx & w4 & H4 & H)]; [done|]. injection H4 as <- <-.
    destruct (negb _); [injection H as _ <- <-; by apply Hi|].
    apply andThen_inv in H as [(x & _ & ?)|(u4 & w5 & _ & H)]; [done|]. apply andThen_inv in H as [(x & _ & ?)|(waited & w6 & H6 & H)]; [done|].
    destruct waited as [waitErr|]; [|by eapply IH]. injection H as _ _ <-. intros _. unfold waitForRetry in H6.
    apply andThen_inv in H6 as [(x & _ & ?)|(u6 & w7 & _ & H6)]; [done|]. apply andThen_inv in H6 as [(x & _ & ?)|(ctx & w8 & H8 & H6)]; [done|].
    injection H8 as <- <-. injection H6 as Hctx <-. left. by destruct (w_ctx w7).
Qed.
End outcome.

(** ** The job always ends *)

(** The job runs, and it has ended in the state [st] without any resource left. *)
Definition active (s : Service) (id : string) : Prop := events_inv (store s) ∧ ∃ row, jobs (store s) !! id = Some row ∧ r_state row ∈ activeStates.
Definition ended (s : Service) (id st : string) : Prop := stored_state s id = Some st ∧ resourcesByJob (locks s) !! id = None.

(** What other goroutines do to the service neither ends this job nor revives it:
    only its own goroutine finishes a job, a cancellation only asks for the end. *)
Record neighbours (env : Env) (id : string) : Prop := {
  nb_active n s : active s id → active (e_others env n s) id;
  nb_ended n s st : isTerminalJobState st = true → ended s id st → ended (e_others env n s) id st }.
(** The store accepts the writes of the end of the job; all others may fail. *)
Definition finalStoreWorks (env : Env) : Prop := ∀ n, e_final env n = None.
Lemma final_neighbours env id : neighbours env id → neighbours (jobFinalizationContext env) id.
Proof. intros [H1 H2]. by split. Qed.

Lemma active_row s id db row : jobs (store s) !! id = Some row → r_state row ∈ activeStates → jobs db = jobs (store s) → events_inv db → active (with_store s db) id.
Proof. intros Hr Hs Hj Hi. split; [done|]. exists row. cbn. by rewrite Hj. Qed.

Lemma PublishEvent_active io now s j eventType message data step progress id : active s id → active (snd (PublishEventWithProgress io now s j eventType message data step progress)) id.
Proof.
  intros [I (row & Hr & Hs)]. unfold PublishEventWithProgress. destruct (AppendJobEvent _ _ _) as [[e db]|e] eqn:E; [|split; [done|by exists row]]. cbn [snd].
  split; cbn; [by eapply Append_events_inv|]. apply Append_Ok in E as (r & Hr' & _ & _ & _ & Hj & _). cbn [ev_job] in Hr', Hj. rewrite Hj.
  destruct (decide (job_id j = id)) as [<-|Hne]; [rewrite lookup_insert_eq; eexists; split; [done|]; replace row with r in Hs by congruence; exact Hs|rewrite lookup_insert_ne by done; by exists row].
Qed.
Lemma UpdateWorkflow_active io s j steps id r s' : active s id → UpdateWorkflow io s j steps = (r, s') → active s' id ∧
  (∀ j', r = Ok j' → job_id j' = job_id j).
Proof.
  intros [I (row & Hr & Hs)]. unfold UpdateWorkflow. destruct (UpdateJobWorkflow _ _ _ _) as [db|e] eqn:E; intros [= <- <-].
  - split; [|by intros j' [= <-]]. split; cbn; [by eapply UpdateWorkflow_events_inv|]. apply UpdateWorkflow_Ok in E as (r & Hr' & Hj & _). rewrite Hj.
    destruct (decide (job_id j = id)) as [<-|Hne]; [rewrite lookup_insert_eq; eexists; split; [done|]; replace row with r in Hs by congruence; exact Hs|rewrite lookup_insert_ne by done; by exists row].
  - split; [split; [done|by exists row]|done].
Qed.

(** Finishing an active job in a terminal state. *)
Lemma commit_active ioT ioG now s j events r s' : active s (job_id j) → isTerminalJobState (job_state j) = true → events ≠ [] → forallb (transition_event_ok j) events = true →
  commitTerminalTransition ioT ioG now s j events = (r, s') →
  (ioT = None → r = Ok j) ∧ (∀ j', r = Ok j' → j' = j ∧ ended s' (job_id j) (job_state j)).
Proof.
  intros [I (row & Hr & Hs)] Ht Hne Hev H. split.
  - intros ->. destruct (Transition_total (store s) j activeStates events row I Hr Hs Hne Hev) as [db Htr]. unfold commitTerminalTransition in H.
    change ["queued"; "running"; "cancel_requested"] with activeStates in H. rewrite Htr in H. by injection H as <- _.
  - intros j' ->. pose proof (finish_releases_locks _ _ _ _ _ _ _ _ H) as (Hres & _ & Hst). apply commitTerminal_cases in H as [(_ & e & ?)|[(_ & _ & current & Hg & Htc & _)|([= ->] & _)]]; [done| |].
    + destruct (Get_state _ _ _ _ _ Hg Hr) as [_ Hst']. rewrite Hst' in Htc. by apply terminal_not_active in Htc.
    + by split.
Qed.
Lemma newJobEvent_ok j event message data step progress now : transition_event_ok j (newJobEvent j event message data step progress now) = true.
Proof. unfold transition_event_ok, str_eqb. cbn. by rewrite !bool_decide_true. Qed.
Lemma FinishSucceeded_active ioT ioG now s j r s' : active s (job_id j) → FinishSucceeded ioT ioG now s j = (r, s') →
  (ioT = None → ∃ j', r = Ok j') ∧ (∀ j', r = Ok j' → job_workflow j' = job_workflow j ∧ job_state j' = "succeeded" ∧ job_id j' = job_id j ∧ ended s' (job_id j) (job_state j')).
Proof.
  unfold FinishSucceeded. intros Ha H. apply commit_active in H as [H1 H2]; [|done..|by cbn [forallb]; rewrite !newJobEvent_ok].
  split; [intros E; by rewrite (H1 E); eexists|]. intros j' Hj. by destruct (H2 j' Hj) as [-> He].
Qed.
Lemma finishTerminal_active ioT ioG now s j state code message text r s' : active s (job_id j) → isTerminalJobState state = true →
  finishTerminal ioT ioG now s j state code message text = (r, s') →
  (ioT = None → ∃ j', r = Ok j') ∧ (∀ j', r = Ok j' → job_workflow j' = job_workflow j ∧ job_state j' = state ∧ job_id j' = job_id j ∧ ended s' (job_id j) (job_state j')).
Proof.
  unfold finishTerminal. intros Ha Ht H. apply commit_active in H as [H1 H2]; [|done..|by cbn [forallb]; rewrite !newJobEvent_ok].
  split; [intros E; by rewrite (H1 E); eexists|]. intros j' Hj. by destruct (H2 j' Hj) as [-> He].
Qed.

Section ends.
Context {X : Type} (ToLower : string → string) (Marshal : details → option string) (asError : jobs_error → goError)
  (reader : stackReader X) (runner : pruneRunner X) `{HR : !MapRange Resource string} (env : Env) (id : string) (Hn : neighbours env id).
#[local] Existing Instance grows_refl.
#[local] Existing Instance grows_trans.

Definition live (w : world X) : Prop := active (w_jobs w) id.
(** When the store accepts the end of the job, it has ended, in the state it is
    reported in. *)
Definition settled (r : result) (w : world X) : Prop :=
  finalStoreWorks env → ∃ st, isTerminalJobState st = true ∧ ended (w_jobs w) id st ∧ ∀ j, r = Ok j → job_state j = st.
Definition over (r : result) (w : world X) : Prop := settled r w ∧ ((∃ e, r = Err e) ∨ interrupted w).

(** [c] keeps the job running and returns, or ends it. *)
Definition runs {A} (Q : A → Prop) (c : eff (world X) result A) : Prop :=
  ∀ w r w', live w → c w = (r, w') → match r with Ok a => live w' ∧ Q a | Err r => over r w' end.
(** [c] keeps the job running and returns. *)
Definition stays {A} (Q : A → Prop) (c : eff (world X) result A) : Prop := ∀ w r w', live w → c w = (r, w') → ∃ a, r = Ok a ∧ live w' ∧ Q a.
(** [c] ends the job, unless the store fails. *)
Definition finishes (c : eff (world X) result (res jobs_error Job)) : Prop := ∀ w r w', live w → c w = (r, w') → ∃ r0, r = Ok r0 ∧
  (finalStoreWorks env → ∃ j, r0 = Ok j ∧ isTerminalJobState (job_state j) = true ∧ ended (w_jobs w') id (job_state j)).

Lemma stays_runs {A} Q (c : eff (world X) result A) : stays Q c → runs Q c.
Proof using. intros H w r w' Hl Hc. by destruct (H _ _ _ Hl Hc) as (a & -> & ?). Qed.
Lemma runs_andThen {A B} Q (Q' : B → Prop) (c : eff (world X) result A) k : runs Q c → (∀ a, Q a → runs Q' (k a)) → runs Q' (andThen c k).
Proof using. intros Hc Hk w r w' Hl [(e & H & ->)|(a & w1 & H1 & H)]%andThen_inv; [exact (Hc _ _ _ Hl H)|]. destruct (Hc _ _ _ Hl H1) as [Hl1 HQ]. exact (Hk a HQ _ _ _ Hl1 H). Qed.
Lemma finishes_andThen {A} Q (c : eff (world X) result A) k : stays Q c → (∀ a, Q a → finishes (k a)) → finishes (andThen c k).
Proof using.
  intros Hc Hk w r w' Hl [(e & H & ->)|(a & w1 & H1 & H)]%andThen_inv.
  - by destruct (Hc _ _ _ Hl H) as (a & ? & _).
  - destruct (Hc _ _ _ Hl H1) as (a' & [= <-] & Hl1 & HQ). exact (Hk a HQ _ _ _ Hl1 H).
Qed.
Lemma stays_returns {A} (Q : A → Prop) a : Q a → stays Q (returns a).
Proof using. intros HQ w r w' Hl H. injection H as <- <-. by exists a. Qed.
Lemma stays_andThen {A B} Q (Q' : B → Prop) (c : eff (world X) result A) k : stays Q c → (∀ a, Q a → stays Q' (k a)) → stays Q' (andThen c k).
Proof using.
  intros Hc Hk w r w' Hl [(e & H & ->)|(a & w1 & H1 & H)]%andThen_inv; [by destruct (Hc _ _ _ Hl H) as (a & ? & _)|].
  destruct (Hc _ _ _ Hl H1) as (a' & [= <-] & Hl1 & HQ). exact (Hk a HQ _ _ _ Hl1 H).
Qed.
Lemma stays_withJobs {A} (Q : A → Prop) env0 f : neighbours env0 id → (∀ n s a s', active s id → f n s = (a, s') → active s' id ∧ Q a) → stays Q (withJobs env0 f).
Proof using.
  intros Hn0 Hf w r w' Hl. unfold withJobs. destruct (f _ _) as [a s] eqn:E. intros H. injection H as <- <-. exists a. split; [done|]. eapply Hf; [|exact E]. by apply (nb_active _ _ Hn0).
Qed.
Lemma stays_contextError : stays (λ _, True) contextError.
Proof using. intros w r w' Hl H. injection H as <- <-. by eexists. Qed.
Lemma stays_outside {A} env0 c (err : A → option goError) f : neighbours env0 id → stays (λ _, True) (outside env0 c err f).
Proof using. intros Hn0 w r w' Hl. unfold outside. destruct (f _) as [a x]. intros H. injection H as <- <-. eexists. split_and!; [done| |done]. by apply (nb_active _ _ Hn0). Qed.
Lemma stays_publish env0 job eventType message data step : neighbours env0 id → stays (λ _, True) (publish env0 job eventType message data step).
Proof using. intros Hn0. apply stays_withJobs; [done|]. intros n s a s' Ha H. injection H as <- <-. split; [|done]. by apply PublishEvent_active. Qed.
Lemma stays_updateWorkflow env0 job steps : neighbours env0 id → stays (λ r, ∀ j, r = Ok j → job_id j = job_id job) (updateWorkflow env0 job steps).
Proof using.
  intros Hn0. apply stays_withJobs; [done|]. intros n s r s' Ha H. by destruct (UpdateWorkflow_active _ _ _ _ _ _ _ Ha H).
Qed.
Lemma stays_jobCancelRequested jobID : stays (λ _, True) (jobCancelRequested env jobID).
Proof using Hn. apply stays_withJobs; [by apply final_neighbours|]. intros n s a s' Ha H. by injection H as <- <-. Qed.

(** After the end of the job, the audit entry. *)
Lemma recordJob_ended job d st (w : world X) r w' : isTerminalJobState st = true → ended (w_jobs w) id st → recordJob Marshal (jobFinalizationContext env) job d w = (r, w') → r = Ok tt ∧ ended (w_jobs w') id st.
Proof using Hn.
  intros Ht He. unfold recordJob, withJobs. intros H. injection H as <- <-. split; [done|]. cbn [w_jobs]. apply (nb_ended _ _ Hn (w_tick w) _ _ Ht) in He. cbn [jobFinalizationContext e_others e_io e_now e_token].
  unfold RecordJob. destruct (marshalDetails _ _) as [detail|e]; cbn [res_bind]; [|exact He]. unfold create, CreateAuditEntry, driver. destruct (e_final env (w_tick w)); [exact He|]. cbn. destruct (audit_entries _ !! _); exact He.
Qed.

Lemma finishes_terminal job state code message text : job_id job = id → isTerminalJobState state = true →
  finishes (withJobs (jobFinalizationContext env) (λ n s, finishTerminal (e_final env n) (e_io2 env n) (e_now env n) s job state code message text)).
Proof using Hn.
  intros Hid Ht w r w' Hl. unfold withJobs. destruct (finishTerminal _ _ _ _ _ _ _ _ _) as [r0 s'] eqn:E. intros H. injection H as <- <-. exists r0. split; [done|]. intros Hs.
  apply finishTerminal_active in E as [Hio HOk]; [|rewrite Hid; by apply (nb_active _ _ Hn)|done]. rewrite Hid in HOk. destruct (Hio (Hs _)) as [j ->]. destruct (HOk j eq_refl) as (_ & Hj & _ & He).
  exists j. split_and!; [done|by rewrite Hj|exact He].
Qed.
Lemma finishMaintenance_finishes job state code message : job_id job = id → finishes (finishMaintenanceJob (jobFinalizationContext env) job state code message).
Proof using Hn. intros Hid. unfold finishMaintenanceJob. destruct (str_eqb state "timed_out"); [|destruct (str_eqb state "cancelled")]; by apply finishes_terminal. Qed.

Lemma failWith_finishes message d code job workflow index err : job_id job = id → finishes (failWith Marshal env message d code job workflow index err).
Proof using Hn.
  intros Hid. unfold failWith. eapply finishes_andThen; [apply stays_jobCancelRequested|intros requested _]. eapply finishes_andThen; [apply stays_contextError|intros ctx _].
  destruct (maintenanceFailure _ _ _ _) as [[terminalState errorCode] errorMessage]. unfold finishFailure. eapply finishes_andThen; [by apply stays_updateWorkflow, final_neighbours|intros updated Hu].
  assert (job_id (match updated with Ok j => j | Err _ => job end) = id) as Hid' by (destruct updated as [j|]; [by rewrite (Hu j eq_refl)|done]).
  eapply (finishes_andThen (λ _, True)); [destruct (markWorkflowState workflow index terminalState !! index); [by apply stays_publish, final_neighbours|by apply stays_returns]|intros _ _].
  intros w r w' Hl [(e & H & _)|(r1 & w1 & H1 & H)]%andThen_inv; [by destruct (finishMaintenance_finishes _ _ _ _ Hid' _ _ _ Hl H) as (a & ? & _)|].
  destruct (finishMaintenance_finishes _ _ _ _ Hid' _ _ _ Hl H1) as (r0 & [= <-] & Hend). destruct r1 as [finishedJob|e]; [|injection H as <- <-; by eexists].
  apply andThen_inv in H as [(e & H & ->)|(u & w2 & H2 & H)]; [unfold recordJob, withJobs in H; by injection H|]. injection H as <- <-. eexists. split; [done|]. intros Hs.
  destruct (Hend Hs) as (j & [= ->] & Ht & He). exists j. split_and!; [done..|]. by apply (recordJob_ended _ _ _ _ _ _ Ht He) in H2 as [_ ?].
Qed.

Lemma saveWorkflow_runs run job workflow index : job_id job = id → runs (λ j, job_id j = id) (saveWorkflow ToLower Marshal asError env run job workflow index).
Proof using Hn.
  intros Hid. eapply runs_andThen; [by apply stays_runs, stays_updateWorkflow|]. intros [j|e] Hu; [apply stays_runs, stays_returns; by rewrite (Hu j eq_refl)|].
  intros w r w' Hl [(e' & H & ->)|(r1 & w1 & H1 & H)]%andThen_inv; [by destruct (failWith_finishes _ _ _ _ _ _ _ Hid _ _ _ Hl H) as (a & ? & _)|].
  injection H as <- <-. split; [|left; by eexists]. intros Hs. destruct (failWith_finishes _ _ _ _ _ _ _ Hid _ _ _ Hl H1) as (r2 & [= <-] & Hend).
  destruct (Hend Hs) as (j & _ & Ht & He). by exists (job_state j).
Qed.
Lemma stays_publishProgress job st ref l : stays (λ _, True) (publishProgress ToLower env job st ref l).
Proof using Hn.
  induction l as [|p l IH]; cbn [publishProgress]; [by apply stays_returns|]. eapply (stays_andThen (λ _, True)); [|intros _ _; exact IH].
  apply stays_withJobs; [done|]. intros n s a s' Ha H. injection H as <- <-. split; [|done]. by apply PublishEvent_active.
Qed.
Lemma stays_runStep st options managed : stays (λ _, True) (runUpdateWorkflowStep reader runner env st options managed).
Proof using Hn.
  unfold runUpdateWorkflowStep. destruct (str_eqb _ _); [eapply stays_andThen; [by apply stays_outside|intros r _; by apply stays_returns]|].
  destruct (str_eqb _ _); [by apply stays_returns|]. destruct (str_eqb _ _); [by apply stays_returns|by apply stays_outside].
Qed.
Lemma stays_attempts job st ref options managed delays attempt : stays (λ _, True) (attemptStep ToLower reader runner env job st ref options managed delays attempt).
Proof using Hn.
  revert attempt. induction delays as [|d delays IH]; intros attempt; cbn [attemptStep];
    (eapply stays_andThen; [apply stays_runStep|intros oc _]); (eapply stays_andThen; [apply stays_publishProgress|intros _ _]);
    (eapply (stays_andThen (λ _, True)); [destruct (str_empty _); [by apply stays_returns|by apply stays_publish]|intros _ _]); destruct (oc_err oc) as [err|]; try by apply stays_returns.
  eapply stays_andThen; [apply stays_contextError|intros ctx _]. destruct (negb _); [by apply stays_returns|]. eapply stays_andThen; [by apply stays_publish|intros _ _].
  eapply (stays_andThen (λ _, True)); [|intros [e|] _; [by apply stays_returns|apply IH]]. unfold waitForRetry.
  eapply (stays_andThen (λ _, True)); [apply stays_withJobs; [done|intros n s a s' Ha H; by injection H as <- <-]|intros _ _].
  eapply stays_andThen; [apply stays_contextError|intros ctx' _; by apply stays_returns].
Qed.

Definition ours (l : loopState) : Prop := job_id (ls_job l) = id.
Lemma announced_runs job (event message : string) ref (l : loopState) : ours l → runs ours (do! _ := publish env job event message "" ref in returns l).
Proof using Hn. intros Hl. eapply runs_andThen; [by apply stays_runs, stays_publish|intros _ _; by apply stays_runs, stays_returns]. Qed.
Lemma succeedStep_runs run index st l : ours l → runs ours (succeedStep ToLower Marshal asError reader env run index st l).
Proof using Hn.
  intros Hid. unfold succeedStep. eapply (runs_andThen (λ _, True)).
  { destruct (_ && _); [|by apply stays_runs, stays_returns]. eapply stays_runs, (stays_andThen (λ _, True)); [by apply stays_outside|intros _ _; by apply stays_returns]. }
  intros _ _. eapply (runs_andThen (λ _, True)).
  { destruct (_ && _); [|by apply stays_runs, stays_returns]. eapply stays_runs, (stays_andThen (λ _, True)); [apply stays_withJobs; [done|intros n s a s' Ha H; by injection H as <- <-]|intros now _].
    eapply (stays_andThen (λ _, True)); [by apply stays_outside|intros _ _; by apply stays_returns]. }
  intros _ _. eapply runs_andThen; [by apply saveWorkflow_runs|intros job Hj; by apply announced_runs].
Qed.
Lemma failStep_runs run index st r0 err l (w : world X) r w' : ours l → live w → (is_canceled err = true → interrupted w) →
  failStep ToLower Marshal asError env run index st r0 err l w = (r, w') → match r with Ok a => live w' ∧ ours a | Err r => over r w' end.
Proof using Hn.
  intros Hid Hl Hc [(e & H & _)|(ctx & w1 & H1 & H)]%andThen_inv; [by injection H|]. injection H1 as <- <-.
  destruct (bool_decide (w_ctx w ≠ None) || is_canceled err) eqn:Ei.
  - assert (interrupted w) as Hi by (apply orb_prop in Ei as [Ei|Ei]; [left; by apply bool_decide_eq_true in Ei|auto]).
    apply andThen_inv in H as [(e & H & ->)|(r1 & w2 & H2 & H)]; [by destruct (failWith_finishes _ _ _ _ _ _ _ Hid _ _ _ Hl H) as (a & ? & _)|]. injection H as <- <-.
    destruct (failWith_finishes _ _ _ _ _ _ _ Hid _ _ _ Hl H2) as (r2 & [= <-] & Hend). split; [|right; eapply interrupted_grows; [by eapply failWith_grows|done]].
    intros Hs. destruct (Hend Hs) as (j & -> & Ht & He). exists (job_state j). split_and!; [done..|]. by intros j' [= <-].
  - revert Hl H. revert w r w' Hc Ei. intros w r w' _ _. eapply runs_andThen; [by apply saveWorkflow_runs|intros job Hj]. eapply runs_andThen; [by apply stays_runs, stays_publish|intros _ _].
    by apply announced_runs.
Qed.
Lemma stepOnce_runs run index l : ours l → runs ours (stepOnce ToLower Marshal asError reader runner env run index l).
Proof using Hn.
  intros Hid. unfold stepOnce. destruct (ls_workflow l !! index) as [st|]; [|by apply stays_runs, stays_returns]. destruct (negb _).
  { unfold skipStep. eapply runs_andThen; [by apply saveWorkflow_runs|intros job Hj; by apply announced_runs]. }
  apply runs_andThen with (Q := ours).
  { unfold beginStep. destruct (str_eqb _ _); [by apply stays_runs, stays_returns|]. eapply runs_andThen; [by apply saveWorkflow_runs|intros job Hj; by apply announced_runs]. }
  intros l1 Hid1 w r w' Hl [(e & H & ->)|(outcome & w1 & H1 & H)]%andThen_inv.
  { by destruct (stays_attempts _ _ _ _ _ _ _ _ _ _ Hl H) as (a & ? & _). }
  destruct (stays_attempts _ _ _ _ _ _ _ _ _ _ Hl H1) as (a & [= <-] & Hl1 & _). destruct outcome as [r1 [err|]]; cbn [fst snd] in H; [|by apply (succeedStep_runs _ _ _ _ Hid1 _ _ _ Hl1 H)].
  eapply failStep_runs; [exact Hid1|exact Hl1| |exact H]. intros Hc. by eapply attemptStep_error.
Qed.
Lemma updateLoop_runs run indices l : ours l → runs ours (updateLoop ToLower Marshal asError reader runner env run indices l).
Proof using Hn. revert l. induction indices as [|i indices IH]; intros l Hid; cbn [updateLoop]; [by apply stays_runs, stays_returns|]. eapply runs_andThen; [by apply stepOnce_runs|exact IH]. Qed.

Definition failedAny (l : loopState) : string := match ls_failures l with [] => "succeeded" | _ => "failed" end.

Lemma finish_cases l (w : world X) r w' : ours l → live w →
  withJobs (jobFinalizationContext env) (λ n s, match ls_failures l with
    | [] => FinishSucceeded (e_final env n) (e_io2 env n) (e_now env n) s (ls_job l)
    | _ => FinishFailed (e_final env n) (e_io2 env n) (e_now env n) s (ls_job l) "update_stacks_failed" (aggregateUpdateFailureMessage (ls_failures l)) end) w = (r, w') →
  ∃ r0, r = @Ok result _ r0 ∧ (finalStoreWorks env → ∃ j, r0 = Ok j) ∧
    (∀ j, r0 = Ok j → job_workflow j = job_workflow (ls_job l) ∧ job_state j = failedAny l ∧ ended (w_jobs w') id (job_state j)).
Proof using Hn.
  intros Hid Hl. unfold withJobs, failedAny, ours in *. assert (active (e_others env (w_tick w) (w_jobs w)) (job_id (ls_job l))) as Ha by (rewrite Hid; by apply (nb_active _ _ Hn)).
  destruct (ls_failures l) as [|f fs]; destruct (_ : res jobs_error Job * Service) as [r0 s'] eqn:E; intros H'; injection H' as <- <-; exists r0; (split; [done|]); cbn [w_jobs].
  - apply FinishSucceeded_active in E as [Hio HOk]; [|done]. rewrite Hid in HOk. split; [intros Hs; by apply Hio|]. intros j Hj. by destruct (HOk j Hj) as (? & ? & _ & ?).
  - unfold FinishFailed in E. apply finishTerminal_active in E as [Hio HOk]; [|done..]. rewrite Hid in HOk. split; [intros Hs; by apply Hio|]. intros j Hj. by destruct (HOk j Hj) as (? & ? & _ & ?).
Qed.

Lemma updateBody_inv job run (w : world X) r w' : job_id job = id → live w → updateBody ToLower Marshal asError reader runner env job run w = (r, w') →
  (∃ r0, r = Err r0 ∧ over r0 w') ∨
  (∃ r0 l w1, r = Ok r0 ∧ settled r0 w' ∧ updateLoop ToLower Marshal asError reader runner env run (seq 0 (length (ur_workflow run))) (mkLoop job (ur_workflow run) [] ∅) w = (Ok l, w1) ∧
     ∀ j, r0 = Ok j → job_workflow j = job_workflow (ls_job l) ∧ job_state j = failedAny l).
Proof using Hn.
  intros Hid Hl. unfold updateBody. intros [(e & H1 & ->)|(l & w1 & H1 & H2)]%andThen_inv.
  { left. exists e. split; [done|]. exact (updateLoop_runs run _ (mkLoop job (ur_workflow run) [] ∅) Hid _ _ _ Hl H1). }
  right. destruct (updateLoop_runs run _ (mkLoop job (ur_workflow run) [] ∅) Hid _ _ _ Hl H1) as [Hl1 Hl'].
  apply andThen_inv in H2 as [(e & H2 & ->)|(fin & w2 & H2 & H3)]; destruct (finish_cases _ _ _ _ Hl' Hl1 H2) as (r0 & E0 & Hsw & HOk); [done|]. injection E0 as <-.
  destruct fin as [j|e]; [|injection H3 as <- <-; exists (Err (ErrFinish e)), l, w1; split_and!; [done|intros Hs; by destruct (Hsw Hs)|done|done]].
  destruct (HOk j eq_refl) as (Hwf & Hst & He). assert (isTerminalJobState (job_state j) = true) as Ht by (rewrite Hst; unfold failedAny; by destruct (ls_failures l)).
  apply andThen_inv in H3 as [(e & H3 & _)|(u & w3 & H3 & H4)]; apply (recordJob_ended _ _ _ _ _ _ Ht He) in H3 as [Hu He3]; [done|]. injection H4 as <- <-.
  exists (Ok j), l, w1. split_and!; [done|intros _; exists (job_state j); split_and!; [done..|by intros j' [= <-]]|done|by intros j' [= <-]].
Qed.

(** The registration of the cancel function around the body. *)
Lemma ExecuteUpdate_body job run (w : world X) r w' : job_id job = id → live w → ExecuteUpdate ToLower Marshal asError reader runner env job run w = (r, w') →
  ∃ w0 r1 w1, live w0 ∧ updateBody ToLower Marshal asError reader runner env job run w0 = (r1, w1) ∧ r = match r1 with Ok r => r | Err r => r end ∧ grows w1 w' ∧
    (∀ st, isTerminalJobState st = true → ended (w_jobs w1) id st → ended (w_jobs w') id st).
Proof using Hn.
  intros Hid Hl. unfold ExecuteUpdate, cancellable. destruct (updateBody _ _ _ _ _ _ _ _ _) as [r1 w1] eqn:Eb. intros H'. injection H' as <- <-.
  eexists _, r1, w1. split; [|split; [exact Eb|split; [done|split; [split; cbn; [by destruct (w_ctx w1)|done]|]]]].
  - pose proof (nb_active _ _ Hn (w_tick w) _ Hl) as Ha. unfold live, withJobs. cbn [snd w_jobs]. unfold RegisterCancel. by destruct (str_empty _).
  - intros st Ht He. pose proof (nb_ended _ _ Hn (w_tick w1) _ _ Ht He) as He'. cbn [w_jobs]. unfold unregisterCancel. by destruct (str_empty _).
Qed.
End ends.

Section theorems.
Context {X : Type} (ToLower : string → string) (Marshal : details → option string) (asError : jobs_error → goError)
  (reader : stackReader X) (runner : pruneRunner X) `{HR : !MapRange Resource string}.

(** C7: an update always ends: whatever the commands of its steps return and however often they fail, whenever it is cancelled or its deadline passes, and even if the store
    refuses every write before, the job of a started update is stored in a terminal state, the one it is reported in, and holds no resource any more, as long as the store
    accepts the writes of the end and other goroutines do not end the job themselves. *)
Theorem update_always_ends env job run w r w' : ExecuteUpdate ToLower Marshal asError reader runner env job run w = (r, w') →
  finalStoreWorks env → neighbours env (job_id job) → active (w_jobs w) (job_id job) →
  ∃ st, isTerminalJobState st = true ∧ stored_state (w_jobs w') (job_id job) = Some st ∧ resourcesByJob (locks (w_jobs w')) !! job_id job = None ∧ ∀ j, r = Ok j → job_state j = st.
Proof using.
  intros H' Hs Hn Hl. destruct (ExecuteUpdate_body _ _ _ _ _ _ _ Hn _ _ _ _ _ eq_refl Hl H') as (w0 & r1 & w1 & Hl0 & Hb & -> & _ & Hend).
  destruct (updateBody_inv _ _ _ _ _ _ _ Hn _ _ _ _ _ eq_refl Hl0 Hb) as [(r0 & -> & Ho & _)|(r0 & l & w2 & -> & Ho & _)]; destruct (Ho Hs) as (st & Ht & He & Hj);
    destruct (Hend st Ht He) as [H1 H2]; by exists st.
Qed.

(** C8: a failure stays with its stack: when an update ends without having been interrupted, every step of its workflow has been decided; a step was skipped exactly when an
    earlier step of the same stack failed, or when it is the final prune and some step failed; all others ran, and the job has failed exactly when one of them has. *)
Theorem failures_stay_local env job run w j w' : ExecuteUpdate ToLower Marshal asError reader runner env job run w = (Ok j, w') →
  neighbours env (job_id job) → active (w_jobs w) (job_id job) → ¬ interrupted w' → ur_workflow run ≠ [] →
  ∃ final, job_workflow j = Some (mkWorkflow final) ∧ erased final = erased (ur_workflow run) ∧ isolated final (length final) ∧
    (job_state j = "failed" ∧ someFailed final (length final) (λ _, True) ∨ job_state j = "succeeded" ∧ ¬ someFailed final (length final) (λ _, True)).
Proof using.
  intros H' Hn Hl Hni Hne. destruct (ExecuteUpdate_body _ _ _ _ _ _ _ Hn _ _ _ _ _ eq_refl Hl H') as (w0 & r1 & w1 & Hl0 & Hb & Er & Hg & _).
  destruct (updateBody_inv _ _ _ _ _ _ _ Hn _ _ _ _ _ eq_refl Hl0 Hb) as [(r0 & -> & _ & Hi)|(r0 & l & w2 & -> & _ & Hloop & HOk)].
  { subst r0. destruct Hi as [[e ?]|Hi]; [done|]. exfalso. by apply Hni, (interrupted_grows _ _ Hg). }
  destruct (HOk j (eq_sym Er)) as [Hwf Hst]. exists (ls_workflow l).
  destruct (updateLoop_verdicts _ _ _ _ _ _ _ _ 0 _ _ _ _ eq_refl (verdicts_start job (ur_workflow run)) Hloop) as [V Hlen]. cbn [Nat.add] in *.
  rewrite Hlen. split; [rewrite Hwf; destruct (vd_saved _ _ V) as [E|E]; [by destruct (ur_workflow run)|done]|].
  split; [by rewrite (updateLoop_erased _ _ _ _ _ _ _ _ _ _ _ _ Hloop)|]. split; [apply (vd_isolated _ _ V)|]. rewrite Hst. unfold failedAny.
  destruct (ls_failures l) eqn:Ef; [right|left]; (split; [done|]).
  - intros Hx. by apply (proj2 (vd_failures _ _ V)) in Hx.
  - apply (vd_failures _ _ V). by rewrite Ef.
Qed.
End theorems.

(** ** A concrete run with a failure

    The update of MaintenancePlan on a host where pulling [web] is refused: the
    steps of [old] run, the deployment of [web] and the prune are skipped. *)

#[local] Existing Instance demoRange.

Definition events_ok (db : DB) : bool :=
  bool_decide (map_Forall (λ k _, match jobs db !! k.1 with Some r => (1 <=? k.2) && (k.2 <=? r_event_sequence r) | None => false end = true) (job_events db)) &&
  bool_decide (map_Forall (λ _ r, (0 <=? r_event_sequence r) = true) (jobs db)).
Lemma events_ok_inv db : events_ok db = true → events_inv db.
Proof.
  unfold events_ok. intros [H1 H2]%andb_prop. apply bool_decide_eq_true in H1, H2. split.
  - intros id n row Hrow. specialize (H1 _ _ Hrow). cbn in H1. destruct (jobs db !! id) as [r|]; [|done]. exists r. split; [done|lia].
  - intros id r Hr. specialize (H2 _ _ Hr). cbn in H2. lia.
Qed.

Definition demoRefused : goError := mkErr "manifest unknown" false false.
Definition demoBroken : stackReader nat :=
  mkReader nat (ListStacks demoReader) (GetStack demoReader) (NeedsBuild demoReader)
    (λ stackID action _ x, (mkOutcome [] "" (if str_eqb stackID "web" && str_eqb action "pull" then Some demoRefused else None), S x))
    (RecordDeployBaseline demoReader) (InvalidateImageUpdateStatus demoReader).
Definition demoFailing : result * world nat := ExecuteUpdate (λ s, s) (λ _, Some "{}") demoAsError demoBroken demoRunner demoEnv demoUpdateJob demoUpdateRun demoPlanned.2.
Definition demoFailed : Job := match demoFailing.1 with Ok job => job | Err _ => demoJob end.
Definition demoFinal : list JobWorkflowStep :=
  [mkStep "pull" "succeeded" "old" []; mkStep "preserve_inactive" "succeeded" "old" []; mkStep "pull" "failed" "web" ["app"]; mkStep "up" "skipped" "web" ["app"]; mkStep "prune" "skipped" "" []].

Lemma demo_failing : ExecuteUpdate (λ s, s) (λ _, Some "{}") demoAsError demoBroken demoRunner demoEnv demoUpdateJob demoUpdateRun demoPlanned.2 = (Ok demoFailed, demoFailing.2).
Proof. fold demoFailing. assert (demoFailing.1 = Ok demoFailed) as E by (vm_compute; reflexivity). rewrite <- E. apply surjective_pairing. Qed.
Example demo_final : job_workflow demoFailed = Some (mkWorkflow demoFinal) ∧ job_state demoFailed = "failed".
Proof. vm_compute. done. Qed.
Lemma demo_neighbours id : neighbours demoEnv id.
Proof. by split. Qed.
Lemma demo_stored_running : r_state <$> jobs (store (w_jobs demoPlanned.2)) !! job_id demoUpdateJob = Some "running".
Proof. vm_compute. reflexivity. Qed.
Lemma demo_active : active (w_jobs demoPlanned.2) (job_id demoUpdateJob).
Proof.
  split; [apply events_ok_inv; vm_compute; reflexivity|]. pose proof demo_stored_running as H. destruct (jobs _ !! _) as [row|]; [|done]. exists row. split; [done|]. injection H as ->. cbn. set_solver.
Qed.
Lemma demo_uninterrupted : ¬ interrupted demoFailing.2.
Proof.
  intros [H|(c & e & H & He)]; [by apply H; vm_compute|]. revert H. assert (w_calls demoFailing.2 = [(CallStep "old" "pull" (mkStepOptions false []), None); (CallInvalidate "old" [], None);
    (CallStep "web" "pull" (mkStepOptions false ["app"]), Some demoRefused)]) as -> by (vm_compute; reflexivity).
  rewrite !elem_of_cons. intros [?|[?|[?|Hx]]]; [done..|simplify_eq; done|by apply elem_of_nil in Hx].
Qed.

Lemma saved_inj a b : Some (mkWorkflow a) = Some (mkWorkflow b) → a = b.
Proof. congruence. Qed.
Lemma update_always_ends_witness : stored_state (w_jobs demoFailing.2) (job_id demoUpdateJob) = Some "failed" ∧ resourcesByJob (locks (w_jobs demoFailing.2)) !! job_id demoUpdateJob = None.
Proof.
  destruct (update_always_ends (λ s, s) (λ _, Some "{}") demoAsError demoBroken demoRunner demoEnv demoUpdateJob demoUpdateRun demoPlanned.2 _ _ demo_failing (λ _, eq_refl)
    (demo_neighbours _) demo_active) as (st & _ & Hst & Hres & Hj).
  split; [|exact Hres]. rewrite Hst, <- (Hj _ eq_refl). exact (f_equal Some (proj2 demo_final)).
Defined.
Lemma failures_stay_local_witness : isolated demoFinal 5 ∧ someFailed demoFinal 5 (λ _, True).
Proof.
  destruct (failures_stay_local (λ s, s) (λ _, Some "{}") demoAsError demoBroken demoRunner demoEnv demoUpdateJob demoUpdateRun demoPlanned.2 _ _ demo_failing (demo_neighbours _) demo_active
    demo_uninterrupted ltac:(done)) as (final & Hwf & _ & Hi & Hf).
  pose proof demo_final as [Ewf Est]. rewrite Ewf in Hwf. apply saved_inj in Hwf as <-. split; [exact Hi|]. destruct Hf as [[_ Hf]|[Hs _]]; [exact Hf|]. rewrite Est in Hs. discriminate Hs.
Defined.
