(* ===== verification/AuthPassword.v ===== *)
(** * internal/auth/service.go: password hashes

    The encoded form of a password hash, its strict parser with the bounds on the
    argon2 parameters, and hashing and verification.  argon2 is a parameter:
    [IDKey password salt time memory threads keyLen] is the derived key, [None]
    when the call panics. *)

From stdpp Require Import base list strings.
From Stdlib Require Import Ascii ZArith.
From S2P Require Import Prelude GoStrings GoBase64.

Local Open Scope Z_scope.

Definition PasswordMinimumLength : Z := 12.
Definition PasswordMaximumLength : Z := 256.
Definition argon2Memory : Z := 64 * 1024.
Definition argon2Iterations : Z := 3.
Definition argon2Parallelism : Z := 2.
Definition argon2SaltLength : Z := 16.
Definition argon2KeyLength : Z := 32.
Definition argon2MinimumMemory : Z := 8 * 1024.
Definition argon2MaximumMemory : Z := 128 * 1024.
Definition argon2MinimumIterations : Z := 1.
Definition argon2MaximumIterations : Z := 10.
Definition argon2MinimumParallelism : Z := 1.
Definition argon2MaximumParallelism : Z := 8.
Definition argon2MinimumSaltLength : Z := 16.
Definition argon2MaximumSaltLength : Z := 64.
Definition argon2MinimumHashLength : Z := 16.
Definition argon2MaximumHashLength : Z := 64.
Definition maximumEncodedPasswordHashLength : Z := 256.

Record passwordHashParameters := mkParameters { memory : Z; iterations : Z; parallelism : Z }.
Record parsedPasswordHash := mkParsed { parameters : passwordHashParameters; salt : string; hash : string }.

Definition parsePasswordHashParameter (value prefix : string) (bitSize : Z) : option Z :=
  match strip_prefix prefix value with
  | None => None
  | Some digits => if str_empty digits then None else parse_uint digits bitSize
  end.

Definition decodePasswordHashComponent (encoded : string) (minimumLength maximumLength : Z) : option string :=
  if (slen encoded =? 0) || (EncodedLen maximumLength <? slen encoded) then None
  else
    match DecodeString stdAlphabet true encoded with
    | None => None
    | Some decoded =>
      if (slen decoded <? minimumLength) || (maximumLength <? slen decoded)
         || negb (str_eqb (EncodeToString stdAlphabet decoded) encoded)
      then None else Some decoded
    end.

(** The bounds on the parameters, with the widths of their Go types. *)
Definition parameters_ok (p : passwordHashParameters) : bool :=
  (argon2MinimumMemory <=? memory p) && (memory p <=? argon2MaximumMemory)
  && (argon2MinimumIterations <=? iterations p) && (iterations p <=? argon2MaximumIterations)
  && (argon2MinimumParallelism <=? parallelism p) && (parallelism p <=? argon2MaximumParallelism).

Definition parsePasswordHash (encodedHash : string) : option parsedPasswordHash :=
  if (slen encodedHash =? 0) || (maximumEncodedPasswordHashLength <? slen encodedHash) then None
  else
    match split encodedHash "$" with
    | [p0; p1; p2; p3; p4; p5; p6] =>
      if negb (str_eqb p0 "" && str_eqb p1 "stacklab" && str_eqb p2 "argon2id" && str_eqb p3 "v=19") then None
      else
        match split p4 "," with
        | [m; t; p] =>
          memory ← parsePasswordHashParameter m "m=" 32;
          iterations ← parsePasswordHashParameter t "t=" 32;
          parallelism ← parsePasswordHashParameter p "p=" 8;
          let parameters := mkParameters memory iterations parallelism in
          if negb (parameters_ok parameters) then None
          else
            salt ← decodePasswordHashComponent p5 argon2MinimumSaltLength argon2MaximumSaltLength;
            expectedHash ← decodePasswordHashComponent p6 argon2MinimumHashLength argon2MaximumHashLength;
            Some (mkParsed parameters salt expectedHash)
        | _ => None
        end
    | _ => None
    end.

(** [fmt] of an unsigned number. *)
Fixpoint decimal_from (fuel : nat) (n : Z) : string :=
  match fuel with
  | O => ""
  | S fuel => if n <? 10 then str1 (digit_chr n) else decimal_from fuel (n / 10) +:+ str1 (digit_chr (n mod 10))
  end.
Definition decimal (n : Z) : string := decimal_from 20 n.

Definition encodePasswordHash (saltBytes hashBytes : string) : string :=
  "$stacklab$argon2id$v=19$m=" +:+ decimal argon2Memory +:+ ",t=" +:+ decimal argon2Iterations
  +:+ ",p=" +:+ decimal argon2Parallelism
  +:+ "$" +:+ EncodeToString stdAlphabet saltBytes +:+ "$" +:+ EncodeToString stdAlphabet hashBytes.

(** UTF-8: the number of characters of a valid string. *)
Definition is_cont (c : ascii) : bool := (128 <=? byte_of c) && (byte_of c <=? 191).

Fixpoint rune_count (s : string) : option Z :=
  match s with
  | EmptyString => Some 0
  | String b0 r0 =>
    let b := byte_of b0 in
    if b <? 128 then n ← rune_count r0; Some (n + 1)
    else
      match r0 with
      | String b1 r1 =>
        if (194 <=? b) && (b <=? 223) then
          if is_cont b1 then n ← rune_count r1; Some (n + 1) else None
        else
          match r1 with
          | String b2 r2 =>
            let low := if b =? 224 then 160 else 128 in
            let high := if b =? 237 then 159 else 191 in
            if (224 <=? b) && (b <=? 239) then
              if (low <=? byte_of b1) && (byte_of b1 <=? high) && is_cont b2
              then n ← rune_count r2; Some (n + 1) else None
            else
              match r2 with
              | String b3 r3 =>
                let low := if b =? 240 then 144 else 128 in
                let high := if b =? 244 then 143 else 191 in
                if (240 <=? b) && (b <=? 244) && (low <=? byte_of b1) && (byte_of b1 <=? high)
                   && is_cont b2 && is_cont b3
                then n ← rune_count r3; Some (n + 1) else None
              | EmptyString => None
              end
          | EmptyString => None
          end
      | EmptyString => None
      end
  end.

Inductive password_error := ErrInvalidPassword | ErrSalt (message : string) | ErrInvalidCredentials | ErrArgonPanic.

Definition validateNewPassword (password : string) : res password_error unit :=
  match rune_count password with
  | None => Err ErrInvalidPassword
  | Some length =>
    if (length <? PasswordMinimumLength) || (PasswordMaximumLength <? length) then Err ErrInvalidPassword else Ok tt
  end.

Section argon.
Context (IDKey : string → string → Z → Z → Z → Z → option string).

(** [hashPassword]; [random] is the outcome of reading the salt.  A panic of
    argon2 is not recovered here. *)
Definition hashPassword (random : res string string) (password : string) : res password_error string :=
  let? _ := validateNewPassword password in
  match random with
  | Err e => Err (ErrSalt e)
  | Ok saltBytes =>
    match IDKey password saltBytes argon2Iterations argon2Memory argon2Parallelism argon2KeyLength with
    | None => Err ErrArgonPanic
    | Some hashBytes => Ok (encodePasswordHash saltBytes hashBytes)
    end
  end.

Definition verifyPassword (encodedHash password : string) : res password_error unit :=
  match parsePasswordHash encodedHash with
  | None => Err ErrInvalidCredentials
  | Some parsed =>
    let p := parameters parsed in
    match IDKey password (salt parsed) (iterations p) (memory p) (parallelism p) (slen (hash parsed)) with
    | None => Err ErrInvalidCredentials
    | Some computedHash => if str_eqb (hash parsed) computedHash then Ok tt else Err ErrInvalidCredentials
    end
  end.
End argon.

(** ** Properties *)

Lemma decodeComponent_bounds encoded lo hi decoded :
  decodePasswordHashComponent encoded lo hi = Some decoded → lo <= slen decoded <= hi.
Proof.
  unfold decodePasswordHashComponent. case_match; [done|].
  destruct (DecodeString _ _ _); [|done]. destruct (_ || _ || _) eqn:Hb; [done|]. intros [= <-]. boolify. lia.
Qed.

(** C39: whatever is stored, a hash that parses has bounded argon2 cost, and salt
    and key of bounded length, so verification cannot be made arbitrarily
    expensive; and the text is the only encoding of its components. *)
Theorem parsePasswordHash_bounds encoded parsed :
  parsePasswordHash encoded = Some parsed →
  argon2MinimumMemory <= memory (parameters parsed) <= argon2MaximumMemory ∧
  argon2MinimumIterations <= iterations (parameters parsed) <= argon2MaximumIterations ∧
  argon2MinimumParallelism <= parallelism (parameters parsed) <= argon2MaximumParallelism ∧
  argon2MinimumSaltLength <= slen (salt parsed) <= argon2MaximumSaltLength ∧
  argon2MinimumHashLength <= slen (hash parsed) <= argon2MaximumHashLength ∧
  slen encoded <= maximumEncodedPasswordHashLength.
Proof.
  unfold parsePasswordHash. destruct (_ || _) eqn:Hlen; [done|]. apply orb_false_iff in Hlen as [_ Hlen].
  apply Z.ltb_ge in Hlen.
  destruct (split encoded "$") as [|p0 [|p1 [|p2 [|p3 [|p4 [|p5 [|p6 [|??]]]]]]]]; try done.
  destruct (negb _); [done|]. destruct (split p4 ",") as [|m [|t [|p [|??]]]]; try done.
  destruct (parsePasswordHashParameter m "m=" 32) as [memory|]; [|done].
  destruct (parsePasswordHashParameter t "t=" 32) as [iterations|]; [|done].
  destruct (parsePasswordHashParameter p "p=" 8) as [parallelism|]; [|done]. cbn.
  destruct (parameters_ok _) eqn:Hp; [|done]. cbn.
  destruct (decodePasswordHashComponent p5 _ _) as [salt|] eqn:Hs; [|done].
  destruct (decodePasswordHashComponent p6 _ _) as [hash|] eqn:Hh; [|done]. cbn.
  intros [= <-]. cbn. unfold parameters_ok in Hp. cbn in Hp. boolify.
  apply decodeComponent_bounds in Hs, Hh. lia.
Qed.

Lemma std_free_dollar s : free_of "$" (EncodeToString stdAlphabet s) = true.
Proof.
  enough (str_forall (λ c, negb (Ascii.eqb c "$")) (EncodeToString stdAlphabet s) = true) as H.
  { revert H. generalize (EncodeToString stdAlphabet s). intros t. induction t; cbn; [done|].
    intros [-> ?]%andb_true_iff. auto. }
  apply encoded_forall. intros v Hv.
  assert (forallb (λ n, negb (Ascii.eqb (symbol stdAlphabet (Z.of_nat n)) "$")) (seq 0 64) = true) as H by by vm_compute.
  rewrite forallb_forall in H. specialize (H (Z.to_nat v)). rewrite Z2Nat.id in H by lia. apply H, in_seq. lia.
Qed.

Lemma decodeComponent_encoded s lo hi :
  lo <= slen s <= hi → 0 < slen s → EncodedLen (slen s) <= EncodedLen hi →
  decodePasswordHashComponent (EncodeToString stdAlphabet s) lo hi = Some s.
Proof.
  intros Hs Hpos Hle. unfold decodePasswordHashComponent.
  assert (slen (EncodeToString stdAlphabet s) = EncodedLen (slen s)) as Hl by apply encoded_length.
  rewrite Hl, base64_roundtrip by apply std_ok.
  rewrite (proj2 (Z.eqb_neq _ _)) by (unfold EncodedLen; lia).
  rewrite (proj2 (Z.ltb_ge _ _)) by lia. cbn.
  rewrite (proj2 (Z.ltb_ge (slen s) lo)), (proj2 (Z.ltb_ge hi (slen s))) by lia. cbn.
  unfold str_eqb. by rewrite bool_decide_true.
Qed.

Lemma parse_encoded saltBytes hashBytes :
  slen saltBytes = argon2SaltLength → slen hashBytes = argon2KeyLength →
  parsePasswordHash (encodePasswordHash saltBytes hashBytes)
  = Some (mkParsed (mkParameters argon2Memory argon2Iterations argon2Parallelism) saltBytes hashBytes).
Proof.
  intros Hs Hh. unfold encodePasswordHash. set (encoded := _ +:+ _).
  assert (slen encoded = 106) as Hlen.
  { unfold encoded, slen. rewrite !str_app_length, !Nat2Z.inj_add, !encoded_length.
    unfold slen in Hs, Hh. rewrite Hs, Hh. by vm_compute. }
  assert (split encoded "$" = [""; "stacklab"; "argon2id"; "v=19"; "m=65536,t=3,p=2";
    EncodeToString stdAlphabet saltBytes; EncodeToString stdAlphabet hashBytes]) as Hsplit.
  { transitivity (split ("" +:+ String "$" ("stacklab" +:+ String "$" ("argon2id" +:+ String "$" ("v=19" +:+ String "$"
      ("m=65536,t=3,p=2" +:+ String "$" (EncodeToString stdAlphabet saltBytes +:+ String "$"
         (EncodeToString stdAlphabet hashBytes))))))) "$").
    { unfold encoded. f_equal. }
    rewrite !split_free by (done || apply std_free_dollar). by rewrite split_last by apply std_free_dollar. }
  unfold parsePasswordHash. rewrite Hlen, Hsplit. cbn.
  rewrite !decodeComponent_encoded; [done|..]; rewrite ?Hs, ?Hh; by vm_compute.
Qed.

(** the round trip: a password that could be hashed is accepted against its
    own hash.  The hypotheses are the documented contract of argon2: it returns
    a key of the requested length and it does not panic on these parameters. *)
Theorem hash_verify_roundtrip IDKey saltBytes password encoded :
  (∀ pw s t m p n k, IDKey pw s t m p n = Some k → slen k = n) →
  slen saltBytes = argon2SaltLength →
  hashPassword IDKey (Ok saltBytes) password = Ok encoded →
  verifyPassword IDKey encoded password = Ok tt.
Proof.
  intros Hlen Hs H. unfold hashPassword in H. res_inv H.
  destruct (IDKey _ _ _ _ _ _) as [k|] eqn:Hk; [|done]. simplify_eq.
  unfold verifyPassword. pose proof (Hlen _ _ _ _ _ _ _ Hk) as Hkl. rewrite parse_encoded by done. cbn.
  rewrite Hkl, Hk. unfold str_eqb. by rewrite bool_decide_true.
Qed.

(** ** Concrete instances *)

(** A stand-in for argon2 with its length contract. *)
Fixpoint fill (n : nat) (c : ascii) : string := match n with O => "" | S n => String c (fill n c) end.
Definition demoKey (password salt : string) (t m p n : Z) : option string :=
  if n <? 0 then None else Some (fill (Z.to_nat n) (chr (slen password mod 256))).

Lemma fill_length n c : String.length (fill n c) = n.
Proof. induction n; cbn; auto. Qed.

Lemma demoKey_length pw s t m p n k : demoKey pw s t m p n = Some k → slen k = n.
Proof.
  unfold demoKey. destruct (Z.ltb_spec n 0); [done|]. intros [= <-]. unfold slen. rewrite fill_length. lia.
Qed.

Definition demoSalt : string := fill 16 "s".
Definition demoHash : string :=
  match hashPassword demoKey (Ok demoSalt) "correct horse battery" with Ok h => h | Err _ => "" end.

Lemma parsePasswordHash_bounds_witness :
  ∃ parsed, parsePasswordHash demoHash = Some parsed ∧
    argon2MinimumMemory <= memory (parameters parsed) <= argon2MaximumMemory.
Proof.
  exists (mkParsed (mkParameters argon2Memory argon2Iterations argon2Parallelism) demoSalt (fill 32 (chr 21))).
  split; [by vm_compute|]. apply (parsePasswordHash_bounds demoHash). by vm_compute.
Defined.

Lemma hash_verify_roundtrip_witness : verifyPassword demoKey demoHash "correct horse battery" = Ok tt.
Proof.
  apply (hash_verify_roundtrip demoKey demoSalt).
  - apply demoKey_length.
  - by vm_compute.
  - by vm_compute.
Defined.
