(* ===== verification/AuthService.v ===== *)
(** * internal/auth/service.go: the authentication service

    Login throttling, sessions over the store and the lifecycle hub.  Clock
    readings, the new session id and the outcomes of the store calls are
    arguments; [others] is what concurrent requests do to the service between two
    calls.  An operation that ends in a blocked hub has no result ([None]).
    Calls of the termination hook are recorded in [terminations]. *)

From stdpp Require Import gmap strings list relations.
From Stdlib Require Import Ascii ZArith.
From S2P Require Import Prelude GoStrings GoTime Store StoreRetention StoreAuth SessionHub AuthPassword.

Local Open Scope Z_scope.

Record Config := mkConfig {
  SessionIdleTimeout : Duration; SessionAbsoluteLifetime : Duration; SessionCookieName : string;
  CookieSecure : bool; BootstrapPassword : string; LoginMaxFailures : Z; LoginFailureWindow : Duration;
  LoginLockoutDuration : Duration }.

Inductive auth_error :=
| ErrUnauthorized
| ErrLoginInvalid
| ErrPasswordRejected (e : password_error)
| ErrNotConfigured
| ErrTooManyAttempts
| ErrContext
| ErrSessionID (message : string)
| ErrAuthStore (e : store_error)
| ErrConcurrentTouches.

Record loginAttemptState := mkAttempt {
  FirstFailedAt : Time; FailedCount : Z; LockedUntil : Time; UpdatedAt : Time }.
Definition zeroAttempt : loginAttemptState := mkAttempt zero_time 0 zero_time zero_time.

Record AuthSession := mkAuthSession {
  as_id : string; as_user : string; as_created_at : Time; as_last_seen_at : Time; as_expires_at : Time }.

Record Auth := mkAuth {
  cfg : Config; astore : DB; slotsUsed : Z; loginAttempts : gmap string loginAttemptState;
  loginInFlight : gset string; maxTrackedLoginClients : Z; hub : Hub; hasHook : bool;
  terminations : list SessionTermination }.

Definition defaultLoginVerificationConcurrency : Z := 2.
Definition defaultMaxTrackedLoginClients : Z := 4096.
Definition localUserID : string := "local".

Definition NewAuth (c : Config) (db : DB) : Auth :=
  mkAuth c db 0 ∅ ∅ defaultMaxTrackedLoginClients
    (newSessionLifecycleHub (SessionIdleTimeout c) (SessionAbsoluteLifetime c)) false [].

Definition with_astore (s : Auth) (db : DB) : Auth :=
  mkAuth (cfg s) db (slotsUsed s) (loginAttempts s) (loginInFlight s) (maxTrackedLoginClients s) (hub s) (hasHook s)
    (terminations s).
Definition with_attempts (s : Auth) (m : gmap string loginAttemptState) : Auth :=
  mkAuth (cfg s) (astore s) (slotsUsed s) m (loginInFlight s) (maxTrackedLoginClients s) (hub s) (hasHook s)
    (terminations s).
Definition with_login (s : Auth) (slots : Z) (m : gset string) : Auth :=
  mkAuth (cfg s) (astore s) slots (loginAttempts s) m (maxTrackedLoginClients s) (hub s) (hasHook s) (terminations s).
Definition with_hub (s : Auth) (h : Hub) : Auth :=
  mkAuth (cfg s) (astore s) (slotsUsed s) (loginAttempts s) (loginInFlight s) (maxTrackedLoginClients s) h (hasHook s)
    (terminations s).

(** ** Login throttling *)

Definition loginAttemptKey (ipAddress : string) : string :=
  let trimmed := trim_space ipAddress in if str_empty trimmed then "unknown" else trimmed.

Definition loginMaxFailures (s : Auth) : Z := if LoginMaxFailures (cfg s) <=? 0 then 5 else LoginMaxFailures (cfg s).
Definition loginFailureWindow (s : Auth) : Duration :=
  if LoginFailureWindow (cfg s) <=? 0 then 5 * Minute else LoginFailureWindow (cfg s).
Definition loginLockoutDuration (s : Auth) : Duration :=
  if LoginLockoutDuration (cfg s) <=? 0 then 5 * Minute else LoginLockoutDuration (cfg s).
Definition maxTrackedClients (s : Auth) : Z :=
  if maxTrackedLoginClients s <=? 0 then defaultMaxTrackedLoginClients else maxTrackedLoginClients s.

Definition loginAttemptExpired (a : loginAttemptState) (now : Time) (failureWindow : Duration) : bool :=
  if negb (is_zero (LockedUntil a)) then negb (after (LockedUntil a) now)
  else (0 <? FailedCount a) && (failureWindow <? now - FirstFailedAt a).

Definition loginLocked (s : Auth) (ipAddress : string) (now : Time) : bool * Auth :=
  let key := loginAttemptKey ipAddress in
  match loginAttempts s !! key with
  | None => (false, s)
  | Some attempt =>
    if loginAttemptExpired attempt now (loginFailureWindow s)
    then (false, with_attempts s (delete key (loginAttempts s)))
    else (after (LockedUntil attempt) now, s)
  end.

Definition pruneLoginAttemptsLocked (s : Auth) (now : Time) : Auth :=
  with_attempts s (filter (λ p, loginAttemptExpired p.2 now (loginFailureWindow s) = false) (loginAttempts s)).

Section auth.
Context `{!MapRange string loginAttemptState, !MapRange Z nat, !MapRange string trackedSession}.
Context (IDKey : string → string → Z → Z → Z → Z → option string).

(** The loop of [evictOldestLoginAttemptLocked]. *)
Fixpoint oldestFrom (oldestKey : string) (oldestUpdatedAt : Time) (l : list (string * loginAttemptState)) : string :=
  match l with
  | [] => oldestKey
  | (key, attempt) :: rest =>
    if str_empty oldestKey || before (UpdatedAt attempt) oldestUpdatedAt
       || ((UpdatedAt attempt =? oldestUpdatedAt) && str_ltb key oldestKey)
    then oldestFrom key (UpdatedAt attempt) rest
    else oldestFrom oldestKey oldestUpdatedAt rest
  end.

Definition evictOldestLoginAttemptLocked (s : Auth) : Auth :=
  let oldestKey := oldestFrom "" zero_time (range_list (loginAttempts s)) in
  if str_empty oldestKey then s else with_attempts s (delete oldestKey (loginAttempts s)).

Definition recordLoginFailure (s : Auth) (ipAddress : string) (now : Time) : Auth :=
  let key := loginAttemptKey ipAddress in
  let s := pruneLoginAttemptsLocked s now in
  let existing := loginAttempts s !! key in
  let attempt := match existing with Some a => a | None => zeroAttempt end in
  let attempt :=
    if (FailedCount attempt =? 0) || (loginFailureWindow s <? now - FirstFailedAt attempt)
    then mkAttempt now 0 zero_time zero_time else attempt in
  let count := FailedCount attempt + 1 in
  let locked := if loginMaxFailures s <=? count then now + loginLockoutDuration s else LockedUntil attempt in
  let attempt := mkAttempt (FirstFailedAt attempt) count locked now in
  let s :=
    match existing with
    | Some _ => s
    | None => if maxTrackedClients s <=? Z.of_nat (size (loginAttempts s)) then evictOldestLoginAttemptLocked s else s
    end in
  with_attempts s (<[key := attempt]> (loginAttempts s)).

Definition clearLoginFailures (s : Auth) (ipAddress : string) : Auth :=
  with_attempts s (delete (loginAttemptKey ipAddress) (loginAttempts s)).

(** [acquireLoginVerification]: a slot, then the client's in-flight mark. *)
Definition acquireLoginVerification (cancelled : bool) (s : Auth) (ipAddress : string) : res auth_error Auth :=
  if cancelled then Err ErrContext
  else if defaultLoginVerificationConcurrency <=? slotsUsed s then Err ErrTooManyAttempts
  else
    let key := loginAttemptKey ipAddress in
    if bool_decide (key ∈ loginInFlight s) then Err ErrTooManyAttempts
    else Ok (with_login s (slotsUsed s + 1) ({[key]} ∪ loginInFlight s)).

Definition releaseLoginVerification (s : Auth) (ipAddress : string) : Auth :=
  with_login s (slotsUsed s - 1) (loginInFlight s ∖ {[loginAttemptKey ipAddress]}).

(** ** Login, logout, password *)

Definition Bootstrap (io1 io2 : IO) (random : res string string) (now : Time) (s : Auth) : res auth_error unit * Auth :=
  match PasswordHash io1 (astore s) with
  | Err e => (Err (ErrAuthStore e), s)
  | Ok passwordHash =>
    if match passwordHash with Some h => negb (str_empty h) | None => false end then (Ok tt, s)
    else if str_empty (BootstrapPassword (cfg s)) then (Err ErrNotConfigured, s)
    else
      match hashPassword IDKey random (BootstrapPassword (cfg s)) with
      | Err e => (Err (ErrPasswordRejected e), s)
      | Ok hash =>
        match SetPasswordHash io2 (astore s) hash now with
        | Err e => (Err (ErrAuthStore e), s)
        | Ok db => (Ok tt, with_astore s db)
        end
      end
  end.

(** The part of [Login] between the acquisition and the release of the slot;
    [others] runs between the read of the credentials and the end of the
    verification. *)
Definition loginVerified (ioC ioS : IO) (newSessionID : res string string) (others : Auth → Auth)
    (now : Time) (s : Auth) (password userAgent ipAddress : string) : res auth_error AuthSession * Auth :=
  match LoadPasswordCredentials ioC (astore s) with
  | Err e => (Err (ErrAuthStore e), s)
  | Ok None => (Err ErrNotConfigured, s)
  | Ok (Some credentials) =>
    if str_empty (Hash credentials) then (Err ErrNotConfigured, s)
    else
      let s := others s in
      match verifyPassword IDKey (Hash credentials) password with
      | Err _ => (Err ErrLoginInvalid, recordLoginFailure s ipAddress now)
      | Ok _ =>
        let s := clearLoginFailures s ipAddress in
        let absoluteDeadline := now + SessionAbsoluteLifetime (cfg s) in
        let idleDeadline := now + SessionIdleTimeout (cfg s) in
        let expires := minTime idleDeadline absoluteDeadline in
        match newSessionID with
        | Err e => (Err (ErrSessionID e), s)
        | Ok sessionID =>
          match CreateSessionAtPasswordVersion ioS (astore s)
                  (mkSession sessionID localUserID now now expires userAgent ipAddress None (Version credentials))
                  (Version credentials) with
          | Err ErrPasswordVersionChanged => (Err ErrLoginInvalid, s)
          | Err e => (Err (ErrAuthStore e), s)
          | Ok db => (Ok (mkAuthSession sessionID localUserID now now expires), with_astore s db)
          end
        end
      end
  end.

Definition Login (ioC ioS : IO) (cancelled : bool) (newSessionID : res string string) (others : Auth → Auth)
    (now : Time) (s : Auth) (password userAgent ipAddress : string) : res auth_error AuthSession * Auth :=
  let '(locked, s) := loginLocked s ipAddress now in
  if locked then (Err ErrTooManyAttempts, s)
  else
    match acquireLoginVerification cancelled s ipAddress with
    | Err e => (Err e, s)
    | Ok s =>
      let '(r, s) := loginVerified ioC ioS newSessionID others now s password userAgent ipAddress in
      (r, releaseLoginVerification s ipAddress)
    end.

Definition notifySessionTermination (s : Auth) (t : SessionTermination) : Auth :=
  if hasHook s then
    mkAuth (cfg s) (astore s) (slotsUsed s) (loginAttempts s) (loginInFlight s) (maxTrackedLoginClients s) (hub s)
      (hasHook s) (terminations s ++ [t])
  else s.

Definition terminateSession (s : Auth) (sessionID : string) (reason : SessionTerminationReason) : option Auth :=
  h ← Terminate (hub s) sessionID reason;
  Some (notifySessionTermination (with_hub s h) (mkTermination sessionID false reason)).

Definition terminateAllSessions (s : Auth) (reason : SessionTerminationReason) : option Auth :=
  h ← TerminateAll (hub s) reason;
  Some (notifySessionTermination (with_hub s h) (mkTermination "" true reason)).

Definition Logout (io : IO) (now : Time) (s : Auth) (sessionID : string) : option (res auth_error unit * Auth) :=
  if str_empty sessionID then Some (Err ErrUnauthorized, s)
  else
    match RevokeSession io (astore s) sessionID now with
    | Err ErrNotFound => Some (Err ErrUnauthorized, s)
    | Err e => Some (Err (ErrAuthStore e), s)
    | Ok db => s ← terminateSession (with_astore s db) sessionID SessionTerminationLogout; Some (Ok tt, s)
    end.

Definition UpdatePassword (ioC ioU : IO) (random : res string string) (others : Auth → Auth) (now : Time) (s : Auth)
    (currentPassword newPassword : string) : option (res auth_error unit * Auth) :=
  match LoadPasswordCredentials ioC (astore s) with
  | Err e => Some (Err (ErrAuthStore e), s)
  | Ok None => Some (Err ErrNotConfigured, s)
  | Ok (Some credentials) =>
    if str_empty (Hash credentials) then Some (Err ErrNotConfigured, s)
    else
      match verifyPassword IDKey (Hash credentials) currentPassword with
      | Err _ => Some (Err ErrLoginInvalid, s)
      | Ok _ =>
        match hashPassword IDKey random newPassword with
        | Err e => Some (Err (ErrPasswordRejected e), s)
        | Ok updatedHash =>
          let s := others s in
          match UpdatePasswordAndRevokeSessions ioU (astore s) (Version credentials) updatedHash now with
          | Err ErrPasswordVersionChanged => Some (Err ErrLoginInvalid, s)
          | Err e => Some (Err (ErrAuthStore e), s)
          | Ok db => s ← terminateAllSessions (with_astore s db) SessionTerminationPasswordChanged; Some (Ok tt, s)
          end
        end
      end
  end.

(** ** Authentication of a request *)

Definition invalidSessionReason (s : Auth) (record : Session) (now : Time) : option SessionTerminationReason :=
  match s_revoked_at record with
  | Some _ => Some SessionTerminationRevoked
  | None =>
    if negb (before now (s_created_at record + SessionAbsoluteLifetime (cfg s)))
    then Some SessionTerminationAbsoluteExpired
    else if negb (before now (s_expires_at record)) then Some SessionTerminationIdleExpired
    else None
  end.

(** One round of the loop of [authenticateRequest]: the outcome, or [None] in the
    first component when the session changed under it and the loop continues.
    [io] holds the outcomes of the read, the revocation and the touch; [nowHub]
    is the clock reading inside the hub. *)
Definition authenticateOnce (io : IO * IO * IO) (now nowHub : Time) (s : Auth) (cookie : string)
    : option (option (res auth_error AuthSession) * Auth) :=
  let '(ioR, ioV, ioT) := io in
  match SessionAtCurrentPasswordVersion ioR (astore s) cookie with
  | Err ErrNotFound => s ← terminateSession s cookie SessionTerminationRevoked; Some (Some (Err ErrUnauthorized), s)
  | Err e => Some (Some (Err (ErrAuthStore e)), s)
  | Ok record =>
    match invalidSessionReason s record now with
    | Some reason =>
      let s := match RevokeSession ioV (astore s) (s_id record) now with Ok db => with_astore s db | Err _ => s end in
      s ← terminateSession s (s_id record) reason; Some (Some (Err ErrUnauthorized), s)
    | None =>
      let next := minTime (now + SessionIdleTimeout (cfg s)) (s_created_at record + SessionAbsoluteLifetime (cfg s)) in
      if sessionTouchInterval (SessionIdleTimeout (cfg s)) <=? now - s_last_seen_at record then
        match TouchSession ioT (astore s) (s_id record) (s_last_seen_at record) now next with
        | Err ErrSessionChanged => Some (None, s)
        | Err e => Some (Some (Err (ErrAuthStore e)), s)
        | Ok db =>
          let s := with_astore s db in
          let s := with_hub s (TouchPersisted (hub s) nowHub (s_id record) now next) in
          Some (Some (Ok (mkAuthSession (s_id record) (s_user record) (s_created_at record) now next)), s)
        end
      else
        let s := with_hub s (TouchLease (hub s) nowHub (s_id record) next) in
        Some (Some (Ok (mkAuthSession (s_id record) (s_user record) (s_created_at record) (s_last_seen_at record) next)), s)
    end
  end.

(** [authenticateRequest]: at most two rounds; [others] runs between them. *)
Definition authenticateRequest (io1 io2 : IO * IO * IO) (clock1 clock2 : Time * Time) (others : Auth → Auth)
    (s : Auth) (cookie : option string) : option (res auth_error AuthSession * Auth) :=
  match cookie with
  | None => Some (Err ErrUnauthorized, s)
  | Some value =>
    if str_empty value then Some (Err ErrUnauthorized, s)
    else
      match authenticateOnce io1 clock1.1 clock1.2 s value with
      | None => None
      | Some (Some r, s) => Some (r, s)
      | Some (None, s) =>
        match authenticateOnce io2 clock2.1 clock2.2 (others s) value with
        | None => None
        | Some (Some r, s) => Some (r, s)
        | Some (None, s) => Some (Err ErrConcurrentTouches, s)
        end
      end
  end.

(** [expireSession], the hub's [onExpired]. *)
Definition expireSession (io : IO) (now : Time) (s : Auth) (sessionID : string) (reason : SessionTerminationReason)
    : option Auth :=
  let s := match RevokeSession io (astore s) sessionID now with Ok db => with_astore s db | Err _ => s end in
  terminateSession s sessionID reason.

(** [TouchSessionActivity]; [ioE] is the outcome of the revocation when the lease
    has expired, [ioT] and [ioR] those of the touch and of the re-read. *)
Definition TouchSessionActivity (ioE ioT ioR : IO) (nowTouch now nowHub : Time) (s : Auth) (sessionID : string)
    : option (res auth_error unit * Auth) :=
  '(touch, h, expired) ← Touch (hub s) nowTouch sessionID;
  let s := with_hub s h in
  s ← match expired with Some reason => expireSession ioE now s sessionID reason | None => Some s end;
  if negb (active touch) then Some (Err ErrUnauthorized, s)
  else if negb (shouldPersist touch) then Some (Ok tt, s)
  else
    match TouchSession ioT (astore s) sessionID (expectedLastSeenAt touch) (activityAt touch) (expiresAt touch) with
    | Ok db =>
      let s := with_astore s db in
      Some (Ok tt, with_hub s (TouchPersisted (hub s) nowHub sessionID (activityAt touch) (expiresAt touch)))
    | Err ErrSessionChanged =>
      match SessionAtCurrentPasswordVersion ioR (astore s) sessionID with
      | Err ErrNotFound => s ← terminateSession s sessionID SessionTerminationRevoked; Some (Err ErrUnauthorized, s)
      | Err e => Some (Err (ErrAuthStore e), s)
      | Ok record =>
        match invalidSessionReason s record now with
        | Some reason => s ← terminateSession s sessionID reason; Some (Err ErrUnauthorized, s)
        | None =>
          Some (Ok tt, with_hub s (TouchPersisted (hub s) nowHub sessionID (s_last_seen_at record) (s_expires_at record)))
        end
      end
    | Err ErrNotFound => s ← terminateSession s sessionID SessionTerminationRevoked; Some (Err ErrUnauthorized, s)
    | Err e => Some (Err (ErrAuthStore e), s)
    end.

(** ** The cookie *)

Record Cookie := mkCookie {
  CookieName : string; CookieValue : string; CookiePath : string; HttpOnly : bool; SameSiteStrict : bool;
  CookieIsSecure : bool; CookieMaxAge : Z; CookieExpires : Time }.

Definition SessionCookie (s : Auth) (session : AuthSession) : Cookie :=
  let expires :=
    if negb (is_zero (as_created_at session)) && (0 <? SessionAbsoluteLifetime (cfg s))
    then as_created_at session + SessionAbsoluteLifetime (cfg s) else as_expires_at session in
  mkCookie (SessionCookieName (cfg s)) (as_id session) "/" true true (CookieSecure (cfg s)) 0 expires.

Definition ClearSessionCookie (s : Auth) : Cookie :=
  mkCookie (SessionCookieName (cfg s)) "" "/" true true (CookieSecure (cfg s)) (-1) 0.
End auth.

(** ** Throttling *)

Lemma loginAttemptKey_nonempty ip : loginAttemptKey ip ≠ "".
Proof. unfold loginAttemptKey. destruct (str_empty (trim_space ip)) eqn:E; [done|]. by boolify. Qed.

Lemma loginMaxFailures_pos s : 1 <= loginMaxFailures s.
Proof. unfold loginMaxFailures. destruct (Z.leb_spec (LoginMaxFailures (cfg s)) 0); lia. Qed.

Lemma loginFailureWindow_pos s : 0 < loginFailureWindow s.
Proof. unfold loginFailureWindow, Minute, Second. destruct (Z.leb_spec (LoginFailureWindow (cfg s)) 0); lia. Qed.

Lemma loginLockout_pos s : 0 < loginLockoutDuration s.
Proof. unfold loginLockoutDuration, Minute, Second. destruct (Z.leb_spec (LoginLockoutDuration (cfg s)) 0); lia. Qed.

Lemma maxTracked_pos s : 1 <= maxTrackedClients s.
Proof.
  unfold maxTrackedClients, defaultMaxTrackedLoginClients. destruct (Z.leb_spec (maxTrackedLoginClients s) 0); lia.
Qed.

Lemma unlocked_expired a now w : is_zero (LockedUntil a) = true →
  loginAttemptExpired a now w = (0 <? FailedCount a) && (w <? now - FirstFailedAt a).
Proof. intros H. unfold loginAttemptExpired. by rewrite H. Qed.

Section throttle.
Context `{!MapRange string loginAttemptState}.

Lemma record_cfg s ip now : cfg (recordLoginFailure s ip now) = cfg s ∧
  maxTrackedLoginClients (recordLoginFailure s ip now) = maxTrackedLoginClients s.
Proof.
  unfold recordLoginFailure, evictOldestLoginAttemptLocked. cbn.
  destruct (filter _ _ !! _); [done|]. by repeat case_match.
Qed.

(** The entry a failure leaves: the count restarts unless an unexpired entry is
    within its window. *)
Lemma record_entry s ip now a :
  loginAttempts s !! loginAttemptKey ip = Some a →
  loginAttemptExpired a now (loginFailureWindow s) = false → 0 < FailedCount a →
  now - FirstFailedAt a <= loginFailureWindow s →
  loginAttempts (recordLoginFailure s ip now) !! loginAttemptKey ip
  = Some (mkAttempt (FirstFailedAt a) (FailedCount a + 1)
            (if loginMaxFailures s <=? FailedCount a + 1 then now + loginLockoutDuration s else LockedUntil a) now).
Proof.
  intros Ha He Hc Hw. unfold recordLoginFailure. cbn.
  assert (filter (λ p, loginAttemptExpired p.2 now (loginFailureWindow s) = false) (loginAttempts s)
            !! loginAttemptKey ip = Some a) as Hf by by apply map_lookup_filter_Some.
  rewrite Hf. cbn. rewrite lookup_insert_eq.
  change (loginFailureWindow (pruneLoginAttemptsLocked s now)) with (loginFailureWindow s). rewrite (proj2 (Z.eqb_neq _ _)) by lia. rewrite (proj2 (Z.ltb_ge _ _)) by done. done.
Qed.

(** The first failure of a client that is not tracked. *)
Lemma record_first s ip now :
  loginAttempts s !! loginAttemptKey ip = None →
  loginAttempts (recordLoginFailure s ip now) !! loginAttemptKey ip
  = Some (mkAttempt now 1 (if loginMaxFailures s <=? 1 then now + loginLockoutDuration s else zero_time) now).
Proof.
  intros Ha. unfold recordLoginFailure. cbn.
  assert (filter (λ p, loginAttemptExpired p.2 now (loginFailureWindow s) = false) (loginAttempts s)
            !! loginAttemptKey ip = None) as Hf by (apply map_lookup_filter_None; by left).
  rewrite Hf. cbn. rewrite lookup_insert_eq. done.
Qed.

(** The failures of one client, in order. *)
Definition recordFailures (s : Auth) (ip : string) (times : list Time) : Auth :=
  foldl (λ s t, recordLoginFailure s ip t) s times.

Lemma recordFailures_entry s ip t0 times :
  loginAttempts s !! loginAttemptKey ip = None →
  Forall (λ t, t0 <= t <= t0 + loginFailureWindow s) times →
  Z.of_nat (length times) < loginMaxFailures s →
  let s' := recordFailures s ip (t0 :: times) in
  cfg s' = cfg s ∧
  ∃ a, loginAttempts s' !! loginAttemptKey ip = Some a ∧ FirstFailedAt a = t0 ∧
    FailedCount a = 1 + Z.of_nat (length times) ∧
    LockedUntil a = (if loginMaxFailures s <=? 1 + Z.of_nat (length times)
                     then default t0 (last times) + loginLockoutDuration s else zero_time).
Proof.
  intros Hn. induction times as [|t times IH] using rev_ind; intros Hf Hl.
  { cbn. split; [apply record_cfg|]. eexists. split; [by apply record_first|]. by cbn. }
  apply Forall_app in Hf as [Hf Ht]. rewrite Forall_singleton in Ht. rewrite length_app in Hl |- *. cbn [length] in Hl |- *.
  destruct IH as (Hcfg & a & Ha & Hfirst & Hcount & Hlock); [done|lia|].
  cbn. unfold recordFailures. cbn. rewrite foldl_snoc.
  fold (recordFailures (recordLoginFailure s ip t0) ip times).
  change (recordFailures (recordLoginFailure s ip t0) ip times) with (recordFailures s ip (t0 :: times)).
  set (s1 := recordFailures s ip (t0 :: times)) in *. clearbody s1.
  assert (loginFailureWindow s1 = loginFailureWindow s) as Hw by (unfold loginFailureWindow; by rewrite Hcfg).
  assert (loginMaxFailures s1 = loginMaxFailures s) as Hm by (unfold loginMaxFailures; by rewrite Hcfg).
  assert (loginLockoutDuration s1 = loginLockoutDuration s) as Hd by (unfold loginLockoutDuration; by rewrite Hcfg).
  rewrite (proj2 (Z.leb_gt _ _)) in Hlock by lia.
  split; [by rewrite (proj1 (record_cfg s1 ip t))|]. eexists. split.
  { apply record_entry; [exact Ha| |lia|rewrite Hfirst, Hw; lia].
    rewrite unlocked_expired by (by rewrite Hlock). rewrite Hw. apply andb_false_iff. right.
    apply Z.ltb_ge. rewrite Hfirst. lia. }
  cbn. rewrite Hm, Hd, last_snoc. cbn. split_and!; [done|lia|].
  replace (1 + Z.of_nat (length times + 1)) with (FailedCount a + 1) by lia. rewrite Hlock. done.
Qed.

(** lockout: after as many failures as allowed, all within the failure window
    of the first, the client is refused until the lockout that started with the
    last failure is over; with fewer failures it is not refused. *)
Theorem lockout_after_max_failures s ip t0 times now :
  loginAttempts s !! loginAttemptKey ip = None → 0 <= t0 →
  Forall (λ t, t0 <= t <= t0 + loginFailureWindow s) times →
  Z.of_nat (length times) < loginMaxFailures s →
  default t0 (last times) <= now →
  let s' := recordFailures s ip (t0 :: times) in
  (loginLocked s' ip now).1 = true ↔
  (1 + Z.of_nat (length times) = loginMaxFailures s ∧ now < default t0 (last times) + loginLockoutDuration s).
Proof.
  intros Hn H0 Hf Hl Hnow s'.
  destruct (recordFailures_entry s ip t0 times Hn Hf Hl) as (Hcfg & a & Ha & Hfirst & Hcount & Hlock).
  pose proof (loginLockout_pos s) as Hpos.
  assert (t0 <= default t0 (last times)) as Hlast.
  { destruct (last times) as [t|] eqn:E; cbn; [|lia]. apply last_Some in E as [l ->].
    apply Forall_app in Hf as [_ Hf]. rewrite Forall_singleton in Hf. lia. }
  unfold loginLocked. fold s' in Ha, Hcfg. rewrite Ha.
  destruct (Z.leb_spec (loginMaxFailures s) (1 + Z.of_nat (length times))) as [Hm|Hm].
  - unfold loginAttemptExpired. rewrite Hlock. unfold is_zero, zero_time, Second, after in *.
    rewrite (proj2 (Z.eqb_neq _ _)) by lia. cbn [negb].
    destruct (Z.ltb_spec now (default t0 (last times) + loginLockoutDuration s)); cbn [negb fst].
    + split; [lia|done].
    + split; [done|lia].
  - split; [|lia]. case_match; cbn; [done|]. rewrite Hlock. unfold after, zero_time, Second. rewrite Z.ltb_lt. lia.
Qed.
End throttle.

(** ** The size of the throttling table and the verification slots *)

Record login_inv (s : Auth) : Prop := {
  li_keys : loginAttempts s !! "" = None;
  li_size : Z.of_nat (size (loginAttempts s)) <= maxTrackedClients s;
  li_slots : slotsUsed s = Z.of_nat (size (loginInFlight s));
  li_limit : slotsUsed s <= defaultLoginVerificationConcurrency
}.

Section slots.
Context `{!MapRange string loginAttemptState}.

Lemma oldestFrom_in key t l :
  (∀ p, p ∈ l → p.1 ≠ "") → key ≠ "" ∨ l ≠ [] →
  oldestFrom key t l = key ∧ key ≠ "" ∨ (oldestFrom key t l ∈ l.*1 ∧ oldestFrom key t l ≠ "").
Proof.
  revert key t. induction l as [|[k a] l IH]; intros key t Hne Hnil; cbn [oldestFrom].
  { destruct Hnil as [?|?]; [by left|done]. }
  assert (k ≠ "") as Hk by (apply (Hne (k, a)); left).
  assert (∀ p, p ∈ l → p.1 ≠ "") as Hne' by (intros p Hp; apply Hne; by right).
  destruct (_ || _ || _) eqn:E.
  - right. destruct (IH k (UpdatedAt a) Hne' (or_introl Hk)) as [[-> _]|[? ?]].
    + split; [by left|done].
    + split; [by right|done].
  - boolify. destruct (IH key t Hne' ltac:(by left)) as [?|[? ?]]; [by left|]. right. split; [by right|done].
Qed.

(** Evicting from a table whose keys are not empty removes one entry. *)
Lemma evict_size s :
  loginAttempts s !! "" = None → loginAttempts s ≠ ∅ →
  size (loginAttempts s) = S (size (loginAttempts (evictOldestLoginAttemptLocked s))).
Proof.
  intros Hk Hne. unfold evictOldestLoginAttemptLocked.
  destruct (oldestFrom_in "" zero_time (range_list (loginAttempts s))) as [[_ ?]|[Hin Hnz]]; [| |done|].
  - intros [k a] Hin Hk0. apply range_list_elem in Hin. cbn in Hk0. subst k. congruence.
  - right. intros Hnil. apply Hne, map_to_list_empty_iff. apply Permutation_nil_r. by rewrite <- Hnil, range_perm.
  - destruct (str_empty _) eqn:E0; boolify; [done|]. cbn.
    apply list_elem_of_fmap in Hin as ([k a] & Heq & Hin%range_list_elem). cbn in *. rewrite Heq.
    rewrite map_size_delete_Some by eauto. symmetry. apply Nat.succ_pred.
    intros H0%map_size_empty_iff. done.
Qed.

Lemma prune_size s now : (size (loginAttempts (pruneLoginAttemptsLocked s now)) ≤ size (loginAttempts s))%nat.
Proof. cbn. apply map_subseteq_size, map_filter_subseteq. Qed.

Lemma record_inv s ip now : login_inv s → login_inv (recordLoginFailure s ip now).
Proof.
  intros [Hk Hs Hsl Hl]. pose proof (prune_size s now) as Hp. pose proof (maxTracked_pos s) as Hpos.
  assert (loginAttempts (pruneLoginAttemptsLocked s now) !! "" = None) as Hk'
    by (cbn; apply map_lookup_filter_None; by left).
  unfold recordLoginFailure. set (s1 := pruneLoginAttemptsLocked s now) in *.
  set (a := mkAttempt _ _ _ _). clearbody a.
  assert (maxTrackedClients s1 = maxTrackedClients s) as Hm by done.
  assert (slotsUsed s1 = slotsUsed s ∧ loginInFlight s1 = loginInFlight s) as [E1 E2] by done. clearbody s1.
  pose proof (loginAttemptKey_nonempty ip) as Hne.
  destruct (loginAttempts s1 !! loginAttemptKey ip) as [a0|] eqn:E; [|destruct (Z.leb_spec (maxTrackedClients s1)
    (Z.of_nat (size (loginAttempts s1)))) as [Hfull|Hroom]].
  - split; cbn; [by rewrite lookup_insert_ne| |congruence|lia]. rewrite map_size_insert_Some by eauto.
    change (maxTrackedClients (with_attempts s1 _)) with (maxTrackedClients s1). lia.
  - assert (loginAttempts s1 ≠ ∅) as Hnz by (intros He; rewrite He, map_size_empty in Hfull; lia).
    pose proof (evict_size s1 Hk' Hnz) as Hev. set (s2 := evictOldestLoginAttemptLocked s1) in *.
    assert (slotsUsed s2 = slotsUsed s1 ∧ loginInFlight s2 = loginInFlight s1 ∧
      maxTrackedClients s2 = maxTrackedClients s1 ∧ (∀ k, loginAttempts s1 !! k = None → loginAttempts s2 !! k = None))
      as (E3 & E4 & E5 & E6).
    { unfold s2, evictOldestLoginAttemptLocked. case_match; [done|]. split_and!; try done.
      intros k Hkn. cbn. apply lookup_delete_None. by right. }
    clearbody s2. split; cbn; [rewrite lookup_insert_ne by done; auto| |congruence|lia].
    rewrite map_size_insert_None by auto.
    change (maxTrackedClients (with_attempts s2 _)) with (maxTrackedClients s2). lia.
  - split; cbn; [by rewrite lookup_insert_ne| |congruence|lia]. rewrite map_size_insert_None by done.
    change (maxTrackedClients (with_attempts s1 _)) with (maxTrackedClients s1). lia.
Qed.

Lemma shrink_inv s m : login_inv s → m ⊆ loginAttempts s → login_inv (with_attempts s m).
Proof.
  intros [Hk Hs Hsl Hl] Hm. split; cbn; try done.
  - apply eq_None_not_Some. intros [a Ha]. rewrite (lookup_weaken _ _ _ _ Ha Hm) in Hk. done.
  - apply map_subseteq_size in Hm. change (maxTrackedClients (with_attempts s m)) with (maxTrackedClients s). lia.
Qed.

Context (IDKey : string → string → Z → Z → Z → Z → option string).

(** What concurrent logins of other clients keep. *)
Definition others_keep (key : string) (others : Auth → Auth) : Prop :=
  ∀ s, login_inv s → key ∈ loginInFlight s →
    login_inv (others s) ∧ key ∈ loginInFlight (others s).

Lemma loginVerified_inv ioC ioS newID others now s password agent ip r s' :
  others_keep (loginAttemptKey ip) others → login_inv s → loginAttemptKey ip ∈ loginInFlight s →
  loginVerified IDKey ioC ioS newID others now s password agent ip = (r, s') →
  login_inv s' ∧ loginAttemptKey ip ∈ loginInFlight s'.
Proof.
  intros Ho I Hin. unfold loginVerified.
  destruct (LoadPasswordCredentials _ _) as [[c|]|]; [|by intros [= _ <-]..].
  destruct (str_empty (Hash c)); [by intros [= _ <-]|].
  destruct (Ho s I Hin) as [I' Hin'].
  destruct (verifyPassword IDKey (Hash c) password).
  - assert (login_inv (clearLoginFailures (others s) ip)) as Ic.
    { apply shrink_inv; [done|]. apply delete_subseteq. }
    assert (loginAttemptKey ip ∈ loginInFlight (clearLoginFailures (others s) ip)) as Hc by done.
    destruct newID; [|by intros [= _ <-]].
    destruct (CreateSessionAtPasswordVersion _ _ _ _) as [db|[]]; intros [= _ <-]; try done.
    split; [|done]. by destruct Ic.
  - intros [= _ <-]. split; [by apply record_inv|].
    unfold recordLoginFailure, evictOldestLoginAttemptLocked. cbn.
    destruct (filter _ _ !! _); cbn; [done|]. by repeat case_match.
Qed.

(** throttling state is bounded: every [Login], whatever its outcome and
    whatever other logins do meanwhile, leaves at most the configured number of
    tracked clients, and exactly as many used slots as clients in flight, never
    more than two. *)
Theorem Login_keeps_bounds ioC ioS cancelled newID others now s password agent ip r s' :
  others_keep (loginAttemptKey ip) others → login_inv s →
  Login IDKey ioC ioS cancelled newID others now s password agent ip = (r, s') → login_inv s'.
Proof.
  intros Ho I. unfold Login. destruct (loginLocked s ip now) as [locked s1] eqn:El.
  assert (login_inv s1) as I1.
  { unfold loginLocked in El. repeat case_match; simplify_eq; try done. apply shrink_inv; [done|]. apply delete_subseteq. }
  destruct locked; [by intros [= _ <-]|]. unfold acquireLoginVerification.
  destruct cancelled; [by intros [= _ <-]|].
  destruct (Z.leb_spec defaultLoginVerificationConcurrency (slotsUsed s1)); [by intros [= _ <-]|].
  case_bool_decide as Hin; [by intros [= _ <-]|].
  destruct (loginVerified _ _ _ _ _ _ _ _ _ _) as [r' s2] eqn:Ev. intros [= <- <-].
  apply loginVerified_inv in Ev as [[Hk Hs Hsl Hlim] Hin2]; [|done| |cbn; set_solver].
  - split; cbn; try done.
    + rewrite Hsl, size_difference by set_solver. rewrite size_singleton.
      assert (size (loginInFlight s2) ≠ 0%nat) by (apply size_non_empty_iff; set_solver). lia.
    + lia.
  - destruct I1 as [Hk Hs Hsl Hlim]. split; cbn; try done; [|lia].
    rewrite Hsl, size_union, size_singleton by set_solver. lia.
Qed.
End slots.

(** ** Sessions *)

Section sessions.
Context `{!MapRange string loginAttemptState, !MapRange Z nat, !MapRange string trackedSession}.

Lemma loginLocked_store s ip now : astore (loginLocked s ip now).2 = astore s ∧ cfg (loginLocked s ip now).2 = cfg s.
Proof. unfold loginLocked. by repeat case_match. Qed.

Lemma acquire_store cancelled s ip s' :
  acquireLoginVerification cancelled s ip = Ok s' → astore s' = astore s ∧ cfg s' = cfg s.
Proof. unfold acquireLoginVerification. repeat case_match; try done. by intros [= <-]. Qed.

(** C4: a session is created only for the right password of the current password
    version, and only if the client was not locked out: the password matches the
    stored hash, and that hash's version is still the current one when the
    session is inserted, so a concurrent password change wins.  The session ends
    at the earlier of the idle and the absolute deadline. *)
Theorem Login_sound IDKey ioC ioS cancelled newID others now s password agent ip session s' :
  Login IDKey ioC ioS cancelled newID others now s password agent ip = (Ok session, s') →
  (loginLocked s ip now).1 = false ∧
  ∃ p row sAt, auth_password (astore s) = Some p ∧
    verifyPassword IDKey (p_hash p) password = Ok tt ∧
    auth_password (astore sAt) = auth_password (astore s') ∧
    (∃ p', auth_password (astore s') = Some p' ∧ p_version p' = p_version p) ∧
    auth_sessions (astore sAt) !! as_id session = None ∧
    auth_sessions (astore s') = <[as_id session := row]> (auth_sessions (astore sAt)) ∧
    x_revoked_at row = None ∧ x_password_version row = p_version p ∧
    x_expires_at row = rfc3339nano (as_expires_at session) ∧
    as_expires_at session = Z.min (now + SessionIdleTimeout (cfg sAt)) (now + SessionAbsoluteLifetime (cfg sAt)).
Proof.
  unfold Login. destruct (loginLocked s ip now) as [[] s1] eqn:El; [done|]. cbn.
  pose proof (loginLocked_store s ip now) as [Es _]. rewrite El in Es. cbn in Es.
  destruct (acquireLoginVerification _ _ _) as [s2|] eqn:Ea; [|done]. apply acquire_store in Ea as [Es2 _].
  destruct (loginVerified _ _ _ _ _ _ _ _ _ _) as [r s3] eqn:Ev. intros [= -> <-]. split; [done|].
  unfold loginVerified in Ev. rewrite Es2, Es in Ev. unfold LoadPasswordCredentials in Ev.
  destruct ioC; [done|]. cbn in Ev. destruct (auth_password (astore s)) as [p|]; [|done]. cbn in Ev.
  destruct (str_empty (p_hash p)); [done|].
  destruct (verifyPassword IDKey (p_hash p) password) as [[]|] eqn:Evp; [|done].
  destruct newID as [id|]; [|done].
  destruct (CreateSessionAtPasswordVersion _ _ _ _) as [db|[]] eqn:Ec; try done. injection Ev as <- <-.
  apply CreateSessionAt_Ok in Ec as ((p' & Hp' & Hv) & Hn & Hs & Hpw). cbn in *.
  exists p, (session_row (mkSession id localUserID now now
    (minTime (now + SessionIdleTimeout (cfg (others s2))) (now + SessionAbsoluteLifetime (cfg (others s2)))) agent ip
    None (p_version p)) (p_version p)), (others s2).
  split_and!; try done.
  - exists p'. by rewrite Hpw.
  - unfold minTime, before. case_match; [lia|]. destruct (Z.ltb_spec (now + SessionIdleTimeout (cfg (others s2)))
      (now + SessionAbsoluteLifetime (cfg (others s2)))); lia || done.
Qed.

(** The stored session is usable at an instant. *)
Definition usable (s : Auth) (id : string) (now : Time) (record : Session) : Prop :=
  ∃ row p, auth_sessions (astore s) !! id = Some row ∧ auth_password (astore s) = Some p ∧
    x_revoked_at row = None ∧ p_version p = x_password_version row ∧ scanSession id row = Ok record ∧
    now < s_created_at record + SessionAbsoluteLifetime (cfg s) ∧ now < s_expires_at record.

Lemma minTime_min a b : minTime a b = Z.min a b.
Proof. unfold minTime, before. destruct (Z.ltb_spec a b); lia. Qed.

Lemma authenticateOnce_Ok io now nowHub s cookie session s' :
  authenticateOnce io now nowHub s cookie = Some (Some (Ok session), s') →
  ∃ record, usable s cookie now record ∧ as_id session = cookie ∧ as_created_at session = s_created_at record ∧
    as_expires_at session
    = Z.min (now + SessionIdleTimeout (cfg s)) (s_created_at record + SessionAbsoluteLifetime (cfg s)).
Proof.
  unfold authenticateOnce. destruct io as [[ioR ioV] ioT].
  destruct (SessionAtCurrentPasswordVersion ioR (astore s) cookie) as [record|[]] eqn:Er; cycle 1.
  { by destruct (terminateSession _ _ _). } { done. } { done. } { done. }
  pose proof Er as (row & p & Hrow & Hp & Hv & Hscan)%SessionAt_Ok.
  pose proof (scanSession_fields _ _ _ Hscan) as (Hid & _ & _ & Hrev & _).
  unfold invalidSessionReason. destruct (s_revoked_at record) as [t|] eqn:Hr; [by destruct (terminateSession _ _ _)|].
  unfold before. destruct (Z.ltb_spec now (s_created_at record + SessionAbsoluteLifetime (cfg s))) as [H1|H1]; cbn [negb];
    [|by destruct (terminateSession _ _ _)].
  destruct (Z.ltb_spec now (s_expires_at record)) as [H2|H2]; cbn [negb]; [|by destruct (terminateSession _ _ _)].
  intros H. assert (usable s cookie now record) as Hu.
  { exists row, p. split_and!; try done. by apply Hrev. }
  exists record. destruct (Z.leb_spec (sessionTouchInterval (SessionIdleTimeout (cfg s))) (now - s_last_seen_at record)).
  - destruct (TouchSession _ _ _ _ _ _) as [db|[]]; try done. simplify_eq. cbn. rewrite minTime_min. done.
  - simplify_eq. cbn. rewrite minTime_min. done.
Qed.

(** C5: soundness of authentication: a request is accepted only while the session
    in the database is not revoked, was created under the current password and is
    within both deadlines, in the state read by the accepting round; the new
    deadline respects the absolute lifetime of the session. *)
Theorem authenticateRequest_sound io1 io2 clock1 clock2 others s cookie session s' :
  authenticateRequest io1 io2 clock1 clock2 others s cookie = Some (Ok session, s') →
  ∃ id sRead now record, cookie = Some id ∧ usable sRead id now record ∧ as_id session = id ∧
    (sRead = s ∧ now = clock1.1 ∨ now = clock2.1 ∧ ∃ s1, authenticateOnce io1 clock1.1 clock1.2 s id = Some (None, s1) ∧ sRead = others s1) ∧
    as_expires_at session <= s_created_at record + SessionAbsoluteLifetime (cfg sRead).
Proof.
  unfold authenticateRequest. destruct cookie as [id|]; [|done]. destruct (str_empty id); [done|].
  destruct (authenticateOnce io1 clock1.1 clock1.2 s id) as [[[r1|] s1]|] eqn:E1; [| |done].
  - intros [= -> <-]. apply authenticateOnce_Ok in E1 as (record & Hu & Hid & _ & He).
    exists id, s, clock1.1, record. split_and!; try done; [by left|lia].
  - destruct (authenticateOnce io2 clock2.1 clock2.2 (others s1) id) as [[[r2|] s2]|] eqn:E2; [|done|done].
    intros [= -> <-]. apply authenticateOnce_Ok in E2 as (record & Hu & Hid & _ & He).
    exists id, (others s1), clock2.1, record. split_and!; try done; [right; eauto|lia].
Qed.

(** ** The hub does not block the service *)

Lemma terminateSession_total s id reason :
  hub_inv (hub s) → ∃ s', terminateSession s id reason = Some s' ∧ hub_inv (hub s') ∧ astore s' = astore s ∧ cfg s' = cfg s.
Proof.
  intros I. destruct (terminateLocked_total (hub s) id reason I) as (h' & H & I' & _).
  unfold terminateSession, Terminate. rewrite H. cbn. eexists. split; [done|].
  unfold notifySessionTermination. cbn. by destruct (hasHook s).
Qed.

Lemma authenticateOnce_total io now nowHub s cookie :
  hub_inv (hub s) → ∃ r s', authenticateOnce io now nowHub s cookie = Some (r, s') ∧ hub_inv (hub s').
Proof.
  intros I. unfold authenticateOnce. destruct io as [[ioR ioV] ioT].
  destruct (SessionAtCurrentPasswordVersion _ _ _) as [record|[]]; [|destruct (terminateSession_total s cookie
    SessionTerminationRevoked I) as (? & -> & ? & _); cbn; eauto|eauto|eauto|eauto].
  destruct (invalidSessionReason s record now) as [reason|].
  - set (s1 := match RevokeSession _ _ _ _ with Ok _ => _ | Err _ => _ end).
    assert (hub_inv (hub s1)) as I1 by (unfold s1; by case_match).
    destruct (terminateSession_total s1 (s_id record) reason I1) as (? & -> & ? & _). cbn. eauto.
  - case_match; [|eexists _, _; split; [done|]; by apply touchLease_inv].
    destruct (TouchSession _ _ _ _ _ _) as [db|[]]; eauto. eexists _, _. split; [done|]. by apply touchPersisted_inv.
Qed.

Lemma expireSession_total io now s id reason :
  hub_inv (hub s) → ∃ s', expireSession io now s id reason = Some s' ∧ hub_inv (hub s').
Proof.
  intros I. unfold expireSession. set (s1 := match RevokeSession _ _ _ _ with Ok _ => _ | Err _ => _ end).
  assert (hub_inv (hub s1)) as I1 by (unfold s1; by case_match).
  destruct (terminateSession_total s1 id reason I1) as (? & ? & ? & _). eauto.
Qed.

(** no operation of the service blocks on the hub: on a hub that satisfies
    its invariant, logging out, changing the password, authenticating and
    touching a session all return, and keep the invariant. *)
Theorem auth_never_blocks IDKey s :
  hub_inv (hub s) →
  (∀ io now id, ∃ r s', Logout io now s id = Some (r, s') ∧ hub_inv (hub s')) ∧
  (∀ io1 io2 random now pw1 pw2, ∃ r s',
     UpdatePassword IDKey io1 io2 random (λ s, s) now s pw1 pw2 = Some (r, s') ∧ hub_inv (hub s')) ∧
  (∀ io1 io2 c1 c2 cookie, ∃ r s',
     authenticateRequest io1 io2 c1 c2 (λ s, s) s cookie = Some (r, s') ∧ hub_inv (hub s')) ∧
  (∀ ioE ioT ioR n1 n2 n3 id, ∃ r s',
     TouchSessionActivity ioE ioT ioR n1 n2 n3 s id = Some (r, s') ∧ hub_inv (hub s')).
Proof.
  intros I. split_and!; intros.
  - unfold Logout. case_match; [eauto|]. destruct (RevokeSession _ _ _ _) as [db|[]]; eauto.
    destruct (terminateSession_total (with_astore s db) id SessionTerminationLogout I) as (? & -> & ? & _). cbn. eauto.
  - unfold UpdatePassword. destruct (LoadPasswordCredentials _ _) as [[c|]|]; eauto. case_match; [eauto|].
    destruct (verifyPassword _ _ _); [|eauto]. destruct (hashPassword _ _ _); [|eauto].
    destruct (UpdatePasswordAndRevokeSessions _ _ _ _ _) as [db|[]]; eauto.
    destruct (TerminateAll_total (hub s) SessionTerminationPasswordChanged I) as (h' & Hterm & I' & _).
    unfold terminateAllSessions. cbn [hub with_astore]. rewrite Hterm. cbn. eexists _, _. split; [done|].
    unfold notifySessionTermination. cbn. by destruct (hasHook s).
  - unfold authenticateRequest. destruct cookie as [id|]; [|eauto]. case_match; [eauto|].
    destruct (authenticateOnce_total io1 c1.1 c1.2 s id I) as ([r1|] & s1 & -> & I1); [eauto|].
    destruct (authenticateOnce_total io2 c2.1 c2.2 s1 id I1) as ([r2|] & s2 & -> & I2); eauto.
  - unfold TouchSessionActivity. destruct (Touch_total (hub s) n1 id I) as (touch & h & expired & -> & Ih). cbn.
    assert (∃ s1, match expired with Some reason => expireSession ioE n2 (with_hub s h) id reason
      | None => Some (with_hub s h) end = Some s1 ∧ hub_inv (hub s1)) as (s1 & -> & I1).
    { destruct expired; [by apply expireSession_total|eauto]. }
    cbn. case_match; [eauto|]. case_match; [eauto|].
    destruct (TouchSession _ _ _ _ _ _) as [db|[]].
    + eexists _, _. split; [done|]. by apply touchPersisted_inv.
    + destruct (terminateSession_total s1 id SessionTerminationRevoked I1) as (? & -> & ? & _). cbn. eauto.
    + eauto.
    + destruct (SessionAtCurrentPasswordVersion _ _ _) as [record|[]]; eauto.
      * destruct (invalidSessionReason _ _ _) as [reason|].
        -- destruct (terminateSession_total s1 id reason I1) as (? & -> & ? & _). cbn. eauto.
        -- eexists _, _. split; [done|]. by apply touchPersisted_inv.
      * destruct (terminateSession_total s1 id SessionTerminationRevoked I1) as (? & -> & ? & _). cbn. eauto.
    + eauto.
Qed.
End sessions.

(** ** Ended sessions stay ended *)

(** The store calls of all components that reach the session and password
    tables; new sessions draw ids other than [id]. *)
Inductive auth_db_step (id : string) : DB → DB → Prop :=
| a_set_password io db hash now db' : SetPasswordHash io db hash now = Ok db' → auth_db_step id db db'
| a_update_password io db v hash now db' :
    UpdatePasswordAndRevokeSessions io db v hash now = Ok db' → auth_db_step id db db'
| a_create io db s v db' :
    s_id s ≠ id → CreateSessionAtPasswordVersion io db s v = Ok db' → auth_db_step id db db'
| a_touch io db sid t1 t2 t3 db' : TouchSession io db sid t1 t2 t3 = Ok db' → auth_db_step id db db'
| a_revoke io db sid now db' : RevokeSession io db sid now = Ok db' → auth_db_step id db db'
| a_prune io db now policy summary db' :
    PruneOperationalData io db now policy = Ok (summary, db') → auth_db_step id db db'.

Definition ended (db : DB) (id : string) : Prop :=
  ∀ r, auth_sessions db !! id = Some r → x_revoked_at r ≠ None.

Lemma ended_step id db db' : auth_db_step id db db' → ended db id → ended db' id.
Proof.
  intros Hs He. destruct Hs.
  - unfold SetPasswordHash in H. apply driver_Ok in H as [_ [= <-]]. exact He.
  - apply UpdatePassword_Ok in H as (_ & _ & _ & _ & H). intros r. rewrite H, lookup_fmap.
    intros (r0 & Hr0 & ->)%fmap_Some. apply He in Hr0. unfold revoke_if_open. by destruct (x_revoked_at r0) eqn:E; [rewrite E|].
  - apply CreateSessionAt_Ok in H0 as (_ & _ & H0 & _). intros r. rewrite H0, lookup_insert_ne by done. apply He.
  - unfold TouchSession in H. apply driver_Ok in H as [_ H]. destruct (auth_sessions db !! sid) as [r0|] eqn:Hr0; [|done].
    case_match; [|done]. injection H as <-. intros r. cbn.
    intros [[<- <-]|[_ Hr]]%lookup_insert_Some; [by apply He in Hr0|by apply He in Hr].
  - unfold RevokeSession in H. apply driver_Ok in H as [_ H]. destruct (auth_sessions db !! sid) as [r0|] eqn:Hr0; [|done].
    case_match; [done|]. injection H as <-. intros r. cbn.
    intros [[<- <-]|[_ Hr]]%lookup_insert_Some; [done|by apply He in Hr].
  - apply Prune_Ok in H as (_ & _ & Hs & _). intros r [Hr _]%Hs. by apply He in Hr.
Qed.

Lemma ended_steps id db db' : rtc (auth_db_step id) db db' → ended db id → ended db' id.
Proof. induction 1 as [|? ? ? Hs _ IH]; [done|]. intros He. apply IH. by eapply ended_step. Qed.

Lemma ended_not_usable s id now record : ended (astore s) id → ¬ usable s id now record.
Proof. intros He (row & p & Hr & _ & Hrev & _). by apply He in Hr. Qed.

(** C27: a logged-out session never authenticates again: after a successful
    [Logout] its record is unusable in every later state of the database, through
    any password changes, logins, touches, revocations and retention runs. *)
Theorem logout_is_final `{!MapRange Z nat} io now s id s' db t now' record :
  Logout io now s id = Some (Ok tt, s') →
  rtc (auth_db_step id) (astore s') db → astore t = db → ¬ usable t id now' record.
Proof.
  intros H Hsteps <-. apply ended_not_usable, (ended_steps id _ _ Hsteps). revert H.
  unfold Logout. case_match; [done|]. destruct (RevokeSession io (astore s) id now) as [db'|[]] eqn:Er; try done.
  unfold terminateSession. destruct (Terminate _ _ _) as [h|]; [|done]. intros [= <-].
  unfold RevokeSession in Er. apply driver_Ok in Er as [_ Er].
  destruct (auth_sessions (astore s) !! id) as [r0|]; [|done]. case_match; [done|]. injection Er as <-.
  unfold notifySessionTermination. intros r. cbn.
  destruct (hasHook s); cbn; rewrite lookup_insert_eq; by intros [= <-].
Qed.

(** C28: a password change ends every session: after a successful
    [UpdatePassword] no session that existed, whoever opened it, is ever usable
    again. *)
Theorem password_change_is_final `{!MapRange Z nat, !MapRange string trackedSession}
    IDKey io1 io2 random others now s pw1 pw2 s' id db t now' record :
  UpdatePassword IDKey io1 io2 random others now s pw1 pw2 = Some (Ok tt, s') →
  rtc (auth_db_step id) (astore s') db → astore t = db → ¬ usable t id now' record.
Proof.
  intros H Hsteps <-. apply ended_not_usable, (ended_steps id _ _ Hsteps). revert H.
  unfold UpdatePassword. destruct (LoadPasswordCredentials _ _) as [[c|]|]; try done. case_match; [done|].
  destruct (verifyPassword _ _ _); [|done]. destruct (hashPassword _ _ _); [|done].
  destruct (UpdatePasswordAndRevokeSessions _ _ _ _ _) as [db'|[]] eqn:Eu; try done.
  unfold terminateAllSessions. destruct (TerminateAll _ _) as [h|]; [|done]. intros [= <-].
  apply UpdatePassword_Ok in Eu as (_ & _ & _ & _ & Hs). unfold notifySessionTermination. intros r.
  assert (∀ (b : bool) x y, astore (if b then mkAuth (cfg x) (astore x) (slotsUsed x) (loginAttempts x) (loginInFlight x)
    (maxTrackedLoginClients x) (hub x) (hasHook x) y else x) = astore x) as Hst by by intros [].
  rewrite Hst. cbn. rewrite Hs, lookup_fmap. intros (r0 & _ & ->)%fmap_Some.
  unfold revoke_if_open. by destruct (x_revoked_at r0) eqn:E; [rewrite E|].
Qed.

(** ** Concrete instances *)

Definition demoAttempts : MapRange string loginAttemptState := default_range string loginAttemptState.
#[local] Existing Instance demoAttempts.
#[local] Existing Instance demoSubs.
#[local] Existing Instance demoTracked.

Definition demoConfig : Config := mkConfig (30 * Minute) (12 * Hour) "sid" true "" 5 0 0.
Definition demoLoginDB : DB := with_password emptyDB (Some (mkPasswordRow demoHash (rfc3339nano demoTime) 1)).
Definition demoAuth : Auth := NewAuth demoConfig demoLoginDB.
Definition demoLogin : res auth_error AuthSession * Auth :=
  Login demoKey None None false (Ok "sess_1") (λ s, s) demoTime demoAuth "correct horse battery" "agent" "10.0.0.1".
Definition demoSessionOf : AuthSession := mkAuthSession "sess_1" "local" demoTime demoTime (demoTime + 30 * Minute).

Lemma demoLogin_eq : demoLogin = (Ok demoSessionOf, demoLogin.2).
Proof. by vm_compute. Qed.

Lemma lockout_after_max_failures_witness :
  (loginLocked (recordFailures demoAuth "10.0.0.1" [10; 20; 30; 40; 50]) "10.0.0.1" 60).1 = true ↔
  (1 + Z.of_nat 4 = loginMaxFailures demoAuth ∧ 60 < 50 + loginLockoutDuration demoAuth).
Proof.
  apply (lockout_after_max_failures demoAuth "10.0.0.1" 10 [20; 30; 40; 50] 60).
  - done.
  - lia.
  - repeat constructor; by vm_compute.
  - by vm_compute.
  - by vm_compute.
Defined.

Lemma Login_keeps_bounds_witness : login_inv demoLogin.2.
Proof.
  apply (Login_keeps_bounds demoKey None None false (Ok "sess_1") (λ s, s) demoTime demoAuth "correct horse battery"
           "agent" "10.0.0.1" (Ok demoSessionOf)).
  - by intros s.
  - split; by vm_compute.
  - apply demoLogin_eq.
Defined.

Lemma Login_sound_witness : (loginLocked demoAuth "10.0.0.1" demoTime).1 = false.
Proof.
  apply (Login_sound demoKey None None false (Ok "sess_1") (λ s, s) demoTime demoAuth "correct horse battery"
           "agent" "10.0.0.1" demoSessionOf demoLogin.2 demoLogin_eq).
Defined.

Definition demoLoggedIn : Auth := demoLogin.2.
Definition demoAccepted : option (res auth_error AuthSession * Auth) :=
  authenticateRequest (None, None, None) (None, None, None) (demoTime + 20 * Minute, demoTime + 20 * Minute)
    (demoTime, demoTime) (λ s, s) demoLoggedIn (Some "sess_1").

Definition demoAcceptedState : Auth := match demoAccepted with Some (_, s) => s | None => demoAuth end.
Definition demoAcceptedSession : AuthSession :=
  mkAuthSession "sess_1" "local" demoTime (demoTime + 20 * Minute) (demoTime + 50 * Minute).
Lemma demoAccepted_eq :
  authenticateRequest (None, None, None) (None, None, None) (demoTime + 20 * Minute, demoTime + 20 * Minute)
    (demoTime, demoTime) (λ s, s) demoLoggedIn (Some "sess_1") = Some (Ok demoAcceptedSession, demoAcceptedState).
Proof. by vm_compute. Qed.

Lemma authenticateRequest_sound_witness : ∃ sRead now record, usable sRead "sess_1" now record.
Proof.
  destruct (authenticateRequest_sound (None, None, None) (None, None, None)
    (demoTime + 20 * Minute, demoTime + 20 * Minute) (demoTime, demoTime) (λ s, s) demoLoggedIn (Some "sess_1")
    demoAcceptedSession demoAcceptedState demoAccepted_eq) as (id & sr & now & rec & Hid & Hu & _).
  injection Hid as <-. exists sr, now, rec. exact Hu.
Defined.

Lemma demoLoggedIn_hub : hub_inv (hub demoLoggedIn).
Proof.
  assert (hub demoLoggedIn = newSessionLifecycleHub (30 * Minute) (12 * Hour)) as -> by (by vm_compute).
  apply newHub_inv.
Qed.

Lemma auth_never_blocks_witness :
  ∃ r s', Logout None demoTime demoLoggedIn "sess_1" = Some (r, s') ∧ hub_inv (hub s').
Proof.
  destruct (auth_never_blocks demoKey demoLoggedIn demoLoggedIn_hub) as [H _]. exact (H None demoTime "sess_1").
Defined.

Definition demoLogout : Auth :=
  match Logout None (demoTime + Minute) demoLoggedIn "sess_1" with Some (_, s) => s | None => demoAuth end.

Lemma logout_is_final_witness : ¬ usable demoLogout "sess_1" (demoTime + 2 * Minute) demoSession.
Proof.
  apply (logout_is_final None (demoTime + Minute) demoLoggedIn "sess_1" demoLogout (astore demoLogout)).
  - by vm_compute.
  - apply rtc_refl.
  - done.
Defined.

Definition demoChanged : Auth :=
  match UpdatePassword demoKey None None (Ok demoSalt) (λ s, s) (demoTime + Minute) demoLoggedIn
          "correct horse battery" "another long password" with Some (_, s) => s | None => demoAuth end.

Lemma password_change_is_final_witness : ¬ usable demoChanged "sess_1" (demoTime + 2 * Minute) demoSession.
Proof.
  apply (password_change_is_final demoKey None None (Ok demoSalt) (λ s, s) (demoTime + Minute) demoLoggedIn
    "correct horse battery" "another long password" demoChanged "sess_1" (astore demoChanged)).
  - by vm_compute.
  - apply rtc_refl.
  - done.
Defined.
